(* ===== verification/_CoqProject ===== *)
-Q . S2P
Prelude.v
Bytes.v
Virtqueue.v
HostFs.v
Reflink.v
ReflinkFaults.v
ReflinkRefine.v
ReflinkRecovery.v
ReflinkCrash.v
ReflinkList.v
Stream.v
VsockStream.v
VsockTxBuf.v
VsockPacket.v
VsockConn.v
VsockConnProofs.v
VsockQueues.v
VsockMuxer.v
VsockMuxerProofs.v
RateLimiter.v
RateLimiterProofs.v
BTree.v
VirtioMem.v
VirtioMemSpec.v
VirtioMemProofs.v
MemoryRanges.v
SnapshotPages.v
SnapshotPagesProofs.v
SnapshotMemory.v
SnapshotProofs.v
SnapshotRestore.v
MigrationProtocol.v
MigrationProtocolProofs.v
Migration.v
MigrationProofs.v
MigrationRun.v
AddressAllocator.v
DeviceBus.v
VmResources.v
IrqGroup.v
Msix.v
MsixProofs.v
Ioapic.v
IoapicProofs.v
PciConfig.v
PciConfigProofs.v
PciCaps.v
PciBars.v
PciConfigSpec.v
PciBdf.v
PciDevice.v
AddressManager.v
PciBus.v
PvPanic.v
DeviceManager.v
AddressManagerProofs.v
MoveBarProofs.v
PciRelocation.v
PciAttach.v
PathFs.v
SafePath.v
SafePathProofs.v
SafeDirProofs.v
SafePathRun.v
RawFile.v
QcowTables.v
QcowHeader.v
QcowImage.v
QcowDisk.v
QcowInv.v
QcowSteps.v
QcowCount.v
QcowLookup.v
QcowWrite.v
QcowIo.v
QcowOpen.v
QcowSpec.v
QcowNew.v
QcowConvert.v
QcowRun.v
