(* ===== verification/Prelude.v ===== *)
(** * Verification of CubeSandbox: disks, vsock, memory, PCI and safe paths

    CubeSandbox runs sandboxes in micro virtual machines.  This library models
    seven parts of its Rust code and proves what makes them correct: the
    copy-on-write storage engine of the sandboxes' disks, the qcow2 images that
    the hypervisor presents to its guests as disks, the vsock device through
    which a guest talks to its host, the rate limiter of the virtio devices, the
    memory of a machine, plugged and unplugged by its guest, saved, restored and
    moved to another host, the PCI and interrupt side of the hypervisor, from
    the allocators of addresses and the device buses to the configuration spaces
    that a guest programs, and the library with which the agent resolves paths
    that a guest controls.  The parts do not call each other; the components of
    a part do, and are composed as in the code.

    ** Conventions

    Paths are relative to src/.  A [w]-bit integer is a [Z]; operators that
    can overflow wrap, as in the release profile.  Stateful code is a function
    of the monad [M]: it ends with a value, with an error, or with [Crashed],
    which stands for a panic or for the death of the process.  Log lines are
    left out.  Code outside the repository is a class of operations with the
    laws the code relies on, and each class has an instance on which the
    examples run.  The summaries below are short; the hypotheses of a theorem
    are spelled out above it, with the lemma that shows what happens without
    them where the code then does something else.

    ** Storage engine (cubecow/src)

    - HostFs: the file system calls of the engine, as a tree of directories and
      files with a list of injected faults: each call may fail or be the one at
      which the process dies.
    - Reflink: engine/reflink.rs, one definition per method of the engine, the
      startup scan, and the configuration, error and metric types it uses.  The
      lock of the name index is held or taken as a whole; calls of different
      threads are not interleaved.
    - ReflinkFaults: under any faults, an operation changes only files of its
      own name, and one that reports an error leaves the index alone.
    - ReflinkRefine: without faults, the engine implements a flat store of
      independent objects.
    - ReflinkRecovery, ReflinkCrash: the startup scan rebuilds the index, and
      initialisation after a crash at any call finds the objects from before
      or after the operation.
    - ReflinkList: following page tokens lists everything once, in order.

    ** Disk images (hypervisor/qcow/src)

    - RawFile: raw_file.rs, reading and writing a file with direct I/O; the file
      is a sequence of bytes with a position, and each call on it may fail or
      transfer fewer bytes than it is asked to.  When no call does, direct I/O
      reads and writes the same bytes as plain I/O.
    - QcowTables: vec_cache.rs, qcow_raw_file.rs and refcount.rs, the tables of an
      image and their caches.  QcowHeader: the header of qcow.rs, the arithmetic
      of the layout and the rebuilding of reference counts.  QcowImage: opening
      and creating images, and the allocation of clusters.  QcowDisk: the
      operations of a disk, reading, writing, punching holes, seeking, flushing.
    - QcowInv: the invariant of an image: every cluster that is in use has one
      owner, the caches together with the file hold the tables, and a cluster in
      use is counted.  QcowSteps: the elementary steps keep it.  QcowCount,
      QcowLookup, QcowWrite, QcowIo, QcowOpen: so does every operation, and what
      each does to the disk, in the rules of [wp].
    - QcowSpec: the specification, a flat array of bytes with a position, and that
      an image implements it over any session of requests with flushes and
      reopenings in it; a full host file ends the session and spares the bytes
      outside of the range of the request.
    - QcowNew: an image that is created on an empty file is a disk of zeroes.
    - QcowConvert: converting between raw files and images; readers and writers
      are classes with laws, with raw files and images as instances.  If the host
      transfers what it is asked to, the converted file stores the same disk.
    - QcowRun: a checker of images, a small image, runs, and the cases in which an
      error or a short transfer loses data.

    ** Vsock (hypervisor/virtio-devices/src/vsock)

    - Stream: the host side of a connection, as an interface.  VsockStream:
      unix/stream.rs, the streams that implement it, and acknowledgements.
    - VsockTxBuf: csm/txbuf.rs, a queue of bytes in a ring.
    - VsockPacket: packet.rs, the header and the packets from descriptor chains;
      guest memory is a parameter.
    - VsockConn: csm/connection.rs and csm/mod.rs, the state machine.
      VsockConnProofs: a connection is a reliable stream both ways for packets
      that fit their buffers, and keeps within the buffer of a guest that does
      not take back what it granted.
    - VsockQueues: unix/muxer_rxq.rs and unix/muxer_killq.rs.
    - VsockMuxer: unix/muxer.rs.  VsockMuxerProofs: every call returns, and the
      pool, the listeners and the queues stay consistent.  The order of hash map
      iteration, the clock and the answers of epoll are arbitrary.

    ** Rate limiter (hypervisor/rate_limiter/src/lib.rs)

    - RateLimiter: token buckets and the limiter; [f64] is the binary64 format of
      [SpecFloat].  RateLimiterProofs: the refill is the documented one, what is
      granted beyond the rate is what requests larger than the bucket borrow, and
      retries are granted if the bucket gains a token between them.

    ** Memory (hypervisor)

    - Virtqueue: the descriptors of a chain.
    - VirtioMem: virtio-devices/src/mem.rs, the device through which a guest plugs
      and unplugs memory; the host's kernel, DMA handlers and the queue are a
      class.  VirtioMemSpec: its laws, and the specification, a set of plugged
      blocks.  VirtioMemProofs: the device implements the specification, and DMA
      mappings follow the blocks.
    - MemoryRanges: the tables of vm-migration/src/protocol.rs from bitmaps, and
      the ranges of virtio-mem; they are exact.
    - SnapshotPages: vmm/src/pagemap_anon.rs and vmm/src/soft_dirty.rs, which pages
      an incremental snapshot writes; /proc is a class.  SnapshotPagesProofs: under
      the laws of the page map, no page that changed is left out.
    - SnapshotMemory: the snapshots of vmm/src/memory_manager.rs, full, incremental,
      soft-dirty and from the dirty log, and reading them back; the file is written
      in pieces and any call may fail.  SnapshotProofs: over any history of guest
      activity and snapshots, a snapshot that succeeds leaves the guest's memory in
      the file.  SnapshotRestore: what the file holds is restored, and the cases
      outside the hypotheses in which it is not.  The exactness of snapshots from the
      dirty log is not shown; it fails on the second one.
    - MigrationProtocol: the messages of vm-migration/src/protocol.rs and the
      receiving side of a live migration in vmm/src/lib.rs.  Reading a configuration
      or a state and creating the machine from it is a class.
      MigrationProtocolProofs: round trips, and what each request does.
    - Migration: the sending side (vmm/src/lib.rs, vmm/src/vm.rs and the dirty logs of
      memory_manager.rs), with the receiver at the other end of the socket and a
      guest that runs until it is paused.  MigrationProofs: when a migration succeeds
      the other side runs with the memory of the paused machine, and one that returns
      an error leaves the machine running here.  MigrationRun: a run, and failures.

    ** PCI, interrupts and device buses (hypervisor)

    - Bytes, BTree: little-endian bytes, fields of bits, and the ordered maps of
      the standard library.
    - AddressAllocator: vm-allocator/src/address.rs; what it hands out is
      aligned, free and the highest such range.  VmResources: gsi.rs and
      system.rs of the same crate; every resource has one user.
    - DeviceBus: vm-device/src/bus.rs, which implements a placement of devices.
    - IrqGroup: the trait of interrupt groups (vm-device/src/interrupt) as a
      class with laws, and vmm/src/interrupt.rs as its instance, over a KVM that
      may refuse calls.
    - Msix: pci/src/msix.rs and the interrupts of virtio devices
      (virtio-devices/src/transport/pci_device.rs).  MsixProofs: against the
      laws of the group, no interrupt is lost or made up, and snapshots restore.
    - Ioapic: devices/src/ioapic.rs.  IoapicProofs: against the same laws, an
      interrupt of a pin arrives as the message that the guest programmed.
    - PciConfig: pci/src/configuration.rs.  PciConfigProofs, PciConfigSpec: it
      stays well formed and the guest changes writable bits only.  PciCaps: the
      list of capabilities is what was added.  PciBars: base address registers
      follow the protocol of PCI, for 32 and 64 bits.
    - PciBdf: the addresses of pci/src/lib.rs, and reading them back from text.
    - PciDevice: the trait of pci/src/device.rs as a class, resources
      (vm-device/src/lib.rs) and nodes of the device tree (vmm/src/device_tree.rs).
    - AddressManager: the address manager of vmm/src/device_manager.rs, which
      moves the region of a device; the calls of the virtual machine are a class.
      AddressManagerProofs: a region that moves keeps the allocators in agreement
      with the buses; a move that fails frees the range in the allocator only.
      MoveBarProofs: the notifications of a virtio device move with its region.
    - PciBus: pci/src/bus.rs, slots and the two ways to configuration spaces.  A
      device is shared between the bus and its owner, so devices are in a store.
    - PvPanic: devices/src/pvpanic.rs, the device for which the whole path is
      shown.  DeviceManager: how vmm/src/device_manager.rs attaches it.
    - PciRelocation: the ports and memory reach the same registers, and a region
      that a guest moves through them moves everywhere.  PciAttach: a device
      that is attached is known under one range everywhere.

    ** Safe paths (agent/libs/safe-path/src, agent/rustjail/src/mount.rs)

    - PathFs: paths of the standard library, and a file system of directories,
      files and links that other processes change before any call.
    - SafePath: scoped_path_resolver.rs, pinned_path_buf.rs and
      scoped_dir_builder.rs, and the mounts that use them.
    - SafePathProofs: a resolved path stays below its root whatever the file
      system answers, and is what the kernel finds for a process with that root
      when nobody interferes.  SafeDirProofs: directories are made below the root
      only, and exactly those that are missing.  SafePathRun: a file system,
      runs and races.

    ** Fuel

    [flush_to] makes at most two writes for the two parts of a ring, so three
    rounds are enough; [read_exact] and [write_all] transfer a byte per round at
    least or were interrupted, which the script of the calls says; [gcd]
    halves its operand every two rounds; the search for a port tries one port
    more than are in use; [recv_loop] and [sweep_killq] are bounded by the
    queue and by the pool; [hex_rev] prints the 16 digits of a number of 64
    bits at most. A range of an image is cut into as many pieces as it has
    clusters, two more, and one for each answer left in the script of the calls,
    which may cut a write short; a copy reads a byte per round at least; counting a
    cluster that needs a cluster to be counted goes no deeper than there are
    clusters left in the file. Resolving a path needs no fuel: it follows 255
    links at most, and the walk of the kernel 40. The loops that write or copy
    a range take as many rounds as the script of the calls has entries left,
    and one more, which is whole; a receiver that is asked to answer takes a
    turn per byte at most. Where fuel runs out the model panics or fails, and
    the theorems show that this does not happen. A guest can refill the queue
    of virtio-mem without end; [process_chains] takes any number of chains,
    and what is shown of it holds for every number.

    ** Not modelled

    Of the multiplexer: accepting host connections, parsing their commands,
    passing descriptors, and the debug port configuration; timestamps that are
    only logged. Of memory: creating and hot-plugging regions, memory given
    back by the balloon between two incremental snapshots, local migration,
    which passes descriptors, and the thread of virtio-mem. Of PCI: MSI, VFIO,
    the tables of class codes, more than one segment, the virtio transport
    beyond its interrupts, and the creation of devices other than pvpanic. Of
    images: backing files, which the code refuses, opening and cloning the
    host file, the asynchronous backends, and VHD and VHDX. Of safe paths:
    descriptors are not closed, and canonicalizing a path is one step. The
    vsock device and the other devices, the rest of the virtual machine
    manager and of the agent, the shim and the HTTP services. *)
From stdpp Require Import base gmap strings list fin_maps sorting pretty.
From Stdlib Require Import ZArith Lia.

Declare Scope cube_scope.
Delimit Scope cube_scope with cube.

(** ** Machine integers

    A [w]-bit unsigned integer of the source is a [Z] in [0, 2^w).  The
    crates are built with Cargo's default release profile, in which an
    overflowing [+], [-] or [*] wraps, so plain operators of the source that
    can overflow are translated to the wrapping operations below. *)

Definition wrap (w x : Z) : Z := x mod 2 ^ w.

Definition wadd (w x y : Z) : Z := wrap w (x + y).
Definition wsub (w x y : Z) : Z := wrap w (x - y).
Definition wmul (w x y : Z) : Z := wrap w (x * y).

(** [checked_add], [checked_sub] and [saturating_sub] of the standard library. *)
Definition checked_add (w x y : Z) : option Z :=
  if decide (x + y < 2 ^ w)%Z then Some (x + y)%Z else None.
Definition checked_sub (x y : Z) : option Z :=
  if decide (y <= x)%Z then Some (x - y)%Z else None.
Definition saturating_sub (x y : Z) : Z := Z.max 0 (x - y).

Definition in_width (w x : Z) : Prop := (0 <= x < 2 ^ w)%Z.

#[export] Instance in_width_dec w x : Decision (in_width w x).
Proof. unfold in_width. apply _. Defined.

Definition U64_MAX : Z := 2 ^ 64 - 1.
Definition USIZE_MAX : Z := U64_MAX.

Lemma wrap_small w x : in_width w x -> wrap w x = x.
Proof. intros [? ?]. unfold wrap. by apply Z.mod_small. Qed.

Lemma wrap_in_width w x : (0 <= w)%Z -> in_width w (wrap w x).
Proof. intros Hw. apply Z.mod_pos_bound. by apply Z.pow_pos_nonneg. Qed.

Lemma wrap_wrap w x : wrap w (wrap w x) = wrap w x.
Proof. unfold wrap. apply Zmod_mod. Qed.

Lemma wadd_wrap_l w x y : wadd w (wrap w x) y = wadd w x y.
Proof. unfold wadd, wrap. apply Zplus_mod_idemp_l. Qed.

Lemma wadd_wrap_r w x y : wadd w x (wrap w y) = wadd w x y.
Proof. unfold wadd, wrap. apply Zplus_mod_idemp_r. Qed.

Lemma wsub_wrap_l w x y : wsub w (wrap w x) y = wsub w x y.
Proof. unfold wsub, wrap. apply Zminus_mod_idemp_l. Qed.

Lemma wsub_wrap_r w x y : wsub w x (wrap w y) = wsub w x y.
Proof. unfold wsub, wrap. apply Zminus_mod_idemp_r. Qed.

Lemma wadd_small w x y : in_width w (x + y) -> wadd w x y = (x + y)%Z.
Proof. apply wrap_small. Qed.

Lemma wsub_small w x y : in_width w (x - y) -> wsub w x y = (x - y)%Z.
Proof. apply wrap_small. Qed.

Lemma wmul_small w x y : in_width w (x * y) -> wmul w x y = (x * y)%Z.
Proof. apply wrap_small. Qed.

(** The wrap-around of a counter is invisible modulo a power of two. *)
Lemma wrap_mod w k x : (0 <= k <= w)%Z -> (wrap w x mod 2 ^ k = x mod 2 ^ k)%Z.
Proof.
  intros Hk. unfold wrap. apply Z.mod_mod_divide.
  exists (2 ^ (w - k))%Z. rewrite <- Z.pow_add_r by lia. f_equal. lia.
Qed.

(** Moving ahead on a ring of [n] cells. *)
Lemma mod_add_cases x y n :
  (0 < n)%Z -> (0 <= y <= n)%Z ->
  ((x + y) mod n = x mod n + y /\ x mod n + y < n)%Z \/
  ((x + y) mod n = x mod n + y - n /\ n <= x mod n + y)%Z.
Proof.
  intros Hn Hy. pose proof (Z.mod_pos_bound x n Hn). rewrite <- (Zplus_mod_idemp_l x y).
  destruct (decide (x mod n + y < n)%Z) as [Hlt|Hge].
  - left. split; [|done]. apply Z.mod_small. lia.
  - right. split; [|lia]. symmetry. apply (Z.mod_unique _ _ 1); lia.
Qed.

Create HintDb cube.
Create Rewrite HintDb cube.
Create HintDb respects.
#[export] Hint Resolve wrap_small wrap_in_width wadd_small wsub_small wmul_small : cube.
#[export] Hint Rewrite wrap_wrap wadd_wrap_l wadd_wrap_r wsub_wrap_l wsub_wrap_r : cube.

(** ** Results

    [Result<T, E>] of the source. *)
Inductive result (E A : Type) : Type :=
| Ok (a : A)
| Err (e : E).
Arguments Ok {E A} a.
Arguments Err {E A} e.

Definition is_ok {E A} (r : result E A) : bool :=
  match r with Ok _ => true | Err _ => false end.

(** ** Stateful, fallible, crashable computations

    A computation over a state [S] returns a value, an error value, or stops
    because the host crashed or the code panicked in the middle of it.  State changes made before
    an error or a crash persist: nothing is rolled back unless the program
    does it. *)
Inductive outcome (E A : Type) : Type :=
| Done (a : A)
| Fail (e : E)
| Crashed.
Arguments Done {E A} a.
Arguments Fail {E A} e.
Arguments Crashed {E A}.

Definition M (S E A : Type) : Type := S -> outcome E A * S.

Section monad.
Context {S E : Type}.

Definition ret {A} (a : A) : M S E A := fun s => (Done a, s).
Definition throw {A} (e : E) : M S E A := fun s => (Fail e, s).
(** A panic. *)
Definition crash {A} : M S E A := fun s => (Crashed, s).
Definition get : M S E S := fun s => (Done s, s).
Definition modify (f : S -> S) : M S E unit := fun s => (Done tt, f s).

Definition bind {A B} (m : M S E A) (f : A -> M S E B) : M S E B := fun s =>
  match m s with
  | (Done a, s') => f a s'
  | (Fail e, s') => (Fail e, s')
  | (Crashed, s') => (Crashed, s')
  end.

(** [catch m] runs [m] and returns its [Result] as a value; a crash is not
    catchable. *)
Definition catch {A} (m : M S E A) : M S E (result E A) := fun s =>
  match m s with
  | (Done a, s') => (Done (Ok a), s')
  | (Fail e, s') => (Done (Err e), s')
  | (Crashed, s') => (Crashed, s')
  end.

(** The same where the caller has errors of its own. *)
Definition attempt {E' A} (m : M S E A) : M S E' (result E A) := fun s =>
  match m s with
  | (Done a, s') => (Done (Ok a), s')
  | (Fail e, s') => (Done (Err e), s')
  | (Crashed, s') => (Crashed, s')
  end.

(** [let _ = m;] *)
Definition ignore {A} (m : M S E A) : M S E unit := fun s =>
  match m s with
  | (Crashed, s') => (Crashed, s')
  | (_, s') => (Done tt, s')
  end.

(** [l[i]], which panics out of range. *)
Definition at_index {A} (l : list A) (i : nat) : M S E A :=
  match l !! i with Some a => ret a | None => crash end.

Definition of_result {A} (r : result E A) : M S E A :=
  match r with Ok a => ret a | Err e => throw e end.
End monad.

(** [m.map_err(f)] *)
Definition map_err {S E E' A} (f : E -> E') (m : M S E A) : M S E' A := fun s =>
  match m s with
  | (Done a, s') => (Done a, s')
  | (Fail e, s') => (Fail (f e), s')
  | (Crashed, s') => (Crashed, s')
  end.

(** A computation on a part of the state. *)
Definition zoom {S T E A} (view : S -> T) (put : T -> S -> S) (m : M T E A) : M S E A := fun s =>
  let '(r, t) := m (view s) in (r, put t s).

Lemma bind_get {S E B} (f : S -> M S E B) s : bind get f s = f s s.
Proof. done. Qed.
Lemma bind_ret {S E A B} (a : A) (f : A -> M S E B) s : bind (ret a) f s = f a s.
Proof. done. Qed.
Lemma bind_modify {S E B} g (f : unit -> M S E B) s : bind (modify g) f s = f tt (g s).
Proof. done. Qed.

(** Running a computation whose first step is known. *)
Lemma bind_assoc {S E A B C} (m : M S E A) (f : A -> M S E B) (g : B -> M S E C) s :
  bind (bind m f) g s = bind m (fun a => bind (f a) g) s.
Proof. unfold bind. by destruct (m s) as [[]]. Qed.
Lemma bind_inv_done {S E A B} (m : M S E A) (f : A -> M S E B) s b s' :
  bind m f s = (Done b, s') -> exists a s1, m s = (Done a, s1) /\ f a s1 = (Done b, s').
Proof. unfold bind. destruct (m s) as [[a|e|] s1]; intros; simplify_eq; eauto. Qed.
Lemma bind_done {S E A B} (m : M S E A) (f : A -> M S E B) s a s' :
  m s = (Done a, s') -> bind m f s = f a s'.
Proof. intros Hm. unfold bind. by rewrite Hm. Qed.
Lemma bind_fail {S E A B} (m : M S E A) (f : A -> M S E B) s e s' :
  m s = (Fail e, s') -> bind m f s = (Fail e, s').
Proof. intros Hm. unfold bind. by rewrite Hm. Qed.
Lemma bind_crash {S E A B} (m : M S E A) (f : A -> M S E B) s s' :
  m s = (Crashed, s') -> bind m f s = (Crashed, s').
Proof. intros Hm. unfold bind. by rewrite Hm. Qed.
Lemma catch_done {S E A} (m : M S E A) s a s' :
  m s = (Done a, s') -> catch m s = (Done (Ok a), s').
Proof. intros Hm. unfold catch. by rewrite Hm. Qed.
Lemma ignore_done {S E A} (m : M S E A) s a s' :
  m s = (Done a, s') -> ignore m s = (Done tt, s').
Proof. intros Hm. unfold ignore. by rewrite Hm. Qed.
Lemma map_err_done {S E E' A} (f : E -> E') (m : M S E A) s a s' :
  m s = (Done a, s') -> map_err f m s = (Done a, s').
Proof. intros Hm. unfold map_err. by rewrite Hm. Qed.

Lemma zoom_run {S T E A} (view : S -> T) put (m : M T E A) s r t :
  m (view s) = (r, t) -> zoom view put m s = (r, put t s).
Proof. intros Hm. unfold zoom. by rewrite Hm. Qed.

Notation "'let*' x ':=' m 'in' k" := (bind m (fun x => k))
  (at level 10, x pattern, m at level 100, k at level 200) : cube_scope.
Notation "m ';;;' k" := (bind m (fun _ => k))
  (at level 100, k at level 200, right associativity) : cube_scope.
Open Scope cube_scope.

(** A computation respects a relation on states when every run of it, however
    it ends, takes a state to a related one.  For a preorder this composes, so
    facts that hold under every fault and crash are proved one call at a time. *)
Section respects.
Context {S E : Type} (R : S -> S -> Prop) `{!PreOrder R}.

Definition respects {A} (m : M S E A) : Prop := forall s, R s (m s).2.

Lemma respects_ret {A} (a : A) : respects (ret a).
Proof. intros s. reflexivity. Qed.
Lemma respects_throw {A} (e : E) : respects (throw (A := A) e).
Proof. intros s. reflexivity. Qed.
Lemma respects_get : respects get.
Proof. intros s. reflexivity. Qed.
Lemma respects_modify f : (forall s, R s (f s)) -> respects (modify f).
Proof. intros Hf s. apply Hf. Qed.
Lemma respects_crash {A} : respects (crash (A := A)).
Proof. intros s. reflexivity. Qed.
Lemma respects_of_result {A} (r : result E A) : respects (of_result r).
Proof. destruct r; intros s; reflexivity. Qed.

Lemma respects_bind {A B} (m : M S E A) (f : A -> M S E B) :
  respects m -> (forall a, respects (f a)) -> respects (bind m f).
Proof.
  intros Hm Hf s. unfold bind. specialize (Hm s).
  destruct (m s) as [[a|e|] s']; simpl in *; [|done|done].
  etrans; [done|apply Hf].
Qed.

Lemma respects_catch {A} (m : M S E A) : respects m -> respects (catch m).
Proof. intros Hm s. unfold catch. specialize (Hm s). by destruct (m s) as [[]]. Qed.
Lemma respects_ignore {A} (m : M S E A) : respects m -> respects (ignore m).
Proof. intros Hm s. unfold ignore. specialize (Hm s). by destruct (m s) as [[]]. Qed.
End respects.

Lemma respects_map_err {S E E' A} (R : S -> S -> Prop) (f : E -> E') (m : M S E A) :
  respects R m -> respects R (map_err f m).
Proof. intros Hm s. unfold map_err. specialize (Hm s). by destruct (m s) as [[]]. Qed.

#[export] Hint Resolve respects_ret respects_throw respects_get respects_of_result
  respects_catch respects_ignore respects_map_err : respects.

Lemma respects_attempt {S E E' A} (R : S -> S -> Prop) (m : M S E A) :
  respects R m -> respects R (attempt (E' := E') m).
Proof. intros Hm s. unfold attempt. specialize (Hm s). by destruct (m s) as [[]]. Qed.

(** One step through the structure of a program. *)
Ltac respects_basic :=
  match goal with
  | |- respects _ (bind _ _) => apply respects_bind; [apply _| |intros ?]
  | |- respects _ (ret _) => apply respects_ret; apply _
  | |- respects _ (throw _) => apply respects_throw; apply _
  | |- respects _ crash => apply respects_crash; apply _
  | |- respects _ get => apply respects_get; apply _
  | |- respects _ (of_result _) => apply respects_of_result; apply _
  | |- respects _ (catch _) => apply respects_catch
  | |- respects _ (attempt _) => apply respects_attempt
  | |- respects _ (ignore _) => apply respects_ignore
  | |- respects _ (map_err _ _) => apply respects_map_err
  | |- respects _ (modify _) => apply respects_modify; intros ?
  | |- respects _ (match ?x with _ => _ end) => destruct x
  end.

(** The part [f] of the state is left alone. *)
Definition kept {S T} (f : S -> T) (s s' : S) : Prop := f s' = f s.
#[export] Instance kept_preorder {S T} (f : S -> T) : PreOrder (kept f).
Proof. split; [done|]. unfold kept. intros x y z. congruence. Qed.

(** ** What a run establishes

    [wp m Q X s]: run from [s], [m] does not crash; it ends with a value and a
    state that satisfy [Q], or with an error and a state that satisfy [X]. *)
Section wp.
Context {S E : Type}.

Definition wp {A} (m : M S E A) (Q : A -> S -> Prop) (X : E -> S -> Prop) (s : S) : Prop :=
  match m s with
  | (Done a, s') => Q a s'
  | (Fail e, s') => X e s'
  | (Crashed, _) => False
  end.

Lemma wp_bind {A B} (m : M S E A) (f : A -> M S E B) Q X s :
  wp m (fun a => wp (f a) Q X) X s -> wp (bind m f) Q X s.
Proof. unfold wp, bind. by destruct (m s) as [[]]. Qed.

Lemma wp_mono {A} (m : M S E A) (Q Q' : A -> S -> Prop) (X X' : E -> S -> Prop) s :
  wp m Q X s -> (forall a s', Q a s' -> Q' a s') -> (forall e s', X e s' -> X' e s') ->
  wp m Q' X' s.
Proof. unfold wp. destruct (m s) as [[]]; auto. Qed.

Lemma wp_ret {A} (a : A) (Q : A -> S -> Prop) (X : E -> S -> Prop) s : Q a s -> wp (ret a) Q X s.
Proof. done. Qed.
Lemma wp_throw {A} (e : E) (Q : A -> S -> Prop) (X : E -> S -> Prop) s : X e s -> wp (throw e) Q X s.
Proof. done. Qed.
Lemma wp_get (Q : S -> S -> Prop) (X : E -> S -> Prop) s : Q s s -> wp get Q X s.
Proof. done. Qed.
Lemma wp_modify f (Q : unit -> S -> Prop) (X : E -> S -> Prop) s :
  Q tt (f s) -> wp (modify f) Q X s.
Proof. done. Qed.
Lemma wp_catch {A} (m : M S E A) (Q : result E A -> S -> Prop) X s :
  wp m (fun a => Q (Ok a)) (fun e => Q (Err e)) s -> wp (catch m) Q X s.
Proof. unfold wp, catch. by destruct (m s) as [[]]. Qed.
Lemma wp_ignore {A} (m : M S E A) (Q : unit -> S -> Prop) X s :
  wp m (fun _ => Q tt) (fun _ => Q tt) s -> wp (ignore m) Q X s.
Proof. unfold wp, ignore. by destruct (m s) as [[]]. Qed.
End wp.

(** ** Computations on a part of the state *)
Section zoom.
Context {S T E : Type} (view : S -> T) (put : T -> S -> S).

Lemma wp_zoom {A} (m : M T E A) (Q : A -> S -> Prop) X s :
  wp m (fun a t => Q a (put t s)) (fun e t => X e (put t s)) (view s) -> wp (zoom view put m) Q X s.
Proof. unfold wp, zoom. by destruct (m (view s)) as [[] t]. Qed.

Lemma wp_zoom_bind {A B} (m : M T E A) (f : A -> M T E B) (Q : B -> S -> Prop) X s :
  (forall t s, view (put t s) = t) -> (forall t t' s, put t' (put t s) = put t' s) ->
  wp (zoom view put m) (fun a => wp (zoom view put (f a)) Q X) X s -> wp (zoom view put (bind m f)) Q X s.
Proof.
  intros Hview Hput. unfold wp, zoom, bind. destruct (m (view s)) as [[a|e|] t]; [|done..].
  rewrite Hview. destruct (f a t) as [[] t']; by rewrite ?Hput.
Qed.
End zoom.

Lemma wp_map_err {S E E' A} (f : E -> E') (m : M S E A) (Q : A -> S -> Prop) (X : E' -> S -> Prop) s :
  wp m Q (fun e => X (f e)) s -> wp (map_err f m) Q X s.
Proof. unfold wp, map_err. by destruct (m s) as [[]]. Qed.

Lemma wp_attempt {S E E' A} (m : M S E A) (Q : result E A -> S -> Prop) (X : E' -> S -> Prop) s :
  wp m (fun a => Q (Ok a)) (fun e => Q (Err e)) s -> wp (attempt m) Q X s.
Proof. unfold wp, attempt. by destruct (m s) as [[]]. Qed.
