(* ===== verification/Bytes.v ===== *)
(** Bytes and bits: little-endian integers, and the bit operators of unsigned
    integers of a fixed width. *)
From stdpp Require Import base numbers list.
From S2P Require Import Prelude.

(** ** Little-endian integers

    [LittleEndian::read_u16], [read_u32], [read_u64] and their writers. *)
Fixpoint le_value (bytes : list Z) : Z :=
  match bytes with
  | [] => 0%Z
  | b :: rest => (b + 256 * le_value rest)%Z
  end.

Fixpoint le_bytes (n : nat) (v : Z) : list Z :=
  match n with
  | 0 => []
  | S n => (v mod 256)%Z :: le_bytes n (v / 256)%Z
  end.

Lemma le_bytes_length n v : length (le_bytes n v) = n.
Proof. revert v. induction n as [|n IH]; intros v; [done|]. simpl. by rewrite IH. Qed.

Lemma le_value_bytes n v :
  (0 <= v < 2 ^ (8 * Z.of_nat n))%Z -> le_value (le_bytes n v) = v.
Proof.
  revert v. induction n as [|n IH]; intros v Hv; [simpl in *; lia|].
  cbn [le_bytes le_value]. rewrite IH.
  - pose proof (Z.div_mod v 256). lia.
  - replace (8 * Z.of_nat (S n))%Z with (8 * Z.of_nat n + 8)%Z in Hv by lia.
    rewrite Z.pow_add_r in Hv by lia. split; [apply Z.div_pos; lia|].
    apply Z.div_lt_upper_bound; lia.
Qed.

(** A slice of bytes. *)
Definition byte_ok (b : Z) : Prop := (0 <= b < 256)%Z.

Lemma le_value_width bytes :
  Forall byte_ok bytes -> in_width (8 * Z.of_nat (length bytes)) (le_value bytes).
Proof.
  unfold in_width. induction 1 as [|b l Hb _ IH]; [simpl; lia|]. cbn [le_value length].
  replace (8 * Z.of_nat (S (length l)))%Z with (8 + 8 * Z.of_nat (length l))%Z by lia.
  rewrite Z.pow_add_r by lia. unfold byte_ok in Hb. lia.
Qed.

Lemma le_bytes_ok n v : Forall byte_ok (le_bytes n v).
Proof.
  revert v. induction n as [|n IH]; intros v; cbn [le_bytes]; constructor; [|apply IH].
  unfold byte_ok. pose proof (Z.mod_pos_bound v 256). lia.
Qed.

Lemma le_bytes_value bytes : Forall byte_ok bytes -> le_bytes (length bytes) (le_value bytes) = bytes.
Proof.
  induction 1 as [|b l Hb _ IH]; [done|]. cbn [le_value length le_bytes]. unfold byte_ok in Hb.
  rewrite (Z.mul_comm 256), Z.mod_add, Z.div_add, Z.mod_small, Z.div_small by lia. by rewrite Z.add_0_l, IH.
Qed.

Lemma le_bytes_lookup n v k : k < n -> le_bytes n v !! k = Some ((v / 2 ^ (8 * Z.of_nat k)) mod 256)%Z.
Proof.
  revert v k. induction n as [|n IH]; intros v k Hk; [lia|]. cbn [le_bytes].
  destruct k as [|k]; cbn [lookup list_lookup]; [by rewrite Z.div_1_r|].
  rewrite IH by lia. rewrite Zdiv.Zdiv_Zdiv by lia. do 3 f_equal.
  replace (8 * Z.of_nat (S k))%Z with (8 + 8 * Z.of_nat k)%Z by lia. by rewrite Z.pow_add_r by lia.
Qed.

(** ** Bits

    [!x], and [x as u32] and the like, which is [wrap]. *)
Definition unot (w x : Z) : Z := wrap w (Z.lnot x).

#[local] Open Scope Z_scope.

Lemma testbit_high w x i : in_width w x -> 0 <= w <= i -> Z.testbit x i = false.
Proof.
  intros Hx Hi. rewrite <- (wrap_small w x Hx). unfold wrap. by apply Z.mod_pow2_bits_high.
Qed.

Lemma bits_in_width w x : 0 <= w -> 0 <= x -> (forall i, w <= i -> Z.testbit x i = false) -> in_width w x.
Proof.
  intros Hw Hx Hhigh. split; [done|]. destruct (decide (x = 0)) as [->|Hne]; [by apply Z.pow_pos_nonneg|].
  apply Z.log2_lt_pow2; [lia|]. destruct (decide (w <= Z.log2 x)) as [Hle|]; [|lia].
  specialize (Hhigh _ Hle). by rewrite Z.bit_log2 in Hhigh by lia.
Qed.

Lemma bits_eq w x y :
  0 <= w -> in_width w x -> in_width w y -> (forall i, 0 <= i < w -> Z.testbit x i = Z.testbit y i) -> x = y.
Proof.
  intros Hw Hx Hy Heq. apply Z.bits_inj'. intros i Hi.
  destruct (decide (i < w)) as [Hlt|Hge]; [by apply Heq|]. by rewrite !(testbit_high w) by (done || lia).
Qed.

Lemma unot_testbit w x i : 0 <= i < w -> Z.testbit (unot w x) i = negb (Z.testbit x i).
Proof. intros Hi. unfold unot, wrap. rewrite Z.mod_pow2_bits_low by lia. by rewrite Z.lnot_spec by lia. Qed.

Lemma wrap_testbit w x i : 0 <= i < w -> Z.testbit (wrap w x) i = Z.testbit x i.
Proof. intros Hi. unfold wrap. by rewrite Z.mod_pow2_bits_low by lia. Qed.

Lemma unot_in_width w x : 0 <= w -> in_width w (unot w x).
Proof. apply wrap_in_width. Qed.

Lemma unot_sub w x : 0 <= w -> in_width w x -> unot w x = 2 ^ w - 1 - x.
Proof.
  intros Hw [? ?]. unfold unot, wrap, Z.lnot. symmetry. apply (Z.mod_unique _ _ (-1)); lia.
Qed.

Lemma land_in_width w x y : 0 <= w -> in_width w x -> in_width w (Z.land x y).
Proof.
  intros Hw Hx. apply bits_in_width; [done|apply Z.land_nonneg; left; apply Hx|].
  intros i Hi. by rewrite Z.land_spec, (testbit_high w x) by (done || lia).
Qed.

Lemma lor_in_width w x y : 0 <= w -> in_width w x -> in_width w y -> in_width w (Z.lor x y).
Proof.
  intros Hw Hx Hy. apply bits_in_width; [done|apply Z.lor_nonneg; split; [apply Hx|apply Hy]|].
  intros i Hi. by rewrite Z.lor_spec, (testbit_high w x), (testbit_high w y) by (done || lia).
Qed.

Lemma shiftl_in_width w x n : 0 <= n -> 0 <= w -> in_width w x -> in_width (w + n) (Z.shiftl x n).
Proof.
  intros Hn Hw [? ?]. unfold in_width. rewrite Z.shiftl_mul_pow2, Z.pow_add_r by lia.
  pose proof (Z.pow_pos_nonneg 2 n). nia.
Qed.

#[export] Hint Resolve land_in_width lor_in_width unot_in_width : cube.

(** ** Fields of bits *)
Lemma field_div x k n : 0 <= k -> 0 <= n -> Z.land (Z.shiftr x k) (Z.ones n) = (x / 2 ^ k) mod 2 ^ n.
Proof. intros Hk Hn. by rewrite Z.land_ones, Z.shiftr_div_pow2. Qed.
Lemma lor_fields h l k : 0 <= k -> 0 <= l < 2 ^ k -> Z.lor (Z.shiftl h k) l = h * 2 ^ k + l.
Proof.
  intros Hk Hl. rewrite <- Z.lxor_lor, <- Z.add_nocarry_lxor, Z.shiftl_mul_pow2; try done;
    (apply Z.bits_inj'; intros i Hi; rewrite Z.land_spec, Z.bits_0; destruct (decide (i < k));
     [by rewrite Z.shiftl_spec_low|rewrite (testbit_high k l) by (done || lia); apply andb_false_r]).
Qed.
