(* ===== verification/Virtqueue.v ===== *)
(** What the devices see of a virtio queue: the descriptors of a chain. *)
From stdpp Require Import base numbers.

(** A descriptor: the range of guest memory it names, the direction of the
    transfer, and whether another one follows. *)
Record descriptor := Desc {
  d_addr : Z;
  d_len : Z;
  d_write_only : bool;
  d_has_next : bool;
}.

