(* ===== verification/HostFs.v ===== *)
(** * The host filesystem as the cubecow engine sees it

    The reflink engine ([src/cubecow/src/engine/reflink.rs]) keeps everything
    below [<root_dir>/volumes/] and only ever names the paths
    [volumes/<dir>] and [volumes/<dir>/<file>].  This file models that
    two-level tree, the [std::fs] calls the engine makes on it, and the two
    ways such a call can go wrong beyond its own outcome: the host reports an
    environmental error, or the machine stops before the call is made.

    Nothing here is part of the program: it is the model of the standard
    library and the kernel under it.  What the kernel and the [chrono] crate
    decide freely (directory order, what [FICLONE] copies, how an instant is
    printed) is the class [HostEnv], with the documented facts the proofs use
    in [HostEnvLaws]. *)
From stdpp Require Import base gmap strings list fin_maps sorting pretty.
From Stdlib Require Import ZArith Lia Ascii.
From S2P Require Import Prelude.

(** ** Errors

    [std::io::Error] is kept as the raw errno. *)
Definition ENOENT : Z := 2.
Definition EIO : Z := 5.
Definition EACCES : Z := 13.
Definition EEXIST : Z := 17.
Definition EXDEV : Z := 18.
Definition ENOTDIR : Z := 20.
Definition EISDIR : Z := 21.
Definition EINVAL : Z := 22.
Definition ENOSPC : Z := 28.
Definition ENOTEMPTY : Z := 39.
Definition EOPNOTSUPP : Z := 95.

Inductive ErrorKind := KNotFound | KAlreadyExists | KOther.

#[export] Instance ErrorKind_eq_dec : EqDecision ErrorKind.
Proof. solve_decision. Defined.

(** [io::Error::kind], for the kinds the engine tests. *)
Definition error_kind (errno : Z) : ErrorKind :=
  if decide (errno = ENOENT) then KNotFound
  else if decide (errno = EEXIST) then KAlreadyExists
  else KOther.

(** Errors the environment can inject into any call.  Errors that describe
    the tree itself ([ENOENT], [EEXIST], [ENOTEMPTY], ...) are not here: a
    call reports those exactly when they are true. *)
Inductive env_error := EnvIo | EnvNoSpace | EnvAccess | EnvNotSupported | EnvCrossDevice | EnvInvalid.

Definition env_errno (e : env_error) : Z :=
  match e with
  | EnvIo => EIO
  | EnvNoSpace => ENOSPC
  | EnvAccess => EACCES
  | EnvNotSupported => EOPNOTSUPP
  | EnvCrossDevice => EXDEV
  | EnvInvalid => EINVAL
  end.

(** What happens at the next call: nothing special, an injected error (the
    call has no effect), or a crash before the call. *)
Inductive fault := NoFault | Inject (e : env_error) | Crash.

(** ** The tree *)
Inductive ftype := Regular | Directory.

#[export] Instance ftype_eq_dec : EqDecision ftype.
Proof. solve_decision. Defined.

(** An entry of a volume directory.  [e_data] holds the bytes that are not
    zero, so a hole reads as zeroes; [e_mtime] is in nanoseconds since the
    epoch. *)
Record entry := Entry {
  e_type : ftype;
  e_size : Z;
  e_mtime : Z;
  e_data : gmap Z Z;
}.

#[export] Instance entry_eq_dec : EqDecision entry.
Proof. solve_decision. Defined.

(** An entry of [volumes/]: a directory, or a file. *)
Inductive top := TDir (d : gmap string entry) | TFile (e : entry).

#[export] Instance top_eq_dec : EqDecision top.
Proof. solve_decision. Defined.

Record host := Host {
  h_fs : gmap string top;
  h_faults : list fault;
  h_clock : Z;
}.

Definition set_fs (fs : gmap string top) (h : host) : host :=
  Host fs (h_faults h) (h_clock h).

Class HostEnv := {
  (** the order in which [readdir] returns the names of a directory *)
  readdir_order : list string -> list string;
  (** the destination file after [ioctl(dst, FICLONE, src)] succeeds *)
  ficlone_ioctl : entry -> entry -> entry;
  (** [DateTime::from_timestamp], its value at [(0, 0)], and [to_rfc3339] *)
  chrono_from_timestamp : Z -> Z -> option Z;
  chrono_epoch : Z;
  chrono_to_rfc3339 : Z -> string;
}.

(** Documented behaviour of [readdir(3)] and [ioctl_ficlone(2)]. *)
Class HostEnvLaws (HE : HostEnv) : Prop := {
  readdir_order_perm l : readdir_order l ≡ₚ l;
  ficlone_size src dst : e_size (ficlone_ioctl src dst) = e_size src;
  ficlone_data src dst : e_data (ficlone_ioctl src dst) = e_data src;
  ficlone_type src dst : e_type (ficlone_ioctl src dst) = e_type dst;
}.

(** A concrete environment, for evaluating the model on examples: names are
    returned as stored, [FICLONE] copies size and data, and a timestamp prints
    as its number of seconds. *)
Definition plain_env : HostEnv := {|
  readdir_order l := l;
  ficlone_ioctl src dst := Entry (e_type dst) (e_size src) (e_mtime dst) (e_data src);
  chrono_from_timestamp secs nanos := Some secs;
  chrono_epoch := 0%Z;
  chrono_to_rfc3339 dt := pretty dt;
|}.

Lemma plain_env_laws : HostEnvLaws plain_env.
Proof. split; done. Qed.

(** ** File names as Rust strings

    A file name is a byte string; [OsString::into_string] succeeds on valid
    UTF-8 only.  [utf8_valid] is the well-formedness table of RFC 3629 that
    [core::str::from_utf8] implements. *)
Definition byte_in (lo hi : nat) (c : ascii) : bool :=
  Nat.leb lo (nat_of_ascii c) && Nat.leb (nat_of_ascii c) hi.

Definition is_cont (c : ascii) : bool := byte_in 128 191 c.

Fixpoint utf8_valid (s : string) : bool :=
  match s with
  | EmptyString => true
  | String a s1 =>
    if byte_in 0 127 a then utf8_valid s1
    else match s1 with
    | EmptyString => false
    | String b s2 =>
      if byte_in 194 223 a then is_cont b && utf8_valid s2
      else match s2 with
      | EmptyString => false
      | String c s3 =>
        if byte_in 224 239 a then
          (if byte_in 224 224 a then byte_in 160 191 b
           else if byte_in 237 237 a then byte_in 128 159 b else is_cont b)
          && is_cont c && utf8_valid s3
        else match s3 with
        | EmptyString => false
        | String d s4 =>
          byte_in 240 244 a
          && (if byte_in 240 240 a then byte_in 144 191 b
              else if byte_in 244 244 a then byte_in 128 143 b else is_cont b)
          && is_cont c && is_cont d && utf8_valid s4
        end
      end
    end
  end.

Definition into_string (file_name : string) : option string :=
  if utf8_valid file_name then Some file_name else None.

(** [str::starts_with('.')] and [str::contains] for one ASCII character. *)
Definition starts_with_dot (s : string) : bool :=
  match s with String c _ => bool_decide (c = "."%char) | EmptyString => false end.

Fixpoint contains_char (c : ascii) (s : string) : bool :=
  match s with
  | EmptyString => false
  | String d s' => bool_decide (c = d) || contains_char c s'
  end.

(** ** Reading and updating the tree *)

(** A path below [volumes/]: [volumes/<n>] or [volumes/<v>/<n>]. *)
Inductive path := PTop (n : string) | PSub (v n : string).

#[export] Instance path_eq_dec : EqDecision path.
Proof. solve_decision. Defined.

Definition file_at (fs : gmap string top) (v n : string) : option entry :=
  match fs !! v with Some (TDir d) => d !! n | _ => None end.

Definition node_at (fs : gmap string top) (p : path) : option entry :=
  match p with
  | PTop n => match fs !! n with
              | Some (TFile e) => Some e
              | Some (TDir _) => Some (Entry Directory 4096 0 ∅)
              | None => None
              end
  | PSub v n => file_at fs v n
  end.

Definition put_file (p : path) (e : entry) (fs : gmap string top) : gmap string top :=
  match p with
  | PTop n => <[n := TFile e]> fs
  | PSub v n => match fs !! v with
                | Some (TDir d) => <[v := TDir (<[n := e]> d)]> fs
                | _ => fs
                end
  end.

Definition del_file (p : path) (fs : gmap string top) : gmap string top :=
  match p with
  | PTop n => delete n fs
  | PSub v n => match fs !! v with
                | Some (TDir d) => <[v := TDir (delete n d)]> fs
                | _ => fs
                end
  end.

Arguments file_at : simpl never.
Arguments put_file : simpl never.
Arguments del_file : simpl never.

(** Resolving [volumes/<v>] as a directory. *)
Definition resolve_dir (fs : gmap string top) (v : string) : result Z (gmap string entry) :=
  match fs !! v with
  | Some (TDir d) => Ok d
  | Some (TFile _) => Err ENOTDIR
  | None => Err ENOENT
  end.

(** Resolving a path: what it names, if its directory part exists. *)
Definition resolve (fs : gmap string top) (p : path) : result Z (option entry) :=
  match p with
  | PTop _ => Ok (node_at fs p)
  | PSub v n => match resolve_dir fs v with Ok d => Ok (d !! n) | Err e => Err e end
  end.

(** ** Calls

    [sys f] makes one call whose effect on the tree is [f], unless a fault is
    due. *)
Definition IO (A : Type) : Type := M host Z A.

Definition run_call {A} (f : gmap string top -> Z -> result Z (A * gmap string top)) (h : host)
  : outcome Z A * host :=
  match f (h_fs h) (h_clock h) with
  | Ok (a, fs) => (Done a, set_fs fs h)
  | Err e => (Fail e, h)
  end.

Definition sys {A} (f : gmap string top -> Z -> result Z (A * gmap string top)) : IO A := fun h =>
  match h_faults h with
  | [] => run_call f h
  | NoFault :: fl => run_call f (Host (h_fs h) fl (h_clock h))
  | Inject e :: fl => (Fail (env_errno e), Host (h_fs h) fl (h_clock h))
  | Crash :: fl => (Crashed, Host (h_fs h) fl (h_clock h))
  end.

(** [std::fs::create_dir_all(volumes/)]: the tree of the model is its
    content, so there is nothing to add. *)
Definition sys_create_volumes_dir : IO unit := sys (fun fs _ => Ok (tt, fs)).

(** [std::fs::create_dir_all(volumes/<v>)]; [volumes/] itself exists. *)
Definition sys_create_dir_all (v : string) : IO unit := sys (fun fs _ =>
  match fs !! v with
  | Some (TDir _) => Ok (tt, fs)
  | Some (TFile _) => Err EEXIST
  | None => Ok (tt, <[v := TDir ∅]> fs)
  end).

(** [OpenOptions::new().write(true).create_new(true).open(p)] *)
Definition sys_create_new (p : path) : IO unit := sys (fun fs now =>
  match resolve fs p with
  | Err e => Err e
  | Ok (Some _) => Err EEXIST
  | Ok None => Ok (tt, put_file p (Entry Regular 0 now ∅) fs)
  end).

(** [File::create(p)]: creates or truncates. *)
Definition sys_create (p : path) : IO unit := sys (fun fs now =>
  match resolve fs p with
  | Err e => Err e
  | Ok (Some e) => if decide (e_type e = Directory) then Err EISDIR
                   else Ok (tt, put_file p (Entry Regular 0 now ∅) fs)
  | Ok None => Ok (tt, put_file p (Entry Regular 0 now ∅) fs)
  end).

(** [File::open] and [OpenOptions::new().write(true).open], on an existing path. *)
Definition sys_open (write : bool) (p : path) : IO unit := sys (fun fs _ =>
  match resolve fs p with
  | Err e => Err e
  | Ok None => Err ENOENT
  | Ok (Some e) => if decide (write = true /\ e_type e = Directory) then Err EISDIR
                   else Ok (tt, fs)
  end).

(** [File::set_len]: bytes past the new length are dropped, a gap is zeroes. *)
Definition truncate (len now : Z) (e : entry) : entry :=
  Entry (e_type e) len now (filter (fun kv => (kv.1 < len)%Z) (e_data e)).

Definition sys_set_len (p : path) (len : Z) : IO unit := sys (fun fs now =>
  match node_at fs p with
  | None => Err ENOENT
  | Some e => Ok (tt, put_file p (truncate len now e) fs)
  end).

(** [write_all] of [len] zero bytes to a file that has just been created. *)
Definition sys_write_zeroes (p : path) (len : Z) : IO unit := sys (fun fs now =>
  match node_at fs p with
  | None => Err ENOENT
  | Some e => Ok (tt, put_file p (Entry (e_type e) len now (e_data e)) fs)
  end).

(** [File::sync_all]: durability only. *)
Definition sys_sync_all : IO unit := sys (fun fs _ => Ok (tt, fs)).

(** [File::open] on [volumes/<v>] as a directory, and on [volumes/] itself. *)
Definition sys_open_dir (v : string) : IO unit := sys (fun fs _ =>
  match fs !! v with None => Err ENOENT | Some _ => Ok (tt, fs) end).

Definition sys_open_root : IO unit := sys (fun fs _ => Ok (tt, fs)).

(** [std::fs::metadata(p)] *)
Definition sys_metadata (p : path) : IO entry := sys (fun fs _ =>
  match resolve fs p with
  | Err e => Err e
  | Ok None => Err ENOENT
  | Ok (Some e) => Ok (e, fs)
  end).

(** [std::fs::remove_file(p)] *)
Definition sys_remove_file (p : path) : IO unit := sys (fun fs _ =>
  match resolve fs p with
  | Err e => Err e
  | Ok None => Err ENOENT
  | Ok (Some e) => if decide (e_type e = Directory) then Err EISDIR
                   else Ok (tt, del_file p fs)
  end).

(** [std::fs::remove_dir(volumes/<v>)] *)
Definition sys_remove_dir (v : string) : IO unit := sys (fun fs _ =>
  match resolve_dir fs v with
  | Err e => Err e
  | Ok d => if decide (d = ∅) then Ok (tt, delete v fs) else Err ENOTEMPTY
  end).

(** [ioctl(dst, FICLONE, src)] *)
Definition sys_ficlone `{HostEnv} (dst src : path) : IO unit := sys (fun fs _ =>
  match node_at fs src, node_at fs dst with
  | Some s, Some d =>
    if decide (e_type s = Directory) then Err EISDIR
    else Ok (tt, put_file dst (ficlone_ioctl s d) fs)
  | _, _ => Err EIO
  end).

(** [std::fs::read_dir] on [volumes/<v>] and on [volumes/], the step of its
    iterator, and [DirEntry::file_type].  An entry that vanished since is
    reported as [ENOENT]. *)
Definition names_of {A} `{HostEnv} (m : gmap string A) : list string :=
  readdir_order (map_to_list m).*1.

Definition sys_read_dir `{HostEnv} (v : string) : IO (list string) := sys (fun fs _ =>
  match resolve_dir fs v with
  | Err e => Err e
  | Ok d => Ok (names_of d, fs)
  end).

Definition sys_read_root `{HostEnv} : IO (list string) := sys (fun fs _ => Ok (names_of fs, fs)).

Definition sys_next_entry : IO unit := sys (fun fs _ => Ok (tt, fs)).

Definition sys_file_type (p : path) : IO ftype := sys (fun fs _ =>
  match node_at fs p with
  | Some e => Ok (e_type e, fs)
  | None => Err ENOENT
  end).

(** [unlinkat] of one entry by [remove_dir_all], whatever its type; an entry
    that is already gone is fine. *)
Definition sys_unlink_any (p : path) : IO unit := sys (fun fs _ => Ok (tt, del_file p fs)).

Fixpoint unlink_entries (v : string) (names : list string) : IO unit :=
  match names with
  | [] => ret tt
  | n :: rest => sys_next_entry;;; sys_unlink_any (PSub v n);;; unlink_entries v rest
  end.

(** [std::fs::remove_dir_all(volumes/<v>)] *)
Definition sys_remove_dir_all `{HostEnv} (v : string) : IO unit :=
  let* names := sys_read_dir v in
  unlink_entries v names;;;
  sys_remove_dir v.

(** ** Lemmas on the tree *)
Lemma file_at_put p e fs v n :
  p <> PSub v n -> (forall m, p <> PTop m) -> file_at (put_file p e fs) v n = file_at fs v n.
Proof.
  intros Hp Ht. destruct p as [m|v' n']; [by destruct (Ht m)|]. unfold file_at, put_file.
  destruct (fs !! v') as [[d|]|] eqn:Hv; [|done|done].
  destruct (decide (v = v')) as [->|]; [|by rewrite lookup_insert_ne].
  rewrite lookup_insert_eq, Hv. rewrite lookup_insert_ne; [done|congruence].
Qed.

Lemma file_at_del p fs v n :
  p <> PSub v n -> (forall m, p <> PTop m) -> file_at (del_file p fs) v n = file_at fs v n.
Proof.
  intros Hp Ht. destruct p as [m|v' n']; [by destruct (Ht m)|]. unfold file_at, del_file.
  destruct (fs !! v') as [[d|]|] eqn:Hv; [|done|done].
  destruct (decide (v = v')) as [->|]; [|by rewrite lookup_insert_ne].
  rewrite lookup_insert_eq, Hv. rewrite lookup_delete_ne; [done|congruence].
Qed.

Lemma file_at_put_eq v n e fs d :
  fs !! v = Some (TDir d) -> file_at (put_file (PSub v n) e fs) v n = Some e.
Proof. intros Hv. unfold file_at, put_file. by rewrite Hv, lookup_insert_eq, lookup_insert_eq. Qed.

Lemma file_at_mkdir v fs v' n :
  fs !! v = None -> file_at (<[v := TDir ∅]> fs) v' n = file_at fs v' n.
Proof.
  intros Hv. unfold file_at. destruct (decide (v = v')) as [->|]; [|by rewrite lookup_insert_ne].
  by rewrite lookup_insert_eq, Hv.
Qed.

Lemma file_at_rmdir v fs v' n :
  fs !! v = Some (TDir ∅) -> file_at (delete v fs) v' n = file_at fs v' n.
Proof.
  intros Hv. unfold file_at. destruct (decide (v = v')) as [->|]; [|by rewrite lookup_delete_ne].
  by rewrite lookup_delete_eq, Hv.
Qed.

(** ** Lemmas on calls

    A relation on trees that every successful effect of a call respects is
    respected by the call under every fault. *)
Definition on_fs (R : gmap string top -> gmap string top -> Prop) (h h' : host) : Prop :=
  R (h_fs h) (h_fs h').

#[export] Instance on_fs_preorder R `{!PreOrder R} : PreOrder (on_fs R).
Proof. split; unfold on_fs; [by intros h|intros h1 h2 h3 ??; by etrans]. Qed.

Lemma respects_sys {A} R `{!PreOrder R}
    (f : gmap string top -> Z -> result Z (A * gmap string top)) :
  (forall fs now a fs', f fs now = Ok (a, fs') -> R fs fs') -> respects (on_fs R) (sys f).
Proof.
  intros Hf h. unfold sys, on_fs.
  assert (Hrun : forall h', h_fs h' = h_fs h -> R (h_fs h) (h_fs (run_call f h').2)).
  { intros h' Hh. unfold run_call. destruct (f _ _) as [[a fs']|e] eqn:Hfh; simpl.
    - rewrite <- Hh. by eapply Hf.
    - by rewrite Hh. }
  destruct (h_faults h) as [|[|e|] fl]; simpl; auto; reflexivity.
Qed.

(** A call that never changes the tree. *)
Lemma respects_sys_pure {A} R `{!PreOrder R} (f : gmap string top -> Z -> result Z (A * gmap string top)) :
  (forall fs now a fs', f fs now = Ok (a, fs') -> fs' = fs) -> respects (on_fs R) (sys f).
Proof. intros Hf. apply respects_sys; [done|]. intros fs now a fs' ->%Hf. reflexivity. Qed.

(** Without pending faults a call is its effect. *)
Lemma sys_run {A} (f : gmap string top -> Z -> result Z (A * gmap string top)) h :
  h_faults h = [] -> sys f h = run_call f h.
Proof. intros Hh. unfold sys. by rewrite Hh. Qed.
