(* ===== verification/Reflink.v ===== *)
(** * The cubecow reflink engine

    Model of [src/cubecow/src/engine/reflink.rs]: volumes and snapshots are
    files below [<root_dir>/volumes/], and an in-memory index maps every name
    to what it is.  Each operation of the [Engine] trait is one definition in
    the state-and-error monad of the prelude, calling the host as the source
    does, call by call, so that every error path and every crash point of the
    source is a run of the model.  The operations that hold the index lock for
    their whole duration and those that do not are sequential here. *)
From stdpp Require Import base gmap strings list fin_maps sorting pretty.
From Stdlib Require Import ZArith Lia Ascii.
From S2P Require Import Prelude HostFs.

(** ** Public types ([src/cubecow/src/lib.rs], [pkg/errors/mod.rs]) *)
Record Volume := mkVolume {
  vol_name : string;
  vol_size_bytes : Z;
  vol_device_path : string;
  vol_snapshot_count : Z;
  vol_created_at : string;
}.

Record Snapshot := mkSnapshot {
  snap_name : string;
  snap_size_bytes : Z;
  snap_device_path : string;
  snap_origin_volume : string;
  snap_created_at : string;
}.

Record VolumeBlockInfo := mkVolumeBlockInfo { num_blocks : Z; block_size : Z }.

Inductive CubecowError :=
| NotFound (msg : string)
| AlreadyExists (msg : string)
| ResourceExhausted (msg : string)
| InvalidArg (msg : string)
| IoError (errno : Z)
| ConfigError (msg : string)
| PreconditionFailed (msg : string).

Inductive NameKind :=
| KVolume
| KSnapshot (origin_volume : string).

#[export] Instance NameKind_eq_dec : EqDecision NameKind.
Proof. solve_decision. Defined.

Definition REFLINK_BLOCK_SIZE : Z := 512.

(** ** Metrics ([src/cubecow/src/pkg/metrics/mod.rs]) *)
Definition METRIC_VOLUME_COUNT : string := "volume_count".
Definition METRIC_SNAPSHOT_COUNT : string := "snapshot_count".
Definition METRIC_TOTAL_BYTES : string := "total_bytes".
Definition METRIC_USED_BYTES : string := "used_bytes".

Definition metrics_new : gmap string Z :=
  list_to_map [(METRIC_VOLUME_COUNT, 0); (METRIC_SNAPSHOT_COUNT, 0);
               (METRIC_TOTAL_BYTES, 0); (METRIC_USED_BYTES, 0)]%Z.

Definition metrics_get (key : string) (m : gmap string Z) : Z := default 0%Z (m !! key).

Definition metrics_inc (key : string) (m : gmap string Z) : gmap string Z :=
  <[key := wadd 64 (metrics_get key m) 1]> m.

Definition metrics_dec (key : string) (m : gmap string Z) : gmap string Z :=
  match m !! key with
  | Some v => <[key := saturating_sub v 1]> m
  | None => m
  end.

Definition metrics_set (key : string) (value : Z) (m : gmap string Z) : gmap string Z :=
  <[key := value]> m.

(** ** The engine *)
Record engine := Engine {
  volumes_dir : string;
  name_index : gmap string NameKind;
  metrics : gmap string Z;
  disk : host;
}.

Definition set_index (f : gmap string NameKind -> gmap string NameKind) (s : engine) : engine :=
  Engine (volumes_dir s) (f (name_index s)) (metrics s) (disk s).
Definition set_metrics (f : gmap string Z -> gmap string Z) (s : engine) : engine :=
  Engine (volumes_dir s) (name_index s) (f (metrics s)) (disk s).
Definition set_disk (h : host) (s : engine) : engine :=
  Engine (volumes_dir s) (name_index s) (metrics s) h.

Definition Eng (A : Type) : Type := M engine CubecowError A.

(** A host call made by the engine. *)
Definition io {A} (m : IO A) : M engine Z A := fun s =>
  let r := m (disk s) in (r.1, set_disk r.2 s).

(** The same, with [map_err(CubecowError::IoError)]. *)
Definition io_err {A} (m : IO A) : Eng A := map_err IoError (io m).

(** Path helpers.  Every name the engine joins is a single component. *)
Definition vol_main_file (volume_name : string) : path := PSub volume_name volume_name.
Definition snap_file (origin_volume snapshot_name : string) : path :=
  PSub origin_volume snapshot_name.

Definition display (s : engine) (p : path) : string :=
  match p with
  | PTop n => volumes_dir s +:+ "/" +:+ n
  | PSub v n => volumes_dir s +:+ "/" +:+ v +:+ "/" +:+ n
  end.

Definition validate_name (name kind : string) : result CubecowError unit :=
  if decide (name = "") then Err (InvalidArg (kind +:+ " name is empty"))
  else if decide (name = "." \/ name = "..") then
    Err (InvalidArg (kind +:+ " name '" +:+ name +:+ "' is reserved"))
  else if contains_char "/" name || contains_char "000" name then
    Err (InvalidArg (kind +:+ " name '" +:+ name +:+ "' contains an invalid character"))
  else if starts_with_dot name then
    Err (InvalidArg (kind +:+ " name '" +:+ name +:+ "' must not start with '.'"))
  else Ok tt.

(** ** Configuration ([src/cubecow/src/config/mod.rs]) *)
Inductive BackendKind := Reflink.
Record LogConfig := mkLogConfig {
  log_level : string;
  log_format : string;
  log_file : option string;
  log_rotation : string;
}.
Record AppConfig := mkAppConfig {
  log : LogConfig;
  backend_kind : BackendKind;
  backend_reflink_root_dir : string;
}.

(** [Path::is_absolute] and [Path::join] on Unix. *)
Definition is_absolute (p : string) : bool :=
  match p with String c _ => bool_decide (c = "/"%char) | EmptyString => false end.

Fixpoint ends_with_slash (p : string) : bool :=
  match p with
  | EmptyString => false
  | String c EmptyString => bool_decide (c = "/"%char)
  | String _ p' => ends_with_slash p'
  end.

Definition path_join (base component : string) : string :=
  if decide (base = "") then component
  else if ends_with_slash base then base +:+ component
  else base +:+ "/" +:+ component.

Definition validate_reflink_requirements (root_dir : string) : result CubecowError unit :=
  if decide (root_dir = "") then
    Err (ConfigError "[backend.reflink] root_dir must not be empty when backend.kind = 'reflink'")
  else if is_absolute root_dir then Ok tt
  else Err (ConfigError ("[backend.reflink] root_dir = '" +:+ root_dir
                         +:+ "' must be an absolute path")).

Definition validate (config : AppConfig) : result CubecowError unit :=
  if negb (bool_decide (log_format (log config) ∈ ["json"; "compact"; "pretty"])) then
    Err (ConfigError ("[log] format = '" +:+ log_format (log config) +:+ "' is invalid"))
  else if negb (bool_decide (log_rotation (log config) ∈ ["daily"; "hourly"; "never"])) then
    Err (ConfigError ("[log] rotation = '" +:+ log_rotation (log config) +:+ "' is invalid"))
  else match backend_kind config with
       | Reflink => validate_reflink_requirements (backend_reflink_root_dir config)
       end.

Section reflink.
Context `{HostEnv}.

(** ** Filesystem helpers *)

(** [fsync_dir(<volumes_dir>/<v>)] and [fsync_dir(<volumes_dir>)] *)
Definition fsync_dir (v : string) : IO unit := sys_open_dir v;;; sys_sync_all.
Definition fsync_volumes_dir : IO unit := sys_open_root;;; sys_sync_all.

Definition rfc3339_from_meta (meta : entry) : string :=
  let nanos := 1000000000%Z in
  let dt :=
    if decide (0 <= e_mtime meta)%Z then
      default chrono_epoch
        (chrono_from_timestamp (e_mtime meta / nanos)%Z (e_mtime meta mod nanos)%Z)
    else chrono_epoch in
  chrono_to_rfc3339 dt.

Definition I32_MAX : Z := 2 ^ 31 - 1.

Fixpoint count_entries (names : list string) (volume_name : string) (count : Z) : IO Z :=
  match names with
  | [] => ret count
  | n :: rest =>
    sys_next_entry;;;
    match into_string n with
    | None => count_entries rest volume_name count
    | Some name =>
      if decide (name = volume_name) then count_entries rest volume_name count
      else if starts_with_dot name then count_entries rest volume_name count
      else count_entries rest volume_name (Z.min I32_MAX (count + 1))
    end
  end.

Definition count_snapshots_on_disk (v volume_name : string) : Eng Z :=
  let* r := catch (io_err (sys_read_dir v)) in
  match r with
  | Ok names => io_err (count_entries names volume_name 0)
  | Err (IoError e) => if decide (error_kind e = KNotFound) then ret 0%Z else throw (IoError e)
  | Err e => throw e
  end.

(** [ficlone(src, dst_path)]: on error the new destination is removed. *)
Definition ficlone (src dst : path) : IO unit :=
  sys_create_new dst;;;
  let* rc := catch (sys_ficlone dst src) in
  match rc with
  | Ok _ => ret tt
  | Err errno => ignore (sys_remove_file dst);;; throw errno
  end.

Definition describe_ficlone_errno (errno : Z) : string :=
  if decide (errno = EOPNOTSUPP) then "EOPNOTSUPP — filesystem does not support reflink"
  else if decide (errno = EINVAL) then
    "EINVAL — kernel/filesystem rejected FICLONE (no reflink support)"
  else if decide (errno = EXDEV) then "EXDEV — cross-filesystem clone"
  else if decide (errno = ENOSPC) then "ENOSPC — filesystem out of space"
  else "errno=" +:+ pretty errno.

(** ** Metadata projection *)
Definition not_found_or_io (what : string) (e : Z) : CubecowError :=
  if decide (error_kind e = KNotFound) then NotFound what else IoError e.

Definition project_volume (volume_name : string) : Eng Volume :=
  let* meta := map_err (not_found_or_io ("volume '" +:+ volume_name +:+ "'"))
                 (io (sys_metadata (vol_main_file volume_name))) in
  let* snapshot_count := count_snapshots_on_disk volume_name volume_name in
  let* s := get in
  ret (mkVolume volume_name (e_size meta) (display s (vol_main_file volume_name))
         snapshot_count (rfc3339_from_meta meta)).

Definition project_snapshot (snapshot_name : string) : Eng Snapshot :=
  let* s := get in
  match name_index s !! snapshot_name with
  | Some (KSnapshot origin) =>
    let path := snap_file origin snapshot_name in
    let* meta := map_err (not_found_or_io ("snapshot '" +:+ snapshot_name +:+ "'"))
                   (io (sys_metadata path)) in
    ret (mkSnapshot snapshot_name (e_size meta) (display s path) origin
           (rfc3339_from_meta meta))
  | Some KVolume =>
    throw (NotFound ("snapshot '" +:+ snapshot_name +:+ "' (a volume with that name exists)"))
  | None => throw (NotFound ("snapshot '" +:+ snapshot_name +:+ "'"))
  end.

(** ** Engine operations *)
Definition create_volume_body (name : string) (size_bytes : Z) : Eng Volume :=
  let* s := get in
  io_err (sys_create_dir_all name);;;
  map_err (fun e => if decide (error_kind e = KAlreadyExists) then
             AlreadyExists ("volume main file '" +:+ display s (vol_main_file name)
                            +:+ "' already exists")
           else IoError e)
    (io (sys_create_new (vol_main_file name)));;;
  io_err (sys_set_len (vol_main_file name) size_bytes);;;
  io_err sys_sync_all;;;
  io_err (fsync_dir name);;;
  io_err fsync_volumes_dir;;;
  modify (set_metrics (metrics_inc METRIC_VOLUME_COUNT));;;
  project_volume name.

Definition create_volume (name : string) (size_bytes : Z) : Eng Volume :=
  of_result (validate_name name "volume");;;
  let* s := get in
  match name_index s !! name with
  | Some _ => throw (AlreadyExists ("name '" +:+ name +:+ "' already exists in reflink namespace"))
  | None =>
    modify (set_index <[name := KVolume]>);;;
    let* result := catch (create_volume_body name size_bytes) in
    match result with
    | Ok v => ret v
    | Err e =>
      modify (set_index (delete name));;;
      ignore (io_err (sys_remove_file (vol_main_file name)));;;
      ignore (io_err (sys_remove_dir name));;;
      throw e
    end
  end.

(** [idx.iter().any(..)] over the snapshots of one origin. *)
Definition has_snapshots_of (name : string) (idx : gmap string NameKind) : bool :=
  existsb (fun kv => bool_decide (kv.2 = KSnapshot name)) (map_to_list idx).

(** [match call { Ok(()) => {}, Err(e) if NotFound => {}, Err(e) => return Err(IoError(e)) }] *)
Definition absent_ok (m : IO unit) : Eng unit :=
  let* r := catch (io_err m) in
  match r with
  | Ok _ => ret tt
  | Err (IoError e) => if decide (error_kind e = KNotFound) then ret tt else throw (IoError e)
  | Err e => throw e
  end.

Definition delete_volume (name : string) : Eng unit :=
  let* s := get in
  match name_index s !! name with
  | Some (KSnapshot _) =>
    throw (InvalidArg ("'" +:+ name +:+ "' is a snapshot; use delete_snapshot instead"))
  | None => throw (NotFound ("volume '" +:+ name +:+ "'"))
  | Some KVolume =>
    let has_live_snapshots := has_snapshots_of name (name_index s) in
    absent_ok (sys_remove_file (vol_main_file name));;;
    (if has_live_snapshots then ret tt else absent_ok (sys_remove_dir name));;;
    ignore (io_err fsync_volumes_dir);;;
    modify (set_index (delete name));;;
    modify (set_metrics (metrics_dec METRIC_VOLUME_COUNT))
  end.

Definition resize_volume (name : string) (new_size_bytes : Z) : Eng (Z * Z) :=
  let* s := get in
  match name_index s !! name with
  | Some (KSnapshot _) => throw (InvalidArg ("'" +:+ name +:+ "' is a snapshot; cannot resize"))
  | None => throw (NotFound ("volume '" +:+ name +:+ "'"))
  | Some KVolume =>
    let main := vol_main_file name in
    let* meta := io_err (sys_metadata main) in
    let old_size := e_size meta in
    if decide (new_size_bytes < old_size)%Z then
      throw (InvalidArg ("shrinking is not supported (current=" +:+ pretty old_size
                         +:+ ", requested=" +:+ pretty new_size_bytes +:+ ")"))
    else if decide (new_size_bytes = old_size) then ret (old_size, old_size)
    else
      io_err (sys_open true main);;;
      io_err (sys_set_len main new_size_bytes);;;
      io_err sys_sync_all;;;
      ret (old_size, new_size_bytes)
  end.

Definition get_volume_info (name : string) : Eng Volume :=
  let* s := get in
  match name_index s !! name with
  | Some KVolume => project_volume name
  | Some (KSnapshot _) =>
    let* snap := project_snapshot name in
    ret (mkVolume (snap_name snap) (snap_size_bytes snap) (snap_device_path snap) 0
           (snap_created_at snap))
  | None => throw (NotFound ("volume or snapshot '" +:+ name +:+ "'"))
  end.

Definition get_volume_block_info (name : string) : Eng VolumeBlockInfo :=
  let* vol := get_volume_info name in
  ret (mkVolumeBlockInfo (vol_size_bytes vol / REFLINK_BLOCK_SIZE) REFLINK_BLOCK_SIZE).

(** *** Paged listings

    [names.sort()] orders [String]s bytewise. *)
Definition str_le (a b : string) : Prop := String.leb a b = true.

#[global] Instance str_le_dec : RelDecision str_le.
Proof. intros a b. unfold str_le. apply _. Defined.

Definition sort_names (names : list string) : list string := merge_sort str_le names.

(** [start], [end] and [total] of a page; [start + effective_page_size] is a
    [usize] addition. *)
Definition page_bounds (names : list string) (page_size : Z) (page_token : option string)
  : Z * Z * Z :=
  let total := Z.of_nat (length names) in
  let start := match page_token with
               | Some tok => match list_find (fun n => n = tok) names with
                             | Some (i, _) => Z.of_nat i
                             | None => total
                             end
               | None => 0%Z
               end in
  let effective_page_size := if decide (page_size = 0)%Z then total else page_size in
  (start, Z.min (wadd 64 start effective_page_size) total, total).

(** [&names[start..end]], which panics ([None]) when [start > end]; here
    [end <= names.len()] always holds. *)
Definition slice {A} (l : list A) (start stop : Z) : option (list A) :=
  if decide (start <= stop)%Z then
    Some (take (Z.to_nat (stop - start)) (drop (Z.to_nat start) l))
  else None.

Definition next_page_token (names : list string) (stop total : Z) : option string :=
  if decide (stop < total)%Z then names !! Z.to_nat stop else None.

(** The loop of both listings: entries that cannot be projected are skipped. *)
Fixpoint project_all {A} (project : string -> Eng A) (names : list string) : Eng (list A) :=
  match names with
  | [] => ret []
  | n :: rest =>
    let* r := catch (project n) in
    let* out := project_all project rest in
    ret (match r with Ok a => a :: out | Err _ => out end)
  end.

Definition volume_names (idx : gmap string NameKind) : list string :=
  sort_names (map_to_list (filter (fun kv => kv.2 = KVolume) idx)).*1.

Definition snapshot_names (volume_name : string) (idx : gmap string NameKind) : list string :=
  sort_names (map_to_list (filter (fun kv => kv.2 = KSnapshot volume_name) idx)).*1.

(** The result is [None] when the slice expression panics. *)
Definition list_volumes (page_size : Z) (page_token : option string)
  : Eng (option (list Volume * option string * Z)) :=
  let* s := get in
  let names := volume_names (name_index s) in
  let '(start, stop, total) := page_bounds names page_size page_token in
  match slice names start stop with
  | None => ret None
  | Some page =>
    let* out := project_all project_volume page in
    ret (Some (out, next_page_token names stop total, total))
  end.

Definition list_snapshots (volume_name : string) (page_size : Z) (page_token : option string)
  : Eng (option (list Snapshot * option string)) :=
  let* s := get in
  if decide (name_index s !! volume_name = Some KVolume) then
    let names := snapshot_names volume_name (name_index s) in
    let '(start, stop, total) := page_bounds names page_size page_token in
    match slice names start stop with
    | None => ret None
    | Some page =>
      let* out := project_all project_snapshot page in
      ret (Some (out, next_page_token names stop total))
    end
  else ret (Some ([], None)).

(** *** Snapshots *)

(** Where the source file is, and the directory the snapshot goes to. *)
Definition snapshot_source (idx : gmap string NameKind) (source_name : string)
  : option (path * string) :=
  match idx !! source_name with
  | Some KVolume => Some (vol_main_file source_name, source_name)
  | Some (KSnapshot origin_volume) => Some (snap_file origin_volume source_name, origin_volume)
  | None => None
  end.

Definition create_snapshot_body (source_path : path) (ultimate_origin snapshot_name : string)
  : Eng Snapshot :=
  let* s := get in
  map_err (not_found_or_io ("source file '" +:+ display s source_path
                            +:+ "' missing for snapshot"))
    (io (sys_open false source_path));;;
  map_err (fun errno => PreconditionFailed ("FICLONE failed for snapshot '" +:+ snapshot_name
             +:+ "' from '" +:+ display s source_path +:+ "': "
             +:+ describe_ficlone_errno errno))
    (io (ficlone source_path (snap_file ultimate_origin snapshot_name)));;;
  ignore (io_err (fsync_dir ultimate_origin));;;
  modify (set_metrics (metrics_inc METRIC_SNAPSHOT_COUNT));;;
  project_snapshot snapshot_name.

Definition create_snapshot (source_name snapshot_name : string) (activate : bool)
  : Eng Snapshot :=
  of_result (validate_name snapshot_name "snapshot");;;
  let* s := get in
  match snapshot_source (name_index s) source_name with
  | None => throw (NotFound ("source '" +:+ source_name +:+ "' for snapshot"))
  | Some (source_path, ultimate_origin) =>
    match name_index s !! snapshot_name with
    | Some _ =>
      throw (AlreadyExists ("name '" +:+ snapshot_name
                            +:+ "' already exists in reflink namespace"))
    | None =>
      modify (set_index <[snapshot_name := KSnapshot ultimate_origin]>);;;
      let* result := catch (create_snapshot_body source_path ultimate_origin snapshot_name) in
      match result with
      | Ok snap => ret snap
      | Err e => modify (set_index (delete snapshot_name));;; throw e
      end
    end
  end.

Definition delete_snapshot (snapshot_name : string) : Eng unit :=
  let* s := get in
  match name_index s !! snapshot_name with
  | Some KVolume =>
    throw (InvalidArg ("'" +:+ snapshot_name +:+ "' is a volume; use delete_volume instead"))
  | None => throw (NotFound ("snapshot '" +:+ snapshot_name +:+ "'"))
  | Some (KSnapshot origin) =>
    absent_ok (sys_remove_file (snap_file origin snapshot_name));;;
    ignore (io_err (fsync_dir origin));;;
    modify (set_index (delete snapshot_name));;;
    modify (set_metrics (metrics_dec METRIC_SNAPSHOT_COUNT));;;
    let* s' := get in
    let origin_alive := bool_decide (is_Some (name_index s' !! origin)) in
    let still_has_siblings := has_snapshots_of origin (name_index s') in
    if negb origin_alive && negb still_has_siblings then
      let* r := catch (io_err (sys_remove_dir origin)) in
      match r with
      | Ok _ => ignore (io_err fsync_volumes_dir)
      | Err _ => ret tt
      end
    else ret tt
  end.

Definition activate_volume (name : string) : Eng Volume :=
  let* s := get in
  match name_index s !! name with
  | Some KVolume => project_volume name
  | Some (KSnapshot _) =>
    let* snap := project_snapshot name in
    ret (mkVolume (snap_name snap) (snap_size_bytes snap) (snap_device_path snap) 0
           (snap_created_at snap))
  | None => throw (NotFound ("volume or snapshot '" +:+ name +:+ "'"))
  end.

Definition deactivate_volume (name : string) : Eng unit :=
  let* s := get in
  match name_index s !! name with
  | Some _ => ret tt
  | None => throw (NotFound ("volume or snapshot '" +:+ name +:+ "'"))
  end.

(** *** Reset

    The entries of [volumes/] that are directories with a UTF-8 name; entries
    whose iteration or type query fails are skipped. *)
Fixpoint directory_entries (names : list string) : Eng (list string) :=
  match names with
  | [] => ret []
  | n :: rest =>
    let* e := catch (io_err sys_next_entry) in
    match e with
    | Err _ => directory_entries rest
    | Ok _ =>
      let* ft := catch (io_err (sys_file_type (PTop n))) in
      let* out := directory_entries rest in
      ret (match ft, into_string n with
           | Ok Directory, Some name => name :: out
           | _, _ => out
           end)
    end
  end.

Fixpoint remove_all_dirs (names : list string) : Eng unit :=
  match names with
  | [] => ret tt
  | n :: rest => absent_ok (sys_remove_dir_all n);;; remove_all_dirs rest
  end.

Definition reset_node_storage : Eng unit :=
  let* names := io_err sys_read_root in
  let* entries := directory_entries names in
  remove_all_dirs entries;;;
  ignore (io_err fsync_volumes_dir);;;
  modify (set_index (fun _ => ∅));;;
  modify (set_metrics (metrics_set METRIC_VOLUME_COUNT 0));;;
  modify (set_metrics (metrics_set METRIC_SNAPSHOT_COUNT 0)).

(** [metrics()]: [statvfs] is what [statvfs_total_used] returns for
    [volumes_dir], [None] when it fails. *)
Definition volumes_dir_stats (statvfs : option (Z * Z)) : Z * Z := default (0, 0)%Z statvfs.

Definition engine_metrics (statvfs : option (Z * Z)) : Eng (gmap string Z) :=
  let '(total, used) := volumes_dir_stats statvfs in
  modify (set_metrics (metrics_set METRIC_TOTAL_BYTES total));;;
  modify (set_metrics (metrics_set METRIC_USED_BYTES used));;;
  let* s := get in
  ret (metrics s).

(** [statvfs_total_used] from the fields of [struct statvfs]: two [u64]
    products and a saturating difference. *)
Definition statvfs_total_used (f_frsize f_blocks f_bfree : Z) : Z * Z :=
  let total := wmul 64 f_blocks f_frsize in
  let avail := wmul 64 f_bfree f_frsize in
  (total, saturating_sub total avail).

(** ** Startup scan *)
Fixpoint count_non_dotfiles (names : list string) (n : Z) : IO Z :=
  match names with
  | [] => ret n
  | e :: rest =>
    sys_next_entry;;;
    match into_string e with
    | Some name => count_non_dotfiles rest (if starts_with_dot name then n else n + 1)%Z
    | None => count_non_dotfiles rest n
    end
  end.

Definition read_dir_count_non_dotfiles (v : string) : IO Z :=
  let* names := sys_read_dir v in
  count_non_dotfiles names 0.

(** The inner loop of the scan: the snapshots of one volume directory. *)
Fixpoint scan_snapshots (vol_name : string) (subs : list string) (index : gmap string NameKind)
  : IO (gmap string NameKind) :=
  match subs with
  | [] => ret index
  | sub :: rest =>
    sys_next_entry;;;
    let* ft := sys_file_type (PSub vol_name sub) in
    if decide (ft <> Regular) then scan_snapshots vol_name rest index
    else match into_string sub with
    | None => scan_snapshots vol_name rest index
    | Some sub_name =>
      if decide (sub_name = vol_name) then scan_snapshots vol_name rest index
      else if starts_with_dot sub_name then scan_snapshots vol_name rest index
      else
        let* sub_meta := sys_metadata (PSub vol_name sub) in
        if decide (e_size sub_meta = 0)%Z then
          ignore (sys_remove_file (PSub vol_name sub));;;
          scan_snapshots vol_name rest index
        else if decide (is_Some (index !! sub_name)) then scan_snapshots vol_name rest index
        else scan_snapshots vol_name rest (<[sub_name := KSnapshot vol_name]> index)
    end
  end.

(** [match metadata(main) { Ok(_) => true, Err(NotFound) => false, Err(e) => return Err(e) }] *)
Definition main_present (vol_name : string) : IO bool :=
  let* r := catch (sys_metadata (vol_main_file vol_name)) in
  match r with
  | Ok _ => ret true
  | Err e => if decide (error_kind e = KNotFound) then ret false else throw e
  end.

(** One directory of the scan, once its name is known to be usable. *)
Definition scan_volume_dir (vol_name : string) (index : gmap string NameKind)
  : IO (gmap string NameKind) :=
  let* present := main_present vol_name in
  let enumerate (index : gmap string NameKind) :=
    let* subs := sys_read_dir vol_name in scan_snapshots vol_name subs index in
  if present : bool then enumerate (<[vol_name := KVolume]> index)
  else
    let* leftovers := read_dir_count_non_dotfiles vol_name in
    if decide (leftovers = 0)%Z then ignore (sys_remove_dir vol_name);;; ret index
    else enumerate index.

Fixpoint scan_dirs (names : list string) (index : gmap string NameKind)
  : IO (gmap string NameKind) :=
  match names with
  | [] => ret index
  | n :: rest =>
    sys_next_entry;;;
    let* ft := sys_file_type (PTop n) in
    if decide (ft <> Directory) then scan_dirs rest index
    else match into_string n with
    | None => scan_dirs rest index
    | Some vol_name =>
      if starts_with_dot vol_name then scan_dirs rest index
      else let* index' := scan_volume_dir vol_name index in scan_dirs rest index'
    end
  end.

Definition scan_and_rebuild_index : IO (gmap string NameKind) :=
  let* r := catch sys_read_root in
  match r with
  | Ok names => scan_dirs names ∅
  | Err e => if decide (error_kind e = KNotFound) then ret ∅ else throw e
  end.

(** ** Initialisation *)

(** [probe_reflink_support]: clones a small dotfile below [volumes/]. *)
Definition probe_reflink_support (pid : Z) : M host string unit :=
  let src := PTop (".cubecow-reflink-probe-src-" +:+ pretty pid) in
  let dst := PTop (".cubecow-reflink-probe-dst-" +:+ pretty pid) in
  map_err describe_ficlone_errno
    (ignore (sys_remove_file src);;; ignore (sys_remove_file dst));;;
  map_err (fun _ => "create probe src") (sys_create src);;;
  map_err (fun _ => "write probe src") (sys_write_zeroes src 4096);;;
  map_err describe_ficlone_errno (ignore sys_sync_all);;;
  map_err (fun _ => "open probe src") (sys_open false src);;;
  map_err describe_ficlone_errno
    (let* result := catch (ficlone src dst) in
     ignore (sys_remove_file src);;;
     ignore (sys_remove_file dst);;;
     of_result result).

(** The counts that prime the metrics. *)
Definition count_volumes (idx : gmap string NameKind) : Z :=
  Z.of_nat (size (filter (fun kv => kv.2 = KVolume) idx)).
Definition count_snapshots (idx : gmap string NameKind) : Z :=
  Z.of_nat (size (filter (fun kv => kv.2 <> KVolume) idx)).

(** The engine of a fresh index: what [initialize_with_config] returns. *)
Definition engine_of_index (vdir : string) (idx : gmap string NameKind) (h : host) : engine :=
  Engine vdir idx
    (metrics_set METRIC_SNAPSHOT_COUNT (wrap 64 (count_snapshots idx))
       (metrics_set METRIC_VOLUME_COUNT (wrap 64 (count_volumes idx)) metrics_new)) h.

Definition initialize_with_config (config : AppConfig) (pid : Z) : M host string engine :=
  match validate config with
  | Err _ => throw "invalid config for reflink backend"
  | Ok _ =>
    let vdir := path_join (backend_reflink_root_dir config) "volumes" in
    map_err (fun _ => "failed to create reflink volumes dir") sys_create_volumes_dir;;;
    map_err (fun e => "filesystem under '" +:+ vdir +:+ "' does not support FICLONE: " +:+ e)
      (probe_reflink_support pid);;;
    let* idx := map_err (fun _ => "failed to scan reflink volumes dir")
                  scan_and_rebuild_index in
    let* h := get in
    ret (engine_of_index vdir idx h)
  end.
End reflink.
