(* ===== verification/ReflinkFaults.v ===== *)
(** * What the reflink engine guarantees under every fault and crash

    The host may fail any call of an operation of the engine with an
    environmental error, or stop the machine before any call.  For all such
    runs, whatever their outcome, this file shows which files an operation can
    touch and that an operation that reports an error leaves the index as it
    found it. *)
From stdpp Require Import base gmap strings list fin_maps sorting pretty.
From Stdlib Require Import ZArith Lia Ascii.
From S2P Require Import Prelude HostFs Reflink.

(** ** Operations as data *)
Inductive op :=
| CreateVolume (name : string) (size_bytes : Z)
| DeleteVolume (name : string)
| ResizeVolume (name : string) (new_size_bytes : Z)
| CreateSnapshot (source_name snapshot_name : string) (activate : bool)
| DeleteSnapshot (snapshot_name : string).

Definition void {A} (m : Eng A) : Eng unit := m;;; ret tt.

Definition exec `{HostEnv} (o : op) : Eng unit :=
  match o with
  | CreateVolume n sz => void (create_volume n sz)
  | DeleteVolume n => delete_volume n
  | ResizeVolume n sz => void (resize_volume n sz)
  | CreateSnapshot src n a => void (create_snapshot src n a)
  | DeleteSnapshot n => delete_snapshot n
  end.

(** The name an operation is about. *)
Definition target (o : op) : string :=
  match o with
  | CreateVolume n _ | DeleteVolume n | ResizeVolume n _
  | CreateSnapshot _ n _ | DeleteSnapshot n => n
  end.

(** ** Relations between engine states *)

(** Files whose base name is not [n] are the same, in every directory. *)
Definition others_kept (n : string) (fs fs' : gmap string top) : Prop :=
  forall v m, m <> n -> file_at fs' v m = file_at fs v m.

#[export] Instance others_kept_preorder n : PreOrder (others_kept n).
Proof.
  split; [by intros fs|]. intros fs1 fs2 fs3 H12 H23 v m Hm.
  by rewrite H23, H12.
Qed.

Definition on_disk (R : gmap string top -> gmap string top -> Prop) (s s' : engine) : Prop :=
  R (h_fs (disk s)) (h_fs (disk s')).

Definition index_kept (s s' : engine) : Prop := name_index s' = name_index s.

#[export] Instance on_disk_preorder R `{!PreOrder R} : PreOrder (on_disk R).
Proof. split; unfold on_disk; [by intros s|intros s1 s2 s3 ??; by etrans]. Qed.
#[export] Instance index_kept_preorder : PreOrder index_kept.
Proof. split; unfold index_kept; [by intros s|intros s1 s2 s3 ??; by etrans]. Qed.

Lemma respects_io {A} R (m : IO A) :
  respects (on_fs R) m -> respects (on_disk R) (io m).
Proof. intros Hm s. apply Hm. Qed.
Lemma respects_io_index {A} (m : IO A) : respects index_kept (io m).
Proof. intros s. done. Qed.
#[export] Hint Resolve respects_io respects_io_index : respects.

(** Proves that a computation respects a relation by following its structure. *)
Ltac respects_step :=
  match goal with
  | |- respects _ (io_err _) => apply respects_map_err
  | |- respects (on_disk _) (io _) => apply respects_io
  | |- respects index_kept (io _) => apply respects_io_index
  | _ => respects_basic
  end.
Ltac solve_respects := repeat respects_step; eauto with respects; try done.

(** ** Host calls *)
Section calls.
Context `{HostEnv}.
Implicit Types (v n : string).

Lemma others_kept_put v n e fs : others_kept n fs (put_file (PSub v n) e fs).
Proof. intros v' m Hm. apply file_at_put; congruence. Qed.
Lemma others_kept_del v n fs : others_kept n fs (del_file (PSub v n) fs).
Proof. intros v' m Hm. apply file_at_del; congruence. Qed.
Lemma others_kept_mkdir v n fs : fs !! v = None -> others_kept n fs (<[v := TDir ∅]> fs).
Proof. intros Hv v' m _. by apply file_at_mkdir. Qed.
Lemma others_kept_rmdir v n fs : fs !! v = Some (TDir ∅) -> others_kept n fs (delete v fs).
Proof. intros Hv v' m _. by apply file_at_rmdir. Qed.
#[local] Hint Resolve others_kept_put others_kept_del others_kept_mkdir others_kept_rmdir : core.

Ltac solve_call :=
  apply respects_sys; [apply _|];
  unfold resolve, resolve_dir; intros fs now a fs' Hf;
  repeat (case_match; simplify_eq/=); simplify_eq; eauto; reflexivity.

Lemma kept_create_dir_all n v : respects (on_fs (others_kept n)) (sys_create_dir_all v).
Proof. solve_call. Qed.
Lemma kept_create_new v n : respects (on_fs (others_kept n)) (sys_create_new (PSub v n)).
Proof. solve_call. Qed.
Lemma kept_open n w p : respects (on_fs (others_kept n)) (sys_open w p).
Proof. solve_call. Qed.
Lemma kept_set_len v n len : respects (on_fs (others_kept n)) (sys_set_len (PSub v n) len).
Proof. solve_call. Qed.
Lemma kept_sync_all n : respects (on_fs (others_kept n)) sys_sync_all.
Proof. solve_call. Qed.
Lemma kept_open_dir n v : respects (on_fs (others_kept n)) (sys_open_dir v).
Proof. solve_call. Qed.
Lemma kept_open_root n : respects (on_fs (others_kept n)) sys_open_root.
Proof. solve_call. Qed.
Lemma kept_metadata n p : respects (on_fs (others_kept n)) (sys_metadata p).
Proof. solve_call. Qed.
Lemma kept_remove_file v n : respects (on_fs (others_kept n)) (sys_remove_file (PSub v n)).
Proof. solve_call. Qed.
Lemma kept_remove_dir n v : respects (on_fs (others_kept n)) (sys_remove_dir v).
Proof. solve_call. Qed.
Lemma kept_ficlone v n src : respects (on_fs (others_kept n)) (sys_ficlone (PSub v n) src).
Proof. solve_call. Qed.
Lemma kept_read_dir n v : respects (on_fs (others_kept n)) (sys_read_dir v).
Proof. solve_call. Qed.
Lemma kept_next_entry n : respects (on_fs (others_kept n)) sys_next_entry.
Proof. solve_call. Qed.
#[local] Hint Resolve kept_create_dir_all kept_create_new kept_open kept_set_len kept_sync_all
  kept_open_dir kept_open_root kept_metadata kept_remove_file kept_remove_dir kept_ficlone
  kept_read_dir kept_next_entry : respects.

Lemma kept_count_entries n names vol c : respects (on_fs (others_kept n)) (count_entries names vol c).
Proof.
  revert c; induction names as [|x names IH]; intros c; simpl; solve_respects.
Qed.
Lemma kept_fn_ficlone v n src : respects (on_fs (others_kept n)) (ficlone src (PSub v n)).
Proof. unfold ficlone. solve_respects. Qed.
Lemma kept_fsync_dir n v : respects (on_fs (others_kept n)) (fsync_dir v).
Proof. unfold fsync_dir. solve_respects. Qed.
Lemma kept_fsync_volumes_dir n : respects (on_fs (others_kept n)) fsync_volumes_dir.
Proof. unfold fsync_volumes_dir. solve_respects. Qed.
#[local] Hint Resolve kept_count_entries kept_fn_ficlone kept_fsync_dir kept_fsync_volumes_dir
  : respects.

(** ** Operations: files *)
Lemma kept_count_snapshots n v vol :
  respects (on_disk (others_kept n)) (count_snapshots_on_disk v vol).
Proof. unfold count_snapshots_on_disk. solve_respects. Qed.
#[local] Hint Resolve kept_count_snapshots : respects.

Lemma kept_project_volume n vol : respects (on_disk (others_kept n)) (project_volume vol).
Proof. unfold project_volume. solve_respects. Qed.
Lemma kept_project_snapshot n snap : respects (on_disk (others_kept n)) (project_snapshot snap).
Proof. unfold project_snapshot. solve_respects. Qed.
Lemma kept_absent_ok n m :
  respects (on_fs (others_kept n)) m -> respects (on_disk (others_kept n)) (absent_ok m).
Proof. intros Hm. unfold absent_ok. solve_respects. Qed.
#[local] Hint Resolve kept_project_volume kept_project_snapshot kept_absent_ok : respects.

Lemma kept_exec o : respects (on_disk (others_kept (target o))) (exec o).
Proof.
  destruct o; simpl; unfold void, create_volume, create_volume_body, delete_volume,
    resize_volume, create_snapshot, create_snapshot_body, delete_snapshot,
    snapshot_source, vol_main_file, snap_file; solve_respects.
Qed.

(** ** Operations: the index *)
Lemma index_kept_absent_ok m : respects index_kept (absent_ok m).
Proof. unfold absent_ok. solve_respects. Qed.
Lemma index_kept_count_snapshots v vol : respects index_kept (count_snapshots_on_disk v vol).
Proof. unfold count_snapshots_on_disk. solve_respects. Qed.
#[local] Hint Resolve index_kept_absent_ok index_kept_count_snapshots : respects.
Lemma index_kept_project_volume vol : respects index_kept (project_volume vol).
Proof. unfold project_volume. solve_respects. Qed.
Lemma index_kept_project_snapshot snap : respects index_kept (project_snapshot snap).
Proof. unfold project_snapshot. solve_respects. Qed.
#[local] Hint Resolve index_kept_project_volume index_kept_project_snapshot : respects.
Lemma index_kept_create_volume_body n sz : respects index_kept (create_volume_body n sz).
Proof. unfold create_volume_body. solve_respects. Qed.
Lemma index_kept_create_snapshot_body src o n : respects index_kept (create_snapshot_body src o n).
Proof. unfold create_snapshot_body. solve_respects. Qed.
#[local] Hint Resolve index_kept_create_volume_body index_kept_create_snapshot_body : respects.

(** A computation that, when it fails, has left the index alone. *)
Definition fails_clean {A} (m : Eng A) : Prop :=
  forall s e, (m s).1 = Fail e -> index_kept s (m s).2.
Definition never_fails {A} (m : Eng A) : Prop := forall s e, (m s).1 <> Fail e.

Lemma fails_clean_respects {A} (m : Eng A) : respects index_kept m -> fails_clean m.
Proof. intros Hm s e _. apply Hm. Qed.
Lemma fails_clean_bind {A B} (m : Eng A) (f : A -> Eng B) :
  respects index_kept m -> (forall a, fails_clean (f a)) -> fails_clean (bind m f).
Proof.
  intros Hm Hf s e. unfold bind. specialize (Hm s).
  destruct (m s) as [[a|e'|] s'] eqn:Hs; simpl in *; [|done|done].
  intros Hfail. etrans; [done|by eapply Hf].
Qed.
Lemma never_fails_clean {A} (m : Eng A) : never_fails m -> fails_clean m.
Proof. intros Hm s e He. by destruct (Hm s e). Qed.
Lemma never_fails_bind {A B} (m : Eng A) (f : A -> Eng B) :
  never_fails m -> (forall a, never_fails (f a)) -> never_fails (bind m f).
Proof.
  intros Hm Hf s e. unfold bind. specialize (Hm s).
  destruct (m s) as [[a|e'|] s']; simpl in *; [apply Hf| |done].
  intros ?. by apply (Hm e').
Qed.
Lemma never_fails_modify f : never_fails (modify f).
Proof. done. Qed.
Lemma never_fails_ret {A} (a : A) : never_fails (ret a).
Proof. done. Qed.
Lemma never_fails_get : never_fails get.
Proof. done. Qed.
Lemma never_fails_ignore {A} (m : Eng A) : never_fails (ignore m).
Proof. intros s e. unfold ignore. by destruct (m s) as [[]]. Qed.
Lemma never_fails_catch {A} (m : Eng A) : never_fails (catch m).
Proof. intros s e. unfold catch. by destruct (m s) as [[]]. Qed.
#[local] Hint Resolve never_fails_modify never_fails_ret never_fails_get never_fails_ignore
  never_fails_catch : respects.

(** Reserving a fresh name, running a body that keeps the index, and undoing
    the reservation when the body fails. *)
Lemma reserve_fails_clean {A} n k (body : Eng A) (rollback : CubecowError -> Eng A) s :
  name_index s !! n = None ->
  respects index_kept body ->
  (forall e s', name_index (rollback e s').2 = delete n (name_index s')) ->
  forall e, let m := modify (set_index <[n := k]>);;;
                     let* r := catch body in
                     match r with Ok a => ret a | Err e => rollback e end in
  (m s).1 = Fail e -> index_kept s (m s).2.
Proof.
  intros Hn Hbody Hroll e. unfold index_kept. simpl. unfold bind, modify, catch.
  specialize (Hbody (set_index <[n := k]> s)). unfold index_kept in Hbody. simpl in Hbody.
  destruct (body _) as [[a|e'|] s']; simpl in *; [done| |done].
  intros _. rewrite Hroll, Hbody. by apply delete_insert_id.
Qed.

Lemma exec_fails_clean o : fails_clean (exec o).
Proof.
  assert (Hvoid : forall A (m : Eng A), fails_clean m -> fails_clean (void m)).
  { intros A m Hm s e. unfold void, bind. specialize (Hm s).
    destruct (m s) as [[a|e'|] s']; simpl in *; [done| |done]. intros _. by eapply Hm. }
  destruct o as [n sz|n|n sz|src n a|n]; simpl; try apply Hvoid.
  - apply fails_clean_bind; [solve_respects|intros _]. intros s e.
    rewrite bind_get. destruct (name_index s !! n) eqn:Hn; [intros _; reflexivity|].
    apply (reserve_fails_clean n KVolume); [done|solve_respects|].
    intros e' s'. unfold bind, modify, ignore, throw, io_err, map_err, io.
    by repeat (case_match; simplify_eq/=).
  - apply fails_clean_bind; [solve_respects|intros s].
    destruct (name_index s !! n) as [[|o]|]; try (apply fails_clean_respects; solve [solve_respects]).
    cbv zeta. repeat (apply fails_clean_bind; [solve [solve_respects]|intros _]).
    apply never_fails_clean. apply never_fails_bind; intros; eauto with respects.
  - apply fails_clean_respects. unfold resize_volume. solve_respects.
  - apply fails_clean_bind; [solve_respects|intros _]. intros s e.
    rewrite bind_get. destruct (snapshot_source _ _) as [[p o]|]; [|intros _; reflexivity].
    destruct (name_index s !! n) eqn:Hn; [intros _; reflexivity|].
    apply (reserve_fails_clean n (KSnapshot o)); [done|solve_respects|done].
  - apply fails_clean_bind; [solve_respects|intros s].
    destruct (name_index s !! n) as [[|o]|]; try (apply fails_clean_respects; solve [solve_respects]).
    cbv zeta. repeat (apply fails_clean_bind; [solve [solve_respects]|intros _]).
    apply never_fails_clean. repeat (apply never_fails_bind; intros; eauto with respects).
    case_match; eauto with respects.
    apply never_fails_bind; intros; eauto with respects. case_match; eauto with respects.
Qed.
End calls.

(** C7: Whatever errors the host injects into its calls, and wherever the
    machine stops, an operation on the name [target o] leaves every file with
    another base name, in every volume directory, exactly as it was: its
    existence, size, time and bytes. *)
Theorem exec_keeps_other_files `{HostEnv} (o : op) (s : engine) (v m : string) :
  m <> target o ->
  file_at (h_fs (disk (exec o s).2)) v m = file_at (h_fs (disk s)) v m.
Proof. intros Hm. by apply (kept_exec o s). Qed.

(** A crash right after the clone of a snapshot leaves its sibling alone. *)
Lemma exec_keeps_other_files_witness :
  let e := Entry Regular 4096 3 {[0%Z := 7%Z]} in
  let s := engine_of_index "/r/volumes" {["a" := KVolume; "t" := KSnapshot "a"]}
             (Host {["a" := TDir {["a" := e; "t" := e]}]} [NoFault; NoFault; NoFault; Crash] 7) in
  let s' := (exec (H := plain_env) (CreateSnapshot "a" "s" true) s).2 in
  file_at (h_fs (disk s')) "a" "s" = Some (Entry Regular 4096 7 {[0%Z := 7%Z]}) /\
  file_at (h_fs (disk s')) "a" "t" = Some e.
Proof.
  intros e s s'. split; [vm_compute; reflexivity|].
  apply (exec_keeps_other_files (H := plain_env) (CreateSnapshot "a" "s" true) s "a" "t").
  intros [=].
Defined.

(** C29: An operation that reports an error, at whatever call the host made it
    fail, leaves the name index exactly as it was: reservations are rolled
    back, and no name is dropped before its file is gone. *)
Theorem exec_error_keeps_index `{HostEnv} (o : op) (s : engine) (e : CubecowError) :
  (exec o s).1 = Fail e -> name_index (exec o s).2 = name_index s.
Proof. apply exec_fails_clean. Qed.

(** The fourth call of a volume creation, [set_len], is refused for lack of
    space. *)
Lemma exec_error_keeps_index_witness :
  let s := engine_of_index "/r/volumes" {["a" := KVolume]}
             (Host {["a" := TDir {["a" := Entry Regular 4096 0 ∅]}]}
                [NoFault; NoFault; Inject EnvNoSpace] 7) in
  (exec (H := plain_env) (CreateVolume "b" 512) s).1 = Fail (IoError ENOSPC) /\
  name_index (exec (H := plain_env) (CreateVolume "b" 512) s).2 = name_index s.
Proof.
  intros s. split; [vm_compute; reflexivity|].
  apply (exec_error_keeps_index (H := plain_env) (CreateVolume "b" 512) s (IoError ENOSPC)).
  vm_compute. reflexivity.
Defined.
