(* ===== verification/ReflinkRefine.v ===== *)
(** * The reflink engine implements a flat store of independent objects

    The contract of the [Engine] trait ([src/cubecow/src/engine/mod.rs]) as an
    abstract store, the invariant that ties the index to the directory layout,
    and the proof that every operation of the reflink engine implements the
    abstract one when the host reports no error. *)
From stdpp Require Import base gmap strings list fin_maps sorting pretty.
From Stdlib Require Import ZArith Lia Ascii.
From S2P Require Import Prelude HostFs Reflink ReflinkFaults.

(** ** The layout invariant *)

(** Where a name lives, and what a file found at [volumes/<v>/<n>] is. *)
Definition dir_of (n : string) (k : NameKind) : string :=
  match k with KVolume => n | KSnapshot o => o end.
Definition kind_in (v n : string) : NameKind :=
  if decide (n = v) then KVolume else KSnapshot v.

(** A name the scan does not skip. *)
Definition plain_name (n : string) : Prop :=
  starts_with_dot n = false /\ utf8_valid n = true.

(** Every file of the tree is registered under the kind its place gives it and
    every registered name has its file; no snapshot file is empty.  A directory
    may be empty. *)
Record wf (fs : gmap string top) (idx : gmap string NameKind) : Prop := {
  wf_dir v t : fs !! v = Some t -> plain_name v /\ exists d, t = TDir d;
  wf_file v n e : file_at fs v n = Some e ->
    e_type e = Regular /\ plain_name n /\ idx !! n = Some (kind_in v n) /\
    (n <> v -> e_size e <> 0%Z);
  wf_index n k : idx !! n = Some k ->
    is_Some (file_at fs (dir_of n k) n) /\ k = kind_in (dir_of n k) n;
}.

(** ** The abstract store *)
Record object := Obj { o_kind : NameKind; o_size : Z; o_data : gmap Z Z }.

Definition object_of (k : NameKind) (e : entry) : object := Obj k (e_size e) (e_data e).

Abbreviation store := (gmap string object).

Definition abs (fs : gmap string top) (idx : gmap string NameKind) : store :=
  map_imap (fun n k => object_of k <$> file_at fs (dir_of n k) n) idx.

Inductive error_class := CNotFound | CAlreadyExists | CInvalidArg.

Definition class_of (e : CubecowError) : option error_class :=
  match e with
  | NotFound _ => Some CNotFound
  | AlreadyExists _ => Some CAlreadyExists
  | InvalidArg _ => Some CInvalidArg
  | _ => None
  end.

(** The store after an operation, or why it is refused.  A snapshot is a copy
    of its source that belongs to the volume the chain of snapshots started
    from; nothing links it to its source afterwards. *)
Definition spec (o : op) (a : store) : result error_class store :=
  match o with
  | CreateVolume n sz =>
    if is_ok (validate_name n "volume") then
      match a !! n with
      | Some _ => Err CAlreadyExists
      | None => Ok (<[n := Obj KVolume sz ∅]> a)
      end
    else Err CInvalidArg
  | DeleteVolume n =>
    match a !! n with
    | Some (Obj KVolume _ _) => Ok (delete n a)
    | Some _ => Err CInvalidArg
    | None => Err CNotFound
    end
  | ResizeVolume n sz =>
    match a !! n with
    | Some (Obj KVolume old data) =>
      if decide (sz < old)%Z then Err CInvalidArg
      else Ok (<[n := Obj KVolume sz (if decide (sz = old) then data
                                      else filter (fun kv => (kv.1 < sz)%Z) data)]> a)
    | Some _ => Err CInvalidArg
    | None => Err CNotFound
    end
  | CreateSnapshot src n _ =>
    if is_ok (validate_name n "snapshot") then
      match a !! src with
      | None => Err CNotFound
      | Some (Obj k sz data) =>
        match a !! n with
        | Some _ => Err CAlreadyExists
        | None => Ok (<[n := Obj (KSnapshot (dir_of src k)) sz data]> a)
        end
      end
    else Err CInvalidArg
  | DeleteSnapshot n =>
    match a !! n with
    | Some (Obj (KSnapshot _) _ _) => Ok (delete n a)
    | Some _ => Err CInvalidArg
    | None => Err CNotFound
    end
  end.

(** What an operation needs for its effect to survive a restart: a name that
    is a Rust string, and for a snapshot a source that is not empty and a name
    other than that of the volume it belongs to. *)
Definition op_ok (o : op) (a : store) : Prop :=
  utf8_valid (target o) = true /\
  match o with
  | CreateSnapshot src n _ =>
    match a !! src with
    | Some ob => o_size ob <> 0%Z /\ n <> dir_of src (o_kind ob)
    | None => True
    end
  | _ => True
  end.

#[export] Instance op_ok_dec o a : Decision (op_ok o a).
Proof. unfold op_ok. destruct o; repeat case_match; apply _. Defined.

(** ** The tree effects of the operations *)
Definition mkdir (v : string) (fs : gmap string top) : gmap string top :=
  match fs !! v with None => <[v := TDir ∅]> fs | Some _ => fs end.

(** [fs'] is [fs] without the file [v/n]; directories may have gone. *)
Definition removed (v n : string) (fs fs' : gmap string top) : Prop :=
  (forall v' m, file_at fs' v' m = if decide (v' = v /\ m = n) then None else file_at fs v' m) /\
  (forall v' t, fs' !! v' = Some t -> exists d t', t = TDir d /\ fs !! v' = Some t').

Lemma removed_del v n fs :
  (forall v t, fs !! v = Some t -> exists d, t = TDir d) -> removed v n fs (del_file (PSub v n) fs).
Proof.
  intros Hdirs. split.
  - intros v' m. case_decide as Hc; [|apply file_at_del; naive_solver].
    destruct Hc as [-> ->]. unfold file_at, del_file.
    destruct (fs !! v) as [[d|]|] eqn:Hv; rewrite ?lookup_insert_eq, ?Hv; [|done|done].
    apply lookup_delete_eq.
  - intros v' t. unfold del_file. destruct (fs !! v) as [[d|]|] eqn:Hv.
    + destruct (decide (v = v')) as [<-|].
      * rewrite lookup_insert_eq. intros [= <-]. eauto.
      * rewrite lookup_insert_ne by done. intros Ht. destruct (Hdirs _ _ Ht) as [? ->]. eauto.
    + intros Ht. destruct (Hdirs _ _ Ht) as [? ->]. eauto.
    + intros Ht. destruct (Hdirs _ _ Ht) as [? ->]. eauto.
Qed.

Lemma removed_rmdir v n fs fs' u :
  removed v n fs fs' -> fs' !! u = Some (TDir ∅) -> removed v n fs (delete u fs').
Proof.
  intros [Hf Hd] Hu. split.
  - intros v' m. rewrite <- Hf. by apply file_at_rmdir.
  - intros v' t. rewrite lookup_delete_Some. intros [_ Ht]. by apply Hd.
Qed.

Lemma file_at_put_sub v n e fs v' m d :
  fs !! v = Some (TDir d) ->
  file_at (put_file (PSub v n) e fs) v' m =
  if decide (v' = v /\ m = n) then Some e else file_at fs v' m.
Proof.
  intros Hv. case_decide as Hd; [destruct Hd as [-> ->]; by eapply file_at_put_eq|].
  apply file_at_put; naive_solver.
Qed.

Lemma file_at_mkdir_fs v fs v' m : file_at (mkdir v fs) v' m = file_at fs v' m.
Proof. unfold mkdir. destruct (fs !! v) eqn:Hv; [done|]. by apply file_at_mkdir. Qed.

(** ** The invariant is preserved *)
Section wf_lemmas.
Implicit Types (fs : gmap string top) (idx : gmap string NameKind) (v n : string).

Lemma dir_of_kind_in v n : dir_of n (kind_in v n) = v.
Proof. unfold kind_in. by case_decide; subst. Qed.

Lemma wf_fresh_file fs idx v n : wf fs idx -> idx !! n = None -> file_at fs v n = None.
Proof.
  intros Hwf Hn. destruct (file_at fs v n) eqn:Hf; [|done].
  apply (wf_file _ _ Hwf) in Hf as (_ & _ & Hf & _). congruence.
Qed.

Lemma wf_lookup_dir fs idx v : wf fs idx ->
  fs !! v = None \/ exists d, fs !! v = Some (TDir d) /\ plain_name v.
Proof.
  intros Hwf. destruct (fs !! v) as [t|] eqn:Hv; [right|by left].
  destruct (wf_dir _ _ Hwf v t Hv) as (? & d & ->). eauto.
Qed.

Lemma file_at_Some fs v n e :
  file_at fs v n = Some e -> exists d, fs !! v = Some (TDir d) /\ d !! n = Some e.
Proof. unfold file_at. intros. repeat case_match; naive_solver. Qed.

Lemma mkdir_lookup fs idx v : wf fs idx -> exists d, mkdir v fs !! v = Some (TDir d).
Proof.
  intros Hwf. unfold mkdir. destruct (wf_lookup_dir fs idx v Hwf) as [Hv|(d & Hv & _)]; rewrite Hv.
  - rewrite lookup_insert_eq. eauto.
  - eauto.
Qed.

Lemma wf_add fs idx v n e :
  wf fs idx -> plain_name v -> plain_name n -> idx !! n = None ->
  e_type e = Regular -> (n <> v -> e_size e <> 0%Z) ->
  wf (put_file (PSub v n) e (mkdir v fs)) (<[n := kind_in v n]> idx).
Proof.
  intros Hwf Hv Hn Hidx Hty Hsz. destruct (mkdir_lookup fs idx v Hwf) as [d Hd].
  assert (Hfile : forall v' m, file_at (put_file (PSub v n) e (mkdir v fs)) v' m =
                    if decide (v' = v /\ m = n) then Some e else file_at fs v' m).
  { intros v' m. rewrite (file_at_put_sub _ _ _ _ _ _ d) by done. by rewrite file_at_mkdir_fs. }
  split.
  - intros v' t. unfold put_file. rewrite Hd. destruct (decide (v = v')) as [<-|Hne].
    + rewrite lookup_insert_eq. intros [= <-]. eauto.
    + rewrite lookup_insert_ne by done. unfold mkdir.
      destruct (fs !! v) eqn:?; [|rewrite lookup_insert_ne by done]; apply (wf_dir _ _ Hwf).
  - intros v' m e'. rewrite Hfile. case_decide as Hc.
    + destruct Hc as [-> ->]. intros [= <-]. rewrite lookup_insert_eq. done.
    + intros Hf. destruct (wf_file _ _ Hwf _ _ _ Hf) as (? & ? & Hm & ?).
      split_and!; [done|done| |done]. rewrite lookup_insert_ne; [done|congruence].
  - intros m k. destruct (decide (n = m)) as [<-|Hne].
    + rewrite lookup_insert_eq. intros [= <-]. rewrite !dir_of_kind_in, Hfile.
      rewrite decide_True by done. eauto.
    + rewrite lookup_insert_ne by done. intros Hm. rewrite Hfile.
      rewrite decide_False by (intros [? ?]; congruence). by apply (wf_index _ _ Hwf).
Qed.

Lemma wf_del fs fs' idx n k :
  wf fs idx -> idx !! n = Some k -> removed (dir_of n k) n fs fs' -> wf fs' (delete n idx).
Proof.
  intros Hwf Hk [Hfile Hdirs]. split.
  - intros v t Ht. destruct (Hdirs _ _ Ht) as (d & t' & -> & Hv).
    destruct (wf_dir _ _ Hwf _ _ Hv). eauto.
  - intros v' m e'. rewrite Hfile. case_decide as Hc; [done|]. intros Hf.
    destruct (wf_file _ _ Hwf _ _ _ Hf) as (? & ? & Hm & ?). split_and!; [done|done| |done].
    rewrite lookup_delete_ne; [done|]. intros <-. apply Hc. split; [|done].
    rewrite Hm in Hk. simplify_eq. by rewrite dir_of_kind_in.
  - intros m k' Hm. apply lookup_delete_Some in Hm as [Hne Hm]. rewrite Hfile.
    rewrite decide_False by (intros [? ?]; congruence). by apply (wf_index _ _ Hwf).
Qed.

Lemma wf_update fs idx v n e e' :
  wf fs idx -> file_at fs v n = Some e -> e_type e' = Regular ->
  (n <> v -> e_size e' <> 0%Z) -> wf (put_file (PSub v n) e' fs) idx.
Proof.
  intros Hwf He Hty Hsz. apply file_at_Some in He as Hd. destruct Hd as (d & Hd & Hdn).
  assert (Hfile := fun v' m => file_at_put_sub v n e' fs v' m d Hd).
  split.
  - intros v' t. unfold put_file. rewrite Hd. destruct (decide (v = v')) as [<-|].
    + rewrite lookup_insert_eq. intros [= <-]. destruct (wf_dir _ _ Hwf _ _ Hd).
      eauto.
    + rewrite lookup_insert_ne by done. apply (wf_dir _ _ Hwf).
  - intros v' m e''. rewrite Hfile. case_decide as Hc; [|apply (wf_file _ _ Hwf)].
    destruct Hc as [-> ->]. intros [= <-].
    destruct (wf_file _ _ Hwf _ _ _ He) as (? & ? & ? & ?). done.
  - intros m k Hm. rewrite Hfile. destruct (wf_index _ _ Hwf _ _ Hm). case_decide; eauto.
Qed.

(** ** The abstraction follows the tree effects *)
Lemma abs_lookup fs idx n :
  abs fs idx !! n = k ← idx !! n; object_of k <$> file_at fs (dir_of n k) n.
Proof. apply map_lookup_imap. Qed.

Lemma abs_lookup_None fs idx n : wf fs idx -> abs fs idx !! n = None <-> idx !! n = None.
Proof.
  intros Hwf. rewrite abs_lookup. destruct (idx !! n) as [k|] eqn:Hk; [|done].
  destruct (wf_index _ _ Hwf n k Hk) as [[e He] _]. simpl. by rewrite He.
Qed.

Lemma abs_lookup_Some fs idx n ob : abs fs idx !! n = Some ob ->
  idx !! n = Some (o_kind ob) /\
  exists e, file_at fs (dir_of n (o_kind ob)) n = Some e /\ ob = object_of (o_kind ob) e.
Proof.
  rewrite abs_lookup. destruct (idx !! n) as [k|] eqn:Hk; simpl; [|done].
  intros (e & He & ->)%fmap_Some. simpl. eauto.
Qed.

(** Two trees that differ in files called [n] only agree on the other names. *)
Lemma abs_others fs fs' idx idx' n m :
  others_kept n fs fs' -> m <> n -> idx' !! m = idx !! m -> abs fs' idx' !! m = abs fs idx !! m.
Proof.
  intros Ho Hm Hi. rewrite !abs_lookup, Hi. destruct (idx !! m); simpl; [|done].
  by rewrite Ho.
Qed.

Lemma others_kept_put_mkdir v n e fs idx :
  wf fs idx -> others_kept n fs (put_file (PSub v n) e (mkdir v fs)).
Proof.
  intros Hwf v' m Hm. rewrite file_at_put by congruence. apply file_at_mkdir_fs.
Qed.

Lemma abs_add fs idx v n e : wf fs idx ->
  abs (put_file (PSub v n) e (mkdir v fs)) (<[n := kind_in v n]> idx) =
  <[n := object_of (kind_in v n) e]> (abs fs idx).
Proof.
  intros Hwf. apply map_eq. intros m. destruct (decide (m = n)) as [->|Hm].
  - destruct (mkdir_lookup fs idx v Hwf) as [d Hd].
    rewrite abs_lookup, !lookup_insert_eq. simpl. rewrite dir_of_kind_in.
    by rewrite (file_at_put_eq _ _ _ _ d).
  - rewrite lookup_insert_ne by congruence. apply (abs_others _ _ _ _ n); [|done|rewrite lookup_insert_ne; congruence].
    by eapply others_kept_put_mkdir.
Qed.

Lemma abs_del fs fs' idx v n :
  removed v n fs fs' -> abs fs' (delete n idx) = delete n (abs fs idx).
Proof.
  intros [Hfile _].
  apply map_eq. intros m. destruct (decide (m = n)) as [->|Hm].
  - by rewrite abs_lookup, !lookup_delete_eq.
  - rewrite lookup_delete_ne by congruence. apply (abs_others _ _ _ _ n); [|done|rewrite lookup_delete_ne; congruence].
    intros v' m' Hm'. rewrite Hfile. by rewrite decide_False by (intros [? ?]; congruence).
Qed.

Lemma abs_update fs idx n k e e' :
  idx !! n = Some k -> file_at fs (dir_of n k) n = Some e ->
  abs (put_file (PSub (dir_of n k) n) e' fs) idx = <[n := object_of k e']> (abs fs idx).
Proof.
  intros Hk He. apply file_at_Some in He as (d & Hd & _).
  apply map_eq. intros m. destruct (decide (m = n)) as [->|Hm].
  - rewrite lookup_insert_eq, abs_lookup, Hk. simpl. by rewrite (file_at_put_eq _ _ _ _ d).
  - rewrite lookup_insert_ne by congruence. apply (abs_others _ _ _ _ n); [|done|done].
    intros v' m' Hm'. apply file_at_put; congruence.
Qed.
End wf_lemmas.

(** ** Calls that succeed *)
Section calls.
Context `{HostEnv}.
Implicit Types (fs : gmap string top) (v n : string) (now : Z).

Ltac run_call := unfold sys, run_call; simpl; unfold resolve, resolve_dir; simpl.

Lemma run_create_dir_all fs now v :
  (forall e, fs !! v <> Some (TFile e)) ->
  sys_create_dir_all v (Host fs [] now) = (Done tt, Host (mkdir v fs) [] now).
Proof.
  intros Hv. unfold sys_create_dir_all, mkdir. run_call.
  destruct (fs !! v) as [[d|e]|]; [done| |done]. by destruct (Hv e).
Qed.

Lemma run_create_new fs now v n d :
  fs !! v = Some (TDir d) -> d !! n = None ->
  sys_create_new (PSub v n) (Host fs [] now) =
  (Done tt, Host (put_file (PSub v n) (Entry Regular 0 now ∅) fs) [] now).
Proof. intros Hv Hn. unfold sys_create_new. run_call. by rewrite Hv, Hn. Qed.

Lemma run_open fs now w v n e :
  file_at fs v n = Some e -> e_type e = Regular ->
  sys_open w (PSub v n) (Host fs [] now) = (Done tt, Host fs [] now).
Proof.
  intros (d & Hv & Hn)%file_at_Some Hty. unfold sys_open. run_call. rewrite Hv, Hn.
  by rewrite decide_False by (rewrite Hty; intros [? ?]; congruence).
Qed.

Lemma run_set_len fs now v n e len :
  file_at fs v n = Some e ->
  sys_set_len (PSub v n) len (Host fs [] now) =
  (Done tt, Host (put_file (PSub v n) (truncate len now e) fs) [] now).
Proof. intros He. unfold sys_set_len. run_call. by rewrite He. Qed.

Lemma run_metadata fs now v n e :
  file_at fs v n = Some e ->
  sys_metadata (PSub v n) (Host fs [] now) = (Done e, Host fs [] now).
Proof. intros (d & Hv & Hn)%file_at_Some. unfold sys_metadata. run_call. by rewrite Hv, Hn. Qed.

Lemma run_remove_file fs now v n e :
  file_at fs v n = Some e -> e_type e = Regular ->
  sys_remove_file (PSub v n) (Host fs [] now) = (Done tt, Host (del_file (PSub v n) fs) [] now).
Proof.
  intros (d & Hv & Hn)%file_at_Some Hty. unfold sys_remove_file. run_call. rewrite Hv, Hn.
  by rewrite decide_False by (rewrite Hty; congruence).
Qed.

Lemma run_remove_dir fs now v :
  fs !! v = Some (TDir ∅) ->
  sys_remove_dir v (Host fs [] now) = (Done tt, Host (delete v fs) [] now).
Proof. intros Hv. unfold sys_remove_dir. run_call. by rewrite Hv, decide_True. Qed.

Lemma run_ficlone fs now dv dn sv sn src dst :
  file_at fs sv sn = Some src -> e_type src = Regular -> file_at fs dv dn = Some dst ->
  sys_ficlone (PSub dv dn) (PSub sv sn) (Host fs [] now) =
  (Done tt, Host (put_file (PSub dv dn) (ficlone_ioctl src dst) fs) [] now).
Proof.
  intros Hs Hty Hd. unfold sys_ficlone. run_call. rewrite Hs, Hd.
  by rewrite decide_False by (rewrite Hty; congruence).
Qed.

Lemma run_read_dir fs now v d :
  fs !! v = Some (TDir d) ->
  sys_read_dir v (Host fs [] now) = (Done (names_of d), Host fs [] now).
Proof. intros Hv. unfold sys_read_dir. run_call. by rewrite Hv. Qed.

Lemma run_fsync_dir fs now v t :
  fs !! v = Some t -> fsync_dir v (Host fs [] now) = (Done tt, Host fs [] now).
Proof.
  intros Hv. unfold fsync_dir, sys_open_dir, bind. run_call. by rewrite Hv.
Qed.

Lemma run_count_entries names vol c fs now :
  exists c', count_entries names vol c (Host fs [] now) = (Done c', Host fs [] now).
Proof.
  revert c; induction names as [|x names IH]; intros c; simpl; [by eexists|].
  rewrite (bind_done _ _ _ tt (Host fs [] now)) by done.
  destruct (into_string x); [|done]. by repeat case_decide || case_match.
Qed.
End calls.

(** ** Operations that succeed *)
Section runs.
Context `{HE : HostEnv} {HL : HostEnvLaws HE}.
Implicit Types (fs : gmap string top) (idx : gmap string NameKind) (v n : string) (now : Z).

Lemma io_done {A} (m : IO A) vd idx mt h a h' :
  m h = (Done a, h') -> io m (Engine vd idx mt h) = (Done a, Engine vd idx mt h').
Proof. intros Hm. unfold io. simpl. by rewrite Hm. Qed.
Lemma io_err_done {A} (m : IO A) vd idx mt h a h' :
  m h = (Done a, h') -> io_err m (Engine vd idx mt h) = (Done a, Engine vd idx mt h').
Proof. intros Hm. apply map_err_done. by apply io_done. Qed.
Lemma absent_ok_done (m : IO unit) vd idx mt h h' :
  m h = (Done tt, h') -> absent_ok m (Engine vd idx mt h) = (Done tt, Engine vd idx mt h').
Proof.
  intros Hm. unfold absent_ok. erewrite bind_done; [|by apply catch_done, io_err_done]. done.
Qed.

(** One step of a straight-line run. *)
Ltac step_with tac :=
  rewrite ?bind_get, ?bind_modify; simpl set_index; simpl set_metrics;
  erewrite bind_done;
  [|first [apply io_err_done | apply map_err_done, io_done | apply absent_ok_done
          | eapply ignore_done, io_err_done | apply catch_done, io_err_done]; tac].

Lemma run_project_volume vd idx mt fs now n e :
  file_at fs n n = Some e ->
  exists c, project_volume n (Engine vd idx mt (Host fs [] now)) =
  (Done (mkVolume n (e_size e) (vd +:+ "/" +:+ n +:+ "/" +:+ n) c (rfc3339_from_meta e)),
   Engine vd idx mt (Host fs [] now)).
Proof.
  intros He. apply file_at_Some in He as Hd. destruct Hd as (d & Hd & _).
  destruct (run_count_entries (names_of d) n 0 fs now) as [c Hc]. exists c.
  unfold project_volume. step_with ltac:(by eapply run_metadata).
  rewrite (bind_done _ _ _ c (Engine vd idx mt (Host fs [] now))); [done|].
  unfold count_snapshots_on_disk.
  step_with ltac:(by eapply run_read_dir). by apply io_err_done.
Qed.

Lemma run_project_snapshot vd idx mt fs now n o e :
  idx !! n = Some (KSnapshot o) -> file_at fs o n = Some e ->
  project_snapshot n (Engine vd idx mt (Host fs [] now)) =
  (Done (mkSnapshot n (e_size e) (vd +:+ "/" +:+ o +:+ "/" +:+ n) o (rfc3339_from_meta e)),
   Engine vd idx mt (Host fs [] now)).
Proof.
  intros Hn He. unfold project_snapshot. rewrite bind_get. simpl. rewrite Hn.
  by step_with ltac:(by eapply run_metadata).
Qed.

Lemma put_put p v n e1 e2 fs :
  p = PSub v n -> put_file p e2 (put_file p e1 fs) = put_file p e2 fs.
Proof.
  intros ->. unfold put_file. destruct (fs !! v) as [[d|]|] eqn:Hv; [|by rewrite Hv|by rewrite Hv].
  by rewrite lookup_insert_eq, !insert_insert_eq.
Qed.

Lemma put_lookup v n e fs d :
  fs !! v = Some (TDir d) -> put_file (PSub v n) e fs !! v = Some (TDir (<[n := e]> d)).
Proof. intros Hv. unfold put_file. by rewrite Hv, lookup_insert_eq. Qed.

Lemma wf_not_file fs idx v : wf fs idx -> forall e, fs !! v <> Some (TFile e).
Proof. intros Hwf e Hv. destruct (wf_dir _ _ Hwf v _ Hv) as (_ & d & ?). done. Qed.

Lemma run_create_volume vd idx mt fs now n sz :
  wf fs idx -> validate_name n "volume" = Ok tt -> idx !! n = None ->
  exists vol, create_volume n sz (Engine vd idx mt (Host fs [] now)) =
  (Done vol, Engine vd (<[n := KVolume]> idx) (metrics_inc METRIC_VOLUME_COUNT mt)
               (Host (put_file (PSub n n) (Entry Regular sz now ∅) (mkdir n fs)) [] now)) /\
  vol_name vol = n /\ vol_size_bytes vol = sz.
Proof.
  intros Hwf Hv Hn. destruct (mkdir_lookup fs idx n Hwf) as [d Hd].
  assert (Hdn : d !! n = None).
  { rewrite <- (wf_fresh_file fs idx n n Hwf Hn), <- (file_at_mkdir_fs n). unfold file_at.
    by rewrite Hd. }
  set (fs' := put_file (PSub n n) (Entry Regular sz now ∅) (mkdir n fs)).
  assert (He : file_at fs' n n = Some (Entry Regular sz now ∅)) by by eapply file_at_put_eq.
  destruct (run_project_volume vd (<[n := KVolume]> idx)
              (metrics_inc METRIC_VOLUME_COUNT mt) fs' now n _ He) as [c Hc].
  match type of Hc with _ = (Done ?v, ?s) => exists v; set (vol := v) in *; set (st := s) in * end.
  split; [|done].
  unfold create_volume. rewrite Hv. unfold of_result. rewrite bind_ret, bind_get. simpl.
  rewrite Hn, bind_modify. simpl.
  rewrite (bind_done _ _ _ (Ok vol) st); [done|]. apply catch_done.
  unfold create_volume_body.
  step_with ltac:(apply run_create_dir_all; by eapply wf_not_file).
  step_with ltac:(by eapply run_create_new).
  step_with ltac:(eapply run_set_len; by eapply file_at_put_eq).
  erewrite put_put by done. unfold truncate. simpl. rewrite map_filter_empty. fold fs'.
  step_with ltac:(reflexivity).
  step_with ltac:(eapply run_fsync_dir; by apply put_lookup).
  step_with ltac:(reflexivity).
  rewrite bind_modify. apply Hc.
Qed.

Lemma run_create_snapshot vd idx mt fs now src n k a e :
  wf fs idx -> validate_name n "snapshot" = Ok tt -> idx !! src = Some k -> idx !! n = None ->
  file_at fs (dir_of src k) src = Some e ->
  let o := dir_of src k in
  let e' := ficlone_ioctl e (Entry Regular 0 now ∅) in
  create_snapshot src n a (Engine vd idx mt (Host fs [] now)) =
  (Done (mkSnapshot n (e_size e') (vd +:+ "/" +:+ o +:+ "/" +:+ n) o (rfc3339_from_meta e')),
   Engine vd (<[n := KSnapshot o]> idx) (metrics_inc METRIC_SNAPSHOT_COUNT mt)
     (Host (put_file (PSub o n) e' fs) [] now)).
Proof.
  intros Hwf Hv Hsrc Hn He o e'. assert (Hne : src <> n) by congruence.
  apply file_at_Some in He as Hd. destruct Hd as (d & Hd & Hds). fold o in He, Hd.
  destruct (wf_file _ _ Hwf _ _ _ He) as (Hty & _).
  assert (Hdn : d !! n = None).
  { rewrite <- (wf_fresh_file fs idx o n Hwf Hn). unfold file_at. by rewrite Hd. }
  set (fs1 := put_file (PSub o n) (Entry Regular 0 now ∅) fs).
  set (fs2 := put_file (PSub o n) e' fs).
  assert (Hclone : ficlone (PSub o src) (PSub o n) (Host fs [] now) = (Done tt, Host fs2 [] now)).
  { unfold ficlone. erewrite bind_done by (by eapply run_create_new). fold fs1.
    rewrite (bind_done _ _ _ (Ok tt) (Host fs2 [] now)); [done|]. apply catch_done.
    erewrite run_ficlone; [| |done|by eapply file_at_put_eq].
    - fold e'. unfold fs1. by erewrite put_put by done.
    - unfold fs1. rewrite file_at_put; [done|congruence|congruence]. }
  unfold create_snapshot. rewrite Hv. unfold of_result. rewrite bind_ret, bind_get. simpl.
  assert (snapshot_source idx src = Some (PSub o src, o)) as ->.
  { unfold snapshot_source. rewrite Hsrc. by destruct k. }
  rewrite Hn, bind_modify. simpl.
  match goal with |- _ = (Done ?snap, ?st) => rewrite (bind_done _ _ _ (Ok snap) st) end; [done|].
  apply catch_done. unfold create_snapshot_body.
  step_with ltac:(by eapply run_open).
  step_with ltac:(exact Hclone).
  step_with ltac:(eapply run_fsync_dir; by apply put_lookup).
  rewrite bind_modify. simpl.
  apply run_project_snapshot; [by rewrite lookup_insert_eq|by eapply file_at_put_eq].
Qed.

Lemma has_snapshots_of_spec n idx :
  has_snapshots_of n idx = true <-> exists m, idx !! m = Some (KSnapshot n).
Proof.
  unfold has_snapshots_of. rewrite existsb_exists. split.
  - intros ([m k] & Hin & Hk). apply list_elem_of_In, elem_of_map_to_list in Hin.
    apply bool_decide_eq_true in Hk. simpl in Hk. subst. eauto.
  - intros [m Hm]. exists (m, KSnapshot n). rewrite <- list_elem_of_In, elem_of_map_to_list.
    by rewrite bool_decide_eq_true_2.
Qed.

Lemma wf_dirs fs idx v t : wf fs idx -> fs !! v = Some t -> exists d, t = TDir d.
Proof. intros Hwf Hv. by destruct (wf_dir _ _ Hwf v t Hv). Qed.

(** A directory is empty once its last registered name is gone. *)
Lemma del_last fs idx v n :
  wf fs idx -> is_Some (file_at fs v n) ->
  (forall m, m <> n -> idx !! m <> Some (kind_in v m)) ->
  del_file (PSub v n) fs !! v = Some (TDir ∅).
Proof.
  intros Hwf [e He] Hlast. apply file_at_Some in He as (d & Hd & _).
  unfold del_file. rewrite Hd, lookup_insert_eq. do 2 f_equal. apply map_empty. intros m.
  rewrite lookup_delete. case_decide as Hm; [done|].
  destruct (d !! m) as [e'|] eqn:Hdm; [|done].
  destruct (Hlast m); [done|]. apply (wf_file _ _ Hwf v m e'). unfold file_at. by rewrite Hd.
Qed.

Lemma run_delete_volume vd idx mt fs now n :
  wf fs idx -> idx !! n = Some KVolume ->
  exists fs', removed n n fs fs' /\
  delete_volume n (Engine vd idx mt (Host fs [] now)) =
  (Done tt, Engine vd (delete n idx) (metrics_dec METRIC_VOLUME_COUNT mt) (Host fs' [] now)).
Proof.
  intros Hwf Hn. destruct (wf_index _ _ Hwf n _ Hn) as [[e He] _]. simpl in He.
  destruct (wf_file _ _ Hwf _ _ _ He) as (Hty & _).
  assert (Hrm := removed_del n n fs (fun v t => wf_dirs fs idx v t Hwf)).
  unfold delete_volume. rewrite bind_get. simpl. rewrite Hn. setoid_rewrite bind_done.
  2: { apply absent_ok_done. by eapply run_remove_file. }
  destruct (has_snapshots_of n idx) eqn:Hsnap.
  - eexists. split; [exact Hrm|]. rewrite bind_ret. by step_with ltac:(reflexivity).
  - assert (Hemp : del_file (PSub n n) fs !! n = Some (TDir ∅)).
    { eapply del_last; [done|by eexists|]. intros m Hm Hk. unfold kind_in in Hk.
      rewrite decide_False in Hk by done.
      assert (has_snapshots_of n idx = true) by (apply has_snapshots_of_spec; eauto). congruence. }
    eexists. split; [by eapply removed_rmdir|].
    step_with ltac:(by apply run_remove_dir). by step_with ltac:(reflexivity).
Qed.

Lemma run_delete_snapshot vd idx mt fs now n o :
  wf fs idx -> idx !! n = Some (KSnapshot o) ->
  exists fs', removed o n fs fs' /\
  delete_snapshot n (Engine vd idx mt (Host fs [] now)) =
  (Done tt, Engine vd (delete n idx) (metrics_dec METRIC_SNAPSHOT_COUNT mt) (Host fs' [] now)).
Proof.
  intros Hwf Hn. destruct (wf_index _ _ Hwf n _ Hn) as [[e He] Hkind]. simpl in He, Hkind.
  destruct (wf_file _ _ Hwf _ _ _ He) as (Hty & _).
  apply file_at_Some in He as Hd. destruct Hd as (d & Hd & _).
  assert (Hrm := removed_del o n fs (fun v t => wf_dirs fs idx v t Hwf)).
  unfold delete_snapshot. rewrite bind_get. simpl. rewrite Hn. setoid_rewrite bind_done.
  2: { apply absent_ok_done. by eapply run_remove_file. }
  setoid_rewrite bind_done.
  2: { eapply ignore_done, io_err_done, run_fsync_dir. unfold del_file.
       by rewrite Hd, lookup_insert_eq. }
  setoid_rewrite bind_modify. setoid_rewrite bind_modify. setoid_rewrite bind_get. simpl.
  destruct (negb _ && negb _) eqn:Hreap.
  - apply andb_true_iff in Hreap as [Halive Hsib].
    rewrite negb_true_iff in Halive, Hsib. apply bool_decide_eq_false in Halive.
    assert (Hemp : del_file (PSub o n) fs !! o = Some (TDir ∅)).
    { eapply del_last; [done|by eexists|]. intros m Hm Hk. unfold kind_in in Hk.
      case_decide as Ho; subst.
      - apply Halive. rewrite lookup_delete_ne by congruence. by eexists.
      - assert (has_snapshots_of o (delete n idx) = true); [|congruence].
        apply has_snapshots_of_spec. exists m. by rewrite lookup_delete_ne by congruence. }
    eexists. split; [by eapply removed_rmdir|].
    step_with ltac:(by apply run_remove_dir). done.
  - eexists. by split; [exact Hrm|].
Qed.

(** ** Refinement *)
Definition inv (s : engine) : Prop :=
  wf (h_fs (disk s)) (name_index s) /\ h_faults (disk s) = [].
Definition abs_of (s : engine) : store := abs (h_fs (disk s)) (name_index s).

(** The outcome of a run agrees with the outcome of the specification; a
    refused operation changes nothing at all. *)
Definition agrees (s : engine) (r : outcome CubecowError unit * engine)
    (q : result error_class store) : Prop :=
  match q with
  | Ok a => r.1 = Done tt /\ abs_of r.2 = a /\ inv r.2
  | Err c => r.2 = s /\ exists e, r.1 = Fail e /\ class_of e = Some c
  end.

Lemma validate_name_cases n kind :
  validate_name n kind = Ok tt \/ exists msg, validate_name n kind = Err (InvalidArg msg).
Proof. unfold validate_name. repeat case_match; eauto. Qed.

Lemma validate_name_plain n kind :
  validate_name n kind = Ok tt -> utf8_valid n = true -> plain_name n.
Proof. unfold validate_name, plain_name. intros. repeat case_match; simplify_eq; auto. Qed.

Lemma void_done {A} (m : Eng A) s a s' : m s = (Done a, s') -> void m s = (Done tt, s').
Proof. intros Hm. unfold void. by rewrite (bind_done _ _ _ a s'). Qed.
Lemma void_fail {A} (m : Eng A) s e s' : m s = (Fail e, s') -> void m s = (Fail e, s').
Proof. intros Hm. unfold void. by apply bind_fail. Qed.

Lemma abs_kind s n ob :
  inv s -> abs_of s !! n = Some ob -> name_index s !! n = Some (o_kind ob).
Proof. intros _ Ha. by apply abs_lookup_Some in Ha as [? _]. Qed.
Lemma abs_absent s n : inv s -> abs_of s !! n = None -> name_index s !! n = None.
Proof. intros [Hwf _] Ha. by apply (abs_lookup_None _ _ _ Hwf). Qed.

Ltac refuse := split; [done|eexists; done].

Lemma refine_create_volume n sz s :
  inv s -> op_ok (CreateVolume n sz) (abs_of s) ->
  agrees s (exec (CreateVolume n sz) s) (spec (CreateVolume n sz) (abs_of s)).
Proof.
  intros Hinv [Hutf _]. simpl in *.
  destruct (validate_name_cases n "volume") as [Hv|[msg Hv]]; rewrite Hv; simpl.
  2: { unfold void, create_volume, bind. rewrite Hv. refuse. }
  destruct (abs_of s !! n) as [ob|] eqn:Ha.
  { apply abs_kind in Ha as Hk; [|done]. unfold void, create_volume, bind, get, of_result.
    rewrite Hv. simpl. rewrite Hk. refuse. }
  apply abs_absent in Ha; [|done]. destruct s as [vd idx mt [fs fl now]], Hinv as [Hwf Hfl].
  simpl in *. subst fl.
  destruct (run_create_volume vd idx mt fs now n sz) as (vol & Hrun & _); [done..|].
  rewrite (void_done _ _ _ _ Hrun). unfold agrees. simpl. split; [done|].
  assert (kind_in n n = KVolume) as Hkind by (unfold kind_in; by rewrite decide_True).
  assert (plain_name n) by by eapply validate_name_plain.
  pose proof (abs_add fs idx n n (Entry Regular sz now ∅) Hwf) as Habs.
  pose proof (wf_add fs idx n n (Entry Regular sz now ∅) Hwf) as Hwf'.
  rewrite Hkind in Habs, Hwf'. split; [exact Habs|]. split; [|done]. by apply Hwf'.
Qed.

Lemma refine_delete_volume n s :
  inv s -> op_ok (DeleteVolume n) (abs_of s) ->
  agrees s (exec (DeleteVolume n) s) (spec (DeleteVolume n) (abs_of s)).
Proof.
  intros Hinv _. simpl. destruct (abs_of s !! n) as [[[|o] sz data]|] eqn:Ha.
  - apply abs_kind in Ha; [|done]. destruct s as [vd idx mt [fs fl now]], Hinv as [Hwf Hfl].
    simpl in *. subst fl.
    destruct (run_delete_volume vd idx mt fs now n) as (fs' & Hrm & Hrun); [done..|].
    rewrite Hrun. split_and!; [done|by eapply abs_del|].
    split; [|done]. simpl. by eapply (wf_del _ _ _ _ KVolume).
  - apply abs_kind in Ha; [|done]. unfold delete_volume. rewrite bind_get, Ha. refuse.
  - apply abs_absent in Ha; [|done]. unfold delete_volume. rewrite bind_get, Ha. refuse.
Qed.

Lemma refine_delete_snapshot n s :
  inv s -> op_ok (DeleteSnapshot n) (abs_of s) ->
  agrees s (exec (DeleteSnapshot n) s) (spec (DeleteSnapshot n) (abs_of s)).
Proof.
  intros Hinv _. simpl. destruct (abs_of s !! n) as [[[|o] sz data]|] eqn:Ha.
  - apply abs_kind in Ha; [|done]. unfold delete_snapshot. rewrite bind_get, Ha. refuse.
  - apply abs_kind in Ha; [|done]. destruct s as [vd idx mt [fs fl now]], Hinv as [Hwf Hfl].
    simpl in *. subst fl.
    destruct (run_delete_snapshot vd idx mt fs now n o) as (fs' & Hrm & Hrun); [done..|].
    rewrite Hrun. split_and!; [done|by eapply abs_del|].
    split; [|done]. simpl. by eapply (wf_del _ _ _ _ (KSnapshot o)).
  - apply abs_absent in Ha; [|done]. unfold delete_snapshot. rewrite bind_get, Ha. refuse.
Qed.

Lemma refine_resize_volume n sz s :
  inv s -> op_ok (ResizeVolume n sz) (abs_of s) ->
  agrees s (exec (ResizeVolume n sz) s) (spec (ResizeVolume n sz) (abs_of s)).
Proof.
  intros Hinv _. simpl. destruct (abs_of s !! n) as [[[|o] old data]|] eqn:Ha.
  - pose proof Ha as Habs. apply abs_lookup_Some in Ha as (Hk & e & He & Hob).
    destruct s as [vd idx mt [fs fl now]], Hinv as [Hwf Hfl]. simpl in *. subst fl.
    unfold object_of in Hob. simplify_eq/=.
    destruct (wf_file _ _ Hwf _ _ _ He) as (Hty & _ & _ & Hsz).
    assert (Hrun : resize_volume n sz (Engine vd idx mt (Host fs [] now)) =
      if decide (sz < e_size e)%Z then
        (Fail (InvalidArg ("shrinking is not supported (current=" +:+ pretty (e_size e)
                         +:+ ", requested=" +:+ pretty sz +:+ ")")),
         Engine vd idx mt (Host fs [] now))
      else if decide (sz = e_size e) then
        (Done (e_size e, e_size e), Engine vd idx mt (Host fs [] now))
      else (Done (e_size e, sz),
            Engine vd idx mt (Host (put_file (PSub n n) (truncate sz now e) fs) [] now))).
    { unfold resize_volume. rewrite bind_get. simpl. rewrite Hk.
      step_with ltac:(by eapply run_metadata).
      case_decide; [done|]. case_decide; [done|].
      step_with ltac:(by eapply run_open). step_with ltac:(by eapply run_set_len).
      by step_with ltac:(reflexivity). }
    case_decide as Hlt; [rewrite (void_fail _ _ _ _ Hrun); refuse|].
    case_decide as Heq; rewrite (void_done _ _ _ _ Hrun); split_and!; [done| |by split|done| |].
    + subst. symmetry. by apply insert_id.
    + by eapply (abs_update fs idx n KVolume).
    + split; [|done]. by eapply wf_update.
  - apply abs_kind in Ha; [|done]. unfold void, bind, resize_volume, get, bind. rewrite Ha. refuse.
  - apply abs_absent in Ha; [|done]. unfold void, bind, resize_volume, get, bind. rewrite Ha. refuse.
Qed.

Lemma refine_create_snapshot src n a s :
  inv s -> op_ok (CreateSnapshot src n a) (abs_of s) ->
  agrees s (exec (CreateSnapshot src n a) s) (spec (CreateSnapshot src n a) (abs_of s)).
Proof.
  intros Hinv [Hutf Hop]. simpl in *.
  destruct (validate_name_cases n "snapshot") as [Hv|[msg Hv]]; rewrite Hv; simpl.
  2: { unfold void, create_snapshot, bind. rewrite Hv. refuse. }
  destruct (abs_of s !! src) as [[k sz data]|] eqn:Hsrc.
  2: { apply abs_absent in Hsrc; [|done].
       unfold void, create_snapshot, bind, get, of_result, snapshot_source.
       rewrite Hv. simpl. rewrite Hsrc. refuse. }
  destruct Hop as [Hsz Hne].
  pose proof Hsrc as (Hk & e & He & Hob)%abs_lookup_Some. simpl in *.
  destruct (abs_of s !! n) as [ob|] eqn:Hn.
  { apply abs_kind in Hn as Hkn; [|done].
    unfold void, create_snapshot, bind, get, of_result, snapshot_source.
    rewrite Hv. simpl. rewrite Hk. destruct k; simpl; rewrite Hkn; refuse. }
  apply abs_absent in Hn; [|done]. destruct s as [vd idx mt [fs fl now]], Hinv as [Hwf Hfl].
  simpl in *. subst fl. unfold object_of in Hob. simplify_eq/=.
  rewrite (void_done _ _ _ _ (run_create_snapshot vd idx mt fs now src n k a e Hwf Hv Hk Hn He)).
  set (o := dir_of src k) in *. set (e' := ficlone_ioctl e _).
  assert (Hdir : fs = mkdir o fs).
  { unfold mkdir. apply file_at_Some in He as (d & Hd & _). by rewrite Hd. }
  assert (kind_in o n = KSnapshot o) as Hkind by (unfold kind_in; by rewrite decide_False).
  assert (plain_name n) by by eapply validate_name_plain.
  assert (plain_name o).
  { apply file_at_Some in He as (d & Hd & _). by destruct (wf_dir _ _ Hwf _ _ Hd). }
  pose proof (abs_add fs idx o n e' Hwf) as Habs. pose proof (wf_add fs idx o n e' Hwf) as Hwf'.
  rewrite Hkind, <- Hdir in Habs, Hwf'. split; [done|]. split.
  - etrans; [exact Habs|]. unfold object_of.
    do 2 f_equal; subst e'; [apply ficlone_size|apply ficlone_data].
  - split; [|done]. apply Hwf'; try done; subst e'; [by rewrite ficlone_type|by rewrite ficlone_size].
Qed.

Lemma exec_refines o s :
  inv s -> op_ok o (abs_of s) -> agrees s (exec o s) (spec o (abs_of s)).
Proof.
  destruct o; [apply refine_create_volume|apply refine_delete_volume|apply refine_resize_volume
              |apply refine_create_snapshot|apply refine_delete_snapshot].
Qed.

(** Sequences of operations, their outcomes, and the same for the store. *)
Fixpoint exec_all (ops : list op) (s : engine) : list (outcome CubecowError unit) * engine :=
  match ops with
  | [] => ([], s)
  | o :: rest => let '(r, s1) := exec o s in let '(rs, s2) := exec_all rest s1 in (r :: rs, s2)
  end.
End runs.

Fixpoint spec_all (ops : list op) (a : store) : list (option error_class) * store :=
  match ops with
  | [] => ([], a)
  | o :: rest =>
    let '(r, a1) := match spec o a with Ok a1 => (None, a1) | Err c => (Some c, a) end in
    let '(rs, a2) := spec_all rest a1 in (r :: rs, a2)
  end.

Fixpoint ops_ok (ops : list op) (a : store) : Prop :=
  match ops with
  | [] => True
  | o :: rest => op_ok o a /\ ops_ok rest (match spec o a with Ok a1 => a1 | Err _ => a end)
  end.

#[export] Instance ops_ok_dec ops a : Decision (ops_ok ops a).
Proof. revert a. induction ops; simpl; intros; apply _. Defined.

(** The error class an outcome shows to the caller. *)
Definition shown (r : outcome CubecowError unit) : option (option error_class) :=
  match r with
  | Done _ => Some None
  | Fail e => Some <$> class_of e
  | Crashed => None
  end.

Lemma exec_all_refines {HE : HostEnv} {HL : HostEnvLaws HE} ops s :
  inv s -> ops_ok ops (abs_of s) ->
  shown <$> (exec_all ops s).1 = Some <$> (spec_all ops (abs_of s)).1 /\
  abs_of (exec_all ops s).2 = (spec_all ops (abs_of s)).2 /\ inv (exec_all ops s).2.
Proof.
  revert s. induction ops as [|o ops IH]; intros s Hinv Hok; [done|]. simpl in *.
  destruct Hok as [Ho Hok]. pose proof (exec_refines o s Hinv Ho) as Hag.
  destruct (exec o s) as [r s1], (spec o (abs_of s)) as [a1|c]; simpl in *.
  - destruct Hag as (-> & <- & Hinv1). specialize (IH s1 Hinv1 Hok).
    destruct (exec_all ops s1), (spec_all ops (abs_of s1)); simpl in *.
    destruct IH as (IH & -> & ?). split_and!; [by f_equal|done|done].
  - destruct Hag as (-> & e & -> & Hc). specialize (IH s Hinv Hok).
    destruct (exec_all ops s), (spec_all ops (abs_of s)); simpl in *.
    destruct IH as (IH & -> & ?). rewrite Hc. split_and!; [by f_equal|done|done].
Qed.

(** The engine of an empty [volumes/]. *)
Definition fresh_engine (vdir : string) (now : Z) : engine :=
  engine_of_index vdir ∅ (Host ∅ [] now).

Lemma fresh_inv vdir now : inv (fresh_engine vdir now).
Proof. split; [|done]. by split. Qed.

(** C1: The engine implements the flat store.  On a host whose calls do not
    fail, for every sequence of operations on a fresh engine, each call succeeds
    or is refused with the error class the store gives, the objects visible at
    the end (kind, origin volume, size and bytes of every name) are those of the
    store, and the index agrees with the directory layout.  The store copies a
    snapshot from its source and never relates the two again, so a snapshot is
    unaffected by later operations on its source, its siblings or its origin
    volume.  [ops_ok] leaves out what the engine does otherwise: names that are
    not UTF-8, snapshots of a source of size zero, and snapshots named like the
    volume their source belongs to, which may have been deleted. *)
Theorem engine_refines_store {HE : HostEnv} {HL : HostEnvLaws HE} (ops : list op) (vdir : string) (now : Z) :
  ops_ok ops ∅ ->
  let run := exec_all ops (fresh_engine vdir now) in
  shown <$> run.1 = Some <$> (spec_all ops ∅).1 /\
  abs_of run.2 = (spec_all ops ∅).2 /\ inv run.2.
Proof. intros Hok. by apply (exec_all_refines ops (fresh_engine vdir now)); [apply fresh_inv|]. Qed.

(** A volume, a snapshot of it, a snapshot of the snapshot, and the deletion
    of the volume under both. *)
Definition refine_example : list op :=
  [CreateVolume "vol" 8192; CreateSnapshot "vol" "s1" true; ResizeVolume "vol" 16384;
   CreateSnapshot "s1" "s2" false; DeleteVolume "vol"; DeleteSnapshot "vol"; DeleteSnapshot "s1"].

Lemma engine_refines_store_witness :
  let run := exec_all (HE := plain_env) refine_example (fresh_engine "/r/volumes" 5) in
  shown <$> run.1 =
    [Some None; Some None; Some None; Some None; Some None; Some (Some CNotFound); Some None] /\
  abs_of run.2 = {["s2" := Obj (KSnapshot "vol") 8192 ∅]} /\ inv run.2.
Proof.
  apply (engine_refines_store (HL := plain_env_laws) refine_example "/r/volumes" 5).
  apply (bool_decide_unpack _). vm_compute. exact I.
Defined.
