(* ===== verification/ReflinkRecovery.v ===== *)
(** * Restart after a crash

    The startup scan of the reflink engine rebuilds the index from the
    directory layout.  This file shows what it finds in any tree the engine
    can leave behind, and from that, that an operation interrupted by a crash
    or by host errors is seen after a restart as either not done or done. *)
From stdpp Require Import base gmap strings list fin_maps sorting pretty.
From Stdlib Require Import ZArith Lia Ascii.
From S2P Require Import Prelude HostFs Reflink ReflinkFaults ReflinkRefine.

(** ** What the scan keeps

    A file of directory [v] counts when it is the main file or not empty. *)
Definition live (v n : string) (e : entry) : Prop := n = v \/ e_size e <> 0%Z.

#[export] Instance live_dec v n e : Decision (live v n e).
Proof. unfold live. apply _. Defined.

Definition live_dir (v : string) (d : gmap string entry) : gmap string entry :=
  filter (fun ne => live v ne.1 ne.2) d.
Definition live_index (v : string) (d : gmap string entry) : gmap string NameKind :=
  map_imap (fun n _ => Some (kind_in v n)) (live_dir v d).

(** A tree of directories with plain names that hold regular files with plain
    names, in which no two directories hold a live file of the same name. *)
Record scannable (fs : gmap string top) : Prop := {
  sc_dir v t : fs !! v = Some t -> plain_name v /\ exists d, t = TDir d;
  sc_file v n e : file_at fs v n = Some e -> e_type e = Regular /\ plain_name n;
  sc_unique v v' n e e' : file_at fs v n = Some e -> file_at fs v' n = Some e' ->
    live v n e -> live v' n e' -> v = v';
}.

Lemma live_dir_lookup v d n e :
  live_dir v d !! n = Some e <-> d !! n = Some e /\ live v n e.
Proof. unfold live_dir. by rewrite map_lookup_filter_Some. Qed.

Lemma live_index_lookup v d n k :
  live_index v d !! n = Some k <-> k = kind_in v n /\ exists e, d !! n = Some e /\ live v n e.
Proof.
  unfold live_index. rewrite map_lookup_imap, bind_Some. split.
  - intros (e & He & [= <-]). apply live_dir_lookup in He. eauto.
  - intros (-> & e & He). exists e. by rewrite live_dir_lookup.
Qed.

Section scan.
Context {HE : HostEnv} {HL : HostEnvLaws HE}.
Implicit Types (fs : gmap string top) (idx : gmap string NameKind) (v n : string) (now : Z).

Lemma names_of_perm {A} (m : gmap string A) : names_of m ≡ₚ (map_to_list m).*1.
Proof. apply readdir_order_perm. Qed.

Lemma elem_of_names_of {A} (m : gmap string A) n : n ∈ names_of m <-> is_Some (m !! n).
Proof.
  rewrite names_of_perm, list_elem_of_fmap. split.
  - intros ([n' a] & -> & Ha%elem_of_map_to_list). eauto.
  - intros [a Ha]. exists (n, a). by rewrite elem_of_map_to_list.
Qed.

Lemma NoDup_names_of {A} (m : gmap string A) : NoDup (names_of m).
Proof. rewrite names_of_perm. apply NoDup_fst_map_to_list. Qed.

Lemma into_string_plain n : plain_name n -> into_string n = Some n.
Proof. intros [_ Hn]. unfold into_string. by rewrite Hn. Qed.

Lemma run_next {B} (f : unit -> IO B) fs now :
  bind sys_next_entry f (Host fs [] now) = f tt (Host fs [] now).
Proof. done. Qed.

Lemma run_file_type_sub fs now v n e :
  file_at fs v n = Some e ->
  sys_file_type (PSub v n) (Host fs [] now) = (Done (e_type e), Host fs [] now).
Proof. intros He. unfold sys_file_type, sys, run_call. simpl. by rewrite He. Qed.

Lemma run_file_type_top fs now v d :
  fs !! v = Some (TDir d) ->
  sys_file_type (PTop v) (Host fs [] now) = (Done Directory, Host fs [] now).
Proof. intros Hv. unfold sys_file_type, sys, run_call. simpl. by rewrite Hv. Qed.

(** *** The inner loop

    [subs] is what remains to be enumerated of directory [vol]. *)
Lemma scan_snapshots_run vol subs fs d index now :
  fs !! vol = Some (TDir d) -> NoDup subs ->
  (forall n, n ∈ subs -> exists e, d !! n = Some e /\ e_type e = Regular /\ plain_name n) ->
  (forall n e, n ∈ subs -> n <> vol -> d !! n = Some e -> e_size e <> 0%Z -> index !! n = None) ->
  exists d' index',
    scan_snapshots vol subs index (Host fs [] now) =
      (Done index', Host (<[vol := TDir d']> fs) [] now) /\
    (forall n e, d' !! n = Some e <-> d !! n = Some e /\ (n ∈ subs -> live vol n e)) /\
    (forall n k, index' !! n = Some k <->
       index !! n = Some k \/
       (n ∈ subs /\ n <> vol /\ k = KSnapshot vol /\
        exists e, d !! n = Some e /\ e_size e <> 0%Z)).
Proof.
  revert fs d index. induction subs as [|x subs IH]; intros fs d index Hd Hnd Hsub Hfresh.
  { exists d, index. rewrite insert_id by done. split_and!; [done| |]; intros; set_solver. }
  apply NoDup_cons in Hnd as [Hx Hnd].
  destruct (Hsub x) as (e & He & Hty & Hpl); [set_solver|].
  assert (Hfx : file_at fs vol x = Some e) by (unfold file_at; by rewrite Hd).
  assert (Hsub' : forall n, n ∈ subs -> exists e, d !! n = Some e /\ e_type e = Regular /\ plain_name n)
    by (intros; apply Hsub; set_solver).
  assert (Hfresh' : forall n e, n ∈ subs -> n <> vol -> d !! n = Some e -> e_size e <> 0%Z ->
                      index !! n = None) by (intros; eapply Hfresh; set_solver).
  simpl. rewrite run_next. erewrite bind_done by (by apply run_file_type_sub).
  rewrite decide_False by (intros Hc; by apply Hc). rewrite (into_string_plain x Hpl).
  destruct (decide (x = vol)) as [->|Hxv].
  { destruct (IH fs d index) as (d' & index' & Hrun & Hd' & Hi'); [done..|].
    exists d', index'. split; [exact Hrun|]. split.
    - intros n e'. rewrite Hd', elem_of_cons. unfold live. naive_solver.
    - intros n k. rewrite Hi', elem_of_cons. naive_solver. }
  destruct Hpl as [Hdot Hutf]. rewrite Hdot.
  erewrite bind_done by (by apply run_metadata).
  destruct (decide (e_size e = 0)%Z) as [Hz|Hnz].
  - erewrite bind_done by (eapply ignore_done; by eapply run_remove_file).
    assert (Hd1 : del_file (PSub vol x) fs !! vol = Some (TDir (delete x d))).
    { unfold del_file. by rewrite Hd, lookup_insert_eq. }
    destruct (IH (del_file (PSub vol x) fs) (delete x d) index)
      as (d' & index' & Hrun & Hd' & Hi'); [done|done| | |].
    { intros n Hn. destruct (Hsub' n Hn) as (e' & ? & ?). exists e'.
      rewrite lookup_delete_ne; [done|]. intros ->. done. }
    { intros n e' Hn Hne Hl. apply lookup_delete_Some in Hl as [_ Hl]. eauto. }
    exists d', index'. split.
    { rewrite Hrun. do 2 f_equal. unfold del_file. rewrite Hd. by rewrite insert_insert_eq. }
    split.
    + intros n e'. rewrite Hd', lookup_delete_Some, elem_of_cons. unfold live. naive_solver.
    + intros n k. rewrite Hi', elem_of_cons. setoid_rewrite lookup_delete_Some. naive_solver.
  - rewrite decide_False.
    2: { rewrite (Hfresh x e); [by intros [? ?]|set_solver|done..]. }
    destruct (IH fs d (<[x := KSnapshot vol]> index))
      as (d' & index' & Hrun & Hd' & Hi'); [done..| |].
    { intros n e' Hn Hne He' Hs. rewrite lookup_insert_ne; [eauto|]. intros ->. done. }
    exists d', index'. split; [done|]. split.
    + intros n e'. rewrite Hd', elem_of_cons. unfold live. naive_solver.
    + intros n k. rewrite Hi', elem_of_cons. rewrite lookup_insert_Some.
      assert (index !! x = None) by (eapply (Hfresh x e); [set_solver|done..]).
      naive_solver.
Qed.

Lemma run_count_non_dotfiles names c fs now :
  Forall plain_name names ->
  count_non_dotfiles names c (Host fs [] now) =
  (Done (c + Z.of_nat (length names))%Z, Host fs [] now).
Proof.
  revert c. induction names as [|x names IH]; intros c Hall; simpl.
  { rewrite Z.add_0_r. done. }
  apply Forall_cons in Hall as [Hx Hall]. rewrite run_next, (into_string_plain x Hx).
  destruct Hx as [-> _]. rewrite IH by done. do 2 f_equal. lia.
Qed.

Lemma run_main_present fs now v d :
  fs !! v = Some (TDir d) ->
  main_present v (Host fs [] now) = (Done (bool_decide (is_Some (d !! v))), Host fs [] now).
Proof.
  intros Hv. unfold main_present, vol_main_file, bind, catch, sys_metadata, sys, run_call.
  simpl. unfold resolve_dir. rewrite Hv. by destruct (d !! v).
Qed.

(** The index of one directory, as the scan assembles it. *)
Lemma scan_index_spec v d index n k :
  live_index v d ##ₘ index ->
  let index1 := if decide (is_Some (d !! v)) then <[v := KVolume]> index else index in
  (index1 !! n = Some k \/
   (is_Some (d !! n) /\ n <> v /\ k = KSnapshot v /\
    exists e, d !! n = Some e /\ e_size e <> 0%Z)) <->
  (live_index v d ∪ index) !! n = Some k.
Proof.
  intros Hdisj index1. rewrite lookup_union_Some by done. rewrite live_index_lookup.
  unfold index1, live, kind_in. destruct (decide (n = v)) as [->|Hn].
  - destruct (decide (is_Some (d !! v))) as [[e He]|Hno].
    + rewrite lookup_insert_eq. assert (index !! v = None) as Hi.
      { eapply map_disjoint_Some_l; [exact Hdisj|]. apply live_index_lookup. unfold live. eauto. }
      rewrite Hi. split; [intros [[= <-]|?]; [left; eauto|tauto]|intros [[-> _]|?]; [by left|done]].
    + split; [tauto|]. intros [(_ & e & He & _)|?]; [by destruct Hno|tauto].
  - assert ((if decide (is_Some (d !! v)) then <[v := KVolume]> index else index) !! n = index !! n)
      as -> by (case_decide; [by rewrite lookup_insert_ne|done]).
    split.
    + intros [?|(_ & _ & -> & e & He & Hs)]; [by right|left]. eauto.
    + intros [(-> & e & He & [?|Hs])|?]; [done| |by left]. right. split_and!; eauto.
Qed.

(** *** One directory *)
Lemma scan_volume_dir_run v fs d index now :
  fs !! v = Some (TDir d) ->
  (forall n e, d !! n = Some e -> e_type e = Regular /\ plain_name n) ->
  live_index v d ##ₘ index ->
  exists fs',
    scan_volume_dir v index (Host fs [] now) = (Done (live_index v d ∪ index), Host fs' [] now) /\
    (fs' = <[v := TDir (live_dir v d)]> fs \/ (d = ∅ /\ fs' = delete v fs)).
Proof.
  intros Hv Hreg Hdisj.
  set (index1 := if decide (is_Some (d !! v)) then <[v := KVolume]> index else index).
  assert (Henum : exists fs',
    (let* subs := sys_read_dir v in scan_snapshots v subs index1) (Host fs [] now) =
      (Done (live_index v d ∪ index), Host fs' [] now) /\ fs' = <[v := TDir (live_dir v d)]> fs).
  { erewrite bind_done by (by apply run_read_dir).
    destruct (scan_snapshots_run v (names_of d) fs d index1 now) as (d' & index' & Hrun & Hd' & Hi').
    - done.
    - apply NoDup_names_of.
    - intros n [e He]%elem_of_names_of. exists e. split; [done|]. by apply Hreg.
    - intros n e _ Hnv He Hs. assert (index !! n = None).
      { eapply map_disjoint_Some_l; [exact Hdisj|]. apply live_index_lookup. unfold live. eauto. }
      subst index1. case_decide; [|done]. by rewrite lookup_insert_ne by congruence.
    - eexists. split; [|reflexivity]. rewrite Hrun. f_equal; [f_equal|do 3 f_equal].
      + apply map_eq. intros n. apply option_eq. intros k.
        rewrite Hi', elem_of_names_of. by apply scan_index_spec.
      + apply map_eq. intros n. apply option_eq. intros e.
        rewrite Hd', live_dir_lookup, elem_of_names_of. split; intros [He Hl]; eauto. }
  unfold scan_volume_dir. erewrite bind_done by (by apply run_main_present).
  destruct (decide (is_Some (d !! v))) as [Hm|Hm]; subst index1.
  - rewrite bool_decide_eq_true_2 by done. destruct Henum as (fs' & Hrun & Hfs'). eauto.
  - rewrite bool_decide_eq_false_2 by done.
    unfold read_dir_count_non_dotfiles.
    erewrite bind_done.
    2: { erewrite bind_done by (by apply run_read_dir). apply run_count_non_dotfiles.
         apply Forall_forall. intros n [e He]%elem_of_names_of. by destruct (Hreg _ _ He). }
    case_decide as Hc.
    + assert (d = ∅) as ->.
      { destruct (names_of d) as [|x l] eqn:Hnames; simpl in Hc; [|lia].
        apply map_empty. intros n. apply eq_None_not_Some. intros Hn%elem_of_names_of.
        rewrite Hnames in Hn. by apply elem_of_nil in Hn. }
      exists (delete v fs). split; [|by right].
      erewrite bind_done by (eapply ignore_done; by apply run_remove_dir).
      unfold live_index, live_dir. by rewrite map_filter_empty, map_imap_empty, (left_id_L ∅ (∪)).
    + destruct Henum as (fs' & Hrun & Hfs'). eauto.
Qed.

(** *** The outer loop

    [names] is what remains to be enumerated of [volumes/]. *)
Definition dirs_ok (names : list string) (fs : gmap string top) (index : gmap string NameKind)
  : Prop :=
  forall v, v ∈ names -> plain_name v /\ exists d, fs !! v = Some (TDir d) /\
    (forall n e, d !! n = Some e -> e_type e = Regular /\ plain_name n) /\
    live_index v d ##ₘ index /\
    forall v' d', v' ∈ names -> v' <> v -> fs !! v' = Some (TDir d') ->
      live_index v d ##ₘ live_index v' d'.

Lemma dirs_ok_step x names fs fs' d index :
  x ∉ names -> dirs_ok (x :: names) fs index -> fs !! x = Some (TDir d) ->
  (forall v, v <> x -> fs' !! v = fs !! v) -> dirs_ok names fs' (live_index x d ∪ index).
Proof.
  intros Hx Hok Hd Hfs' v Hv. assert (v <> x) as Hvx by (intros ->; done).
  destruct (Hok v) as (Hpl & dv & Hdv & Hreg & Hdisj & Hpair); [set_solver|].
  split; [done|]. exists dv. rewrite Hfs' by done. split_and!; [done|done| |].
  - apply map_disjoint_union_r. split; [|done]. apply (Hpair x d); [set_solver|congruence|done].
  - intros v' d' Hv' Hne. assert (v' <> x) by (intros ->; done). rewrite Hfs' by done.
    apply Hpair; [set_solver|done].
Qed.

Lemma scan_dirs_run names fs index now :
  NoDup names -> dirs_ok names fs index ->
  exists fs' index',
    scan_dirs names index (Host fs [] now) = (Done index', Host fs' [] now) /\
    (forall n k, index' !! n = Some k <-> index !! n = Some k \/
       exists v d, v ∈ names /\ fs !! v = Some (TDir d) /\ live_index v d !! n = Some k) /\
    (forall v, v ∉ names -> fs' !! v = fs !! v) /\
    (forall v d, v ∈ names -> fs !! v = Some (TDir d) ->
       fs' !! v = Some (TDir (live_dir v d)) \/ (d = ∅ /\ fs' !! v = None)).
Proof.
  revert fs index. induction names as [|x names IH]; intros fs index Hnd Hok.
  { exists fs, index. split_and!; [done| |done|set_solver]. intros n k. split; [by left|].
    intros [?|(v & d & Hv & _)]; [done|]. by apply elem_of_nil in Hv. }
  apply NoDup_cons in Hnd as [Hx Hnd].
  destruct (Hok x) as (Hpl & d & Hd & Hreg & Hdisj & Hpair); [set_solver|].
  destruct (scan_volume_dir_run x fs d index now) as (fs1 & Hrun & Hfs1); [done..|].
  assert (Hother : forall v, v <> x -> fs1 !! v = fs !! v).
  { intros v Hv. destruct Hfs1 as [->|[_ ->]];
      [by rewrite lookup_insert_ne by congruence|by rewrite lookup_delete_ne by congruence]. }
  destruct (IH fs1 (live_index x d ∪ index) Hnd) as (fs' & index' & Hrun' & Hi' & Hout & Hin).
  { by eapply dirs_ok_step. }
  exists fs', index'. split_and!.
  - simpl. rewrite run_next. erewrite bind_done by (by eapply run_file_type_top).
    rewrite decide_False by (intros Hc; by apply Hc). rewrite (into_string_plain x Hpl).
    destruct Hpl as [-> _]. by erewrite bind_done.
  - intros n k. rewrite Hi', lookup_union_Some by done. split.
    + intros [[?|?]|(v & dv & Hv & Hdv & Hk)]; [right; exists x, d; set_solver|by left|].
      right. exists v, dv. assert (v <> x) by (intros ->; done).
      rewrite Hother in Hdv by done. set_solver.
    + intros [?|(v & dv & Hv & Hdv & Hk)]; [by left; right|].
      apply elem_of_cons in Hv as [->|Hv]; [left; left; congruence|].
      right. exists v, dv. rewrite Hother; [done|intros ->; done].
  - intros v Hv. rewrite Hout by set_solver. apply Hother. set_solver.
  - intros v dv Hv Hdv. apply elem_of_cons in Hv as [->|Hv].
    + simplify_eq. rewrite Hout by done. destruct Hfs1 as [->|[-> ->]];
        [left; by rewrite lookup_insert_eq|right; by rewrite lookup_delete_eq].
    + apply Hin; [done|]. rewrite Hother; [done|intros ->; done].
Qed.

(** *** The whole scan *)
Lemma scannable_dirs_ok fs : scannable fs -> dirs_ok (names_of fs) fs ∅.
Proof.
  intros Hsc v [t Ht]%elem_of_names_of. destruct (sc_dir _ Hsc v t Ht) as [Hpl [d ->]].
  split; [done|]. exists d.
  assert (Hfile : forall u du n, fs !! u = Some (TDir du) -> file_at fs u n = du !! n)
    by (intros u du n Hu; unfold file_at; by rewrite Hu).
  split_and!; [done| |apply map_disjoint_empty_r|].
  - intros n e He. apply (sc_file _ Hsc v). by rewrite (Hfile v d).
  - intros v' d' _ Hne Hd'. apply map_disjoint_spec. intros n k k'.
    rewrite !live_index_lookup. intros (_ & e & He & Hl) (_ & e' & He' & Hl'). apply Hne.
    symmetry. eapply (sc_unique _ Hsc v v' n e e'); [| |done|done];
      erewrite Hfile by done; done.
Qed.

Lemma scan_run fs now :
  scannable fs ->
  exists fs' idx,
    scan_and_rebuild_index (Host fs [] now) = (Done idx, Host fs' [] now) /\
    (forall n k, idx !! n = Some k <->
       exists v e, file_at fs v n = Some e /\ live v n e /\ k = kind_in v n) /\
    (forall v n e, file_at fs' v n = Some e <-> file_at fs v n = Some e /\ live v n e) /\
    (forall v t, fs' !! v = Some t -> exists d, t = TDir d /\ is_Some (fs !! v)).
Proof.
  intros Hsc.
  destruct (scan_dirs_run (names_of fs) fs ∅ now) as (fs' & idx & Hrun & Hi & Hout & Hin);
    [apply NoDup_names_of|by apply scannable_dirs_ok|].
  assert (Hdirs : forall v, (fs !! v = None /\ fs' !! v = None) \/
    exists d, fs !! v = Some (TDir d) /\
      (fs' !! v = Some (TDir (live_dir v d)) \/ (d = ∅ /\ fs' !! v = None))).
  { intros v. destruct (fs !! v) as [t|] eqn:Hv.
    - destruct (sc_dir _ Hsc v t Hv) as [_ [d ->]]. right. exists d. split; [done|].
      apply Hin; [|done]. apply elem_of_names_of. eauto.
    - left. rewrite Hout; [done|]. rewrite elem_of_names_of, Hv. by intros [? ?]. }
  exists fs', idx. split_and!.
  - unfold scan_and_rebuild_index.
    rewrite (bind_done _ _ _ (Ok (names_of fs)) (Host fs [] now)); [exact Hrun|]. done.
  - intros n k. rewrite Hi, lookup_empty. split.
    + intros [?|(v & d & _ & Hd & Hk)]; [done|]. apply live_index_lookup in Hk as (-> & e & He & Hl).
      exists v, e. split_and!; [|done|done]. unfold file_at. by rewrite Hd.
    + intros (v & e & He & Hl & ->). right. apply file_at_Some in He as (d & Hd & Hde).
      exists v, d. split_and!; [apply elem_of_names_of; eauto|done|].
      apply live_index_lookup. eauto.
  - intros v n e. unfold file_at. destruct (Hdirs v) as [[-> ->]|(d & -> & [->|[-> ->]])].
    + split; [done|by intros [? _]].
    + apply live_dir_lookup.
    + rewrite lookup_empty. split; [done|by intros [? _]].
  - intros v t Ht. destruct (Hdirs v) as [[_ Hv]|(d & Hd & [Hv|[_ Hv]])]; [congruence| |congruence].
    rewrite Hv in Ht. simplify_eq. eauto.
Qed.

(** The scan restores the layout invariant. *)
Lemma scan_wf fs now :
  scannable fs ->
  exists fs' idx,
    scan_and_rebuild_index (Host fs [] now) = (Done idx, Host fs' [] now) /\ wf fs' idx /\
    (forall n k, idx !! n = Some k <->
       exists v e, file_at fs v n = Some e /\ live v n e /\ k = kind_in v n) /\
    (forall v n e, file_at fs' v n = Some e <-> file_at fs v n = Some e /\ live v n e).
Proof.
  intros Hsc. destruct (scan_run fs now Hsc) as (fs' & idx & Hrun & Hi & Hf & Hd).
  exists fs', idx. split_and!; [done| |done|done]. split.
  - intros v t Ht. destruct (Hd v t Ht) as (d & -> & [t' Ht']).
    destruct (sc_dir _ Hsc _ _ Ht'). eauto.
  - intros v n e. rewrite Hf. intros [He Hl]. destruct (sc_file _ Hsc _ _ _ He).
    split_and!; [done|done|apply Hi; eauto|]. intros Hne. destruct Hl; [done|done].
  - intros n k Hk. apply Hi in Hk as (v & e & He & Hl & ->). rewrite dir_of_kind_in.
    split; [|done]. exists e. by apply Hf.
Qed.
End scan.
