(* ===== verification/ReflinkCrash.v ===== *)
(** * Crash recovery of the reflink engine

    An operation of the engine that is cut short, by a crash or by any
    combination of host errors, leaves a tree that differs from a clean one in
    at most the file of its own name.  This file shows what the startup scan
    makes of such a tree, and concludes that after a restart the operation is
    seen as not done or as done. *)
From stdpp Require Import base gmap strings list fin_maps sorting pretty.
From Stdlib Require Import ZArith Lia Ascii.
From S2P Require Import Prelude HostFs Reflink ReflinkFaults ReflinkRefine ReflinkRecovery.

Section crash.
Context {HE : HostEnv} {HL : HostEnvLaws HE}.
Implicit Types (fs : gmap string top) (idx : gmap string NameKind) (v n : string) (now : Z).

(** ** Scanning a tree that differs from a clean one in one file *)

(** [fs'] is [fs] up to the file [v/n], whose state there satisfies [P], and up
    to directories that hold nothing else. *)
Record touched (v n : string) (P : option entry -> Prop) (fs fs' : gmap string top) : Prop := {
  touched_other v' m : ~ (v' = v /\ m = n) -> file_at fs' v' m = file_at fs v' m;
  touched_here : P (file_at fs' v n);
  touched_dir v' t : fs' !! v' = Some t -> exists d, t = TDir d /\ (v' = v \/ is_Some (fs !! v'));
}.

(** The object a restart sees under [n]. *)
Definition seen (v n : string) (oe : option entry) (a : store) : store :=
  match oe with
  | Some e => if decide (live v n e) then <[n := object_of (kind_in v n) e]> (delete n a)
              else delete n a
  | None => delete n a
  end.

Lemma abs_kind_in fs idx v m e :
  wf fs idx -> file_at fs v m = Some e -> abs fs idx !! m = Some (object_of (kind_in v m) e).
Proof.
  intros Hwf He. destruct (wf_file _ _ Hwf _ _ _ He) as (_ & _ & Hk & _).
  rewrite abs_lookup, Hk. simpl. by rewrite dir_of_kind_in, He.
Qed.

Lemma abs_Some_file fs idx m ob :
  wf fs idx -> abs fs idx !! m = Some ob ->
  exists v e, file_at fs v m = Some e /\ ob = object_of (kind_in v m) e.
Proof.
  intros Hwf Ha. apply abs_lookup_Some in Ha as (Hk & e & He & Hob).
  exists (dir_of m (o_kind ob)), e. split; [done|].
  destruct (wf_index _ _ Hwf _ _ Hk) as [_ Hkind]. by rewrite <- Hkind.
Qed.

Lemma wf_live fs idx v m e : wf fs idx -> file_at fs v m = Some e -> live v m e.
Proof.
  intros Hwf He. destruct (wf_file _ _ Hwf _ _ _ He) as (_ & _ & _ & Hs).
  unfold live. destruct (decide (m = v)); [by left|right; auto].
Qed.

Section touched.
Context (fs fs' : gmap string top) (idx : gmap string NameKind) (v n : string)
  (P : option entry -> Prop).
Hypothesis Hwf : wf fs idx.
Hypothesis Hv : plain_name v.
Hypothesis Hn : plain_name n.
(** [n] is not the name of a file elsewhere *)
Hypothesis Helse : forall v' e, file_at fs v' n = Some e -> v' = v.
Hypothesis Hreg : forall e, P (Some e) -> e_type e = Regular.
Hypothesis Ht : touched v n P fs fs'.

Lemma touched_scannable : scannable fs'.
Proof.
  destruct Ht as [Ho Hh Hd].
  assert (Hcase : forall v' m e, file_at fs' v' m = Some e ->
            (v' = v /\ m = n) \/ (m <> n /\ file_at fs v' m = Some e)).
  { intros v' m e He. destruct (decide (v' = v /\ m = n)) as [|Hc]; [by left|right].
    rewrite Ho in He by done. split; [|done]. intros ->. apply Hc. split; [|done]. eauto. }
  split.
  - intros v' t Ht'. destruct (Hd _ _ Ht') as (d & -> & [->|[t' Hx]]); [eauto|].
    destruct (wf_dir _ _ Hwf _ _ Hx). eauto.
  - intros v' m e He. destruct (Hcase _ _ _ He) as [[-> ->]|[_ He']].
    + split; [|done]. apply Hreg. by rewrite <- He.
    + by destruct (wf_file _ _ Hwf _ _ _ He') as (? & ? & _).
  - intros v1 v2 m e1 e2 H1 H2 _ _.
    destruct (Hcase _ _ _ H1) as [[-> ->]|[? H1']], (Hcase _ _ _ H2) as [[-> ?]|[? H2']];
      try done.
    destruct (wf_file _ _ Hwf _ _ _ H1') as (_ & _ & Hk1 & _).
    destruct (wf_file _ _ Hwf _ _ _ H2') as (_ & _ & Hk2 & _).
    rewrite Hk1 in Hk2. simplify_eq.
    by rewrite <- (dir_of_kind_in v1 m), <- (dir_of_kind_in v2 m), Hk2.
Qed.

Lemma scan_touched now :
  exists fs2 idx2,
    scan_and_rebuild_index (Host fs' [] now) = (Done idx2, Host fs2 [] now) /\
    wf fs2 idx2 /\ abs fs2 idx2 = seen v n (file_at fs' v n) (abs fs idx).
Proof.
  destruct (scan_wf fs' now touched_scannable) as (fs2 & idx2 & Hrun & Hwf2 & _ & Hf).
  exists fs2, idx2. split_and!; [done|done|]. apply map_eq. intros m.
  destruct (decide (m = n)) as [->|Hm].
  - assert (Hnone : forall e, file_at fs' v n = Some e -> live v n e ->
              abs fs2 idx2 !! n = Some (object_of (kind_in v n) e)).
    { intros e He Hl. apply abs_kind_in; [done|]. by apply Hf. }
    assert (Hsome : forall ob, abs fs2 idx2 !! n = Some ob ->
              exists e, file_at fs' v n = Some e /\ live v n e).
    { intros ob (v' & e & He & _)%abs_Some_file; [|done]. apply Hf in He as [He Hl].
      destruct (decide (v' = v)) as [->|Hne]; [eauto|].
      rewrite (touched_other _ _ _ _ _ Ht) in He by (intros [? _]; done).
      apply Helse in He. done. }
    assert (Hno : forall a : store, (~ exists e, file_at fs' v n = Some e /\ live v n e) ->
              abs fs2 idx2 !! n = delete n a !! n).
    { intros a Hc. rewrite lookup_delete_eq. apply eq_None_not_Some. intros [ob Hob]. eauto. }
    unfold seen. destruct (file_at fs' v n) as [e|] eqn:He; [case_decide as Hl|].
    + rewrite lookup_insert_eq. auto.
    + apply Hno. intros (e' & [= <-] & ?). done.
    + apply Hno. by intros (e' & ? & ?).
  - assert (seen v n (file_at fs' v n) (abs fs idx) !! m = abs fs idx !! m) as ->.
    { unfold seen. repeat case_match; rewrite ?lookup_insert_ne, ?lookup_delete_ne by congruence;
        done. }
    apply option_eq. intros ob. split; intros Hob.
    + apply abs_Some_file in Hob as (v' & e & He & ->); [|done]. apply abs_kind_in; [done|].
      apply Hf in He as [He _]. by rewrite (touched_other _ _ _ _ _ Ht) in He by (intros [? ?]; done).
    + apply abs_Some_file in Hob as (v' & e & He & ->); [|done]. apply abs_kind_in; [done|].
      apply Hf. rewrite (touched_other _ _ _ _ _ Ht) by (intros [? ?]; done).
      split; [done|]. exact (wf_live _ _ _ _ _ Hwf He).
Qed.
End touched.

(** ** What an interrupted operation leaves behind

    [stays I now] relates host states so that [I], a property of the tree at
    clock [now], is kept: a preorder that computations respect. *)
Definition stays (I : gmap string top -> Prop) (now : Z) (h h' : host) : Prop :=
  I (h_fs h) /\ h_clock h = now -> I (h_fs h') /\ h_clock h' = now.

#[local] Instance stays_preorder I now : PreOrder (stays I now).
Proof. split; unfold stays; [by intros h|intros h1 h2 h3; tauto]. Qed.

Definition stays_eng (I : gmap string top -> Prop) (now : Z) (s s' : engine) : Prop :=
  stays I now (disk s) (disk s').

#[local] Instance stays_eng_preorder I now : PreOrder (stays_eng I now).
Proof. split; unfold stays_eng; [by intros s|intros s1 s2 s3 ??; by etrans]. Qed.

Lemma stays_io {A} I now (m : IO A) : respects (stays I now) m -> respects (stays_eng I now) (io m).
Proof. intros Hm s. apply Hm. Qed.

Lemma stays_sys {A} (I : gmap string top -> Prop) now
    (f : gmap string top -> Z -> result Z (A * gmap string top)) :
  (forall fs a fs', I fs -> f fs now = Ok (a, fs') -> I fs') -> respects (stays I now) (sys f).
Proof.
  intros Hf h [HI Hnow]. unfold sys.
  assert (Hrun : forall h', h_fs h' = h_fs h -> h_clock h' = now ->
            I (h_fs (run_call f h').2) /\ h_clock (run_call f h').2 = now).
  { intros h' Hh Hc. unfold run_call. rewrite Hh, Hc.
    destruct (f _ _) as [[a fs']|e] eqn:Hfh; simpl; [|by rewrite Hh].
    split; [by eapply Hf|done]. }
  destruct (h_faults h) as [|[|e|] fl]; simpl; auto.
Qed.

(** The calls of an operation on the file [v/n], for a set [P] of states of
    that file that the calls stay in. *)
Section own_file.
Context (fs0 : gmap string top) (v n : string) (P : option entry -> Prop) (now : Z).
Local Abbreviation I := (touched v n P fs0).

Lemma touched_put fs e : I fs -> P (Some e) -> is_Some (fs !! v) -> I (put_file (PSub v n) e fs).
Proof.
  intros [Ho Hh Hd] He [t Hv]. destruct (Hd _ _ Hv) as (d & -> & _). split.
  - intros v' m Hne. rewrite (file_at_put_sub _ _ _ _ _ _ d) by done.
    rewrite decide_False by done. auto.
  - by rewrite (file_at_put_eq _ _ _ _ d).
  - intros v' t. unfold put_file. rewrite Hv. destruct (decide (v = v')) as [<-|].
    + rewrite lookup_insert_eq. intros [= <-]. eauto.
    + rewrite lookup_insert_ne by done. apply Hd.
Qed.

Lemma touched_del fs : I fs -> P None -> I (del_file (PSub v n) fs).
Proof.
  intros [Ho Hh Hd] HP.
  destruct (removed_del v n fs) as [Hf Hdirs].
  { intros v' t Ht. destruct (Hd _ _ Ht) as (d & -> & _). eauto. }
  split.
  - intros v' m Hne. rewrite Hf, decide_False by done. auto.
  - by rewrite Hf, decide_True.
  - intros v' t Ht. destruct (Hdirs _ _ Ht) as (d & t' & -> & Ht').
    destruct (Hd _ _ Ht') as (? & _ & ?). eauto.
Qed.

Lemma touched_mkdir fs : I fs -> fs !! v = None -> I (<[v := TDir ∅]> fs).
Proof.
  intros [Ho Hh Hd] Hv. split.
  - intros v' m Hne. rewrite file_at_mkdir by done. auto.
  - by rewrite file_at_mkdir.
  - intros v' t. destruct (decide (v = v')) as [<-|].
    + rewrite lookup_insert_eq. intros [= <-]. eauto.
    + rewrite lookup_insert_ne by done. apply Hd.
Qed.

Lemma touched_rmdir fs u : I fs -> fs !! u = Some (TDir ∅) -> I (delete u fs).
Proof.
  intros [Ho Hh Hd] Hu. split.
  - intros v' m Hne. rewrite file_at_rmdir by done. auto.
  - by rewrite file_at_rmdir.
  - intros v' t. rewrite lookup_delete_Some. intros [_ Ht]. by apply Hd.
Qed.

(** Splits a call into its branches and keeps the successful ones. *)
Ltac solve_own :=
  apply stays_sys; unfold resolve, resolve_dir; simpl; intros fs a fs' HI Hf;
  repeat (case_match; simplify_eq/=); simplify_eq; try done;
  try (apply touched_mkdir; done); try (apply touched_rmdir; done).

Lemma own_pure {A} (f : gmap string top -> Z -> result Z (A * gmap string top)) :
  (forall fs now a fs', f fs now = Ok (a, fs') -> fs' = fs) -> respects (stays I now) (sys f).
Proof. intros Hf. apply stays_sys. intros fs a fs' HI ->%Hf. done. Qed.

Lemma own_create_dir_all : respects (stays I now) (sys_create_dir_all v).
Proof. solve_own. Qed.
Lemma own_remove_dir u : respects (stays I now) (sys_remove_dir u).
Proof. solve_own. Qed.
Lemma own_create_new :
  P (Some (Entry Regular 0 now ∅)) -> respects (stays I now) (sys_create_new (PSub v n)).
Proof. intros HP. solve_own; apply touched_put; eauto. Qed.
Lemma own_remove_file : P None -> respects (stays I now) (sys_remove_file (PSub v n)).
Proof. intros HP. solve_own; apply touched_del; eauto. Qed.
Lemma own_set_len len :
  (forall e, P (Some e) -> P (Some (truncate len now e))) ->
  respects (stays I now) (sys_set_len (PSub v n) len).
Proof.
  intros HP. solve_own. match goal with H : file_at _ _ _ = Some ?e |- _ =>
    pose proof H as (d & Hd & _)%file_at_Some; pose proof (touched_here _ _ _ _ _ HI) as Hh end.
  apply touched_put; [done| |by rewrite Hd]. apply HP. congruence.
Qed.
Lemma own_ficlone sv sn src :
  ~ (sv = v /\ sn = n) -> file_at fs0 sv sn = Some src ->
  (forall e, P (Some e) -> P (Some (ficlone_ioctl src e))) ->
  respects (stays I now) (sys_ficlone (PSub v n) (PSub sv sn)).
Proof.
  intros Hne Hsrc HP. solve_own.
  match goal with H1 : file_at ?fs sv sn = Some _, H2 : file_at ?fs v n = Some _ |- _ =>
    pose proof H2 as (d & Hd & _)%file_at_Some; pose proof (touched_here _ _ _ _ _ HI) as Hh;
    rewrite (touched_other _ _ _ _ _ HI) in H1 by done end.
  simplify_eq. apply touched_put; [done| |by rewrite Hd]. apply HP. congruence.
Qed.

Lemma own_open w p : respects (stays I now) (sys_open w p).
Proof. apply own_pure. unfold resolve, resolve_dir. intros. by repeat (case_match; simplify_eq/=). Qed.
Lemma own_metadata p : respects (stays I now) (sys_metadata p).
Proof. apply own_pure. unfold resolve, resolve_dir. intros. by repeat (case_match; simplify_eq/=). Qed.
Lemma own_sync_all : respects (stays I now) sys_sync_all.
Proof. apply own_pure. intros. by simplify_eq. Qed.
Lemma own_open_root : respects (stays I now) sys_open_root.
Proof. apply own_pure. intros. by simplify_eq. Qed.
Lemma own_next_entry : respects (stays I now) sys_next_entry.
Proof. apply own_pure. intros. by simplify_eq. Qed.
Lemma own_open_dir u : respects (stays I now) (sys_open_dir u).
Proof. apply own_pure. intros. by case_match; simplify_eq. Qed.
Lemma own_read_dir u : respects (stays I now) (sys_read_dir u).
Proof. apply own_pure. unfold resolve_dir. intros. by repeat (case_match; simplify_eq/=). Qed.
End own_file.

#[local] Hint Resolve own_create_dir_all own_remove_dir own_create_new own_remove_file own_set_len
  own_open own_metadata own_sync_all own_open_root own_next_entry own_open_dir own_read_dir
  own_ficlone stays_io : respects.

Lemma stays_set_index I now f s : stays_eng I now s (set_index f s).
Proof. by intros ?. Qed.
Lemma stays_set_metrics I now f s : stays_eng I now s (set_metrics f s).
Proof. by intros ?. Qed.
#[local] Hint Resolve stays_set_index stays_set_metrics : respects.

Ltac solve_stays :=
  repeat first [respects_step
               | match goal with |- respects (stays_eng _ _) (io _) => apply stays_io end];
  eauto with respects.

Section own_ops.
Context (fs0 : gmap string top) (v n : string) (P : option entry -> Prop) (now : Z).
Local Abbreviation I := (touched v n P fs0).

Lemma own_count_entries names vol c : respects (stays I now) (count_entries names vol c).
Proof. revert c; induction names as [|x names IH]; intros c; simpl; solve_stays. Qed.
Lemma own_fsync_dir u : respects (stays I now) (fsync_dir u).
Proof. unfold fsync_dir. solve_stays. Qed.
Lemma own_fsync_volumes_dir : respects (stays I now) fsync_volumes_dir.
Proof. unfold fsync_volumes_dir. solve_stays. Qed.
#[local] Hint Resolve own_count_entries : respects.
Lemma own_project_volume vol : respects (stays_eng I now) (project_volume vol).
Proof. unfold project_volume, count_snapshots_on_disk. solve_stays. Qed.
Lemma own_project_snapshot snap : respects (stays_eng I now) (project_snapshot snap).
Proof. unfold project_snapshot. solve_stays. Qed.
Lemma own_absent_ok m : respects (stays I now) m -> respects (stays_eng I now) (absent_ok m).
Proof. intros Hm. unfold absent_ok. solve_stays. Qed.
End own_ops.
#[local] Hint Resolve own_fsync_dir own_fsync_volumes_dir own_project_volume own_project_snapshot
  own_absent_ok : respects.

(** Operations keep to their own file when [P] allows their calls. *)
Section own_engine.
Context (fs0 : gmap string top) (P : option entry -> Prop) (now : Z).
Hypothesis HP_none : P None.

Lemma own_create_volume n sz :
  P (Some (Entry Regular 0 now ∅)) ->
  (forall e, P (Some e) -> P (Some (truncate sz now e))) ->
  respects (stays_eng (touched n n P fs0) now) (create_volume n sz).
Proof. intros H1 H2. unfold create_volume, create_volume_body, vol_main_file. solve_stays. Qed.

Lemma own_delete_volume n : respects (stays_eng (touched n n P fs0) now) (delete_volume n).
Proof. unfold delete_volume, vol_main_file. solve_stays. Qed.

Lemma own_delete_snapshot_body n o s :
  name_index s !! n = Some (KSnapshot o) ->
  stays_eng (touched o n P fs0) now s (delete_snapshot n s).2.
Proof.
  intros Hn. unfold delete_snapshot. rewrite bind_get, Hn. unfold snap_file.
  match goal with |- stays_eng ?I ?t s (?m s).2 => enough (respects (stays_eng I t) m) as Hm by apply Hm end.
  solve_stays.
Qed.

Lemma own_create_snapshot n src k e a s :
  name_index s !! src = Some k -> file_at fs0 (dir_of src k) src = Some e -> src <> n ->
  P (Some (Entry Regular 0 now ∅)) ->
  (forall d, P (Some d) -> P (Some (ficlone_ioctl e d))) ->
  stays_eng (touched (dir_of src k) n P fs0) now s (create_snapshot src n a s).2.
Proof.
  intros Hsrc He Hne H1 H2. unfold create_snapshot. 
  destruct (validate_name n "snapshot"); [|reflexivity]. unfold of_result.
  rewrite bind_ret, bind_get.
  assert (snapshot_source (name_index s) src = Some (PSub (dir_of src k) src, dir_of src k)) as ->.
  { unfold snapshot_source. rewrite Hsrc. by destruct k. }
  match goal with |- stays_eng ?I ?t s (?m s).2 => enough (respects (stays_eng I t) m) as Hm by apply Hm end.
  unfold create_snapshot_body, ficlone, snap_file. solve_stays.
  eapply own_ficlone; [|done|done]. intros [_ ?]. done.
Qed.
End own_engine.

Lemma metadata_cases h v n e :
  file_at (h_fs h) v n = Some e ->
  exists r h', sys_metadata (PSub v n) h = (r, h') /\ h_fs h' = h_fs h /\
    h_clock h' = h_clock h /\ (r = Done e \/ (exists er, r = Fail er) \/ r = Crashed).
Proof.
  intros (d & Hv & Hn)%file_at_Some. unfold sys_metadata, sys, run_call. simpl.
  destruct (h_faults h) as [|[|er|] fl]; simpl; unfold resolve_dir; rewrite ?Hv, ?Hn; eauto 10.
Qed.

(** A resize touches its volume only, and not at all when it would shrink it. *)
Lemma own_resize_volume n sz s e (P : option entry -> Prop) :
  name_index s !! n = Some KVolume -> file_at (h_fs (disk s)) n n = Some e ->
  P (Some e) -> (forall d, P (Some d) -> P (Some (truncate sz (h_clock (disk s)) d))) ->
  (forall v t, h_fs (disk s) !! v = Some t -> exists d, t = TDir d) ->
  let s' := (resize_volume n sz s).2 in
  touched n n P (h_fs (disk s)) (h_fs (disk s')) /\
  ((sz <= e_size e)%Z -> h_fs (disk s') = h_fs (disk s)).
Proof.
  intros Hk He HP Htr Hdirs. unfold resize_volume. rewrite bind_get, Hk.
  assert (Hrefl : touched n n P (h_fs (disk s)) (h_fs (disk s))).
  { split; [done|by rewrite He|]. intros v t Ht. destruct (Hdirs _ _ Ht) as [d ->]. eauto. }
  destruct (metadata_cases (disk s) n n e He) as (r & h' & Hmeta & Hfs & Hclk & Hr).
  assert (Hcall : forall r', (forall a, r = Done a -> r' = Done a) ->
    (forall x, r = Fail x -> r' = Fail (IoError x)) -> (r = Crashed -> r' = Crashed) ->
    io_err (sys_metadata (vol_main_file n)) s = (r', set_disk h' s)).
  { intros r' H1 H2 H3. unfold io_err, map_err, io, vol_main_file. rewrite Hmeta. simpl.
    destruct r; f_equal; symmetry; auto. }
  destruct Hr as [->|[[er ->]| ->]].
  2: { rewrite (bind_fail _ _ _ (IoError er) (set_disk h' s)) by (apply Hcall; naive_solver).
       simpl. by rewrite Hfs. }
  2: { rewrite (bind_crash _ _ _ (set_disk h' s)) by (apply Hcall; naive_solver).
       simpl. by rewrite Hfs. }
  rewrite (bind_done _ _ _ e (set_disk h' s)) by (apply Hcall; naive_solver).
  case_decide as Hlt; [simpl; by rewrite Hfs|].
  case_decide as Heq; [simpl; by rewrite Hfs|]. split; [|lia].
  match goal with |- touched _ _ _ _ (h_fs (disk (?m ?st).2)) =>
    enough (respects (stays_eng (touched n n P (h_fs (disk s))) (h_clock (disk s))) m) as Hm
      by (apply (Hm st); simpl; by rewrite Hfs, Hclk) end.
  solve_stays.
Qed.

(** ** Restart *)
Lemma run_probe fs now pid :
  (forall v t, fs !! v = Some t -> starts_with_dot v = false) ->
  probe_reflink_support pid (Host fs [] now) = (Done tt, Host fs [] now).
Proof.
  intros Hdot. unfold probe_reflink_support.
  set (src := ".cubecow-reflink-probe-src-" +:+ pretty pid).
  set (dst := ".cubecow-reflink-probe-dst-" +:+ pretty pid).
  assert (Hs : fs !! src = None).
  { apply eq_None_not_Some. intros [t Ht%Hdot]. unfold src in Ht. discriminate Ht. }
  assert (Hd : fs !! dst = None).
  { apply eq_None_not_Some. intros [t Ht%Hdot]. unfold dst in Ht. discriminate Ht. }
  assert (Hne : src <> dst) by (unfold src, dst; simpl; intros [=]).
  assert (Hne' : dst <> src) by congruence.
  unfold bind, map_err, ignore, catch, ficlone, of_result, ret, sys_remove_file, sys_create,
    sys_write_zeroes, sys_sync_all, sys_open, sys_create_new, sys_ficlone, bind, catch, sys, run_call.
  repeat (simpl; rewrite ?Hs, ?Hd, ?lookup_insert_eq, ?lookup_delete_ne, ?lookup_insert_ne by done;
          unfold put_file, del_file).
  rewrite decide_False by (by rewrite ficlone_type). unfold set_fs. simpl. do 2 f_equal.
  apply map_eq. intros i. rewrite !lookup_delete, !lookup_insert.
  repeat case_decide; simplify_eq; congruence.
Qed.

(** What [initialize_with_config] returns on a tree whose scan is known. *)
Lemma initialize_run config pid fs fs2 idx now :
  validate config = Ok tt ->
  (forall v t, fs !! v = Some t -> starts_with_dot v = false) ->
  scan_and_rebuild_index (Host fs [] now) = (Done idx, Host fs2 [] now) ->
  initialize_with_config config pid (Host fs [] now) =
  (Done (engine_of_index (path_join (backend_reflink_root_dir config) "volumes") idx
           (Host fs2 [] now)), Host fs2 [] now).
Proof.
  intros Hc Hdot Hscan. unfold initialize_with_config. rewrite Hc.
  rewrite (bind_done _ _ _ tt (Host fs [] now)) by done.
  erewrite bind_done by (apply map_err_done; by apply run_probe).
  erewrite bind_done by (by apply map_err_done). done.
Qed.

Lemma wf_scannable fs idx : wf fs idx -> scannable fs.
Proof.
  intros Hwf. split.
  - apply (wf_dir _ _ Hwf).
  - intros v n e He. by destruct (wf_file _ _ Hwf _ _ _ He) as (? & ? & _).
  - intros v v' n e e' He He' _ _. destruct (wf_file _ _ Hwf _ _ _ He) as (_ & _ & Hk & _).
    destruct (wf_file _ _ Hwf _ _ _ He') as (_ & _ & Hk' & _). rewrite Hk in Hk'. simplify_eq.
    by rewrite <- (dir_of_kind_in v n), <- (dir_of_kind_in v' n), Hk'.
Qed.

(** Scanning a clean tree finds its index and its objects. *)
Lemma scan_clean fs idx now :
  wf fs idx ->
  exists fs2, scan_and_rebuild_index (Host fs [] now) = (Done idx, Host fs2 [] now) /\
    wf fs2 idx /\ abs fs2 idx = abs fs idx.
Proof.
  intros Hwf.
  destruct (scan_wf fs now (wf_scannable _ _ Hwf)) as (fs2 & idx2 & Hrun & Hwf2 & Hi & Hf).
  assert (idx2 = idx) as ->.
  { apply map_eq. intros n. apply option_eq. intros k. rewrite Hi. split.
    - intros (v & e & He & _ & ->). by destruct (wf_file _ _ Hwf _ _ _ He) as (_ & _ & ? & _).
    - intros Hk. destruct (wf_index _ _ Hwf _ _ Hk) as [[e He] Hkind].
      exists (dir_of n k), e. split_and!; [done|exact (wf_live _ _ _ _ _ Hwf He)|done]. }
  exists fs2. split_and!; [done|done|]. apply map_eq. intros n. rewrite !abs_lookup.
  destruct (idx !! n) as [k|]; simpl; [|done]. f_equal. apply option_eq. intros e.
  rewrite Hf. split; [by intros [? _]|]. intros He. split; [done|].
  exact (wf_live _ _ _ _ _ Hwf He).
Qed.

(** ** Interrupted operations *)

(** What a restart may find after an operation on the store [a]: nothing
    happened, the operation is complete, or a volume was created but its size
    was not set. *)
Definition recovered (o : op) (a a2 : store) : Prop :=
  a2 = a \/ spec o a = Ok a2 \/
  match o with
  | CreateVolume n _ => is_ok (spec o a) = true /\ a2 = <[n := Obj KVolume 0 ∅]> a
  | _ => False
  end.

(** The scan of the tree an operation left, whatever stopped it. *)
Definition recovers (o : op) (s : engine) : Prop :=
  let h := disk (exec o s).2 in
  forall now, exists fs2 idx2,
    scan_and_rebuild_index (Host (h_fs h) [] now) = (Done idx2, Host fs2 [] now) /\
    wf fs2 idx2 /\ recovered o (abs_of s) (abs fs2 idx2) /\
    (forall v t, h_fs h !! v = Some t -> starts_with_dot v = false).

Lemma touched_refl fs idx v n P :
  wf fs idx -> P (file_at fs v n) -> touched v n P fs fs.
Proof.
  intros Hwf HP. split; [done|done|]. intros v' t Ht.
  destruct (wf_dir _ _ Hwf _ _ Ht) as [_ [d ->]]. eauto.
Qed.

Lemma void_state {A} (m : Eng A) s : (void m s).2 = (m s).2.
Proof. unfold void, bind. by destruct (m s) as [[]]. Qed.

Lemma recovers_unchanged o s :
  wf (h_fs (disk s)) (name_index s) -> h_fs (disk (exec o s).2) = h_fs (disk s) -> recovers o s.
Proof.
  intros Hwf Hfs now. destruct (scan_clean _ _ now Hwf) as (fs2 & Hrun & Hwf2 & Habs).
  rewrite Hfs. exists fs2, (name_index s). split_and!; [done|done|by left|].
  intros v t Ht. by destruct (wf_dir _ _ Hwf _ _ Ht) as [[? _] _].
Qed.

Lemma recovers_touched o s v n (P : option entry -> Prop) :
  wf (h_fs (disk s)) (name_index s) -> plain_name v -> plain_name n ->
  (forall v' e, file_at (h_fs (disk s)) v' n = Some e -> v' = v) ->
  (forall e, P (Some e) -> e_type e = Regular) ->
  touched v n P (h_fs (disk s)) (h_fs (disk (exec o s).2)) ->
  (forall oe, P oe -> recovered o (abs_of s) (seen v n oe (abs_of s))) ->
  recovers o s.
Proof.
  intros Hwf Hv Hn Helse Hreg Ht HP now.
  destruct (scan_touched _ _ _ _ _ _ Hwf Hv Hn Helse Hreg Ht now) as (fs2 & idx2 & Hrun & Hwf2 & Habs).
  exists fs2, idx2. split_and!; [done|done| |].
  - rewrite Habs. apply HP. apply (touched_here _ _ _ _ _ Ht).
  - pose proof (touched_scannable _ _ _ _ _ _ Hwf Hv Hn Helse Hreg Ht) as Hsc.
    intros v' t Ht'. by destruct (sc_dir _ Hsc _ _ Ht') as [[? _] _].
Qed.

Lemma recovers_create_volume n sz s :
  wf (h_fs (disk s)) (name_index s) -> op_ok (CreateVolume n sz) (abs_of s) ->
  recovers (CreateVolume n sz) s.
Proof.
  intros Hwf [Hutf _]. simpl in Hutf.
  destruct (validate_name_cases n "volume") as [Hv|[msg Hv]].
  2: { apply recovers_unchanged; [done|]. simpl. rewrite void_state.
       unfold create_volume, bind. by rewrite Hv. }
  destruct (name_index s !! n) as [k|] eqn:Hn.
  { apply recovers_unchanged; [done|]. simpl. rewrite void_state.
    unfold create_volume. rewrite Hv. unfold of_result. by rewrite bind_ret, bind_get, Hn. }
  assert (Hpl : plain_name n) by by eapply validate_name_plain.
  assert (Ha : abs_of s !! n = None) by by apply abs_lookup_None.
  set (P := fun oe : option entry => forall e, oe = Some e ->
         e_type e = Regular /\ e_data e = ∅ /\ (e_size e = 0%Z \/ e_size e = sz)).
  apply (recovers_touched _ _ n n P); [done..| | | |].
  - intros v' e He. rewrite (wf_fresh_file _ _ v' n Hwf Hn) in He. done.
  - intros e HP. by destruct (HP e eq_refl).
  - simpl. rewrite void_state.
    apply (own_create_volume (h_fs (disk s)) P (h_clock (disk s)) ltac:(done) n sz).
    + intros e [= <-]. simpl. auto.
    + intros e HP e' [= <-]. destruct (HP e eq_refl) as (? & Hd & _). simpl.
      split_and!; [done|by rewrite Hd, map_filter_empty|by right].
    + split; [|done]. apply (touched_refl _ (name_index s)); [done|].
      by rewrite (wf_fresh_file _ _ n n Hwf Hn).
  - intros oe HP. unfold seen, recovered, spec. rewrite Hv, Ha. simpl.
    assert (delete n (abs_of s) = abs_of s) as -> by by apply delete_id.
    destruct oe as [e|]; [|by left]. rewrite decide_True by by left.
    destruct (HP e eq_refl) as (_ & Hd & Hsz). unfold object_of, kind_in.
    rewrite Hd, decide_True by done. destruct Hsz as [->| ->]; eauto.
Qed.

(** [n] is in one directory only. *)
Lemma wf_else fs idx n k v' e :
  wf fs idx -> idx !! n = Some k -> file_at fs v' n = Some e -> v' = dir_of n k.
Proof.
  intros Hwf Hk He. destruct (wf_file _ _ Hwf _ _ _ He) as (_ & _ & Hk' & _).
  rewrite Hk in Hk'. simplify_eq. by rewrite dir_of_kind_in.
Qed.

Lemma recovers_delete o s n k e :
  wf (h_fs (disk s)) (name_index s) -> name_index s !! n = Some k ->
  file_at (h_fs (disk s)) (dir_of n k) n = Some e ->
  spec o (abs_of s) = Ok (delete n (abs_of s)) ->
  touched (dir_of n k) n (fun oe => oe = None \/ oe = Some e) (h_fs (disk s))
    (h_fs (disk (exec o s).2)) ->
  recovers o s.
Proof.
  intros Hwf Hk He Hspec Ht.
  destruct (wf_file _ _ Hwf _ _ _ He) as (Hty & Hpl & _).
  assert (Hplv : plain_name (dir_of n k)).
  { apply file_at_Some in He as (d & Hd & _). by destruct (wf_dir _ _ Hwf _ _ Hd). }
  eapply (recovers_touched _ _ (dir_of n k) n); [done..| | |exact Ht|].
  - intros v' e'. by apply (wf_else _ (name_index s)).
  - intros e' [?|[= ->]]; done.
  - intros oe [->| ->]; simpl; [right; by left|left].
    rewrite decide_True by exact (wf_live _ _ _ _ _ Hwf He).
    apply insert_delete_id. by apply (abs_kind_in _ _ _ _ _ Hwf).
Qed.

Lemma recovers_delete_volume n s :
  wf (h_fs (disk s)) (name_index s) -> recovers (DeleteVolume n) s.
Proof.
  intros Hwf. destruct (name_index s !! n) as [[|o]|] eqn:Hn.
  2-3: apply recovers_unchanged; [done|]; simpl; unfold delete_volume; by rewrite bind_get, Hn.
  destruct (wf_index _ _ Hwf _ _ Hn) as [[e He] _]. simpl in He.
  apply (recovers_delete _ _ n KVolume e); [done..| |].
  - simpl. unfold abs_of. rewrite (abs_kind_in _ _ n n e Hwf He).
    unfold object_of, kind_in. by rewrite decide_True.
  - apply (own_delete_volume (h_fs (disk s)) (fun oe => oe = None \/ oe = Some e)
      (h_clock (disk s)) (or_introl eq_refl) n s).
    split; [|done]. apply (touched_refl _ (name_index s)); [done|by right].
Qed.

Lemma recovers_delete_snapshot n s :
  wf (h_fs (disk s)) (name_index s) -> recovers (DeleteSnapshot n) s.
Proof.
  intros Hwf. destruct (name_index s !! n) as [[|o]|] eqn:Hn.
  1,3: apply recovers_unchanged; [done|]; simpl; unfold delete_snapshot; by rewrite bind_get, Hn.
  destruct (wf_index _ _ Hwf _ _ Hn) as [[e He] Hk]. simpl in He, Hk.
  apply (recovers_delete _ _ n (KSnapshot o) e); [done..| |].
  - simpl. unfold abs_of. rewrite (abs_kind_in _ _ o n e Hwf He). unfold object_of.
    by rewrite <- Hk.
  - apply (own_delete_snapshot_body (h_fs (disk s)) (fun oe => oe = None \/ oe = Some e)
      (h_clock (disk s)) (or_introl eq_refl) n o s Hn).
    split; [|done]. apply (touched_refl _ (name_index s)); [done|by right].
Qed.

Lemma recovers_resize_volume n sz s :
  wf (h_fs (disk s)) (name_index s) -> recovers (ResizeVolume n sz) s.
Proof.
  intros Hwf. destruct (name_index s !! n) as [[|o]|] eqn:Hn.
  2-3: apply recovers_unchanged; [done|]; simpl; rewrite void_state;
       unfold resize_volume; by rewrite bind_get, Hn.
  destruct (wf_index _ _ Hwf _ _ Hn) as [[e He] _]. simpl in He.
  destruct (wf_file _ _ Hwf _ _ _ He) as (Hty & Hpl & _).
  set (P := fun oe => exists d, oe = Some d /\ e_type d = Regular /\
        (d = e \/ e_size d = sz /\ e_data d = filter (fun kv => (kv.1 < sz)%Z) (e_data e))).
  destruct (own_resize_volume n sz s e P Hn He) as [Ht Hshrink].
  { exists e. auto. }
  { intros d (? & [= <-] & Hd & Hor). eexists. split_and!; [done|done|right; split; [done|]].
    simpl. destruct Hor as [->|[_ ->]]; [done|]. rewrite map_filter_filter.
    apply map_filter_ext. naive_solver. }
  { intros v t Hvt. by destruct (wf_dir _ _ Hwf _ _ Hvt). }
  destruct (decide (sz <= e_size e)%Z) as [Hle|Hgt].
  { apply recovers_unchanged; [done|]. simpl. rewrite void_state. auto. }
  eapply (recovers_touched _ _ n n P); [done..| | | |].
  - intros v' e' He'. by apply (wf_else _ _ _ _ _ _ Hwf Hn) in He'.
  - by intros e' (? & [= <-] & ? & _).
  - simpl. by rewrite void_state.
  - intros oe (d & -> & _ & Hd). pose proof (abs_kind_in _ _ _ _ _ Hwf He) as Ha.
    unfold recovered, seen, spec, abs_of. rewrite decide_True by by left.
    rewrite Ha. unfold object_of, kind_in in *. rewrite decide_True in * by done.
    rewrite decide_False by lia. rewrite decide_False by lia. rewrite insert_delete_eq.
    destruct Hd as [->|[-> ->]]; [left; by apply insert_id|auto].
Qed.

Lemma recovers_create_snapshot src n a s :
  wf (h_fs (disk s)) (name_index s) -> op_ok (CreateSnapshot src n a) (abs_of s) ->
  recovers (CreateSnapshot src n a) s.
Proof.
  intros Hwf [Hutf Hok]. simpl in Hutf.
  destruct (validate_name_cases n "snapshot") as [Hv|[msg Hv]].
  2: { apply recovers_unchanged; [done|]. simpl. rewrite void_state.
       unfold create_snapshot, bind. by rewrite Hv. }
  destruct (name_index s !! src) as [k|] eqn:Hsrc.
  2: { apply recovers_unchanged; [done|]. simpl. rewrite void_state. unfold create_snapshot.
       rewrite Hv. unfold of_result. rewrite bind_ret, bind_get. unfold snapshot_source.
       by rewrite Hsrc. }
  destruct (name_index s !! n) as [kn|] eqn:Hn.
  { apply recovers_unchanged; [done|]. simpl. rewrite void_state. unfold create_snapshot.
    rewrite Hv. unfold of_result. rewrite bind_ret, bind_get. unfold snapshot_source.
    rewrite Hsrc. destruct k; by rewrite Hn. }
  destruct (wf_index _ _ Hwf _ _ Hsrc) as [[e He] Hk].
  pose proof (abs_kind_in _ _ _ _ _ Hwf He) as Hasrc. rewrite <- Hk in Hasrc.
  unfold abs_of in Hok. rewrite Hasrc in Hok. destruct Hok as [Hsz Hno]. simpl in Hsz, Hno.
  assert (Hpl : plain_name n) by by eapply validate_name_plain.
  assert (Hplv : plain_name (dir_of src k)).
  { apply file_at_Some in He as (d & Hd & _). by destruct (wf_dir _ _ Hwf _ _ Hd). }
  set (P := fun oe : option entry => forall d, oe = Some d -> e_type d = Regular /\
         (e_size d = 0%Z \/ e_size d = e_size e /\ e_data d = e_data e)).
  apply (recovers_touched _ _ (dir_of src k) n P); [done..| | | |].
  - intros v' e' He'. rewrite (wf_fresh_file _ _ v' n Hwf Hn) in He'. done.
  - intros d HP. by destruct (HP d eq_refl).
  - simpl. rewrite void_state.
    apply (own_create_snapshot (h_fs (disk s)) P (h_clock (disk s)) ltac:(done) n src k e a s);
      [done|done|congruence| | |].
    + intros d [= <-]. simpl. auto.
    + intros d HP d' [= <-]. rewrite ficlone_type, ficlone_size, ficlone_data.
      destruct (HP d eq_refl). auto.
    + split; [|done]. apply (touched_refl _ (name_index s)); [done|].
      by rewrite (wf_fresh_file _ _ _ n Hwf Hn).
  - intros oe HP. assert (Ha : abs_of s !! n = None) by by apply abs_lookup_None.
    unfold seen, recovered, spec. rewrite Hv, Ha. simpl. unfold abs_of. rewrite Hasrc. simpl.
    rewrite delete_id by done. destruct oe as [d|]; [|by left].
    destruct (HP d eq_refl) as (_ & Hd). unfold live. case_decide as Hl; [|by left].
    right; left. destruct Hd as [Hd|[Hs Hdat]]; [naive_solver|].
    unfold object_of, kind_in. by rewrite decide_False, Hs, Hdat.
Qed.
End crash.

(** C2: A crash is recovered from at any system call.  Take a well-formed
    engine, run one operation on it under any list of injected faults, with
    the process dying at any of its calls, and initialise a new engine on the
    tree that is left.  Initialisation succeeds, the new engine is well formed
    again (its index and its directories agree), and its objects, contents
    included, are those from before the operation or those the operation
    promises; the one other case is a creation cut before the size of the
    volume is set, which comes back as a volume of size zero.  Here
    [op_ok] leaves out names that are not UTF-8, snapshots of a source of size
    zero and snapshots named like the volume their source belongs to. *)
Theorem crash_recovery {HE : HostEnv} {HL : HostEnvLaws HE} o s config pid :
  wf (h_fs (disk s)) (name_index s) -> op_ok o (abs_of s) -> validate config = Ok tt ->
  let h := disk (exec o s).2 in
  exists s2, initialize_with_config config pid (Host (h_fs h) [] (h_clock h)) = (Done s2, disk s2) /\
    inv s2 /\ recovered o (abs_of s) (abs_of s2).
Proof.
  intros Hwf Hok Hc h.
  assert (Hrec : recovers o s).
  { destruct o; [by apply recovers_create_volume|by apply recovers_delete_volume|
      by apply recovers_resize_volume|by apply recovers_create_snapshot|
      by apply recovers_delete_snapshot]. }
  destruct (Hrec (h_clock h)) as (fs2 & idx2 & Hscan & Hwf2 & Hr & Hdot).
  exists (engine_of_index (path_join (backend_reflink_root_dir config) "volumes") idx2
            (Host fs2 [] (h_clock h))).
  split; [by apply initialize_run|]. split; [by split|done].
Qed.

(** C30: A restart loses nothing: initialising an engine on the tree of a
    well-formed engine rebuilds the very index that engine had in memory, and
    the same objects with the same contents. *)
Theorem restart_roundtrip {HE : HostEnv} {HL : HostEnvLaws HE} s config pid :
  inv s -> validate config = Ok tt ->
  exists s2, initialize_with_config config pid (disk s) = (Done s2, disk s2) /\
    inv s2 /\ name_index s2 = name_index s /\ abs_of s2 = abs_of s.
Proof.
  intros [Hwf Hf] Hc. destruct (disk s) as [fs f now] eqn:Hd. simpl in *. subst f.
  destruct (scan_clean _ _ now Hwf) as (fs2 & Hrun & Hwf2 & Habs).
  exists (engine_of_index (path_join (backend_reflink_root_dir config) "volumes") (name_index s)
            (Host fs2 [] now)).
  split; [apply initialize_run; [done| |exact Hrun]|].
  - intros v t Ht. by destruct (wf_dir _ _ Hwf _ _ Ht) as [[? _] _].
  - split; [by split|]. split; [done|]. unfold abs_of. rewrite Hd. exact Habs.
Qed.

(** An engine with one volume, and the same engine whose process dies at the
    third system call it makes. *)
Definition one_volume : engine :=
  (exec_all (HE := plain_env) [CreateVolume "vol" 8192] (fresh_engine "/r/volumes" 5)).2.
Definition dying : engine :=
  set_disk (Host (h_fs (disk one_volume)) [NoFault; NoFault; Crash] 5) one_volume.
Definition example_config : AppConfig :=
  mkAppConfig (mkLogConfig "info" "json" None "daily") Reflink "/r".

Lemma one_volume_inv : inv one_volume.
Proof.
  apply (exec_all_refines (HL := plain_env_laws) [CreateVolume "vol" 8192] (fresh_engine "/r/volumes" 5)).
  - apply fresh_inv.
  - apply (bool_decide_unpack _). vm_compute. exact I.
Qed.

(** The process dies between the creation of the snapshot's file and the
    [FICLONE] that fills it. *)
Lemma crash_recovery_witness :
  let h := disk (exec (H := plain_env) (CreateSnapshot "vol" "s1" false) dying).2 in
  (exec (H := plain_env) (CreateSnapshot "vol" "s1" false) dying).1 = Crashed /\
  e_size <$> file_at (h_fs h) "vol" "s1" = Some 0%Z /\
  exists s2, initialize_with_config (H := plain_env) example_config 7
               (Host (h_fs h) [] (h_clock h)) = (Done s2, disk s2) /\
    inv s2 /\ recovered (CreateSnapshot "vol" "s1" false) (abs_of dying) (abs_of s2).
Proof.
  split; [vm_compute; reflexivity|]. split; [vm_compute; reflexivity|].
  apply (crash_recovery (HL := plain_env_laws)).
  - exact (proj1 one_volume_inv).
  - apply (bool_decide_unpack _). vm_compute. exact I.
  - vm_compute. reflexivity.
Defined.

Lemma restart_roundtrip_witness :
  exists s2, initialize_with_config (H := plain_env) example_config 7 (disk one_volume) =
               (Done s2, disk s2) /\
    inv s2 /\ name_index s2 = {["vol" := KVolume]} /\ abs_of s2 = {["vol" := Obj KVolume 8192 ∅]}.
Proof.
  apply (restart_roundtrip (HL := plain_env_laws) one_volume example_config 7).
  - exact one_volume_inv.
  - vm_compute. reflexivity.
Defined.

(** The third case of [recovered] occurs: a volume of 8192 bytes whose
    creation is cut after its file is made comes back with size zero. *)
Lemma torn_create_volume :
  let dying := set_disk (Host ∅ [NoFault; NoFault; Crash] 5) (fresh_engine "/r/volumes" 5) in
  let h := disk (exec (H := plain_env) (CreateVolume "vol" 8192) dying).2 in
  match initialize_with_config (H := plain_env) example_config 7 (Host (h_fs h) [] 5) with
  | (Done s2, _) => abs_of s2 = {["vol" := Obj KVolume 0 ∅]}
  | _ => False
  end.
Proof. vm_compute. reflexivity. Qed.
