(* ===== verification/ReflinkList.v ===== *)
(** Paged listings of the reflink engine ([list_volumes] and [list_snapshots]
    of cubecow/src/engine/reflink.rs): a client that follows the page tokens
    sees every name once, in order, with the size and origin the store gives
    it; and the pages on which the slice expression panics. *)
From stdpp Require Import gmap strings sorting.
From S2P Require Import Prelude HostFs Reflink ReflinkFaults ReflinkRefine.

#[local] Arguments page_bounds : simpl never.

(** ** The arithmetic of pages *)

(** The names of one page and the token of the next one. *)
Definition page (names : list string) (page_size : Z) (tok : option string)
  : option (list string * option string) :=
  let '(start, stop, total) := page_bounds names page_size tok in
  l ← slice names start stop; Some (l, next_page_token names stop total).

(** [tok] asks for the page that starts at position [i]. *)
Definition token_at (names : list string) (tok : option string) (i : nat) : Prop :=
  match tok with None => i = 0 | Some t => names !! i = Some t end.

Lemma page_start names p tok i :
  NoDup names -> token_at names tok i ->
  page_bounds names p tok =
  let total := Z.of_nat (length names) in
  (Z.of_nat i, Z.min (wadd 64 (Z.of_nat i) (if decide (p = 0)%Z then total else p)) total, total).
Proof.
  intros Hnd Htok. unfold page_bounds. destruct tok as [t|]; simpl in *; [|by subst].
  assert (list_find (fun n => n = t) names = Some (i, t)) as ->; [|done].
  apply list_find_Some. split_and!; [done|done|]. intros j y Hj Hlt ->.
  pose proof (NoDup_lookup _ _ _ _ Hnd Htok Hj). lia.
Qed.

(** A page of [p] names that starts at [i]. *)
Lemma page_spec names p tok i :
  NoDup names -> token_at names tok i -> i <= length names ->
  (0 < p)%Z -> (p + Z.of_nat (length names) < 2 ^ 64)%Z ->
  page names p tok = Some (take (Z.to_nat p) (drop i names), names !! (i + Z.to_nat p)).
Proof.
  intros Hnd Htok Hi Hp Hbig. unfold page. rewrite (page_start _ _ _ i) by done. cbv zeta.
  rewrite decide_False by lia. rewrite wadd_small by (unfold in_width; lia). simpl.
  set (total := Z.of_nat (length names)).
  unfold slice. rewrite decide_True by lia. simpl. f_equal. f_equal.
  - rewrite Nat2Z.id. destruct (decide (Z.of_nat i + p <= total)%Z) as [Hle|Hgt].
    + f_equal. lia.
    + rewrite !take_ge; [done|rewrite length_drop; lia..].
  - unfold next_page_token. case_decide.
    + f_equal. lia.
    + symmetry. apply lookup_ge_None. lia.
Qed.

(** ** Following the tokens *)
Section follow.
Context {A : Type}.

(** A client that asks for pages until there is no token; [None] is a panic or
    the fuel running out. *)
Fixpoint follow (fetch : option string -> Eng (option (list A * option string)))
    (fuel : nat) (tok : option string) : Eng (option (list A)) :=
  match fuel with
  | 0 => ret None
  | S fuel =>
    let* r := fetch tok in
    match r with
    | None => ret None
    | Some (out, None) => ret (Some out)
    | Some (out, Some next) =>
      let* rest := follow fetch fuel (Some next) in
      ret (option_map (app out) rest)
    end
  end.

(** [fetch] reads the pages of [names] without changing the state [s], and
    shows each name by an item that [describes] it. *)
Definition reads (describes : string -> A -> Prop) names p s
    (fetch : option string -> Eng (option (list A * option string))) : Prop :=
  forall tok l next, page names p tok = Some (l, next) -> (forall n, n ∈ l -> n ∈ names) ->
    exists out, fetch tok s = (Done (Some (out, next)), s) /\ Forall2 describes l out.

Lemma follow_run describes names p s fetch :
  NoDup names -> (0 < p)%Z -> (p + Z.of_nat (length names) < 2 ^ 64)%Z ->
  reads describes names p s fetch ->
  forall fuel i tok, token_at names tok i -> i <= length names -> length names - i < fuel ->
  exists out, follow fetch fuel tok s = (Done (Some out), s) /\
    Forall2 describes (drop i names) out.
Proof.
  intros Hnd Hp Hbig Hreads. induction fuel as [|fuel IH]; intros i tok Htok Hi Hfuel; [lia|].
  pose proof (page_spec _ _ _ _ Hnd Htok Hi Hp Hbig) as Hpage.
  destruct (Hreads _ _ _ Hpage) as (out & Hrun & Hout).
  { intros n Hn. by apply elem_of_take in Hn as (j & Hj & _); rewrite lookup_drop in Hj;
      apply list_elem_of_lookup_2 in Hj. }
  simpl. rewrite (bind_done _ _ _ _ _ Hrun).
  destruct (names !! (i + Z.to_nat p)) as [t|] eqn:Hnext.
  - pose proof (lookup_lt_Some _ _ _ Hnext) as Hlt.
    destruct (IH (i + Z.to_nat p) (Some t)) as (rest & Hrest & Hall); [done|lia|lia|].
    rewrite (bind_done _ _ _ _ _ Hrest). exists (out ++ rest). split; [done|].
    rewrite <- (take_drop (Z.to_nat p) (drop i names)), drop_drop. by apply Forall2_app.
  - exists out. split; [done|]. apply lookup_ge_None in Hnext.
    rewrite take_ge in Hout; [done|]. rewrite length_drop. lia.
Qed.

Lemma project_all_run (describes : string -> A -> Prop) project s l :
  (forall n, n ∈ l -> exists a, project n s = (Done a, s) /\ describes n a) ->
  exists out, project_all project l s = (Done out, s) /\ Forall2 describes l out.
Proof.
  induction l as [|n l IH]; intros Hall; simpl; [by exists []|].
  destruct (Hall n) as (a & Ha & Hd); [left|].
  destruct IH as (out & Hout & Hds); [intros m Hm; apply Hall; by right|].
  rewrite (bind_done _ _ _ _ _ (catch_done _ _ _ _ Ha)), (bind_done _ _ _ _ _ Hout).
  exists (a :: out). split; [done|]. by constructor.
Qed.
End follow.

(** ** The names that are listed *)
#[global] Instance str_le_total : Total str_le.
Proof.
  intros a b. unfold str_le, String.leb. rewrite (String.compare_antisym b a).
  destruct (String.compare a b); simpl; auto.
Qed.

Section listings.
Context {HE : HostEnv} {HL : HostEnvLaws HE}.

Lemma names_spec (P : NameKind -> Prop) `{!forall k, Decision (P k)} (idx : gmap string NameKind) :
  let names := sort_names (map_to_list (filter (fun kv => P kv.2) idx)).*1 in
  NoDup names /\ Sorted str_le names /\
  (forall n, n ∈ names <-> exists k, idx !! n = Some k /\ P k).
Proof.
  intros names.
  assert (Hperm : names ≡ₚ (map_to_list (filter (fun kv => P kv.2) idx)).*1)
    by apply merge_sort_Permutation.
  split_and!.
  - rewrite Hperm. apply NoDup_fst_map_to_list.
  - apply (Sorted_merge_sort str_le).
  - intros n. rewrite Hperm, list_elem_of_fmap. split.
    + intros ([m k] & -> & Hm). apply elem_of_map_to_list, map_lookup_filter_Some in Hm. eauto.
    + intros (k & Hk & HP). exists (n, k). split; [done|].
      by apply elem_of_map_to_list, map_lookup_filter_Some.
Qed.

(** ** What an item of a listing says *)
Definition volume_item (a : store) (n : string) (v : Volume) : Prop :=
  vol_name v = n /\ exists data, a !! n = Some (Obj KVolume (vol_size_bytes v) data).
Definition snapshot_item (a : store) (n : string) (sn : Snapshot) : Prop :=
  snap_name sn = n /\
  exists data, a !! n = Some (Obj (KSnapshot (snap_origin_volume sn)) (snap_size_bytes sn) data).

Lemma volume_names_spec idx :
  NoDup (volume_names idx) /\ Sorted str_le (volume_names idx) /\
  (forall n, n ∈ volume_names idx <-> idx !! n = Some KVolume).
Proof.
  destruct (names_spec (fun k => k = KVolume) idx) as (H1 & H2 & H3).
  split_and!; [done..|]. intros n. unfold volume_names. rewrite H3. naive_solver.
Qed.

Lemma snapshot_names_spec v idx :
  NoDup (snapshot_names v idx) /\ Sorted str_le (snapshot_names v idx) /\
  (forall n, n ∈ snapshot_names v idx <-> idx !! n = Some (KSnapshot v)).
Proof.
  destruct (names_spec (fun k => k = KSnapshot v) idx) as (H1 & H2 & H3).
  split_and!; [done..|]. intros n. unfold snapshot_names. rewrite H3. naive_solver.
Qed.

Definition drop_total {A B} (r : option (list A * option string * B)) :=
  option_map fst r.

Lemma list_volumes_reads s p :
  inv s ->
  reads (volume_item (abs_of s)) (volume_names (name_index s)) p s
    (fun tok => let* r := list_volumes p tok in ret (drop_total r)).
Proof.
  intros [Hwf Hf] tok l next Hpage Hin. destruct s as [vd idx mt [fs f now]]. simpl in *. subst f.
  set (s := Engine vd idx mt (Host fs [] now)).
  destruct (project_all_run (volume_item (abs fs idx)) project_volume s l) as (out & Hrun & Hall).
  { intros n Hn. apply Hin, volume_names_spec in Hn.
    destruct (wf_index _ _ Hwf _ _ Hn) as [[e He] _]. simpl in He.
    destruct (run_project_volume vd idx mt fs now n e He) as [c Hc].
    eexists. split; [exact Hc|]. split; [done|]. eexists. simpl. rewrite abs_lookup, Hn. simpl.
    by rewrite He. }
  exists out. split; [|done]. unfold list_volumes, page in *.
  destruct (page_bounds _ p tok) as [[start stop] total] eqn:Hb. unfold bind at 1.
  rewrite bind_get. change (name_index s) with idx. rewrite Hb.
  destruct (slice _ start stop); simpl in *; [|done]. simplify_eq.
  by rewrite (bind_done _ _ _ _ _ Hrun).
Qed.

Lemma list_snapshots_reads s v p :
  inv s -> name_index s !! v = Some KVolume ->
  reads (snapshot_item (abs_of s)) (snapshot_names v (name_index s)) p s (list_snapshots v p).
Proof.
  intros [Hwf Hf] Hv tok l next Hpage Hin. destruct s as [vd idx mt [fs f now]].
  simpl in *. subst f. set (s := Engine vd idx mt (Host fs [] now)).
  destruct (project_all_run (snapshot_item (abs fs idx)) project_snapshot s l)
    as (out & Hrun & Hall).
  { intros n Hn. apply Hin, snapshot_names_spec in Hn.
    destruct (wf_index _ _ Hwf _ _ Hn) as [[e He] _]. simpl in He.
    eexists. split; [by apply run_project_snapshot|]. split; [done|]. eexists. simpl.
    rewrite abs_lookup, Hn. simpl. by rewrite He. }
  exists out. split; [|done]. unfold list_snapshots, page in *.
  destruct (page_bounds _ p tok) as [[start stop] total] eqn:Hb.
  rewrite bind_get. change (name_index s) with idx. rewrite decide_True by done. rewrite Hb.
  destruct (slice _ start stop); simpl in *; [|done]. simplify_eq.
  by rewrite (bind_done _ _ _ _ _ Hrun).
Qed.
End listings.

(** Following the page tokens of [list_volumes] lists every volume.  On a
    well-formed engine, for every page size that does not bring the index
    arithmetic to [2^64], the calls end, none of them panics, and together they
    return one item per volume of the store, with its size, in the order of
    the names: the list of names is sorted, has no duplicates and has exactly
    the volumes of the index.  A number of calls one more than the number of
    volumes is always enough. *)
Theorem list_volumes_complete {HE : HostEnv} {HL : HostEnvLaws HE} s p :
  let names := volume_names (name_index s) in
  inv s -> (0 < p)%Z -> (p + Z.of_nat (length names) < 2 ^ 64)%Z ->
  (exists out,
    follow (fun tok => let* r := list_volumes p tok in ret (drop_total r))
      (S (length names)) None s = (Done (Some out), s) /\
    Forall2 (volume_item (abs_of s)) names out) /\
  NoDup names /\ Sorted str_le names /\
  (forall n, n ∈ names <-> name_index s !! n = Some KVolume).
Proof.
  intros names Hinv Hp Hbig. destruct (volume_names_spec (name_index s)) as (Hnd & Hs & Hin).
  split; [|done]. apply (follow_run _ names p s _ Hnd Hp Hbig (list_volumes_reads s p Hinv) _ 0);
    [done|lia|lia].
Qed.

(** The same for [list_snapshots]: the pages of a volume's snapshots, put
    together, are one item per snapshot registered under that volume, with
    its size and origin, in the order of the names. *)
Theorem list_snapshots_complete {HE : HostEnv} {HL : HostEnvLaws HE} s v p :
  let names := snapshot_names v (name_index s) in
  inv s -> name_index s !! v = Some KVolume ->
  (0 < p)%Z -> (p + Z.of_nat (length names) < 2 ^ 64)%Z ->
  (exists out,
    follow (list_snapshots v p) (S (length names)) None s = (Done (Some out), s) /\
    Forall2 (snapshot_item (abs_of s)) names out) /\
  NoDup names /\ Sorted str_le names /\
  (forall n, n ∈ names <-> name_index s !! n = Some (KSnapshot v)).
Proof.
  intros names Hinv Hv Hp Hbig.
  destruct (snapshot_names_spec v (name_index s)) as (Hnd & Hs & Hin).
  split; [|done]. apply (follow_run _ names p s _ Hnd Hp Hbig (list_snapshots_reads s v p Hinv Hv) _ 0);
    [done|lia|lia].
Qed.

(** An engine with three volumes and two snapshots, read in pages of two and
    of one. *)
Definition listing_ops : list op :=
  [CreateVolume "b" 4096; CreateVolume "a" 8192; CreateSnapshot "a" "a2" false;
   CreateVolume "c" 16384; CreateSnapshot "a" "a1" false].
Definition listing_engine : engine :=
  (exec_all (HE := plain_env) listing_ops (fresh_engine "/r/volumes" 5)).2.

Lemma listing_engine_inv : inv listing_engine.
Proof.
  apply (exec_all_refines (HL := plain_env_laws) listing_ops (fresh_engine "/r/volumes" 5)).
  - apply fresh_inv.
  - apply (bool_decide_unpack _). vm_compute. exact I.
Qed.

Lemma list_volumes_complete_witness :
  exists out,
    follow (fun tok => let* r := list_volumes (H := plain_env) 2 tok in ret (drop_total r))
      4 None listing_engine = (Done (Some out), listing_engine) /\
    Forall2 (volume_item (abs_of listing_engine)) ["a"; "b"; "c"] out.
Proof.
  apply (list_volumes_complete (HL := plain_env_laws) listing_engine 2).
  - exact listing_engine_inv.
  - lia.
  - vm_compute. reflexivity.
Defined.

Lemma list_snapshots_complete_witness :
  exists out,
    follow (list_snapshots (H := plain_env) "a" 1) 3 None listing_engine =
      (Done (Some out), listing_engine) /\
    Forall2 (snapshot_item (abs_of listing_engine)) ["a1"; "a2"] out.
Proof.
  apply (list_snapshots_complete (HL := plain_env_laws) listing_engine "a" 1).
  - exact listing_engine_inv.
  - vm_compute. reflexivity.
  - lia.
  - vm_compute. reflexivity.
Defined.

(** A page size near [usize::MAX], which asks for everything, panics as soon
    as it comes with a token: the addition wraps below the start. *)
Lemma list_volumes_huge_page_panics :
  (list_volumes (H := plain_env) USIZE_MAX None listing_engine).1 <> Done None /\
  (list_volumes (H := plain_env) USIZE_MAX (Some "c") listing_engine).1 = Done None.
Proof. split; [vm_compute; congruence|vm_compute; reflexivity]. Qed.
