(* ===== verification/Stream.v ===== *)
(** The host side of a vsock connection: the [Read + Write + AsRawFd] stream
    the connection is generic over, as an interface with the documented
    behaviour of its calls, and a scripted stream on which the models run. *)
From stdpp Require Import gmap strings list.
From S2P Require Import Prelude.

(** Errors of [std::io] as far as the callers tell them apart. *)
Inductive io_error := WouldBlock | IoOther (errno : Z).

#[global] Instance io_error_eq_dec : EqDecision io_error.
Proof. solve_decision. Defined.

(** [write] is given a buffer and answers how much of it was taken; [read] is
    given the length of the buffer and answers the bytes that were put into
    it.  Both may fail, and both may change the stream. *)
Class Stream (St : Type) := {
  stream_write : list Z -> St -> result io_error Z * St;
  stream_read : Z -> St -> result io_error (list Z) * St;
  as_raw_fd : St -> Z;
}.

(** What the connection relies on: a write takes a prefix of its buffer and
    nothing when it fails, a read yields at most as many bytes as the buffer
    has.  [sent] and [received] observe the bytes that went through. *)
Class StreamLaws (St : Type) `{Stream St} := {
  sent : St -> list Z;
  received : St -> list Z;
  write_ok buf s n s' : stream_write buf s = (Ok n, s') ->
    (0 <= n <= Z.of_nat (length buf))%Z /\ sent s' = sent s ++ take (Z.to_nat n) buf /\
    received s' = received s;
  write_err buf s e s' : stream_write buf s = (Err e, s') ->
    sent s' = sent s /\ received s' = received s;
  read_ok n s l s' : (0 <= n)%Z -> stream_read n s = (Ok l, s') ->
    (Z.of_nat (length l) <= n)%Z /\ received s' = received s ++ l /\ sent s' = sent s;
  read_err n s e s' : stream_read n s = (Err e, s') ->
    sent s' = sent s /\ received s' = received s;
}.

(** ** A scripted stream

    Each write takes its answer from a script (when it is empty, everything is
    taken), each read takes the bytes that have arrived. *)
Inductive answer := Take (n : nat) | Refuse (e : io_error).

Record script := Script {
  fd : Z;
  answers : list answer;
  out : list Z;
  arrivals : list (result io_error (list Z));
  taken : list Z;
}.

Definition script_write (buf : list Z) (s : script) : result io_error Z * script :=
  match answers s with
  | Refuse e :: rest => (Err e, Script (fd s) rest (out s) (arrivals s) (taken s))
  | Take n :: rest =>
    (Ok (Z.of_nat (Nat.min n (length buf))),
     Script (fd s) rest (out s ++ take n buf) (arrivals s) (taken s))
  | [] => (Ok (Z.of_nat (length buf)), Script (fd s) [] (out s ++ buf) (arrivals s) (taken s))
  end.

Definition script_read (n : Z) (s : script) : result io_error (list Z) * script :=
  match arrivals s with
  | Err e :: rest => (Err e, Script (fd s) (answers s) (out s) rest (taken s))
  | Ok l :: rest =>
    let now := take (Z.to_nat n) l in
    let later := drop (Z.to_nat n) l in
    (Ok now, Script (fd s) (answers s) (out s)
               (match later with [] => rest | _ => Ok later :: rest end) (taken s ++ now))
  | [] => (Err WouldBlock, s)
  end.

#[global] Instance script_stream : Stream script := {|
  stream_write := script_write;
  stream_read n s := script_read (Z.max 0 n) s;
  as_raw_fd := fd;
|}.

Ltac script_run :=
  cbn in *; unfold script_write, script_read in *; cbn in *; simplify_eq; cbn.

#[global] Program Instance script_laws : StreamLaws script := {|
  sent := out;
  received := taken;
|}.
Next Obligation.
  intros buf [f [|[m|e] a] o r t] n s' Hw; script_run.
  - split; [lia|]. split; [|done]. by rewrite Nat2Z.id, firstn_all.
  - split; [lia|]. split; [|done]. rewrite Nat2Z.id. f_equal.
    destruct (decide (m <= length buf)); [f_equal; lia|]. rewrite !take_ge by lia. done.
Qed.
Next Obligation.
  intros buf [f [|[m|e'] a] o r t] e s' Hw; by script_run.
Qed.
Next Obligation.
  intros n [f a o [|[l'|e] r] t] l s' Hn Hr; script_run.
  split_and!; [|done|done]. rewrite length_take. lia.
Qed.
Next Obligation.
  intros n [f a o [|[l'|e'] r] t] e s' Hr; by script_run.
Qed.
