(* ===== verification/VsockStream.v ===== *)
(** The host-side streams of the vsock backend
    (hypervisor/virtio-devices/src/vsock/unix/stream.rs): a Unix socket, or a
    file passed in by the host together with the control socket it came
    through.  Both behave as a [Stream], and acknowledge a connection. *)
From stdpp Require Import gmap strings pretty list.
From S2P Require Import Prelude Stream.

(** What the multiplexer needs of a stream on top of reading and writing. *)
Class BackendStream (St : Type) := send_connect_ack : Z -> St -> result io_error unit * St.

(** ** [Write::write_all]

    Sockets of this backend do not block, and a call that does not block is
    not interrupted; the retry of the standard library on an interrupted call
    is left out.  Every turn writes at least a byte, so that the length of the
    buffer bounds their number. *)
Definition WriteZero : io_error := IoOther (-1).

Section write_all.
Context {St : Type} `{HS : Stream St}.

Fixpoint write_all_fuel (fuel : nat) (buf : list Z) (s : St) : result io_error unit * St :=
  match buf, fuel with
  | [], _ => (Ok tt, s)
  | _, 0 => (Err WriteZero, s)
  | _, S fuel =>
    match stream_write buf s with
    | (Ok n, s') =>
      if decide (n = 0%Z) then (Err WriteZero, s')
      else write_all_fuel fuel (drop (Z.to_nat n) buf) s'
    | (Err e, s') => (Err e, s')
    end
  end.

Definition write_all (buf : list Z) (s : St) : result io_error unit * St :=
  write_all_fuel (length buf) buf s.
End write_all.

(** ** Labels *)
Inductive PassFdLabel := Stdin | Stdout | Stderr | StreamLabel | Other (s : string).

Definition as_str (l : PassFdLabel) : string :=
  match l with
  | Stdin => "stdin"
  | Stdout => "stdout"
  | Stderr => "stderr"
  | StreamLabel => "stream"
  | Other s => s
  end.

(** [From<&str>] *)
Definition label_from (s : string) : PassFdLabel :=
  if decide (s = "stdin") then Stdin
  else if decide (s = "stdout") then Stdout
  else if decide (s = "stderr") then Stderr
  else if decide (s = "stream") then StreamLabel
  else Other s.

(** [as_bytes] and the two [format!] *)
Fixpoint as_bytes (s : string) : list Z :=
  match s with
  | EmptyString => []
  | String a s => Z.of_N (Ascii.N_of_ascii a) :: as_bytes s
  end.
Definition newline : string := String (Ascii.ascii_of_N 10) EmptyString.
Definition unix_ack (port : Z) : list Z := as_bytes ("OK " +:+ pretty port +:+ newline).
Definition passfd_ack (l : PassFdLabel) (port : Z) : list Z :=
  as_bytes ("OK " +:+ as_str l +:+ " " +:+ pretty port +:+ newline).

(** ** The streams, over the sockets [U] and the files [F] of the host *)
Record PassFdStream (U F : Type) := mkPassFd { file : F; control : U; label : PassFdLabel }.
Arguments mkPassFd {U F}. Arguments file {U F}. Arguments control {U F}. Arguments label {U F}.

Inductive VsockBackendStream (U F : Type) :=
| Unix (s : U)
| PassFd (s : PassFdStream U F).
Arguments Unix {U F}. Arguments PassFd {U F}.

Section backend.
Context {U F : Type} `{HU : Stream U} `{HF : Stream F}.
Abbreviation backend := (VsockBackendStream U F).

Definition with_file (f : F) (p : PassFdStream U F) : PassFdStream U F :=
  mkPassFd f (control p) (label p).

Definition passfd_read (n : Z) (p : PassFdStream U F) : result io_error (list Z) * PassFdStream U F :=
  let '(r, f) := stream_read n (file p) in (r, with_file f p).
Definition passfd_write (buf : list Z) (p : PassFdStream U F) : result io_error Z * PassFdStream U F :=
  let '(r, f) := stream_write buf (file p) in (r, with_file f p).
Definition write_ack (port : Z) (p : PassFdStream U F) : result io_error unit * PassFdStream U F :=
  let '(r, c) := write_all (passfd_ack (label p) port) (control p) in
  (r, mkPassFd (file p) c (label p)).

Definition backend_read (n : Z) (b : backend) : result io_error (list Z) * backend :=
  match b with
  | Unix s => let '(r, s) := stream_read n s in (r, Unix s)
  | PassFd p => let '(r, p) := passfd_read n p in (r, PassFd p)
  end.
Definition backend_write (buf : list Z) (b : backend) : result io_error Z * backend :=
  match b with
  | Unix s => let '(r, s) := stream_write buf s in (r, Unix s)
  | PassFd p => let '(r, p) := passfd_write buf p in (r, PassFd p)
  end.
Definition backend_fd (b : backend) : Z :=
  match b with Unix s => as_raw_fd s | PassFd p => as_raw_fd (file p) end.

Definition backend_send_connect_ack (port : Z) (b : backend) : result io_error unit * backend :=
  match b with
  | Unix s => let '(r, s) := write_all (unix_ack port) s in (r, Unix s)
  | PassFd p => let '(r, p) := write_ack port p in (r, PassFd p)
  end.

#[global] Instance backend_stream : Stream backend := {|
  stream_write := backend_write;
  stream_read := backend_read;
  as_raw_fd := backend_fd;
|}.
#[global] Instance backend_ack : BackendStream backend := backend_send_connect_ack.
End backend.

(** ** What the streams guarantee *)
Section write_all_laws.
Context {St : Type} `{HL : StreamLaws St}.

(** However it ends, [write_all] has written a prefix of its buffer; all of it
    exactly when it succeeds. *)
Lemma write_all_fuel_spec fuel buf (s s' : St) r :
  length buf <= fuel -> write_all_fuel fuel buf s = (r, s') ->
  exists k, sent s' = sent s ++ take k buf /\ k <= length buf /\ received s' = received s /\
            (r = Ok tt -> k = length buf).
Proof.
  revert buf s. induction fuel as [|fuel IH]; intros [|x buf] s Hlen Hrun; cbn [length] in Hlen;
    cbn [write_all_fuel] in Hrun; try lia.
  1,2: simplify_eq; exists 0; cbn; rewrite app_nil_r; split_and!; [done|lia|done|done].
  destruct (stream_write (x :: buf) s) as [[n|e] s1] eqn:Hw.
  - apply write_ok in Hw as (Hn & Hs & Hr). case_decide as Hz.
    + simplify_eq. exists 0. rewrite Hs, Hr. cbn. rewrite !app_nil_r. split_and!; [done|lia|done|done].
    + apply IH in Hrun as (k & Hk & Hle & Hr' & Hok); [|rewrite length_drop; cbn; lia].
      rewrite length_drop in Hle, Hok. exists (Z.to_nat n + k).
      rewrite Hk, Hs, <- app_assoc, take_take_drop, Hr', Hr.
      split_and!; [done|lia|done|]. intros ->. specialize (Hok eq_refl). lia.
  - apply write_err in Hw as [Hs Hr]. simplify_eq. exists 0. rewrite Hs, Hr, app_nil_r. split_and!; [done|lia|done|done].
Qed.

Lemma write_all_spec buf (s s' : St) r :
  write_all buf s = (r, s') ->
  exists k, sent s' = sent s ++ take k buf /\ k <= length buf /\ received s' = received s /\
            (r = Ok tt -> k = length buf).
Proof. by apply write_all_fuel_spec. Qed.
End write_all_laws.

Section backend_laws.
Context {U F : Type} `{HLU : StreamLaws U} `{HLF : StreamLaws F}.
Abbreviation backend := (VsockBackendStream U F).

(** The bytes of a connection: those of the socket, or those of the file. *)
Definition backend_sent (b : backend) : list Z :=
  match b with Unix s => sent s | PassFd p => sent (file p) end.
Definition backend_received (b : backend) : list Z :=
  match b with Unix s => received s | PassFd p => received (file p) end.

Ltac backend_run H :=
  cbn in H; unfold passfd_read, passfd_write in H;
  match type of H with context [stream_write ?b ?s] => destruct (stream_write b s) eqn:?
                     | context [stream_read ?n ?s] => destruct (stream_read n s) eqn:? end;
  simplify_eq; cbn; eauto using write_ok, write_err, read_ok, read_err.

(** A backend stream is a stream when its socket and its file are. *)
#[global] Program Instance backend_laws : StreamLaws backend := {|
  sent := backend_sent;
  received := backend_received;
|}.
Next Obligation. intros buf [s|p] n b' Hop; backend_run Hop. Qed.
Next Obligation. intros buf [s|p] e b' Hop; backend_run Hop. Qed.
Next Obligation. intros n [s|p] l b' Hn Hop; backend_run Hop. Qed.
Next Obligation. intros n [s|p] e b' Hop; backend_run Hop. Qed.

(** Where acknowledgements go, and what they say. *)
Definition ack_socket (b : backend) : U :=
  match b with Unix s => s | PassFd p => control p end.
Definition ack_message (port : Z) (b : backend) : list Z :=
  match b with Unix _ => unix_ack port | PassFd p => passfd_ack (label p) port end.
Definition data_file (b : backend) : option (F * PassFdLabel) :=
  match b with Unix _ => None | PassFd p => Some (file p, label p) end.
End backend_laws.

(** The acknowledgement of a connection reaches the host on the socket
    the request came from: ["OK <port>"] and a newline on the Unix socket, or
    ["OK <label> <port>"] and a newline on the control socket of a passed
    file, whose own data is left alone.  If the call succeeds the whole
    message was written; if it fails, a prefix of it. *)
Theorem ack_delivered {U F} `{HLU : StreamLaws U} `{HLF : StreamLaws F} port
    (b b' : VsockBackendStream U F) r :
  send_connect_ack port b = (r, b') ->
  data_file b' = data_file b /\ received (ack_socket b') = received (ack_socket b) /\
  exists k, sent (ack_socket b') = sent (ack_socket b) ++ take k (ack_message port b) /\
            (r = Ok tt -> take k (ack_message port b) = ack_message port b).
Proof.
  unfold send_connect_ack, backend_ack, backend_send_connect_ack, write_ack.
  destruct b as [s|p]; destruct (write_all _ _) as [r1 s1] eqn:Hw; intros Hack; simplify_eq; cbn;
    apply write_all_spec in Hw as (k & Hs & Hle & Hr & Hok);
    (split_and!; [done|done|]; exists k; split; [done|]; intros ->; apply take_ge; rewrite Hok; done).
Qed.

(** Labels survive the trip through a command. *)
Lemma label_roundtrip s : as_str (label_from s) = s.
Proof. unfold label_from. repeat case_decide; by subst. Qed.

Definition passed_file : VsockBackendStream script script :=
  PassFd (mkPassFd (Script 7 [] [] [] []) (Script 8 [Take 3] [] [] []) Stdout).

Lemma ack_delivered_witness :
  let '(r, b') := send_connect_ack 1025 passed_file in
  r = Ok tt /\ data_file b' = data_file passed_file /\ out (ack_socket b') = as_bytes ("OK stdout 1025" +:+ newline).
Proof.
  destruct (send_connect_ack 1025 passed_file) as [r b'] eqn:H.
  pose proof (ack_delivered (HLU := script_laws) (HLF := script_laws) 1025 passed_file b' r H) as (H1 & _).
  split; [|split; [exact H1|]]; vm_compute in H; injection H as <- <-; reflexivity.
Defined.
