(* ===== verification/VsockTxBuf.v ===== *)
(** The transmit ring buffer of a vsock connection
    (hypervisor/virtio-devices/src/vsock/csm/txbuf.rs): the ring with its
    wrapping 32-bit head and tail, and the proof that it is a bounded queue of
    bytes. *)
From stdpp Require Import gmap strings list list_numbers.
From S2P Require Import Prelude Stream.

(** [Error] of csm/mod.rs. *)
Inductive csm_error :=
| TxBufFull
| TxBufFlush (e : io_error)
| StreamWrite (e : io_error).

Definition CONN_TX_BUF_SIZE : Z := 64 * 1024.

(** [head] and [tail] are [Wrapping<u32>]; the storage is allocated by the
    first push. *)
Record TxBuf := mkTxBuf {
  tb_data : option (list Z);
  tb_head : Z;
  tb_tail : Z;
}.

Definition SIZE : Z := CONN_TX_BUF_SIZE.

Definition txbuf_new : TxBuf := mkTxBuf None 0 0.

Definition txbuf_len (b : TxBuf) : Z := wsub 32 (tb_head b) (tb_tail b).

Definition txbuf_is_empty (b : TxBuf) : bool := bool_decide (txbuf_len b = 0%Z).

(** [data[ofs..ofs + src.len()].copy_from_slice(src)] and [&data[a..b]]; both
    panic out of range. *)
Definition copy_from_slice {S E} (data : list Z) (ofs : Z) (src : list Z) : M S E (list Z) :=
  if decide (Z.to_nat ofs + length src <= length data)
  then ret (list_inserts (Z.to_nat ofs) src data) else crash.

Definition slice_of {S E} (data : list Z) (a b : Z) : M S E (list Z) :=
  if decide (a <= b /\ b <= Z.of_nat (length data))%Z
  then ret (take (Z.to_nat (b - a)) (drop (Z.to_nat a) data)) else crash.

Definition push (src : list Z) : M TxBuf csm_error unit :=
  let* b := get in
  if decide (SIZE < txbuf_len b + Z.of_nat (length src))%Z then throw TxBufFull
  else
    let data := default (replicate (Z.to_nat SIZE) 0%Z) (tb_data b) in
    let head_ofs := (tb_head b mod SIZE)%Z in
    let len := Z.min (SIZE - head_ofs) (Z.of_nat (length src)) in
    let* data := copy_from_slice data head_ofs (take (Z.to_nat len) src) in
    let* data :=
      if decide (len < Z.of_nat (length src))%Z
      then copy_from_slice data 0 (drop (Z.to_nat len) src) else ret data in
    modify (fun b => mkTxBuf (Some data)
                       (wadd 32 (tb_head b) (wrap 32 (Z.of_nat (length src)))) (tb_tail b)).

Section flush.
Context {St : Type} `{HSt : Stream St}.

(** [flush_to] calls itself for the part past the end of the storage. *)
Fixpoint flush_to_fuel (fuel : nat) : M (TxBuf * St) csm_error Z :=
  match fuel with
  | 0 => crash
  | S fuel =>
    let* bs := get in
    let '(b, sink) := bs in
    if txbuf_is_empty b then ret 0%Z
    else
      let tail_ofs := (tb_tail b mod SIZE)%Z in
      let len_to_write := Z.min (SIZE - tail_ofs) (txbuf_len b) in
      match tb_data b with
      | None => crash
      | Some data =>
        let* chunk := slice_of data tail_ofs (tail_ofs + len_to_write) in
        let '(r, sink) := stream_write chunk sink in
        modify (fun bs => (bs.1, sink));;;
        match r with
        | Err e => throw (TxBufFlush e)
        | Ok written =>
          modify (fun bs => (mkTxBuf (tb_data bs.1) (tb_head bs.1)
                               (wadd 32 (tb_tail bs.1) (wrap 32 written)), bs.2));;;
          if decide (written < len_to_write)%Z then ret written
          else
            let* rest := catch (flush_to_fuel fuel) in
            ret (wadd 64 written (match rest with Ok n => n | Err _ => 0%Z end))
        end
      end
  end.

(** Three calls are enough: up to the end of the storage, from its start, and
    one that finds the buffer empty. *)
Definition flush_to : M (TxBuf * St) csm_error Z := flush_to_fuel 3.
End flush.

(** ** The ring as a queue of bytes *)

Definition cell (d : list Z) (pos : Z) : Z := d !!! Z.to_nat (pos mod SIZE).

(** The bytes that have been pushed and not yet flushed, oldest first. *)
Definition contents (b : TxBuf) : list Z :=
  match tb_data b with
  | None => []
  | Some d => (fun i => cell d (tb_tail b + i)) <$> seqZ 0 (txbuf_len b)
  end.

Record txbuf_ok (b : TxBuf) : Prop := {
  ok_head : in_width 32 (tb_head b);
  ok_tail : in_width 32 (tb_tail b);
  ok_len : (txbuf_len b <= SIZE)%Z;
  ok_data : match tb_data b with
            | None => txbuf_len b = 0%Z
            | Some d => Z.of_nat (length d) = SIZE
            end;
}.

Lemma txbuf_new_ok : txbuf_ok txbuf_new.
Proof. by split; vm_compute. Qed.

Lemma txbuf_len_nonneg b : (0 <= txbuf_len b)%Z.
Proof. by apply wrap_in_width. Qed.

Lemma contents_length b : txbuf_ok b -> Z.of_nat (length (contents b)) = txbuf_len b.
Proof.
  intros Hok. pose proof (txbuf_len_nonneg b). pose proof (ok_data _ Hok). unfold contents.
  destruct (tb_data b); simpl; [|lia]. rewrite length_fmap, length_seqZ. lia.
Qed.

Lemma contents_lookup b d i :
  tb_data b = Some d -> (Z.of_nat i < txbuf_len b)%Z ->
  contents b !! i = Some (cell d (tb_tail b + Z.of_nat i)).
Proof.
  intros Hd Hi. unfold contents. rewrite Hd, list_lookup_fmap, lookup_seqZ_lt by lia.
  simpl. by rewrite Z.add_0_l.
Qed.

Lemma cell_lookup d pos :
  Z.of_nat (length d) = SIZE -> d !! Z.to_nat (pos mod SIZE) = Some (cell d pos).
Proof.
  intros Hd. unfold cell. apply list_lookup_lookup_total_lt.
  pose proof (Z.mod_pos_bound pos SIZE eq_refl). lia.
Qed.

Lemma cell_wrap d x y : cell d (wrap 32 x + y) = cell d (x + y).
Proof.
  unfold cell. do 2 f_equal. rewrite <- Zplus_mod_idemp_l.
  change SIZE with (2 ^ 16)%Z. rewrite wrap_mod by lia. apply Zplus_mod_idemp_l.
Qed.

Lemma is_empty_spec b : txbuf_ok b -> txbuf_is_empty b = bool_decide (contents b = []).
Proof.
  intros Hok. apply contents_length in Hok. unfold txbuf_is_empty. apply bool_decide_ext.
  rewrite <- Hok. destruct (contents b); simpl; split; intros; first [done|lia].
Qed.

(** ** Push *)

(** Both copies of [push]; the second one is empty when the slice fits. *)
Definition ring_write (d : list Z) (ofs : Z) (src : list Z) : list Z :=
  let len := Z.to_nat (SIZE - ofs) in
  list_inserts 0 (drop len src) (list_inserts (Z.to_nat ofs) (take len src) d).

Lemma ring_write_length d ofs src : length (ring_write d ofs src) = length d.
Proof. unfold ring_write. by rewrite !length_inserts. Qed.

(** The cell [j] places after [ofs] has the byte [j] of the source. *)
Lemma ring_write_new d ofs src j x :
  Z.of_nat (length d) = SIZE -> (Z.of_nat (length src) <= SIZE)%Z -> src !! j = Some x ->
  cell (ring_write d (ofs mod SIZE) src) (ofs + Z.of_nat j) = x.
Proof.
  intros Hd Hsrc Hj. pose proof (lookup_lt_Some _ _ _ Hj).
  pose proof (Z.mod_pos_bound ofs SIZE eq_refl). unfold cell, ring_write.
  apply list_lookup_total_correct.
  destruct (mod_add_cases ofs (Z.of_nat j) SIZE) as [[-> ?]|[-> ?]]; [done|lia| |].
  - rewrite list_lookup_inserts_ge by (rewrite length_drop; lia).
    rewrite list_lookup_inserts; [|rewrite length_take; lia|lia].
    rewrite lookup_take_lt by lia. rewrite <- Hj. f_equal. lia.
  - rewrite list_lookup_inserts; [|rewrite length_drop; lia|rewrite length_inserts; lia].
    rewrite lookup_drop, <- Hj. f_equal. lia.
Qed.

(** The cells behind [ofs] that the source does not reach are kept. *)
Lemma ring_write_old d t i n src :
  Z.of_nat (length d) = SIZE -> (0 <= i < n)%Z -> (n + Z.of_nat (length src) <= SIZE)%Z ->
  cell (ring_write d ((t + n) mod SIZE) src) (t + i) = cell d (t + i).
Proof.
  intros Hd Hi Hfit. pose proof (Z.mod_pos_bound t SIZE eq_refl).
  pose proof (Z.mod_pos_bound (t + n) SIZE eq_refl). unfold cell.
  rewrite !list_lookup_total_alt. f_equal. unfold ring_write.
  destruct (mod_add_cases t i SIZE) as [[Hpi ?]|[Hpi ?]]; [done|lia| |];
  destruct (mod_add_cases t n SIZE) as [[Hpn ?]|[Hpn ?]]; try done; try lia;
  rewrite Hpi, Hpn;
  rewrite list_lookup_inserts_ge by (rewrite length_drop; lia);
  first [rewrite list_lookup_inserts_lt by lia; done
        |rewrite list_lookup_inserts_ge by (rewrite length_take; lia); done].
Qed.

Lemma push_copies {S E} d ofs src (s : S) :
  Z.of_nat (length d) = SIZE -> (0 <= ofs < SIZE)%Z -> (Z.of_nat (length src) <= SIZE)%Z ->
  let len := Z.min (SIZE - ofs) (Z.of_nat (length src)) in
  (let* data := copy_from_slice (E := E) d ofs (take (Z.to_nat len) src) in
   if decide (len < Z.of_nat (length src))%Z
   then copy_from_slice data 0 (drop (Z.to_nat len) src) else ret data) s =
  (Done (ring_write d ofs src), s).
Proof.
  intros Hd Hofs Hsrc len. unfold copy_from_slice at 1.
  rewrite decide_True by (rewrite length_take; lia). rewrite bind_ret.
  unfold ring_write. case_decide as Hlt.
  - unfold copy_from_slice. rewrite decide_True by (rewrite length_inserts, length_drop; lia).
    unfold ret. do 4 f_equal; f_equal; f_equal; lia.
  - unfold ret. do 2 f_equal. rewrite !take_ge, drop_ge by lia. done.
Qed.

Definition pushed (src : list Z) (b : TxBuf) : TxBuf :=
  mkTxBuf (Some (ring_write (default (replicate (Z.to_nat SIZE) 0%Z) (tb_data b))
                   (tb_head b mod SIZE) src))
    (wadd 32 (tb_head b) (wrap 32 (Z.of_nat (length src)))) (tb_tail b).

Lemma storage_length b :
  txbuf_ok b ->
  Z.of_nat (length (default (replicate (Z.to_nat SIZE) 0%Z) (tb_data b))) = SIZE.
Proof.
  intros Hok. pose proof (ok_data _ Hok) as Hd. destruct (tb_data b); [exact Hd|].
  unfold from_option. rewrite length_replicate. by apply Z2Nat.id.
Qed.

Lemma push_run src b :
  txbuf_ok b ->
  push src b = if decide (SIZE < txbuf_len b + Z.of_nat (length src))%Z
               then (Fail TxBufFull, b) else (Done tt, pushed src b).
Proof.
  intros Hok. unfold push. rewrite bind_get. case_decide as Hfull; [done|].
  pose proof (txbuf_len_nonneg b). pose proof (Z.mod_pos_bound (tb_head b) SIZE eq_refl).
  pose proof (storage_length b Hok) as Hd. unfold pushed.
  generalize dependent (default (replicate (Z.to_nat SIZE) 0%Z) (tb_data b)). intros d Hd.
  rewrite <- bind_assoc.
  rewrite (bind_done _ _ _ _ _ (push_copies d _ src b Hd ltac:(done) ltac:(lia))). done.
Qed.

Lemma head_tail b : in_width 32 (tb_head b) -> tb_head b = wrap 32 (tb_tail b + txbuf_len b).
Proof.
  intros Hh. unfold txbuf_len, wsub. rewrite <- (wrap_small 32 (tb_head b)) at 1 by done.
  unfold wrap. rewrite Zplus_mod_idemp_r. f_equal. lia.
Qed.

Lemma pushed_len src b :
  (txbuf_len b + Z.of_nat (length src) <= SIZE)%Z ->
  txbuf_len (pushed src b) = (txbuf_len b + Z.of_nat (length src))%Z.
Proof.
  intros Hfit. pose proof (txbuf_len_nonneg b).
  rewrite <- (wrap_small 32 (txbuf_len b + _)) by (unfold in_width, SIZE, CONN_TX_BUF_SIZE in *; lia).
  unfold txbuf_len, pushed, wsub, wadd, wrap. cbn [tb_head tb_tail].
  rewrite Zplus_mod_idemp_r, Zminus_mod_idemp_l, Zplus_mod_idemp_l. f_equal. lia.
Qed.

Lemma pushed_ok src b :
  txbuf_ok b -> (txbuf_len b + Z.of_nat (length src) <= SIZE)%Z -> txbuf_ok (pushed src b).
Proof.
  intros Hok Hfit. split.
  - by apply wrap_in_width.
  - apply Hok.
  - by rewrite pushed_len.
  - unfold pushed. cbn [tb_data]. rewrite ring_write_length. by apply storage_length.
Qed.

Lemma contents_pushed src b :
  txbuf_ok b -> (txbuf_len b + Z.of_nat (length src) <= SIZE)%Z ->
  contents (pushed src b) = contents b ++ src.
Proof.
  intros Hok Hfit. pose proof (contents_length b Hok) as Hlen.
  pose proof (contents_length _ (pushed_ok _ _ Hok Hfit)) as Hlen'.
  rewrite pushed_len in Hlen' by done. pose proof (storage_length b Hok) as Hd.
  pose proof (head_tail b (ok_head _ Hok)) as Hh. pose proof (txbuf_len_nonneg b).
  apply list_eq_same_length with (n := length (contents b ++ src));
    [done|rewrite length_app; lia|].
  intros i x y Hi Hx Hy. rewrite length_app in Hi.
  erewrite contents_lookup in Hx; [|done|rewrite pushed_len; lia]. simplify_eq.
  cbn [pushed tb_tail tb_head]. destruct (decide (i < length (contents b))) as [Hlt|Hge].
  - rewrite lookup_app_l in Hy by done. unfold pushed. cbn [tb_tail].
    assert (tb_head b mod SIZE = (tb_tail b + txbuf_len b) mod SIZE)%Z as ->.
    { rewrite Hh. change SIZE with (2 ^ 16)%Z. apply wrap_mod. lia. }
    rewrite ring_write_old; [|done|lia|done].
    destruct (tb_data b) as [d|] eqn:Hdat.
    + erewrite contents_lookup in Hy; [|done|lia]. by simplify_eq.
    + unfold contents in Hlt. rewrite Hdat in Hlt. simpl in Hlt. lia.
  - rewrite lookup_app_r in Hy by lia. unfold pushed. cbn [tb_tail].
    rewrite <- (ring_write_new _ (tb_head b) src _ _ Hd ltac:(lia) Hy).
    rewrite Hh at 3. rewrite cell_wrap. f_equal. lia.
Qed.

(** ** Flush *)
Definition advanced (k : Z) (b : TxBuf) : TxBuf :=
  mkTxBuf (tb_data b) (tb_head b) (wadd 32 (tb_tail b) (wrap 32 k)).

Lemma advanced_0 b : txbuf_ok b -> advanced 0 b = b.
Proof.
  intros Hok. destruct b as [d h t]. unfold advanced, wadd. cbn [tb_data tb_head tb_tail].
  rewrite Z.add_0_r, wrap_small; [done|]. apply (ok_tail _ Hok).
Qed.

Lemma advanced_add k1 k2 b : advanced k2 (advanced k1 b) = advanced (k1 + k2) b.
Proof.
  unfold advanced. cbn [tb_data tb_head tb_tail]. f_equal. rewrite !wadd_wrap_r.
  unfold wadd at 2. rewrite wadd_wrap_l. unfold wadd. f_equal. lia.
Qed.

Lemma advanced_len k b :
  (0 <= k <= txbuf_len b)%Z -> txbuf_len (advanced k b) = (txbuf_len b - k)%Z.
Proof.
  intros Hk. assert (txbuf_len b < 2 ^ 32)%Z by by apply wrap_in_width.
  rewrite <- (wrap_small 32 (txbuf_len b - k)) by (unfold in_width; lia).
  unfold txbuf_len, advanced, wsub, wadd, wrap. cbn [tb_head tb_tail].
  rewrite Zplus_mod_idemp_r, Zminus_mod_idemp_r, Zminus_mod_idemp_l. f_equal. lia.
Qed.

Lemma advanced_ok k b : txbuf_ok b -> (0 <= k <= txbuf_len b)%Z -> txbuf_ok (advanced k b).
Proof.
  intros Hok Hk. pose proof (ok_len _ Hok). split.
  - apply Hok.
  - by apply wrap_in_width.
  - rewrite advanced_len by done. lia.
  - pose proof (ok_data _ Hok) as Hd. rewrite advanced_len by done. cbn [advanced tb_data].
    destruct (tb_data b); [done|lia].
Qed.

Lemma contents_advanced k b :
  txbuf_ok b -> (0 <= k <= txbuf_len b)%Z ->
  contents (advanced k b) = drop (Z.to_nat k) (contents b).
Proof.
  intros Hok Hk. pose proof (contents_length b Hok) as Hlen.
  pose proof (contents_length _ (advanced_ok _ _ Hok Hk)) as Hlen'.
  rewrite advanced_len in Hlen' by done.
  apply list_eq_same_length with (n := length (contents (advanced k b)));
    [rewrite length_drop; lia|done|].
  intros i x y Hi Hx Hy. rewrite lookup_drop in Hy.
  destruct (tb_data b) as [d|] eqn:Hd.
  - erewrite contents_lookup in Hx; [|done|rewrite advanced_len; lia].
    erewrite contents_lookup in Hy; [|done|lia]. simplify_eq.
    cbn [advanced tb_tail]. unfold wadd. rewrite cell_wrap, <- Z.add_assoc, Z.add_comm.
    rewrite <- Z.add_assoc, cell_wrap. f_equal. lia.
  - unfold contents in Hx. cbn [advanced tb_data] in Hx. by rewrite Hd in Hx.
Qed.

(** The bytes from the tail to the end of the storage or to the head. *)
Lemma chunk_contents {S E} b d (s : S) :
  txbuf_ok b -> tb_data b = Some d ->
  let tail_ofs := (tb_tail b mod SIZE)%Z in
  let len := Z.min (SIZE - tail_ofs) (txbuf_len b) in
  slice_of (E := E) d tail_ofs (tail_ofs + len) s = (Done (take (Z.to_nat len) (contents b)), s).
Proof.
  intros Hok Hd tail_ofs len. pose proof (ok_data _ Hok) as Hlen. rewrite Hd in Hlen.
  pose proof (Z.mod_pos_bound (tb_tail b) SIZE eq_refl) as Hofs. fold tail_ofs in Hofs.
  pose proof (contents_length b Hok) as Hc. pose proof (txbuf_len_nonneg b).
  unfold slice_of. rewrite decide_True by lia. unfold ret. do 2 f_equal.
  apply list_eq_same_length with (n := Z.to_nat len);
    [rewrite length_take; lia|rewrite length_take, length_drop; lia|].
  intros i x y Hi Hx Hy. rewrite lookup_take_lt in Hx, Hy by lia.
  rewrite lookup_drop in Hx. erewrite contents_lookup in Hy; [|done|lia]. simplify_eq.
  unfold cell. symmetry. apply list_lookup_total_correct. rewrite <- Hx. f_equal.
  destruct (mod_add_cases (tb_tail b) (Z.of_nat i) SIZE) as [[-> ?]|[-> ?]];
    [done|unfold len in *; lia..].
Qed.

Section flush_proof.
Context {St : Type} `{HL : StreamLaws St}.

(** The run [m] took [k] bytes out of the buffer [b] into the stream [s]. *)
Definition flushed (b : TxBuf) (s : St) (m : outcome csm_error Z * (TxBuf * St)) (k : Z) : Prop :=
  exists s', m.2 = (advanced k b, s') /\ (0 <= k <= txbuf_len b)%Z /\
    sent s' = sent s ++ take (Z.to_nat k) (contents b) /\ received s' = received s /\
    (m.1 = Done k \/ k = 0%Z /\ exists e, m.1 = Fail (TxBufFlush e)).

(** How many calls of itself a flush needs at most. *)
Definition calls (b : TxBuf) : nat :=
  if txbuf_is_empty b then 1
  else if decide (tb_tail b mod SIZE + txbuf_len b <= SIZE)%Z then 2 else 3.

Lemma flushed_nothing b s r :
  txbuf_ok b -> r = Done 0%Z \/ (exists e, r = Fail (TxBufFlush e)) -> 
  flushed b s (r, (b, s)) 0.
Proof.
  intros Hok Hr. exists s. rewrite advanced_0 by done. pose proof (txbuf_len_nonneg b).
  rewrite app_nil_r. destruct Hr; auto 10 with lia.
Qed.

(** The rest of a flush after a first write that took everything it was given. *)
Lemma calls_advanced b :
  txbuf_ok b -> txbuf_is_empty b = false ->
  let len := Z.min (SIZE - tb_tail b mod SIZE) (txbuf_len b) in
  calls (advanced len b) < calls b.
Proof.
  intros Hok He len. pose proof (Z.mod_pos_bound (tb_tail b) SIZE eq_refl).
  pose proof (txbuf_len_nonneg b). unfold calls at 2. rewrite He. unfold calls, txbuf_is_empty.
  rewrite advanced_len by lia. cbn [advanced tb_tail].
  assert ((wadd 32 (tb_tail b) (wrap 32 len)) mod SIZE = (tb_tail b + len) mod SIZE)%Z as ->.
  { rewrite wadd_wrap_r. change SIZE with (2 ^ 16)%Z. apply wrap_mod. lia. }
  pose proof (ok_len _ Hok).
  destruct (mod_add_cases (tb_tail b) len SIZE) as [[-> ?]|[-> ?]]; [done|lia| |];
    repeat case_decide; repeat case_bool_decide; lia.
Qed.

Lemma flushed_more b s s1 len (m : outcome csm_error Z * (TxBuf * St)) k :
  txbuf_ok b -> (0 <= len <= txbuf_len b)%Z ->
  sent s1 = sent s ++ take (Z.to_nat len) (contents b) -> received s1 = received s ->
  flushed (advanced len b) s1 m k ->
  flushed b s (Done (wadd 64 len k), m.2) (len + k).
Proof.
  intros Hok Hlen Hs Hr (s2 & Hst & Hk & Hs2 & Hr2 & _). pose proof (ok_len _ Hok).
  rewrite advanced_len in Hk by done. rewrite contents_advanced in Hs2 by done.
  exists s2. rewrite Hst, advanced_add. cbn [fst snd]. split_and!; [done|lia|lia| |congruence|].
  - rewrite Hs2, Hs, <- app_assoc, take_take_drop. do 2 f_equal. lia.
  - left. f_equal. apply wadd_small. unfold in_width, SIZE, CONN_TX_BUF_SIZE in *. lia.
Qed.

Lemma flush_fuel_spec fuel b s :
  txbuf_ok b -> calls b <= fuel -> exists k, flushed b s (flush_to_fuel fuel (b, s)) k.
Proof.
  revert b s. induction fuel as [|fuel IH]; intros b s Hok Hfuel.
  { unfold calls in Hfuel. repeat case_match; lia. }
  cbn [flush_to_fuel]. rewrite bind_get. destruct (txbuf_is_empty b) eqn:He.
  { exists 0%Z. apply flushed_nothing; auto. }
  pose proof (calls_advanced b Hok He) as Hcalls. cbv zeta in Hcalls.
  set (len := Z.min _ (txbuf_len b)) in *.
  pose proof (ok_data _ Hok) as Hd. pose proof (contents_length b Hok) as Hc.
  pose proof (ok_len _ Hok). pose proof (Z.mod_pos_bound (tb_tail b) SIZE eq_refl).
  pose proof (txbuf_len_nonneg b).
  destruct (tb_data b) as [d|] eqn:Hdat.
  2: { unfold txbuf_is_empty in He. by rewrite Hd in He. }
  rewrite (bind_done _ _ _ _ _ (chunk_contents b d (b, s) Hok Hdat)). fold len.
  destruct (stream_write _ s) as [[w|e] s1] eqn:Hw; rewrite bind_modify; cbn [fst snd].
  2: { apply write_err in Hw as [Hs Hr]. exists 0%Z. exists s1. rewrite advanced_0 by done.
       rewrite app_nil_r. eauto 10 with lia. }
  apply write_ok in Hw as ([Hw0 Hw1] & Hs & Hr). rewrite length_take in Hw1.
  rewrite take_take in Hs. replace (Z.to_nat w `min` Z.to_nat len) with (Z.to_nat w) in Hs by lia.
  rewrite bind_modify. cbn [fst snd]. fold (advanced w b). case_decide as Hlt.
  { exists w, s1. split_and!; try done; [lia|by left]. }
  assert (w = len) as -> by lia.
  destruct (IH (advanced len b) s1) as (k & Hk); [apply advanced_ok; [done|lia]|lia|].
  exists (len + k)%Z. pose proof (flushed_more b s s1 len _ k Hok ltac:(lia) Hs Hr Hk) as Hmore.
  destruct Hk as (s2 & _ & _ & _ & _ & Hout). unfold bind, catch.
  destruct (flush_to_fuel fuel _) as [r st]. cbn [fst snd] in *.
  destruct Hout as [->|[-> [e ->]]]; exact Hmore.
Qed.

(** A flush never panics, ends, and moves some number of bytes, from the front
    of the queue to the stream; it fails only without having moved any. *)
Lemma flush_spec b s : txbuf_ok b -> exists k, flushed b s (flush_to (b, s)) k.
Proof.
  intros Hok. apply flush_fuel_spec; [done|]. unfold calls. repeat case_match; lia.
Qed.
End flush_proof.

(** ** Any use of the buffer *)
Inductive tx_op := Push (src : list Z) | Flush.

Section run.
Context {St : Type} `{HS : Stream St}.

(** The bytes whose push was accepted, and the state at the end; [None] is a
    panic. *)
Fixpoint tx_run (ops : list tx_op) (b : TxBuf) (s : St) : option (list Z * (TxBuf * St)) :=
  match ops with
  | [] => Some ([], (b, s))
  | Push src :: rest =>
    match push src b with
    | (Done _, b') => '(acc, st) ← tx_run rest b' s; Some (src ++ acc, st)
    | (Fail _, b') => tx_run rest b' s
    | (Crashed, _) => None
    end
  | Flush :: rest =>
    match flush_to (b, s) with
    | (Crashed, _) => None
    | (_, (b', s')) => tx_run rest b' s'
    end
  end.
End run.

Lemma tx_run_spec {St} `{HL : StreamLaws St} ops b (s : St) :
  txbuf_ok b ->
  exists acc b' s', tx_run ops b s = Some (acc, (b', s')) /\ txbuf_ok b' /\
    sent s' ++ contents b' = sent s ++ contents b ++ acc.
Proof.
  revert b s. induction ops as [|[src|] ops IH]; intros b s Hok; cbn [tx_run].
  - exists [], b, s. by rewrite app_nil_r.
  - rewrite push_run by done. case_decide as Hfull; [by apply IH|].
    destruct (IH (pushed src b) s) as (acc & b' & s' & -> & Hok' & Heq);
      [apply pushed_ok; [done|lia]|].
    exists (src ++ acc), b', s'. split_and!; [done|done|].
    rewrite Heq, contents_pushed by (done || lia). by rewrite <- app_assoc.
  - destruct (flush_spec b s Hok) as (k & s1 & Hst & Hk & Hs & _ & Hout).
    destruct (flush_to (b, s)) as [r st]. cbn [fst snd] in *. subst st.
    destruct (IH (advanced k b) s1) as (acc & b' & s' & Hrun & Hok' & Heq);
      [by apply advanced_ok|].
    exists acc, b', s'. rewrite Hs, contents_advanced in Heq by done.
    rewrite <- !app_assoc in Heq. rewrite (app_assoc (take _ _)), take_drop in Heq.
    destruct Hout as [->|[_ [e ->]]]; done.
Qed.

(** C31: The transmit buffer is a queue.  Whatever sequence of pushes and
    flushes is made on a new buffer, with whatever short writes and errors the
    stream answers, nothing panics, and the bytes written to the stream
    followed by those still in the buffer are exactly the bytes of the
    accepted pushes, in order: none is lost, repeated or reordered, including
    across the end of the storage and across the wrap of the 32-bit offsets. *)
Theorem txbuf_is_queue {St} `{HL : StreamLaws St} ops (s : St) :
  exists acc b' s', tx_run ops txbuf_new s = Some (acc, (b', s')) /\
    (txbuf_len b' <= SIZE)%Z /\ sent s' ++ contents b' = sent s ++ acc.
Proof.
  destruct (tx_run_spec ops txbuf_new s txbuf_new_ok) as (acc & b' & s' & Hrun & Hok & Heq).
  exists acc, b', s'. split_and!; [done|apply Hok|exact Heq].
Qed.

(** A push is accepted exactly when the buffer has room for all of it;
    then the bytes are appended, otherwise [TxBufFull] is reported and the
    buffer is unchanged.  The buffer may start at any offsets. *)
Theorem push_all_or_nothing b src :
  txbuf_ok b ->
  (Z.of_nat (length (contents b) + length src) <= SIZE ->
   exists b', push src b = (Done tt, b') /\ txbuf_ok b' /\ contents b' = contents b ++ src)%Z /\
  (SIZE < Z.of_nat (length (contents b) + length src) -> push src b = (Fail TxBufFull, b))%Z.
Proof.
  intros Hok. pose proof (contents_length b Hok). rewrite push_run by done. split; intros Hfit.
  - exists (pushed src b). rewrite decide_False by lia.
    split_and!; [done|apply pushed_ok; [done|lia]|apply contents_pushed; [done|lia]].
  - by rewrite decide_True by lia.
Qed.

(** A buffer whose offsets are about to wrap around [2^32] and whose storage
    is about to wrap, too. *)
Definition wrapping_buf : TxBuf :=
  mkTxBuf (Some (replicate (Z.to_nat SIZE) 7%Z)) (2 ^ 32 - 1) (2 ^ 32 - 3).

Lemma wrapping_buf_ok : txbuf_ok wrapping_buf.
Proof. by split; vm_compute. Qed.

Lemma push_all_or_nothing_witness :
  exists b', push [1; 2; 3]%Z wrapping_buf = (Done tt, b') /\ txbuf_ok b' /\
    contents b' = contents wrapping_buf ++ [1; 2; 3]%Z.
Proof.
  apply (push_all_or_nothing wrapping_buf [1; 2; 3]%Z wrapping_buf_ok). vm_compute. congruence.
Defined.

(** Short writes and an error in the middle. *)
Definition example_stream : script := Script 9 [Take 2; Refuse WouldBlock; Take 1] [] [] [].

Lemma txbuf_is_queue_witness :
  exists acc b' s',
    tx_run [Push [1; 2; 3]%Z; Flush; Push [4]%Z; Flush; Flush; Push [5]%Z] txbuf_new
      example_stream = Some (acc, (b', s')) /\
    (txbuf_len b' <= SIZE)%Z /\ sent s' ++ contents b' = sent example_stream ++ acc.
Proof. apply (txbuf_is_queue (HL := script_laws)). Defined.
