(* ===== verification/VsockPacket.v ===== *)
(** The vsock packet (hypervisor/virtio-devices/src/vsock/packet.rs): the
    44-byte little-endian header with its getters and setters, and the
    construction of a packet from a chain of virtio descriptors. *)
From stdpp Require Import gmap strings list.
From S2P Require Import Prelude Bytes Virtqueue.

(** ** Constants of vsock/mod.rs and packet.rs *)
Definition MAX_PKT_BUF_SIZE : Z := 64 * 1024.
Definition VSOCK_OP_INVALID : Z := 0.
Definition VSOCK_OP_REQUEST : Z := 1.
Definition VSOCK_OP_RESPONSE : Z := 2.
Definition VSOCK_OP_RST : Z := 3.
Definition VSOCK_OP_SHUTDOWN : Z := 4.
Definition VSOCK_OP_RW : Z := 5.
Definition VSOCK_OP_CREDIT_UPDATE : Z := 6.
Definition VSOCK_OP_CREDIT_REQUEST : Z := 7.
Definition VSOCK_FLAGS_SHUTDOWN_RCV : Z := 1.
Definition VSOCK_FLAGS_SHUTDOWN_SEND : Z := 2.
Definition VSOCK_TYPE_STREAM : Z := 1.
Definition VSOCK_TYPE_SEQPACKET : Z := 2.
Definition VSOCK_HOST_CID : Z := 2.

Inductive VsockError :=
| BufDescTooSmall
| BufDescMissing
| GuestMemory
| GuestMemoryBounds
| HdrDescTooSmall (len : Z)
| HdrDescMissing
| InvalidPktLen (len : Z)
| NoData
| PktBufMissing
| UnreadableDescriptor
| UnwritableDescriptor.

Definition VSOCK_PKT_HDR_SIZE : nat := 44.

(** A field of the header: the offset ([HDROFF_*]) and the width in bytes of
    the accessor that reads it. *)
Record field := Field { f_ofs : nat; f_width : nat }.
Definition HDROFF_SRC_CID := Field 0 8.
Definition HDROFF_DST_CID := Field 8 8.
Definition HDROFF_SRC_PORT := Field 16 4.
Definition HDROFF_DST_PORT := Field 20 4.
Definition HDROFF_LEN := Field 24 4.
Definition HDROFF_TYPE := Field 28 2.
Definition HDROFF_OP := Field 30 2.
Definition HDROFF_FLAGS := Field 32 4.
Definition HDROFF_BUF_ALLOC := Field 36 4.
Definition HDROFF_FWD_CNT := Field 40 4.

(** ** The packet

    The header and the buffer are slices of guest memory; [buf_size] is the
    length of the buffer. *)
Record VsockPacket := mkPkt { pk_hdr : list Z; pk_buf : option (list Z) }.

Definition hdr_get (f : field) (pkt : VsockPacket) : Z :=
  le_value (take (f_width f) (drop (f_ofs f) (pk_hdr pkt))).
Definition hdr_set (f : field) (v : Z) (pkt : VsockPacket) : VsockPacket :=
  mkPkt (list_inserts (f_ofs f) (le_bytes (f_width f) v) (pk_hdr pkt)) (pk_buf pkt).

Definition src_cid := hdr_get HDROFF_SRC_CID.
Definition set_src_cid := hdr_set HDROFF_SRC_CID.
Definition dst_cid := hdr_get HDROFF_DST_CID.
Definition set_dst_cid := hdr_set HDROFF_DST_CID.
Definition src_port := hdr_get HDROFF_SRC_PORT.
Definition set_src_port := hdr_set HDROFF_SRC_PORT.
Definition dst_port := hdr_get HDROFF_DST_PORT.
Definition set_dst_port := hdr_set HDROFF_DST_PORT.
Definition pkt_len := hdr_get HDROFF_LEN.
Definition pkt_is_empty (pkt : VsockPacket) : bool := bool_decide (pkt_len pkt = 0%Z).
Definition set_len := hdr_set HDROFF_LEN.
Definition type_ := hdr_get HDROFF_TYPE.
Definition set_type := hdr_set HDROFF_TYPE.
Definition pkt_op := hdr_get HDROFF_OP.
Definition set_op := hdr_set HDROFF_OP.
Definition flags := hdr_get HDROFF_FLAGS.
Definition set_flags := hdr_set HDROFF_FLAGS.
Definition set_flag (flag : Z) (pkt : VsockPacket) : VsockPacket :=
  set_flags (Z.lor (flags pkt) flag) pkt.
Definition buf_alloc := hdr_get HDROFF_BUF_ALLOC.
Definition set_buf_alloc := hdr_set HDROFF_BUF_ALLOC.
Definition pkt_fwd_cnt := hdr_get HDROFF_FWD_CNT.
Definition set_fwd_cnt := hdr_set HDROFF_FWD_CNT.

(** [for b in pkt.hdr_mut() { *b = 0 }] *)
Definition zero_hdr (pkt : VsockPacket) : VsockPacket :=
  mkPkt (replicate VSOCK_PKT_HDR_SIZE 0%Z) (pk_buf pkt).

(** [VirtioVsockHdr::from_slice], the decoded header; it only appears in log
    lines. *)
Record VirtioVsockHdr := mkHdr {
  h_src_cid : Z;
  h_dst_cid : Z;
  h_src_port : Z;
  h_dst_port : Z;
  h_len : Z;
  h_type_field : Z;
  h_op : Z;
  h_flags : Z;
  h_buf_alloc : Z;
  h_fwd_cnt : Z;
}.

Definition from_slice (data : list Z) : option VirtioVsockHdr :=
  let at_ := fun f => hdr_get f (mkPkt data None) in
  Some (mkHdr (at_ HDROFF_SRC_CID) (at_ HDROFF_DST_CID) (at_ HDROFF_SRC_PORT)
    (at_ HDROFF_DST_PORT) (at_ HDROFF_LEN) (at_ HDROFF_TYPE) (at_ HDROFF_OP) (at_ HDROFF_FLAGS)
    (at_ HDROFF_BUF_ALLOC) (at_ HDROFF_FWD_CNT)).

(** ** Packets from descriptor chains *)
(** Guest memory and address translation: [mem_range addr size] is
    [get_host_address_range], the bytes at [addr] when the range is mapped;
    [translate_gva] is the translation of the access platform, whose failure
    is unwrapped. *)
Class GuestMem := {
  mem_range : Z -> Z -> option (list Z);
  translate_gva : Z -> Z -> option Z;
}.
Class GuestMemLaws (GM : GuestMem) : Prop :=
  mem_range_length a n l : mem_range a n = Some l -> (0 <= n)%Z -> Z.of_nat (length l) = n.

Section chain.
Context {GM : GuestMem}.

(** A chain yields its descriptors one by one. *)
Abbreviation Chain := (M (list descriptor) VsockError).

Definition next_or (e : VsockError) : Chain descriptor :=
  let* chain := get in
  match chain with
  | [] => throw e
  | d :: rest => modify (fun _ => rest);;; ret d
  end.

Definition host_range (addr size : Z) : Chain (list Z) :=
  match translate_gva addr size with
  | None => crash
  | Some a => match mem_range a size with None => throw GuestMemory | Some l => ret l end
  end.

(** [head.addr().checked_add(VSOCK_PKT_HDR_SIZE as u64).unwrap()] *)
Definition after_hdr (addr : Z) : Chain Z :=
  match checked_add 64 addr (Z.of_nat VSOCK_PKT_HDR_SIZE) with None => crash | Some a => ret a end.

Definition HDR_SIZE : Z := Z.of_nat VSOCK_PKT_HDR_SIZE.

Definition from_tx_virtq_head : Chain VsockPacket :=
  let* head := next_or HdrDescMissing in
  if d_write_only head then throw UnreadableDescriptor
  else if decide (d_len head < HDR_SIZE)%Z then throw (HdrDescTooSmall (d_len head))
  else
    let* hdr := host_range (d_addr head) HDR_SIZE in
    let pkt := mkPkt hdr None in
    if pkt_is_empty pkt then ret pkt
    else if decide (MAX_PKT_BUF_SIZE < pkt_len pkt)%Z then throw (InvalidPktLen (pkt_len pkt))
    else if d_has_next head then
      let* buf_desc := next_or BufDescMissing in
      if d_write_only buf_desc then throw UnreadableDescriptor
      else if decide (d_len buf_desc < pkt_len pkt)%Z then throw BufDescTooSmall
      else
        let* buf := host_range (d_addr buf_desc) (d_len buf_desc) in
        ret (mkPkt hdr (Some buf))
    else
      let buf_size := (d_len head - HDR_SIZE)%Z in
      let* addr := after_hdr (d_addr head) in
      let* buf := host_range addr buf_size in
      ret (mkPkt hdr (Some buf)).

Definition from_rx_virtq_head : Chain VsockPacket :=
  let* head := next_or HdrDescMissing in
  if negb (d_write_only head) then throw UnwritableDescriptor
  else if decide (d_len head < HDR_SIZE)%Z then throw (HdrDescTooSmall (d_len head))
  else if d_has_next head then
    let* buf_desc := next_or BufDescMissing in
    let* hdr := host_range (d_addr head) HDR_SIZE in
    let* buf := host_range (d_addr buf_desc) (d_len buf_desc) in
    ret (mkPkt hdr (Some buf))
  else
    let buf_size := (d_len head - HDR_SIZE)%Z in
    let* hdr := host_range (d_addr head) HDR_SIZE in
    let* addr := after_hdr (d_addr head) in
    let* buf := host_range addr buf_size in
    ret (mkPkt hdr (Some buf)).
End chain.

(** ** Header fields *)
Definition all_fields : list field :=
  [HDROFF_SRC_CID; HDROFF_DST_CID; HDROFF_SRC_PORT; HDROFF_DST_PORT; HDROFF_LEN; HDROFF_TYPE;
   HDROFF_OP; HDROFF_FLAGS; HDROFF_BUF_ALLOC; HDROFF_FWD_CNT].

#[global] Instance field_eq_dec : EqDecision field.
Proof. solve_decision. Defined.

Definition hdr_ok (pkt : VsockPacket) : Prop := length (pk_hdr pkt) = VSOCK_PKT_HDR_SIZE.

(** The fields do not overlap and lie inside the header. *)
Definition apart (f g : field) : Prop :=
  f_ofs f + f_width f <= f_ofs g \/ f_ofs g + f_width g <= f_ofs f.

Lemma fields_apart f g : f ∈ all_fields -> g ∈ all_fields -> f = g \/ apart f g.
Proof.
  intros Hf Hg. revert g Hg. apply Forall_forall. revert f Hf. apply Forall_forall.
  apply (bool_decide_unpack _). vm_compute. exact I.
Qed.

Lemma field_inside f : f ∈ all_fields -> f_ofs f + f_width f <= VSOCK_PKT_HDR_SIZE.
Proof. revert f. apply Forall_forall. apply (bool_decide_unpack _). vm_compute. exact I. Qed.

Lemma hdr_set_ok f v pkt : hdr_ok pkt -> hdr_ok (hdr_set f v pkt).
Proof. unfold hdr_ok, hdr_set. simpl. by rewrite length_inserts. Qed.

Lemma zero_hdr_ok pkt : hdr_ok (zero_hdr pkt).
Proof. done. Qed.

Lemma hdr_get_set f v pkt :
  f ∈ all_fields -> hdr_ok pkt -> (0 <= v < 2 ^ (8 * Z.of_nat (f_width f)))%Z ->
  hdr_get f (hdr_set f v pkt) = v.
Proof.
  intros Hf Hok Hv. apply field_inside in Hf. unfold hdr_ok in Hok.
  unfold hdr_get, hdr_set. cbn [pk_hdr].
  rewrite <- (le_value_bytes (f_width f) v) at 2 by done. f_equal.
  apply list_eq_same_length with (n := f_width f);
    [apply le_bytes_length|rewrite length_take, length_drop, length_inserts; lia|].
  intros i x y Hi Hx Hy. rewrite lookup_take_lt, lookup_drop in Hx by done.
  rewrite list_lookup_inserts in Hx; [|rewrite le_bytes_length; lia|lia].
  replace (f_ofs f + i - f_ofs f) with i in Hx by lia. congruence.
Qed.

Lemma hdr_get_set_other f g v pkt : apart f g -> hdr_get g (hdr_set f v pkt) = hdr_get g pkt.
Proof.
  intros Hapart. unfold hdr_get, hdr_set, apart in *. cbn [pk_hdr]. f_equal.
  apply list_eq. intros i. destruct (decide (i < f_width g)).
  - rewrite !lookup_take_lt, !lookup_drop by done. destruct Hapart.
    + apply list_lookup_inserts_ge. rewrite le_bytes_length. lia.
    + apply list_lookup_inserts_lt. lia.
  - rewrite !lookup_take_ge by lia. done.
Qed.

(** The setters of the header write their own field and nothing else:
    after setting any field to a value of its width, that field reads back as
    the value and each of the other nine fields reads as before. *)
Theorem header_fields f g v pkt :
  f ∈ all_fields -> g ∈ all_fields -> hdr_ok pkt ->
  (0 <= v < 2 ^ (8 * Z.of_nat (f_width f)))%Z ->
  hdr_get g (hdr_set f v pkt) = if decide (g = f) then v else hdr_get g pkt.
Proof.
  intros Hf Hg Hok Hv. case_decide as Heq.
  - subst g. by apply hdr_get_set.
  - destruct (fields_apart f g Hf Hg); [congruence|]. by apply hdr_get_set_other.
Qed.

Lemma header_fields_witness :
  pkt_op (set_op VSOCK_OP_RW (zero_hdr (mkPkt [] None))) = VSOCK_OP_RW.
Proof.
  apply (header_fields HDROFF_OP HDROFF_OP VSOCK_OP_RW (zero_hdr (mkPkt [] None))).
  - apply (bool_decide_unpack _). vm_compute. exact I.
  - apply (bool_decide_unpack _). vm_compute. exact I.
  - vm_compute. reflexivity.
  - vm_compute. split; congruence.
Defined.

(** ** Bounds of packets *)

(** The descriptors a driver can make have 32-bit lengths. *)
Definition chain_ok (chain : list descriptor) : Prop :=
  Forall (fun d => in_width 32 (d_len d)) chain.

#[global] Instance chain_ok_dec chain : Decision (chain_ok chain).
Proof. unfold chain_ok. apply _. Defined.

Section bounds.
Context {GM : GuestMem} {GL : GuestMemLaws GM}.

Lemma host_range_done addr size chain l chain' :
  host_range addr size chain = (Done l, chain') -> (0 <= size)%Z ->
  chain' = chain /\ Z.of_nat (length l) = size.
Proof.
  unfold host_range. intros Hrun Hsize. destruct (translate_gva addr size); [|done].
  destruct (mem_range _ size) eqn:Hmem; [|done]. unfold ret in Hrun. simplify_eq.
  split; [done|]. by eapply mem_range_length.
Qed.

Lemma next_or_done e chain d chain' :
  next_or e chain = (Done d, chain') -> chain = d :: chain'.
Proof.
  unfold next_or. rewrite bind_get. destruct chain; [done|]. rewrite bind_modify.
  unfold ret. intros. by simplify_eq.
Qed.
End bounds.

(** What a packet from the transmit queue promises to its users: the
    header has its 44 bytes; a packet without a buffer has length zero; with a
    buffer its length is at most [MAX_PKT_BUF_SIZE]; and when the data comes in
    a second descriptor the length is within the buffer, so that the slice the
    connection takes is in bounds. *)
Theorem tx_packet_bounds {GM : GuestMem} {GL : GuestMemLaws GM} head chain pkt rest :
  chain_ok (head :: chain) ->
  from_tx_virtq_head (head :: chain) = (Done pkt, rest) ->
  hdr_ok pkt /\
  match pk_buf pkt with
  | None => pkt_len pkt = 0%Z
  | Some b => (pkt_len pkt <> 0 /\ pkt_len pkt <= MAX_PKT_BUF_SIZE /\
               (d_has_next head = true -> pkt_len pkt <= Z.of_nat (length b)) /\
               (d_has_next head = false -> Z.of_nat (length b) = d_len head - HDR_SIZE))%Z
  end.
Proof.
  intros Hchain Hrun. inversion_clear Hchain as [|? ? Hhead Htail].
  apply bind_inv_done in Hrun as (h & c & Hnext & Hrun). apply next_or_done in Hnext.
  simplify_eq. destruct (d_write_only h); [done|]. case_decide as Hlen; [done|].
  apply bind_inv_done in Hrun as (hdr & c' & Hhdr & Hrun).
  apply host_range_done in Hhdr as [-> Hl]; [|done].
  assert (Hok : length hdr = VSOCK_PKT_HDR_SIZE) by (unfold HDR_SIZE in Hl; lia).
  cbv zeta in Hrun. destruct (pkt_is_empty (mkPkt hdr None)) eqn:Hempty.
  { unfold ret in Hrun. simplify_eq. split; [exact Hok|]. by apply bool_decide_eq_true in Hempty. }
  apply bool_decide_eq_false in Hempty. case_decide as Hmax; [done|].
  destruct (d_has_next h) eqn:Hn.
  - apply bind_inv_done in Hrun as (b & c1 & Hnext & Hrun). apply next_or_done in Hnext. subst c.
    inversion_clear Htail as [|? ? Hb _]. destruct (d_write_only b); [done|].
    case_decide as Hshort; [done|].
    apply bind_inv_done in Hrun as (buf & c2 & Hbuf & Hrun).
    apply host_range_done in Hbuf as [-> Hbl]; [|apply Hb].
    unfold ret in Hrun. simplify_eq. split; [exact Hok|]. cbn [pk_buf].
    unfold pkt_len, hdr_get in *. cbn [pk_hdr] in *. split_and!; [done|lia|lia|done].
  - apply bind_inv_done in Hrun as (a & c1 & Ha & Hrun).
    unfold after_hdr in Ha. destruct (checked_add _ _ _); [|done]. unfold ret in Ha. simplify_eq.
    apply bind_inv_done in Hrun as (buf & c2 & Hbuf & Hrun).
    apply host_range_done in Hbuf as [-> Hbl]; [|lia].
    unfold ret in Hrun. simplify_eq. split; [exact Hok|]. cbn [pk_buf].
    unfold pkt_len, hdr_get in *. cbn [pk_hdr] in *. split_and!; [done|lia|done|done].
Qed.

(** ** A concrete guest memory: one mapped page, addresses as they are *)
Definition page_mem (bytes : Z -> Z) : GuestMem := {|
  mem_range a n :=
    if decide (0 <= a /\ a + n <= 4096)%Z
    then Some ((fun i => bytes (a + Z.of_nat i)%Z) <$> seq 0 (Z.to_nat n)) else None;
  translate_gva a n := Some a;
|}.

Lemma page_mem_laws bytes : GuestMemLaws (page_mem bytes).
Proof.
  intros a n l Hl Hn. simpl in Hl. case_decide; [|done]. simplify_eq.
  rewrite length_fmap, length_seq. lia.
Qed.

(** A header at address 0 that says [RW] with a length of 10. *)
Definition rw10 (a : Z) : Z :=
  if decide (a = 24)%Z then 10%Z else if decide (a = 28)%Z then 1%Z
  else if decide (a = 30)%Z then VSOCK_OP_RW else 0%Z.

Lemma tx_packet_bounds_witness :
  let head := Desc 0 44 false true in
  let data := Desc 1000 20 false false in
  match from_tx_virtq_head (GM := page_mem rw10) [head; data] with
  | (Done pkt, _) => hdr_ok pkt /\ pkt_len pkt = 10%Z /\
      match pk_buf pkt with
      | None => False
      | Some b => (10 <= Z.of_nat (length b))%Z
      end
  | _ => False
  end.
Proof.
  pose proof (tx_packet_bounds (GL := page_mem_laws rw10) (Desc 0 44 false true)
    [Desc 1000 20 false false]
    (mkPkt (rw10 <$> (Z.of_nat <$> seq 0 44)) (Some (replicate 20 0%Z))) []) as Hthm.
  assert (Hrun : from_tx_virtq_head (GM := page_mem rw10)
                   [Desc 0 44 false true; Desc 1000 20 false false] =
                 (Done (mkPkt (rw10 <$> (Z.of_nat <$> seq 0 44)) (Some (replicate 20 0%Z))), []))
    by (vm_compute; reflexivity).
  cbv zeta. rewrite Hrun. destruct Hthm as (Hok & _ & _ & Hb & _).
  - apply (bool_decide_unpack _). vm_compute. exact I.
  - exact Hrun.
  - split; [exact Hok|]. split; [vm_compute; reflexivity|]. exact (Hb eq_refl).
Defined.

(** With header and data in one descriptor the length is not checked: a packet
    of length 10 may come with an empty buffer. *)
Lemma single_descriptor_unchecked :
  match from_tx_virtq_head (GM := page_mem rw10) [Desc 0 44 false false] with
  | (Done pkt, _) => pkt_len pkt = 10%Z /\ pk_buf pkt = Some []
  | _ => False
  end.
Proof. vm_compute. split; reflexivity. Qed.
