(* ===== verification/VsockConn.v ===== *)
(** The vsock connection state machine
    (hypervisor/virtio-devices/src/vsock/csm/mod.rs and csm/connection.rs):
    the handlers of guest packets, of packets for the guest and of events of
    the host stream, with the credit accounting. *)
From stdpp Require Import gmap strings list list_numbers.
From S2P Require Import Prelude Stream VsockTxBuf VsockPacket.

Definition CONN_CREDIT_UPDATE_THRESHOLD : Z := 4 * 1024.
Definition CONN_REQUEST_TIMEOUT_MS : Z := 2000.
Definition CONN_SHUTDOWN_TIMEOUT_MS : Z := 2000.

Inductive ConnState :=
| LocalInit
| PeerInit
| Established
| LocalClosed
| PeerClosed (recv_off send_off : bool)
| Killed.

#[global] Instance ConnState_eq_dec : EqDecision ConnState.
Proof. solve_decision. Defined.

(** ** Sets of pending packets *)
Inductive PendingRx := Request | Response | Rst | Rw | CreditUpdate.

Definition into_mask (it : PendingRx) : Z :=
  Z.shiftl 1 (match it with Request => 0 | Response => 1 | Rst => 2 | Rw => 3 | CreditUpdate => 4 end).

(** [PendingRxSet] is a [u16]. *)
Definition rx_from (it : PendingRx) : Z := into_mask it.
Definition rx_insert (it : PendingRx) (set : Z) : Z := Z.lor set (into_mask it).
Definition rx_contains (it : PendingRx) (set : Z) : bool :=
  negb (bool_decide (Z.land set (into_mask it) = 0%Z)).
Definition rx_remove (it : PendingRx) (set : Z) : bool * Z :=
  (rx_contains it set, Z.ldiff set (into_mask it)).
Definition rx_is_empty (set : Z) : bool := bool_decide (set = 0%Z).

(** ** epoll events *)
Definition EPOLLIN : Z := 1.
Definition EPOLLOUT : Z := 4.
Definition ev_contains (evset ev : Z) : bool := bool_decide (Z.land evset ev = ev).

(** ** The connection *)
Record VsockConnection (St : Type) := mkConn {
  state : ConnState;
  local_cid : Z;
  peer_cid : Z;
  local_port : Z;
  peer_port : Z;
  stream : St;
  tx_buf : TxBuf;
  fwd_cnt : Z;
  peer_buf_alloc : Z;
  peer_fwd_cnt : Z;
  rx_cnt : Z;
  last_fwd_cnt_to_peer : Z;
  pending_rx : Z;
  expiry : option Z;
}.
Arguments mkConn {St}.
Arguments state {St}. Arguments local_cid {St}. Arguments peer_cid {St}.
Arguments local_port {St}. Arguments peer_port {St}. Arguments stream {St}.
Arguments tx_buf {St}. Arguments fwd_cnt {St}. Arguments peer_buf_alloc {St}.
Arguments peer_fwd_cnt {St}. Arguments rx_cnt {St}. Arguments last_fwd_cnt_to_peer {St}.
Arguments pending_rx {St}. Arguments expiry {St}.

Section conn.
Context {St : Type} `{HS : Stream St}.
Abbreviation conn := (VsockConnection St).

(** Assignments to fields. *)
Definition with_state (x : ConnState) (c : conn) : conn :=
  mkConn x (local_cid c) (peer_cid c) (local_port c) (peer_port c) (stream c) (tx_buf c)
    (fwd_cnt c) (peer_buf_alloc c) (peer_fwd_cnt c) (rx_cnt c) (last_fwd_cnt_to_peer c)
    (pending_rx c) (expiry c).
Definition with_stream (x : St) (c : conn) : conn :=
  mkConn (state c) (local_cid c) (peer_cid c) (local_port c) (peer_port c) x (tx_buf c)
    (fwd_cnt c) (peer_buf_alloc c) (peer_fwd_cnt c) (rx_cnt c) (last_fwd_cnt_to_peer c)
    (pending_rx c) (expiry c).
Definition with_tx_buf (x : TxBuf) (c : conn) : conn :=
  mkConn (state c) (local_cid c) (peer_cid c) (local_port c) (peer_port c) (stream c) x
    (fwd_cnt c) (peer_buf_alloc c) (peer_fwd_cnt c) (rx_cnt c) (last_fwd_cnt_to_peer c)
    (pending_rx c) (expiry c).
Definition with_fwd_cnt (x : Z) (c : conn) : conn :=
  mkConn (state c) (local_cid c) (peer_cid c) (local_port c) (peer_port c) (stream c) (tx_buf c)
    x (peer_buf_alloc c) (peer_fwd_cnt c) (rx_cnt c) (last_fwd_cnt_to_peer c)
    (pending_rx c) (expiry c).
Definition with_peer_credit (alloc fwd : Z) (c : conn) : conn :=
  mkConn (state c) (local_cid c) (peer_cid c) (local_port c) (peer_port c) (stream c) (tx_buf c)
    (fwd_cnt c) alloc fwd (rx_cnt c) (last_fwd_cnt_to_peer c) (pending_rx c) (expiry c).
Definition with_rx_cnt (x : Z) (c : conn) : conn :=
  mkConn (state c) (local_cid c) (peer_cid c) (local_port c) (peer_port c) (stream c) (tx_buf c)
    (fwd_cnt c) (peer_buf_alloc c) (peer_fwd_cnt c) x (last_fwd_cnt_to_peer c)
    (pending_rx c) (expiry c).
Definition with_last_fwd (x : Z) (c : conn) : conn :=
  mkConn (state c) (local_cid c) (peer_cid c) (local_port c) (peer_port c) (stream c) (tx_buf c)
    (fwd_cnt c) (peer_buf_alloc c) (peer_fwd_cnt c) (rx_cnt c) x (pending_rx c) (expiry c).
Definition with_pending (x : Z) (c : conn) : conn :=
  mkConn (state c) (local_cid c) (peer_cid c) (local_port c) (peer_port c) (stream c) (tx_buf c)
    (fwd_cnt c) (peer_buf_alloc c) (peer_fwd_cnt c) (rx_cnt c) (last_fwd_cnt_to_peer c) x
    (expiry c).
Definition with_expiry (x : option Z) (c : conn) : conn :=
  mkConn (state c) (local_cid c) (peer_cid c) (local_port c) (peer_port c) (stream c) (tx_buf c)
    (fwd_cnt c) (peer_buf_alloc c) (peer_fwd_cnt c) (rx_cnt c) (last_fwd_cnt_to_peer c)
    (pending_rx c) x.

Definition insert_rx (it : PendingRx) (c : conn) : conn :=
  with_pending (rx_insert it (pending_rx c)) c.

Definition new_peer_init (s : St) (local_cid peer_cid local_port peer_port peer_buf_alloc : Z)
  : conn :=
  mkConn PeerInit local_cid peer_cid local_port peer_port s txbuf_new 0 peer_buf_alloc 0 0 0
    (rx_from Response) None.

Definition new_local_init (s : St) (local_cid peer_cid local_port peer_port : Z) : conn :=
  mkConn LocalInit local_cid peer_cid local_port peer_port s txbuf_new 0 0 0 0 0
    (rx_from Request) None.

(** [now] is the answer of [Instant::now()], in milliseconds. *)
Definition will_expire (now : Z) (c : conn) : bool :=
  match expiry c with None => false | Some t => bool_decide (now < t)%Z end.
Definition has_expired (now : Z) (c : conn) : bool :=
  match expiry c with None => false | Some t => bool_decide (t <= now)%Z end.

Definition kill (c : conn) : conn := insert_rx Rst (with_state Killed c).

Definition has_pending_rx (c : conn) : bool := negb (rx_is_empty (pending_rx c)).

(** ** Credit *)
Definition peer_needs_credit_update (c : conn) : bool :=
  let peer_seen_free_buf :=
    wsub 32 CONN_TX_BUF_SIZE (wsub 32 (fwd_cnt c) (last_fwd_cnt_to_peer c)) in
  bool_decide (peer_seen_free_buf < CONN_CREDIT_UPDATE_THRESHOLD)%Z.

Definition peer_avail_credit (c : conn) : Z :=
  wsub 32 (peer_buf_alloc c) (wsub 32 (rx_cnt c) (peer_fwd_cnt c)).

Definition need_credit_update_from_peer (c : conn) : bool :=
  bool_decide (peer_avail_credit c = 0%Z).

Definition init_pkt (c : conn) (pkt : VsockPacket) : VsockPacket :=
  set_fwd_cnt (fwd_cnt c) (set_buf_alloc CONN_TX_BUF_SIZE (set_type VSOCK_TYPE_STREAM
    (set_dst_port (peer_port c) (set_src_port (local_port c)
      (set_dst_cid (peer_cid c) (set_src_cid (local_cid c) (zero_hdr pkt))))))).

(** ** Bytes from the guest *)
Definition conn_push (src : list Z) : M conn csm_error unit := fun c =>
  let '(r, b) := push src (tx_buf c) in (r, with_tx_buf b c).

Definition conn_flush : M conn csm_error Z := fun c =>
  let '(r, (b, s)) := flush_to (tx_buf c, stream c) in (r, with_stream s (with_tx_buf b c)).

Definition conn_write (buf : list Z) : M conn csm_error (result io_error Z) := fun c =>
  let '(r, s) := stream_write buf (stream c) in (Done r, with_stream s c).

Definition send_bytes (buf : list Z) : M conn csm_error unit :=
  let* c := get in
  if negb (txbuf_is_empty (tx_buf c)) then conn_push buf
  else
    let* r := conn_write buf in
    match r with
    | Err WouldBlock => conn_push buf
    | Err e => throw (StreamWrite e)
    | Ok written =>
      modify (fun c => with_fwd_cnt (wadd 32 (fwd_cnt c) (wrap 32 written)) c);;;
      if decide (written < Z.of_nat (length buf))%Z
      then conn_push (drop (Z.to_nat written) buf) else ret tt
    end.

(** ** Packets from the guest *)

(** States in which a data packet of the guest is accepted. *)
Definition data_from_peer (s : ConnState) : bool :=
  match s with Established | PeerClosed _ false => true | _ => false end.
(** States in which data may be sent to the guest. *)
Definition data_to_peer (s : ConnState) : bool :=
  match s with Established | PeerClosed false _ => true | _ => false end.

(** [&pkt.buf().unwrap()[..pkt.len()]] *)
Definition pkt_payload {S E} (pkt : VsockPacket) (buf : list Z) : M S E (list Z) :=
  slice_of buf 0 (pkt_len pkt).

Definition send_rw (pkt : VsockPacket) : M conn VsockError unit :=
  match pk_buf pkt with
  | None => ret tt
  | Some buf =>
    let* buf_slice := pkt_payload pkt buf in
    let* r := attempt (send_bytes buf_slice) in
    match r with
    | Err _ => modify kill
    | Ok _ =>
      modify (fun c => if peer_needs_credit_update c then insert_rx CreditUpdate c else c)
    end
  end.

Definition recv_flag (pkt : VsockPacket) : bool :=
  negb (bool_decide (Z.land (flags pkt) VSOCK_FLAGS_SHUTDOWN_RCV = 0%Z)).
Definition send_flag (pkt : VsockPacket) : bool :=
  negb (bool_decide (Z.land (flags pkt) VSOCK_FLAGS_SHUTDOWN_SEND = 0%Z)).

(** The handler by state and operation; any other packet is dropped. *)
Definition send_pkt (now : Z) (pkt : VsockPacket) : M conn VsockError unit :=
  modify (with_peer_credit (buf_alloc pkt) (pkt_fwd_cnt pkt));;;
  let* c := get in
  let op := pkt_op pkt in
  if data_from_peer (state c) && bool_decide (op = VSOCK_OP_RW) then send_rw pkt
  else match state c with
  | LocalInit =>
    if decide (op = VSOCK_OP_RESPONSE)
    then modify (fun c => with_state Established (with_expiry None c)) else ret tt
  | Established =>
    if decide (op = VSOCK_OP_SHUTDOWN) then
      let recv_off := recv_flag pkt in
      let send_off := send_flag pkt in
      modify (with_state (PeerClosed recv_off send_off));;;
      modify (fun c =>
        if recv_off && send_off then
          if txbuf_is_empty (tx_buf c) then insert_rx Rst c
          else with_expiry (Some (now + CONN_SHUTDOWN_TIMEOUT_MS)%Z) c
        else c)
    else if decide (op = VSOCK_OP_CREDIT_UPDATE) then ret tt
    else if decide (op = VSOCK_OP_CREDIT_REQUEST) then modify (insert_rx CreditUpdate)
    else ret tt
  | PeerClosed recv_off send_off =>
    if decide (op = VSOCK_OP_SHUTDOWN) then
      let recv_off := recv_off || recv_flag pkt in
      let send_off := send_off || send_flag pkt in
      modify (with_state (PeerClosed recv_off send_off));;;
      modify (fun c =>
        if recv_off && send_off && txbuf_is_empty (tx_buf c) then insert_rx Rst c else c)
    else if negb recv_off && bool_decide (op = VSOCK_OP_CREDIT_UPDATE) then ret tt
    else if negb send_off && bool_decide (op = VSOCK_OP_CREDIT_REQUEST)
    then modify (insert_rx CreditUpdate)
    else ret tt
  | PeerInit =>
    if decide (op = VSOCK_OP_CREDIT_UPDATE) then ret tt
    else if decide (op = VSOCK_OP_CREDIT_REQUEST) then modify (insert_rx CreditUpdate)
    else ret tt
  | LocalClosed | Killed => ret tt
  end.

(** ** Packets for the guest

    The state is the connection together with the packet to fill in. *)
Abbreviation Recv := (M (conn * VsockPacket) VsockError).
Definition upd (f : conn -> conn) : Recv unit := modify (fun cp => (f cp.1, cp.2)).
Definition upd_pkt (f : VsockPacket -> VsockPacket) : Recv unit :=
  modify (fun cp => (cp.1, f cp.2)).

Definition take_rx (it : PendingRx) : Recv bool := fun cp =>
  let '(b, set) := rx_remove it (pending_rx cp.1) in (Done b, (with_pending set cp.1, cp.2)).

Definition note_fwd_cnt : Recv unit := upd (fun c => with_last_fwd (fwd_cnt c) c).

Definition recv_read (max_len : Z) : Recv (result io_error (list Z)) := fun cp =>
  let '(r, s) := stream_read max_len (stream cp.1) in
  let pkt := match r, pk_buf cp.2 with
             | Ok data, Some buf => mkPkt (pk_hdr cp.2) (Some (list_inserts 0 data buf))
             | _, _ => cp.2
             end in
  (Done r, (with_stream s cp.1, pkt)).

(** The branch for [PendingRx::Rw]; [true] when the packet is ready. *)
Definition recv_rw (now : Z) : Recv bool :=
  let* cp := get in
  let '(c, pkt) := cp in
  if negb (data_to_peer (state c)) then upd_pkt (set_op VSOCK_OP_RST);;; ret true
  else if need_credit_update_from_peer c then
    note_fwd_cnt;;; upd_pkt (set_op VSOCK_OP_CREDIT_REQUEST);;; ret true
  else match pk_buf pkt with
  | None => throw PktBufMissing
  | Some buf =>
    let max_len := Z.min (Z.of_nat (length buf)) (peer_avail_credit c) in
    let* r := recv_read max_len in
    match r with
    | Ok data =>
      (if decide (data = []) then
         upd (fun c => with_expiry (Some (now + CONN_SHUTDOWN_TIMEOUT_MS)%Z)
                         (with_state LocalClosed c));;;
         upd_pkt (fun p => set_flag VSOCK_FLAGS_SHUTDOWN_SEND (set_flag VSOCK_FLAGS_SHUTDOWN_RCV
                             (set_op VSOCK_OP_SHUTDOWN p)))
       else upd_pkt (fun p => set_len (wrap 32 (Z.of_nat (length data))) (set_op VSOCK_OP_RW p)));;;
      let* cp := get in
      upd (fun c => with_rx_cnt (wadd 32 (rx_cnt c) (pkt_len cp.2)) c);;;
      note_fwd_cnt;;; ret true
    | Err WouldBlock => ret false
    | Err _ => upd_pkt (set_op VSOCK_OP_RST);;; note_fwd_cnt;;; ret true
    end
  end.

Definition recv_pkt (now : Z) : Recv unit :=
  modify (fun cp => (cp.1, init_pkt cp.1 cp.2));;;
  let* rst := take_rx Rst in
  if rst then upd_pkt (set_op VSOCK_OP_RST)
  else
    let* response := take_rx Response in
    if response then upd (with_state Established);;; upd_pkt (set_op VSOCK_OP_RESPONSE)
    else
      let* request := take_rx Request in
      if request then
        upd (with_expiry (Some (now + CONN_REQUEST_TIMEOUT_MS)%Z));;;
        upd_pkt (set_op VSOCK_OP_REQUEST)
      else
        let* rw := take_rx Rw in
        let* ready := (if rw then recv_rw now else ret false) in
        if ready then ret tt
        else
          let* credit_update := take_rx CreditUpdate in
          let* cp := get in
          if credit_update && negb (has_pending_rx cp.1) then
            upd_pkt (set_op VSOCK_OP_CREDIT_UPDATE);;; note_fwd_cnt
          else throw NoData.

(** ** Events of the host stream *)
Definition get_polled_evset (c : conn) : Z :=
  let evset := if txbuf_is_empty (tx_buf c) then 0%Z else EPOLLOUT in
  match state c with
  | Killed | LocalClosed | PeerClosed true _ => evset
  | _ => if need_credit_update_from_peer c then evset else Z.lor evset EPOLLIN
  end.

Definition notify_out : M conn VsockError unit :=
  let* c := get in
  if txbuf_is_empty (tx_buf c) then ret tt
  else
    let* r := attempt conn_flush in
    let* flushed :=
      match r with
      | Ok n => ret n
      | Err (TxBufFlush WouldBlock) => ret 0%Z
      | Err _ => modify kill;;; ret 0%Z
      end in
    modify (fun c => with_fwd_cnt (wadd 32 (fwd_cnt c) (wrap 32 flushed)) c);;;
    modify (fun c =>
      if bool_decide (state c = PeerClosed true true) && txbuf_is_empty (tx_buf c)
      then insert_rx Rst c
      else if peer_needs_credit_update c then insert_rx CreditUpdate c else c).

Definition notify (evset : Z) : M conn VsockError unit :=
  modify (fun c => if ev_contains evset EPOLLIN then insert_rx Rw c else c);;;
  if ev_contains evset EPOLLOUT then notify_out else ret tt.
End conn.
