(* ===== verification/VsockConnProofs.v ===== *)
(** What the connection state machine guarantees: no byte of the guest is
    lost, repeated or reordered on its way to the host stream, nor the other
    way around, the counters in the headers count those bytes, and the credit
    rules hold. *)
From stdpp Require Import gmap strings list list_numbers.
From S2P Require Import Prelude Stream VsockTxBuf VsockPacket VsockConn.

#[global] Instance PendingRx_eq_dec : EqDecision PendingRx.
Proof. solve_decision. Defined.

(** ** Sets of pending packets *)
Definition rx_bit (it : PendingRx) : Z :=
  match it with Request => 0 | Response => 1 | Rst => 2 | Rw => 3 | CreditUpdate => 4 end.

Lemma into_mask_testbit it n :
  (0 <= n)%Z -> Z.testbit (into_mask it) n = bool_decide (n = rx_bit it).
Proof.
  intros Hn. change (into_mask it) with (Z.shiftl 1 (rx_bit it)).
  rewrite Z.shiftl_1_l, Z.pow2_bits_eqb by (destruct it; done).
  destruct (Z.eqb_spec (rx_bit it) n); by case_bool_decide.
Qed.

Lemma rx_contains_testbit it set : rx_contains it set = Z.testbit set (rx_bit it).
Proof.
  assert (Hb : forall n, (0 <= n)%Z -> Z.testbit (Z.land set (into_mask it)) n =
            Z.testbit set n && bool_decide (n = rx_bit it)).
  { intros n Hn. rewrite Z.land_spec, into_mask_testbit by done. done. }
  unfold rx_contains. destruct (Z.testbit set (rx_bit it)) eqn:Hbit; case_bool_decide as Hz; try done.
  - specialize (Hb (rx_bit it)). rewrite Hz, Hbit, bool_decide_eq_true_2 in Hb by done.
    rewrite Z.bits_0 in Hb. by destruct it; specialize (Hb ltac:(done)).
  - destruct Hz. apply Z.bits_inj'. intros n Hn. rewrite Hb, Z.bits_0 by done.
    case_bool_decide; [subst; by rewrite Hbit|by rewrite andb_false_r].
Qed.

Lemma rx_contains_insert it it' set :
  rx_contains it (rx_insert it' set) = bool_decide (it = it') || rx_contains it set.
Proof.
  rewrite !rx_contains_testbit. unfold rx_insert. rewrite Z.lor_spec, into_mask_testbit by by destruct it.
  rewrite orb_comm. f_equal. by destruct it, it'.
Qed.

Lemma rx_contains_remove it it' set :
  rx_contains it (rx_remove it' set).2 = negb (bool_decide (it = it')) && rx_contains it set.
Proof.
  rewrite !rx_contains_testbit. unfold rx_remove. cbn [snd].
  rewrite Z.ldiff_spec, into_mask_testbit by by destruct it.
  rewrite andb_comm. do 2 f_equal. by destruct it, it'.
Qed.

Lemma rx_contains_from it it' : rx_contains it (rx_from it') = bool_decide (it = it').
Proof. by destruct it, it'. Qed.

(** The sets only have the five bits of their members. *)
Lemma width_bits n x : (0 <= n)%Z -> in_width n x <->
  (0 <= x)%Z /\ forall i, (n <= i)%Z -> Z.testbit x i = false.
Proof.
  intros Hn. split.
  - intros [H0 H1]. split; [done|]. intros i Hi. destruct (decide (x = 0)%Z) as [->|].
    + apply Z.bits_0.
    + apply Z.bits_above_log2; [done|]. apply Z.log2_lt_pow2 in H1; lia.
  - intros [H0 H1]. split; [done|]. destruct (decide (x = 0)%Z) as [->|]; [lia|].
    apply Z.log2_lt_pow2; [lia|]. apply Z.nle_gt. intros Hle.
    pose proof (Z.bit_log2 x ltac:(lia)). rewrite H1 in H; done.
Qed.

Lemma rx_insert_width it set : in_width 5 set -> in_width 5 (rx_insert it set).
Proof.
  rewrite !width_bits by done. intros [H0 H1]. unfold rx_insert. split.
  - apply Z.lor_nonneg. split; [done|by destruct it].
  - intros i Hi. rewrite Z.lor_spec, H1, into_mask_testbit by lia.
    rewrite bool_decide_eq_false_2; [done|destruct it; simpl; lia].
Qed.

Lemma rx_remove_width it set : in_width 5 set -> in_width 5 (rx_remove it set).2.
Proof.
  rewrite !width_bits by done. intros [H0 H1]. unfold rx_remove. cbn [snd]. split.
  - apply Z.ldiff_nonneg. by left.
  - intros i Hi. by rewrite Z.ldiff_spec, H1.
Qed.

Lemma rx_empty set :
  in_width 5 set -> (forall it, rx_contains it set = false) -> set = 0%Z.
Proof.
  rewrite width_bits by done. intros [H0 H1] Hall. apply Z.bits_inj'. intros n Hn.
  rewrite Z.bits_0. destruct (decide (5 <= n)%Z); [auto|].
  pose proof (Hall Request) as A0. pose proof (Hall Response) as A1. pose proof (Hall Rst) as A2.
  pose proof (Hall Rw) as A3. pose proof (Hall CreditUpdate) as A4.
  rewrite rx_contains_testbit in *. simpl in *.
  assert (n = 0 \/ n = 1 \/ n = 2 \/ n = 3 \/ n = 4)%Z as Hc by lia. by destruct_or! Hc; subst.
Qed.

#[export] Hint Rewrite rx_contains_insert rx_contains_remove rx_contains_from : cube.

(** ** Fields of the packets for the guest *)
Ltac in_fields := apply (bool_decide_unpack _); vm_compute; exact I.

Lemma pkt_op_set op pkt : hdr_ok pkt -> in_width 16 op -> pkt_op (set_op op pkt) = op.
Proof. intros. apply hdr_get_set; [in_fields|done|done]. Qed.

Lemma pkt_len_set_op op pkt : pkt_len (set_op op pkt) = pkt_len pkt.
Proof. apply hdr_get_set_other. vm_compute. lia. Qed.

Section header.
Context {St : Type} `{HS : Stream St}.
Implicit Types c : VsockConnection St.

Lemma init_pkt_hdr c pkt : hdr_ok (init_pkt c pkt).
Proof. unfold init_pkt. repeat apply hdr_set_ok. apply zero_hdr_ok. Qed.

Lemma init_pkt_len c pkt : pkt_len (init_pkt c pkt) = 0%Z.
Proof.
  unfold init_pkt, pkt_len. 
  do 7 (etransitivity; [apply hdr_get_set_other; vm_compute; lia|]). by vm_compute.
Qed.

Lemma init_pkt_buf c pkt : pk_buf (init_pkt c pkt) = pk_buf pkt.
Proof. done. Qed.
End header.

(** ** The bytes of the guest *)
Section bytes.
Context {St : Type} `{HL : StreamLaws St}.
Implicit Types c : VsockConnection St.

(** [c] after some input and output. *)
Definition io (s : St) (b : TxBuf) (f : Z) c := with_fwd_cnt f (with_tx_buf b (with_stream s c)).

Lemma io_id c : io (stream c) (tx_buf c) (fwd_cnt c) c = c.
Proof. by destruct c. Qed.

(** Outcome of handing over [buf] when [k] bytes went to the stream: the rest
    is in the buffer [b], or was dropped with an error. *)
Definition handed_over (buf : list Z) c (k : nat) (r : outcome csm_error unit) (b : TxBuf) : Prop :=
  txbuf_ok b /\
  (r = Done tt /\ contents b = contents (tx_buf c) ++ drop k buf \/
   exists e, r = Fail e /\ contents b = contents (tx_buf c) /\
     (e = TxBufFull -> SIZE < Z.of_nat (length (contents (tx_buf c)) + length buf - k))%Z).

Lemma conn_push_run buf k s f c :
  txbuf_ok (tx_buf c) -> k <= length buf ->
  exists r b, conn_push (drop k buf) (io s (tx_buf c) f c) = (r, io s b f c) /\
    handed_over buf c k r b.
Proof.
  intros Hok Hk. pose proof (contents_length _ Hok). unfold conn_push.
  cbn [io tx_buf with_fwd_cnt with_tx_buf]. rewrite push_run by done.
  rewrite length_drop. case_decide.
  - eexists _, (tx_buf c). split; [done|]. split; [done|right]. eexists. split_and!; [done|done|lia].
  - eexists _, (pushed (drop k buf) (tx_buf c)). split; [done|].
    split; [apply pushed_ok; [done|rewrite length_drop; lia]|left].
    split; [done|]. apply contents_pushed; [done|rewrite length_drop; lia].
Qed.

(** Sending bytes writes a prefix of them ([k] of them, and none when earlier
    bytes wait in the buffer) and hands over the rest. *)
Lemma send_bytes_run buf c :
  txbuf_ok (tx_buf c) -> in_width 32 (fwd_cnt c) ->
  exists r s b k, send_bytes buf c = (r, io s b (wadd 32 (fwd_cnt c) (Z.of_nat k)) c) /\
    k <= length buf /\ (k = 0 \/ contents (tx_buf c) = []) /\
    sent s = sent (stream c) ++ take k buf /\ received s = received (stream c) /\
    handed_over buf c k r b.
Proof.
  intros Hok Hf. unfold send_bytes. rewrite bind_get, is_empty_spec by done.
  assert (Hf0 : wadd 32 (fwd_cnt c) (Z.of_nat 0) = fwd_cnt c)
    by (rewrite wadd_small; rewrite Z.add_0_r; done).
  assert (Hpush : forall s, sent s = sent (stream c) -> received s = received (stream c) ->
    exists r s' b k, conn_push buf (io s (tx_buf c) (fwd_cnt c) c) =
      (r, io s' b (wadd 32 (fwd_cnt c) (Z.of_nat k)) c) /\
    k <= length buf /\ (k = 0 \/ contents (tx_buf c) = []) /\
    sent s' = sent (stream c) ++ take k buf /\ received s' = received (stream c) /\
    handed_over buf c k r b).
  { intros s Hs Hr. destruct (conn_push_run buf 0 s (fwd_cnt c) c Hok) as (r & b & Hrun & Hb); [lia|].
    rewrite drop_0 in Hrun. exists r, s, b, 0. rewrite Hf0, app_nil_r. auto 10 with lia. }
  case_bool_decide as Hemp; cbn [negb].
  2: { pose proof (Hpush (stream c)) as Hp. rewrite io_id in Hp. by apply Hp. }
  unfold bind at 1, conn_write. destruct (stream_write buf (stream c)) as [[w|e] s] eqn:Hw.
  - apply write_ok in Hw as ([Hw0 Hw1] & Hs & Hr). rewrite bind_modify.
    change (with_fwd_cnt _ (with_stream s c)) with
      (io s (tx_buf c) (wadd 32 (fwd_cnt c) (wrap 32 w)) c). rewrite wadd_wrap_r.
    case_decide as Hlt.
    + destruct (conn_push_run buf (Z.to_nat w) s (wadd 32 (fwd_cnt c) w) c Hok)
        as (r & b & Hrun & Hb); [lia|].
      exists r, s, b, (Z.to_nat w). rewrite Z2Nat.id by done. auto 10 with lia.
    + exists (Done tt), s, (tx_buf c), (Z.to_nat w). rewrite Z2Nat.id by done.
      split_and!; [done|lia|auto|done|done|]. split; [done|left]. split; [done|].
      rewrite drop_ge by lia. by rewrite app_nil_r.
  - apply write_err in Hw as [Hs Hr].
    change (with_stream s c) with (io s (tx_buf c) (fwd_cnt c) c).
    destruct e; [by apply Hpush|].
    eexists (Fail _), s, (tx_buf c), 0. rewrite Hf0, app_nil_r.
    split_and!; [done|lia|auto|done|done|]. split; [done|right]. by eexists.
Qed.

(** ** The invariant

    [s0] is the stream the connection started with, [acc] the bytes the guest
    has sent in accepted packets, [del] the bytes handed to the guest. *)
Definition resp_pending c : bool := rx_contains Response (pending_rx c).

Record conn_inv (s0 : St) c (acc del : list Z) : Prop := {
  ci_buf : txbuf_ok (tx_buf c);
  ci_sent : exists w, sent (stream c) = sent s0 ++ w /\
    fwd_cnt c = wrap 32 (Z.of_nat (length w)) /\
    (w ++ contents (tx_buf c) = acc \/
     state c = Killed /\ resp_pending c = false /\ w ++ contents (tx_buf c) `prefix_of` acc);
  ci_recv : received (stream c) = received s0 ++ del;
  ci_rx : rx_cnt c = wrap 32 (Z.of_nat (length del));
  ci_resp : resp_pending c = true -> acc = [] /\ (state c = PeerInit \/ state c = Killed);
}.

(** A step that moves no bytes and does not bring the connection to life. *)
Record gentle c c' : Prop := {
  g_stream : stream c' = stream c;
  g_buf : tx_buf c' = tx_buf c;
  g_fwd : fwd_cnt c' = fwd_cnt c;
  g_rx : rx_cnt c' = rx_cnt c;
  g_resp : resp_pending c' = true -> resp_pending c = true;
  g_state : state c = PeerInit \/ state c = Killed -> state c' = state c \/ state c' = Killed;
  g_ports : (local_port c', peer_port c') = (local_port c, peer_port c);
  g_width : in_width 5 (pending_rx c) -> in_width 5 (pending_rx c');
}.

Lemma gentle_refl c : gentle c c.
Proof. split; auto. Qed.

Lemma inv_gentle s0 c c' acc del : conn_inv s0 c acc del -> gentle c c' -> conn_inv s0 c' acc del.
Proof.
  intros [Hb (w & Hw & Hf & Hcase) Hr Hx Hresp] [Gs Gb Gf Gx Gr Gst _ _].
  split; rewrite ?Gs, ?Gb, ?Gf, ?Gx; auto.
  - exists w. split_and!; [done|done|]. destruct Hcase as [|(Hk & Hn & Hp)]; [by left|right].
    split_and!; [|destruct (resp_pending c'); [|done]; by rewrite Gr in Hn|done].
    destruct Gst; [by right|congruence|done].
  - intros Hp. apply Gr in Hp as Hp'. apply Hresp in Hp' as [? Hst]. split; [done|].
    destruct (Gst Hst) as [->|]; auto.
Qed.

Lemma kill_gentle c : gentle c (kill c).
Proof.
  split; try done; [|by right|apply rx_insert_width].
  unfold resp_pending, kill, insert_rx. cbn [pending_rx with_pending].
  by rewrite rx_contains_insert.
Qed.

Lemma insert_gentle it c : it <> Response -> gentle c (insert_rx it c).
Proof.
  intros Hit. split; try done; [|by left|apply rx_insert_width]. unfold resp_pending, insert_rx. cbn [pending_rx with_pending].
  rewrite rx_contains_insert, bool_decide_eq_false_2; [done|congruence].
Qed.

Lemma fwd_wrap w k :
  wadd 32 (wrap 32 (Z.of_nat (length w))) (Z.of_nat k) = wrap 32 (Z.of_nat (length (w : list Z) + k)).
Proof. rewrite wadd_wrap_l. unfold wadd. f_equal. lia. Qed.

Lemma inv_send_bytes s0 c acc del buf :
  conn_inv s0 c acc del -> data_from_peer (state c) = true ->
  exists r c', send_bytes buf c = (r, c') /\
    (r = Done tt /\ conn_inv s0 c' (acc ++ buf) del \/
     exists e, r = Fail e /\ conn_inv s0 (kill c') (acc ++ buf) del).
Proof.
  intros [Hb (w & Hw & Hf & Hcase) Hr Hx Hresp] Hst.
  assert (Hnot : resp_pending c = false).
  { destruct (resp_pending c); [|done]. destruct (Hresp eq_refl) as [_ [Hs|Hs]]; by rewrite Hs in Hst. }
  destruct Hcase as [Hacc|(Hk & _)]; [|by rewrite Hk in Hst].
  destruct (send_bytes_run buf c Hb) as (r & s & b & k & Hrun & Hk & Hk0 & Hs & Hr' & Hb' & Hh).
  { rewrite Hf. by apply wrap_in_width. }
  rewrite Hf, fwd_wrap in Hrun. exists r. eexists. split; [exact Hrun|].
  assert (Hsent : sent s = sent s0 ++ w ++ take k buf) by by rewrite Hs, Hw, app_assoc.
  assert (Hlen : length (w ++ take k buf) = length w + k)
    by (rewrite length_app, length_take; lia).
  destruct Hh as [[-> Hc]|(e & -> & Hc & _)]; [left|right; exists e]; (split; [done|]).
  - split; [done| |cbn; by rewrite Hr'|done|].
    2: { intros Hp. change (resp_pending c = true) in Hp. congruence. }
    exists (w ++ take k buf). rewrite Hlen. split_and!; [done|done|left]. cbn. rewrite Hc, <- Hacc.
    destruct Hk0 as [->| ->]; [by rewrite app_nil_r, drop_0, app_assoc|].
    by rewrite app_nil_r, app_nil_l, <- app_assoc, take_drop.
  - assert (Hnot' : resp_pending (kill (io s b (wrap 32 (Z.of_nat (length w + k))) c)) = false).
    { unfold resp_pending, kill, insert_rx. cbn. by rewrite rx_contains_insert. }
    split; [done| |cbn; by rewrite Hr'|done|by rewrite Hnot'].
    exists (w ++ take k buf). rewrite Hlen. split_and!; [done|done|right]. split_and!; [done|done|].
    cbn. rewrite Hc, <- Hacc. exists (drop k buf).
    destruct Hk0 as [->| ->]; [by rewrite take_0, drop_0, app_nil_r|].
    by rewrite !app_nil_r, <- app_assoc, take_drop.
Qed.

(** The payload of a data packet is inside its buffer. *)
Definition pkt_fits (pkt : VsockPacket) : Prop :=
  match pk_buf pkt with
  | None => True
  | Some buf => (0 <= pkt_len pkt <= Z.of_nat (length buf))%Z
  end.

Definition payload (pkt : VsockPacket) : list Z :=
  match pk_buf pkt with None => [] | Some buf => take (Z.to_nat (pkt_len pkt)) buf end.

(** The bytes a guest packet adds to the stream. *)
Definition accepted (pkt : VsockPacket) c : list Z :=
  if data_from_peer (state c) && bool_decide (pkt_op pkt = VSOCK_OP_RW) then payload pkt else [].

Lemma payload_run {S E} pkt buf (s : S) :
  pk_buf pkt = Some buf -> pkt_fits pkt ->
  pkt_payload (E := E) pkt buf s = (Done (payload pkt), s).
Proof.
  intros Hbuf Hfits. unfold pkt_fits in Hfits. rewrite Hbuf in Hfits.
  unfold pkt_payload, slice_of, payload. rewrite decide_True by lia. rewrite Hbuf.
  by rewrite Z.sub_0_r, drop_0.
Qed.

Lemma inv_send_rw s0 c acc del pkt :
  conn_inv s0 c acc del -> data_from_peer (state c) = true -> pkt_fits pkt ->
  exists c', send_rw pkt c = (Done tt, c') /\ conn_inv s0 c' (acc ++ payload pkt) del.
Proof.
  intros Hinv Hst Hfits. unfold send_rw. destruct (pk_buf pkt) as [buf|] eqn:Hbuf.
  2: { exists c. unfold payload. by rewrite Hbuf, app_nil_r. }
  rewrite (bind_done _ _ _ _ _ (payload_run _ _ _ Hbuf Hfits)).
  destruct (inv_send_bytes s0 c acc del (payload pkt) Hinv Hst)
    as (r & c' & Hrun & [[-> Hi]|(e & -> & Hi)]).
  - erewrite bind_done by (unfold attempt; by rewrite Hrun). eexists. split; [done|].
    destruct (peer_needs_credit_update c'); [|done].
    eapply inv_gentle; [exact Hi|by apply insert_gentle].
  - erewrite bind_done by (unfold attempt; by rewrite Hrun). by eexists.
Qed.

(** Control packets move no bytes. *)
Lemma gentle_insert it c c1 : it <> Response -> gentle c c1 -> gentle c (insert_rx it c1).
Proof.
  intros Hit [Gs Gb Gf Gx Gr Gst Gp Gw].
  destruct (insert_gentle it c1 Hit) as [_ _ _ _ Hr _ _ Hw].
  split; cbn; auto.
Qed.
Lemma gentle_expiry t c c1 : gentle c c1 -> gentle c (with_expiry t c1).
Proof. intros []. by split. Qed.
Lemma gentle_credit a f c c1 : gentle c c1 -> gentle c (with_peer_credit a f c1).
Proof. intros []. by split. Qed.
Lemma gentle_last_fwd f c c1 : gentle c c1 -> gentle c (with_last_fwd f c1).
Proof. intros []. by split. Qed.
Lemma gentle_state x c c1 :
  state c <> PeerInit -> state c <> Killed -> gentle c c1 -> gentle c (with_state x c1).
Proof. intros ? ? []. split; auto. by intros [|]. Qed.
Lemma gentle_remove it c c1 :
  gentle c c1 -> gentle c (with_pending (rx_remove it (pending_rx c1)).2 c1).
Proof.
  intros [Gs Gb Gf Gx Gr Gst Gp Gw]. split; try done.
  - unfold resp_pending. cbn [pending_rx with_pending].
    rewrite rx_contains_remove. intros [_ ?]%andb_true_iff. auto.
  - intros Hw. apply rx_remove_width. auto.
Qed.

End bytes.

Ltac solve_gentle :=
  cbn [fst snd];
  repeat match goal with
  | |- gentle _ (if ?b then _ else _) => destruct b
  | |- gentle ?c ?c => apply gentle_refl
  | |- gentle _ (insert_rx _ _) => apply gentle_insert
  | |- gentle _ (with_expiry _ _) => apply gentle_expiry
  | |- gentle _ (with_peer_credit _ _ _) => apply gentle_credit
  | |- gentle _ (with_last_fwd _ _) => apply gentle_last_fwd
  | |- gentle _ (with_pending _ _) => apply gentle_remove
  | |- gentle _ (with_state _ _) => apply gentle_state
  end; try congruence.

Section handlers.
Context {St : Type} `{HL : StreamLaws St}.
Implicit Types c : VsockConnection St.

Lemma send_control_gentle now pkt c :
  data_from_peer (state c) && bool_decide (pkt_op pkt = VSOCK_OP_RW) = false ->
  exists c', send_pkt now pkt c = (Done tt, c') /\ gentle c c'.
Proof.
  intros Hrw. unfold send_pkt. rewrite bind_modify, bind_get. cbn [state with_peer_credit].
  rewrite Hrw. destruct (state c) as [| | | |ro so|] eqn:Hst;
    repeat case_decide; repeat case_match; (eexists; split; [reflexivity|]); solve_gentle.
Qed.

Lemma inv_send_pkt s0 c acc del now pkt :
  conn_inv s0 c acc del -> pkt_fits pkt ->
  exists c', send_pkt now pkt c = (Done tt, c') /\ conn_inv s0 c' (acc ++ accepted pkt c) del.
Proof.
  intros Hinv Hfits. unfold accepted.
  destruct (data_from_peer (state c) && bool_decide (pkt_op pkt = VSOCK_OP_RW)) eqn:Hrw.
  - unfold send_pkt. rewrite bind_modify, bind_get. cbn [state with_peer_credit]. rewrite Hrw.
    apply andb_true_iff in Hrw as [Hst _].
    apply (inv_send_rw s0 (with_peer_credit _ _ c)); [|done|done].
    eapply inv_gentle; [exact Hinv|]. solve_gentle.
  - destruct (send_control_gentle now pkt c Hrw) as (c' & -> & Hg). rewrite app_nil_r.
    exists c'. split; [done|]. by eapply inv_gentle.
Qed.

(** A flush moves bytes from the buffer to the stream. *)
Lemma inv_flush s0 c acc del :
  conn_inv s0 c acc del ->
  exists r c', conn_flush c = (r, c') /\ state c' = state c /\ pending_rx c' = pending_rx c /\
    (exists k, (r = Done k \/ k = 0%Z /\ exists e, r = Fail (TxBufFlush e)) /\
      conn_inv s0 (with_fwd_cnt (wadd 32 (fwd_cnt c') (wrap 32 k)) c') acc del).
Proof.
  intros [Hb (w & Hw & Hf & Hcase) Hr Hx Hresp].
  destruct (flush_spec (tx_buf c) (stream c) Hb) as (k & s' & Hst & Hk & Hs & Hr' & Hout).
  pose proof (contents_length _ Hb) as Hlen.
  unfold conn_flush. destruct (flush_to _) as [r st]. cbn [fst snd] in *. subst st.
  exists r. eexists. split; [done|]. split; [done|]. split; [done|]. exists k. split; [done|].
  split; [by apply advanced_ok| |cbn; congruence|done|done].
  exists (w ++ take (Z.to_nat k) (contents (tx_buf c))). cbn. split_and!.
  - by rewrite Hs, Hw, app_assoc.
  - rewrite Hf, wadd_wrap_r, length_app, length_take, wadd_wrap_l. unfold wadd. f_equal. lia.
  - rewrite contents_advanced, <- app_assoc, take_drop by done. exact Hcase.
Qed.

Lemma inv_notify s0 c acc del evset :
  conn_inv s0 c acc del ->
  exists c', notify evset c = (Done tt, c') /\ conn_inv s0 c' acc del.
Proof.
  intros Hinv. unfold notify. rewrite bind_modify.
  set (c1 := if ev_contains evset EPOLLIN then insert_rx Rw c else c).
  assert (H1 : conn_inv s0 c1 acc del) by (eapply inv_gentle; [exact Hinv|subst c1; solve_gentle]).
  destruct (ev_contains evset EPOLLOUT); [|by exists c1]. unfold notify_out. rewrite bind_get.
  destruct (txbuf_is_empty (tx_buf c1)); [by exists c1|].
  destruct (inv_flush s0 c1 acc del H1) as (r & c2 & Hrun & _ & _ & k & Hr & Hi).
  assert (Hend : forall c3, conn_inv s0 c3 acc del -> conn_inv s0
    (if bool_decide (state c3 = PeerClosed true true) && txbuf_is_empty (tx_buf c3)
     then insert_rx Rst c3 else if peer_needs_credit_update c3 then insert_rx CreditUpdate c3 else c3)
    acc del).
  { intros c3 H3. eapply inv_gentle; [exact H3|]. solve_gentle. }
  destruct Hr as [->|[-> [e ->]]];
    (erewrite bind_done by (unfold attempt; rewrite Hrun; reflexivity)).
  - eexists. split; [reflexivity|]. by apply Hend.
  - destruct e; (eexists; split; [reflexivity|]); apply Hend; [done|].
    eapply inv_gentle; [exact Hi|]. apply kill_gentle.
Qed.

(** ** The bytes for the guest *)

(** The data a packet for the guest carries. *)
Definition rw_bytes (pkt : VsockPacket) : list Z :=
  if decide (pkt_op pkt = VSOCK_OP_RW) then payload pkt else [].

Lemma rw_bytes_other op pkt :
  hdr_ok pkt -> in_width 16 op -> op <> VSOCK_OP_RW -> rw_bytes (set_op op pkt) = [].
Proof. intros Hok Hw Hne. unfold rw_bytes. rewrite pkt_op_set by done. by rewrite decide_False. Qed.

Lemma rw_bytes_data hdr buf data :
  hdr_ok (mkPkt hdr None) -> length data <= length buf ->
  (Z.of_nat (length data) < 2 ^ 32)%Z ->
  let pkt := set_len (wrap 32 (Z.of_nat (length data)))
               (set_op VSOCK_OP_RW (mkPkt hdr (Some (list_inserts 0 data buf)))) in
  pkt_len pkt = Z.of_nat (length data) /\ rw_bytes pkt = data.
Proof.
  intros Hok Hlen Hw. rewrite (wrap_small 32) by (unfold in_width; lia). intros pkt.
  assert (Hl : pkt_len pkt = Z.of_nat (length data)).
  { apply hdr_get_set; [in_fields|by apply hdr_set_ok|]. cbn. lia. }
  split; [done|]. unfold rw_bytes. rewrite decide_True.
  2: { etransitivity; [apply hdr_get_set_other; vm_compute; lia|]. by apply pkt_op_set. }
  unfold payload. rewrite Hl. cbn [pkt pk_buf set_len set_op hdr_set]. rewrite Nat2Z.id.
  apply list_eq_same_length with (n := length data);
    [done|rewrite length_take, length_inserts; lia|].
  intros i x y Hi Hx Hy. rewrite lookup_take_lt, list_lookup_inserts in Hx by lia.
  rewrite Nat.sub_0_r in Hx. congruence.
Qed.

Lemma inv_respond s0 c acc del :
  conn_inv s0 c acc del -> resp_pending c = true ->
  conn_inv s0 (with_state Established (with_pending (rx_remove Response (pending_rx c)).2 c)) acc del.
Proof.
  intros [Hb (w & Hw & Hf & Hcase) Hr Hx Hresp] Hp.
  assert (Hnot : resp_pending (with_state Established
            (with_pending (rx_remove Response (pending_rx c)).2 c)) = false).
  { unfold resp_pending. cbn [pending_rx with_state with_pending]. by rewrite rx_contains_remove. }
  split; [done| |done|done|by rewrite Hnot].
  exists w. split_and!; [done|done|left]. destruct Hcase as [|(_ & Hn & _)]; [done|congruence].
Qed.

(** What [recv_rw] does to the bytes, by its result; [lim] bounds the data of
    the packet. *)
Definition recv_result (s0 : St) acc del (lim : Z) (r : outcome VsockError bool) c
    (pkt : VsockPacket) : Prop :=
  match r with
  | Done true => conn_inv s0 c acc (del ++ rw_bytes pkt) /\
                 (Z.of_nat (length (rw_bytes pkt)) <= lim)%Z
  | Done false => conn_inv s0 c acc del /\ hdr_ok pkt
  | Fail _ => conn_inv s0 c acc del
  | Crashed => False
  end.

Lemma inv_read s0 c acc del data s :
  conn_inv s0 c acc del -> received s = received (stream c) ++ data -> sent s = sent (stream c) ->
  conn_inv s0 (with_last_fwd (fwd_cnt c) (with_rx_cnt (wadd 32 (rx_cnt c) (Z.of_nat (length data)))
    (with_stream s c))) acc (del ++ data).
Proof.
  intros [Hb Hsent Hr Hx Hresp] Hrd Hsd. split; cbn.
  - done.
  - by rewrite Hsd.
  - by rewrite Hrd, Hr, app_assoc.
  - by rewrite Hx, fwd_wrap, length_app.
  - done.
Qed.

Lemma peer_avail_credit_width c : in_width 32 (peer_avail_credit c).
Proof. by apply wrap_in_width. Qed.

Definition shutdown_pkt (pkt : VsockPacket) : VsockPacket :=
  set_flag VSOCK_FLAGS_SHUTDOWN_SEND (set_flag VSOCK_FLAGS_SHUTDOWN_RCV
    (set_op VSOCK_OP_SHUTDOWN pkt)).

Lemma shutdown_pkt_spec pkt :
  hdr_ok pkt -> pkt_len (shutdown_pkt pkt) = pkt_len pkt /\ rw_bytes (shutdown_pkt pkt) = [].
Proof.
  intros Hok. unfold shutdown_pkt, set_flag. split.
  - do 3 (etransitivity; [apply hdr_get_set_other; vm_compute; lia|]). done.
  - unfold rw_bytes. rewrite decide_False; [done|].
    assert (pkt_op (shutdown_pkt pkt) = VSOCK_OP_SHUTDOWN) as Hop; [|by unfold shutdown_pkt, set_flag in Hop; rewrite Hop].
    do 2 (etransitivity; [apply hdr_get_set_other; vm_compute; lia|]). by apply pkt_op_set.
Qed.

Lemma inv_recv_rw s0 c acc del now pkt :
  conn_inv s0 c acc del -> hdr_ok pkt -> pkt_len pkt = 0%Z ->
  exists r c' pkt', recv_rw now (c, pkt) = (r, (c', pkt')) /\
    recv_result s0 acc del (peer_avail_credit c) r c' pkt'.
Proof.
  intros Hinv Hok Hlen. pose proof (peer_avail_credit_width c) as Hw. unfold in_width in Hw.
  unfold recv_rw. rewrite bind_get.
  destruct (data_to_peer (state c)) eqn:Hst; cbn [negb].
  2: { eexists (Done true), _, _. split; [reflexivity|]. cbn [recv_result fst snd].
       rewrite rw_bytes_other, app_nil_r by done. split; [done|cbn; lia]. }
  destruct (need_credit_update_from_peer c).
  { eexists (Done true), _, _. split; [reflexivity|]. cbn [recv_result fst snd].
    rewrite rw_bytes_other, app_nil_r by done. split; [|cbn; lia].
    eapply inv_gentle; [exact Hinv|]. solve_gentle. }
  destruct pkt as [hdr [buf|]]; cbn [pk_buf]; [|by eexists (Fail _), _, _].
  set (max_len := Z.min _ _). unfold bind at 1, recv_read. cbn [fst snd pk_buf pk_hdr].
  destruct (stream_read max_len (stream c)) as [[data|e] s] eqn:Hread.
  - apply read_ok in Hread as (Hle & Hr & Hs); [|lia].
    case_decide as Hnil.
    + subst data. set (pkt := mkPkt hdr (Some (list_inserts 0 [] buf))).
      destruct (shutdown_pkt_spec pkt Hok) as [Hl Hrw].
      exists (Done true), (with_expiry (Some (now + CONN_SHUTDOWN_TIMEOUT_MS)%Z)
        (with_state LocalClosed (with_last_fwd (fwd_cnt c)
          (with_rx_cnt (wadd 32 (rx_cnt c) (pkt_len (shutdown_pkt pkt))) (with_stream s c))))),
        (shutdown_pkt pkt).
      split; [reflexivity|]. cbn [recv_result]. rewrite Hl, Hrw.
      replace (pkt_len pkt) with (Z.of_nat (length (@nil Z))) by (symmetry; exact Hlen).
      split; [|cbn; lia].
      eapply inv_gentle; [exact (inv_read s0 c acc del [] s Hinv Hr Hs)|].
      solve_gentle; cbn; intros Heq; by rewrite Heq in Hst.
    + destruct (rw_bytes_data hdr buf data Hok) as [Hl Hrw]; [lia|lia|].
      set (pkt := set_len _ _) in Hl, Hrw.
      exists (Done true), (with_last_fwd (fwd_cnt c)
          (with_rx_cnt (wadd 32 (rx_cnt c) (pkt_len pkt)) (with_stream s c))), pkt.
      split; [reflexivity|]. cbn [recv_result]. rewrite Hl, Hrw.
      split; [exact (inv_read s0 c acc del data s Hinv Hr Hs)|lia].
  - apply read_err in Hread as [Hs Hr].
    assert (Hi : conn_inv s0 (with_stream s c) acc del).
    { destruct Hinv. split; cbn; rewrite ?Hs, ?Hr; done. }
    destruct e.
    + eexists (Done false), _, _. split; [reflexivity|]. by split.
    + eexists (Done true), _, _. split; [reflexivity|]. cbn [recv_result fst snd].
      rewrite rw_bytes_other, app_nil_r by done. split; [|cbn; lia].
      eapply inv_gentle; [exact Hi|]. solve_gentle.
Qed.

Lemma bind_take_rx {B} it (f : bool -> M (VsockConnection St * VsockPacket) VsockError B) c pkt :
  bind (take_rx it) f (c, pkt) =
  f (rx_contains it (pending_rx c)) (with_pending (rx_remove it (pending_rx c)).2 c, pkt).
Proof. done. Qed.

(** The packet that was filled in carries the bytes that were read. *)
Definition delivered (r : outcome VsockError unit) (pkt : VsockPacket) : list Z :=
  match r with Done _ => rw_bytes pkt | _ => [] end.

Definition recv_done (s0 : St) acc del (lim : Z)
    (m : outcome VsockError unit * (VsockConnection St * VsockPacket)) : Prop :=
  exists r c' pkt', m = (r, (c', pkt')) /\ r <> Crashed /\
    conn_inv s0 c' acc (del ++ delivered r pkt') /\
    (Z.of_nat (length (delivered r pkt')) <= lim)%Z.

(** A packet of another operation than [RW], with nothing moved. *)
Lemma recv_control s0 c c' acc del lim op pkt :
  (0 <= lim)%Z -> conn_inv s0 c acc del -> gentle c c' -> hdr_ok pkt -> in_width 16 op -> op <> VSOCK_OP_RW ->
  recv_done s0 acc del lim (Done tt, (c', set_op op pkt)).
Proof.
  intros Hlim Hinv Hg Hok Hw Hop. eexists (Done tt), _, _. split; [reflexivity|]. split; [done|].
  cbn [delivered]. rewrite rw_bytes_other, app_nil_r by done. split; [by eapply inv_gentle|done].
Qed.

(** The last indication that is looked at. *)
Lemma recv_credit s0 c acc del lim pkt :
  (0 <= lim)%Z -> conn_inv s0 c acc del -> hdr_ok pkt ->
  recv_done s0 acc del lim
    ((let* credit_update := take_rx CreditUpdate in
      let* cp := get in
      if credit_update && negb (has_pending_rx cp.1) then
        upd_pkt (set_op VSOCK_OP_CREDIT_UPDATE);;; note_fwd_cnt
      else throw NoData) (c, pkt)).
Proof.
  intros Hlim Hinv Hok. rewrite bind_take_rx, bind_get. cbn [fst].
  case_match.
  - apply (recv_control s0 c (with_last_fwd (fwd_cnt c)
      (with_pending (rx_remove CreditUpdate (pending_rx c)).2 c))); [done|done| |done|done|done].
    solve_gentle.
  - eexists (Fail _), _, _. split; [reflexivity|]. split; [done|]. cbn. rewrite app_nil_r.
    split; [|done]. eapply inv_gentle; [exact Hinv|]. solve_gentle.
Qed.

Lemma inv_recv_pkt s0 c acc del now pkt :
  conn_inv s0 c acc del -> recv_done s0 acc del (peer_avail_credit c) (recv_pkt now (c, pkt)).
Proof.
  intros Hinv. pose proof (peer_avail_credit_width c) as Hlim. unfold in_width in Hlim. pose proof (init_pkt_hdr c pkt) as Hok. pose proof (init_pkt_len c pkt) as Hlen.
  unfold recv_pkt. rewrite bind_modify. cbn [fst snd].
  generalize dependent (init_pkt c pkt). clear pkt. intros pkt Hok Hlen.
  rewrite bind_take_rx. destruct (rx_contains Rst (pending_rx c)).
  { eapply recv_control; [lia|exact Hinv| |done|done|done]. solve_gentle. }
  set (c1 := with_pending _ c).
  assert (H1 : conn_inv s0 c1 acc del) by (eapply inv_gentle; [exact Hinv|subst c1; solve_gentle]).
  change (peer_avail_credit c) with (peer_avail_credit c1) in *. clearbody c1. clear Hinv. rewrite bind_take_rx.
  destruct (rx_contains Response (pending_rx c1)) eqn:Hresp.
  { eapply recv_control; [lia|by apply inv_respond|apply gentle_refl|done|done|done]. }
  set (c2 := with_pending _ c1).
  assert (H2 : conn_inv s0 c2 acc del) by (eapply inv_gentle; [exact H1|subst c2; solve_gentle]).
  change (peer_avail_credit c1) with (peer_avail_credit c2) in *. clearbody c2. clear H1 Hresp.
  rewrite bind_take_rx. destruct (rx_contains Request (pending_rx c2)).
  { eapply recv_control; [lia|exact H2| |done|done|done]. solve_gentle. }
  set (c3 := with_pending _ c2).
  assert (H3 : conn_inv s0 c3 acc del) by (eapply inv_gentle; [exact H2|subst c3; solve_gentle]).
  change (peer_avail_credit c2) with (peer_avail_credit c3) in *. clearbody c3. clear H2.
  rewrite bind_take_rx.
  set (c4 := with_pending _ c3).
  assert (H4 : conn_inv s0 c4 acc del) by (eapply inv_gentle; [exact H3|subst c4; solve_gentle]).
  change (peer_avail_credit c3) with (peer_avail_credit c4) in *.
  destruct (rx_contains Rw (pending_rx c3)).
  2: { rewrite bind_ret. apply recv_credit; [lia|done|done]. }
  clearbody c4. clear H3. destruct (inv_recv_rw s0 c4 acc del now pkt H4 Hok Hlen)
    as (r & c' & pkt' & Hrun & Hres).
  destruct r as [[|]|e|]; cbn [recv_result] in Hres; [| | |done].
  - rewrite (bind_done _ _ _ _ _ Hrun). by eexists (Done tt), c', pkt'.
  - rewrite (bind_done _ _ _ _ _ Hrun). destruct Hres. apply recv_credit; [lia|done|done].
  - rewrite (bind_fail _ _ _ _ _ Hrun). eexists (Fail _), _, _. split; [done|]. split; [done|].
    cbn. rewrite app_nil_r. split; [done|lia].
Qed.
End handlers.

(** ** Runs of a connection *)
Inductive conn_ev :=
| EvSend (now : Z) (pkt : VsockPacket)
| EvRecv (now : Z) (pkt : VsockPacket)
| EvNotify (evset : Z)
| EvKill.

Definition ev_ok (ev : conn_ev) : Prop :=
  match ev with EvSend _ pkt => pkt_fits pkt | _ => True end.

Section run.
Context {St : Type} `{HS : Stream St}.
Abbreviation conn := (VsockConnection St).

(** One call: the bytes it accepted from the guest, those it delivered to the
    guest, and the connection after it; [None] is a panic. *)
Definition conn_step (ev : conn_ev) (c : conn) : option (list Z * list Z * conn) :=
  match ev with
  | EvSend now pkt =>
    match send_pkt now pkt c with (Crashed, _) => None | (_, c') => Some (accepted pkt c, [], c') end
  | EvRecv now pkt =>
    match recv_pkt now (c, pkt) with
    | (Crashed, _) => None
    | (r, (c', pkt')) => Some ([], delivered r pkt', c')
    end
  | EvNotify evset =>
    match notify evset c with (Crashed, _) => None | (_, c') => Some ([], [], c') end
  | EvKill => Some ([], [], kill c)
  end.

Fixpoint conn_run (evs : list conn_ev) (c : conn) : option (list Z * list Z * conn) :=
  match evs with
  | [] => Some ([], [], c)
  | ev :: rest =>
    '(a, d, c1) ← conn_step ev c;
    '(a', d', c2) ← conn_run rest c1;
    Some (a ++ a', d ++ d', c2)
  end.
End run.

Section run_inv.
Context {St : Type} `{HL : StreamLaws St}.

Lemma conn_step_inv s0 ev (c : VsockConnection St) acc del :
  conn_inv s0 c acc del -> ev_ok ev ->
  exists a d c', conn_step ev c = Some (a, d, c') /\ conn_inv s0 c' (acc ++ a) (del ++ d).
Proof.
  intros Hinv Hok. destruct ev as [now pkt|now pkt|evset|]; cbn [conn_step].
  - destruct (inv_send_pkt s0 c acc del now pkt Hinv Hok) as (c' & -> & Hi).
    eexists _, _, _. split; [reflexivity|]. by rewrite app_nil_r.
  - destruct (inv_recv_pkt s0 c acc del now pkt Hinv) as (r & c' & pkt' & -> & Hr & Hi & _).
    destruct r; [| |done]; (eexists _, _, _; split; [reflexivity|]); by rewrite app_nil_r.
  - destruct (inv_notify s0 c acc del evset Hinv) as (c' & -> & Hi).
    eexists _, _, _. split; [reflexivity|]. by rewrite !app_nil_r.
  - eexists _, _, _. split; [reflexivity|]. rewrite !app_nil_r.
    eapply inv_gentle; [exact Hinv|]. apply kill_gentle.
Qed.

Lemma conn_run_inv s0 evs : forall (c : VsockConnection St) acc del,
  conn_inv s0 c acc del -> Forall ev_ok evs ->
  exists a d c', conn_run evs c = Some (a, d, c') /\ conn_inv s0 c' (acc ++ a) (del ++ d).
Proof.
  induction evs as [|ev evs IH]; intros c acc del Hinv Hok; cbn [conn_run].
  - eexists _, _, _. split; [reflexivity|]. by rewrite !app_nil_r.
  - inversion_clear Hok as [|? ? H1 H2].
    destruct (conn_step_inv s0 ev c acc del Hinv H1) as (a & d & c1 & -> & Hi). cbn.
    destruct (IH c1 _ _ Hi H2) as (a' & d' & c2 & -> & Hi'). cbn.
    eexists _, _, _. split; [reflexivity|]. by rewrite !app_assoc.
Qed.

Lemma new_conn_inv (c : VsockConnection St) :
  tx_buf c = txbuf_new -> fwd_cnt c = 0%Z -> rx_cnt c = 0%Z ->
  (resp_pending c = true -> state c = PeerInit) -> conn_inv (stream c) c [] [].
Proof.
  intros Hb Hf Hx Hr. split; rewrite ?Hb, ?Hf, ?Hx; try done.
  - exists []. rewrite app_nil_r. auto.
  - by rewrite app_nil_r.
  - auto.
Qed.
End run_inv.

(** A connection as one of its two constructors makes it. *)
Definition new_conn {St} (c : VsockConnection St) : Prop :=
  (exists s lc pc lp pp alloc, c = new_peer_init s lc pc lp pp alloc) \/
  (exists s lc pc lp pp, c = new_local_init s lc pc lp pp).

Lemma new_conn_ok {St} `{HL : StreamLaws St} (c : VsockConnection St) :
  new_conn c -> conn_inv (stream c) c [] [].
Proof.
  intros [(s & lc & pc & lp & pp & al & ->)|(s & lc & pc & lp & pp & ->)]; by apply new_conn_inv.
Qed.

(** C4: A vsock connection is a reliable byte stream in both directions.  For
    every sequence of packets from the guest whose data fits their buffers,
    packets asked for by the guest, stream events and kills, and for every
    behaviour of the host stream (short writes, short reads, errors): no handler
    panics; what was written to the host stream is a prefix of the bytes the
    guest sent in accepted packets, and as long as the connection is not killed
    those bytes are exactly the ones written followed by the ones in the
    transmit buffer; what was read from the host stream is exactly what the data
    packets handed to the guest carry; and [fwd_cnt] and [rx_cnt], from which
    both sides compute credit, are the numbers of these bytes modulo [2^32].  A
    packet longer than its buffer panics: [short_buffer_panics] below. *)
Theorem connection_stream {St} `{HL : StreamLaws St} (c : VsockConnection St) evs :
  new_conn c -> Forall ev_ok evs ->
  exists acc del c' w, conn_run evs c = Some (acc, del, c') /\
    sent (stream c') = sent (stream c) ++ w /\ w `prefix_of` acc /\
    (state c' <> Killed -> w ++ contents (tx_buf c') = acc) /\
    received (stream c') = received (stream c) ++ del /\
    fwd_cnt c' = wrap 32 (Z.of_nat (length w)) /\ rx_cnt c' = wrap 32 (Z.of_nat (length del)).
Proof.
  intros Hnew Hok. pose proof (new_conn_ok c Hnew) as Hinv.
  destruct (conn_run_inv _ evs c [] [] Hinv Hok) as (acc & del & c' & Hrun & [_ (w & Hw & Hf & Hcase) Hr Hx _]).
  rewrite ?app_nil_l in *. exists acc, del, c', w. split_and!; try done.
  - destruct Hcase as [<-|(_ & _ & Hp)]; [by apply prefix_app_r|].
    by eapply prefix_app_l.
  - intros Hst. by destruct Hcase as [|[? _]].
Qed.

(** ** Credit *)
Section credit.
Context {St : Type} `{HS : Stream St}.
Implicit Types c : VsockConnection St.

(** The buffer the guest has, and how many bytes of it it says to have
    forwarded. *)
Definition peer_credit c : Z * Z := (peer_buf_alloc c, peer_fwd_cnt c).

Lemma recv_keeps_credit now :
  respects (kept (fun cp : VsockConnection St * VsockPacket => peer_credit cp.1)) (recv_pkt now).
Proof.
  assert (Htake : forall it, respects (kept (fun cp : VsockConnection St * VsockPacket =>
            peer_credit cp.1)) (take_rx it)) by (intros it [c pkt]; reflexivity).
  assert (Hread : forall n, respects (kept (fun cp : VsockConnection St * VsockPacket =>
            peer_credit cp.1)) (recv_read n)).
  { intros n [c pkt]. unfold recv_read. by destruct (stream_read n _). }
  unfold recv_pkt, recv_rw, upd, upd_pkt, note_fwd_cnt, upd.
  repeat respects_basic; first [apply Htake|apply Hread|reflexivity].
Qed.

Lemma push_keeps_credit buf : respects (kept peer_credit) (conn_push (St := St) buf).
Proof. intros c. unfold conn_push. by destruct (push buf (tx_buf c)). Qed.
Lemma flush_keeps_credit : respects (kept peer_credit) (conn_flush (St := St)).
Proof. intros c. unfold conn_flush. by destruct (flush_to _) as [? []]. Qed.
Lemma write_keeps_credit buf : respects (kept peer_credit) (conn_write (St := St) buf).
Proof. intros c. unfold conn_write. by destruct (stream_write buf _). Qed.

Ltac keeps_credit :=
  repeat respects_basic;
  try first [apply push_keeps_credit|apply flush_keeps_credit|apply write_keeps_credit];
  unfold kept; repeat case_match; try reflexivity.

(** A packet of the guest renews its grant. *)
Lemma send_sets_credit now pkt c :
  peer_credit (send_pkt now pkt c).2 = (buf_alloc pkt, pkt_fwd_cnt pkt).
Proof.
  unfold send_pkt. rewrite bind_modify. set (c1 := with_peer_credit _ _ c).
  change (buf_alloc pkt, pkt_fwd_cnt pkt) with (peer_credit c1). generalize c1.
  match goal with |- forall c, peer_credit (?m c).2 = _ => change (respects (kept peer_credit) m) end.
  unfold send_rw, send_bytes, pkt_payload, slice_of. keeps_credit.
Qed.

Lemma notify_keeps_credit evset : respects (kept peer_credit) (notify (St := St) evset).
Proof. unfold notify, notify_out. keeps_credit. Qed.
End credit.

(** *** A guest that does not take back its grant

    The guest forwards the bytes it is given to its application; each of its
    packets says how many it has forwarded, modulo [2^32], and how large its
    buffer is.  It may lag behind, and it may change the size of its buffer,
    but it does not take back what it granted: the bytes it forwarded and the
    size of the buffer together do not shrink.  [granting c0 c del k]: from
    [c0] the calls led to [c], [del] are the bytes handed to the guest, and the
    last packet of the guest acknowledged [k] of them. *)
Section granting.
#[local] Open Scope Z_scope.
Context {St : Type} `{HS : Stream St}.

Inductive granting (c0 : VsockConnection St) : VsockConnection St -> list Z -> Z -> Prop :=
| granting_new : new_conn c0 -> in_width 32 (peer_buf_alloc c0) -> granting c0 c0 [] 0
| granting_send c del k now pkt k' a d c' :
  granting c0 c del k -> pkt_fits pkt ->
  0 <= k' <= Z.of_nat (length del) -> pkt_fwd_cnt pkt = wrap 32 k' -> in_width 32 (buf_alloc pkt) ->
  k + peer_buf_alloc c <= k' + buf_alloc pkt ->
  conn_step (EvSend now pkt) c = Some (a, d, c') -> granting c0 c' (del ++ d) k'
| granting_other c del k ev a d c' :
  granting c0 c del k -> match ev with EvSend _ _ => False | _ => True end ->
  conn_step ev c = Some (a, d, c') -> granting c0 c' (del ++ d) k.
End granting.

Section within_grant.
#[local] Open Scope Z_scope.
Context {St : Type} `{HL : StreamLaws St}.

Record within_grant (c0 c : VsockConnection St) (del : list Z) (k : Z) : Prop := {
  wg_inv : exists acc, conn_inv (stream c0) c acc del;
  wg_width : in_width 32 (peer_buf_alloc c);
  wg_count : peer_fwd_cnt c = wrap 32 k;
  wg_past : k <= Z.of_nat (length del);
  wg_room : Z.of_nat (length del) - k <= peer_buf_alloc c;
}.

(** While the bytes that are not acknowledged fit the grant, the credit is
    what is left of it. *)
Lemma avail_credit c0 c del k :
  within_grant c0 c del k ->
  peer_avail_credit c = k + peer_buf_alloc c - Z.of_nat (length del).
Proof.
  intros [[acc Hinv] Hw Hk Hp Hr]. unfold peer_avail_credit, in_width in *.
  rewrite (ci_rx _ _ _ _ Hinv), Hk, wsub_wrap_l, wsub_wrap_r.
  rewrite !wsub_small by (unfold in_width; rewrite ?wsub_small by (unfold in_width; lia); lia). lia.
Qed.

Lemma granting_within (c0 c : VsockConnection St) del k :
  granting c0 c del k -> within_grant c0 c del k.
Proof.
  induction 1 as [Hnew Hw|c del k now pkt k' a d c' _ IH Hfits Hpast Hcnt Hw Hgrant Hstep
    |c del k ev a d c' _ IH Hev Hstep].
  - split; [exists []; by apply new_conn_ok|done| |cbn; lia|unfold in_width in *; cbn; lia].
    by destruct Hnew as [(? & ? & ? & ? & ? & ? & ->)|(? & ? & ? & ? & ? & ->)].
  - destruct IH as [[acc Hinv] _ _ _ Hroom].
    destruct (conn_step_inv _ (EvSend now pkt) c acc del Hinv Hfits) as (a1 & d1 & c1 & Hs & Hi).
    rewrite Hs in Hstep. simplify_eq. cbn [conn_step] in Hs.
    pose proof (send_sets_credit now pkt c) as Hc.
    destruct (send_pkt now pkt c) as [[] c2]; [| |done]; simplify_eq; cbn [snd] in Hc; injection Hc as Ha Hf;
      (split; rewrite ?app_nil_r in *; [by eexists|by rewrite Ha|by rewrite Hf|lia|rewrite Ha; lia]).
  - assert (Hok : ev_ok ev) by by destruct ev. pose proof (avail_credit _ _ _ _ IH) as Hav.
    destruct IH as [[acc Hinv] Hw Hk Hp Hr].
    destruct (conn_step_inv _ ev c acc del Hinv Hok) as (a1 & d1 & c1 & Hs & Hi).
    rewrite Hs in Hstep. simplify_eq. 
    enough (peer_credit c' = peer_credit c /\ Z.of_nat (length d) <= peer_avail_credit c) as [[= Ha Hf] Hd].
    { split; rewrite ?Ha, ?Hf, ?length_app; [by eexists|done|done|lia|lia]. }
    assert (0 <= peer_avail_credit c) by (rewrite Hav; lia).
    destruct ev as [|now pkt|evset|]; [done| | |]; cbn [conn_step] in Hs.
    + destruct (inv_recv_pkt _ c acc del now pkt Hinv) as (r & c2 & p2 & Heq & Hr2 & _ & Hlim).
      pose proof (recv_keeps_credit now (c, pkt)) as Hkeep. rewrite Heq in Hs, Hkeep.
      destruct r; [| |done]; by simplify_eq.
    + pose proof (notify_keeps_credit evset c) as Hkeep.
      destruct (notify evset c) as [[] c2]; [| |done]; by simplify_eq.
    + by simplify_eq.
Qed.
End within_grant.

(** C35: The guest's receive buffer is never overrun.  For a guest whose packets
    fit their buffers and that does not take back what it granted, over every
    run of a new connection and every behaviour of the host stream: the bytes
    handed to the guest beyond the [k] that its last packet acknowledged fit
    the buffer that packet announced, and the credit the code computes with
    wrapping 32-bit counters is exactly what is left of that buffer. *)
Theorem recv_within_credit {St} `{HL : StreamLaws St} (c0 c : VsockConnection St) del k :
  granting c0 c del k ->
  (k <= Z.of_nat (length del) /\ Z.of_nat (length del) - k <= peer_buf_alloc c /\
   peer_avail_credit c = k + peer_buf_alloc c - Z.of_nat (length del))%Z.
Proof.
  intros Hrun. pose proof (granting_within c0 c del k Hrun) as Hin.
  split_and!; [apply Hin|apply Hin|by apply (avail_credit c0)].
Qed.

(** A guest that keeps to the credit it was given is never cut off for
    sending too much.  After any run, if the connection has not been killed
    and the guest sends [buf] such that its bytes beyond the [seen] ones it
    knows to be forwarded fit the transmit buffer, the bytes are not refused
    for lack of room. *)
Theorem credit_prevents_overflow {St} `{HL : StreamLaws St} (c0 c : VsockConnection St) evs acc del
    buf seen :
  new_conn c0 -> Forall ev_ok evs -> conn_run evs c0 = Some (acc, del, c) -> state c <> Killed ->
  sent (stream c0) ++ take seen acc `prefix_of` sent (stream c) -> seen <= length acc ->
  (Z.of_nat (length acc + length buf - seen) <= SIZE)%Z ->
  (send_bytes buf c).1 <> Fail TxBufFull.
Proof.
  intros Hnew Hok Hrun Hst Hseen Hle Hfit.
  destruct (conn_run_inv (stream c0) evs c0 [] [] (new_conn_ok c0 Hnew) Hok)
    as (a & d & c1 & Hrun' & [Hb (w & Hw & Hf & Hcase) _ _ _]).
  rewrite Hrun in Hrun'. simplify_eq. destruct Hcase as [Hacc|[? _]]; [|done].
  rewrite app_nil_l in Hacc. rewrite Hw in Hseen. apply prefix_app_inv, prefix_length in Hseen.
  rewrite length_take in Hseen.
  assert (Hlen : length a = length w + length (contents (tx_buf c1)))
    by by rewrite <- Hacc, length_app.
  destruct (send_bytes_run buf c1 Hb) as (r & s & b & k & -> & Hk & _ & _ & _ & _ & Hh).
  { rewrite Hf. by apply wrap_in_width. }
  destruct Hh as [[-> _]|(e & -> & _ & He)]; [done|]. cbn. intros [= ->].
  specialize (He eq_refl). lia.
Qed.

(** ** Examples *)
Definition example_pkt (op len : Z) (buf : option (list Z)) : VsockPacket :=
  set_len len (set_op op (zero_hdr (mkPkt [] buf))).

(** A guest-initiated connection to a host that takes two bytes, then blocks,
    and has three bytes for a guest that granted two. *)
Definition example_host : script := Script 9 [Take 2; Refuse WouldBlock] [] [Ok [9; 8; 7]%Z] [].
Definition example_conn : VsockConnection script := new_peer_init example_host 2 3 1024 5000 2.
Definition example_evs : list conn_ev :=
  [EvRecv 0 (mkPkt [] (Some (replicate 16 0%Z)));
   EvSend 1 (set_buf_alloc 2 (example_pkt VSOCK_OP_RW 3 (Some [1; 2; 3; 4]%Z)));
   EvNotify EPOLLIN].

Definition after_example : list Z * list Z * VsockConnection script :=
  default ([], [], example_conn) (conn_run example_evs example_conn).

Lemma example_evs_ok : Forall ev_ok example_evs.
Proof.
  unfold example_evs. repeat constructor; vm_compute; congruence.
Qed.

Lemma example_conn_new : new_conn example_conn.
Proof. left. by eexists _, _, _, _, _, _. Qed.

Lemma connection_stream_witness :
  exists acc del c' w, conn_run example_evs example_conn = Some (acc, del, c') /\
    sent (stream c') = sent (stream example_conn) ++ w /\ w `prefix_of` acc /\
    (state c' <> Killed -> w ++ contents (tx_buf c') = acc) /\
    received (stream c') = received (stream example_conn) ++ del /\
    fwd_cnt c' = wrap 32 (Z.of_nat (length w)) /\ rx_cnt c' = wrap 32 (Z.of_nat (length del)).
Proof. apply (connection_stream (HL := script_laws) _ _ example_conn_new example_evs_ok). Defined.

Lemma default_run {A B C} (o : option (A * B * C)) d :
  bool_decide (is_Some o) = true ->
  o = Some ((default d o).1.1, (default d o).1.2, (default d o).2).
Proof. destruct o as [[[]]|]; [done|]. by vm_compute. Qed.

Lemma after_example_run :
  conn_run example_evs example_conn = Some (after_example.1.1, after_example.1.2, after_example.2).
Proof.
  unfold after_example.
  refine (default_run (conn_run example_evs example_conn) ([], [], example_conn) _).
  vm_compute. reflexivity.
Qed.

Definition example_step (ev : conn_ev) (c : VsockConnection script) : list Z * list Z * VsockConnection script :=
  default ([], [], c) (conn_step ev c).

Lemma example_granting_step c0 c del k ev d :
  granting c0 c del k -> match ev with EvSend _ _ => False | _ => True end ->
  bool_decide (is_Some (conn_step ev c)) = true -> (example_step ev c).1.2 = d ->
  granting c0 (example_step ev c).2 (del ++ d) k.
Proof. intros Hc Hev Hsome <-. eapply granting_other; [exact Hc|exact Hev|]. by apply default_run. Qed.

Lemma example_granting_send c0 c del k now pkt k' d :
  granting c0 c del k -> pkt_fits pkt -> (0 <= k' <= Z.of_nat (length del))%Z ->
  pkt_fwd_cnt pkt = wrap 32 k' -> in_width 32 (buf_alloc pkt) ->
  (k + peer_buf_alloc c <= k' + buf_alloc pkt)%Z ->
  bool_decide (is_Some (conn_step (EvSend now pkt) c)) = true -> (example_step (EvSend now pkt) c).1.2 = d ->
  granting c0 (example_step (EvSend now pkt) c).2 (del ++ d) k'.
Proof.
  intros Hc Hfits Hk Hcnt Hw Hgrant Hsome <-. eapply granting_send; [exact Hc|done..|]. by apply default_run.
Qed.

Definition example_room : VsockPacket := mkPkt [] (Some (replicate 16 0%Z)).
Definition example_grant : VsockPacket := set_buf_alloc 2 (example_pkt VSOCK_OP_RW 3 (Some [1; 2; 3; 4]%Z)).
Definition example_final : VsockConnection script :=
  foldl (fun c ev => (example_step ev c).2) example_conn
    [EvRecv 0 example_room; EvSend 1 example_grant; EvNotify EPOLLIN; EvRecv 5 example_room].

(** The guest granted two bytes and is given two of the three. *)
Lemma example_granting : granting example_conn example_final [9; 8]%Z 0.
Proof.
  refine (example_granting_step _ _ [] 0 (EvRecv 5 example_room) [9; 8]%Z _ I _ _); [|by vm_compute..].
  refine (example_granting_step _ _ [] 0 (EvNotify EPOLLIN) [] _ I _ _); [|by vm_compute..].
  refine (example_granting_send _ _ [] 0 1 example_grant 0 [] _ _ _ _ _ _ _ _); [|vm_compute..].
  - refine (example_granting_step _ _ [] 0 (EvRecv 0 example_room) [] _ I _ _); [|by vm_compute..].
    apply granting_new; [apply example_conn_new|vm_compute; split; congruence].
  - split; congruence.
  - split; congruence.
  - reflexivity.
  - split; congruence.
  - congruence.
  - reflexivity.
  - reflexivity.
Qed.

Lemma recv_within_credit_witness :
  (2 - 0 <= peer_buf_alloc example_final /\ peer_avail_credit example_final = 0)%Z.
Proof.
  destruct (recv_within_credit (HL := script_laws) example_conn example_final [9; 8]%Z 0 example_granting)
    as (_ & Hroom & Hcredit).
  split; [exact Hroom|]. rewrite Hcredit. vm_compute. reflexivity.
Defined.

Lemma credit_prevents_overflow_witness :
  after_example.1.1 = [1; 2; 3]%Z /\ contents (tx_buf after_example.2) = [3]%Z /\
  (send_bytes (replicate (Z.to_nat 65534) 0%Z) after_example.2).1 <> Fail TxBufFull.
Proof.
  split; [vm_compute; reflexivity|]. split; [vm_compute; reflexivity|].
  apply (credit_prevents_overflow (HL := script_laws) example_conn after_example.2 example_evs
    after_example.1.1 after_example.1.2 (replicate (Z.to_nat 65534) 0%Z) 1 example_conn_new example_evs_ok
    after_example_run).
  - vm_compute. congruence.
  - apply (bool_decide_unpack _). vm_compute. exact I.
  - apply (bool_decide_unpack _). vm_compute. exact I.
  - vm_compute. congruence.
Defined.

(** The packet of one descriptor with a length beyond its buffer (see
    [VsockPacket.single_descriptor_unchecked]) brings the device down. *)
Lemma short_buffer_panics :
  let c := with_state Established example_conn in
  (send_pkt 0 (example_pkt VSOCK_OP_RW 10 (Some [])) c).1 = Crashed.
Proof. vm_compute. reflexivity. Qed.

(** A shutdown announced in two packets while bytes are buffered arms no
    timer, unlike the same shutdown in one packet. *)
Lemma shutdown_in_two_steps_has_no_timer :
  let shutdown f := set_flags f (example_pkt VSOCK_OP_SHUTDOWN 0 None) in
  let c := after_example.2 in
  let one := (send_pkt 7 (shutdown 3%Z) c).2 in
  let two := (send_pkt 8 (shutdown 2%Z) (send_pkt 7 (shutdown 1%Z) c).2).2 in
  state one = PeerClosed true true /\ state two = PeerClosed true true /\
  expiry one = Some 2007%Z /\ expiry two = None.
Proof. vm_compute. auto. Qed.
