(* ===== verification/VsockQueues.v ===== *)
(** The bounded queues of the vsock multiplexer
    (hypervisor/virtio-devices/src/vsock/unix/muxer_rxq.rs and
    muxer_killq.rs): packets due to the guest, and connections due to be
    killed.  Both give up completeness when they are full and remember it in
    their [synced] flag. *)
From stdpp Require Import gmap strings list list_numbers sorting.
From S2P Require Import Prelude Stream VsockTxBuf VsockPacket VsockConn.

Definition MAX_CONNECTIONS : nat := 1023.
Definition MUXER_RXQ_SIZE : nat := 256.
Definition MUXER_KILLQ_SIZE : nat := 128.

Record ConnMapKey := Key { k_local : Z; k_peer : Z }.

#[global] Instance ConnMapKey_eq_dec : EqDecision ConnMapKey.
Proof. solve_decision. Defined.
#[global] Program Instance ConnMapKey_countable : Countable ConnMapKey :=
  inj_countable' (fun k => (k_local k, k_peer k)) (fun '(a, b) => Key a b) _.
Next Obligation. by intros []. Qed.

Inductive MuxerRx :=
| ConnRx (key : ConnMapKey)
| RstPkt (local_port peer_port : Z).

#[global] Instance MuxerRx_eq_dec : EqDecision MuxerRx.
Proof. solve_decision. Defined.

(** ** The RX queue *)
Record MuxerRxQ := mkRxQ { rq_q : list MuxerRx; rq_synced : bool }.

Definition rxq_new : MuxerRxQ := mkRxQ [] true.

Definition rxq_is_full (q : MuxerRxQ) : bool := bool_decide (length (rq_q q) = MUXER_RXQ_SIZE).
Definition rxq_is_empty (q : MuxerRxQ) : bool := bool_decide (length (rq_q q) = 0).

(** [for qi in q.iter_mut().rev()]: the last connection in the queue makes
    room for [rx]. *)
Fixpoint replace_last_conn (rx : MuxerRx) (q : list MuxerRx) : option (list MuxerRx) :=
  match q with
  | [] => None
  | qi :: rest =>
    match replace_last_conn rx rest with
    | Some rest' => Some (qi :: rest')
    | None => match qi with ConnRx _ => Some (rx :: rest) | RstPkt _ _ => None end
    end
  end.

Definition rxq_push (rx : MuxerRx) (q : MuxerRxQ) : bool * MuxerRxQ :=
  if rq_synced q && negb (rxq_is_full q) then (true, mkRxQ (rq_q q ++ [rx]) (rq_synced q))
  else match rx with
  | RstPkt _ _ =>
    match replace_last_conn rx (rq_q q) with
    | Some q' => (true, mkRxQ q' false)
    | None => (false, q)
    end
  | ConnRx _ => (false, mkRxQ (rq_q q) false)
  end.

Definition rxq_peek (q : MuxerRxQ) : option MuxerRx := head (rq_q q).
Definition rxq_pop (q : MuxerRxQ) : option MuxerRx * MuxerRxQ :=
  (head (rq_q q), mkRxQ (tail (rq_q q)) (rq_synced q)).

(** ** The kill queue *)
Record MuxerKillQItem := KillItem { ki_key : ConnMapKey; ki_kill_time : Z }.
Record MuxerKillQ := mkKillQ { kq_q : list MuxerKillQItem; kq_synced : bool }.

Definition killq_new : MuxerKillQ := mkKillQ [] true.
Definition killq_is_full (q : MuxerKillQ) : bool := bool_decide (length (kq_q q) = MUXER_KILLQ_SIZE).
Definition killq_is_empty (q : MuxerKillQ) : bool := bool_decide (length (kq_q q) = 0).

Definition killq_push (key : ConnMapKey) (kill_time : Z) (q : MuxerKillQ) : MuxerKillQ :=
  if negb (kq_synced q) || killq_is_full q then mkKillQ (kq_q q) false
  else mkKillQ (kq_q q ++ [KillItem key kill_time]) (kq_synced q).

Definition killq_pop (now : Z) (q : MuxerKillQ) : option ConnMapKey * MuxerKillQ :=
  match kq_q q with
  | item :: rest =>
    if decide (ki_kill_time item < now)%Z then (Some (ki_key item), mkKillQ rest (kq_synced q))
    else (None, q)
  | [] => (None, q)
  end.

(** The order in which a hash map is iterated, and the result of
    [sort_unstable_by_key] on the kill time. *)
Class MuxEnv := {
  hash_order : list ConnMapKey -> list ConnMapKey;
  sort_by_kill_time : list MuxerKillQItem -> list MuxerKillQItem;
}.
Class MuxEnvLaws (ME : MuxEnv) : Prop := {
  hash_order_perm l : hash_order l ≡ₚ l;
  sort_perm l : sort_by_kill_time l ≡ₚ l;
  sort_sorted l : Sorted (fun a b => (ki_kill_time a <= ki_kill_time b)%Z) (sort_by_kill_time l);
}.

Section from_map.
Context {St : Type} {ME : MuxEnv}.
Abbreviation conns := (gmap ConnMapKey (VsockConnection St)).

(** [conn_map.iter()] *)
Definition conn_iter (m : conns) : list (ConnMapKey * VsockConnection St) :=
  omap (fun k => (fun c => (k, c)) <$> m !! k) (hash_order (map_to_list m).*1).

(** The loops of the two [from_conn_map]: take the items found until the queue
    is full. *)
Fixpoint collect {A} (size : nat) (found : list A) (q : list A) : list A * bool :=
  match found with
  | [] => (q, true)
  | x :: rest => if decide (size <= length q) then (q, false) else collect size rest (q ++ [x])
  end.

Definition rxq_from_conn_map (m : conns) : MuxerRxQ :=
  let found := omap (fun kc => if has_pending_rx kc.2 then Some (ConnRx kc.1) else None) (conn_iter m) in
  let '(q, synced) := collect MUXER_RXQ_SIZE found [] in
  mkRxQ q synced.

(** Only connections that expire in the future are collected. *)
Definition killq_from_conn_map (now : Z) (m : conns) : MuxerKillQ :=
  let found := omap (fun kc => if will_expire now kc.2
                               then KillItem kc.1 <$> expiry kc.2 else None) (conn_iter m) in
  let '(q, synced) := collect MUXER_KILLQ_SIZE found [] in
  mkKillQ (sort_by_kill_time q) synced.
End from_map.

(** ** What the queues guarantee *)
Definition is_rst (rx : MuxerRx) : Prop := match rx with RstPkt _ _ => True | _ => False end.

Lemma replace_last_length rx q q' : replace_last_conn rx q = Some q' -> length q' = length q.
Proof.
  revert q'. induction q as [|qi q IH]; intros q' Hq; simpl in Hq; [done|].
  destruct (replace_last_conn rx q) as [r|] eqn:Hr.
  - simplify_eq. simpl. by rewrite (IH r).
  - destruct qi; by simplify_eq.
Qed.

Lemma replace_last_None rx q : replace_last_conn rx q = None -> Forall is_rst q.
Proof.
  induction q as [|qi q IH]; simpl; intros Hq; [constructor|].
  destruct (replace_last_conn rx q); [done|]. destruct qi; [done|]. constructor; [done|auto].
Qed.

(** Replacing keeps every RST and adds the new item. *)
Lemma replace_last_elem rx q q' :
  replace_last_conn rx q = Some q' -> rx ∈ q' /\ forall x, is_rst x -> x ∈ q -> x ∈ q'.
Proof.
  revert q'. induction q as [|qi q IH]; intros q' Hq; simpl in Hq; [done|].
  destruct (replace_last_conn rx q) as [r|] eqn:Hr.
  - simplify_eq. destruct (IH r eq_refl) as [H1 H2]. split; [by right|].
    intros x Hx [->|Hin]%elem_of_cons; [left|right; auto].
  - destruct qi; simplify_eq. split; [left|].
    intros x Hx [->|Hin]%elem_of_cons; [done|by right].
Qed.

Definition rxq_ok (q : MuxerRxQ) : Prop := length (rq_q q) <= MUXER_RXQ_SIZE.

Lemma rxq_push_ok rx q : rxq_ok q -> rxq_ok (rxq_push rx q).2.
Proof.
  unfold rxq_ok, rxq_push, rxq_is_full. intros Hok.
  destruct (rq_synced q); simpl; [case_bool_decide; simpl|]; rewrite ?length_app; simpl; try lia;
    (destruct rx; simpl; [done|]); destruct (replace_last_conn _ _) eqn:Hr; simpl; try done;
    by rewrite (replace_last_length _ _ _ Hr).
Qed.

(** A queue that is synced after a push was synced before it, has lost
    nothing, and has the item, unless that is an RST. *)
Lemma rxq_push_synced rx q :
  rq_synced (rxq_push rx q).2 = true ->
  rq_synced q = true /\ (forall x, x ∈ rq_q q -> x ∈ rq_q (rxq_push rx q).2) /\
  (is_rst rx \/ rx ∈ rq_q (rxq_push rx q).2).
Proof.
  unfold rxq_push. destruct (rq_synced q && negb (rxq_is_full q)) eqn:Hroom; simpl.
  - intros Hs. split; [done|]. split; [|right]; intros; apply elem_of_app; [by left|right; left].
  - destruct rx; simpl; [done|]. destruct (replace_last_conn _ _); simpl; [done|].
    intros Hs. split_and!; [done|done|by left].
Qed.

(** The RX queue keeps its promises to the packets in it.  A push never
    makes it longer than its capacity and never drops an RST that is queued;
    an accepted item is in the queue; a push that leaves the queue synced has
    lost no item; and a synced queue refuses an RST only when it is full of
    RSTs. *)
Theorem rxq_push_guarantees rx q :
  rxq_ok q ->
  let '(accepted, q') := rxq_push rx q in
  rxq_ok q' /\
  (forall x, is_rst x -> x ∈ rq_q q -> x ∈ rq_q q') /\
  (accepted = true -> rx ∈ rq_q q') /\
  (rq_synced q' = true -> forall x, x ∈ rq_q q -> x ∈ rq_q q') /\
  (accepted = false -> is_rst rx -> rq_synced q = true ->
     length (rq_q q) = MUXER_RXQ_SIZE /\ Forall is_rst (rq_q q)).
Proof.
  intros Hok. pose proof (rxq_push_ok rx q Hok) as Hok'.
  pose proof (rxq_push_synced rx q) as Hsync.
  destruct (rxq_push rx q) as [acc q'] eqn:Hp. simpl in *.
  split; [done|]. unfold rxq_push in Hp.
  destruct (rq_synced q && negb (rxq_is_full q)) eqn:Hroom.
  { simplify_eq. simpl. setoid_rewrite elem_of_app. setoid_rewrite list_elem_of_singleton.
    split_and!; auto. done. }
  destruct rx as [k|lp pp].
  { simplify_eq. simpl. split_and!; auto; done. }
  destruct (replace_last_conn _ _) as [q1|] eqn:Hr; simplify_eq; simpl in *.
  - destruct (replace_last_elem _ _ _ Hr). split_and!; auto; done.
  - split_and!; auto; [done|]. intros _ _ Hs. rewrite Hs in Hroom. simpl in Hroom.
    apply negb_false_iff, bool_decide_eq_true in Hroom. split; [done|].
    by eapply replace_last_None.
Qed.

Lemma rxq_push_guarantees_witness :
  let q := mkRxQ (replicate 255 (RstPkt 1 2) ++ [ConnRx (Key 3 4)]) true in
  let '(accepted, q') := rxq_push (RstPkt 5 6) q in
  accepted = true /\ rq_synced q' = false /\ rxq_ok q' /\
  (forall x, is_rst x -> x ∈ rq_q q -> x ∈ rq_q q').
Proof.
  pose proof (rxq_push_guarantees (RstPkt 5 6)
    (mkRxQ (replicate 255 (RstPkt 1 2) ++ [ConnRx (Key 3 4)]) true)) as Hthm.
  destruct Hthm as (H1 & H2 & _).
  - apply (bool_decide_unpack _). vm_compute. exact I.
  - split; [reflexivity|]. split; [reflexivity|]. split; [exact H1|exact H2].
Defined.

(** An unsynced queue drops an RST even when it is empty. *)
Lemma rst_dropped_by_empty_queue lp pp :
  rxq_push (RstPkt lp pp) (mkRxQ [] false) = (false, mkRxQ [] false).
Proof. done. Qed.

Lemma collect_spec {A} size (found q : list A) :
  length q <= size ->
  let '(q', all) := collect size found q in
  length q' <= size /\ (all = true -> q' = q ++ found).
Proof.
  revert q. induction found as [|x found IH]; intros q Hq; simpl.
  - split; [done|]. by rewrite app_nil_r.
  - case_decide as Hfull; [done|].
    specialize (IH (q ++ [x])). destruct (collect size found (q ++ [x])) as [q' all].
    destruct IH as [H1 H2]; [rewrite length_app; simpl; lia|].
    split; [done|]. intros Hall. rewrite H2 by done. by rewrite <- app_assoc.
Qed.

Section rebuilt.
Context {St : Type} {ME : MuxEnv} {ML : MuxEnvLaws ME}.
Implicit Types m : gmap ConnMapKey (VsockConnection St).

Lemma elem_of_conn_iter m k c : (k, c) ∈ conn_iter m <-> m !! k = Some c.
Proof.
  unfold conn_iter. rewrite list_elem_of_omap. setoid_rewrite hash_order_perm.
  split.
  - intros (k' & Hk' & Heq). destruct (m !! k') eqn:Hm; by simplify_eq/=.
  - intros Hm. exists k. rewrite Hm. split; [|done].
    apply list_elem_of_fmap. exists (k, c). split; [done|]. by apply elem_of_map_to_list.
Qed.

(** A rebuilt RX queue that calls itself synced has every connection with a
    pending packet. *)
Lemma rxq_rebuilt m :
  rxq_ok (rxq_from_conn_map m) /\
  (rq_synced (rxq_from_conn_map m) = true -> forall k c,
     m !! k = Some c -> has_pending_rx c = true -> ConnRx k ∈ rq_q (rxq_from_conn_map m)).
Proof.
  unfold rxq_from_conn_map, rxq_ok.
  set (found := omap _ (conn_iter m)).
  pose proof (collect_spec MUXER_RXQ_SIZE found []) as Hc.
  destruct (collect MUXER_RXQ_SIZE found []) as [q synced]. destruct Hc as [H1 H2]; [simpl; lia|].
  split; [done|]. simpl. intros -> k c Hm Hp. rewrite H2, app_nil_l by done.
  apply list_elem_of_omap. exists (k, c). split; [by apply elem_of_conn_iter|]. simpl. by rewrite Hp.
Qed.
End rebuilt.
