(* ===== verification/VsockMuxer.v ===== *)
(** The vsock connection multiplexer
    (hypervisor/virtio-devices/src/vsock/unix/muxer.rs): routing of packets to
    and from connections, creation and removal of connections, the epoll
    listeners, local ports and the kill timers. *)
From stdpp Require Import gmap strings list list_numbers.
From S2P Require Import Prelude Stream VsockStream VsockTxBuf VsockPacket VsockConn VsockQueues.

(** Errors of [epoll::ctl], as far as the muxer tells them apart. *)
Inductive epoll_error := EpNotFound | EpInterrupted | EpWouldBlock | EpOther.

(** [Error] of unix/mod.rs. *)
Inductive mux_error :=
| ConvertFromUtf8
| EpollAdd (e : epoll_error)
| EpollFdCreate (e : io_error)
| InvalidPortRequest
| ParseInteger
| ReadStreamPort (e : mux_error)
| UnixAccept (e : io_error)
| UnixBind (e : io_error)
| UnixConnect (e : io_error)
| UnixRead (e : io_error)
| TooManyConnections
| ParseDbgConf.

Inductive EpollListener (St : Type) :=
| LConnection (key : ConnMapKey) (evset : Z)
| LHostSock
| LLocalStream (s : St).
Arguments LConnection {St}. Arguments LHostSock {St}. Arguments LLocalStream {St}.

(** The multiplexer, together with what its calls to the host will answer:
    how much time passes before each [Instant::now()], the results of
    [epoll::ctl] (success when the list is empty) and of connecting to Unix
    sockets.  The connection timestamps that only appear in log lines are left
    out. *)
Record VsockMuxer (St : Type) := mkMuxer {
  cid : Z;
  conn_map : gmap ConnMapKey (VsockConnection St);
  listener_map : gmap Z (EpollListener St);
  rxq : MuxerRxQ;
  killq : MuxerKillQ;
  local_port_set : gset Z;
  local_port_last : Z;
  clock : Z;
  ticks : list Z;
  epoll_answers : list (option epoll_error);
  connect_answers : list (result io_error St);
}.
Arguments mkMuxer {St}.
Arguments cid {St}. Arguments conn_map {St}. Arguments listener_map {St}. Arguments rxq {St}.
Arguments killq {St}. Arguments local_port_set {St}. Arguments local_port_last {St}.
Arguments clock {St}. Arguments ticks {St}. Arguments epoll_answers {St}.
Arguments connect_answers {St}.

Section muxer.
Context {St : Type} `{HS : Stream St} {HB : BackendStream St} {ME : MuxEnv}.
Abbreviation conn := (VsockConnection St).
Abbreviation Mux := (M (VsockMuxer St) mux_error).

Definition set_conn_map (f : gmap ConnMapKey conn -> gmap ConnMapKey conn) (m : VsockMuxer St) :=
  mkMuxer (cid m) (f (conn_map m)) (listener_map m) (rxq m) (killq m) (local_port_set m)
    (local_port_last m) (clock m) (ticks m) (epoll_answers m) (connect_answers m).
Definition set_listeners (f : gmap Z (EpollListener St) -> gmap Z (EpollListener St))
    (m : VsockMuxer St) :=
  mkMuxer (cid m) (conn_map m) (f (listener_map m)) (rxq m) (killq m) (local_port_set m)
    (local_port_last m) (clock m) (ticks m) (epoll_answers m) (connect_answers m).
Definition set_rxq (f : MuxerRxQ -> MuxerRxQ) (m : VsockMuxer St) :=
  mkMuxer (cid m) (conn_map m) (listener_map m) (f (rxq m)) (killq m) (local_port_set m)
    (local_port_last m) (clock m) (ticks m) (epoll_answers m) (connect_answers m).
Definition set_killq (f : MuxerKillQ -> MuxerKillQ) (m : VsockMuxer St) :=
  mkMuxer (cid m) (conn_map m) (listener_map m) (rxq m) (f (killq m)) (local_port_set m)
    (local_port_last m) (clock m) (ticks m) (epoll_answers m) (connect_answers m).
Definition set_ports (set : gset Z) (last : Z) (m : VsockMuxer St) :=
  mkMuxer (cid m) (conn_map m) (listener_map m) (rxq m) (killq m) set last
    (clock m) (ticks m) (epoll_answers m) (connect_answers m).
Definition set_host (c : Z) (t : list Z) (e : list (option epoll_error))
    (u : list (result io_error St)) (m : VsockMuxer St) :=
  mkMuxer (cid m) (conn_map m) (listener_map m) (rxq m) (killq m) (local_port_set m)
    (local_port_last m) c t e u.

(** ** Calls to the host *)
Definition instant_now : Mux Z := fun m =>
  let now := (clock m + Z.max 0 (default 0%Z (head (ticks m))))%Z in
  (Done now, set_host now (tail (ticks m)) (epoll_answers m) (connect_answers m) m).

Definition epoll_ctl : Mux (option epoll_error) := fun m =>
  (Done (default None (head (epoll_answers m))),
   set_host (clock m) (ticks m) (tail (epoll_answers m)) (connect_answers m) m).

(** [UnixStream::connect(..).and_then(set_nonblocking)] *)
Definition unix_connect : Mux St := fun m =>
  match connect_answers m with
  | Ok s :: rest => (Done s, set_host (clock m) (ticks m) (epoll_answers m) rest m)
  | Err e :: rest =>
    (Fail (UnixConnect e), set_host (clock m) (ticks m) (epoll_answers m) rest m)
  | [] => (Fail (UnixConnect (IoOther 2)), m)
  end.

(** ** Ports *)

(** [(last + 1) & !(1 << 31) | (1 << 30)] on [u32]. *)
Definition next_port (last : Z) : Z :=
  Z.lor (Z.land (wadd 32 last 1) (2 ^ 32 - 1 - 2 ^ 31)) (2 ^ 30).

Fixpoint find_port (fuel : nat) (set : gset Z) (last : Z) : option Z :=
  match fuel with
  | 0 => None
  | S fuel =>
    let p := next_port last in
    if decide (p ∈ set) then find_port fuel set p else Some p
  end.

(** The loop ends after at most one more try than there are ports in use. *)
Definition allocate_local_port : Mux Z :=
  let* m := get in
  match find_port (S (size (local_port_set m))) (local_port_set m) (local_port_last m) with
  | None => crash
  | Some p => modify (set_ports (local_port_set m ∪ {[p]}) p);;; ret p
  end.

Definition free_local_port (port : Z) : Mux unit :=
  modify (fun m => set_ports (local_port_set m ∖ {[port]}) (local_port_last m) m).

(** ** Queues *)
Definition mux_rxq_push (rx : MuxerRx) : Mux bool := fun m =>
  (Done (rxq_push rx (rxq m)).1, set_rxq (fun q => (rxq_push rx q).2) m).

Definition enq_rst (local_port peer_port : Z) : Mux unit :=
  ignore (mux_rxq_push (RstPkt local_port peer_port)).

Definition queue_rst_for_connections (conns : list (Z * Z)) : Mux unit :=
  fold_right (fun lp k => ignore (mux_rxq_push (RstPkt lp.1 lp.2));;; k) (ret tt) conns.

Definition connections (m : VsockMuxer St) : list (Z * Z) :=
  (fun kc => (k_local kc.1, k_peer kc.1)) <$> conn_iter (conn_map m).

(** ** Listeners *)
Definition add_listener (fd : Z) (l : EpollListener St) : Mux unit :=
  let* r := epoll_ctl in
  match r with
  | None => modify (set_listeners <[fd := l]>)
  | Some e => throw (EpollAdd e)
  end.

Definition remove_listener (fd : Z) : Mux (option (EpollListener St)) :=
  let* m := get in
  let maybe_listener := listener_map m !! fd in
  modify (set_listeners (delete fd));;;
  (match maybe_listener with Some _ => epoll_ctl;;; ret tt | None => ret tt end);;;
  ret maybe_listener.

(** ** Killing connections *)
Definition kill_connection (key : ConnMapKey) : Mux unit :=
  let* m := get in
  let had_rx := match conn_map m !! key with Some c => has_pending_rx c | None => false end in
  modify (set_conn_map (alter kill key));;;
  if had_rx then ret tt else ignore (mux_rxq_push (ConnRx key)).

(** The [while] loop of [sweep_killq]. *)
Fixpoint sweep_items (items : list MuxerKillQItem) : Mux unit :=
  match items with
  | [] => ret tt
  | _ :: rest =>
    let* now := instant_now in
    let* m := get in
    let '(popped, q) := killq_pop now (killq m) in
    modify (set_killq (fun _ => q));;;
    match popped with
    | None => ret tt
    | Some key =>
      let* now := instant_now in
      (match conn_map m !! key with
       | Some c => if has_expired now c then kill_connection key else ret tt
       | None => ret tt
       end);;;
      sweep_items rest
    end
  end.

(** The recursion of [sweep_killq]: a rebuilt queue is swept again. *)
Fixpoint sweep_fuel (fuel : nat) : Mux unit :=
  let* m := get in
  sweep_items (kq_q (killq m));;;
  let* m := get in
  if killq_is_empty (killq m) && negb (kq_synced (killq m)) then
    match fuel with
    | 0 => crash
    | S fuel =>
      let* now := instant_now in
      modify (fun m => set_killq (fun _ => killq_from_conn_map now (conn_map m)) m);;;
      sweep_fuel fuel
    end
  else ret tt.

Definition sweep_killq : Mux unit :=
  let* m := get in sweep_fuel (S (S (size (conn_map m)))).

(** ** The connection pool *)
Definition add_connection (key : ConnMapKey) (c : conn) : Mux unit :=
  sweep_killq;;;
  let* m := get in
  if decide (MAX_CONNECTIONS <= size (conn_map m)) then throw TooManyConnections
  else
    add_listener (as_raw_fd (stream c)) (LConnection key (get_polled_evset c));;;
    (if has_pending_rx c then ignore (mux_rxq_push (ConnRx key)) else ret tt);;;
    modify (set_conn_map <[key := c]>).

Definition remove_connection (key : ConnMapKey) : Mux unit :=
  let* m := get in
  (match conn_map m !! key with
   | Some c =>
     modify (set_conn_map (delete key));;;
     remove_listener (as_raw_fd (stream c));;; ret tt
   | None => ret tt
   end);;;
  free_local_port (k_local key).

(** Sends the acknowledgement to the host once a connection it asked for is
    established. *)
Definition ack_if_established (prev : ConnState) (port : Z) (c : conn) : conn :=
  if bool_decide (prev = LocalInit) && bool_decide (state c = Established) then
    match send_connect_ack port (stream c) with
    | (Ok _, s) => with_stream s c
    | (Err _, s) => kill (with_stream s c)
    end
  else c.

(** The end of [apply_conn_mutation]: the listener follows the events the
    connection is interested in. *)
Definition update_listener (key : ConnMapKey) (c : conn) : Mux unit :=
  let fd := as_raw_fd (stream c) in
  let new_evset := get_polled_evset c in
  if decide (new_evset = 0%Z) then remove_listener fd;;; ret tt
  else
    let* m := get in
    match listener_map m !! fd with
    | Some (LConnection k evset) =>
      if decide (evset = new_evset) then ret tt
      else
        modify (set_listeners <[fd := LConnection k new_evset]>);;;
        let* r := epoll_ctl in
        match r with
        | None => ret tt
        | Some EpNotFound =>
          modify (set_conn_map (delete key));;; modify (set_listeners (delete fd))
        | Some EpInterrupted | Some EpWouldBlock => ret tt
        | Some EpOther => kill_connection key
        end
    | _ =>
      let* r := catch (add_listener fd (LConnection key new_evset)) in
      match r with Ok _ => ret tt | Err _ => kill_connection key end
    end.

(** [mut_fn] gets the time and returns what the closure leaves behind, or
    [None] when it panics. *)
Definition apply_conn_mutation {A} (key : ConnMapKey) (mut_fn : Z -> conn -> option (A * conn))
  : Mux (option A) :=
  let* m := get in
  match conn_map m !! key with
  | None => ret None
  | Some c =>
    let had_rx := has_pending_rx c in
    let* now := instant_now in
    let was_expiring := will_expire now c in
    let prev_state := state c in
    let* now := instant_now in
    match mut_fn now c with
    | None => crash
    | Some (a, c) =>
      let c := ack_if_established prev_state (k_local key) c in
      modify (set_conn_map <[key := c]>);;;
      (if negb had_rx && has_pending_rx c then ignore (mux_rxq_push (ConnRx key)) else ret tt);;;
      let* now := instant_now in
      (if negb was_expiring && will_expire now c then
         match expiry c with
         | Some t => modify (set_killq (killq_push key t))
         | None => crash
         end
       else ret tt);;;
      update_listener key c;;;
      ret (Some a)
    end
  end.

(** ** Packets from the guest *)
Definition handle_peer_request_pkt (pkt : VsockPacket) : Mux unit :=
  let* r := catch (
    let* s := unix_connect in
    let* m := get in
    add_connection (Key (dst_port pkt) (src_port pkt))
      (new_peer_init s VSOCK_HOST_CID (cid m) (dst_port pkt) (src_port pkt) (buf_alloc pkt))) in
  match r with Ok _ => ret tt | Err _ => enq_rst (dst_port pkt) (src_port pkt) end.

Definition run_send (pkt : VsockPacket) (now : Z) (c : conn) : option (unit * conn) :=
  match send_pkt now pkt c with (Crashed, _) => None | (_, c') => Some (tt, c') end.

Definition mux_send_pkt (pkt : VsockPacket) : Mux unit :=
  let conn_key := Key (dst_port pkt) (src_port pkt) in
  if decide (type_ pkt <> VSOCK_TYPE_STREAM) then enq_rst (dst_port pkt) (src_port pkt)
  else if decide (dst_cid pkt <> VSOCK_HOST_CID) then ret tt
  else
    let* m := get in
    match conn_map m !! conn_key with
    | None =>
      if decide (pkt_op pkt = VSOCK_OP_REQUEST) then handle_peer_request_pkt pkt
      else enq_rst (dst_port pkt) (src_port pkt)
    | Some _ =>
      if decide (pkt_op pkt = VSOCK_OP_RST) then remove_connection conn_key
      else apply_conn_mutation conn_key (run_send pkt);;; ret tt
    end.

(** ** Packets for the guest *)
Definition mux_has_pending_rx (m : VsockMuxer St) : bool :=
  negb (rxq_is_empty (rxq m)) || negb (rq_synced (rxq m)).

Definition rst_pkt (cid local_port peer_port : Z) (pkt : VsockPacket) : VsockPacket :=
  set_fwd_cnt 0 (set_buf_alloc 0 (set_flags 0 (set_type VSOCK_TYPE_STREAM (set_len 0
    (set_dst_port peer_port (set_src_port local_port (set_dst_cid cid
      (set_src_cid VSOCK_HOST_CID (set_op VSOCK_OP_RST pkt))))))))).

(** The closure of [recv_pkt]: the result, the packet and [do_pop]. *)
Definition run_recv (pkt : VsockPacket) (now : Z) (c : conn)
  : option ((result VsockError unit * VsockPacket * bool) * conn) :=
  match recv_pkt now (c, pkt) with
  | (Done _, (c', pkt')) => Some ((Ok tt, pkt', negb (has_pending_rx c')), c')
  | (Fail e, (c', pkt')) => Some ((Err e, pkt', negb (has_pending_rx c')), c')
  | (Crashed, _) => None
  end.

(** [self.rxq.pop().unwrap()] *)
Definition pop_rxq : Mux unit :=
  let* m := get in
  match rxq_pop (rxq m) with
  | (Some _, q) => modify (set_rxq (fun _ => q))
  | (None, _) => crash
  end.

(** The [while] loop; [true] when the packet was filled in. *)
Fixpoint recv_loop (fuel : nat) (pkt : VsockPacket) : Mux (bool * VsockPacket) :=
  match fuel with
  | 0 => crash
  | S fuel =>
    let* m := get in
    match rxq_peek (rxq m) with
    | None => ret (false, pkt)
    | Some (RstPkt lp pp) => pop_rxq;;; ret (true, rst_pkt (cid m) lp pp pkt)
    | Some (ConnRx key) =>
      let* r := apply_conn_mutation key (run_recv pkt) in
      let '(res, pkt, do_pop) := default (Err NoData, pkt, true) r in
      (if do_pop then pop_rxq else ret tt);;;
      match res with
      | Ok _ =>
        (if decide (pkt_op pkt = VSOCK_OP_RST)
         then remove_connection (Key (src_port pkt) (dst_port pkt)) else ret tt);;;
        ret (true, pkt)
      | Err _ => recv_loop fuel pkt
      end
    end
  end.

(** An empty queue that is not in sync is rebuilt first.  A turn of the loop
    that yields no packet takes an item from the queue and may add one for a
    connection that is about to be reset, hence the bound. *)
Definition mux_recv_pkt (pkt : VsockPacket) : Mux (bool * VsockPacket) :=
  modify (fun m =>
    if rxq_is_empty (rxq m) && negb (rq_synced (rxq m))
    then set_rxq (fun _ => rxq_from_conn_map (conn_map m)) m else m);;;
  let* m := get in
  recv_loop (S (2 * length (rq_q (rxq m)))) pkt.

(** ** Host-initiated connections *)
Definition add_local_connect_connection (s : St) (peer_port : Z) : Mux unit :=
  let* local_port := allocate_local_port in
  let* m := get in
  let* r := catch (add_connection (Key local_port peer_port)
                     (new_local_init s VSOCK_HOST_CID (cid m) local_port peer_port)) in
  match r with Ok _ => ret tt | Err _ => free_local_port local_port end.

(** The branch of [dispatch_event] for the events of a connection; the other
    listeners are not looked at here. *)
Definition run_notify (evset now : Z) (c : conn) : option (unit * conn) :=
  match notify evset c with (Crashed, _) => None | (_, c') => Some (tt, c') end.

Definition dispatch_conn_event (fd event_set : Z) : Mux unit :=
  let* m := get in
  match listener_map m !! fd with
  | Some (LConnection key _) => apply_conn_mutation key (run_notify event_set);;; ret tt
  | _ => ret tt
  end.

(** ** A new multiplexer, with the ports of a saved state if there is one *)
Definition mux_state (m : VsockMuxer St) : gset Z := local_port_set m.

(** [created] and [bound] are the answers of [epoll::create] and of binding the
    host socket, whose descriptor is [host_fd]. *)
Definition mux_new (guest_cid : Z) (saved : option (gset Z)) (epoll_nested : bool)
    (created : result io_error unit) (bound : result io_error Z)
    (host : Z * list Z * list (option epoll_error) * list (result io_error St))
  : outcome mux_error (VsockMuxer St) :=
  let '(c, t, e, u) := host in
  match created, bound with
  | Err err, _ => Fail (EpollFdCreate err)
  | Ok _, Err err => Fail (UnixBind err)
  | Ok _, Ok host_fd =>
    let m := mkMuxer guest_cid ∅ ∅ rxq_new killq_new (default ∅ saved) (2 ^ 30 - 1) c t e u in
    if epoll_nested then
      match add_listener host_fd LHostSock m with
      | (Done _, m) => Done m
      | (Fail err, _) => Fail err
      | (Crashed, _) => Crashed
      end
    else Done m
  end.
End muxer.
