(* ===== verification/VsockMuxerProofs.v ===== *)
(** What the multiplexer guarantees: it never panics and its loops end, the
    pool stays within its limit, every connection sits under its own ports,
    and an RX queue that calls itself synced misses no connection. *)
From stdpp Require Import gmap strings list list_numbers sorting.
From S2P Require Import Prelude Stream VsockStream VsockTxBuf VsockPacket VsockConn VsockConnProofs VsockQueues VsockMuxer.

(** ** Ports *)
Lemma next_port_spec l :
  in_width 32 l -> next_port l = (2 ^ 30 + (l + 1) mod 2 ^ 30)%Z.
Proof.
  intros Hl. unfold next_port. change (2 ^ 32 - 1 - 2 ^ 31)%Z with (Z.ones 31).
  rewrite Z.land_ones by lia.
  assert (wadd 32 l 1 mod 2 ^ 31 = (l + 1) mod 2 ^ 31)%Z as -> by (apply wrap_mod; lia).
  apply Z.bits_inj'. intros n Hn.
  assert (Hlow : Z.land (2 ^ 30) ((l + 1) mod 2 ^ 30) = 0%Z).
  { rewrite <- Z.land_ones by lia. apply Z.bits_inj'. intros i Hi.
    rewrite !Z.land_spec, Z.bits_0, Z.pow2_bits_eqb, Z.testbit_ones_nonneg by lia.
    destruct (Z.eqb_spec 30 i); [subst; simpl|done]. by rewrite andb_false_r. }
  rewrite (Z.add_nocarry_lxor _ _ Hlow). rewrite Z.lor_spec, Z.lxor_spec.
  rewrite <- !Z.land_ones by lia. rewrite !Z.land_spec, !Z.testbit_ones_nonneg by lia.
  rewrite Z.pow2_bits_eqb by lia.
  destruct (Z.eqb_spec 30 n); [subst; simpl; by rewrite andb_false_r, orb_true_r|].
  rewrite orb_false_r, xorb_false_l. f_equal.
  destruct (Z.ltb_spec n 31), (Z.ltb_spec n 30); try done; lia.
Qed.

(** The [n] ports that are tried after [last]. *)
Definition tried (last : Z) (n : nat) : list Z :=
  (fun i => 2 ^ 30 + (last + 1 + Z.of_nat i) mod 2 ^ 30)%Z <$> seq 0 n.

Lemma tried_NoDup last n : (Z.of_nat n <= 2 ^ 30)%Z -> NoDup (tried last n).
Proof.
  intros Hn. unfold tried. apply NoDup_fmap_2_strong; [|apply NoDup_seq].
  intros i j Hi%elem_of_seq Hj%elem_of_seq Heq.
  assert (Hm : ((last + 1 + Z.of_nat i) mod 2 ^ 30 = (last + 1 + Z.of_nat j) mod 2 ^ 30)%Z) by lia.
  destruct (mod_add_cases (last + 1) (Z.of_nat i) (2 ^ 30)) as [[E1 ?]|[E1 ?]]; try lia;
  destruct (mod_add_cases (last + 1) (Z.of_nat j) (2 ^ 30)) as [[E2 ?]|[E2 ?]]; lia.
Qed.

Lemma find_port_spec set : forall fuel last,
  in_width 32 last ->
  match find_port fuel set last with
  | Some p => (p ∉ set) /\ (p ∈ tried last fuel)
  | None => Forall (fun p => p ∈ set) (tried last fuel)
  end.
Proof.
  induction fuel as [|fuel IH]; intros last Hl; [constructor|].
  assert (Htried : tried last (S fuel) = next_port last :: tried (next_port last) fuel).
  { unfold tried. rewrite <- cons_seq, <- fmap_S_seq, fmap_cons, <- list_fmap_compose.
    rewrite next_port_spec by done. f_equal; [by rewrite Z.add_0_r|].
    apply list_fmap_ext. intros _ i _. simpl. f_equal.
    replace (2 ^ 30 + (last + 1) mod 2 ^ 30 + 1 + Z.of_nat i)%Z with
      ((last + 1) mod 2 ^ 30 + (1 + Z.of_nat i + 1 * 2 ^ 30))%Z by lia.
    rewrite Zplus_mod_idemp_l, Z.add_assoc, Z.mod_add by lia. f_equal. lia. }
  rewrite Htried. simpl. case_decide as Hin.
  - assert (Hw : in_width 32 (next_port last)).
    { rewrite next_port_spec by done. pose proof (Z.mod_pos_bound (last + 1) (2 ^ 30)).
      unfold in_width. lia. }
    specialize (IH _ Hw). destruct (find_port fuel set (next_port last)).
    + destruct IH. split; [done|by right].
    + by constructor.
  - split; [done|left].
Qed.

Lemma find_port_total set last :
  in_width 32 last -> (Z.of_nat (size set) < 2 ^ 30)%Z ->
  exists p, find_port (S (size set)) set last = Some p /\ (p ∉ set) /\ (2 ^ 30 <= p < 2 ^ 31)%Z.
Proof.
  intros Hl Hsize. pose proof (find_port_spec set (S (size set)) last Hl) as Hspec.
  destruct (find_port (S (size set)) set last) as [p|].
  - exists p. destruct Hspec as [Hnew Hin]. split_and!; [done|done| |].
    all: unfold tried in Hin; apply list_elem_of_fmap in Hin as (i & -> & _);
      pose proof (Z.mod_pos_bound (last + 1 + Z.of_nat i) (2 ^ 30)); lia.
  - exfalso. assert (Hle : length (tried last (S (size set))) <= size set).
    { rewrite <- (size_list_to_set (C := gset Z) (tried _ _)) by (apply tried_NoDup; lia).
      apply subseteq_size. intros x Hx%elem_of_list_to_set.
      by apply (proj1 (Forall_forall _ _) Hspec). }
    unfold tried in Hle. rewrite length_fmap, length_seq in Hle. lia.
Qed.

(** A port for a host-initiated connection can always be found: as long
    as fewer than [2^30] ports are in use, the search ends, and the port it
    yields lies in the range kept for the host ([2^30] up to [2^31]), was free,
    and is in use afterwards; no other port changes. *)
Theorem allocate_local_port_fresh {St} `{HS : Stream St} (m : VsockMuxer St) :
  in_width 32 (local_port_last m) -> (Z.of_nat (size (local_port_set m)) < 2 ^ 30)%Z ->
  exists p m', allocate_local_port m = (Done p, m') /\ (2 ^ 30 <= p < 2 ^ 31)%Z /\
    (p ∉ local_port_set m) /\ local_port_set m' = local_port_set m ∪ {[p]} /\
    local_port_last m' = p.
Proof.
  intros Hl Hs. destruct (find_port_total _ _ Hl Hs) as (p & Hp & Hnew & Hr).
  eexists p, _. unfold allocate_local_port. rewrite bind_get, Hp.
  split; [reflexivity|]. split; [exact Hr|]. by split_and!.
Qed.

(** ** Connections in the pool *)
Section conn_ok.
Context {St : Type} `{HL : StreamLaws St}.
Implicit Types c : VsockConnection St.

(** A connection under its key: its own ports, a well-formed buffer, and
    a response due only before the connection is established. *)
Record conn_ok (k : ConnMapKey) c : Prop := {
  co_ports : (local_port c, peer_port c) = (k_local k, k_peer k);
  co_buf : txbuf_ok (tx_buf c);
  co_fwd : in_width 32 (fwd_cnt c);
  co_pending : in_width 5 (pending_rx c);
  co_resp : resp_pending c = true -> state c = PeerInit \/ state c = Killed;
}.

Lemma conn_ok_gentle k c c' : conn_ok k c -> gentle c c' -> conn_ok k c'.
Proof.
  intros [Hp Hb Hf Hw Hr] [Gs Gb Gf Gx Gr Gst Gp Gw].
  split; rewrite ?Gp, ?Gb, ?Gf; auto.
  intros Hresp. destruct (Gst (Hr (Gr Hresp))) as [->|]; auto.
Qed.

(** Input and output on the stream and the buffer. *)
Lemma conn_ok_io k c s b f :
  conn_ok k c -> txbuf_ok b -> in_width 32 f -> conn_ok k (io s b f c).
Proof. intros [Hp Hb Hf Hw Hr] ? ?. by split. Qed.

Lemma conn_ok_kill k c : conn_ok k c -> conn_ok k (kill c).
Proof. intros Hok. eapply conn_ok_gentle; [exact Hok|apply kill_gentle]. Qed.

Lemma conn_ok_stream k c s : conn_ok k c -> conn_ok k (with_stream s c).
Proof. intros [Hp Hb Hf Hw Hr]. by split. Qed.

Lemma conn_ok_send k c now pkt :
  conn_ok k c -> pkt_fits pkt ->
  exists c', run_send pkt now c = Some (tt, c') /\ conn_ok k c'.
Proof.
  intros Hok Hfits. unfold run_send.
  destruct (data_from_peer (state c) && bool_decide (pkt_op pkt = VSOCK_OP_RW)) eqn:Hrw.
  2: { destruct (send_control_gentle now pkt c Hrw) as (c' & -> & Hg).
       exists c'. split; [done|]. by eapply conn_ok_gentle. }
  unfold send_pkt. rewrite bind_modify, bind_get. cbn [state with_peer_credit]. rewrite Hrw.
  set (c1 := with_peer_credit _ _ c).
  assert (H1 : conn_ok k c1) by (eapply conn_ok_gentle; [exact Hok|subst c1; solve_gentle]).
  clearbody c1. unfold send_rw. destruct (pk_buf pkt) as [buf|] eqn:Hbuf; [|by exists c1].
  rewrite (bind_done _ _ _ _ _ (payload_run _ _ _ Hbuf Hfits)).
  destruct (send_bytes_run (payload pkt) c1 (co_buf _ _ H1) (co_fwd _ _ H1))
    as (r & s & b & n & Hrun & _ & _ & _ & _ & Hb & Hh).
  set (c2 := io s b _ c1) in Hrun.
  assert (H2 : conn_ok k c2) by (apply conn_ok_io; [done|done|by apply wrap_in_width]).
  destruct Hh as [[-> _]|(e & -> & _)];
    (erewrite bind_done by (unfold attempt; by rewrite Hrun)); eexists; (split; [reflexivity|]).
  - eapply conn_ok_gentle; [exact H2|]. solve_gentle.
  - by apply conn_ok_kill.
Qed.

Lemma conn_ok_notify k c now evset :
  conn_ok k c -> exists c', run_notify evset now c = Some (tt, c') /\ conn_ok k c'.
Proof.
  intros Hok. unfold run_notify, notify. rewrite bind_modify.
  set (c1 := if ev_contains evset EPOLLIN then insert_rx Rw c else c).
  assert (H1 : conn_ok k c1) by (eapply conn_ok_gentle; [exact Hok|subst c1; solve_gentle]).
  destruct (ev_contains evset EPOLLOUT); [|by exists c1]. unfold notify_out. rewrite bind_get.
  destruct (txbuf_is_empty (tx_buf c1)); [by exists c1|].
  destruct (flush_spec (tx_buf c1) (stream c1) (co_buf _ _ H1)) as (n & s' & Hst & Hn & _ & _ & Hout).
  destruct (flush_to (tx_buf c1, stream c1)) as [r st] eqn:Hrun. cbn [fst snd] in *. subst st.
  assert (Hflush : conn_flush c1 = (r, io s' (advanced n (tx_buf c1)) (fwd_cnt c1) c1))
    by (unfold conn_flush; by rewrite Hrun).
  assert (H2 : conn_ok k (io s' (advanced n (tx_buf c1)) (fwd_cnt c1) c1)).
  { apply conn_ok_io; [done|by apply advanced_ok, Hn; apply H1|apply H1]. }
  assert (Hend : forall c3, conn_ok k c3 -> conn_ok k
    (if bool_decide (state c3 = PeerClosed true true) && txbuf_is_empty (tx_buf c3)
     then insert_rx Rst c3 else if peer_needs_credit_update c3 then insert_rx CreditUpdate c3 else c3)).
  { intros c3 H3. eapply conn_ok_gentle; [exact H3|]. solve_gentle. }
  assert (Hfwd : forall x c3, conn_ok k c3 -> conn_ok k (with_fwd_cnt (wadd 32 (fwd_cnt c3) x) c3)).
  { intros x c3 [? ? ? ? ?]. split; try done. by apply wrap_in_width. }
  destruct Hout as [->|[-> [e ->]]];
    (erewrite bind_done by (unfold attempt; rewrite Hflush; reflexivity)).
  - eexists. split; [reflexivity|]. by apply Hend, Hfwd.
  - destruct e; (eexists; split; [reflexivity|]); apply Hend, Hfwd; [done|by apply conn_ok_kill].
Qed.

Lemma conn_ok_recv_rw k c now pkt :
  conn_ok k c -> is_Some (pk_buf pkt) ->
  exists b c' pkt', recv_rw now (c, pkt) = (Done b, (c', pkt')) /\ conn_ok k c' /\
    is_Some (pk_buf pkt') /\ pending_rx c' = pending_rx c /\
    (state c' = state c \/ state c' = LocalClosed).
Proof.
  intros Hok [buf Hbuf]. unfold recv_rw. rewrite bind_get.
  assert (Hfwd : forall f c1, conn_ok k c1 -> conn_ok k (with_last_fwd f c1)).
  { intros f c1 H1. eapply conn_ok_gentle; [exact H1|]. solve_gentle. }
  assert (Hrx : forall x c1, conn_ok k c1 -> conn_ok k (with_rx_cnt x c1)).
  { intros x c1 []. by split. }
  destruct (data_to_peer (state c)) eqn:Hst; cbn [negb].
  2: { eexists _, _, _. split; [reflexivity|]. cbn. rewrite Hbuf. eauto. }
  destruct (need_credit_update_from_peer c).
  { eexists _, _, _. split; [reflexivity|]. cbn. rewrite Hbuf. eauto 10. }
  rewrite Hbuf. set (max_len := Z.min _ _). unfold bind at 1, recv_read. cbn [fst snd].
  rewrite Hbuf. destruct (stream_read max_len (stream c)) as [[data|e] s].
  - pose proof (conn_ok_stream k c s Hok) as H1. case_decide.
    + eexists _, _, _. split; [reflexivity|]. cbn [fst snd]. split; [|by eauto].
      apply Hfwd, Hrx. eapply conn_ok_gentle; [exact H1|]. solve_gentle; cbn; intros Heq; by rewrite Heq in Hst.
    + eexists _, _, _. split; [reflexivity|]. cbn [fst snd]. split; [by apply Hfwd, Hrx|by eauto].
  - pose proof (conn_ok_stream k c s Hok) as H1. destruct e.
    + eexists _, _, _. split; [reflexivity|]. split; [done|]. rewrite Hbuf. eauto.
    + eexists _, _, _. split; [reflexivity|]. cbn. rewrite Hbuf. split; [by apply Hfwd|]. eauto.
Qed.

(** The outcome of asking [c] for a packet. *)
Definition recv_good (k : ConnMapKey) c
    (m : outcome VsockError unit * (VsockConnection St * VsockPacket)) : Prop :=
  exists r c' pkt', m = (r, (c', pkt')) /\ conn_ok k c' /\ is_Some (pk_buf pkt') /\
    (state c = LocalInit -> state c' <> Established) /\
    (r = Done tt \/
     r = Fail NoData /\ has_pending_rx c' = false /\ rx_contains Rst (pending_rx c) = false).

(** Removing all five indications leaves nothing. *)
Lemma rx_drained set :
  in_width 5 set ->
  (rx_remove CreditUpdate (rx_remove Rw (rx_remove Request (rx_remove Response
    (rx_remove Rst set).2).2).2).2).2 = 0%Z.
Proof.
  intros Hw. apply rx_empty; [by repeat apply rx_remove_width|].
  intros it. rewrite !rx_contains_remove. by destruct it.
Qed.

Lemma recv_credit_good k c0 c pkt :
  conn_ok k c -> is_Some (pk_buf pkt) -> (state c0 = LocalInit -> state c <> Established) ->
  rx_contains Rst (pending_rx c0) = false -> in_width 5 (pending_rx c0) ->
  pending_rx c = (rx_remove Rw (rx_remove Request (rx_remove Response
    (rx_remove Rst (pending_rx c0)).2).2).2).2 ->
  recv_good k c0
    ((let* credit_update := take_rx CreditUpdate in
      let* cp := get in
      if credit_update && negb (has_pending_rx cp.1) then
        upd_pkt (set_op VSOCK_OP_CREDIT_UPDATE);;; note_fwd_cnt
      else throw NoData) (c, pkt)).
Proof.
  intros Hok Hbuf Hst Hrst Hw Hp. rewrite bind_take_rx, bind_get. cbn [fst].
  set (c1 := with_pending _ c).
  assert (H1 : conn_ok k c1) by (eapply conn_ok_gentle; [exact Hok|subst c1; solve_gentle]).
  assert (Hempty : has_pending_rx c1 = false).
  { unfold has_pending_rx. subst c1. cbn [pending_rx with_pending]. by rewrite Hp, rx_drained. }
  case_match.
  - exists (Done tt), (with_last_fwd (fwd_cnt c1) c1), (set_op VSOCK_OP_CREDIT_UPDATE pkt).
    split; [reflexivity|]. split; [eapply conn_ok_gentle; [exact H1|solve_gentle]|]. auto.
  - exists (Fail NoData), c1, pkt. split; [reflexivity|]. auto 10.
Qed.

Lemma conn_ok_recv k c now pkt :
  conn_ok k c -> is_Some (pk_buf pkt) -> recv_good k c (recv_pkt now (c, pkt)).
Proof.
  intros Hok Hbuf. unfold recv_pkt. rewrite bind_modify. cbn [fst snd].
  assert (Hbuf1 : is_Some (pk_buf (init_pkt c pkt))) by done.
  generalize dependent (init_pkt c pkt). clear pkt Hbuf. intros pkt Hbuf.
  assert (Hctl : forall op c', conn_ok k c' -> (state c = LocalInit -> state c' <> Established) ->
    recv_good k c (Done tt, (c', set_op op pkt))).
  { intros op c' Hc' Hst'. eexists _, _, _. split; [reflexivity|]. auto. }
  assert (Hrm : forall it c1, conn_ok k c1 ->
    conn_ok k (with_pending (rx_remove it (pending_rx c1)).2 c1)).
  { intros it c1 H1. eapply conn_ok_gentle; [exact H1|]. solve_gentle. }
  rewrite bind_take_rx. destruct (rx_contains Rst (pending_rx c)) eqn:Hrst.
  { apply Hctl; [by apply Hrm|]. cbn. congruence. }
  pose proof (Hrm Rst c Hok) as H1. set (c1 := with_pending _ c) in *.
  rewrite bind_take_rx. destruct (rx_contains Response (pending_rx c1)) eqn:Hresp.
  { apply Hctl.
    - destruct (Hrm Response c1 H1) as [Rp Rb Rf Rw' Rr].
      assert (Hn : rx_contains Response (rx_remove Response (pending_rx c1)).2 = false)
        by by rewrite rx_contains_remove.
      split; [exact Rp|exact Rb|exact Rf|exact Rw'|].
      intros Hc. destruct (eq_true_false_abs _ Hc Hn).
    - intros Hli. destruct (co_resp _ _ H1 Hresp) as [Hs|Hs]; cbn in Hs; congruence. }
  pose proof (Hrm Response c1 H1) as H2. set (c2 := with_pending _ c1) in *.
  rewrite bind_take_rx. destruct (rx_contains Request (pending_rx c2)).
  { apply Hctl; [|cbn; congruence]. eapply conn_ok_gentle; [exact H2|]. solve_gentle. }
  pose proof (Hrm Request c2 H2) as H3. set (c3 := with_pending _ c2) in *.
  rewrite bind_take_rx. pose proof (Hrm Rw c3 H3) as H4.
  set (c4 := with_pending (rx_remove Rw (pending_rx c3)).2 c3) in *.
  destruct (rx_contains Rw (pending_rx c3)).
  2: { rewrite bind_ret. apply recv_credit_good; try done; [cbn; congruence|apply Hok]. }
  destruct (conn_ok_recv_rw k c4 now pkt H4 Hbuf) as (b & c' & pkt' & Hrun & Hc' & Hb' & Hp' & Hs').
  rewrite (bind_done _ _ _ _ _ Hrun).
  assert (Hst' : state c = LocalInit -> state c' <> Established).
  { intros Hli. destruct Hs' as [->| ->]; [|done]. cbn. congruence. }
  destruct b.
  - eexists _, _, _. split; [reflexivity|]. auto.
  - apply recv_credit_good; try done. apply Hok.
Qed.
End conn_ok.

(** ** The invariant of the multiplexer *)
Section mux.
Context {St : Type} `{HL : StreamLaws St} {HB : BackendStream St} {ME : MuxEnv} {ML : MuxEnvLaws ME}.
Implicit Types (m : VsockMuxer St) (c : VsockConnection St) (key : ConnMapKey).

Definition pending_at key m : bool :=
  match conn_map m !! key with Some c => has_pending_rx c | None => false end.

(** The connections outside [hole] are accounted for in the RX queue. *)
Record mux_inv_but (hole : gset ConnMapKey) m : Prop := {
  mi_rxq : rxq_ok (rxq m);
  mi_sync : rq_synced (rxq m) = true -> forall k, k ∉ hole -> pending_at k m = true ->
    ConnRx k ∈ rq_q (rxq m);
  mi_size : size (conn_map m) <= MAX_CONNECTIONS;
  mi_conn : forall k c, conn_map m !! k = Some c -> conn_ok k c;
}.
Definition mux_inv := mux_inv_but ∅.

Lemma inv_same hole m m' :
  mux_inv_but hole m -> conn_map m' = conn_map m -> rxq m' = rxq m -> mux_inv_but hole m'.
Proof. intros [] Hc Hq. split; unfold pending_at; rewrite ?Hc, ?Hq; done. Qed.

Lemma inv_push hole rx m :
  mux_inv_but hole m ->
  mux_inv_but (match rx with ConnRx k => hole ∖ {[k]} | _ => hole end)
    (set_rxq (fun q => (rxq_push rx q).2) m).
Proof.
  intros [Hq Hs Hn Hc]. split; [by apply rxq_push_ok| |done|done].
  intros Hsync k Hk Hp. change (pending_at k m = true) in Hp. cbn [rxq set_rxq] in *.
  apply rxq_push_synced in Hsync as (Hsync & Hkeep & Hnew).
  destruct (decide (rx = ConnRx k)) as [->|Hne].
  - by destruct Hnew.
  - apply Hkeep, Hs; [done| |done]. destruct rx as [k'|]; set_solver.
Qed.

Lemma inv_delete hole key m : mux_inv_but hole m -> mux_inv_but hole (set_conn_map (delete key) m).
Proof.
  intros [Hq Hs Hn Hc]. split; cbn; [done| | |].
  - intros Hsync k Hk Hp. apply Hs; [done|done|]. unfold pending_at in *. cbn in Hp.
    destruct (decide (k = key)) as [->|]; [by rewrite lookup_delete_eq in Hp|].
    by rewrite lookup_delete_ne in Hp.
  - etransitivity; [|exact Hn]. apply map_subseteq_size, delete_subseteq.
  - intros k c Hk. apply lookup_delete_Some in Hk as [_ Hk]. auto.
Qed.

(** Another connection in the place of one that is there. *)
Lemma inv_update hole key c c' m :
  mux_inv_but hole m -> conn_map m !! key = Some c -> conn_ok key c' ->
  mux_inv_but (hole ∪ {[key]}) (set_conn_map <[key := c']> m).
Proof.
  intros [Hq Hs Hn Hc] Hk Hok. split; cbn; [done| | |].
  - intros Hsync k Hin Hp. apply Hs; [done|set_solver|]. unfold pending_at in *. cbn in Hp.
    rewrite lookup_insert_ne in Hp by set_solver. done.
  - rewrite map_size_insert_Some; [done|by rewrite Hk].
  - intros k c1 Hk1. apply lookup_insert_Some in Hk1 as [[<- <-]|[_ ?]]; auto.
Qed.

Lemma inv_fill hole key m :
  mux_inv_but (hole ∪ {[key]}) m ->
  (rq_synced (rxq m) = true -> pending_at key m = true -> ConnRx key ∈ rq_q (rxq m)) ->
  mux_inv_but hole m.
Proof.
  intros [Hq Hs Hn Hc] Hkey. split; try done. intros Hsync k Hk Hp.
  destruct (decide (k = key)) as [->|]; [auto|]. apply Hs; [done|set_solver|done].
Qed.

(** ** Killing *)
Lemma kill_pending c : has_pending_rx (kill c) = true.
Proof.
  unfold has_pending_rx, rx_is_empty, kill, insert_rx. cbn [pending_rx with_pending].
  apply negb_true_iff, bool_decide_eq_false. intros Hz.
  assert (rx_contains Rst (rx_insert Rst (pending_rx c)) = true) as Hr by by rewrite rx_contains_insert.
  rewrite rx_contains_testbit in Hr. cbn [with_state pending_rx] in Hz. by rewrite Hz in Hr.
Qed.

Definition killed key m : VsockMuxer St :=
  let m1 := set_conn_map (alter kill key) m in
  if pending_at key m then m1 else set_rxq (fun q => (rxq_push (ConnRx key) q).2) m1.

Lemma kill_connection_run key m : kill_connection key m = (Done tt, killed key m).
Proof.
  unfold kill_connection, killed, pending_at. rewrite bind_get, bind_modify.
  by destruct (conn_map m !! key) as [c|]; [destruct (has_pending_rx c)|].
Qed.

Lemma inv_alter_kill hole key m :
  mux_inv_but hole m -> mux_inv_but (hole ∪ {[key]}) (set_conn_map (alter kill key) m).
Proof.
  intros [Hq Hs Hn Hc]. split; cbn; [done| | |].
  - intros Hsync k Hin Hp. apply Hs; [done|set_solver|]. unfold pending_at in *. cbn in Hp.
    by rewrite lookup_alter_ne in Hp by set_solver.
  - by rewrite <- size_dom, dom_alter_L, size_dom.
  - intros k c Hk. apply lookup_alter_Some in Hk as [(<- & c0 & Hk & ->)|[_ ?]]; [|auto].
    by apply conn_ok_kill, Hc.
Qed.

Lemma inv_kill key m : mux_inv m -> mux_inv (killed key m).
Proof.
  intros Hinv. unfold killed. pose proof (inv_alter_kill ∅ key m Hinv) as H1.
  destruct (pending_at key m) eqn:Hp.
  - apply (inv_fill _ key); [done|]. intros Hsync _. by apply (mi_sync _ _ Hinv).
  - apply (inv_push _ (ConnRx key)) in H1. by replace ((∅ ∪ {[key]}) ∖ {[key]}) with
      (∅ : gset ConnMapKey) in H1 by set_solver.
Qed.

(** ** Time *)
Lemma wp_instant_now (Q : Z -> VsockMuxer St -> Prop) X m :
  (forall t, (clock m <= t)%Z ->
     Q t (set_host t (tail (ticks m)) (epoll_answers m) (connect_answers m) m)) ->
  wp instant_now Q X m.
Proof. intros HQ. unfold wp, instant_now. apply HQ. lia. Qed.

Lemma wp_epoll_ctl (Q : option epoll_error -> VsockMuxer St -> Prop) X m :
  (forall r, Q r (set_host (clock m) (ticks m) (tail (epoll_answers m)) (connect_answers m) m)) ->
  wp epoll_ctl Q X m.
Proof. intros HQ. apply HQ. Qed.

(** ** Sweeping the kill queue *)

(** A step of the sweep keeps the timers of all connections. *)
Record swept m m' : Prop := {
  sw_expiry k : expiry <$> conn_map m' !! k = expiry <$> conn_map m !! k;
  sw_clock : (clock m <= clock m')%Z;
  sw_ports : local_port_set m' = local_port_set m /\ local_port_last m' = local_port_last m;
}.

#[local] Instance swept_preorder : PreOrder swept.
Proof.
  split; [by split|]. intros x y z [E1 C1 P1] [E2 C2 P2]. split.
  - intros k. by rewrite E2.
  - lia.
  - destruct P1 as [<- <-]. done.
Qed.

Lemma swept_killed key m : swept m (killed key m).
Proof.
  assert (Hm : swept m (set_conn_map (alter kill key) m)).
  { split; cbn; [|lia|done]. intros k. destruct (decide (k = key)) as [->|].
    - rewrite lookup_alter_eq. by destruct (conn_map m !! key).
    - by rewrite lookup_alter_ne. }
  unfold killed. destruct (pending_at key m); [done|]. destruct Hm. by split.
Qed.

Lemma swept_same m m' :
  conn_map m' = conn_map m -> (clock m <= clock m')%Z -> local_port_set m' = local_port_set m ->
  local_port_last m' = local_port_last m -> swept m m'.
Proof. intros Hc ? ? ?. split; [|done|done]. intros k. by rewrite Hc. Qed.

Lemma sweep_items_spec items m :
  mux_inv m -> kq_q (killq m) = items ->
  wp (sweep_items items) (fun _ m' => mux_inv m' /\ swept m m' /\
      kq_synced (killq m') = kq_synced (killq m) /\
      (kq_q (killq m') = [] -> Forall (fun it => ki_kill_time it < clock m')%Z items))
    (fun _ _ => False) m.
Proof.
  revert m. induction items as [|it items IH]; intros m Hinv Hq; cbn [sweep_items].
  { apply wp_ret. split_and!; [done|reflexivity|done|by constructor]. }
  apply wp_bind, wp_instant_now. intros t Ht. apply wp_bind, wp_get.
  set (m1 := set_host t _ _ _ m). 
  assert (killq_pop t (killq m1) = if decide (ki_kill_time it < t)%Z
    then (Some (ki_key it), mkKillQ items (kq_synced (killq m))) else (None, killq m)) as ->.
  { unfold killq_pop. change (killq m1) with (killq m). rewrite Hq. by case_decide. }
  case_decide as Hlt; apply wp_bind, wp_modify.
  2: { apply wp_ret. split_and!; [by eapply inv_same|by apply swept_same|done|].
       cbn. rewrite Hq. done. }
  apply wp_bind, wp_instant_now. intros t2 Ht2. cbn [clock set_killq] in Ht2.
  set (m2 := set_host t2 _ _ _ _).
  assert (H2 : mux_inv m2) by by eapply inv_same.
  assert (S2 : swept m m2) by (apply swept_same; cbn; try done; cbn in Ht2; lia).
  assert (Hcont : forall m3, mux_inv m3 -> swept m2 m3 -> killq m3 = killq m2 ->
    wp (sweep_items items) (fun _ m' => mux_inv m' /\ swept m m' /\
      kq_synced (killq m') = kq_synced (killq m) /\
      (kq_q (killq m') = [] -> Forall (fun it => ki_kill_time it < clock m')%Z (it :: items)))
    (fun _ _ => False) m3).
  { intros m3 H3 S3 Hk3. eapply wp_mono; [apply IH; [done|by rewrite Hk3]| |done].
    intros _ m' (Hi & Hs & Hsy & Hall). split_and!; [done|by etrans; [exact S2|etrans]| |].
    - rewrite Hsy, Hk3. done.
    - intros Hnil. constructor; [|by apply Hall]. destruct Hs as [_ Hc _], S3 as [_ Hc3 _].
      cbn in Hc3, Ht2. lia. }
  apply wp_bind. destruct (conn_map m1 !! ki_key it) as [c|]; [destruct (has_expired t2 c)|];
    [|apply wp_ret, Hcont; done..].
  unfold wp. rewrite kill_connection_run. apply Hcont.
  - by apply inv_kill.
  - apply swept_killed.
  - unfold killed. by destruct (pending_at _ _).
Qed.

(** The connections whose timer is still running. *)
Definition running m : gset ConnMapKey :=
  dom (filter (fun kc => will_expire (clock m) kc.2 = true) (conn_map m)).

Lemma elem_of_running k m :
  k ∈ running m <-> exists e, (expiry <$> conn_map m !! k) = Some (Some e) /\ (clock m < e)%Z.
Proof.
  unfold running. rewrite elem_of_dom. split.
  - intros [c Hc]. apply map_lookup_filter_Some in Hc as [Hk Hw]. unfold will_expire in Hw.
    cbn in Hw. rewrite Hk. simpl. destruct (expiry c) as [e|]; [|done].
    apply bool_decide_eq_true in Hw. eauto.
  - intros (e & He & Hlt). destruct (conn_map m !! k) as [c|] eqn:Hk; [|done]. simpl in He.
    injection He as He. exists c. apply map_lookup_filter_Some. split; [done|].
    unfold will_expire. cbn. rewrite He. by apply bool_decide_eq_true_2.
Qed.

Lemma running_mono m m' : swept m m' -> running m' ⊆ running m.
Proof.
  intros [He Hc _] k Hk. apply elem_of_running in Hk as (e & Hk & Hlt).
  apply elem_of_running. exists e. rewrite <- He. split; [done|lia].
Qed.

Lemma running_size m : size (running m) <= size (conn_map m).
Proof.
  unfold running. rewrite size_dom. apply map_subseteq_size, map_filter_subseteq.
Qed.

(** A queue that had to leave connections out has one whose timer runs. *)
Definition rebuilt m : Prop :=
  kq_synced (killq m) = false -> exists it, it ∈ kq_q (killq m) /\ ki_key it ∈ running m /\
    expiry <$> conn_map m !! ki_key it = Some (Some (ki_kill_time it)).

Lemma collect_none {A} size (found q : list A) :
  (collect size found q).2 = false -> size <= length (collect size found q).1 /\
  (forall x, x ∈ (collect size found q).1 -> x ∈ q ++ found).
Proof.
  revert q. induction found as [|x found IH]; intros q; simpl; [done|].
  case_decide as Hfull; simpl.
  - intros _. split; [done|]. set_solver.
  - intros Hf. destruct (IH _ Hf) as [H1 H2]. split; [done|]. intros y Hy%H2. set_solver.
Qed.

Lemma rebuilt_from_conn_map now m :
  let m1 := set_host now (tail (ticks m)) (epoll_answers m) (connect_answers m) m in
  rebuilt (set_killq (fun _ => killq_from_conn_map now (conn_map m1)) m1).
Proof.
  intros m1. unfold rebuilt, killq_from_conn_map. cbn [killq set_killq].
  set (found := omap _ _). pose proof (collect_none MUXER_KILLQ_SIZE found []) as Hcol.
  destruct (collect MUXER_KILLQ_SIZE found []) as [q synced]. cbn in *. intros ->.
  destruct Hcol as [Hlen Hin]; [done|]. destruct q as [|it q]; [cbn in Hlen; unfold MUXER_KILLQ_SIZE in Hlen; lia|].
  assert (Hit : it ∈ found) by (apply Hin; left).
  unfold found in Hit. apply list_elem_of_omap in Hit as ([k c] & Hkc & Heq).
  apply elem_of_conn_iter in Hkc. cbn in Hkc, Heq.
  destruct (will_expire now c) eqn:Hw; [|done]. unfold will_expire in Hw.
  destruct (expiry c) as [e|] eqn:He; [|done]. simplify_eq/=. apply bool_decide_eq_true in Hw.
  exists (KillItem k e). split; [rewrite sort_perm; left|]. cbn. rewrite Hkc. cbn. rewrite He.
  split; [|done]. apply elem_of_running. exists e. cbn. rewrite Hkc. cbn. by rewrite He.
Qed.

Lemma sweep_fuel_spec fuel m :
  mux_inv m -> rebuilt m -> size (running m) <= fuel ->
  wp (sweep_fuel fuel) (fun _ m' => mux_inv m' /\ swept m m') (fun _ _ => False) m.
Proof.
  revert m. induction fuel as [|fuel IH]; intros m Hinv Hreb Hsize; cbn [sweep_fuel];
    apply wp_bind, wp_get, wp_bind;
    (eapply wp_mono; [by apply sweep_items_spec| |done]);
    intros _ m1 (H1 & S1 & Hsync & Hall); apply wp_bind, wp_get;
    (destruct (killq_is_empty (killq m1) && negb (kq_synced (killq m1))) eqn:Hcond;
      [|by apply wp_ret]);
    apply andb_true_iff in Hcond as [Hnil%bool_decide_eq_true Hns%negb_true_iff];
    apply length_zero_iff_nil in Hnil; specialize (Hall Hnil); rewrite Hsync in Hns;
    destruct (Hreb Hns) as (it & Hit & Hrun & Hexp);
    (assert (Hdec : size (running m1) < size (running m));
     [apply subset_size; split; [by apply running_mono|]; intros Hsub; apply Hsub in Hrun;
      apply elem_of_running in Hrun as (e & He & Hlt); destruct S1 as [E1 _ _];
      rewrite E1, Hexp in He; simplify_eq;
      pose proof (proj1 (Forall_forall _ _) Hall it Hit); cbn in *; lia|]).
  - lia.
  - apply wp_bind, wp_instant_now. intros t Ht. apply wp_bind, wp_modify.
    set (m2 := set_killq _ _). assert (S2 : swept m1 m2) by by apply swept_same.
    eapply wp_mono; [apply IH| |done].
    + by eapply inv_same.
    + apply rebuilt_from_conn_map.
    + apply running_mono, subseteq_size in S2. lia.
    + intros _ m' [Hi Hs]. split; [done|]. by etrans; [exact S1|etrans].
Qed.

Lemma sweep_killq_spec m :
  mux_inv m -> wp sweep_killq (fun _ m' => mux_inv m' /\ swept m m') (fun _ _ => False) m.
Proof.
  intros Hinv. unfold sweep_killq. apply wp_bind, wp_get. cbn [sweep_fuel].
  apply wp_bind, wp_get, wp_bind. eapply wp_mono; [by apply sweep_items_spec| |done].
  intros _ m1 (H1 & S1 & _ & _). apply wp_bind, wp_get.
  case_match; [|by apply wp_ret]. apply wp_bind, wp_instant_now. intros t Ht.
  apply wp_bind, wp_modify. set (m2 := set_killq _ _).
  assert (S2 : swept m1 m2) by by apply swept_same.
  eapply wp_mono; [apply (sweep_fuel_spec (S (size (conn_map m))) m2)| |done].
  - by eapply inv_same.
  - apply rebuilt_from_conn_map.
  - pose proof (running_size m). apply running_mono, subseteq_size in S1.
    apply running_mono, subseteq_size in S2. lia.
  - intros _ m' [Hi Hs]. split; [done|]. by etrans; [exact S1|etrans].
Qed.

(** ** Mutating a connection *)

(** What [update_listener] may do besides changing listeners: nothing, drop
    the connection, or kill it. *)
Definition listener_effect key m m' : Prop :=
  local_port_set m' = local_port_set m /\ local_port_last m' = local_port_last m /\
  cid m' = cid m /\
  ((conn_map m' = conn_map m /\ rxq m' = rxq m) \/
   (conn_map m' = delete key (conn_map m) /\ rxq m' = rxq m) \/
   (conn_map m' = conn_map (killed key m) /\ rxq m' = rxq (killed key m))).

Lemma effect_none key m m' :
  conn_map m' = conn_map m -> rxq m' = rxq m -> local_port_set m' = local_port_set m ->
  local_port_last m' = local_port_last m -> cid m' = cid m -> listener_effect key m m'.
Proof. unfold listener_effect. auto 10. Qed.

Lemma effect_killed key m m' :
  conn_map m' = conn_map m -> rxq m' = rxq m -> local_port_set m' = local_port_set m ->
  local_port_last m' = local_port_last m -> cid m' = cid m ->
  listener_effect key m (killed key m').
Proof.
  intros Hc Hq Hs Hl Hi. unfold listener_effect, killed, pending_at. rewrite Hc.
  destruct (match conn_map m !! key with Some c => has_pending_rx c | None => false end);
    cbn; rewrite ?Hc, ?Hq, ?Hs, ?Hl, ?Hi; auto 10.
Qed.

Lemma inv_effect key m m' : mux_inv m -> listener_effect key m m' -> mux_inv m'.
Proof.
  intros Hinv (_ & _ & _ & [[Hc Hq]|[[Hc Hq]|[Hc Hq]]]).
  - by eapply inv_same.
  - eapply (inv_same _ (set_conn_map (delete key) m)); [by apply inv_delete|done|done].
  - eapply (inv_same _ (killed key m)); [by apply inv_kill|done|done].
Qed.

Lemma wp_remove_listener fd (Q : option (EpollListener St) -> VsockMuxer St -> Prop) X m :
  (forall r m', conn_map m' = conn_map m -> rxq m' = rxq m -> local_port_set m' = local_port_set m ->
     local_port_last m' = local_port_last m -> cid m' = cid m -> Q r m') ->
  wp (remove_listener fd) Q X m.
Proof.
  intros HQ. unfold remove_listener. apply wp_bind, wp_get, wp_bind, wp_modify, wp_bind.
  destruct (listener_map m !! fd).
  - apply wp_bind, wp_epoll_ctl. intros _. apply wp_ret, wp_ret. by apply HQ.
  - apply wp_ret, wp_ret. by apply HQ.
Qed.

Lemma update_listener_spec key c m :
  wp (update_listener key c) (fun _ => listener_effect key m) (fun _ _ => False) m.
Proof.
  assert (Hkill : forall m', conn_map m' = conn_map m -> rxq m' = rxq m ->
    local_port_set m' = local_port_set m -> local_port_last m' = local_port_last m ->
    cid m' = cid m ->
    wp (kill_connection key) (fun _ => listener_effect key m) (fun _ _ => False) m').
  { intros m' ? ? ? ? ?. unfold wp. rewrite kill_connection_run. by apply effect_killed. }
  unfold update_listener. case_decide.
  { apply wp_bind, wp_remove_listener. intros. apply wp_ret. by apply effect_none. }
  apply wp_bind, wp_get.
  assert (Hadd : wp (let* r := catch (add_listener (as_raw_fd (stream c))
      (LConnection key (get_polled_evset c))) in
      match r with Ok _ => ret tt | Err _ => kill_connection key end)
    (fun _ => listener_effect key m) (fun _ _ => False) m).
  { apply wp_bind, wp_catch. unfold add_listener. apply wp_bind, wp_epoll_ctl. intros [e|].
    - apply wp_throw. by apply Hkill.
    - apply wp_modify, wp_ret. by apply effect_none. }
  destruct (listener_map m !! as_raw_fd (stream c)) as [[k evset| |]|]; [|exact Hadd..].
  case_decide; [apply wp_ret; by apply effect_none|].
  apply wp_bind, wp_modify, wp_bind, wp_epoll_ctl.
  intros [[]|]; [|apply wp_ret; by apply effect_none..|by apply Hkill|apply wp_ret; by apply effect_none].
  apply wp_bind, wp_modify, wp_modify. unfold listener_effect. cbn. auto 10.
Qed.

Lemma conn_ok_ack key prev port c : conn_ok key c -> conn_ok key (ack_if_established prev port c).
Proof.
  intros Hok. unfold ack_if_established. destruct (_ && _); [|done].
  destruct (send_connect_ack port (stream c)) as [[|] s]; [|apply conn_ok_kill]; by apply conn_ok_stream.
Qed.

(** The state between the mutation and the update of the listener. *)
Definition mutated key c c' m m1 : Prop :=
  conn_map m1 = <[key := c']> (conn_map m) /\
  rxq m1 = (if negb (has_pending_rx c) && has_pending_rx c'
            then (rxq_push (ConnRx key) (rxq m)).2 else rxq m) /\
  local_port_set m1 = local_port_set m /\ local_port_last m1 = local_port_last m /\
  cid m1 = cid m.

Lemma inv_mutated key c c' m m1 :
  mux_inv m -> conn_map m !! key = Some c -> conn_ok key c' -> mutated key c c' m m1 -> mux_inv m1.
Proof.
  intros Hinv Hk Hok (Hc & Hq & _). pose proof (inv_update ∅ key c c' m Hinv Hk Hok) as H1.
  assert (Hold : has_pending_rx c = true -> rq_synced (rxq m) = true -> ConnRx key ∈ rq_q (rxq m)).
  { intros Hp Hs. apply (mi_sync _ _ Hinv Hs); [done|]. unfold pending_at. by rewrite Hk. }
  destruct (negb (has_pending_rx c) && has_pending_rx c') eqn:Hpush.
  - apply (inv_push _ (ConnRx key)) in H1. replace ((∅ ∪ {[key]}) ∖ {[key]}) with
      (∅ : gset ConnMapKey) in H1 by set_solver. by eapply inv_same.
  - eapply (inv_same _ (set_conn_map <[key := c']> m)); [|done|done].
    apply (inv_fill _ key); [done|]. cbn. intros Hs Hp. apply Hold; [|done].
    unfold pending_at in Hp. cbn in Hp. rewrite lookup_insert_eq in Hp.
    by destruct (has_pending_rx c); [|rewrite Hp in Hpush].
Qed.

Lemma apply_spec {A} key (mut_fn : Z -> VsockConnection St -> option (A * VsockConnection St))
    (P : A -> VsockConnection St -> Prop) m c :
  mux_inv m -> conn_map m !! key = Some c ->
  (forall t, exists a c', mut_fn t c = Some (a, c') /\ conn_ok key c' /\ P a c') ->
  wp (apply_conn_mutation key mut_fn)
    (fun r m' => exists a c' m1, r = Some a /\ P a c' /\
       mutated key c (ack_if_established (state c) (k_local key) c') m m1 /\
       mux_inv m1 /\ listener_effect key m1 m')
    (fun _ _ => False) m.
Proof.
  intros Hinv Hk Hfn. unfold apply_conn_mutation. apply wp_bind, wp_get. rewrite Hk.
  apply wp_bind, wp_instant_now. intros t _. apply wp_bind, wp_instant_now. intros t1 _.
  destruct (Hfn t1) as (a & c' & -> & Hok & HP).
  apply (conn_ok_ack key (state c) (k_local key)) in Hok.
  set (c2 := ack_if_established (state c) (k_local key) c') in *. 
  apply wp_bind, wp_modify, wp_bind.
  match goal with |- wp _ _ _ ?st => set (m0 := st) end.
  assert (Hcont : forall m1, mutated key c c2 m m1 ->
    wp (let* now := instant_now in
        (if negb (will_expire t c) && will_expire now c2 then
           match expiry c2 with Some t => modify (set_killq (killq_push key t)) | None => crash end
         else ret tt);;;
        update_listener key c2;;; ret (Some a))
      (fun r m' => exists a c' m1, r = Some a /\ P a c' /\
       mutated key c (ack_if_established (state c) (k_local key) c') m m1 /\
       mux_inv m1 /\ listener_effect key m1 m') (fun _ _ => False) m1).
  { intros m1 Hm1. apply wp_bind, wp_instant_now. intros t2 _. apply wp_bind.
    assert (Hend : forall m2, mutated key c c2 m m2 ->
      wp (update_listener key c2;;; ret (Some a)) (fun r m' => exists a c' m1, r = Some a /\ P a c' /\
       mutated key c (ack_if_established (state c) (k_local key) c') m m1 /\
       mux_inv m1 /\ listener_effect key m1 m') (fun _ _ => False) m2).
    { intros m2 Hm2. apply wp_bind. eapply wp_mono; [apply update_listener_spec| |done].
      intros [] m' He. apply wp_ret. exists a, c', m2.
      split_and!; [done|done|done|by eapply inv_mutated|done]. }
    destruct (negb (will_expire t c) && will_expire t2 c2) eqn:Hexp; [|by apply wp_ret, Hend].
    apply andb_true_iff in Hexp as [_ Hexp]. unfold will_expire in Hexp.
    destruct (expiry c2); [|done]. by apply wp_modify, Hend. }
  destruct (negb (has_pending_rx c) && has_pending_rx c2) eqn:Hpush.
  - apply wp_ignore. unfold mux_rxq_push, wp at 1. apply Hcont. unfold mutated. rewrite Hpush. done.
  - apply wp_ret, Hcont. unfold mutated. rewrite Hpush. done.
Qed.

(** ** Asking connections for packets *)
Definition popped m : VsockMuxer St := set_rxq (fun q => (rxq_pop q).2) m.

Lemma wp_pop_rxq (Q : unit -> VsockMuxer St -> Prop) X m :
  rq_q (rxq m) <> [] -> Q tt (popped m) -> wp pop_rxq Q X m.
Proof.
  intros Hne HQ. unfold pop_rxq. apply wp_bind, wp_get. unfold rxq_pop, popped in *.
  destruct (rq_q (rxq m)) eqn:Hq; [done|]. apply wp_modify. unfold set_rxq, rxq_pop in *. by rewrite Hq in HQ.
Qed.

Lemma inv_popped key rest m :
  mux_inv m -> rq_q (rxq m) = ConnRx key :: rest ->
  (rq_synced (rxq m) = true -> pending_at key m = true -> ConnRx key ∈ rest) ->
  mux_inv (popped m).
Proof.
  intros [Hq Hs Hn Hc] Hrest Hkey. unfold popped. split; cbn; [|intros Hsync k Hk Hp|done|done].
  - unfold rxq_ok in *. cbn. rewrite Hrest in *. cbn in *. lia.
  - change (pending_at k m = true) in Hp. rewrite Hrest. cbn.
    destruct (decide (k = key)) as [->|Hne]; [auto|].
    specialize (Hs Hsync k Hk Hp). rewrite Hrest in Hs. set_solver.
Qed.

Lemma push_conn_cases key q :
  (rxq_push (ConnRx key) q).2 = mkRxQ (rq_q q ++ [ConnRx key]) true \/
  (rxq_push (ConnRx key) q).2 = mkRxQ (rq_q q) false.
Proof. unfold rxq_push. destruct (rq_synced q); cbn; [|auto]. destruct (rxq_is_full q); cbn; auto. Qed.

(** How many turns an item of the queue can cost: one more when its turn may
    end in the connection being killed. *)
Definition rst_at key m : bool :=
  match conn_map m !! key with Some c => rx_contains Rst (pending_rx c) | None => false end.
Definition turns m (rx : MuxerRx) : nat :=
  match rx with RstPkt _ _ => 1 | ConnRx k => if rst_at k m then 1 else 2 end.
Fixpoint all_turns m (q : list MuxerRx) : nat :=
  match q with [] => 0 | rx :: q => turns m rx + all_turns m q end.
Definition measure m : nat := all_turns m (rq_q (rxq m)).

Lemma measure_bound m : measure m <= 2 * length (rq_q (rxq m)).
Proof.
  unfold measure. induction (rq_q (rxq m)) as [|rx q IH]; cbn [all_turns length]; [lia|].
  assert (turns m rx <= 2); [|lia].
  destruct rx as [k|]; cbn [turns]; [destruct (rst_at k m)|]; lia.
Qed.

(** The turns of the other items do not grow when the connection [key], which
    had no RST due, changes. *)
Lemma turns_other key m m' q :
  (forall k, k <> key -> conn_map m' !! k = conn_map m !! k) -> rst_at key m = false ->
  all_turns m' q <= all_turns m q.
Proof.
  intros Hother Hrst. induction q as [|rx q IH]; cbn [all_turns]; [done|].
  assert (turns m' rx <= turns m rx); [|lia]. destruct rx as [k|]; simpl; [|done].
  destruct (decide (k = key)) as [->|Hne].
  - rewrite Hrst. destruct (rst_at key m'); lia.
  - unfold rst_at. by rewrite Hother.
Qed.

Lemma rst_killed key m c : conn_map m !! key = Some c -> rst_at key (killed key m) = true.
Proof.
  intros Hk. unfold rst_at, killed.
  assert (conn_map (if pending_at key m then set_conn_map (alter kill key) m
    else set_rxq (fun q => (rxq_push (ConnRx key) q).2) (set_conn_map (alter kill key) m)) =
    alter kill key (conn_map m)) as -> by by destruct (pending_at key m).
  rewrite lookup_alter_eq, Hk. cbn [fmap option_fmap option_map].
  unfold kill, insert_rx. cbn [pending_rx with_pending with_state]. by rewrite rx_contains_insert.
Qed.

Lemma all_turns_app m q1 q2 : all_turns m (q1 ++ q2) = all_turns m q1 + all_turns m q2.
Proof. induction q1; cbn [all_turns app]; lia. Qed.

Lemma all_turns_same m m' q : conn_map m' = conn_map m -> all_turns m' q = all_turns m q.
Proof.
  intros Hc. induction q as [|rx q IH]; cbn [all_turns]; [done|]. rewrite IH. f_equal.
  destruct rx; cbn [turns]; [|done]. unfold rst_at. by rewrite Hc.
Qed.

Definition ports_le m m' : Prop :=
  local_port_set m' ⊆ local_port_set m /\ local_port_last m' = local_port_last m.

#[local] Instance ports_le_preorder : PreOrder ports_le.
Proof. split; [by split|]. intros x y z [] []. split; [set_solver|congruence]. Qed.

(** What the closure of [recv_pkt] leaves behind. *)
Definition recv_post key c (a : result VsockError unit * VsockPacket * bool) c' : Prop :=
  is_Some (pk_buf a.1.2) /\ a.2 = negb (has_pending_rx c') /\
  ack_if_established (state c) (k_local key) c' = c' /\
  (a.1.1 <> Ok tt -> has_pending_rx c' = false /\ rx_contains Rst (pending_rx c) = false).

Lemma run_recv_spec key c pkt :
  conn_ok key c -> is_Some (pk_buf pkt) ->
  forall t, exists a c', run_recv pkt t c = Some (a, c') /\ conn_ok key c' /\ recv_post key c a c'.
Proof.
  intros Hok Hbuf t. destruct (conn_ok_recv key c t pkt Hok Hbuf)
    as (r & c' & pkt' & Hrun & Hc' & Hb' & Hst & Hr).
  assert (Hack : ack_if_established (state c) (k_local key) c' = c').
  { unfold ack_if_established. repeat case_bool_decide; cbn; try done. by destruct Hst. }
  unfold run_recv. rewrite Hrun.
  destruct Hr as [->|(-> & Hp & Hrst)]; eexists _, c'; (split; [reflexivity|]);
    unfold recv_post; cbn;
    (split_and!; [done..|intros Hne]); [by destruct Hne|done].
Qed.

(** After a turn that drained the connection [key] at the front, the item can
    be popped. *)
Lemma turn_popped key rest c c' m m1 m' :
  rq_q (rxq m) = ConnRx key :: rest -> mux_inv m1 -> mutated key c c' m m1 ->
  has_pending_rx c' = false -> listener_effect key m1 m' ->
  rq_q (rxq m') <> [] /\ mux_inv (popped m') /\
  (rx_contains Rst (pending_rx c) = false -> conn_map m !! key = Some c ->
    measure (popped m') < measure m).
Proof.
  intros Hq Hinv (Hc1 & Hq1 & _) Hp Heff. rewrite Hp, andb_false_r in Hq1.
  pose proof (inv_effect _ _ _ Hinv Heff) as Hinv'.
  assert (Hother : forall k, k <> key -> conn_map m' !! k = conn_map m !! k).
  { intros k Hk. destruct Heff as (_ & _ & _ & [[-> _]|[[-> _]|[-> _]]]).
    - by rewrite Hc1, lookup_insert_ne.
    - by rewrite lookup_delete_ne, Hc1, lookup_insert_ne.
    - unfold killed. destruct (pending_at key m1); cbn;
        by rewrite lookup_alter_ne, Hc1, lookup_insert_ne. }
  assert (Hpend : pending_at key m1 = false)
    by (unfold pending_at; rewrite Hc1, lookup_insert_eq; done).
  assert (Hcost : forall q, conn_map m !! key = Some c -> rx_contains Rst (pending_rx c) = false ->
    all_turns (popped m') q <= all_turns m q).
  { intros q Hk Hr. apply (turns_other key); [done|]. unfold rst_at. by rewrite Hk. }
  assert (Hfront : rx_contains Rst (pending_rx c) = false -> conn_map m !! key = Some c ->
    measure m = 2 + all_turns m rest).
  { intros Hr Hk. unfold measure. rewrite Hq. cbn. unfold rst_at. by rewrite Hk, Hr. }
  assert (Hcases : rq_q (rxq m') = ConnRx key :: rest /\
      (rq_synced (rxq m') = true -> pending_at key m' = false) \/
    rq_q (rxq m') = ConnRx key :: rest ++ [ConnRx key] /\ rst_at key m' = true).
  { destruct Heff as (_ & _ & _ & [[Hc2 Hq2]|[[Hc2 Hq2]|[Hc2 Hq2]]]).
    - left. rewrite Hq2, Hq1. split; [done|]. intros _. unfold pending_at in *. by rewrite Hc2.
    - left. rewrite Hq2, Hq1. split; [done|]. intros _. unfold pending_at. by rewrite Hc2, lookup_delete_eq.
    - assert (Hrst : rst_at key m' = true).
      { unfold rst_at. rewrite Hc2. apply (rst_killed key m1 c'). by rewrite Hc1, lookup_insert_eq. }
      unfold killed in Hq2. rewrite Hpend in Hq2. cbn in Hq2. rewrite Hq1 in Hq2.
      destruct (push_conn_cases key (rxq m)) as [He|He]; rewrite He in Hq2.
      + right. rewrite Hq2. cbn. by rewrite Hq.
      + left. rewrite Hq2. cbn. by rewrite Hq. }
  destruct Hcases as [[Hq' Hs']|[Hq' Hr']]; (split; [by rewrite Hq'|]).
  - split.
    + apply (inv_popped key rest); [done|done|]. intros Hs. by rewrite Hs'.
    + intros Hr Hk. rewrite (Hfront Hr Hk). unfold measure. cbn. rewrite Hq'. cbn.
      specialize (Hcost rest Hk Hr). lia.
  - split.
    + apply (inv_popped key (rest ++ [ConnRx key])); [done|done|]. set_solver.
    + intros Hr Hk. rewrite (Hfront Hr Hk). unfold measure. cbn. rewrite Hq'. cbn.
      rewrite all_turns_app. cbn. change (rst_at key (popped m')) with (rst_at key m').
      rewrite Hr'. specialize (Hcost rest Hk Hr). lia.
Qed.

Lemma ports_same m m' :
  local_port_set m' = local_port_set m -> local_port_last m' = local_port_last m -> ports_le m m'.
Proof. intros Hs Hl. split; [by rewrite Hs|done]. Qed.

Lemma mutated_ports key c c' m m1 m' :
  mutated key c c' m m1 -> listener_effect key m1 m' -> ports_le m m'.
Proof.
  intros (_ & _ & Hs & Hl & _) (Hs' & Hl' & _). apply ports_same; congruence.
Qed.

Lemma remove_connection_spec key m :
  mux_inv m ->
  wp (remove_connection key)
    (fun _ m' => mux_inv m' /\ ports_le m m' /\ conn_map m' = delete key (conn_map m))
    (fun _ _ => False) m.
Proof.
  intros Hinv. unfold remove_connection. apply wp_bind, wp_get, wp_bind.
  assert (Hfree : forall m1, mux_inv m1 -> ports_le m m1 -> conn_map m1 = delete key (conn_map m) ->
    wp (free_local_port (k_local key)) (fun _ m' => mux_inv m' /\ ports_le m m' /\
      conn_map m' = delete key (conn_map m)) (fun _ _ => False) m1).
  { intros m1 H1 P1 C1. apply wp_modify. split_and!; [by eapply inv_same| |done].
    etrans; [exact P1|]. split; cbn; [set_solver|done]. }
  destruct (conn_map m !! key) as [c|] eqn:Hk.
  - apply wp_bind, wp_modify, wp_bind, wp_remove_listener. intros _ m1 C1 Q1 S1 L1 _.
    apply wp_ret, Hfree; [|by apply ports_same|done].
    eapply inv_same; [by apply (inv_delete ∅ key)|done|done].
  - apply wp_ret, Hfree; [done|reflexivity|]. by rewrite delete_id.
Qed.

(** One turn of the loop for the connection at the front. *)
Lemma recv_turn key rest pkt m :
  mux_inv m -> rq_q (rxq m) = ConnRx key :: rest -> is_Some (pk_buf pkt) ->
  wp (apply_conn_mutation key (run_recv pkt))
    (fun r m' => let '(res, pkt', do_pop) := default (Err NoData, pkt, true) r in
       is_Some (pk_buf pkt') /\ ports_le m m' /\
       (do_pop = true -> rq_q (rxq m') <> []) /\ mux_inv (if do_pop : bool then popped m' else m') /\
       (res = Ok tt \/ do_pop = true /\ measure (popped m') < measure m))
    (fun _ _ => False) m.
Proof.
  intros Hinv Hq Hbuf. destruct (conn_map m !! key) as [c|] eqn:Hk.
  - pose proof (mi_conn _ _ Hinv _ _ Hk) as Hok.
    eapply wp_mono; [apply (apply_spec key (run_recv pkt) (recv_post key c) m c Hinv Hk)| |done].
    { by apply run_recv_spec. }
    intros r m' (a & c' & m1 & -> & (Hb & Hdo & Hack & Herr) & Hmut & H1 & Heff).
    rewrite Hack in Hmut. destruct a as [[res pkt'] do_pop]. cbn in Hb, Hdo, Herr |- *. subst do_pop.
    pose proof (fun Hp => turn_popped key rest c c' m m1 m' Hq H1 Hmut Hp Heff) as Hturn.
    split_and!; [done|by eapply mutated_ports| | |].
    + destruct (has_pending_rx c'); [done|]. by intros _; apply Hturn.
    + destruct (has_pending_rx c'); cbn; [by eapply inv_effect|by apply Hturn].
    + destruct res as [[]|e]; [by left|right]. destruct Herr as [Hp Hr]; [done|].
      rewrite Hp. split; [done|]. by apply Hturn.
  - unfold apply_conn_mutation. apply wp_bind, wp_get. rewrite Hk. apply wp_ret. cbn.
    split_and!; [done|reflexivity|by rewrite Hq| |right; split; [done|]].
    + apply (inv_popped key rest); [done|done|]. unfold pending_at. by rewrite Hk.
    + unfold measure. cbn. rewrite Hq. cbn. rewrite (all_turns_same m (popped m)) by done.
      destruct (rst_at key m); lia.
Qed.

Lemma inv_pop_rst lp pp rest m :
  mux_inv m -> rq_q (rxq m) = RstPkt lp pp :: rest -> mux_inv (popped m).
Proof.
  intros [Hq0 Hs Hn Hc] Hq. split; cbn; [| |done|done].
  - unfold rxq_ok in *. cbn. rewrite Hq in *. cbn in *. lia.
  - intros Hsync k Hk Hp. specialize (Hs Hsync k Hk Hp). rewrite Hq in *. cbn. set_solver.
Qed.

(** The end of [recv_pkt] on a packet that was filled in. *)
Lemma recv_finish pkt m m2 :
  mux_inv m2 -> ports_le m m2 -> is_Some (pk_buf pkt) ->
  wp ((if decide (pkt_op pkt = VSOCK_OP_RST)
       then remove_connection (Key (src_port pkt) (dst_port pkt)) else ret tt);;; ret (true, pkt))
    (fun r m' => mux_inv m' /\ ports_le m m' /\ is_Some (pk_buf r.2)) (fun _ _ => False) m2.
Proof.
  intros I2 P2 Hbuf. apply wp_bind. case_decide; [|by apply wp_ret, wp_ret].
  eapply wp_mono; [by apply remove_connection_spec| |done].
  intros _ m3 (? & ? & _). apply wp_ret. split_and!; [done|by etrans|done].
Qed.

Lemma recv_loop_spec fuel pkt m :
  mux_inv m -> is_Some (pk_buf pkt) -> measure m < fuel ->
  wp (recv_loop fuel pkt) (fun r m' => mux_inv m' /\ ports_le m m' /\ is_Some (pk_buf r.2))
    (fun _ _ => False) m.
Proof.
  revert pkt m. induction fuel as [|fuel IH]; intros pkt m Hinv Hbuf Hfuel; [lia|].
  cbn [recv_loop]. apply wp_bind, wp_get. unfold rxq_peek.
  destruct (rq_q (rxq m)) as [|[key|lp pp] rest] eqn:Hq; cbn [head].
  - apply wp_ret. split_and!; [done|reflexivity|done].
  - apply wp_bind. eapply wp_mono; [by apply (recv_turn key rest)| |done].
    intros r m' Hr. cbv beta in Hr. destruct (default (Err NoData, pkt, true) r) as [[res pkt'] do_pop].
    destruct Hr as (Hb & P' & Hne & I' & Hres). apply wp_bind.
    assert (Hend : res = Ok tt -> wp match res with
      | Ok _ => (if decide (pkt_op pkt' = VSOCK_OP_RST)
                 then remove_connection (Key (src_port pkt') (dst_port pkt')) else ret tt);;; ret (true, pkt')
      | Err _ => recv_loop fuel pkt' end
      (fun r m' => mux_inv m' /\ ports_le m m' /\ is_Some (pk_buf r.2)) (fun _ _ => False)
      (if do_pop then popped m' else m')).
    { intros ->. apply recv_finish; [done| |done]. by destruct do_pop. }
    destruct Hres as [Hok|[-> Hm]].
    + destruct do_pop; [apply wp_pop_rxq; [by apply Hne|]|apply wp_ret]; by apply Hend.
    + apply wp_pop_rxq; [by apply Hne|]. destruct res as [[]|e]; [by apply Hend|].
      eapply wp_mono; [apply (IH pkt' (popped m')); [done|done|lia]| |done].
      intros r2 m2 (? & ? & ?). split_and!; [done|by etrans|done].
  - apply wp_bind, wp_pop_rxq; [by rewrite Hq|]. apply wp_ret.
    split_and!; [by eapply inv_pop_rst|by apply ports_same|done].
Qed.

(** ** The operations *)
Definition good (m : VsockMuxer St) {A} (r : A) (m' : VsockMuxer St) : Prop :=
  mux_inv m' /\ ports_le m m'.

Lemma mux_recv_spec pkt m :
  mux_inv m -> is_Some (pk_buf pkt) -> wp (mux_recv_pkt pkt) (good m) (fun _ _ => False) m.
Proof.
  intros Hinv Hbuf. unfold mux_recv_pkt. apply wp_bind, wp_modify, wp_bind, wp_get.
  set (m1 := if _ : bool then _ else m).
  assert (H1 : mux_inv m1 /\ ports_le m m1).
  { subst m1. destruct (rxq_is_empty (rxq m) && negb (rq_synced (rxq m))); [|done].
    split; [|by apply ports_same]. destruct (rxq_rebuilt (conn_map m)) as [Hok Hall].
    destruct Hinv as [_ _ Hn Hc]. split; cbn; [done| |done|done].
    intros Hs k _ Hp. unfold pending_at in Hp. cbn in Hp.
    destruct (conn_map m !! k) eqn:Hk; [|done]. by eapply Hall. }
  destruct H1 as [H1 P1]. pose proof (measure_bound m1).
  eapply wp_mono; [apply recv_loop_spec; [done|done|lia]| |done].
  intros r m' (? & ? & _). split; [done|by etrans].
Qed.

Lemma inv_insert hole key c m :
  mux_inv_but hole m -> size (conn_map m) < MAX_CONNECTIONS -> conn_ok key c ->
  mux_inv_but (hole ∪ {[key]}) (set_conn_map <[key := c]> m).
Proof.
  intros [Hq Hs Hn Hc] Hlt Hok. split; cbn; [done| | |].
  - intros Hsync k Hin Hp. apply Hs; [done|set_solver|]. unfold pending_at in *. cbn in Hp.
    by rewrite lookup_insert_ne in Hp by set_solver.
  - rewrite map_size_insert. destruct (conn_map m !! key); cbn; lia.
  - intros k c1 Hk1. apply lookup_insert_Some in Hk1 as [[<- <-]|[_ ?]]; auto.
Qed.

Lemma add_connection_spec key c m :
  mux_inv m -> conn_ok key c ->
  wp (add_connection key c) (good m) (fun _ => good m tt) m.
Proof.
  intros Hinv Hok. unfold add_connection. apply wp_bind.
  eapply wp_mono; [by apply sweep_killq_spec| |done]. intros _ m1 [H1 [_ _ [Hs Hl]]].
  pose proof (ports_same _ _ Hs Hl) as P1. apply wp_bind, wp_get.
  case_decide as Hfull; [by apply wp_throw|].
  apply wp_bind. unfold add_listener. apply wp_bind, wp_epoll_ctl. intros [e|].
  { apply wp_throw. split; [by eapply inv_same|]. etrans; [exact P1|by apply ports_same]. }
  apply wp_modify, wp_bind. set (m2 := set_listeners _ _).
  assert (H2 : mux_inv m2) by by eapply inv_same.
  assert (P2 : ports_le m m2) by (etrans; [exact P1|by apply ports_same]).
  assert (Hend : forall m3, mux_inv m3 -> ports_le m m3 -> conn_map m3 = conn_map m2 ->
    (has_pending_rx c = true -> rq_synced (rxq m3) = true -> ConnRx key ∈ rq_q (rxq m3)) ->
    wp (E := mux_error) (modify (set_conn_map <[key := c]>)) (good m) (fun _ => good m tt) m3).
  { intros m3 H3 P3 C3 Hp. apply wp_modify. split; [|etrans; [exact P3|by apply ports_same]].
    apply (inv_fill _ key).
    - apply inv_insert; [done| |done]. rewrite C3. cbn. lia.
    - cbn. intros Hsync Hpend. apply Hp; [|done]. unfold pending_at in Hpend. cbn in Hpend.
      by rewrite lookup_insert_eq in Hpend. }
  destruct (has_pending_rx c) eqn:Hp; [|apply wp_ret, Hend; try done; reflexivity].
  apply wp_ignore. unfold mux_rxq_push, wp at 1. apply Hend; [| |done|].
  - apply (inv_push ∅ (ConnRx key)) in H2. by replace (∅ ∖ {[key]}) with (∅ : gset ConnMapKey) in H2 by set_solver.
  - etrans; [exact P2|by apply ports_same].
  - intros _ Hsync. apply rxq_push_synced in Hsync as (_ & _ & [[]|Hin]). done.
Qed.

Lemma new_peer_ok (s : St) lc pc lp pp alloc : conn_ok (Key lp pp) (new_peer_init s lc pc lp pp alloc).
Proof. split; try done. by left. Qed.
Lemma new_local_ok (s : St) lc pc lp pp : conn_ok (Key lp pp) (new_local_init s lc pc lp pp).
Proof. by split. Qed.

Lemma enq_rst_spec lp pp m : mux_inv m -> wp (enq_rst lp pp) (good m) (fun _ _ => False) m.
Proof.
  intros Hinv. apply wp_ignore. unfold mux_rxq_push, wp. split; [|by apply ports_same].
  by apply (inv_push ∅ (RstPkt lp pp)).
Qed.

Lemma handle_peer_request_spec pkt m :
  mux_inv m -> wp (handle_peer_request_pkt pkt) (good m) (fun _ _ => False) m.
Proof.
  intros Hinv. unfold handle_peer_request_pkt. apply wp_bind, wp_catch.
  assert (Hrst : forall m1, good m tt m1 -> wp (enq_rst (dst_port pkt) (src_port pkt)) (good m)
    (fun _ _ => False) m1).
  { intros m1 [H1 P1]. eapply wp_mono; [by apply enq_rst_spec| |done].
    intros ? m2 [H2 P2]. split; [done|by etrans]. }
  apply wp_bind. unfold unix_connect, wp at 1. destruct (connect_answers m) as [|[s|e] rest].
  - by apply Hrst.
  - apply wp_bind, wp_get. set (m1 := set_host _ _ _ _ m).
    assert (H1 : good m tt m1) by (split; [by eapply inv_same|by apply ports_same]).
    eapply wp_mono; [apply add_connection_spec; [apply H1|apply new_peer_ok]| |].
    + intros ? m2 [H2 P2]. apply wp_ret. split; [done|]. etrans; [apply H1|done].
    + intros e m2 [H2 P2]. apply Hrst. split; [done|]. etrans; [apply H1|done].
  - apply Hrst. split; [by eapply inv_same|by apply ports_same].
Qed.

(** A mutation of which nothing else is needed. *)
Lemma apply_good {A} key (mut_fn : Z -> VsockConnection St -> option (A * VsockConnection St)) m :
  mux_inv m ->
  (forall t c, conn_ok key c -> exists a c', mut_fn t c = Some (a, c') /\ conn_ok key c') ->
  wp (apply_conn_mutation key mut_fn) (good m) (fun _ _ => False) m.
Proof.
  intros Hinv Hfn. destruct (conn_map m !! key) as [c|] eqn:Hk.
  - eapply wp_mono; [apply (apply_spec key mut_fn (fun _ _ => True) m c Hinv Hk)| |done].
    + intros t. destruct (Hfn t c) as (a & c' & ? & ?); [by apply (mi_conn _ _ Hinv)|eauto].
    + intros r m' (a & c' & m1 & _ & _ & Hmut & H1 & Heff).
      split; [by eapply inv_effect|by eapply mutated_ports].
  - unfold apply_conn_mutation. apply wp_bind, wp_get. rewrite Hk. apply wp_ret. split; [done|reflexivity].
Qed.

Lemma mux_send_spec pkt m :
  mux_inv m -> pkt_fits pkt -> wp (mux_send_pkt pkt) (good m) (fun _ _ => False) m.
Proof.
  intros Hinv Hfits. assert (Hrefl : good m tt m) by (split; [done|reflexivity]).
  unfold mux_send_pkt. case_decide; [by apply enq_rst_spec|].
  case_decide; [by apply wp_ret|]. apply wp_bind, wp_get.
  destruct (conn_map m !! _).
  - case_decide.
    + eapply wp_mono; [by apply remove_connection_spec| |done]. intros ? m' (? & ? & _). by split.
    + apply wp_bind. eapply wp_mono; [apply apply_good; [done|]| |done].
      * intros t c Hok. destruct (conn_ok_send _ _ t pkt Hok Hfits) as (c' & ? & ?). eauto.
      * intros ? m' Hg. by apply wp_ret.
  - case_decide; [by apply handle_peer_request_spec|by apply enq_rst_spec].
Qed.

Lemma dispatch_spec fd evset m :
  mux_inv m -> wp (dispatch_conn_event fd evset) (good m) (fun _ _ => False) m.
Proof.
  intros Hinv. assert (Hrefl : good m tt m) by (split; [done|reflexivity]).
  unfold dispatch_conn_event. apply wp_bind, wp_get.
  destruct (listener_map m !! fd) as [[key e| |]|]; [|by apply wp_ret..].
  apply wp_bind. eapply wp_mono; [apply apply_good; [done|]| |done].
  - intros t c Hok. destruct (conn_ok_notify _ _ t evset Hok) as (c' & ? & ?). eauto.
  - intros ? m' Hg. by apply wp_ret.
Qed.

(** A host-initiated connection takes at most one port. *)
Lemma connect_spec s peer_port m :
  mux_inv m -> in_width 32 (local_port_last m) -> (Z.of_nat (size (local_port_set m)) < 2 ^ 30)%Z ->
  wp (add_local_connect_connection s peer_port)
    (fun _ m' => mux_inv m' /\ in_width 32 (local_port_last m') /\
                 size (local_port_set m') <= S (size (local_port_set m))) (fun _ _ => False) m.
Proof.
  intros Hinv Hl Hs. unfold add_local_connect_connection. apply wp_bind.
  destruct (find_port_total _ _ Hl Hs) as (p & Hp & Hnew & Hr).
  unfold allocate_local_port. apply wp_bind, wp_get. rewrite Hp. apply wp_bind, wp_modify, wp_ret.
  apply wp_bind, wp_get, wp_bind, wp_catch. set (m1 := set_ports _ _ m).
  assert (H1 : mux_inv m1) by by eapply inv_same.
  assert (Hsize : size (local_port_set m1) <= S (size (local_port_set m))).
  { cbn. rewrite size_union by set_solver. rewrite size_singleton. lia. }
  assert (Hlast : in_width 32 (local_port_last m1)) by (cbn; unfold in_width; lia).
  assert (Hend : forall m2, mux_inv m2 -> ports_le m1 m2 -> mux_inv m2 /\
    in_width 32 (local_port_last m2) /\ size (local_port_set m2) <= S (size (local_port_set m))).
  { intros m2 H2 [P2 L2]. rewrite L2. split_and!; [done|apply Hlast..|].
    apply subseteq_size in P2. lia. }
  eapply wp_mono; [apply add_connection_spec; [done|apply new_local_ok]| |].
  - intros ? m2 [H2 P2]. apply wp_ret. by apply Hend.
  - intros ? m2 [H2 P2]. apply wp_modify, Hend; [by eapply inv_same|].
    etrans; [exact P2|]. split; cbn; [set_solver|done].
Qed.

Lemma queue_rst_spec conns m :
  mux_inv m -> wp (queue_rst_for_connections conns) (good m) (fun _ _ => False) m.
Proof.
  unfold queue_rst_for_connections.
  revert m. induction conns as [|[lp pp] conns IH]; intros m Hinv; cbn [fold_right].
  - apply wp_ret. split; [done|reflexivity].
  - apply wp_bind. eapply wp_mono; [by apply enq_rst_spec| |done]. intros ? m1 [H1 P1].
    eapply wp_mono; [by apply IH| |done]. intros ? m2 [H2 P2]. split; [done|by etrans].
Qed.

(** ** Runs of the multiplexer *)
Inductive mux_op :=
| MSend (pkt : VsockPacket)
| MRecv (pkt : VsockPacket)
| MEvent (fd evset : Z)
| MConnect (s : St) (peer_port : Z)
| MQueueRst (conns : list (Z * Z)).

(** Guest packets whose payload lies in their buffer, and buffers for the packets
    to the guest. *)
Definition mux_op_ok (o : mux_op) : Prop :=
  match o with
  | MSend pkt => pkt_fits pkt
  | MRecv pkt => is_Some (pk_buf pkt)
  | _ => True
  end.

Definition mux_exec (o : mux_op) : M (VsockMuxer St) mux_error unit :=
  match o with
  | MSend pkt => mux_send_pkt pkt
  | MRecv pkt => mux_recv_pkt pkt;;; ret tt
  | MEvent fd evset => dispatch_conn_event fd evset
  | MConnect s peer_port => add_local_connect_connection s peer_port
  | MQueueRst conns => queue_rst_for_connections conns
  end.

Fixpoint mux_run (ops : list mux_op) : M (VsockMuxer St) mux_error unit :=
  match ops with [] => ret tt | o :: rest => mux_exec o;;; mux_run rest end.

Lemma mux_exec_spec o m :
  mux_inv m -> mux_op_ok o -> in_width 32 (local_port_last m) ->
  (Z.of_nat (size (local_port_set m)) < 2 ^ 30)%Z ->
  wp (mux_exec o)
    (fun _ m' => mux_inv m' /\ in_width 32 (local_port_last m') /\
                 size (local_port_set m') <= S (size (local_port_set m))) (fun _ _ => False) m.
Proof.
  intros Hinv Hok Hl Hs.
  assert (Hgood : forall A (a : A) m', good m a m' -> mux_inv m' /\ in_width 32 (local_port_last m') /\
    size (local_port_set m') <= S (size (local_port_set m))).
  { intros A a m' [H1 [P1 L1]]. rewrite L1. split_and!; [done|apply Hl..|].
    apply subseteq_size in P1. lia. }
  destruct o; cbn [mux_exec].
  - eapply wp_mono; [by apply mux_send_spec|apply Hgood|done].
  - apply wp_bind. eapply wp_mono; [by apply mux_recv_spec| |done].
    intros r m' Hg. apply wp_ret. by apply (Hgood _ r).
  - eapply wp_mono; [by apply dispatch_spec|apply Hgood|done].
  - by apply connect_spec.
  - eapply wp_mono; [by apply queue_rst_spec|apply Hgood|done].
Qed.

Lemma mux_run_spec ops m :
  mux_inv m -> Forall mux_op_ok ops -> in_width 32 (local_port_last m) ->
  (Z.of_nat (size (local_port_set m) + length ops) < 2 ^ 30)%Z ->
  wp (mux_run ops) (fun _ m' => mux_inv m') (fun _ _ => False) m.
Proof.
  revert m. induction ops as [|o ops IH]; intros m Hinv Hok Hl Hs; cbn [mux_run].
  - by apply wp_ret.
  - inversion_clear Hok as [|? ? Ho Hrest]. cbn [length] in Hs. apply wp_bind.
    eapply wp_mono; [apply mux_exec_spec; [done|done|done|lia]| |done].
    intros _ m' (H1 & L1 & S1). apply IH; [done|done|done|lia].
Qed.
End mux.

(** C5: The multiplexer never panics or loops, and stays consistent.  For
    every sequence of packets from the guest whose data fits their buffers,
    requests for packets into a buffer, stream events, host connections and
    queued resets on a new multiplexer, under any behaviour of the host streams,
    of [epoll] and of the clock: every call returns; at the end there are at
    most [MAX_CONNECTIONS] connections, each stored under its own ports with a
    well-formed buffer; the RX queue is within its capacity; and if it calls
    itself synced, every connection that has a packet for the guest is in it, so
    none starves.  There are fewer than [2^30] operations, which keeps the range
    of local ports from running out. *)
Theorem muxer_invariant {St} `{HL : StreamLaws St} {HB : BackendStream St} {ME : MuxEnv}
    {ML : MuxEnvLaws ME} guest_cid ports nested created bound host ops (m0 m : VsockMuxer St) r :
  mux_new guest_cid ports nested created bound host = Done m0 ->
  Forall mux_op_ok ops -> (Z.of_nat (size (local_port_set m0) + length ops) < 2 ^ 30)%Z ->
  mux_run ops m0 = (r, m) ->
  r = Done tt /\ size (conn_map m) <= MAX_CONNECTIONS /\
  length (rq_q (rxq m)) <= MUXER_RXQ_SIZE /\
  (forall k c, conn_map m !! k = Some c ->
     (local_port c, peer_port c) = (k_local k, k_peer k) /\ txbuf_ok (tx_buf c)) /\
  (rq_synced (rxq m) = true -> forall k c, conn_map m !! k = Some c -> has_pending_rx c = true ->
     ConnRx k ∈ rq_q (rxq m)).
Proof.
  intros Hnew Hok Hs Hrun. unfold mux_new in Hnew. destruct host as [[[c t] e] u].
  destruct created as [[]|], bound as [host_fd|]; [|done..].
  assert (H0 : mux_inv m0 /\ in_width 32 (local_port_last m0)).
  { set (m1 := mkMuxer _ _ _ _ _ _ _ _ _ _ _) in Hnew.
    assert (H1 : mux_inv m1).
    { split; cbn; [unfold rxq_ok; cbn; lia|intros _ k _; by unfold pending_at|rewrite map_size_empty; lia|done]. }
    destruct nested; [|by simplify_eq].
    unfold add_listener, bind, epoll_ctl in Hnew.
    destruct (default None (head (epoll_answers m1))); [done|]. unfold modify in Hnew. simplify_eq.
    split; [by eapply inv_same|done]. }
  destruct H0 as [H0 L0]. pose proof (mux_run_spec ops m0 H0 Hok L0 Hs) as Hwp.
  unfold wp in Hwp. rewrite Hrun in Hwp. destruct r as [[]| |]; [|done|done].
  destruct Hwp as [Hq Hsync Hn Hc]. split_and!; [done|done|done| |].
  - intros k c1 Hk. destruct (Hc k c1 Hk). by split.
  - intros Hsy k c1 Hk Hp. apply Hsync; [done|set_solver|]. unfold pending_at. by rewrite Hk.
Qed.

(** ** Examples *)
Abbreviation host := (VsockBackendStream script script).

Definition by_kill_time (a b : MuxerKillQItem) : Prop := (ki_kill_time a <= ki_kill_time b)%Z.
#[global] Instance by_kill_time_dec : RelDecision by_kill_time.
Proof. intros a b. unfold by_kill_time. apply _. Defined.
#[global] Instance by_kill_time_total : Total by_kill_time.
Proof. intros a b. unfold by_kill_time. lia. Qed.

#[global] Instance plain_mux_env : MuxEnv := {|
  hash_order l := l;
  sort_by_kill_time := merge_sort by_kill_time;
|}.
#[global] Instance plain_mux_laws : MuxEnvLaws plain_mux_env.
Proof.
  split; [done|apply merge_sort_Permutation|]. apply (Sorted_merge_sort by_kill_time).
Qed.

Definition host_stream (fd : Z) : host := Unix (Script fd [] [] [] []).
Definition rx_buffer : VsockPacket := mkPkt [] (Some (replicate 8 0%Z)).
Definition quiet_host : Z * list Z * list (option epoll_error) * list (result io_error host) :=
  (0%Z, [], [], []).
(** A multiplexer on a host with the given answers of [epoll]. *)
Definition fresh_mux (epoll : list (option epoll_error)) : VsockMuxer host :=
  (add_listener 5 LHostSock
     (mkMuxer 3 ∅ ∅ rxq_new killq_new ∅ (2 ^ 30 - 1) 0 [] epoll [])).2.
Definition example_mux : VsockMuxer host := fresh_mux [].

Definition mux_example : list (@mux_op host) :=
  [MConnect (host_stream 10) 52; MRecv rx_buffer; MConnect (host_stream 11) 53; MQueueRst [(7, 8)%Z]].

Lemma allocate_local_port_fresh_witness :
  let m := (mux_run mux_example example_mux).2 in
  exists p m', allocate_local_port m = (Done p, m') /\ (2 ^ 30 <= p < 2 ^ 31)%Z /\
    (p ∉ local_port_set m) /\ local_port_set m' = local_port_set m ∪ {[p]} /\
    local_port_last m' = p.
Proof.
  apply (allocate_local_port_fresh ((mux_run mux_example example_mux).2)).
  - vm_compute. split; congruence.
  - vm_compute. reflexivity.
Defined.

Lemma muxer_invariant_witness :
  let m := (mux_run mux_example example_mux).2 in
  size (conn_map m) <= MAX_CONNECTIONS /\ length (rq_q (rxq m)) <= MUXER_RXQ_SIZE /\
  length (rq_q (rxq m)) = 2.
Proof.
  destruct (muxer_invariant (HL := backend_laws (HLU := script_laws) (HLF := script_laws))
    (ML := plain_mux_laws) 3 None true (Ok tt) (Ok 5%Z) quiet_host
    mux_example example_mux (mux_run mux_example example_mux).2
    (mux_run mux_example example_mux).1) as (_ & H1 & H2 & _).
  - vm_compute. reflexivity.
  - unfold mux_example. repeat constructor. by eexists.
  - vm_compute. reflexivity.
  - by destruct (mux_run mux_example example_mux).
  - split; [exact H1|]. split; [exact H2|]. vm_compute. reflexivity.
Defined.

(** A kill queue that had to leave a connection out does not catch up with it:
    129 requests of the host time out while nobody answers; the sweep kills
    the 128 it had room for, the queue it then builds has only timers that
    still run, and calls itself synced; the last connection is past its time,
    alive, and in no queue. *)
Definition flood : list (@mux_op host) :=
  ((fun i => MConnect (host_stream (Z.of_nat i)) 52) <$> seq 10 129) ++
  replicate 129 (MRecv rx_buffer).

Definition flooded : VsockMuxer host :=
  let m := (mux_run flood example_mux).2 in
  (mux_run [MConnect (host_stream 1) 53]
    (set_host 5000 [] [] [] m)).2.

Definition overdue (m : VsockMuxer host) : list (ConnMapKey * VsockConnection host) :=
  filter (fun kc => has_expired (clock m) kc.2 = true /\ state kc.2 <> Killed) (map_to_list (conn_map m)).

Lemma kill_timer_missed :
  length (overdue flooded) = 1 /\ killq flooded = mkKillQ [] true.
Proof. vm_compute. split; reflexivity. Qed.

(** A connection whose descriptor [epoll] no longer knows is dropped without
    giving its local port back: the host connects, the guest accepts and sends
    a byte the host cannot take, and the change of the listener fails. *)
Definition guest_pkt (op len : Z) (buf : option (list Z)) : VsockPacket :=
  set_buf_alloc 100 (set_type VSOCK_TYPE_STREAM (set_dst_port (2 ^ 30) (set_src_port 52
    (set_dst_cid VSOCK_HOST_CID (set_src_cid 3 (example_pkt op len buf)))))).

Lemma port_leaked :
  let m0 := fresh_mux [None; None; None; None; Some EpNotFound] in
  let m := (mux_run [MConnect (Unix (Script 10 [Take 14; Refuse WouldBlock] [] [] [])) 52; MRecv rx_buffer;
                     MSend (guest_pkt VSOCK_OP_RESPONSE 0 None);
                     MSend (guest_pkt VSOCK_OP_RW 1 (Some [7%Z]))] m0).2 in
  size (conn_map m) = 0 /\ bool_decide ((2 ^ 30)%Z ∈ local_port_set m) = true.
Proof. vm_compute. split; reflexivity. Qed.
