(* ===== verification/RateLimiter.v ===== *)
(** The rate limiter of the virtio devices
    (hypervisor/rate_limiter/src/lib.rs): token buckets that are refilled from
    the time that passed, and a limiter over two of them that blocks on a
    timer when a bucket has run out. *)
From Stdlib Require Import Floats.SpecFloat.
From stdpp Require Import base numbers list.
From S2P Require Import Prelude.

(** ** Numbers *)
Definition REFILL_TIMER_INTERVAL_MS : Z := 100.
Definition TIMER_REFILL_DUR : Z := REFILL_TIMER_INTERVAL_MS.
Definition NANOSEC_IN_ONE_MILLISEC : Z := 1000000.

(** [gcd]: on 64-bit operands the second one halves every two turns. *)
Fixpoint gcd_loop (fuel : nat) (x y : Z) : Z :=
  match fuel with
  | 0 => x
  | S fuel => if decide (y = 0%Z) then x else gcd_loop fuel y (x mod y)
  end.
Definition gcd (x y : Z) : Z := gcd_loop 129 x y.
Arguments gcd : simpl never.
#[local] Arguments wmul : simpl never.

(** [x as f64] and [x as u64] on binary64 numbers. *)
Definition f64_of_u64 (x : Z) : spec_float := binary_normalize 53 1024 x 0 false.
Definition f64_div : spec_float -> spec_float -> spec_float := SFdiv 53 1024.
Definition f64_mul : spec_float -> spec_float -> spec_float := SFmul 53 1024.
Definition u64_of_f64 (f : spec_float) : Z :=
  match f with
  | S754_finite false m e => Z.min (2 ^ 64 - 1) (Z.shiftl (Z.pos m) e)
  | S754_infinity false => 2 ^ 64 - 1
  | _ => 0
  end.

(** ** Token buckets *)
Inductive BucketReduction := Failure | Success | OverConsumption (ratio : spec_float).

(** Instants are in nanoseconds. *)
Record TokenBucket := mkBucket {
  size : Z;
  one_time_burst : Z;
  refill_time : Z;
  budget : Z;
  last_update : Z;
  processed_capacity : Z;
  processed_refill_time : Z;
}.

Definition with_burst (x : Z) (b : TokenBucket) : TokenBucket :=
  mkBucket (size b) x (refill_time b) (budget b) (last_update b) (processed_capacity b)
    (processed_refill_time b).
Definition with_budget (x : Z) (b : TokenBucket) : TokenBucket :=
  mkBucket (size b) (one_time_burst b) (refill_time b) x (last_update b) (processed_capacity b)
    (processed_refill_time b).
Definition with_last_update (x : Z) (b : TokenBucket) : TokenBucket :=
  mkBucket (size b) (one_time_burst b) (refill_time b) (budget b) x (processed_capacity b)
    (processed_refill_time b).

Definition bucket_new (now sz burst complete_refill_time_ms : Z) : option TokenBucket :=
  if bool_decide (sz = 0%Z) || bool_decide (complete_refill_time_ms = 0%Z) then None
  else
    let complete_refill_time_ns := wmul 64 complete_refill_time_ms NANOSEC_IN_ONE_MILLISEC in
    let common_factor := gcd sz complete_refill_time_ns in
    Some (mkBucket sz burst complete_refill_time_ms sz now (sz / common_factor)
            (complete_refill_time_ns / common_factor)).

Section bucket.
Context {E : Type}.

(** [/] on [u64] panics on a zero divisor. *)
Definition u64_div {S} (x y : Z) : M S E Z := if decide (y = 0%Z) then crash else ret (x / y)%Z.

(** What follows once the burst is used up; [t1] and [t2] are the two readings
    of the clock, [elapsed] saturates at zero. *)
Definition reduce_budget (t1 t2 tokens : Z) : M TokenBucket E BucketReduction :=
  let* b := get in
  let time_delta := wrap 64 (Z.max 0 (t1 - last_update b)) in
  modify (with_last_update t2);;;
  let* refill := u64_div (wmul 64 time_delta (processed_capacity b)) (processed_refill_time b) in
  modify (fun b => with_budget (wadd 64 (budget b) refill) b);;;
  modify (fun b => if decide (size b <= budget b)%Z then with_budget (size b) b else b);;;
  let* b := get in
  if decide (budget b < tokens)%Z then
    if decide (size b < tokens)%Z then
      modify (with_budget 0);;;
      ret (OverConsumption (f64_div (f64_of_u64 (tokens - budget b)) (f64_of_u64 (size b))))
    else ret Failure
  else modify (with_budget (budget b - tokens)%Z);;; ret Success.

Definition reduce (t1 t2 tokens : Z) : M TokenBucket E BucketReduction :=
  let* b := get in
  if decide (0 < one_time_burst b)%Z then
    if decide (tokens <= one_time_burst b)%Z then
      modify (with_burst (one_time_burst b - tokens)%Z);;;
      modify (with_last_update t1);;; ret Success
    else
      modify (with_burst 0);;;
      reduce_budget t1 t2 (tokens - one_time_burst b)%Z
  else reduce_budget t1 t2 tokens.
End bucket.

Definition replenish (tokens : Z) (b : TokenBucket) : TokenBucket :=
  if decide (0 < one_time_burst b)%Z then with_burst (wadd 64 (one_time_burst b) tokens) b
  else with_budget (Z.min (wadd 64 (budget b) tokens) (size b)) b.

(** ** The limiter *)
Inductive TokenType := Bytes | Ops.
Inductive BucketUpdate := NoUpdate | Disabled | Update (tb : TokenBucket).

(** The answers of the timer descriptor. *)
Inductive wait_answer := Expired | WaitWouldBlock | WaitError (errno : Z).
Inductive rl_error := SpuriousRateLimiterEvent | TimerFdWaitError (errno : Z).

(** [timer_fd] is the duration, in milliseconds, the timer was last set to. *)
Record RateLimiter := mkLimiter {
  bandwidth : option TokenBucket;
  ops : option TokenBucket;
  timer_fd : option Z;
  timer_active : bool;
}.
Abbreviation Lim := (M RateLimiter rl_error).

Definition bucket_of (ty : TokenType) (l : RateLimiter) : option TokenBucket :=
  match ty with Bytes => bandwidth l | Ops => ops l end.
Definition set_bucket (ty : TokenType) (b : option TokenBucket) (l : RateLimiter) : RateLimiter :=
  match ty with
  | Bytes => mkLimiter b (ops l) (timer_fd l) (timer_active l)
  | Ops => mkLimiter (bandwidth l) b (timer_fd l) (timer_active l)
  end.

(** [timer] is the answer of creating the timer and making it non-blocking. *)
Definition limiter_new (now : Z) (timer : result Z unit)
    (bytes_capacity bytes_burst bytes_refill_ms ops_capacity ops_burst ops_refill_ms : Z)
  : result Z RateLimiter :=
  match timer with
  | Err errno => Err errno
  | Ok _ => Ok (mkLimiter (bucket_new now bytes_capacity bytes_burst bytes_refill_ms)
                  (bucket_new now ops_capacity ops_burst ops_refill_ms) None false)
  end.

(** [armed] tells whether the kernel accepts the timer; the code panics if it
    does not. *)
Definition activate_timer (armed : bool) (dur : Z) : Lim unit :=
  if armed then modify (fun l => mkLimiter (bandwidth l) (ops l) (Some dur) true) else crash.

Definition on_bucket {A} (ty : TokenType) (b : TokenBucket) (m : M TokenBucket rl_error A) : Lim A :=
  fun l => let '(r, b') := m b in (r, set_bucket ty (Some b') l).

Definition consume (armed : bool) (t1 t2 tokens : Z) (ty : TokenType) : Lim BucketReduction :=
  let* l := get in
  if timer_active l then ret Failure
  else match bucket_of ty l with
  | None => ret Success
  | Some b =>
    let* r := on_bucket ty b (reduce t1 t2 tokens) in
    match r with
    | Failure => activate_timer armed TIMER_REFILL_DUR;;; ret Failure
    | Success => ret Success
    | OverConsumption ratio =>
      activate_timer armed (u64_of_f64 (f64_mul ratio (f64_of_u64 (refill_time b))));;;
      ret (OverConsumption ratio)
    end
  end.

Definition manual_replenish (tokens : Z) (ty : TokenType) : Lim unit :=
  modify (fun l => set_bucket ty (replenish tokens <$> bucket_of ty l) l).

(** [interrupted] waits are retried before the timer answers. *)
Fixpoint event_handler (interrupted : nat) (answer : wait_answer) : Lim unit :=
  match interrupted with
  | S n => event_handler n answer
  | 0 =>
    match answer with
    | Expired => modify (fun l => mkLimiter (bandwidth l) (ops l) (timer_fd l) false)
    | WaitWouldBlock => throw SpuriousRateLimiterEvent
    | WaitError errno => throw (TimerFdWaitError errno)
    end
  end.

Definition update_bucket (u : BucketUpdate) (b : option TokenBucket) : option TokenBucket :=
  match u with NoUpdate => b | Disabled => None | Update tb => Some tb end.
Definition update_buckets (bytes ops_update : BucketUpdate) : Lim unit :=
  modify (fun l => mkLimiter (update_bucket bytes (bandwidth l)) (update_bucket ops_update (ops l))
                     (timer_fd l) (timer_active l)).
