(* ===== verification/RateLimiterProofs.v ===== *)
(** What the rate limiter guarantees: the simplified refill formula is exact,
    no sequence of calls is granted more than the configured rate and what
    requests larger than the bucket borrow, and a request that fits the bucket
    is granted after enough retries if the bucket gains a token between them. *)
From Stdlib Require Import Floats.SpecFloat.
From stdpp Require Import base numbers list.
From S2P Require Import Prelude RateLimiter.
#[local] Open Scope Z_scope.
#[local] Arguments Z.pow : simpl never.
#[local] Arguments Z.mul : simpl never.

(** ** The greatest common divisor *)
Lemma gcd_step x y : 0 <= x -> 0 < y -> Z.gcd y (x mod y) = Z.gcd x y.
Proof. intros Hx Hy. by rewrite Z.gcd_comm, Z.gcd_mod, Z.gcd_comm by lia. Qed.

(** Two turns of the loop halve the second operand. *)
Lemma mod_mod_half x y : 0 < y -> 0 < x mod y -> 2 * (y mod (x mod y)) < y.
Proof.
  intros Hy Hm. pose proof (Z.mod_pos_bound x y Hy) as Hlt. revert Hm Hlt.
  generalize (x mod y). intros m Hm Hlt.
  pose proof (Z.mod_pos_bound y m Hm) as Hr. pose proof (Z.div_mod y m ltac:(lia)) as Hdiv.
  assert (1 <= y / m) as Hq by (apply Z.div_le_lower_bound; lia). revert Hr Hdiv Hq.
  generalize (y mod m) (y / m). intros r q Hr Hdiv Hq. nia.
Qed.

Lemma gcd_loop_spec k : forall fuel x y,
  (2 * k < fuel)%nat -> 0 <= x -> 0 <= y < 2 ^ Z.of_nat k -> gcd_loop fuel x y = Z.gcd x y.
Proof.
  induction k as [|k IH]; intros [|fuel] x y Hf Hx Hy; try lia; cbn [gcd_loop]; case_decide as Hz.
  1,3: subst; rewrite Z.gcd_0_r; lia.
  { cbn in Hy. lia. }
  destruct fuel as [|fuel]; [lia|]. cbn [gcd_loop].
  pose proof (Z.mod_pos_bound x y ltac:(lia)). rewrite <- (gcd_step x y) by lia.
  case_decide as Hm; [rewrite Hm, Z.gcd_0_r; lia|].
  rewrite <- (gcd_step y (x mod y)) by lia. apply IH; [lia|lia|].
  pose proof (mod_mod_half x y ltac:(lia) ltac:(lia)).
  pose proof (Z.mod_pos_bound y (x mod y) ltac:(lia)).
  rewrite Nat2Z.inj_succ, Z.pow_succ_r in Hy by lia. lia.
Qed.

Lemma gcd_correct x y : 0 <= x -> in_width 64 y -> gcd x y = Z.gcd x y.
Proof. intros Hx Hy. apply (gcd_loop_spec 64); [lia|done|exact Hy]. Qed.

(** ** Well-formed buckets *)
Record bucket_ok (b : TokenBucket) : Prop := {
  bo_size : 0 < size b < 2 ^ 64;
  bo_burst : 0 <= one_time_burst b < 2 ^ 64;
  bo_budget : 0 <= budget b <= size b;
  bo_cap : 0 <= processed_capacity b;
  bo_refill : 0 < processed_refill_time b;
}.

(** The rate, as the fraction the bucket computes with. *)
Definition same_rate (b b' : TokenBucket) : Prop :=
  size b' = size b /\ processed_capacity b' = processed_capacity b /\
  processed_refill_time b' = processed_refill_time b.

Definition sane (sz burst ms : Z) : Prop :=
  in_width 64 sz /\ in_width 64 burst /\ 0 <= ms /\ ms * NANOSEC_IN_ONE_MILLISEC < 2 ^ 64.

(** A new bucket holds the configured rate in lowest terms. *)
Lemma bucket_new_spec now sz burst ms b :
  sane sz burst ms -> bucket_new now sz burst ms = Some b ->
  bucket_ok b /\ size b = sz /\ one_time_burst b = burst /\ budget b = sz /\ last_update b = now /\
  exists g, 0 < g /\ sz = processed_capacity b * g /\
            ms * NANOSEC_IN_ONE_MILLISEC = processed_refill_time b * g.
Proof.
  unfold sane, in_width, bucket_new, NANOSEC_IN_ONE_MILLISEC. intros (Hsz & Hb & Hms & Hns).
  repeat case_bool_decide; cbn [orb]; try done.
  intros [= <-]. cbn [size one_time_burst budget last_update processed_capacity processed_refill_time].
  rewrite wmul_small by (unfold in_width; lia).
  rewrite gcd_correct by (unfold in_width; lia). set (ns := ms * 1000000) in *.
  assert (Hg : 0 < Z.gcd sz ns) by (pose proof (Z.gcd_nonneg sz ns); pose proof (Z.gcd_eq_0_l sz ns); lia).
  destruct (Z.gcd_divide_l sz ns) as [p Hp], (Z.gcd_divide_r sz ns) as [q Hq].
  assert (Hdp : sz / Z.gcd sz ns = p) by (rewrite Hp at 1; apply Z.div_mul; lia).
  assert (Hdq : ns / Z.gcd sz ns = q) by (rewrite Hq at 1; apply Z.div_mul; lia).
  rewrite Hdp, Hdq. clear Hdp Hdq. assert (0 < p /\ 0 < q) as [Hp0 Hq0].
  { revert Hp Hq Hg. generalize (Z.gcd sz ns). intros g Hp Hq Hg. nia. }
  split; [split; cbn; lia|]. split_and!; try done. by exists (Z.gcd sz ns).
Qed.

(** The optimised refill is the documented one: for every bucket the
    constructor builds from a size and a refill time whose nanoseconds fit 64
    bits, the amount computed from the reduced fraction equals
    [(time_delta * size) / (complete_refill_time_ms * 1_000_000)]. *)
Theorem refill_formula_exact now sz burst ms b d :
  sane sz burst ms -> bucket_new now sz burst ms = Some b ->
  d * processed_capacity b / processed_refill_time b = d * sz / (ms * NANOSEC_IN_ONE_MILLISEC).
Proof.
  intros Hsane Hnew.
  destruct (bucket_new_spec _ _ _ _ _ Hsane Hnew) as ([] & _ & _ & _ & _ & g & Hg & -> & ->).
  rewrite Z.mul_assoc. by rewrite Z.div_mul_cancel_r by lia.
Qed.

(** ** One call on a bucket *)
Definition refill (t1 : Z) (b : TokenBucket) : Z :=
  wmul 64 (wrap 64 (Z.max 0 (t1 - last_update b))) (processed_capacity b) / processed_refill_time b.

(** The bucket after the refill of a call that reads the clock at [t1], [t2]. *)
Definition filled (t1 t2 : Z) (b : TokenBucket) : TokenBucket :=
  with_last_update t2 (with_budget (Z.min (wadd 64 (budget b) (refill t1 b)) (size b)) b).

Lemma reduce_budget_run {E} t1 t2 tokens b :
  bucket_ok b ->
  reduce_budget (E := E) t1 t2 tokens b =
    let f := filled t1 t2 b in
    if decide (budget f < tokens) then
      if decide (size b < tokens)
      then (Done (OverConsumption (f64_div (f64_of_u64 (tokens - budget f)) (f64_of_u64 (size b)))),
            with_budget 0 f)
      else (Done Failure, f)
    else (Done Success, with_budget (budget f - tokens) f).
Proof.
  intros [_ _ _ _ Hr]. cbv zeta. unfold reduce_budget, bind, get, modify, u64_div.
  rewrite decide_False by lia. unfold ret. fold (refill t1 b). cbn.
  assert (Hf : (if decide (size b <= wadd 64 (budget b) (refill t1 b))
                then with_budget (size b) (with_budget (wadd 64 (budget b) (refill t1 b)) (with_last_update t2 b))
                else with_budget (wadd 64 (budget b) (refill t1 b)) (with_last_update t2 b)) = filled t1 t2 b).
  { unfold filled. case_decide; [rewrite Z.min_r by lia|rewrite Z.min_l by lia]; done. }
  rewrite Hf. by repeat case_decide.
Qed.

Lemma wrap_le w x : 0 <= w -> 0 <= x -> 0 <= wrap w x <= x.
Proof.
  intros Hw Hx. unfold wrap. split; [apply Z.mod_pos_bound; lia|apply Z.mod_le; lia].
Qed.

(** Overflows only make the refill smaller. *)
Lemma refill_le t1 b :
  bucket_ok b -> last_update b <= t1 ->
  0 <= refill t1 b /\ refill t1 b * processed_refill_time b <= (t1 - last_update b) * processed_capacity b.
Proof.
  intros [_ _ _ Hc Hr] Ht. unfold refill, wmul.
  pose proof (wrap_le 64 (Z.max 0 (t1 - last_update b)) ltac:(lia) ltac:(lia)) as Hd.
  set (d := wrap 64 (Z.max 0 _)) in *.
  pose proof (wrap_le 64 (d * processed_capacity b) ltac:(lia) ltac:(nia)) as Hm.
  set (x := wrap 64 (d * _)) in *. split; [apply Z.div_pos; lia|].
  pose proof (Z.mul_div_le x (processed_refill_time b) Hr). nia.
Qed.

Lemma filled_spec t1 t2 b :
  bucket_ok b -> last_update b <= t1 <= t2 ->
  bucket_ok (filled t1 t2 b) /\
  budget (filled t1 t2 b) * processed_refill_time b <=
    budget b * processed_refill_time b + (t2 - last_update b) * processed_capacity b.
Proof.
  intros Hok Ht. destruct (refill_le t1 b Hok) as [H0 Hle]; [lia|]. destruct Hok as [Hs Hb Hg Hc Hr].
  pose proof (wrap_le 64 (budget b + refill t1 b) ltac:(lia) ltac:(lia)) as Hw.
  fold (wadd 64 (budget b) (refill t1 b)) in Hw.
  split; [split; cbn; lia|]. cbn.
  assert (Z.min (wadd 64 (budget b) (refill t1 b)) (size b) <= budget b + refill t1 b) by lia. nia.
Qed.

(** An over-consumption succeeds too: its tokens are consumed. *)
Definition granted (r : BucketReduction) (tokens : Z) : Z :=
  match r with Success | OverConsumption _ => tokens | Failure => 0 end.

(** What an over-consumption takes beyond the burst and the budget the bucket
    has at that time: the tokens it "borrowed". *)
Definition borrowed (t1 t2 tokens : Z) (b : TokenBucket) (r : BucketReduction) : Z :=
  match r with
  | OverConsumption _ => tokens - one_time_burst b - budget (filled t1 t2 b)
  | _ => 0
  end.

(** The accounting of a call, in tokens scaled by the denominator of the rate:
    what it grants and leaves is covered by what was there and the time that
    passed. *)
Record paid (b b' : TokenBucket) (t2 extra got : Z) : Prop := {
  pd_ok : bucket_ok b';
  pd_rate : same_rate b b';
  pd_time : last_update b <= last_update b' <= t2;
  pd_cost : (got + budget b' + one_time_burst b') * processed_refill_time b <=
    (budget b + one_time_burst b + extra) * processed_refill_time b +
    (last_update b' - last_update b) * processed_capacity b;
}.

Lemma reduce_budget_paid {E} t1 t2 tokens b :
  bucket_ok b -> one_time_burst b = 0 -> last_update b <= t1 <= t2 -> 0 <= tokens ->
  exists r b', reduce_budget (E := E) t1 t2 tokens b = (Done r, b') /\
    paid b b' t2 (borrowed t1 t2 tokens b r) (granted r tokens).
Proof.
  intros Hok H0 Ht Hk. rewrite reduce_budget_run by done. cbv zeta.
  destruct (filled_spec t1 t2 b Hok Ht) as [Hf Hcost].
  assert (Hlast : last_update (filled t1 t2 b) = t2) by done.
  assert (Hbst : one_time_burst (filled t1 t2 b) = one_time_burst b) by done.
  pose proof (bo_refill b Hok). destruct Hf as [Fs Fb Fg Fc Fr].
  repeat case_decide; eexists _, _; (split; [done|]); cbn [granted borrowed];
    (split; [split; cbn in *; lia|by split_and!|cbn; lia|]); cbn -[filled] in *; rewrite ?Hlast, ?Hbst; nia.
Qed.

Lemma reduce_paid {E} t1 t2 tokens b :
  bucket_ok b -> last_update b <= t1 <= t2 -> 0 <= tokens ->
  exists r b', reduce (E := E) t1 t2 tokens b = (Done r, b') /\
    paid b b' t2 (borrowed t1 t2 tokens b r) (granted r tokens).
Proof.
  intros Hok Ht Hk. unfold reduce. unfold bind at 1, get.
  case_decide as Hb; [|apply reduce_budget_paid; [done|pose proof (bo_burst b Hok); lia|done|done]]. case_decide as Hfit.
  - eexists Success, _. split; [done|]. destruct Hok. split; [split; cbn; lia|done|cbn; lia|]. cbn. nia.
  - rewrite bind_modify. set (b1 := with_burst 0 b).
    assert (Hok1 : bucket_ok b1) by (destruct Hok; split; cbn; lia).
    destruct (reduce_budget_paid (E := E) t1 t2 (tokens - one_time_burst b) b1) as (r & b' & Hrun & Hp);
      [done|done|done|lia|].
    exists r, b'. split; [exact Hrun|]. destruct Hp as [P1 P2 P3 P4]. pose proof (bo_refill b Hok).
    split; [done|done|done|]. destruct r; cbn [granted borrowed] in *; cbn -[filled] in P4;
      try change (budget (filled t1 t2 b1)) with (budget (filled t1 t2 b)) in P4; nia.
Qed.

Lemma replenish_paid tokens b :
  bucket_ok b -> 0 <= tokens -> paid b (replenish tokens b) (last_update b) tokens 0.
Proof.
  intros Hok Hk. unfold replenish. pose proof (bo_burst b Hok). pose proof (bo_budget b Hok).
  pose proof (bo_size b Hok). pose proof (bo_refill b Hok). pose proof (bo_cap b Hok).
  pose proof (wrap_le 64 (one_time_burst b + tokens) ltac:(lia) ltac:(lia)) as Hw.
  pose proof (wrap_in_width 64 (one_time_burst b + tokens) ltac:(lia)) as [_ Hw'].
  pose proof (wrap_le 64 (budget b + tokens) ltac:(lia) ltac:(lia)) as Hv.
  fold (wadd 64 (one_time_burst b) tokens) in *. fold (wadd 64 (budget b) tokens) in *.
  case_decide; (split; [split; cbn; lia|done|cbn; lia|cbn]).
  - nia.
  - assert (Z.min (wadd 64 (budget b) tokens) (size b) <= budget b + tokens) by lia. nia.
Qed.

(** ** Runs of the limiter

    Before each reading of the clock some time passes; [armed] and the answers
    of the timer are the kernel's. *)
Inductive rl_op :=
| Consume (d1 d2 : N) (tokens : Z) (ty : TokenType) (armed : bool)
| Replenish (tokens : Z) (ty : TokenType)
| Event (interrupted : nat) (answer : wait_answer)
| Configure (bytes ops_update : BucketUpdate).

#[global] Instance TokenType_eq_dec : EqDecision TokenType.
Proof. solve_decision. Defined.

(** Token counts are [u64], and the bucket of type [ty] keeps its
    configuration: an update may replace or disable the other one. *)
Definition op_ok (ty : TokenType) (o : rl_op) : Prop :=
  match o with
  | Consume _ _ k _ _ | Replenish k _ => in_width 64 k
  | Event _ _ => True
  | Configure bytes ops_update => match ty with Bytes => bytes | Ops => ops_update end = NoUpdate
  end.
Definition op_time (o : rl_op) : Z :=
  match o with Consume d1 d2 _ _ _ => Z.of_N d1 + Z.of_N d2 | _ => 0 end.
Definition elapsed (os : list rl_op) : Z := foldr (fun o acc => op_time o + acc) 0 os.
(** The tokens of type [ty] given back by hand. *)
Definition given_back (ty : TokenType) (o : rl_op) : Z :=
  match o with Replenish k ty' => if decide (ty' = ty) then k else 0 | _ => 0 end.
Definition all_given_back (ty : TokenType) (os : list rl_op) : Z :=
  foldr (fun o acc => given_back ty o + acc) 0 os.

(** One operation at time [t]: the result of a consumption of type [ty],
    whether the code panicked, and the state. *)
Definition rl_step (ty : TokenType) (t : Z) (o : rl_op) (l : RateLimiter)
  : option BucketReduction * bool * RateLimiter :=
  match o with
  | Consume d1 d2 k ty' armed =>
    let t1 := t + Z.of_N d1 in
    match consume armed t1 (t1 + Z.of_N d2) k ty' l with
    | (Done r, l') => (if decide (ty' = ty) then Some r else None, false, l')
    | (Fail _, l') => (None, false, l')
    | (Crashed, l') => (None, true, l')
    end
  | Replenish k ty' => (None, false, (manual_replenish k ty' l).2)
  | Event n a => (None, false, (event_handler n a l).2)
  | Configure bytes ops_update => (None, false, (update_buckets bytes ops_update l).2)
  end.

(** The tokens the operation is granted, and those of them it borrowed. *)
Definition op_granted (o : rl_op) (r : option BucketReduction) : Z :=
  match o, r with Consume _ _ k _ _, Some r => granted r k | _, _ => 0 end.
Definition op_borrowed (t : Z) (o : rl_op) (b : option TokenBucket) (r : option BucketReduction) : Z :=
  match o, b, r with
  | Consume d1 d2 k _ _, Some b, Some r => borrowed (t + Z.of_N d1) (t + Z.of_N d1 + Z.of_N d2) k b r
  | _, _, _ => 0
  end.

(** The tokens of type [ty] granted by a run, up to a panic, and those of them
    that were borrowed. *)
Fixpoint rl_granted (ty : TokenType) (t : Z) (os : list rl_op) (l : RateLimiter) : Z :=
  match os with
  | [] => 0
  | o :: os =>
    let '(r, panic, l') := rl_step ty t o l in
    op_granted o r + if panic : bool then 0 else rl_granted ty (t + op_time o) os l'
  end.
Fixpoint rl_borrowed (ty : TokenType) (t : Z) (os : list rl_op) (l : RateLimiter) : Z :=
  match os with
  | [] => 0
  | o :: os =>
    let '(r, panic, l') := rl_step ty t o l in
    op_borrowed t o (bucket_of ty l) r + if panic : bool then 0 else rl_borrowed ty (t + op_time o) os l'
  end.

Lemma paid_refl b t : bucket_ok b -> last_update b <= t -> paid b b t 0 0.
Proof. intros Hok Ht. split; [done|done|lia|lia]. Qed.
Lemma paid_weaken b b' t t' extra extra' got got' :
  paid b b' t extra got -> t <= t' -> extra = extra' -> got = got' -> paid b b' t' extra' got'.
Proof. intros [] Ht -> ->. split; [done|done|lia|done]. Qed.

Lemma bucket_of_set ty ty' b l :
  bucket_of ty (set_bucket ty' b l) = if decide (ty' = ty) then b else bucket_of ty l.
Proof. by destruct ty, ty'. Qed.

Lemma event_buckets ty n a l : bucket_of ty (event_handler n a l).2 = bucket_of ty l.
Proof. induction n as [|n IH]; [|exact IH]. by destruct a, ty. Qed.

(** Arming the timer does not touch the buckets. *)
Lemma activate_buckets ty armed dur l : bucket_of ty (activate_timer armed dur l).2 = bucket_of ty l.
Proof. by destruct armed, ty. Qed.

Lemma consume_buckets ty armed t1 t2 k ty' l :
  ty' <> ty -> bucket_of ty (consume armed t1 t2 k ty' l).2 = bucket_of ty l.
Proof.
  intros Hne. unfold consume. unfold bind at 1, get. destruct (timer_active l); [done|].
  destruct (bucket_of ty' l) as [b|]; [|done]. unfold bind, on_bucket.
  destruct (reduce t1 t2 k b) as [[[]|e|] b']; cbn;
    repeat (match goal with |- context [activate_timer ?a ?d ?l] =>
      pose proof (activate_buckets ty a d l); destruct (activate_timer a d l) as [[]] end; cbn in *);
    try (match goal with H : _ = _ |- _ => rewrite H end); rewrite bucket_of_set, decide_False; done.
Qed.

(** No more is borrowed than granted, so that a call that panics after it has
    changed the bucket is covered as well. *)
Lemma paid_nothing t1 t2 k b b' r :
  bucket_ok b -> last_update b <= t1 <= t2 -> 0 <= k ->
  paid b b' t2 (borrowed t1 t2 k b r) (granted r k) -> paid b b' t2 0 0.
Proof.
  intros Hok Ht Hk [P1 P2 P3 P4]. split; [done..|].
  assert (borrowed t1 t2 k b r <= granted r k).
  { destruct (filled_spec t1 t2 b Hok Ht) as [[_ _ Hf _ _] _]. pose proof (bo_burst b Hok).
    destruct r; cbn [borrowed granted]; lia. }
  pose proof (bo_refill b Hok). nia.
Qed.

Lemma consume_paid ty armed t1 t2 k l b :
  bucket_of ty l = Some b -> bucket_ok b -> last_update b <= t1 <= t2 -> 0 <= k ->
  exists b', bucket_of ty (consume armed t1 t2 k ty l).2 = Some b' /\
    match (consume armed t1 t2 k ty l).1 with
    | Done r => paid b b' t2 (borrowed t1 t2 k b r) (granted r k)
    | _ => paid b b' t2 0 0
    end.
Proof.
  intros Hb Hok Ht Hk. unfold consume. rewrite !bind_get.
  destruct (timer_active l); [exists b; split; [done|]; apply paid_refl; [done|lia]|].
  rewrite Hb. destruct (reduce_paid (E := rl_error) t1 t2 k b Hok Ht Hk) as (r & b' & Hrun & Hp).
  exists b'. unfold bind, on_bucket. rewrite Hrun.
  pose proof (paid_nothing t1 t2 k b b' r Hok Ht Hk Hp) as Hp0.
  destruct r; destruct armed; cbn -[borrowed granted]; rewrite ?bucket_of_set, ?decide_True by done;
    (split; [by destruct ty|done]).
Qed.

Lemma update_keeps_bucket ty bytes ops_update l :
  match ty with Bytes => bytes | Ops => ops_update end = NoUpdate ->
  bucket_of ty (update_buckets bytes ops_update l).2 = bucket_of ty l.
Proof. by destruct ty; intros ->. Qed.

Lemma rl_step_paid ty t o l b :
  bucket_of ty l = Some b -> bucket_ok b -> last_update b <= t -> op_ok ty o ->
  let '(r, _, l') := rl_step ty t o l in
  exists b', bucket_of ty l' = Some b' /\
    paid b b' (t + op_time o) (given_back ty o + op_borrowed t o (Some b) r) (op_granted o r).
Proof.
  intros Hb Hok Ht Hop.
  assert (Hrefl : paid b b (t + op_time o) 0 0).
  { apply paid_refl; [done|]. destruct o; cbn; lia. }
  destruct o as [d1 d2 k ty' armed|k ty'|n a|u1 u2];
    cbn [rl_step op_time given_back op_ok op_granted op_borrowed] in *.
  - set (t1 := t + Z.of_N d1) in *. set (t2 := t1 + Z.of_N d2). destruct (decide (ty' = ty)) as [->|Hne].
    + destruct Hop as [Hk _].
      destruct (consume_paid ty armed t1 t2 k l b Hb Hok) as (b' & H1 & H2); [unfold t2, t1; lia|done|].
      destruct (consume armed t1 t2 k ty l) as [[r|e|] l']; exists b'; (split; [exact H1|]);
        (eapply paid_weaken; [exact H2|unfold t2, t1; lia|done|done]).
    + pose proof (consume_buckets ty armed t1 t2 k ty' l Hne) as Hkeep. rewrite Hb in Hkeep.
      destruct (consume armed t1 t2 k ty' l) as [[r|e|] l']; by exists b.
  - cbn. rewrite bucket_of_set. case_decide as Heq; [|by exists b]. subst ty'. rewrite Hb.
    exists (replenish k b). split; [done|]. destruct Hop as [Hk _].
    eapply paid_weaken; [by apply replenish_paid|lia|lia|done].
  - exists b. by rewrite event_buckets.
  - exists b. by rewrite update_keeps_bucket.
Qed.

Lemma totals_nonneg ty os : Forall (op_ok ty) os -> 0 <= all_given_back ty os /\ 0 <= elapsed os.
Proof.
  unfold all_given_back, elapsed. induction 1 as [|o os Ho _ IH]; cbn [foldr]; [lia|].
  destruct o; cbn [given_back op_time op_ok] in *; repeat case_decide; unfold in_width in *; lia.
Qed.

Lemma rl_granted_bound ty os : forall t l b,
  bucket_of ty l = Some b -> bucket_ok b -> last_update b <= t -> Forall (op_ok ty) os ->
  rl_granted ty t os l * processed_refill_time b <=
    (budget b + one_time_burst b + all_given_back ty os + rl_borrowed ty t os l) *
      processed_refill_time b +
    (t + elapsed os - last_update b) * processed_capacity b.
Proof.
  induction os as [|o os IH]; intros t l b Hb Hok Ht Hops; cbn [rl_granted rl_borrowed].
  { destruct Hok. unfold all_given_back, elapsed. cbn [foldr]. nia. }
  change (all_given_back ty (o :: os)) with (given_back ty o + all_given_back ty os).
  change (elapsed (o :: os)) with (op_time o + elapsed os).
  inversion_clear Hops as [|? ? Ho Hrest]. pose proof (rl_step_paid ty t o l b Hb Hok Ht Ho) as Hstep.
  rewrite Hb. destruct (rl_step ty t o l) as [[r panic] l'].
  destruct Hstep as (b' & Hb' & [Hok' Hrate Htime Hcost]).
  destruct Hrate as (Rs & Rc & Rr). pose proof (bo_refill b Hok). pose proof (bo_cap b Hok).
  pose proof (totals_nonneg ty os Hrest) as Hpos.
  pose proof (bo_budget b' Hok'). pose proof (bo_burst b' Hok'). destruct panic.
  - assert (0 <= (t + op_time o + elapsed os - last_update b') * processed_capacity b) by nia.
    assert (0 <= (all_given_back ty os + budget b' + one_time_burst b') * processed_refill_time b) by nia.
    nia.
  - specialize (IH (t + op_time o) l' b' Hb' Hok' ltac:(lia) Hrest). rewrite Rc, Rr in IH. nia.
Qed.

(** C6: What the limiter grants between two updates of a bucket.  Take a bucket
    as configured, of [sz] tokens that refill in [ms] milliseconds after an
    initial burst.  Over any sequence of consumptions of either type, timer
    events, tokens given back and updates of the other bucket, at any times and
    whatever the timer answers, the tokens of its type granted are at most
    [sz + burst], plus those given back, plus the elapsed time times the rate,
    plus what the requests larger than the bucket borrowed: the tokens an
    over-consumption takes beyond what the bucket then holds.  The overflow of
    the 64-bit arithmetic is included.  That the borrowed tokens are not always
    paid back is [overconsumption_doubles_rate] below. *)
Theorem limiter_rate_bound ty now sz burst ms b l os :
  sane sz burst ms -> bucket_new now sz burst ms = Some b -> bucket_of ty l = Some b ->
  Forall (op_ok ty) os ->
  rl_granted ty now os l * (ms * NANOSEC_IN_ONE_MILLISEC) <=
    (sz + burst + all_given_back ty os + rl_borrowed ty now os l) * (ms * NANOSEC_IN_ONE_MILLISEC) +
    elapsed os * sz.
Proof.
  intros Hsane Hnew Hb Hops.
  destruct (bucket_new_spec _ _ _ _ _ Hsane Hnew) as (Hok & _ & Hbst & Hbud & Hlast & g & Hg & Hsz & Hns).
  pose proof (rl_granted_bound ty os now l b Hb Hok ltac:(lia) Hops) as Hle.
  rewrite Hbst, Hbud, Hlast in Hle. rewrite Hns. rewrite Hsz at 2. nia.
Qed.

(** ** Retrying

    A caller that waits for the timer and asks again, [d] nanoseconds after
    the last time: the first answer that is not a failure. *)
Fixpoint retry (ty : TokenType) (t : Z) (ds : list N) (k : Z) (l : RateLimiter) : option BucketReduction :=
  match ds with
  | [] => None
  | d :: ds =>
    let t1 := t + Z.of_N d in
    match consume true t1 t1 k ty (event_handler 0 Expired l).2 with
    | (Done Failure, l') => retry ty t1 ds k l'
    | (Done r, _) => Some r
    | _ => None
    end
  end.

Definition timer_ns : Z := TIMER_REFILL_DUR * NANOSEC_IN_ONE_MILLISEC.
(** The tokens a bucket gains in one interval of the timer. *)
Definition gain (b : TokenBucket) : Z := timer_ns * processed_capacity b / processed_refill_time b.

(** One attempt on a bucket without burst. *)
Lemma attempt_run ty t1 k l b :
  bucket_of ty l = Some b -> bucket_ok b -> one_time_burst b = 0 -> k <= size b ->
  exists l', bucket_of ty l' = Some (filled t1 t1 b) /\
    (budget (filled t1 t1 b) < k ->
       consume true t1 t1 k ty (event_handler 0 Expired l).2 = (Done Failure, l')) /\
    (k <= budget (filled t1 t1 b) ->
       (consume true t1 t1 k ty (event_handler 0 Expired l).2).1 = Done Success).
Proof.
  intros Hb Hok H0 Hk. unfold consume. rewrite bind_get. cbn [event_handler modify snd timer_active].
  set (l1 := mkLimiter _ _ _ _). assert (Hb1 : bucket_of ty l1 = Some b) by by destruct ty.
  rewrite Hb1. exists (activate_timer true TIMER_REFILL_DUR (set_bucket ty (Some (filled t1 t1 b)) l1)).2.
  assert (Hred : reduce (E := rl_error) t1 t1 k b = reduce_budget t1 t1 k b).
  { unfold reduce. rewrite bind_get. by rewrite decide_False by lia. }
  split; [by destruct ty|]. unfold bind, on_bucket. rewrite Hred, reduce_budget_run by done. cbv zeta.
  split; intros Hlt; [rewrite decide_True, decide_False by lia|rewrite decide_False by lia]; done.
Qed.

(** Without overflow the refill is the exact one. *)
Lemma budget_filled b d :
  bucket_ok b -> 0 <= d -> d * processed_capacity b + size b < 2 ^ 64 ->
  in_width 64 d ->
  budget (filled (last_update b + d) (last_update b + d) b) =
    Z.min (budget b + d * processed_capacity b / processed_refill_time b) (size b).
Proof.
  intros [Hs _ Hg Hc Hr] Hd Hfit Hw. cbn. unfold refill.
  replace (Z.max 0 (last_update b + d - last_update b)) with d by lia.
  rewrite wrap_small, wmul_small by (unfold in_width in *; nia).
  assert (0 <= d * processed_capacity b / processed_refill_time b <= d * processed_capacity b).
  { split; [apply Z.div_pos; nia|]. apply Z.div_le_upper_bound; nia. }
  rewrite wadd_small by (unfold in_width; lia). done.
Qed.

(** C40: A request no larger than the bucket is granted after enough retries,
    if the bucket gains tokens between them.  Take a bucket whose one-time
    burst is used up and a caller that waits for the timer each time, at least
    its interval and not so long that the refill overflows.  Then [n] attempts
    are enough for a request of at most [budget + n * gain] tokens, [gain]
    being what the bucket gains in one interval, rounded down.  For a gain of
    zero this says nothing beyond the budget, and such a bucket starves:
    [five_per_second_starves] below. *)
Theorem retry_granted ty ds : forall l b k,
  bucket_of ty l = Some b -> bucket_ok b -> one_time_burst b = 0 ->
  Forall (fun d => timer_ns <= Z.of_N d /\ in_width 64 (Z.of_N d) /\
                   Z.of_N d * processed_capacity b + size b < 2 ^ 64) ds ->
  ds <> [] -> k <= size b -> k <= budget b + Z.of_nat (length ds) * gain b ->
  retry ty (last_update b) ds k l = Some Success.
Proof.
  induction ds as [|d ds IH]; intros l b k Hb Hok H0 Hds Hne Hk Hn; [done|].
  inversion_clear Hds as [|? ? (Hd & Hw & Hfit) Hrest]. cbn [retry]. set (t1 := last_update b + Z.of_N d).
  destruct (attempt_run ty t1 k l b Hb Hok H0 Hk) as (l' & Hb' & Hfail & Hsucc).
  pose proof (budget_filled b (Z.of_N d) Hok ltac:(lia) Hfit Hw) as Hbud. fold t1 in Hbud.
  assert (Hgain : gain b <= Z.of_N d * processed_capacity b / processed_refill_time b).
  { apply Z.div_le_mono; [apply Hok|]. pose proof (bo_cap b Hok). nia. }
  destruct (decide (k <= budget (filled t1 t1 b))) as [Hle|Hgt].
  { specialize (Hsucc Hle). by destruct (consume _ _ _ _ _ _) as [o ?]; cbn in Hsucc; subst o. }
  rewrite Hfail by lia. cbn [length] in Hn.
  assert (Hok' : bucket_ok (filled t1 t1 b)) by (apply filled_spec; [done|unfold t1; lia]).
  apply (IH l' (filled t1 t1 b)); try done.
  - intros ->. cbn in Hn. lia.
  - change (gain (filled t1 t1 b)) with (gain b). lia.
Qed.

(** ** Examples *)
Definition limiter_of (b : option TokenBucket) : RateLimiter := mkLimiter b None None false.
Definition disk : TokenBucket := mkBucket 1000 0 1000 1000 0 1 1000000.
Definition disk_ops : list rl_op :=
  [Consume 0 0 900 Bytes true; Consume 5 5 900 Bytes true; Event 1 Expired;
   Consume 900000000 10 900 Bytes true; Replenish 3 Bytes; Configure NoUpdate (Update disk);
   Consume 0 0 50 Ops true; Consume 0 0 1500 Bytes true; Consume 10 10 1 Bytes true].

Lemma refill_formula_exact_witness :
  250000000 * processed_capacity disk / processed_refill_time disk = 250.
Proof.
  rewrite (refill_formula_exact 0 1000 0 1000 disk 250000000); [done| |by vm_compute].
  unfold sane, in_width, NANOSEC_IN_ONE_MILLISEC. lia.
Defined.

(** The last consumption granted is larger than the bucket and borrows 1397
    tokens. *)
Lemma limiter_rate_bound_witness :
  rl_granted Bytes 0 disk_ops (limiter_of (Some disk)) * 1000000000 <= 3300000040000 /\
  rl_granted Bytes 0 disk_ops (limiter_of (Some disk)) = 3300.
Proof.
  split; [|by vm_compute].
  etransitivity; [apply (limiter_rate_bound Bytes 0 1000 0 1000 disk (limiter_of (Some disk)) disk_ops)|].
  - unfold sane, in_width, NANOSEC_IN_ONE_MILLISEC. lia.
  - by vm_compute.
  - done.
  - unfold disk_ops. repeat constructor; unfold in_width; lia.
  - vm_compute. congruence.
Defined.

Definition empty_disk : TokenBucket := with_budget 0 disk.

Lemma retry_granted_witness :
  retry Bytes 0 [100000000; 120000000; 100000000]%N 300 (limiter_of (Some empty_disk)) = Some Success.
Proof.
  apply (retry_granted Bytes [100000000; 120000000; 100000000]%N (limiter_of (Some empty_disk)) empty_disk).
  - done.
  - split; cbn; lia.
  - done.
  - repeat constructor; vm_compute; congruence.
  - done.
  - vm_compute. congruence.
  - vm_compute. congruence.
Defined.

(** ** Where the limiter does not do what it means to *)

(** A bucket that gains less than a token per attempt gains nothing at all:
    every attempt restarts the measurement of time and rounds the refill down.
    With five operations per second and an empty bucket, a caller that asks
    again on each timer event is refused for ever, as long as the events come
    less than 200 milliseconds apart; the timer fires after 100. *)
Definition five_per_second : TokenBucket := mkBucket 5 0 1000 0 0 1 200000000.

Lemma starved_attempt b d :
  bucket_ok b -> 0 <= d -> d * processed_capacity b < processed_refill_time b ->
  processed_refill_time b + size b < 2 ^ 64 -> in_width 64 d -> budget b = 0 ->
  budget (filled (last_update b + d) (last_update b + d) b) = 0.
Proof.
  intros Hok Hd Hlt Hfit Hw H0. rewrite budget_filled by (done || lia). rewrite H0.
  pose proof (bo_cap b Hok). rewrite Z.div_small by nia. pose proof (bo_size b Hok). lia.
Qed.

Lemma slow_limiter_starves ds : forall l b,
  bucket_of Ops l = Some b -> bucket_ok b -> one_time_burst b = 0 -> budget b = 0 ->
  same_rate five_per_second b -> Forall (fun d => d < 200000000)%N ds ->
  retry Ops (last_update b) ds 1 l = None.
Proof.
  induction ds as [|d ds IH]; intros l b Hb Hok H0 Hbud Hrate Hds; [done|].
  destruct Hrate as (Rs & Rc & Rr). cbn in Rs, Rc, Rr.
  inversion_clear Hds as [|? ? Hd Hrest]. cbn [retry]. set (t1 := last_update b + Z.of_N d).
  assert (Hempty : budget (filled t1 t1 b) = 0).
  { apply starved_attempt; rewrite ?Rs, ?Rc, ?Rr; try done; unfold in_width; lia. }
  destruct (attempt_run Ops t1 1 l b Hb Hok H0) as (l' & Hb' & Hfail & _); [lia|].
  rewrite Hfail by lia. apply (IH l' (filled t1 t1 b)); try done.
  apply filled_spec; [done|unfold t1; lia].
Qed.

Lemma five_per_second_starves :
  (with_budget 0 <$> bucket_new 0 5 0 1000) = Some five_per_second /\
  retry Ops 0 (replicate 1000 150000000%N) 1 (mkLimiter None (Some five_per_second) None true) = None.
Proof.
  split; [by vm_compute|].
  assert (Hok : bucket_ok five_per_second) by (split; cbn; lia).
  apply (slow_limiter_starves _ _ five_per_second); try done.
  apply Forall_replicate. lia.
Qed.

(** The time the limiter blocks after an over-consumption, meant to pay back the
    tokens it borrowed, refills the bucket as well, since the last update of the
    bucket is the over-consumption.  A caller that asks for twice the bucket and
    waits for the timer, each time as long as the limiter set it (a second, that passes before
    a request of the other type is refused), is granted twice the configured rate: 20000 tokens in nine seconds from a bucket of
    1000 per second. *)
Definition greedy_ops : list rl_op :=
  Consume 0 0 2000 Bytes true ::
  concat (replicate 9 [Consume 1000000000 0 1 Ops true; Event 0 Expired; Consume 0 0 2000 Bytes true]).

Lemma overconsumption_doubles_rate :
  rl_granted Bytes 0 greedy_ops (limiter_of (Some disk)) = 20000 /\
  elapsed greedy_ops = 9 * 1000 * NANOSEC_IN_ONE_MILLISEC /\
  timer_fd (consume true 0 0 2000 Bytes (limiter_of (Some disk))).2 = Some 1000.
Proof. vm_compute. split_and!; reflexivity. Qed.

(** A request one token above the size of a bucket of a million arms the timer
    for zero milliseconds, which for [timerfd_settime] is to disarm it, and
    the limiter waits for its event. *)
Lemma overconsumption_disarms_timer :
  let l := (consume true 0 0 1000001 Bytes (limiter_of (bucket_new 0 1000000 0 1000))).2 in
  timer_fd l = Some 0 /\ timer_active l = true.
Proof. vm_compute. split; reflexivity. Qed.

(** A refill time whose nanoseconds overflow to zero makes the first
    consumption divide by zero. *)
Lemma refill_time_overflow_panics :
  (consume true 0 0 1 Bytes (limiter_of (bucket_new 0 1 0 (2 ^ 58)))).1 = Crashed.
Proof. vm_compute. reflexivity. Qed.
