(* ===== verification/BTree.v ===== *)
(** [BTreeMap] with integer keys, as the list of its entries in the order of the
    keys: what the address and interrupt allocators and the device bus of the
    hypervisor iterate over. *)
From stdpp Require Import base numbers sets list sorting.
From S2P Require Import Prelude.

Section btree.
Context {A : Type}.
Implicit Types (m : list (Z * A)) (k : Z) (v : A).

Fixpoint bt_get k m : option A :=
  match m with
  | [] => None
  | (k', v) :: m => if decide (k' = k) then Some v else bt_get k m
  end.

(** An entry with the same key is replaced. *)
Fixpoint bt_insert k v m : list (Z * A) :=
  match m with
  | [] => [(k, v)]
  | (k', v') :: m' =>
    if decide (k < k')%Z then (k, v) :: m
    else if decide (k' = k) then (k, v) :: m'
    else (k', v') :: bt_insert k v m'
  end.

Fixpoint bt_remove k m : list (Z * A) :=
  match m with
  | [] => []
  | (k', v') :: m' => if decide (k' = k) then m' else (k', v') :: bt_remove k m'
  end.

(** [range(..=k).next_back()]: the entry with the largest key up to [k]. *)
Fixpoint bt_last_upto k m : option (Z * A) :=
  match m with
  | [] => None
  | (k', v') :: m' =>
    if decide (k' <= k)%Z then
      match bt_last_upto k m' with Some e => Some e | None => Some (k', v') end
    else None
  end.

(** Strictly ascending keys. *)
Definition bt_ok m : Prop := StronglySorted Z.lt m.*1.

Lemma bt_ok_nil : bt_ok [].
Proof. constructor. Qed.
Lemma bt_ok_cons k v m : bt_ok ((k, v) :: m) <-> (forall e, e ∈ m -> (k < e.1)%Z) /\ bt_ok m.
Proof.
  unfold bt_ok. cbn. split.
  - intros Hs. apply StronglySorted_inv in Hs as [Hs Hall]. split; [|done].
    intros e He. rewrite Forall_fmap, Forall_forall in Hall. by apply Hall.
  - intros [Hlt Hs]. constructor; [done|]. rewrite Forall_fmap, Forall_forall. exact Hlt.
Qed.

Lemma bt_get_elem k v m : bt_ok m -> bt_get k m = Some v <-> (k, v) ∈ m.
Proof.
  induction m as [|[k' v'] m IH]; [intros _; cbn; set_solver|].
  rewrite bt_ok_cons. intros [Hlt Hok]. specialize (IH Hok). cbn. rewrite elem_of_cons.
  case_decide as Hk.
  - subst. split; [intros [= ->]; by left|]. intros [[= ->]|Hin]; [done|].
    specialize (Hlt _ Hin). cbn in Hlt. lia.
  - rewrite IH. split; [by right|]. intros [[= -> ->]|?]; done.
Qed.

Lemma bt_get_None k m : bt_get k m = None <-> forall v, (k, v) ∉ m.
Proof.
  induction m as [|[k' v'] m IH]; cbn; [set_solver|]. case_decide as Hk.
  - subst. split; [done|]. intros Hno. destruct (Hno v'). by left.
  - rewrite IH. split; intros Hno v; [|specialize (Hno v)]; set_solver.
Qed.

Lemma elem_of_bt_insert k v m e :
  bt_ok m -> e ∈ bt_insert k v m <-> e = (k, v) \/ (e ∈ m /\ e.1 <> k).
Proof.
  induction m as [|[k' v'] m IH]; cbn; [set_solver|]. rewrite bt_ok_cons. intros [Hlt Hok].
  specialize (IH Hok). case_decide as H1; [|case_decide as H2].
  - rewrite !elem_of_cons. split; [|tauto]. intros [->|Hin]; [by left|right]. split; [done|].
    destruct Hin as [->|Hin]; cbn; [lia|]. specialize (Hlt e Hin). lia.
  - subst. rewrite !elem_of_cons. split.
    + intros [->|Hin]; [by left|]. right. split; [by right|]. specialize (Hlt e Hin). lia.
    + intros [->|[[->|Hin] Hne]]; [by left|done|by right].
  - rewrite !elem_of_cons, IH. split.
    + intros [->|[->|[? ?]]]; [right; split; [by left|done]|by left|right; split; [by right|done]].
    + intros [->|[[->|?] ?]]; [right; by left|by left|right; by right].
Qed.

Lemma bt_insert_ok k v m : bt_ok m -> bt_ok (bt_insert k v m).
Proof.
  induction m as [|[k' v'] m IH]; cbn; intros Hok; [apply bt_ok_cons; split; [set_solver|done]|].
  pose proof Hok as Hok0. apply bt_ok_cons in Hok as [Hlt Hok]. case_decide as H1; [|case_decide as H2].
  - apply bt_ok_cons. split; [|done]. intros e [->|Hin]%elem_of_cons; cbn; [lia|].
    specialize (Hlt e Hin). lia.
  - subst. by apply bt_ok_cons.
  - apply bt_ok_cons. split; [|by apply IH]. intros e He.
    apply (elem_of_bt_insert _ _ _ _ Hok) in He as [->|[He _]]; cbn; [lia|by apply Hlt].
Qed.

Lemma elem_of_bt_remove k m e : bt_ok m -> e ∈ bt_remove k m <-> e ∈ m /\ e.1 <> k.
Proof.
  induction m as [|[k' v'] m IH]; cbn; [set_solver|]. rewrite bt_ok_cons. intros [Hlt Hok].
  specialize (IH Hok). case_decide as Hk; rewrite !elem_of_cons.
  - subst. split; [|intros [[->|?] ?]; done]. intros Hin. split; [by right|]. specialize (Hlt e Hin). lia.
  - rewrite IH. split; [|tauto]. intros [->|?]; [split; [by left|done]|tauto].
Qed.

Lemma bt_remove_ok k m : bt_ok m -> bt_ok (bt_remove k m).
Proof.
  induction m as [|[k' v'] m IH]; cbn; [done|]. rewrite bt_ok_cons. intros [Hlt Hok].
  case_decide; [done|]. apply bt_ok_cons. split; [|by apply IH].
  intros e He. apply Hlt. by apply (elem_of_bt_remove k m e Hok) in He as [? _].
Qed.

Lemma bt_insert_perm k v m : bt_get k m = None -> bt_insert k v m ≡ₚ (k, v) :: m.
Proof.
  induction m as [|[k' v'] m IH]; cbn; [done|]. intros Hk. case_decide; [done|].
  case_decide; [done|]. rewrite (IH Hk). apply Permutation_swap.
Qed.
Lemma bt_remove_perm k v m : bt_get k m = Some v -> m ≡ₚ (k, v) :: bt_remove k m.
Proof.
  induction m as [|[k' v'] m IH]; cbn; [done|]. case_decide as Hk; [by intros [= ->]; subst|].
  intros Hv. rewrite (IH Hv) at 1. apply Permutation_swap.
Qed.

Lemma bt_last_upto_None k m :
  bt_ok m -> bt_last_upto k m = None -> forall e, e ∈ m -> (k < e.1)%Z.
Proof.
  destruct m as [|[k' v'] m]; cbn; [set_solver|]. rewrite bt_ok_cons. intros [Hlt _].
  case_decide as Hk; [by destruct (bt_last_upto k m)|]. intros _ e [->|He]%elem_of_cons; cbn; [lia|].
  specialize (Hlt e He). lia.
Qed.
Lemma bt_last_upto_Some k m k1 v1 :
  bt_ok m -> bt_last_upto k m = Some (k1, v1) <->
  (k1, v1) ∈ m /\ (k1 <= k)%Z /\ forall e, e ∈ m -> (e.1 <= k)%Z -> (e.1 <= k1)%Z.
Proof.
  revert k1 v1. induction m as [|[k' v'] m IH]; intros k1 v1; cbn; [set_solver|].
  rewrite bt_ok_cons. intros [Hlt Hok]. setoid_rewrite elem_of_cons. case_decide as Hk.
  - destruct (bt_last_upto k m) as [[k2 v2]|] eqn:Hl.
    + destruct (proj1 (IH k2 v2 Hok) eq_refl) as (Hin & Hle & Hmax). pose proof (Hlt _ Hin) as Hk2. cbn in Hk2. split.
      * intros [= <- <-]. split; [by right|]. split; [done|]. intros e [->|He] ?; [cbn; lia|auto].
      * intros ([[= -> ->]|Hin1] & Hle1 & Hmax1).
        { specialize (Hmax1 (k2, v2) (or_intror Hin) Hle). cbn in Hmax1. lia. }
        apply IH; eauto.
    + pose proof (bt_last_upto_None k m Hok Hl) as Hno.
      split; [intros [= <- <-]; split_and!; [by left|done|]; intros e [->|He] ?; [done|]; specialize (Hno e He); lia|].
      intros ([[= -> ->]|Hin1] & Hle1 & _); [done|]. specialize (Hno _ Hin1). cbn in Hno. lia.
  - split; [done|]. intros ([[= -> ->]|Hin] & Hle & _); [lia|]. specialize (Hlt _ Hin). cbn in Hlt. lia.
Qed.

End btree.

#[export] Hint Resolve bt_ok_nil bt_insert_ok bt_remove_ok : cube.
