(* ===== verification/VirtioMem.v ===== *)
(** The virtio-mem device (hypervisor/virtio-devices/src/mem.rs): memory of a
    region is plugged and unplugged in blocks by requests of the guest, up to a
    size the host asks for; handlers map the plugged blocks for DMA. *)
From stdpp Require Import base numbers list strings.
From S2P Require Import Prelude Bytes Virtqueue BTree.
#[local] Open Scope Z_scope.

Definition VIRTIO_MEM_ALIGN_SIZE : Z := Z.shiftl 128 20.
Definition VIRTIO_MEM_DEFAULT_BLOCK_SIZE : Z := Z.shiftl 2 20.

Definition VIRTIO_MEM_RESP_ACK : Z := 0.
Definition VIRTIO_MEM_RESP_NACK : Z := 1.
Definition VIRTIO_MEM_RESP_ERROR : Z := 3.
Definition VIRTIO_MEM_STATE_PLUGGED : Z := 0.
Definition VIRTIO_MEM_STATE_UNPLUGGED : Z := 1.
Definition VIRTIO_MEM_STATE_MIXED : Z := 2.
Definition VIRTIO_MEM_REQ_PLUG : Z := 0.
Definition VIRTIO_MEM_REQ_UNPLUG : Z := 1.
Definition VIRTIO_MEM_REQ_UNPLUG_ALL : Z := 2.
Definition VIRTIO_MEM_REQ_STATE : Z := 3.
Definition VIRTIO_MEM_F_ACPI_PXM : Z := 0.
Definition VIRTIO_F_VERSION_1 : Z := 32.

Inductive MemError :=
| GuestMemory
| UnexpectedWriteOnlyDescriptor
| UnexpectedReadOnlyDescriptor
| DescriptorChainTooShort
| BufferLengthTooSmall
| InvalidRequest
| ResizeError
| ValidateError
| DiscardMemoryRange
| DmaMap
| DmaUnmap
| InvalidDmaMappingHandler
| UnkownRequestType (t : Z)
| QueueAddUsed.

(** ** Configuration *)
Record VirtioMemConfig := mkMemConfig {
  block_size : Z;
  node_id : Z;
  mem_addr : Z;
  region_size : Z;
  usable_region_size : Z;
  plugged_size : Z;
  requested_size : Z;
}.
Definition set_requested (n : Z) (c : VirtioMemConfig) : VirtioMemConfig :=
  mkMemConfig (block_size c) (node_id c) (mem_addr c) (region_size c) (usable_region_size c) (plugged_size c) n.
Definition set_plugged (n : Z) (c : VirtioMemConfig) : VirtioMemConfig :=
  mkMemConfig (block_size c) (node_id c) (mem_addr c) (region_size c) (usable_region_size c) n (requested_size c).
Definition set_node_id (n : Z) (c : VirtioMemConfig) : VirtioMemConfig :=
  mkMemConfig (block_size c) n (mem_addr c) (region_size c) (usable_region_size c) (plugged_size c) (requested_size c).

Definition mem_validate (c : VirtioMemConfig) : result MemError unit :=
  if decide (mem_addr c mod block_size c <> 0) then Err ValidateError
  else if decide (region_size c mod block_size c <> 0) then Err ValidateError
  else if decide (usable_region_size c mod block_size c <> 0) then Err ValidateError
  else if decide (plugged_size c mod block_size c <> 0) then Err ValidateError
  else if decide (requested_size c mod block_size c <> 0) then Err ValidateError
  else Ok tt.

Definition config_resize (size : Z) (c : VirtioMemConfig) : result MemError VirtioMemConfig :=
  if decide (requested_size c = size) then Err ResizeError
  else if decide (size > region_size c) then Err ResizeError
  else if decide (size mod block_size c <> 0) then Err ResizeError
  else Ok (set_requested size c).

Definition is_valid_range (addr size : Z) (c : VirtioMemConfig) : bool :=
  match checked_add 64 addr size with
  | None => false
  | Some _ =>
    negb (bool_decide (addr mod block_size c <> 0 \/ size = 0 \/
      addr < mem_addr c \/ wadd 64 addr size >= wadd 64 (mem_addr c) (usable_region_size c)))
  end.

(** The configuration as the guest reads it. *)
Definition config_bytes (c : VirtioMemConfig) : list Z :=
  le_bytes 8 (block_size c) ++ le_bytes 2 (node_id c) ++ replicate 6 0 ++ le_bytes 8 (mem_addr c) ++
  le_bytes 8 (region_size c) ++ le_bytes 8 (usable_region_size c) ++ le_bytes 8 (plugged_size c) ++
  le_bytes 8 (requested_size c).

(** [read_config_from_slice]: what [data] holds after a read at [offset]. *)
Definition read_config_from_slice (config : list Z) (offset : Z) (data : list Z) : list Z :=
  let config_len := Z.of_nat (length config) in
  let data_len := Z.of_nat (length data) in
  if decide (wadd 64 offset data_len > config_len) then data
  else match checked_add 64 offset data_len with
  | Some end_ => take (Z.to_nat (Z.min end_ config_len - offset)) (drop (Z.to_nat offset) config)
  | None => data
  end.

(** ** Blocks

    [l.iter().skip(i)] for an index of 64 bits. *)
Definition skip {A} (i : Z) (l : list A) : list A :=
  if decide (Z.of_nat (length l) <= i) then [] else drop (Z.to_nat i) l.

Definition blocks_new (size : Z) : list bool :=
  replicate (Z.to_nat (size / VIRTIO_MEM_DEFAULT_BLOCK_SIZE)) false.

Definition is_range_state (first nb : Z) (plug : bool) (bitmap : list bool) : bool :=
  forallb (fun state => eqb state plug) (take (Z.to_nat nb) (skip first bitmap)).

Definition set_range (first nb : Z) (plug : bool) (bitmap : list bool) : list bool :=
  let rest := skip first bitmap in
  take (length bitmap - length rest) bitmap ++
    ((fun _ => plug) <$> take (Z.to_nat nb) rest) ++ drop (Z.to_nat nb) rest.

(** ** Requests *)
Record VirtioMemReq := mkMemReq { req_type : Z; req_addr : Z; req_nb_blocks : Z }.
Definition REQ_SIZE : nat := 24.
Definition RESP_SIZE : nat := 10.
Definition req_of_bytes (data : list Z) : VirtioMemReq :=
  mkMemReq (le_value (take 2 data)) (le_value (take 8 (drop 8 data))) (le_value (take 2 (drop 16 data))).
Definition resp_bytes (resp_type state : Z) : list Z :=
  le_bytes 2 resp_type ++ replicate 6 0 ++ le_bytes 2 state.

Record Request := mkRequest { req : VirtioMemReq; status_addr : Z }.

(** ** The outside

    The calls of the host's kernel that discard memory, the handlers of DMA
    mappings, the interrupt of a change of the configuration, guest memory and
    the queue; [true] is success. *)
Class MemHost (W : Type) := {
  fallocate64 : Z -> Z -> Z -> W -> bool * W;
  madvise : Z -> Z -> W -> bool * W;
  dma_map : nat -> Z -> Z -> Z -> W -> bool * W;
  dma_unmap : nat -> Z -> Z -> W -> bool * W;
  trigger_config : W -> bool * W;
  read_obj : Z -> nat -> W -> option (list Z);
  write_obj : list Z -> Z -> W -> bool * W;
  pop_descriptor_chain : W -> option (Z * list descriptor) * W;
  add_used : Z -> Z -> W -> bool * W;
}.

Inductive VirtioMemMappingSource := Container | Device (id : Z).
(** The keys of the handlers in their order. *)
Definition source_key (s : VirtioMemMappingSource) : Z :=
  match s with Container => 0 | Device id => id + 1 end.

(** The region as the device sees it. *)
Record GuestRegion := mkRegion { start_addr : Z; region_len : Z; host_ptr : Z; file_fd : option Z }.

Record MemState := mkMemState {
  ms_avail_features : Z;
  ms_acked_features : Z;
  ms_config : VirtioMemConfig;
  ms_blocks : list bool;
}.

(** The device; [m_active] says that it has been activated. *)
Record Mem (W : Type) := mkMem {
  m_avail_features : Z;
  m_acked_features : Z;
  m_id : string;
  m_host_addr : Z;
  m_host_fd : option Z;
  m_config : VirtioMemConfig;
  m_hugepages : bool;
  m_handlers : list (Z * nat);
  m_blocks : list bool;
  m_active : bool;
  m_world : W;
}.
Arguments mkMem {W}.
Arguments m_avail_features {W}. Arguments m_acked_features {W}. Arguments m_id {W}.
Arguments m_host_addr {W}. Arguments m_host_fd {W}. Arguments m_config {W}. Arguments m_hugepages {W}.
Arguments m_handlers {W}. Arguments m_blocks {W}. Arguments m_active {W}. Arguments m_world {W}.

Section device.
Context {W : Type} `{MemHost W}.
Abbreviation D := (Mem W).

Definition set_config (c : VirtioMemConfig) (m : D) : D :=
  mkMem (m_avail_features m) (m_acked_features m) (m_id m) (m_host_addr m) (m_host_fd m) c (m_hugepages m)
    (m_handlers m) (m_blocks m) (m_active m) (m_world m).
Definition set_handlers (l : list (Z * nat)) (m : D) : D :=
  mkMem (m_avail_features m) (m_acked_features m) (m_id m) (m_host_addr m) (m_host_fd m) (m_config m) (m_hugepages m)
    l (m_blocks m) (m_active m) (m_world m).
Definition set_blocks (l : list bool) (m : D) : D :=
  mkMem (m_avail_features m) (m_acked_features m) (m_id m) (m_host_addr m) (m_host_fd m) (m_config m) (m_hugepages m)
    (m_handlers m) l (m_active m) (m_world m).
Definition set_world (w : W) (m : D) : D :=
  mkMem (m_avail_features m) (m_acked_features m) (m_id m) (m_host_addr m) (m_host_fd m) (m_config m) (m_hugepages m)
    (m_handlers m) (m_blocks m) (m_active m) w.

(** A call to the outside, and the error of the caller when it fails. *)
Definition call {E} (f : W -> bool * W) (e : E) : M D E unit := fun m =>
  let '(ok, w) := f (m_world m) in (if ok then Done tt else Fail e, set_world w m).

Definition discard_memory_range (offset size : Z) : M D MemError unit :=
  let* m := get in
  match m_host_fd m with
  | Some fd => call (fallocate64 fd offset size) DiscardMemoryRange
  | None => ret tt
  end ;;;
  if m_hugepages m then ret tt
  else call (madvise (wadd 64 (m_host_addr m) offset) size) DiscardMemoryRange.

Fixpoint map_handlers {E} (handlers : list (Z * nat)) (gpa size : Z) (e : E) : M D E unit :=
  match handlers with
  | [] => ret tt
  | (_, handler) :: rest => call (dma_map handler gpa gpa size) e ;;; map_handlers rest gpa size e
  end.
Fixpoint unmap_handlers {E} (handlers : list (Z * nat)) (addr size : Z) (e : E) : M D E unit :=
  match handlers with
  | [] => ret tt
  | (_, handler) :: rest => call (dma_unmap handler addr size) e ;;; unmap_handlers rest addr size e
  end.

Fixpoint map_blocks {E} (handlers : list (Z * nat)) (nb : nat) (gpa size : Z) (e : E) : M D E unit :=
  match nb with
  | O => ret tt
  | S nb => map_handlers handlers gpa size e ;;; map_blocks handlers nb (wadd 64 gpa size) size e
  end.

(** An early [return] of a response is an error of the body. *)
Definition returned {E} (m : M D Z Z) : M D E Z := fun s =>
  match m s with
  | (Done r, s') => (Done r, s')
  | (Fail r, s') => (Done r, s')
  | (Crashed, s') => (Crashed, s')
  end.

Definition set_plugged_size (f : Z -> Z) (m : D) : D :=
  set_config (set_plugged (f (plugged_size (m_config m))) (m_config m)) m.

Definition state_change_body (addr nb_blocks : Z) (plug : bool) : M D Z Z :=
  let* m := get in
  let config := m_config m in
  let size := wmul 64 nb_blocks (block_size config) in
  if plug && bool_decide (wadd 64 (plugged_size config) size > requested_size config)
  then throw VIRTIO_MEM_RESP_NACK
  else if negb (is_valid_range addr size config) then throw VIRTIO_MEM_RESP_ERROR
  else
  let offset := wsub 64 addr (mem_addr config) in
  let first_block_index := offset / block_size config in
  if negb (is_range_state first_block_index nb_blocks (negb plug) (m_blocks m)) then throw VIRTIO_MEM_RESP_ERROR
  else
  (if negb plug then map_err (fun _ => VIRTIO_MEM_RESP_ERROR) (discard_memory_range offset size) else ret tt) ;;;
  modify (fun m => set_blocks (set_range first_block_index nb_blocks plug (m_blocks m)) m) ;;;
  (if plug then
     map_blocks (m_handlers m) (Z.to_nat nb_blocks) addr (block_size config) VIRTIO_MEM_RESP_ERROR ;;;
     modify (set_plugged_size (fun p => wadd 64 p size))
   else
     unmap_handlers (m_handlers m) addr size VIRTIO_MEM_RESP_ERROR ;;;
     modify (set_plugged_size (fun p => wsub 64 p size))) ;;;
  ret VIRTIO_MEM_RESP_ACK.
Definition state_change_request {E} (addr nb_blocks : Z) (plug : bool) : M D E Z :=
  returned (state_change_body addr nb_blocks plug).

(** The loop over the plugged blocks, with the address of each. *)
Fixpoint for_plugged {E} (f : Z -> M D E unit) (config : VirtioMemConfig) (idx : Z) (blocks : list bool) : M D E unit :=
  match blocks with
  | [] => ret tt
  | plugged :: rest =>
    (if plugged then f (wadd 64 (mem_addr config) (wmul 64 idx (block_size config))) else ret tt) ;;;
    for_plugged f config (idx + 1) rest
  end.

Definition unplug_all_body : M D Z Z :=
  let* m := get in
  let config := m_config m in
  map_err (fun _ => VIRTIO_MEM_RESP_ERROR) (discard_memory_range 0 (region_size config)) ;;;
  (if decide (plugged_size config > 0) then
     for_plugged (fun gpa => unmap_handlers (m_handlers m) gpa (block_size config) VIRTIO_MEM_RESP_ERROR)
       config 0 (m_blocks m)
   else ret tt) ;;;
  modify (fun m => set_blocks (set_range 0 (wrap 16 (region_size config / block_size config)) false (m_blocks m)) m) ;;;
  modify (set_plugged_size (fun _ => 0)) ;;;
  ret VIRTIO_MEM_RESP_ACK.
Definition unplug_all {E} : M D E Z := returned unplug_all_body.

Definition state_request (addr nb_blocks : Z) (m : D) : Z * Z :=
  let config := m_config m in
  let size := wmul 64 nb_blocks (block_size config) in
  let resp_type := if is_valid_range addr size config then VIRTIO_MEM_RESP_ACK else VIRTIO_MEM_RESP_ERROR in
  let first_block_index := wsub 64 addr (mem_addr config) / block_size config in
  (resp_type,
   if is_range_state first_block_index nb_blocks true (m_blocks m) then VIRTIO_MEM_STATE_PLUGGED
   else if is_range_state first_block_index nb_blocks false (m_blocks m) then VIRTIO_MEM_STATE_UNPLUGGED
   else VIRTIO_MEM_STATE_MIXED).

(** ** The queue *)
Definition parse_request (chain : list descriptor) : M D MemError Request :=
  let* m := get in
  match chain with
  | [] => throw DescriptorChainTooShort
  | desc :: chain =>
    if d_write_only desc then throw UnexpectedWriteOnlyDescriptor
    else if decide (d_len desc <> Z.of_nat REQ_SIZE) then throw InvalidRequest
    else
    match read_obj (d_addr desc) REQ_SIZE (m_world m) with
    | None => throw GuestMemory
    | Some data =>
      match chain with
      | [] => throw DescriptorChainTooShort
      | status_desc :: _ =>
        if negb (d_write_only status_desc) then throw UnexpectedReadOnlyDescriptor
        else if decide (d_len status_desc < Z.of_nat RESP_SIZE) then throw BufferLengthTooSmall
        else ret (mkRequest (req_of_bytes data) (d_addr status_desc))
      end
    end
  end.

Definition send_response (r : Request) (resp_type state : Z) : M D MemError Z :=
  call (write_obj (resp_bytes resp_type state) (status_addr r)) GuestMemory ;;; ret (Z.of_nat RESP_SIZE).

Definition handle_request (r : VirtioMemReq) : M D MemError (Z * Z) :=
  if decide (req_type r = VIRTIO_MEM_REQ_PLUG) then
    let* resp := state_change_request (req_addr r) (req_nb_blocks r) true in ret (resp, 0)
  else if decide (req_type r = VIRTIO_MEM_REQ_UNPLUG) then
    let* resp := state_change_request (req_addr r) (req_nb_blocks r) false in ret (resp, 0)
  else if decide (req_type r = VIRTIO_MEM_REQ_UNPLUG_ALL) then let* resp := unplug_all in ret (resp, 0)
  else if decide (req_type r = VIRTIO_MEM_REQ_STATE) then
    let* m := get in ret (state_request (req_addr r) (req_nb_blocks r) m)
  else throw (UnkownRequestType (req_type r)).

Definition pop_chain : M D MemError (option (Z * list descriptor)) := fun m =>
  let '(c, w) := pop_descriptor_chain (m_world m) in (Done c, set_world w m).

(** The loop of [process_queue]; [fuel] bounds the chains taken. *)
Fixpoint process_chains (fuel : nat) (used_descs : bool) : M D MemError bool :=
  match fuel with
  | O => crash
  | S fuel =>
    let* c := pop_chain in
    match c with
    | None => ret used_descs
    | Some (head_index, chain) =>
      let* r := parse_request chain in
      let* resp := handle_request (req r) in
      let* len := send_response r resp.1 resp.2 in
      call (add_used head_index len) QueueAddUsed ;;;
      process_chains fuel true
    end
  end.
Definition process_queue (fuel : nat) : M D MemError bool := process_chains fuel false.

(** ** The device *)
Inductive new_error := SizeNotAligned | ResizeFailed (e : MemError) | InvalidConfiguration (e : MemError).

Definition new_config (region : GuestRegion) (numa_node_id : option Z) (initial_size : Z) :
    result new_error (Z * VirtioMemConfig) :=
  let avail_features := Z.shiftl 1 VIRTIO_F_VERSION_1 in
  let config := mkMemConfig VIRTIO_MEM_DEFAULT_BLOCK_SIZE 0 (start_addr region) (region_len region) (region_len region) 0 0 in
  match (if decide (initial_size <> 0) then config_resize initial_size config else Ok config) with
  | Err e => Err (ResizeFailed e)
  | Ok config =>
    let '(avail_features, config) := match numa_node_id with
      | Some node_id => (Z.lor avail_features (Z.shiftl 1 VIRTIO_MEM_F_ACPI_PXM), set_node_id node_id config)
      | None => (avail_features, config)
      end in
    match mem_validate config with
    | Err e => Err (InvalidConfiguration e)
    | Ok _ => Ok (avail_features, config)
    end
  end.

Definition mem_new (id : string) (region : GuestRegion) (numa_node_id : option Z) (initial_size : Z)
    (hugepages : bool) (blocks_state : list bool) (state : option MemState) (w : W) : result new_error D :=
  if decide (region_len region <> wmul 64 (region_len region / VIRTIO_MEM_ALIGN_SIZE) VIRTIO_MEM_ALIGN_SIZE)
  then Err SizeNotAligned
  else
  let make := fun avail acked config blocks =>
    Ok (mkMem avail acked id (host_ptr region) (file_fd region) config hugepages [] blocks false w) in
  match state with
  | Some state => make (ms_avail_features state) (ms_acked_features state) (ms_config state) (ms_blocks state)
  | None =>
    match new_config region numa_node_id initial_size with
    | Err e => Err e
    | Ok (avail_features, config) => make avail_features 0 config blocks_state
    end
  end.

Definition mem_resize (size : Z) : M D MemError unit :=
  let* m := get in
  match config_resize size (m_config m) with
  | Err _ => throw ResizeError
  | Ok config =>
    modify (set_config config) ;;;
    if m_active m then call trigger_config ResizeError else ret tt
  end.

Definition add_dma_mapping_handler (source : VirtioMemMappingSource) (handler : nat) : M D MemError unit :=
  let* m := get in
  let config := m_config m in
  (if decide (plugged_size config > 0) then
     for_plugged (fun gpa => call (dma_map handler gpa gpa (block_size config)) DmaMap) config 0 (m_blocks m)
   else ret tt) ;;;
  modify (fun m => set_handlers (bt_insert (source_key source) handler (m_handlers m)) m).

Definition remove_dma_mapping_handler (source : VirtioMemMappingSource) : M D MemError unit :=
  let* m := get in
  match bt_get (source_key source) (m_handlers m) with
  | None => throw InvalidDmaMappingHandler
  | Some handler =>
    modify (fun m => set_handlers (bt_remove (source_key source) (m_handlers m)) m) ;;;
    let config := m_config m in
    if decide (plugged_size config > 0) then
      for_plugged (fun gpa => call (dma_unmap handler gpa (block_size config)) DmaUnmap) config 0 (m_blocks m)
    else ret tt
  end.

Definition mem_state (m : D) : MemState :=
  mkMemState (m_avail_features m) (m_acked_features m) (m_config m) (m_blocks m).

Definition mem_read_config (offset : Z) (data : list Z) (m : D) : list Z :=
  read_config_from_slice (config_bytes (m_config m)) offset data.
End device.
