(* ===== verification/VirtioMemSpec.v ===== *)
(** What virtio-mem promises: a set of plugged blocks that requests of the guest
    change within the size the host asks for, and handlers of DMA that map these
    blocks and no others of the region. *)
From stdpp Require Import base numbers list gmap sets.
From S2P Require Import Prelude Bytes Virtqueue BTree VirtioMem.
#[local] Open Scope Z_scope.

Abbreviation BS := VIRTIO_MEM_DEFAULT_BLOCK_SIZE.
Lemma BS_value : BS = 2097152.
Proof. done. Qed.

(** ** The outside

    [dma_entries h w] are the mappings of the handler [h]: from the first address
    of one to its guest address and its size.  A range can be mapped when it
    meets no mapping, and unmapped when it is made of whole mappings. *)
Definition covered_by (entries : gmap Z (Z * Z)) (iova n : Z) : Prop :=
  (forall k g s, entries !! k = Some (g, s) -> iova + n <= k \/ k + s <= iova \/ (iova <= k /\ k + s <= iova + n)) /\
  (forall a, iova <= a < iova + n -> exists k g s, entries !! k = Some (g, s) /\ k <= a < k + s).

Class MemHostLaws (W : Type) `{MemHost W} := {
  dma_entries : nat -> W -> gmap Z (Z * Z);
  read_obj_bytes : forall a n w data, read_obj a n w = Some data -> length data = n /\ Forall byte_ok data;
  fallocate64_dma : forall fd offset n w h, dma_entries h (fallocate64 fd offset n w).2 = dma_entries h w;
  madvise_dma : forall a n w h, dma_entries h (madvise a n w).2 = dma_entries h w;
  trigger_config_dma : forall w h, dma_entries h (trigger_config w).2 = dma_entries h w;
  write_obj_dma : forall data a w h, dma_entries h (write_obj data a w).2 = dma_entries h w;
  pop_dma : forall w h, dma_entries h (pop_descriptor_chain w).2 = dma_entries h w;
  add_used_dma : forall i n w h, dma_entries h (add_used i n w).2 = dma_entries h w;
  dma_map_ok : forall h iova gpa n w, 0 < n ->
    (forall k g s, dma_entries h w !! k = Some (g, s) -> iova + n <= k \/ k + s <= iova) ->
    exists w', dma_map h iova gpa n w = (true, w') /\ dma_entries h w' = <[iova := (gpa, n)]> (dma_entries h w) /\
      forall h', h' <> h -> dma_entries h' w' = dma_entries h' w;
  dma_unmap_ok : forall h iova n w, 0 < n -> covered_by (dma_entries h w) iova n ->
    exists w', dma_unmap h iova n w = (true, w') /\
      dma_entries h w' = filter (fun e => ~ (iova <= e.1 < iova + n)) (dma_entries h w) /\
      forall h', h' <> h -> dma_entries h' w' = dma_entries h' w;
}.

(** ** The plugged blocks of a bitmap *)
Fixpoint plugged_from (k : nat) (bitmap : list bool) : gset nat :=
  match bitmap with
  | [] => ∅
  | b :: rest => (if b then {[k]} else ∅) ∪ plugged_from (S k) rest
  end.
Definition plugged (bitmap : list bool) : gset nat := plugged_from 0 bitmap.

(** ** The specification

    Blocks are counted from the start of the region, at [base]; there are
    [total] of them. *)
Section spec.
Context (base : Z) (total : nat).

Record mem_spec := mkSpec { sp_plugged : gset nat; sp_requested : nat }.

(** The first block of a range of [n] blocks at [addr], where the range is valid. *)
Definition first_block (addr n : Z) : option nat :=
  if decide (base <= addr /\ (addr - base) mod BS = 0 /\ 0 < n /\ addr + n * BS < base + Z.of_nat total * BS)
  then Some (Z.to_nat ((addr - base) / BS)) else None.

Inductive mem_reply := Replied (resp state : Z) | Succeeded | Failed (e : MemError) | Panicked.

(** The answers of the host on which a reply depends. *)
Record answers := mkAnswers { discards : Z -> Z -> bool; signals : bool }.

Definition spec_plug (addr n : Z) (s : mem_spec) : mem_reply * mem_spec :=
  if decide (sp_requested s < size (sp_plugged s) + Z.to_nat n)%nat then (Replied VIRTIO_MEM_RESP_NACK 0, s)
  else match first_block addr n with
  | Some i =>
    if decide (set_seq i (Z.to_nat n) ## sp_plugged s)
    then (Replied VIRTIO_MEM_RESP_ACK 0, mkSpec (sp_plugged s ∪ set_seq i (Z.to_nat n)) (sp_requested s))
    else (Replied VIRTIO_MEM_RESP_ERROR 0, s)
  | None => (Replied VIRTIO_MEM_RESP_ERROR 0, s)
  end.

Definition spec_unplug (a : answers) (addr n : Z) (s : mem_spec) : mem_reply * mem_spec :=
  match first_block addr n with
  | Some i =>
    if decide (set_seq i (Z.to_nat n) ⊆ sp_plugged s) then
      if discards a (addr - base) (n * BS)
      then (Replied VIRTIO_MEM_RESP_ACK 0, mkSpec (sp_plugged s ∖ set_seq i (Z.to_nat n)) (sp_requested s))
      else (Replied VIRTIO_MEM_RESP_ERROR 0, s)
    else (Replied VIRTIO_MEM_RESP_ERROR 0, s)
  | None => (Replied VIRTIO_MEM_RESP_ERROR 0, s)
  end.

Definition spec_unplug_all (a : answers) (s : mem_spec) : mem_reply * mem_spec :=
  if discards a 0 (Z.of_nat total * BS) then (Replied VIRTIO_MEM_RESP_ACK 0, mkSpec ∅ (sp_requested s))
  else (Replied VIRTIO_MEM_RESP_ERROR 0, s).

Definition spec_state (addr n : Z) (s : mem_spec) : mem_reply :=
  match first_block addr n with
  | Some i =>
    Replied VIRTIO_MEM_RESP_ACK
      (if decide (set_seq i (Z.to_nat n) ⊆ sp_plugged s) then VIRTIO_MEM_STATE_PLUGGED
       else if decide (set_seq i (Z.to_nat n) ## sp_plugged s) then VIRTIO_MEM_STATE_UNPLUGGED
       else VIRTIO_MEM_STATE_MIXED)
  | None => Replied VIRTIO_MEM_RESP_ERROR 0
  end.

Definition spec_resize (a : answers) (n : Z) (s : mem_spec) : mem_reply * mem_spec :=
  if decide (n <> Z.of_nat (sp_requested s) * BS /\ n <= Z.of_nat total * BS /\ n mod BS = 0)
  then ((if signals a then Succeeded else Failed ResizeError), mkSpec (sp_plugged s) (Z.to_nat (n / BS)))
  else (Failed ResizeError, s).

Inductive mem_op :=
| OpRequest (r : VirtioMemReq)
| OpResize (n : Z)
| OpAdd (source : VirtioMemMappingSource) (handler : nat)
| OpRemove (source : VirtioMemMappingSource).

Definition spec_request (a : answers) (r : VirtioMemReq) (s : mem_spec) : mem_reply * mem_spec :=
  if decide (req_type r = VIRTIO_MEM_REQ_PLUG) then spec_plug (req_addr r) (req_nb_blocks r) s
  else if decide (req_type r = VIRTIO_MEM_REQ_UNPLUG) then spec_unplug a (req_addr r) (req_nb_blocks r) s
  else if decide (req_type r = VIRTIO_MEM_REQ_UNPLUG_ALL) then spec_unplug_all a s
  else if decide (req_type r = VIRTIO_MEM_REQ_STATE) then (spec_state (req_addr r) (req_nb_blocks r) s, s)
  else (Failed (UnkownRequestType (req_type r)), s).

(** Handlers come and go without a change of the blocks. *)
Definition spec_exec (a : answers) (op : mem_op) (s : mem_spec) : mem_reply * mem_spec :=
  match op with
  | OpRequest r => spec_request a r s
  | OpResize n => spec_resize a n s
  | OpAdd _ _ | OpRemove _ => (Succeeded, s)
  end.

(** The state of the blocks in a reply counts where the request was accepted. *)
Definition reply_agrees (r r' : mem_reply) : Prop :=
  match r, r' with
  | Replied t st, Replied t' st' => t = t' /\ (t = VIRTIO_MEM_RESP_ACK -> st = st')
  | _, _ => r = r'
  end.

Fixpoint spec_accepts (l : list (mem_op * answers * mem_reply)) (s s' : mem_spec) : Prop :=
  match l with
  | [] => s' = s
  | (op, a, r) :: l => let '(r', s1) := spec_exec a op s in reply_agrees r r' /\ spec_accepts l s1 s'
  end.
End spec.

(** ** The device as it answers operations *)
Section exec.
Context {W : Type} `{MemHost W}.

Definition reply_of {A} (f : A -> mem_reply) (r : outcome MemError A) : mem_reply :=
  match r with Done a => f a | Fail e => Failed e | Crashed => Panicked end.

Definition mem_exec (op : mem_op) (m : Mem W) : mem_reply * Mem W :=
  match op with
  | OpRequest r => let '(o, m') := handle_request r m in (reply_of (fun p => Replied p.1 p.2) o, m')
  | OpResize n => let '(o, m') := mem_resize n m in (reply_of (fun _ => Succeeded) o, m')
  | OpAdd source h => let '(o, m') := add_dma_mapping_handler source h m in (reply_of (fun _ => Succeeded) o, m')
  | OpRemove source => let '(o, m') := remove_dma_mapping_handler source m in (reply_of (fun _ => Succeeded) o, m')
  end.

Definition answers_of (m : Mem W) : answers := {|
  discards offset n := match (discard_memory_range offset n m).1 with Done _ => true | _ => false end;
  signals := if m_active m then (trigger_config (m_world m)).1 else true;
|}.

Fixpoint mem_run (ops : list mem_op) (m : Mem W) : list (mem_op * answers * mem_reply) * Mem W :=
  match ops with
  | [] => ([], m)
  | op :: ops =>
    let '(r, m1) := mem_exec op m in
    let '(l, m2) := mem_run ops m1 in ((op, answers_of m, r) :: l, m2)
  end.

(** The fields of a request have their widths; a handler is added under a name of
    its own, and one that is removed is there. *)
Definition op_ok (op : mem_op) (m : Mem W) : Prop :=
  match op with
  | OpRequest r => in_width 64 (req_addr r) /\ in_width 16 (req_nb_blocks r)
  | OpResize n => in_width 64 n
  | OpAdd source h => bt_get (source_key source) (m_handlers m) = None /\ h ∉ (m_handlers m).*2
  | OpRemove source => is_Some (bt_get (source_key source) (m_handlers m))
  end.
Fixpoint ops_ok (ops : list mem_op) (m : Mem W) : Prop :=
  match ops with
  | [] => True
  | op :: ops => op_ok op m /\ ops_ok ops (mem_exec op m).2
  end.
End exec.

(** ** The relation

    The geometry of the region: aligned, within the addresses, and of fewer
    blocks than a 16-bit count can hold. *)
Record geometry_ok (base : Z) (total : nat) : Prop := {
  go_aligned : (BS | base);
  go_base : 0 <= base;
  go_end : base + Z.of_nat total * BS < 2 ^ 64;
  go_total : (Z.of_nat total < 2 ^ 16);
}.

Section relation.
Context {W : Type} `{MemHostLaws W} (base : Z) (total : nat).

Definition block_addr (i : nat) : Z := base + Z.of_nat i * BS.

(** In the region the handler [h] maps the blocks of [S], each to itself. *)
Record view (h : nat) (w : W) (S : gset nat) : Prop := {
  view_entry k g n : dma_entries h w !! k = Some (g, n) ->
    (k + n <= base \/ base + Z.of_nat total * BS <= k) \/ exists i, i ∈ S /\ k = block_addr i /\ g = k /\ n = BS;
  view_block i : i ∈ S -> (i < total)%nat /\ dma_entries h w !! block_addr i = Some (block_addr i, BS);
}.
Definition views (w : W) (V : nat -> gset nat) : Prop := forall h, view h w (V h).

Record mem_rel (m : Mem W) (s : mem_spec) : Prop := {
  mr_block_size : block_size (m_config m) = BS;
  mr_addr : mem_addr (m_config m) = base;
  mr_region : region_size (m_config m) = Z.of_nat total * BS;
  mr_usable : usable_region_size (m_config m) = Z.of_nat total * BS;
  mr_requested : requested_size (m_config m) = Z.of_nat (sp_requested s) * BS;
  mr_plugged : plugged_size (m_config m) = Z.of_nat (size (sp_plugged s)) * BS;
  mr_length : length (m_blocks m) = total;
  mr_blocks : plugged (m_blocks m) = sp_plugged s;
  mr_handlers : bt_ok (m_handlers m);
  mr_distinct : NoDup (m_handlers m).*2;
  mr_dma : views (m_world m) (fun h => if decide (h ∈ (m_handlers m).*2) then sp_plugged s else ∅);
}.
End relation.
