(* ===== verification/VirtioMemProofs.v ===== *)
(** The virtio-mem device implements its specification: requests change the set of
    plugged blocks as specified, and DMA mappings follow it. *)
From stdpp Require Import base numbers list gmap sets strings.
From S2P Require Import Prelude Bytes Virtqueue BTree VirtioMem VirtioMemSpec.
#[local] Open Scope Z_scope.

(** ** Bitmaps *)
Lemma elem_of_plugged_from k l i : i ∈ plugged_from k l <-> (k <= i)%nat /\ l !! (i - k)%nat = Some true.
Proof.
  revert k. induction l as [|b l IH]; intros k; cbn [plugged_from]; [set_solver|].
  rewrite elem_of_union, IH. destruct (decide (i = k)) as [->|Hne].
  - rewrite Nat.sub_diag. cbn. destruct b; set_solver by lia.
  - destruct (decide (k <= i)%nat); [|destruct b; set_solver by lia].
    replace (i - k)%nat with (S (i - S k)) by lia. cbn. destruct b; set_solver by lia.
Qed.
Lemma elem_of_plugged l i : i ∈ plugged l <-> l !! i = Some true.
Proof. unfold plugged. rewrite elem_of_plugged_from, Nat.sub_0_r. naive_solver lia. Qed.

Lemma plugged_length l i : i ∈ plugged l -> (i < length l)%nat.
Proof. intros Hi%elem_of_plugged. by apply lookup_lt_is_Some_1. Qed.

Lemma skip_drop {A} i (l : list A) : skip (Z.of_nat i) l = drop i l.
Proof.
  unfold skip. case_decide; [symmetry; apply drop_ge; lia|]. by rewrite Nat2Z.id.
Qed.

Lemma is_range_state_spec i n plug l : (i + n <= length l)%nat ->
  is_range_state (Z.of_nat i) (Z.of_nat n) plug l = true <-> forall j, (i <= j < i + n)%nat -> l !! j = Some plug.
Proof.
  intros Hlen. unfold is_range_state. rewrite skip_drop, Nat2Z.id, forallb_forall. split.
  - intros Hall j Hj. destruct (l !! j) as [b|] eqn:Hb; [|apply lookup_ge_None in Hb; lia].
    f_equal. apply eqb_prop, Hall, list_elem_of_In, list_elem_of_lookup. exists (j - i)%nat.
    rewrite lookup_take_lt, lookup_drop by lia. by replace (i + (j - i))%nat with j by lia.
  - intros Hall b Hb%list_elem_of_In. apply list_elem_of_lookup in Hb as [k Hk].
    apply lookup_take_Some in Hk as [Hk Hlt]. rewrite lookup_drop in Hk.
    rewrite (Hall (i + k)%nat) in Hk by lia. injection Hk as <-. by destruct plug.
Qed.

Lemma set_range_lookup i n plug l j : (i <= length l)%nat ->
  set_range (Z.of_nat i) (Z.of_nat n) plug l !! j =
  if decide (i <= j < i + n)%nat then (fun _ => plug) <$> l !! j else l !! j.
Proof.
  intros Hlen. unfold set_range. rewrite skip_drop, Nat2Z.id, length_drop.
  replace (length l - (length l - i))%nat with i by lia.
  destruct (decide (j < i)%nat) as [Hlt|Hge].
  { rewrite lookup_app_l by (rewrite length_take; lia). rewrite lookup_take_lt by done. by rewrite decide_False by lia. }
  rewrite lookup_app_r by (rewrite length_take; lia). rewrite length_take, Nat.min_l by lia.
  destruct (decide (j < i + n)%nat) as [Hin|Hout].
  - rewrite decide_True by lia. destruct (decide (j < length l)%nat) as [Hj|Hj].
    + rewrite lookup_app_l by (rewrite length_fmap, length_take, length_drop; lia).
      rewrite list_lookup_fmap, lookup_take_lt, lookup_drop by lia. by replace (i + (j - i))%nat with j by lia.
    + rewrite (lookup_ge_None_2 l j) by lia. apply lookup_ge_None.
      rewrite length_app, length_fmap, length_take, !length_drop. lia.
  - rewrite decide_False by lia. rewrite lookup_app_r by (rewrite length_fmap, length_take, length_drop; lia).
    rewrite length_fmap, length_take, length_drop, !lookup_drop.
    destruct (decide (n <= length l - i)%nat); [f_equal; lia|].
    rewrite !lookup_ge_None_2; [done|lia|lia].
Qed.

Lemma set_range_length i n plug l : (i <= length l)%nat -> length (set_range (Z.of_nat i) (Z.of_nat n) plug l) = length l.
Proof.
  intros Hlen. unfold set_range. rewrite skip_drop, Nat2Z.id, !length_app, length_fmap, !length_take, !length_drop. lia.
Qed.

Lemma plugged_set_true i n l : (i + n <= length l)%nat ->
  plugged (set_range (Z.of_nat i) (Z.of_nat n) true l) = plugged l ∪ set_seq i n.
Proof.
  intros Hlen. apply set_eq. intros j. rewrite elem_of_union, elem_of_set_seq, !elem_of_plugged, set_range_lookup by lia.
  case_decide; [|naive_solver lia].
  destruct (lookup_lt_is_Some_2 l j) as [b Hb]; [lia|]. rewrite Hb. cbn. naive_solver lia.
Qed.
Lemma plugged_set_false i n l : (i <= length l)%nat ->
  plugged (set_range (Z.of_nat i) (Z.of_nat n) false l) = plugged l ∖ set_seq i n.
Proof.
  intros Hlen. apply set_eq. intros j. rewrite elem_of_difference, elem_of_set_seq, !elem_of_plugged, set_range_lookup by lia.
  case_decide; [destruct (l !! j); naive_solver lia|naive_solver lia].
Qed.

Lemma range_all_plugged i n l : (i + n <= length l)%nat ->
  is_range_state (Z.of_nat i) (Z.of_nat n) true l = bool_decide (set_seq i n ⊆ plugged l).
Proof.
  intros Hlen. apply Bool.eq_iff_eq_true. rewrite is_range_state_spec, bool_decide_eq_true by done. split.
  - intros Hall j Hj%elem_of_set_seq. by apply elem_of_plugged, Hall.
  - intros Hsub j Hj. by apply elem_of_plugged, Hsub, elem_of_set_seq.
Qed.
Lemma range_none_plugged i n l : (i + n <= length l)%nat ->
  is_range_state (Z.of_nat i) (Z.of_nat n) false l = bool_decide (set_seq i n ## plugged l).
Proof.
  intros Hlen. apply Bool.eq_iff_eq_true. rewrite is_range_state_spec, bool_decide_eq_true by done. split.
  - intros Hall j Hj%elem_of_set_seq Hp%elem_of_plugged. rewrite Hall in Hp by done. done.
  - intros Hdisj j Hj. destruct (lookup_lt_is_Some_2 l j) as [[] Hb]; [lia| |done].
    destruct (Hdisj j); [by apply elem_of_set_seq|by apply elem_of_plugged].
Qed.

(** ** Mappings *)
(** Arithmetic on the addresses of blocks. *)
Ltac block_lia := unfold VirtioMemSpec.block_addr in *; rewrite ?BS_value in *; lia.

Section proofs.
Context {W : Type} `{MemHostLaws W} (base : Z) (total : nat).
Abbreviation block_addr := (block_addr base).
Abbreviation view := (view base total).
Abbreviation views := (views base total).

Lemma views_ext w V V' : (forall h, V h = V' h) -> views w V -> views w V'.
Proof. intros Heq Hv h. rewrite <- Heq. apply Hv. Qed.

(** A step that leaves the mappings alone. *)
Lemma views_same w w' V : (forall h, dma_entries h w' = dma_entries h w) -> views w V -> views w' V.
Proof.
  intros Heq Hv h. destruct (Hv h) as [He Hb]. split.
  - intros k g n. rewrite Heq. apply He.
  - intros i Hi. rewrite Heq. by apply Hb.
Qed.

Lemma view_other h w w' S : dma_entries h w' = dma_entries h w -> view h w S -> view h w' S.
Proof. intros Heq [He Hb]. split; intros *; rewrite Heq; [apply He|apply Hb]. Qed.

Lemma view_map h w S i : view h w S -> (i < total)%nat -> i ∉ S ->
  exists w', dma_map h (block_addr i) (block_addr i) BS w = (true, w') /\ view h w' (S ∪ {[i]}) /\
    forall h', h' <> h -> dma_entries h' w' = dma_entries h' w.
Proof.
  intros [He Hb] Hi Hni. destruct (dma_map_ok h (block_addr i) (block_addr i) BS w) as (w' & Hrun & Hw' & Hoth).
  { block_lia. }
  { intros k g n Hk. destruct (He _ _ _ Hk) as [?|(j & Hj & -> & _ & ->)]; [block_lia|].
    assert (i <> j) by set_solver. block_lia. }
  exists w'. split; [done|]. split; [|done]. split.
  - intros k g n. rewrite Hw', lookup_insert_Some. intros [[<- [= <- <-]]|[Hne Hk]].
    + right. exists i. set_solver.
    + destruct (He _ _ _ Hk) as [?|(j & Hj & Hjk)]; [by left|right]. exists j. set_solver.
  - intros j. rewrite elem_of_union, elem_of_singleton, Hw'. intros [Hj| ->].
    + destruct (Hb j Hj) as [? Hl]. split; [done|]. rewrite lookup_insert_ne; [done|].
      assert (i <> j) by set_solver. block_lia.
    + by rewrite lookup_insert_eq.
Qed.

Lemma view_unmap h w S i n : view h w S -> (0 < n)%nat -> set_seq i n ⊆ S ->
  exists w', dma_unmap h (block_addr i) (Z.of_nat n * BS) w = (true, w') /\ view h w' (S ∖ set_seq i n) /\
    forall h', h' <> h -> dma_entries h' w' = dma_entries h' w.
Proof.
  intros [He Hb] Hn Hsub.
  assert (Hin : forall j, (i <= j < i + n)%nat -> j ∈ S /\ (j < total)%nat).
  { intros j Hj. assert (j ∈ S) as Hjs by (by apply Hsub, elem_of_set_seq). split; [done|by apply Hb]. }
  destruct (Hin (i + n - 1)%nat) as [_ Hlast]; [lia|].
  destruct (dma_unmap_ok h (block_addr i) (Z.of_nat n * BS) w) as (w' & Hrun & Hw' & Hoth).
  { block_lia. }
  { split.
    - intros k g s Hk. destruct (He _ _ _ Hk) as [Hout|(j & Hj & -> & _ & ->)]; block_lia.
    - intros a Ha. set (j := Z.to_nat ((a - base) / 2097152)).
      assert (Hj : (i <= j < i + n)%nat /\ base + Z.of_nat j * 2097152 <= a < base + Z.of_nat j * 2097152 + 2097152).
      { unfold VirtioMemSpec.block_addr in Ha. rewrite BS_value in Ha. unfold j. pose proof (Z.div_mod (a - base) 2097152). pose proof (Z.mod_pos_bound (a - base) 2097152). lia. }
      exists (block_addr j), (block_addr j), BS. split; [apply Hb, Hin; lia|].
      block_lia. }
  exists w'. split; [done|]. split; [|done]. split.
  - intros k g s. rewrite Hw', map_lookup_filter_Some. intros [Hk Hni].
    destruct (He _ _ _ Hk) as [?|(j & Hj & -> & Hjk)]; [by left|right]. exists j. split; [|done].
    apply elem_of_difference. split; [done|]. rewrite elem_of_set_seq. intros Hr. apply Hni. cbn.
    block_lia.
  - intros j [Hj Hni]%elem_of_difference. destruct (Hb j Hj) as [? Hl]. split; [done|].
    rewrite Hw', map_lookup_filter_Some. split; [done|]. cbn. rewrite elem_of_set_seq in Hni.
    block_lia.
Qed.

(** One handler changes its view. *)
Definition upd (V : nat -> gset nat) (h : nat) (S : gset nat) (h' : nat) : gset nat := if decide (h' = h) then S else V h'.
Lemma views_upd w w' V h S : views w V -> view h w' S -> (forall h', h' <> h -> dma_entries h' w' = dma_entries h' w) ->
  views w' (upd V h S).
Proof.
  intros Hv Hh Hoth h'. unfold upd. case_decide as Hd; [by subst|]. eapply view_other; [by apply Hoth|apply Hv].
Qed.

(** The handlers of [hs] change their views by [f]. *)
Definition on_handlers (hs : list nat) (f : gset nat -> gset nat) (V : nat -> gset nat) (h : nat) : gset nat :=
  if decide (h ∈ hs) then f (V h) else V h.

Lemma on_handlers_cons h hs f V : h ∉ hs -> forall h', on_handlers hs f (upd V h (f (V h))) h' = on_handlers (h :: hs) f V h'.
Proof.
  intros Hn h'. unfold on_handlers, upd. destruct (decide (h' = h)) as [->|Hne].
  - rewrite decide_False by done. by rewrite decide_True by left.
  - destruct (decide (h' ∈ hs)); [rewrite decide_True by (by right)|rewrite decide_False by set_solver]; done.
Qed.

Lemma set_world_id (m : Mem W) : set_world (m_world m) m = m.
Proof. by destruct m. Qed.

Lemma call_ok {E} f (e : E) (m : Mem W) w : f (m_world m) = (true, w) -> call f e m = (Done tt, set_world w m).
Proof. intros Hf. unfold call. by rewrite Hf. Qed.

Lemma map_handlers_run {E} (l : list (Z * nat)) i (e : E) V (m : Mem W) :
  (i < total)%nat -> NoDup l.*2 -> (forall h, h ∈ l.*2 -> i ∉ V h) -> views (m_world m) V ->
  exists w, map_handlers l (block_addr i) BS e m = (Done tt, set_world w m) /\
    views w (on_handlers l.*2 (fun S => S ∪ {[i]}) V).
Proof.
  intros Hi. revert V m. induction l as [|[src h] l IH]; intros V m Hnd Hfree Hv.
  { exists (m_world m). rewrite set_world_id. split; [done|]. eapply views_ext; [|done].
    intros h. unfold on_handlers. by rewrite decide_False by apply not_elem_of_nil. }
  cbn in Hnd. apply NoDup_cons in Hnd as [Hh Hnd].
  destruct (view_map h (m_world m) (V h) i (Hv h) Hi) as (w1 & Hrun & Hview & Hoth); [apply Hfree; by left|].
  destruct (IH (upd V h (V h ∪ {[i]})) (set_world w1 m) Hnd) as (w2 & Hrun2 & Hv2).
  - intros h' Hin. unfold upd. rewrite decide_False by set_solver. apply Hfree. by right.
  - by eapply views_upd.
  - exists w2. cbn [map_handlers]. rewrite (bind_done _ _ _ _ _ (call_ok _ _ _ _ Hrun)), Hrun2. split; [done|].
    eapply views_ext; [|done]. exact (on_handlers_cons h l.*2 (fun S => S ∪ {[i]}) V Hh).
Qed.

Lemma unmap_handlers_run {E} (l : list (Z * nat)) i n (e : E) V (m : Mem W) :
  (0 < n)%nat -> NoDup l.*2 -> (forall h, h ∈ l.*2 -> set_seq i n ⊆ V h) -> views (m_world m) V ->
  exists w, unmap_handlers l (block_addr i) (Z.of_nat n * BS) e m = (Done tt, set_world w m) /\
    views w (on_handlers l.*2 (fun S => S ∖ set_seq i n) V).
Proof.
  intros Hi. revert V m. induction l as [|[src h] l IH]; intros V m Hnd Hsub Hv.
  { exists (m_world m). rewrite set_world_id. split; [done|]. eapply views_ext; [|done].
    intros h. unfold on_handlers. by rewrite decide_False by apply not_elem_of_nil. }
  cbn in Hnd. apply NoDup_cons in Hnd as [Hh Hnd].
  destruct (view_unmap h (m_world m) (V h) i n (Hv h) Hi) as (w1 & Hrun & Hview & Hoth); [apply Hsub; by left|].
  destruct (IH (upd V h (V h ∖ set_seq i n)) (set_world w1 m) Hnd) as (w2 & Hrun2 & Hv2).
  - intros h' Hin. unfold upd. rewrite decide_False by set_solver. apply Hsub. by right.
  - by eapply views_upd.
  - exists w2. cbn [unmap_handlers]. rewrite (bind_done _ _ _ _ _ (call_ok _ _ _ _ Hrun)), Hrun2. split; [done|].
    eapply views_ext; [|done]. exact (on_handlers_cons h l.*2 (fun S => S ∖ set_seq i n) V Hh).
Qed.

Context (Hgeo : geometry_ok base total).

Lemma next_block i : (i < total)%nat -> wadd 64 (block_addr i) BS = block_addr (S i).
Proof.
  intros Hi. destruct Hgeo as [_ Hb He _]. rewrite wadd_small; [block_lia|]. split; block_lia.
Qed.

Lemma map_blocks_run {E} (l : list (Z * nat)) n i (e : E) V (m : Mem W) :
  (i + n <= total)%nat -> NoDup l.*2 -> (forall h, h ∈ l.*2 -> set_seq i n ## V h) -> views (m_world m) V ->
  exists w, map_blocks l n (block_addr i) BS e m = (Done tt, set_world w m) /\
    views w (on_handlers l.*2 (fun S => S ∪ set_seq i n) V).
Proof.
  revert i V m. induction n as [|n IH]; intros i V m Hi Hnd Hfree Hv.
  { exists (m_world m). rewrite set_world_id. split; [done|]. eapply views_ext; [|done].
    intros h. unfold on_handlers. case_decide; set_solver. }
  destruct (map_handlers_run l i e V m) as (w1 & Hrun & Hv1); [lia|done| |done|].
  { intros h Hh Hin. apply (Hfree h Hh i); [|done]. apply elem_of_set_seq. lia. }
  destruct (IH (S i) (on_handlers l.*2 (fun S => S ∪ {[i]}) V) (set_world w1 m)) as (w2 & Hrun2 & Hv2); [lia|done| |done|].
  { intros h Hh j [Hj1 Hj2]%elem_of_set_seq. unfold on_handlers. rewrite decide_True by done.
    rewrite elem_of_union, elem_of_singleton. intros [Hj| ->]; [|lia]. apply (Hfree h Hh j); [|done]. apply elem_of_set_seq. lia. }
  exists w2. cbn [map_blocks]. rewrite (bind_done _ _ _ _ _ Hrun), next_block, Hrun2 by lia. split; [done|].
  eapply views_ext; [|done]. intros h. unfold on_handlers. case_decide; [|done].
  cbn [set_seq]. set_solver.
Qed.

(** The loop over the plugged blocks. *)
Lemma for_plugged_run {E} (f : Z -> M (Mem W) E unit) c (I : gset nat -> Mem W -> Prop) k l done_ m :
  mem_addr c = base -> block_size c = BS -> (k + length l <= total)%nat ->
  (forall i d m, I d m -> i ∈ plugged_from k l -> i ∉ d -> exists m', f (block_addr i) m = (Done tt, m') /\ I (d ∪ {[i]}) m') ->
  I done_ m -> (forall i, i ∈ done_ -> (i < k)%nat) ->
  exists m', for_plugged f c (Z.of_nat k) l m = (Done tt, m') /\ I (done_ ∪ plugged_from k l) m'.
Proof.
  intros Ha Hb. revert k done_ m. induction l as [|b l IH]; intros k done_ m Hlen Hf HI Hd.
  { exists m. split; [done|]. cbn [plugged_from]. by rewrite union_empty_r_L. }
  cbn [length] in Hlen. cbn [for_plugged plugged_from].
  assert (Haddr : wadd 64 (mem_addr c) (wmul 64 (Z.of_nat k) (block_size c)) = block_addr k).
  { rewrite Ha, Hb. destruct Hgeo as [_ Hb0 He _].
    rewrite wmul_small by (split; block_lia). apply wadd_small. split; block_lia. }
  replace (Z.of_nat k + 1) with (Z.of_nat (S k)) by lia. rewrite Haddr.
  assert (Hstep : exists m1, (if b then f (block_addr k) else ret tt) m = (Done tt, m1) /\ I (done_ ∪ (if b then {[k]} else ∅)) m1).
  { destruct b; [|exists m; by rewrite union_empty_r_L]. apply Hf; [done|cbn; set_solver|].
    intros Hin. specialize (Hd k Hin). lia. }
  destruct Hstep as (m1 & Hrun & HI1). rewrite (bind_done _ _ _ _ _ Hrun).
  destruct (IH (S k) (done_ ∪ (if b then {[k]} else ∅)) m1) as (m2 & Hrun2 & HI2); [lia| |done| |].
  - intros i d m' HI' Hi. apply Hf; [done|]. cbn [plugged_from]. set_solver.
  - intros i. destruct b; [|rewrite union_empty_r_L; intros Hi%Hd; lia].
    rewrite elem_of_union, elem_of_singleton. intros [Hi%Hd| ->]; lia.
  - exists m2. split; [done|]. by rewrite (assoc_L (∪)).
Qed.

Lemma discard_spec offset n (m : Mem W) :
  exists w r, discard_memory_range offset n m = (r, set_world w m) /\ (forall h, dma_entries h w = dma_entries h (m_world m)) /\
    r <> Crashed.
Proof.
  unfold discard_memory_range. rewrite bind_get. unfold bind, call, ret. destruct (m_host_fd m) as [fd|]; cbn.
  - pose proof (fallocate64_dma fd offset n (m_world m)) as Hfa.
    destruct (fallocate64 fd offset n (m_world m)) as [[] w1]; cbn in *.
    + destruct (m_hugepages m); [by exists w1, (Done tt)|].
      pose proof (madvise_dma (wadd 64 (m_host_addr m) offset) n w1) as Hma.
      destruct (madvise _ _ _) as [ok w2]; cbn in *. exists w2, (if ok then Done tt else Fail DiscardMemoryRange).
      split; [done|]. split; [|by destruct ok]. intros h. by rewrite Hma.
    + by exists w1, (Fail DiscardMemoryRange).
  - destruct (m_hugepages m); [exists (m_world m), (Done tt); by rewrite set_world_id|].
    pose proof (madvise_dma (wadd 64 (m_host_addr m) offset) n (m_world m)) as Hma.
    destruct (madvise _ _ _) as [ok w2]; cbn in *. exists w2, (if ok then Done tt else Fail DiscardMemoryRange).
    split; [done|]. split; [|by destruct ok]. done.
Qed.

(** ** Operations *)
Abbreviation rel := (mem_rel base total).

(** The state after a change of the blocks. *)
Definition changed (blocks : list bool) (w : W) (p : Z) (m : Mem W) : Mem W :=
  set_config (set_plugged p (m_config m)) (set_world w (set_blocks blocks m)).

Lemma rel_changed m s blocks w p S :
  rel m s -> length blocks = total -> plugged blocks = S -> p = Z.of_nat (size S) * BS ->
  views w (fun h => if decide (h ∈ (m_handlers m).*2) then S else ∅) ->
  rel (changed blocks w p m) (mkSpec S (sp_requested s)).
Proof. intros [] Hlen HS Hp Hv. by split. Qed.

Lemma rel_world m s w : rel m s -> (forall h, dma_entries h w = dma_entries h (m_world m)) -> rel (set_world w m) s.
Proof. intros [] Hw. split; try done. by eapply views_same. Qed.

Lemma rel_bounds m s : rel m s -> (size (sp_plugged s) <= total)%nat.
Proof.
  intros Hr. rewrite <- (mr_blocks _ _ _ _ Hr), <- (size_set_seq (C := gset nat) 0 total). apply subseteq_size.
  intros i Hi%plugged_length. rewrite (mr_length _ _ _ _ Hr) in Hi. apply elem_of_set_seq. lia.
Qed.

(** The check of a range in the code is that of the specification. *)
Lemma valid_range_spec m s addr n : rel m s -> in_width 64 addr -> in_width 16 n ->
  wmul 64 n (block_size (m_config m)) = n * BS /\
  match first_block base total addr n with
  | Some i => is_valid_range addr (n * BS) (m_config m) = true /\ addr = block_addr i /\
      wsub 64 addr base = Z.of_nat i * BS /\ wsub 64 addr base / BS = Z.of_nat i /\
      (i + Z.to_nat n < total)%nat /\ 0 < n
  | None => is_valid_range addr (n * BS) (m_config m) = false
  end.
Proof.
  intros Hr Ha Hn. destruct Hgeo as [[q Hq] Hb He Ht]. unfold in_width in *.
  rewrite (mr_block_size _ _ _ _ Hr). split; [rewrite wmul_small; [done|split; block_lia]|].
  unfold is_valid_range, checked_add. rewrite (mr_block_size _ _ _ _ Hr), (mr_addr _ _ _ _ Hr), (mr_usable _ _ _ _ Hr).
  rewrite (wadd_small 64 base) by (split; block_lia). unfold first_block.
  assert (Hmod : addr mod BS = (addr - base) mod BS).
  { rewrite Hq. rewrite <- (Z.mod_add addr (- q) BS) by done. f_equal. lia. }
  rewrite Hmod. case_decide as Hvalid.
  - destruct Hvalid as (Hlo & Hal & Hpos & Hhi). rewrite decide_True by block_lia.
    rewrite (wadd_small 64 addr) by (split; block_lia). rewrite bool_decide_eq_false_2 by block_lia. split; [done|].
    rewrite wsub_small by (split; block_lia). pose proof (Z.div_mod (addr - base) BS ltac:(done)) as Hdm.
    rewrite Hal in Hdm. assert (0 <= (addr - base) / BS) by (apply Z.div_pos; block_lia).
    remember ((addr - base) / BS) as k eqn:Hk. clear Hk. split_and!; block_lia.
  - case_decide; [|done]. rewrite wadd_small by (split; block_lia). rewrite bool_decide_eq_true_2; [done|]. block_lia.
Qed.

Lemma plug_refines m s addr n : rel m s -> in_width 64 addr -> in_width 16 n ->
  let '(r, m') := state_change_request (E := MemError) addr n true m in
  let '(r', s') := spec_plug base total addr n s in
  reply_of (fun p => Replied p 0) r = r' /\ rel m' s'.
Proof.
  intros Hr Ha Hn. destruct (valid_range_spec m s addr n Hr Ha Hn) as [Hsize Hvalid]. pose proof (rel_bounds m s Hr) as Hle.
  destruct (Z_of_nat_complete n (proj1 Hn)) as [k ->]. destruct Hn as [_ Hk].
  unfold state_change_request, returned, state_change_body, spec_plug. rewrite bind_get, Hsize, Nat2Z.id in *. cbn [andb negb].
  rewrite (mr_plugged _ _ _ _ Hr), (mr_requested _ _ _ _ Hr).
  rewrite wadd_small by (destruct Hgeo; split; block_lia).
  destruct (decide (sp_requested s < size (sp_plugged s) + k)%nat) as [Hover|Hover].
  { by rewrite bool_decide_eq_true_2 by block_lia. }
  rewrite bool_decide_eq_false_2 by block_lia.
  destruct (first_block base total addr (Z.of_nat k)) as [i|]; [|by rewrite Hvalid].
  destruct Hvalid as (-> & Haddr & _ & Hidx & Hi & Hpos). rewrite (mr_addr _ _ _ _ Hr), (mr_block_size _ _ _ _ Hr), Hidx.
  cbn [negb]. rewrite range_none_plugged, (mr_blocks _ _ _ _ Hr) by (rewrite (mr_length _ _ _ _ Hr); lia).
  destruct (decide (set_seq i k ## sp_plugged s)) as [Hdisj|Hdisj];
    [rewrite bool_decide_eq_true_2 by done|by rewrite bool_decide_eq_false_2 by done].
  cbn [negb]. rewrite bind_ret, bind_modify.
  set (blocks := set_range (Z.of_nat i) (Z.of_nat k) true (m_blocks m)).
  destruct (map_blocks_run (m_handlers m) k i VIRTIO_MEM_RESP_ERROR
    (fun h => if decide (h ∈ (m_handlers m).*2) then sp_plugged s else ∅) (set_blocks blocks m)) as (w & Hrun & Hv).
  { lia. } { apply Hr. } { intros h Hh. by rewrite decide_True by done. } { apply Hr. }
  rewrite Haddr. erewrite (bind_done (bind _ _)) by (rewrite (bind_done _ _ _ _ _ Hrun); reflexivity). split; [done|].
  pose proof (mr_length _ _ _ _ Hr) as Hlen.
  eapply (rel_changed m s blocks w (wadd 64 (plugged_size (m_config m)) (Z.of_nat k * BS))); [done| | | |].
  - unfold blocks. by rewrite set_range_length by lia.
  - unfold blocks. by rewrite plugged_set_true, (mr_blocks _ _ _ _ Hr) by lia.
  - rewrite (mr_plugged _ _ _ _ Hr), size_union, size_set_seq by done. rewrite wadd_small; [block_lia|]. destruct Hgeo. split; block_lia.
  - eapply views_ext; [|exact Hv]. intros h. unfold on_handlers. by case_decide.
Qed.

Lemma unplug_refines m s addr n : rel m s -> in_width 64 addr -> in_width 16 n ->
  let '(r, m') := state_change_request (E := MemError) addr n false m in
  let '(r', s') := spec_unplug base total (answers_of m) addr n s in
  reply_of (fun p => Replied p 0) r = r' /\ rel m' s'.
Proof.
  intros Hr Ha Hn. destruct (valid_range_spec m s addr n Hr Ha Hn) as [Hsize Hvalid].
  destruct (Z_of_nat_complete n (proj1 Hn)) as [k ->]. destruct Hn as [_ Hk].
  unfold state_change_request, returned, state_change_body, spec_unplug. rewrite bind_get, Hsize, Nat2Z.id in *. cbn [andb negb].
  destruct (first_block base total addr (Z.of_nat k)) as [i|]; [|by rewrite Hvalid].
  destruct Hvalid as (-> & Haddr & Hoff & Hidx & Hi & Hpos). rewrite (mr_addr _ _ _ _ Hr), (mr_block_size _ _ _ _ Hr), Hidx.
  cbn [negb]. rewrite range_all_plugged, (mr_blocks _ _ _ _ Hr) by (rewrite (mr_length _ _ _ _ Hr); lia).
  destruct (decide (set_seq i k ⊆ sp_plugged s)) as [Hsub|Hsub];
    [rewrite bool_decide_eq_true_2 by done|by rewrite bool_decide_eq_false_2 by done].
  cbn [negb]. replace (addr - base) with (wsub 64 addr base) by (rewrite Hoff; block_lia). cbn [discards answers_of].
  destruct (discard_spec (wsub 64 addr base) (Z.of_nat k * BS) m) as (w1 & r & Hdis & Hsame & Hnc).
  unfold map_err at 1. unfold bind at 1. rewrite Hdis. destruct r as [[]|e|]; [|split; [done|by apply rel_world]|done].
  cbn [fst]. rewrite bind_modify. pose proof (mr_length _ _ _ _ Hr) as Hlen.
  set (blocks := set_range (Z.of_nat i) (Z.of_nat k) false (m_blocks m)).
  destruct (unmap_handlers_run (m_handlers m) i k VIRTIO_MEM_RESP_ERROR
    (fun h => if decide (h ∈ (m_handlers m).*2) then sp_plugged s else ∅) (set_blocks blocks (set_world w1 m))) as (w & Hrun & Hv).
  { lia. } { apply Hr. } { intros h Hh. by rewrite decide_True by done. } { eapply views_same; [done|apply Hr]. }
  rewrite Haddr. erewrite (bind_done (bind _ _)) by (rewrite (bind_done _ _ _ _ _ Hrun); reflexivity). split; [done|].
  eapply (rel_changed m s blocks w (wsub 64 (plugged_size (m_config m)) (Z.of_nat k * BS))); [done| | | |].
  - unfold blocks. by rewrite set_range_length by lia.
  - unfold blocks. by rewrite plugged_set_false, (mr_blocks _ _ _ _ Hr) by lia.
  - pose proof (rel_bounds m s Hr). pose proof (subseteq_size _ _ Hsub) as Hle.
    rewrite (mr_plugged _ _ _ _ Hr), size_difference by done. rewrite size_set_seq in *.
    rewrite wsub_small; [block_lia|]. destruct Hgeo. split; block_lia.
  - eapply views_ext; [|exact Hv]. intros h. unfold on_handlers. by case_decide.
Qed.

(** Every plugged block is unmapped by the handlers [l]. *)
Lemma unmap_plugged_run {E} (l : list (Z * nat)) (e : E) blocks c V (m : Mem W) :
  mem_addr c = base -> block_size c = BS -> (length blocks <= total)%nat ->
  NoDup l.*2 -> (forall h, h ∈ l.*2 -> V h = plugged blocks) -> views (m_world m) V ->
  exists w, for_plugged (fun gpa => unmap_handlers l gpa BS e) c 0 blocks m = (Done tt, set_world w m) /\
    views w (on_handlers l.*2 (fun _ => ∅) V).
Proof.
  intros Ha Hb Hlen Hnd HV Hv.
  destruct (for_plugged_run (fun gpa => unmap_handlers l gpa BS e) c
    (fun d m' => exists w, m' = set_world w m /\ views w (on_handlers l.*2 (fun S => S ∖ d) V)) 0 blocks ∅ m)
    as (m' & Hrun & w & -> & Hw); try done.
  - intros i d m' (w & -> & Hw) Hi Hni.
    destruct (unmap_handlers_run l i 1 e (on_handlers l.*2 (fun S => S ∖ d) V) (set_world w m)) as (w' & Hrun & Hw'); [lia|done| |done|].
    { intros h Hh. unfold on_handlers. rewrite decide_True, HV by done. unfold plugged. cbn [set_seq]. set_solver. }
    exists (set_world w' m). rewrite Z.mul_1_l in Hrun. split; [done|]. exists w'. split; [done|].
    eapply views_ext; [|exact Hw']. intros h. unfold on_handlers. case_decide; [|done]. cbn [set_seq]. set_solver.
  - exists (m_world m). rewrite set_world_id. split; [done|]. eapply views_ext; [|exact Hv].
    intros h. unfold on_handlers. case_decide; set_solver.
  - exists w. split; [done|]. eapply views_ext; [|exact Hw]. intros h. unfold on_handlers. case_decide as Hd; [|done].
    rewrite (HV h Hd). unfold plugged. set_solver.
Qed.

(** The loops run only when blocks are plugged. *)
Lemma when_plugged {E} (loop : M (Mem W) E unit) m s m0 V : rel m s ->
  (exists w, loop m0 = (Done tt, set_world w m0) /\ views w V) -> (sp_plugged s = ∅ -> views (m_world m0) V) ->
  exists w, (if decide (plugged_size (m_config m) > 0) then loop else ret tt) m0 = (Done tt, set_world w m0) /\ views w V.
Proof.
  intros Hr Hloop Hemp. case_decide as Hp; [done|]. exists (m_world m0). rewrite set_world_id. split; [done|]. apply Hemp.
  apply leibniz_equiv, size_empty_iff. rewrite (mr_plugged _ _ _ _ Hr) in Hp. block_lia.
Qed.

Lemma unplug_all_refines m s : rel m s ->
  let '(r, m') := unplug_all (E := MemError) m in
  let '(r', s') := spec_unplug_all total (answers_of m) s in
  reply_of (fun p => Replied p 0) r = r' /\ rel m' s'.
Proof.
  intros Hr. unfold unplug_all, returned, unplug_all_body, spec_unplug_all. rewrite bind_get. cbn [discards answers_of].
  rewrite (mr_region _ _ _ _ Hr), (mr_block_size _ _ _ _ Hr).
  destruct (discard_spec 0 (Z.of_nat total * BS) m) as (w1 & r & Hdis & Hsame & Hnc).
  unfold map_err at 1. unfold bind at 1. rewrite Hdis. destruct r as [[]|e|]; [|split; [done|by apply rel_world]|done].
  cbn [fst]. pose proof (mr_length _ _ _ _ Hr) as Hlen. pose proof (mr_blocks _ _ _ _ Hr) as Hbl.
  set (V := fun h => if decide (h ∈ (m_handlers m).*2) then sp_plugged s else ∅).
  destruct (when_plugged (for_plugged (fun gpa => unmap_handlers (m_handlers m) gpa BS VIRTIO_MEM_RESP_ERROR) (m_config m) 0
    (m_blocks m)) m s (set_world w1 m) (on_handlers (m_handlers m).*2 (fun _ => ∅) V) Hr) as (w & Hrun & Hw).
  { apply unmap_plugged_run; try apply Hr; [lia| |].
    - intros h Hh. unfold V. by rewrite decide_True.
    - eapply views_same; [exact Hsame|apply Hr]. }
  { intros Hemp. eapply views_ext; [|eapply views_same; [exact Hsame|apply Hr]].
    intros h. unfold on_handlers, V. case_decide; [by rewrite Hemp|done]. }
  rewrite (bind_done _ _ _ _ _ Hrun), bind_modify, bind_modify. split; [done|].
  rewrite Z.div_mul by done.
  assert (Hcount : wrap 16 (Z.of_nat total) = Z.of_nat total) by (destruct Hgeo; apply wrap_small; split; lia).
  rewrite Hcount. eapply (rel_changed m s _ w 0); [done| | | |].
  - etrans; [apply (set_range_length 0 total false (m_blocks m)); lia|done].
  - etrans; [apply (plugged_set_false 0 total (m_blocks m)); lia|]. rewrite Hbl.
    apply set_eq. intros j. split; [|set_solver]. intros [Hj Hni]%elem_of_difference. exfalso. apply Hni, elem_of_set_seq.
    rewrite <- Hbl in Hj. apply plugged_length in Hj. lia.
  - rewrite size_empty. lia.
  - eapply views_ext; [|exact Hw]. intros h. unfold on_handlers, V. by destruct (decide (h ∈ (m_handlers m).*2)).
Qed.

Lemma state_refines m s addr n : rel m s -> in_width 64 addr -> in_width 16 n ->
  reply_agrees (Replied (state_request addr n m).1 (state_request addr n m).2) (spec_state base total addr n s).
Proof.
  intros Hr Ha Hn. destruct (valid_range_spec m s addr n Hr Ha Hn) as [Hsize Hvalid].
  destruct (Z_of_nat_complete n (proj1 Hn)) as [k ->]. destruct Hn as [_ Hk].
  unfold state_request, spec_state. rewrite Hsize, Nat2Z.id in *. cbn [fst snd].
  destruct (first_block base total addr (Z.of_nat k)) as [i|]; [|by rewrite Hvalid].
  destruct Hvalid as (-> & Haddr & _ & Hidx & Hi & Hpos). rewrite (mr_addr _ _ _ _ Hr), (mr_block_size _ _ _ _ Hr), Hidx.
  pose proof (mr_length _ _ _ _ Hr). rewrite range_all_plugged, range_none_plugged, (mr_blocks _ _ _ _ Hr) by lia.
  split; [done|]. intros _. by repeat case_decide; repeat case_bool_decide.
Qed.

Lemma resize_refines m s n : rel m s -> in_width 64 n ->
  let '(r, m') := mem_resize n m in
  let '(r', s') := spec_resize total (answers_of m) n s in
  reply_of (fun _ => Succeeded) r = r' /\ rel m' s'.
Proof.
  intros Hr Hn. unfold mem_resize, config_resize, spec_resize. rewrite bind_get.
  rewrite (mr_requested _ _ _ _ Hr), (mr_region _ _ _ _ Hr), (mr_block_size _ _ _ _ Hr).
  case_decide as H1; [rewrite decide_False by naive_solver; done|].
  case_decide as H2; [rewrite decide_False by (intros (_ & ? & _); lia); done|].
  case_decide as H3; [rewrite decide_False by naive_solver; done|].
  rewrite decide_True by (split_and!; [congruence|lia|lia]). rewrite bind_modify. assert (Hmod : n mod BS = 0) by lia.
  assert (Hrel : rel (set_config (set_requested n (m_config m)) m) (mkSpec (sp_plugged s) (Z.to_nat (n / BS)))).
  { destruct Hr. split; try done. cbn. rewrite Z2Nat.id by (apply Z.div_pos; [apply Hn|block_lia]).
    pose proof (Z.div_mod n BS ltac:(done)). lia. }
  cbn [signals answers_of m_active set_config]. destruct (m_active m); [|done]. unfold call. cbn [m_world set_config].
  pose proof (trigger_config_dma (m_world m)) as Htr. destruct (trigger_config (m_world m)) as [ok w]; cbn [fst snd] in *.
  split; [by destruct ok|]. by apply rel_world.
Qed.

Lemma for_plugged_ext {E} (f g : Z -> M (Mem W) E unit) c k l m :
  (forall a m, f a m = g a m) -> for_plugged f c k l m = for_plugged g c k l m.
Proof.
  intros Hfg. revert k m. induction l as [|b l IH]; intros k m; [done|]. cbn [for_plugged]. unfold bind.
  destruct b; [rewrite Hfg|]; cbn; [destruct (g _ m) as [[]]; done|done].
Qed.

(** Every plugged block is mapped by a new handler. *)
Lemma map_plugged_run {E} h (e : E) blocks c V (m : Mem W) :
  mem_addr c = base -> block_size c = BS -> (length blocks <= total)%nat -> V h = ∅ -> views (m_world m) V ->
  exists w, for_plugged (fun gpa => call (dma_map h gpa gpa BS) e) c 0 blocks m = (Done tt, set_world w m) /\
    views w (upd V h (plugged blocks)).
Proof.
  intros Ha Hb Hlen HV Hv.
  destruct (for_plugged_run (fun gpa => call (dma_map h gpa gpa BS) e) c
    (fun d m' => exists w, m' = set_world w m /\ views w (upd V h d)) 0 blocks ∅ m) as (m' & Hrun & w & -> & Hw); try done.
  - intros i d m' (w & -> & Hw) Hi Hni. pose proof (Hw h) as Hview. unfold upd in Hview. rewrite decide_True in Hview by done.
    destruct (view_map h w d i Hview) as (w' & Hrun & Hview' & Hoth); [|done|].
    { apply plugged_length in Hi. lia. }
    exists (set_world w' m). split; [exact (call_ok _ e (set_world w m) w' Hrun)|]. exists w'. split; [done|].
    eapply views_ext; [|by eapply views_upd]. intros h'. unfold upd. by case_decide.
  - exists (m_world m). rewrite set_world_id. split; [done|]. eapply views_ext; [|exact Hv].
    intros h'. unfold upd. case_decide as Hd; [by subst|done].
  - exists w. split; [done|]. eapply views_ext; [|exact Hw]. intros h'. unfold upd. case_decide; [|done].
    unfold plugged. set_solver.
Qed.

Lemma handler_add_refines m s source h : rel m s -> bt_get (source_key source) (m_handlers m) = None -> h ∉ (m_handlers m).*2 ->
  exists m', add_dma_mapping_handler source h m = (Done tt, m') /\ rel m' s.
Proof.
  intros Hr Hkey Hnew. pose proof (mr_blocks _ _ _ _ Hr) as Hbl. pose proof (mr_length _ _ _ _ Hr) as Hlen.
  set (V := fun h => if decide (h ∈ (m_handlers m).*2) then sp_plugged s else ∅).
  assert (HVh : V h = ∅) by (unfold V; by rewrite decide_False).
  destruct (when_plugged (for_plugged (fun gpa => call (dma_map h gpa gpa BS) DmaMap) (m_config m) 0 (m_blocks m))
    m s m (upd V h (plugged (m_blocks m))) Hr) as (w & Hrun & Hw).
  { apply map_plugged_run; try apply Hr; [lia|done]. }
  { intros Hemp. eapply views_ext; [|apply Hr]. intros h'. unfold upd.
    destruct (decide (h' = h)) as [->|]; [|done]. rewrite Hbl, Hemp. by case_decide. }
  unfold add_dma_mapping_handler. rewrite bind_get, (mr_block_size _ _ _ _ Hr).
  rewrite (bind_done _ _ _ _ _ Hrun). eexists. split; [reflexivity|].
  pose proof (bt_insert_perm (source_key source) h (m_handlers m) Hkey) as Hperm. apply (fmap_Permutation snd) in Hperm. cbn in Hperm.
  rewrite Hbl in Hw. destruct Hr. split; try done.
  - by apply bt_insert_ok.
  - cbn. rewrite Hperm. by apply NoDup_cons.
  - eapply views_ext; [|exact Hw]. intros h'. unfold upd, V. cbn [set_handlers m_handlers set_world].
    destruct (decide (h' = h)) as [->|Hne].
    + rewrite decide_True; [done|]. rewrite Hperm. by left.
    + apply decide_ext. rewrite Hperm, elem_of_cons. naive_solver.
Qed.

Lemma handler_remove_refines m s source : rel m s -> is_Some (bt_get (source_key source) (m_handlers m)) ->
  exists m', remove_dma_mapping_handler source m = (Done tt, m') /\ rel m' s.
Proof.
  intros Hr [h Hh]. pose proof (mr_blocks _ _ _ _ Hr) as Hbl. pose proof (mr_length _ _ _ _ Hr) as Hlen.
  pose proof (bt_remove_perm (source_key source) h (m_handlers m) Hh) as Hperm. apply (fmap_Permutation snd) in Hperm. cbn in Hperm.
  set (V := fun h => if decide (h ∈ (m_handlers m).*2) then sp_plugged s else ∅).
  assert (HVh : V h = sp_plugged s) by (unfold V; rewrite decide_True; [done|]; rewrite Hperm; by left).
  set (m1 := set_handlers (bt_remove (source_key source) (m_handlers m)) m).
  destruct (when_plugged (for_plugged (fun gpa => call (dma_unmap h gpa BS) DmaUnmap) (m_config m) 0 (m_blocks m))
    m s m1 (on_handlers [h] (fun _ => ∅) V) Hr) as (w & Hrun & Hw).
  { destruct (unmap_plugged_run [(0, h)] DmaUnmap (m_blocks m) (m_config m) V m1) as (w & Hrun & Hw);
      try apply Hr; [lia|apply NoDup_singleton| |].
    { intros h' ->%list_elem_of_singleton. by rewrite Hbl. }
    exists w. split; [|done]. rewrite <- Hrun. apply for_plugged_ext. intros a m'. cbn [unmap_handlers]. unfold bind.
    by destruct (call _ _ _) as [[[]|?|]]. }
  { intros Hemp. eapply views_ext; [|apply Hr]. intros h'. unfold on_handlers.
    destruct (decide (h' ∈ [h])) as [->%list_elem_of_singleton|]; [|done]. rewrite Hemp. by case_decide. }
  unfold remove_dma_mapping_handler. rewrite bind_get, Hh, bind_modify, (mr_block_size _ _ _ _ Hr).
  fold m1. eexists. split; [exact Hrun|].
  pose proof (mr_distinct _ _ _ _ Hr) as Hnd. rewrite Hperm in Hnd. apply NoDup_cons in Hnd as [Hni Hnd].
  destruct Hr. split; try done.
  - by apply bt_remove_ok.
  - eapply views_ext; [|exact Hw]. intros h'. unfold on_handlers, V. cbn [m1 set_handlers m_handlers set_world].
    destruct (decide (h' ∈ [h])) as [Hd|Hne]; [apply list_elem_of_singleton in Hd as ->; by rewrite decide_False|].
    apply decide_ext. rewrite Hperm, elem_of_cons. set_solver.
Qed.

Lemma request_refines m s r : rel m s -> in_width 64 (req_addr r) -> in_width 16 (req_nb_blocks r) ->
  let '(o, m') := handle_request r m in
  let '(r', s') := spec_request base total (answers_of m) r s in
  reply_agrees (reply_of (fun p => Replied p.1 p.2) o) r' /\ rel m' s'.
Proof.
  intros Hr Ha Hn. unfold handle_request, spec_request.
  assert (Hlift : forall (c : M (Mem W) MemError Z) q,
    (let '(o, m') := c m in let '(r', s') := q in reply_of (fun p => Replied p 0) o = r' /\ rel m' s') ->
    let '(o, m') := (let* resp := c in ret (resp, 0)) m in
    let '(r', s') := q in reply_agrees (reply_of (fun p => Replied p.1 p.2) o) r' /\ rel m' s').
  { intros c [r' s']. unfold bind. destruct (c m) as [[]]; cbn; intros [<- ?]; done. }
  case_decide; [by apply (Hlift _ (spec_plug _ _ _ _ _)), plug_refines|].
  case_decide; [by apply (Hlift _ (spec_unplug _ _ _ _ _ _)), unplug_refines|].
  case_decide; [by apply (Hlift _ (spec_unplug_all _ _ _)), unplug_all_refines|].
  case_decide; [|done]. rewrite bind_get. cbn. split; [|done]. by apply state_refines.
Qed.

Lemma mem_exec_refines m s op : rel m s -> op_ok op m ->
  let '(r, m') := mem_exec op m in
  let '(r', s') := spec_exec base total (answers_of m) op s in reply_agrees r r' /\ rel m' s'.
Proof.
  intros Hr Hop. destruct op as [r|n|source h|source]; cbn [mem_exec spec_exec op_ok] in *.
  - destruct Hop as [Ha Hn]. pose proof (request_refines m s r Hr Ha Hn) as Hreq.
    destruct (handle_request r m) as [o m']. by destruct (spec_request _ _ _ _ _) as [r' s'].
  - pose proof (resize_refines m s n Hr Hop) as Hres. destruct (mem_resize n m) as [o m'].
    destruct (spec_resize _ _ _ _) as [r' s']. destruct Hres as [<- ?]. split; [|done]. by destruct o.
  - destruct Hop as [Hk Hh]. by destruct (handler_add_refines m s source h Hr Hk Hh) as (m' & -> & ?).
  - by destruct (handler_remove_refines m s source Hr Hop) as (m' & -> & ?).
Qed.

Lemma run_refines ops m s : rel m s -> ops_ok ops m ->
  exists s', spec_accepts base total (mem_run ops m).1 s s' /\ rel (mem_run ops m).2 s'.
Proof.
  revert m s. induction ops as [|op ops IH]; intros m s Hr Hops; [by exists s|].
  destruct Hops as [Hop Hops]. pose proof (mem_exec_refines m s op Hr Hop) as Hex. cbn [mem_run].
  destruct (mem_exec op m) as [r m1] eqn:Hrun. cbn [snd] in Hops.
  destruct (spec_exec base total (answers_of m) op s) as [r' s1] eqn:Hspec. destruct Hex as [Hag Hr1].
  destruct (IH m1 s1 Hr1 Hops) as (s' & Hacc & Hr'). destruct (mem_run ops m1) as [l m2]. exists s'.
  cbn [fst snd spec_accepts] in *. rewrite Hspec. done.
Qed.

(** ** A new device *)
Lemma new_rel id ptr fd numa n hp w m : 0 <= n ->
  mem_new id (mkRegion base (Z.of_nat total * BS) ptr fd) numa n hp (blocks_new (Z.of_nat total * BS)) None w = Ok m ->
  views w (fun _ => ∅) -> rel m (mkSpec ∅ (Z.to_nat (n / BS))).
Proof.
  intros Hn Hnew Hv. unfold mem_new, new_config in Hnew. cbn [region_len start_addr] in Hnew. case_decide; [done|].
  set (c0 := mkMemConfig BS 0 base (Z.of_nat total * BS) (Z.of_nat total * BS) 0 0) in *.
  assert (Hbl : plugged (blocks_new (Z.of_nat total * BS)) = ∅).
  { apply set_eq. intros i. rewrite elem_of_plugged. unfold blocks_new. rewrite lookup_replicate. split; [by intros []|set_solver]. }
  assert (Hsize : (if decide (n <> 0) then config_resize n c0 else Ok c0) = Ok (set_requested n c0) /\ n mod BS = 0 \/
    exists e, (if decide (n <> 0) then config_resize n c0 else Ok c0) = Err e).
  { case_decide as Hz; [|left; replace n with 0 by lia; done]. unfold config_resize.
    case_decide; [right; eauto|]. case_decide; [right; eauto|]. case_decide as H4; [right; eauto|].
    left. split; [done|]. exact H4. }
  destruct Hsize as [[Hs Hmod]|[e Hs]]; rewrite Hs in Hnew; [|done].
  assert (Hreq : n = Z.of_nat (Z.to_nat (n / BS)) * BS).
  { rewrite Z2Nat.id by (apply Z.div_pos; block_lia). pose proof (Z.div_mod n BS ltac:(done)). lia. }
  assert (Hrel : forall c avail node, c = set_requested n c0 \/ c = set_node_id node (set_requested n c0) ->
    rel (mkMem avail 0 id ptr fd c hp [] (blocks_new (Z.of_nat total * BS)) false w) (mkSpec ∅ (Z.to_nat (n / BS)))).
  { intros c avail node Hc. split; cbn; try (by destruct Hc as [-> | ->]).
    - unfold blocks_new. rewrite length_replicate, Z.div_mul by done. apply Nat2Z.id.
    - apply bt_ok_nil.
    - apply NoDup_nil_2. }
  destruct numa as [node|]; destruct (mem_validate _); simplify_eq; [by eapply (Hrel _ _ node); right|by eapply (Hrel _ _ 0); left].
Qed.

(** A device that is restored from the state of another has its blocks; no handler
    knows it yet. *)
Lemma restored_rel id region numa n hp blocks w m m' s : rel m s ->
  mem_new id region numa n hp blocks (Some (mem_state m)) w = Ok m' -> views w (fun _ => ∅) -> rel m' s.
Proof.
  intros Hr Hnew Hv. unfold mem_new in Hnew. case_decide; simplify_eq. destruct Hr. split; try done.
  - apply bt_ok_nil.
  - apply NoDup_nil_2.
Qed.

(** ** The queue

    Every request that is read from the queue has fields of their widths, so the
    requests of a run of the queue are operations of the specification, whatever
    the chains and however the run ends. *)
Lemma parse_widths chain m r m' : parse_request chain m = (Done r, m') ->
  in_width 64 (req_addr (req r)) /\ in_width 16 (req_nb_blocks (req r)).
Proof.
  unfold parse_request. rewrite bind_get. destruct chain as [|desc chain]; [done|].
  destruct (d_write_only desc); [done|]. case_decide; [done|].
  destruct (read_obj (d_addr desc) REQ_SIZE (m_world m)) as [data|] eqn:Hread; [|done].
  destruct chain as [|status chain]; [done|]. destruct (d_write_only status); [|done]. cbn [negb].
  case_decide; [done|]. intros [= <- <-]. apply read_obj_bytes in Hread as [Hlen Hbytes]. cbn.
  assert (Hfield : forall n k, (n + k <= 24)%nat -> in_width (8 * Z.of_nat n) (le_value (take n (drop k data)))).
  { intros n k Hnk. replace n with (length (take n (drop k data))) at 1.
    - by apply le_value_width, Forall_take, Forall_drop.
    - rewrite length_take, length_drop, Hlen. unfold REQ_SIZE. lia. }
  split; [apply (Hfield 8%nat 8%nat)|apply (Hfield 2%nat 16%nat)]; lia.
Qed.

Lemma parse_keeps chain (m : Mem W) : (parse_request chain m).2 = m.
Proof.
  unfold parse_request. rewrite bind_get. destruct chain as [|desc chain]; [done|].
  destruct (d_write_only desc); [done|]. case_decide; [done|]. destruct (read_obj _ _ _); [|done].
  destruct chain as [|status chain]; [done|]. destruct (d_write_only status); [|done]. by case_decide.
Qed.

Lemma call_rel {E} f (e : E) m s : rel m s -> (forall h, dma_entries h (f (m_world m)).2 = dma_entries h (m_world m)) ->
  rel (call f e m).2 s.
Proof. intros Hr Hf. unfold call. destruct (f (m_world m)) as [ok w]. by apply rel_world. Qed.

Definition requests (l : list (mem_op * answers * mem_reply)) : Prop := Forall (fun e => exists r, e.1.1 = OpRequest r) l.

Lemma queue_refines fuel used m s : rel m s ->
  exists l s', requests l /\ spec_accepts base total l s s' /\ rel (process_chains fuel used m).2 s'.
Proof.
  assert (Hnil : requests []) by constructor.
  revert used m s. induction fuel as [|fuel IH]; intros used m s Hr; [by exists [], s|].
  cbn [process_chains]. unfold bind at 1, pop_chain. pose proof (pop_dma (m_world m)) as Hpop.
  destruct (pop_descriptor_chain (m_world m)) as [c w1]; cbn [snd] in Hpop.
  pose proof (rel_world m s w1 Hr Hpop) as Hr1. destruct c as [[head chain]|]; [|by exists [], s].
  unfold bind at 1. pose proof (parse_keeps chain (set_world w1 m)) as Hkeep.
  destruct (parse_request chain (set_world w1 m)) as [[r|e|] m2] eqn:Hparse; cbn [snd] in Hkeep; subst m2; [|by exists [], s..].
  destruct (parse_widths _ _ _ _ Hparse) as [Ha Hn]. pose proof (request_refines _ s (req r) Hr1 Ha Hn) as Hreq.
  unfold bind at 1. destruct (handle_request (req r) (set_world w1 m)) as [o m3].
  destruct (spec_request base total _ (req r) s) as [r' s1] eqn:Hspec. destruct Hreq as [Hag Hr3].
  set (e1 := (OpRequest (req r), answers_of (set_world w1 m), reply_of (fun p : Z * Z => Replied p.1 p.2) o)).
  assert (Hcons : forall l m' s', requests l -> spec_accepts base total l s1 s' -> rel m' s' ->
    exists l s', requests l /\ spec_accepts base total l s s' /\ rel m' s').
  { intros l m' s' Hl Hacc Hr'. exists (e1 :: l), s'. split; [constructor; [by eexists|done]|]. split; [|done].
    cbn [spec_accepts e1 spec_exec]. by rewrite Hspec. }
  destruct o as [resp|e|]; [|by apply (Hcons [] _ s1)..].
  unfold bind at 1, send_response, bind at 1.
  pose proof (call_rel (write_obj (resp_bytes resp.1 resp.2) (status_addr r)) GuestMemory m3 s1 Hr3 (write_obj_dma _ _ _)) as Hr4.
  destruct (call (write_obj _ _) GuestMemory m3) as [[[]|e|] m4]; cbn [snd] in Hr4; [|by apply (Hcons [] _ s1)..].
  cbn [ret]. unfold bind.
  pose proof (call_rel (add_used head (Z.of_nat RESP_SIZE)) QueueAddUsed m4 s1 Hr4 (add_used_dma _ _ _)) as Hr5.
  destruct (call (add_used _ _) QueueAddUsed m4) as [[[]|e|] m5]; cbn [snd] in Hr5; [|by apply (Hcons [] _ s1)..].
  destruct (IH true m5 s1 Hr5) as (l & s' & Hl & Hacc & Hr'). by apply (Hcons l _ s').
Qed.
End proofs.


(** ** Example: a host that grants everything *)
#[local] Instance map_host : MemHost (gmap nat (gmap Z (Z * Z))) := {|
  fallocate64 _ _ _ w := (true, w);
  madvise _ _ w := (true, w);
  dma_map h iova gpa n w := (true, <[h := <[iova := (gpa, n)]> (default ∅ (w !! h))]> w);
  dma_unmap h iova n w := (true, <[h := filter (fun e => ~ (iova <= e.1 < iova + n)) (default ∅ (w !! h))]> w);
  trigger_config w := (true, w);
  read_obj _ _ _ := None;
  write_obj _ _ w := (true, w);
  pop_descriptor_chain w := (None, w);
  add_used _ _ w := (true, w);
|}.
#[local] Instance map_host_laws : MemHostLaws (gmap nat (gmap Z (Z * Z))).
Proof.
  apply (Build_MemHostLaws _ _ (fun h w => default ∅ (w !! h))); try done.
  - intros h iova gpa n w _ _. eexists. split; [reflexivity|]. rewrite lookup_insert_eq. split; [done|].
    intros h' Hne. by rewrite lookup_insert_ne.
  - intros h iova n w _ _. eexists. split; [reflexivity|]. rewrite lookup_insert_eq. split; [done|].
    intros h' Hne. by rewrite lookup_insert_ne.
Defined.

Definition example_mem : Mem (gmap nat (gmap Z (Z * Z))) :=
  mkMem (2 ^ 32) 0 "mem0"%string 0 None (mkMemConfig BS 0 (2 ^ 32) (64 * BS) (64 * BS) 0 (8 * BS)) false [] (replicate 64 false) false ∅.
Definition example_ops : list mem_op :=
  [OpAdd Container 3; OpRequest (mkMemReq VIRTIO_MEM_REQ_PLUG (2 ^ 32 + BS) 4);
   OpRequest (mkMemReq VIRTIO_MEM_REQ_UNPLUG (2 ^ 32 + 2 * BS) 1); OpAdd (Device 7) 5;
   OpRequest (mkMemReq VIRTIO_MEM_REQ_STATE (2 ^ 32) 8); OpResize (2 * BS);
   OpRequest (mkMemReq VIRTIO_MEM_REQ_PLUG (2 ^ 32) 1); OpRemove Container].


(** ** Cases outside the theorem

    The last block of the region is in the region, and no request can plug it. *)
Lemma last_block_refused :
  (handle_request (mkMemReq VIRTIO_MEM_REQ_PLUG (2 ^ 32 + 63 * BS) 1) example_mem).1 = Done (VIRTIO_MEM_RESP_ERROR, 0) /\
  length (m_blocks example_mem) = 64%nat.
Proof. by vm_compute. Qed.

(** In a region of 65536 blocks the count of the blocks is 0 in 16 bits: a request
    to unplug all is acknowledged, the configuration says that nothing is plugged,
    and every block that was plugged still is. *)
Lemma unplug_all_keeps_large_region {W} `{MemHost W} (m : Mem W) :
  block_size (m_config m) = BS -> region_size (m_config m) = 65536 * BS -> m_handlers m = [] ->
  discards (answers_of m) 0 (65536 * BS) = true ->
  exists m', unplug_all (E := MemError) m = (Done VIRTIO_MEM_RESP_ACK, m') /\
    m_blocks m' = m_blocks m /\ plugged_size (m_config m') = 0.
Proof.
  intros Hb Hs Hh Hd. unfold unplug_all, returned, unplug_all_body. rewrite bind_get, Hb, Hs, Hh.
  cbn [discards answers_of] in Hd. unfold map_err at 1. unfold bind at 1.
  assert (Hdis : exists w, discard_memory_range 0 (65536 * BS) m = (Done tt, set_world w m)).
  { revert Hd. unfold discard_memory_range. rewrite bind_get. unfold bind, call, ret.
    destruct (m_host_fd m) as [fd|]; cbn; [destruct (fallocate64 _ _ _ _) as [[] w1]; cbn; [|done]|];
      (destruct (m_hugepages m); [intros _|destruct (madvise _ _ _) as [[] w2]; cbn; [|done]; intros _; by exists w2]).
    - by exists w1.
    - exists (m_world m). by rewrite set_world_id. }
  destruct Hdis as [w ->].
  assert (Hloop : forall idx l, for_plugged (fun gpa => unmap_handlers [] gpa BS VIRTIO_MEM_RESP_ERROR) (m_config m) idx l
    (set_world w m) = (Done tt, set_world w m)).
  { intros idx l. revert idx. induction l as [|[] l IH]; intros idx; [done|apply IH..]. }
  erewrite bind_done by (case_decide; [apply Hloop|reflexivity]). rewrite !bind_modify. eexists. split; [done|].
  split; [|done]. cbn. unfold set_range. rewrite Z.div_mul by done. change (wrap 16 65536) with 0.
  unfold skip. case_decide; cbn; [by rewrite app_nil_r, Nat.sub_0_r, firstn_all|].
  rewrite drop_0, Nat.sub_diag. done.
Qed.

(** A host whose handlers fail, and whose interrupt fails. *)
Definition failing_host : MemHost unit := {|
  fallocate64 _ _ _ w := (true, w);
  madvise _ _ w := (true, w);
  dma_map _ _ _ _ w := (false, w);
  dma_unmap _ _ _ w := (true, w);
  trigger_config w := (false, w);
  read_obj _ _ _ := None;
  write_obj _ _ w := (true, w);
  pop_descriptor_chain w := (None, w);
  add_used _ _ w := (true, w);
|}.
#[local] Existing Instance failing_host.

Definition failing_mem : Mem unit :=
  mkMem (2 ^ 32) 0 "mem0"%string 0 None (mkMemConfig BS 0 (2 ^ 32) (64 * BS) (64 * BS) 0 (8 * BS)) false [(0, 3%nat)]
    (replicate 64 false) true tt.

(** When a handler cannot map, the request fails and the blocks stay plugged
    without being counted; unplugging them then takes the count below zero. *)
Lemma failed_mapping_miscounts :
  let '(r1, m1) := state_change_request (E := MemError) (2 ^ 32) 1 true failing_mem in
  let '(r2, m2) := state_change_request (E := MemError) (2 ^ 32) 1 false m1 in
  r1 = Done VIRTIO_MEM_RESP_ERROR /\ m_blocks m1 !! 0%nat = Some true /\ plugged_size (m_config m1) = 0 /\
  r2 = Done VIRTIO_MEM_RESP_ACK /\ plugged_size (m_config m2) = 2 ^ 64 - BS.
Proof. by vm_compute. Qed.

(** When the guest cannot be told of a new size, the resize fails with the new size
    in place, and is refused when it is repeated. *)
Lemma unsignalled_resize_stays :
  let '(r1, m1) := mem_resize (4 * BS) failing_mem in
  r1 = Fail ResizeError /\ requested_size (m_config m1) = 4 * BS /\
  (mem_resize (4 * BS) m1).1 = Fail ResizeError /\ config_resize (4 * BS) (m_config m1) = Err ResizeError.
Proof. by vm_compute. Qed.
