(* ===== verification/MemoryRanges.v ===== *)
(** Tables of memory ranges (hypervisor/vm-migration/src/protocol.rs) from bitmaps,
    and the ranges of the plugged or unplugged blocks of virtio-mem. *)
From stdpp Require Import base numbers list sorting sets.
From S2P Require Import Prelude Bytes Virtqueue BTree VirtioMem.
#[local] Open Scope Z_scope.

Record MemoryRange := mkMemoryRange { range_gpa : Z; range_length : Z }.

Section from_bitmap.
Context (start_addr page_size : Z).

(** One page of the loop: the table, and the range that is being extended. *)
Definition page_step (page : Z) (is_page_dirty : bool) (st : list MemoryRange * option MemoryRange) :
    list MemoryRange * option MemoryRange :=
  let '(table, entry) := st in
  let page_offset := wmul 64 page page_size in
  if is_page_dirty then
    match entry with
    | Some e => (table, Some (mkMemoryRange (range_gpa e) (wadd 64 (range_length e) page_size)))
    | None => (table, Some (mkMemoryRange (wadd 64 start_addr page_offset) page_size))
    end
  else match entry with
  | Some e => (table ++ [e], None)
  | None => (table, None)
  end.

Fixpoint word_pages (i : nat) (js : list nat) (block : Z) (st : list MemoryRange * option MemoryRange) :
    list MemoryRange * option MemoryRange :=
  match js with
  | [] => st
  | j :: js =>
    let is_page_dirty := bool_decide (Z.land (Z.shiftr block (Z.of_nat j)) 1 <> 0) in
    word_pages i js block (page_step (Z.of_nat (i * 64 + j)) is_page_dirty st)
  end.

Fixpoint bitmap_pages (i : nat) (bitmap : list Z) (st : list MemoryRange * option MemoryRange) :
    list MemoryRange * option MemoryRange :=
  match bitmap with
  | [] => st
  | block :: rest => bitmap_pages (S i) rest (word_pages i (seq 0 64) block st)
  end.

Definition from_bitmap (bitmap : list Z) : list MemoryRange :=
  match bitmap_pages 0 bitmap ([], None) with
  | (table, Some e) => table ++ [e]
  | (table, None) => table
  end.
End from_bitmap.

(** ** The blocks of virtio-mem

    The loop of [memory_ranges] that packs the states of the blocks in words;
    [i] is the last word. *)
Fixpoint pack_bits (plugged : bool) (j : nat) (bits : list bool) (i : nat) (words : list Z) : list Z :=
  match bits with
  | [] => words
  | bit :: rest =>
    let '(i, words) :=
      if decide (j mod 64 = 0)%nat then (if decide (j <> 0)%nat then S i else i, words ++ [0]) else (i, words) in
    let words := if eqb bit plugged then alter (fun w => Z.lor w (Z.shiftl 1 (Z.of_nat (j mod 64)))) i words else words in
    pack_bits plugged (S j) rest i words
  end.

Definition memory_ranges (start_addr : Z) (plugged : bool) (bitmap : list bool) : list MemoryRange :=
  from_bitmap start_addr VIRTIO_MEM_DEFAULT_BLOCK_SIZE (pack_bits plugged 0 bitmap 0 []).

(** [VirtioMemZone::plugged_ranges] *)
Definition plugged_ranges (region : GuestRegion) (bitmap : list bool) : list MemoryRange :=
  memory_ranges (start_addr region) true bitmap.

Section activate.
Context {W : Type} `{MemHost W}.

(** The part of [activate] that discards the memory that is not plugged. *)
Fixpoint discard_ranges (regions : list MemoryRange) : M (Mem W) MemError unit :=
  match regions with
  | [] => ret tt
  | range :: rest => discard_memory_range (range_gpa range) (range_length range) ;;; discard_ranges rest
  end.
Definition discard_unplugged : M (Mem W) MemError unit :=
  let* m := get in discard_ranges (memory_ranges 0 false (m_blocks m)).
End activate.

(** ** What the loop has seen

    After [k] pages of which those with [D] are dirty, the table and the open range
    are the runs of dirty pages, in order and with a gap between any two. *)
Section scanned.
Context (start_addr page_size : Z) (D : nat -> Prop).

Definition run_range (r : nat * nat) : MemoryRange :=
  mkMemoryRange (start_addr + Z.of_nat r.1 * page_size) (Z.of_nat r.2 * page_size).
Definition apart (r r' : nat * nat) : Prop := (r.1 + r.2 < r'.1)%nat.

Record runs_ok (k : nat) (runs : list (nat * nat)) : Prop := {
  ro_sorted : StronglySorted apart runs;
  ro_bounds : Forall (fun r => 0 < r.2 /\ r.1 + r.2 <= k)%nat runs;
  ro_cover p : (p < k)%nat -> D p <-> exists r, r ∈ runs /\ (r.1 <= p < r.1 + r.2)%nat;
}.

Definition scanned (k : nat) (st : list MemoryRange * option MemoryRange) : Prop :=
  exists runs,
    match st.2 with
    | None => st.1 = run_range <$> runs /\ runs_ok k runs /\ Forall (fun r => r.1 + r.2 < k)%nat runs
    | Some e => exists f c, st.1 = run_range <$> runs /\ e = run_range (f, c) /\ (f + c = k)%nat /\ runs_ok k (runs ++ [(f, c)])
    end.

(** The ranges of the dirty pages do not wrap. *)
Context (Hpages : 0 <= start_addr /\ 0 < page_size) (Hfit : forall p, D p -> start_addr + (Z.of_nat p + 1) * page_size < 2 ^ 64).

Lemma runs_extend k f c runs : D k -> (f + c = k)%nat -> runs_ok k (runs ++ [(f, c)]) -> runs_ok (S k) (runs ++ [(f, S c)]).
Proof.
  intros Hk Hfc [Hs Hb Hc]. split.
  - apply StronglySorted_app in Hs as (Hx & Hs1 & _). apply StronglySorted_app. split_and!; [|done|repeat constructor].
    intros r r' Hr ->%list_elem_of_singleton. by apply (Hx r (f, c) Hr), list_elem_of_singleton.
  - apply Forall_app in Hb as [Hb Hl]. apply Forall_singleton in Hl. apply Forall_app. split.
    + eapply Forall_impl; [exact Hb|]. cbn. lia.
    + apply Forall_singleton. cbn in *. lia.
  - intros p Hp. destruct (decide (p = k)) as [->|Hne].
    + split; [|done]. intros _. exists (f, S c). split; [set_solver|]. cbn. lia.
    + rewrite Hc by lia. split; intros (r & Hr & Hin); (apply elem_of_app in Hr as [Hr|Hr]; [exists r; set_solver|]).
      * apply list_elem_of_singleton in Hr as ->. exists (f, S c). cbn in *. split; [set_solver|lia].
      * apply list_elem_of_singleton in Hr as ->. exists (f, c). cbn in *. split; [set_solver|lia].
Qed.

Lemma runs_clean k runs : ~ D k -> runs_ok k runs -> runs_ok (S k) runs.
Proof.
  intros Hk [Hs Hb Hc]. split; [done| |].
  - eapply Forall_impl; [exact Hb|]. cbn. lia.
  - intros p Hp. destruct (decide (p = k)) as [->|Hne]; [|apply Hc; lia]. split; [done|].
    intros (r & Hr & Hin). rewrite Forall_forall in Hb. specialize (Hb r Hr). cbn in Hb. lia.
Qed.

Lemma runs_new k runs : D k -> runs_ok k runs -> Forall (fun r => r.1 + r.2 < k)%nat runs -> runs_ok (S k) (runs ++ [(k, 1%nat)]).
Proof.
  intros Hk [Hs Hb Hc] Hlt. rewrite Forall_forall in Hlt. split.
  - apply StronglySorted_app. split_and!; [|done|repeat constructor].
    intros r r' Hr ->%list_elem_of_singleton. by apply Hlt.
  - apply Forall_app. split; [|apply Forall_singleton; cbn; lia]. eapply Forall_impl; [exact Hb|]. cbn. lia.
  - intros p Hp. destruct (decide (p = k)) as [->|Hne].
    + split; [|done]. intros _. exists (k, 1%nat). split; [set_solver|]. cbn. lia.
    + rewrite Hc by lia. split; intros (r & Hr & Hin); [exists r; set_solver|].
      apply elem_of_app in Hr as [Hr| ->%list_elem_of_singleton]; [by exists r|]. cbn in Hin. lia.
Qed.

Lemma scanned_step k dirty st : (dirty = true <-> D k) -> scanned k st ->
  scanned (S k) (page_step start_addr page_size (Z.of_nat k) dirty st).
Proof.
  intros Hdirty (runs & Hst). destruct st as [table [e|]]; cbn [fst snd] in Hst; unfold page_step.
  - destruct Hst as (f & c & -> & -> & Hfc & Hok). destruct dirty.
    + assert (Hk : D k) by (by apply Hdirty). exists runs, f, (S c). split_and!; [done| |lia|by apply (runs_extend k)].
      unfold run_range. cbn [fst snd range_gpa range_length]. f_equal. specialize (Hfit k Hk). rewrite wadd_small; [lia|]. split; nia.
    + exists (runs ++ [(f, c)]). cbn. split; [by rewrite fmap_app|]. pose proof (ro_bounds _ _ Hok) as Hb.
      split; [apply runs_clean; [by rewrite <- Hdirty|done]|]. eapply Forall_impl; [exact Hb|]. cbn. lia.
  - destruct Hst as (-> & Hok & Hlt). destruct dirty.
    + assert (Hk : D k) by (by apply Hdirty). exists runs, k, 1%nat. split_and!; [done| |lia|by apply runs_new].
      unfold run_range. cbn [fst snd]. specialize (Hfit k Hk).
      rewrite (wmul_small 64) by (split; nia). rewrite wadd_small by (split; nia). f_equal. lia.
    + exists runs. split; [done|]. split; [apply runs_clean; [by rewrite <- Hdirty|done]|].
      eapply Forall_impl; [exact Hlt|]. cbn. lia.
Qed.

Lemma dirty_testbit block j : bool_decide (Z.land (Z.shiftr block (Z.of_nat j)) 1 <> 0) = Z.testbit block (Z.of_nat j).
Proof.
  replace (Z.testbit block (Z.of_nat j)) with (Z.testbit (Z.shiftr block (Z.of_nat j)) 0)
    by (rewrite Z.shiftr_spec by lia; f_equal; lia).
  rewrite Z.bit0_odd. change 1 with (Z.ones 1). rewrite Z.land_ones, Zmod_odd by lia.
  by destruct (Z.odd _).
Qed.

Lemma scanned_word i j n block st :
  (forall j', (j <= j' < j + n)%nat -> Z.testbit block (Z.of_nat j') = true <-> D (i * 64 + j')%nat) ->
  scanned (i * 64 + j) st -> scanned (i * 64 + (j + n)) (word_pages start_addr page_size i (seq j n) block st).
Proof.
  revert j st. induction n as [|n IH]; intros j st Hbits Hst; [by rewrite Nat.add_0_r|]. cbn [seq word_pages].
  replace (i * 64 + (j + S n))%nat with (i * 64 + (S j + n))%nat by lia. apply IH.
  - intros j' Hj'. apply Hbits. lia.
  - rewrite dirty_testbit. replace (i * 64 + S j)%nat with (S (i * 64 + j)) by lia. apply scanned_step; [|done]. apply Hbits. lia.
Qed.

(** The bit of a page in the words of a bitmap. *)
Definition word_bit (words : list Z) (p : nat) : bool :=
  match words !! (p / 64)%nat with Some w => Z.testbit w (Z.of_nat (p mod 64)) | None => false end.

Lemma scanned_words i words st :
  (forall q j, (j < 64)%nat -> forall w, words !! q = Some w -> Z.testbit w (Z.of_nat j) = true <-> D ((i + q) * 64 + j)%nat) ->
  scanned (i * 64) st -> scanned ((i + length words) * 64) (bitmap_pages start_addr page_size i words st).
Proof.
  revert i st. induction words as [|w words IH]; intros i st Hbits Hst; [by rewrite Nat.add_0_r|].
  cbn [bitmap_pages length]. replace (i + S (length words))%nat with (S i + length words)%nat by lia. apply IH.
  - intros q j Hj w' Hq. rewrite (Hbits (S q) j Hj w' Hq). by replace (S i + q)%nat with (i + S q)%nat by lia.
  - replace (S i * 64)%nat with (i * 64 + (0 + 64))%nat by lia. apply scanned_word; [|by rewrite Nat.add_0_r].
    intros j Hj. rewrite (Hbits 0%nat j); [|lia|done]. by rewrite Nat.add_0_r.
Qed.
End scanned.

(** ** Tables *)
Definition in_ranges (a : Z) (table : list MemoryRange) : Prop :=
  exists r, r ∈ table /\ range_gpa r <= a < range_gpa r + range_length r.

(** In order, not empty, and with a gap between any two: no range can be merged
    with another. *)
Record table_ok (table : list MemoryRange) : Prop := {
  to_sorted : StronglySorted (fun r r' => range_gpa r + range_length r < range_gpa r') table;
  to_length : Forall (fun r => 0 < range_length r) table;
}.

Lemma word_bit_bound words p : word_bit words p = true -> (p < length words * 64)%nat.
Proof.
  unfold word_bit. destruct (words !! (p / 64)%nat) as [w|] eqn:Hw; [|done]. intros _.
  apply lookup_lt_Some in Hw. pose proof (Nat.div_mod p 64 ltac:(done)). pose proof (Nat.mod_upper_bound p 64 ltac:(done)). lia.
Qed.

Definition close_range (st : list MemoryRange * option MemoryRange) : list MemoryRange :=
  match st with (table, Some e) => table ++ [e] | (table, None) => table end.

Lemma runs_table start_addr page_size (D : nat -> Prop) k runs :
  0 < page_size -> (forall p, D p -> (p < k)%nat) -> runs_ok D k runs ->
  table_ok (run_range start_addr page_size <$> runs) /\
  forall a, in_ranges a (run_range start_addr page_size <$> runs) <->
    exists p, D p /\ start_addr + Z.of_nat p * page_size <= a < start_addr + (Z.of_nat p + 1) * page_size.
Proof.
  intros Hp HD [Hsort Hb Hc]. rewrite Forall_forall in Hb. split; [split|].
  - clear Hb Hc. induction Hsort as [|r runs Hsort IH Hall]; [constructor|]. cbn. constructor; [done|].
    rewrite Forall_fmap. eapply Forall_impl; [exact Hall|]. unfold apart, run_range. cbn. nia.
  - rewrite Forall_fmap, Forall_forall. intros r Hr. specialize (Hb r Hr). cbn in *. nia.
  - intros a. split.
    + intros (e & (r & -> & Hr)%list_elem_of_fmap & Ha). cbn in Ha. specialize (Hb r Hr). cbn in Hb.
      set (p := Z.to_nat ((a - start_addr) / page_size)).
      assert (Hdiv : Z.of_nat p * page_size <= a - start_addr < (Z.of_nat p + 1) * page_size).
      { unfold p. pose proof (Z.div_mod (a - start_addr) page_size). pose proof (Z.mod_pos_bound (a - start_addr) page_size).
        rewrite Z2Nat.id by (apply Z.div_pos; nia). nia. }
      exists p. split; [|lia]. apply Hc; [nia|]. exists r. split; [done|]. nia.
    + intros (p & Hbit & Ha). destruct (proj1 (Hc p (HD p Hbit)) Hbit) as (r & Hr & Hin).
      exists (run_range start_addr page_size r). split; [by apply list_elem_of_fmap_2|]. cbn. nia.
Qed.

(** What the loop leaves when it has seen every page. *)
Lemma scanned_table start_addr page_size (D : nat -> Prop) k st :
  0 < page_size -> (forall p, D p -> (p < k)%nat) -> scanned start_addr page_size D k st ->
  table_ok (close_range st) /\
  forall a, in_ranges a (close_range st) <->
    exists p, D p /\ start_addr + Z.of_nat p * page_size <= a < start_addr + (Z.of_nat p + 1) * page_size.
Proof.
  intros Hp HD (runs & Hst). unfold close_range. destruct st as [table [e|]]; cbn [fst snd] in Hst.
  - destruct Hst as (f & c & -> & -> & _ & Hok). replace (_ ++ _) with (run_range start_addr page_size <$> (runs ++ [(f, c)])) by (by rewrite fmap_app).
    by apply (runs_table _ _ _ k).
  - destruct Hst as (-> & Hok & _). by apply (runs_table _ _ _ k).
Qed.

Lemma scanned_start start_addr page_size (D : nat -> Prop) : scanned start_addr page_size D 0 ([], None).
Proof. exists []. split; [done|]. split; [|constructor]. split; [constructor|constructor|]. intros p Hlt. lia. Qed.

Lemma from_bitmap_spec start_addr page_size words :
  0 <= start_addr -> 0 < page_size ->
  (forall p, word_bit words p = true -> start_addr + (Z.of_nat p + 1) * page_size < 2 ^ 64) ->
  table_ok (from_bitmap start_addr page_size words) /\
  forall a, in_ranges a (from_bitmap start_addr page_size words) <->
    exists p, word_bit words p = true /\ start_addr + Z.of_nat p * page_size <= a < start_addr + (Z.of_nat p + 1) * page_size.
Proof.
  intros Hs Hp Hfit. set (D := fun p => word_bit words p = true).
  apply (scanned_table start_addr page_size D (length words * 64) (bitmap_pages start_addr page_size 0 words ([], None)));
    [done|apply word_bit_bound|].
  apply (scanned_words start_addr page_size D (conj Hs Hp) Hfit 0); [|apply scanned_start].
  intros q j Hj w Hq. unfold D, word_bit. rewrite (Nat.add_comm _ j), Nat.div_add, Nat.div_small, Nat.add_0_l, Nat.add_0_l by lia.
  rewrite Hq, Nat.Div0.mod_add, Nat.mod_small by lia. done.
Qed.

(** The words hold the states of the blocks. *)
Lemma word_bit_snoc words p : word_bit (words ++ [0]) p = word_bit words p.
Proof.
  unfold word_bit. destruct (decide (p / 64 < length words)%nat) as [Hlt|Hge]; [by rewrite lookup_app_l|].
  rewrite lookup_app_r, (lookup_ge_None_2 words) by lia.
  destruct (p / 64 - length words)%nat; cbn; [apply Z.testbit_0_l|done].
Qed.

Lemma word_bit_alter words j p : (j / 64 < length words)%nat ->
  word_bit (alter (fun w => Z.lor w (Z.shiftl 1 (Z.of_nat (j mod 64)))) (j / 64)%nat words) p = bool_decide (p = j) || word_bit words p.
Proof.
  intros Hlt. unfold word_bit. pose proof (Nat.div_mod p 64 ltac:(done)). pose proof (Nat.div_mod j 64 ltac:(done)).
  destruct (decide (p / 64 = j / 64)%nat) as [Heq|Hne].
  - rewrite Heq, list_lookup_alter_eq. destruct (lookup_lt_is_Some_2 words (j / 64) Hlt) as [w ->]. cbn [fmap option_fmap option_map].
    rewrite Z.lor_spec, Z.shiftl_1_l, Z.pow2_bits_eqb, orb_comm by lia. f_equal.
    apply Bool.eq_iff_eq_true. rewrite Z.eqb_eq, bool_decide_eq_true. lia.
  - rewrite list_lookup_alter_ne by done. rewrite bool_decide_eq_false_2; [done|]. intros ->. done.
Qed.

Lemma div64_is a q : (64 * q <= a < 64 * q + 64)%nat -> (a / 64 = q)%nat.
Proof. intros Hq. symmetry. apply (Nat.div_unique a 64 q (a - 64 * q)); lia. Qed.

Lemma pack_bits_spec plugged pre bits i words :
  length words = ((length pre + 63) / 64)%nat -> i = ((length pre - 1) / 64)%nat ->
  (forall p, word_bit words p = true <-> pre !! p = Some plugged) ->
  forall p, word_bit (pack_bits plugged (length pre) bits i words) p = true <-> (pre ++ bits) !! p = Some plugged.
Proof.
  revert pre i words. induction bits as [|bit bits IH]; intros pre i words Hlen Hi Hpre p; [by rewrite app_nil_r|].
  cbn [pack_bits]. set (j := length pre) in *.
  assert (Hnorm : exists words1, (if decide (j mod 64 = 0)%nat then (if decide (j <> 0)%nat then S i else i, words ++ [0])
      else (i, words)) = ((j / 64)%nat, words1) /\ length words1 = S (j / 64) /\ forall p, word_bit words1 p = word_bit words p).
  { pose proof (Nat.div_mod j 64 ltac:(done)) as Hj. pose proof (Nat.mod_upper_bound j 64 ltac:(done)) as Hr.
    clearbody j. set (q := (j / 64)%nat) in *. set (r := (j mod 64)%nat) in *. clearbody q r. case_decide as Hm.
    - rewrite (div64_is (j + 63) q) in Hlen by lia. exists (words ++ [0]). split; [|split; [rewrite length_app; cbn [length]; lia|apply word_bit_snoc]].
      f_equal. case_decide; [rewrite (div64_is (j - 1) (q - 1)) in Hi by lia; lia|].
      rewrite (div64_is (j - 1) 0) in Hi by lia. lia.
    - rewrite (div64_is (j + 63) (S q)) in Hlen by lia. rewrite (div64_is (j - 1) q) in Hi by lia.
      exists words. split; [by rewrite Hi|]. done. }
  destruct Hnorm as (words1 & -> & Hlen1 & Hsame).
  replace (S j) with (length (pre ++ [bit])) by (rewrite length_app; cbn; lia).
  replace (pre ++ bit :: bits) with ((pre ++ [bit]) ++ bits) by (by rewrite <- app_assoc). apply IH.
  - rewrite length_app. cbn [length]. fold j. replace (j + 1 + 63)%nat with (j + 1 * 64)%nat by lia.
    rewrite Nat.div_add by done. destruct (eqb bit plugged); [rewrite length_alter|]; lia.
  - rewrite length_app. cbn [length]. fold j. replace (j + 1 - 1)%nat with j by lia. done.
  - intros q. assert (Hq : (pre ++ [bit]) !! q = Some plugged <-> (q = j /\ bit = plugged) \/ pre !! q = Some plugged).
    { destruct (decide (q < j)%nat); [rewrite lookup_app_l by done; naive_solver lia|].
      rewrite lookup_app_r, (lookup_ge_None_2 pre) by lia. rewrite list_lookup_singleton_Some. unfold j in *. naive_solver lia. }
    rewrite Hq, <- Hpre, <- Hsame. destruct (eqb bit plugged) eqn:Hb.
    + apply eqb_prop in Hb. rewrite word_bit_alter by lia. rewrite orb_true_iff, bool_decide_eq_true. tauto.
    + apply eqb_false_iff in Hb. tauto.
Qed.

(** C28: The table of the plugged, or of the unplugged, blocks is exact.
    Its ranges cover the addresses of the blocks in the asked state and no others;
    they are in order, none is empty, and between any two there is a gap. *)
Theorem memory_ranges_exact start_addr plugged bitmap :
  0 <= start_addr -> start_addr + Z.of_nat (length bitmap) * VIRTIO_MEM_DEFAULT_BLOCK_SIZE < 2 ^ 64 ->
  let table := memory_ranges start_addr plugged bitmap in
  table_ok table /\
  forall a, in_ranges a table <-> exists j, bitmap !! j = Some plugged /\
    start_addr + Z.of_nat j * VIRTIO_MEM_DEFAULT_BLOCK_SIZE <= a < start_addr + (Z.of_nat j + 1) * VIRTIO_MEM_DEFAULT_BLOCK_SIZE.
Proof.
  intros Hs Hend. cbn zeta. unfold memory_ranges.
  assert (Hbits : forall p, word_bit (pack_bits plugged 0 bitmap 0 []) p = true <-> bitmap !! p = Some plugged).
  { apply (pack_bits_spec plugged [] bitmap 0 []); [done|done|]. intros p. unfold word_bit. by rewrite !lookup_nil. }
  destruct (from_bitmap_spec start_addr VIRTIO_MEM_DEFAULT_BLOCK_SIZE (pack_bits plugged 0 bitmap 0 [])) as [Hok Hin]; [done|done| |].
  { intros p Hp%Hbits%lookup_lt_Some. change VIRTIO_MEM_DEFAULT_BLOCK_SIZE with 2097152 in *. lia. }
  split; [done|]. intros a. rewrite Hin. by setoid_rewrite Hbits.
Qed.

Lemma memory_ranges_exact_witness :
  let table := memory_ranges 4294967296 true (replicate 62 false ++ [true; true; true; false; true]) in
  table = [mkMemoryRange 4424990720 6291456; mkMemoryRange 4433379328 2097152] /\
  table_ok table /\ (in_ranges 4431282175 table <-> exists j, (replicate 62 false ++ [true; true; true; false; true]) !! j = Some true /\
    4294967296 + Z.of_nat j * VIRTIO_MEM_DEFAULT_BLOCK_SIZE <= 4431282175 < 4294967296 + (Z.of_nat j + 1) * VIRTIO_MEM_DEFAULT_BLOCK_SIZE).
Proof.
  split; [by vm_compute|].
  destruct (memory_ranges_exact 4294967296 true (replicate 62 false ++ [true; true; true; false; true])) as [Hok Hin];
    [lia|by vm_compute|]. split; [exact Hok|apply Hin].
Defined.
