(* ===== verification/SnapshotPages.v ===== *)
(** The pages an incremental snapshot saves: anonymous pages
    (hypervisor/vmm/src/pagemap_anon.rs) and pages written since the last cycle
    (hypervisor/vmm/src/soft_dirty.rs), read from the kernel's page map, and their
    merging into ranges.

    The kernel is the class [ProcHost]: /proc/self/pagemap and /proc/kpageflags as
    arrays of 64-bit words, /proc/self/clear_refs, the scratch mapping of the probe,
    and the guest's memory. *)
From stdpp Require Import base numbers list sorting.
From S2P Require Import Prelude MemoryRanges.
#[local] Open Scope Z_scope.

(** [Result]s without state. *)
Definition and_then {E A B} (r : result E A) (f : A -> result E B) : result E B :=
  match r with Ok a => f a | Err e => Err e end.
Notation "'let?' x ':=' r 'in' k" := (and_then r (fun x => k))
  (at level 10, x pattern, r at level 100, k at level 200) : cube_scope.

Lemma and_then_ok {E A B} (r : result E A) (f : A -> result E B) b :
  and_then r f = Ok b -> exists a, r = Ok a /\ f a = Ok b.
Proof. destruct r; cbn; [eauto|done]. Qed.

(** ** The kernel *)
Inductive ProcFile := SelfPagemap | Kpageflags.
Inductive ProcAnswer := SeekError | ReadError | Words (words : list Z).
Inductive ClearAnswer := ClearOpenError | ClearWriteError | Cleared.

Class ProcHost (K : Type) := {
  (** [sysconf(_SC_PAGESIZE)] *)
  host_page_size : Z;
  (** [GuestMemory::get_host_address], and a byte of the guest's memory *)
  get_host_address : K -> Z -> option Z;
  guest_byte : K -> Z -> Z;
  (** [File::open], then [seek] to a byte offset and [read_exact] of some words *)
  proc_open : K -> ProcFile -> bool;
  proc_read : K -> ProcFile -> Z -> nat -> ProcAnswer;
  (** writing [4\n] to /proc/self/clear_refs *)
  clear_refs : K -> ClearAnswer * K;
  (** the scratch page of the probe: [from_ranges] with its host address, the write
      of a byte, and the [munmap] when it goes out of scope *)
  scratch_mmap : K -> option Z * K;
  scratch_write : Z -> K -> bool * K;
  scratch_munmap : Z -> K -> K;
}.

(** ** [coalesce_pages_to_ranges] *)
Record Coalesce := mkCoalesce {
  co_ranges : list MemoryRange;
  co_set_pages : Z;
  current_range_start : option Z;
  current_range_length : Z;
}.

Section coalesce.
Context (gpa page_size : Z).

Definition coalesce_page (page_idx : nat) (set : bool) (st : Coalesce) : Coalesce :=
  let '(mkCoalesce ranges set_pages start length) := st in
  let page_gpa := wadd 64 gpa (wmul 64 (Z.of_nat page_idx) page_size) in
  if set then
    match start with
    | None => mkCoalesce ranges (wadd 64 set_pages 1) (Some page_gpa) page_size
    | Some s => mkCoalesce ranges (wadd 64 set_pages 1) (Some s) (wadd 64 length page_size)
    end
  else match start with
  | Some s => mkCoalesce (ranges ++ [mkMemoryRange s length]) set_pages None 0
  | None => st
  end.

Fixpoint coalesce_loop (page_idx : nat) (bitmap : list bool) (st : Coalesce) : Coalesce :=
  match bitmap with
  | [] => st
  | set :: rest => coalesce_loop (S page_idx) rest (coalesce_page page_idx set st)
  end.

Definition coalesce_pages_to_ranges (bitmap : list bool) : list MemoryRange * Z :=
  let st := coalesce_loop 0 bitmap (mkCoalesce [] 0 None 0) in
  (match current_range_start st with
   | Some s => co_ranges st ++ [mkMemoryRange s (current_range_length st)]
   | None => co_ranges st
   end, co_set_pages st).
End coalesce.

(** ** Reading the page map *)
Definition PAGEMAP_ENTRY_SIZE : Z := 8.
Definition KPAGEFLAGS_ENTRY_SIZE : Z := 8.
Definition PAGEMAP_PRESENT_BIT : Z := Z.shiftl 1 63.
Definition PAGEMAP_SWAPPED_BIT : Z := Z.shiftl 1 62.
Definition PAGEMAP_SOFT_DIRTY_BIT : Z := Z.shiftl 1 55.
Definition PAGEMAP_PFN_MASK : Z := Z.shiftl 1 55 - 1.
Definition KPF_ANON : Z := Z.shiftl 1 12.

Definition flag (entry bit : Z) : bool := bool_decide (Z.land entry bit <> 0).

Inductive PagemapAnonError :=
| OpenFailed (path : ProcFile) | ReadFailed (path : ProcFile) | SeekFailed (path : ProcFile)
| GetHostAddressFailed | NotPageAligned | NoCapSysAdmin.

Inductive SoftDirtyError :=
| SdOpenFailed | SdReadFailed | SdSeekFailed | SdWriteFailed
| SdGetHostAddressFailed | SdNotPageAligned | AnonProbe (e : PagemapAnonError).

(** [u64::div_ceil] *)
Definition div_ceil (x y : Z) : Z := x / y + (if decide (x mod y = 0) then 0 else 1).

Section pages.
Context {K : Type} `{ProcHost K}.

(** The loop of [get_anon_pages], one entry of the page map at a time. *)
Definition anon_entry (k : K) (entry : Z) : result PagemapAnonError bool :=
  if flag entry PAGEMAP_SWAPPED_BIT then Ok true
  else if negb (flag entry PAGEMAP_PRESENT_BIT) then Ok false
  else
    let pfn := Z.land entry PAGEMAP_PFN_MASK in
    if decide (pfn = 0) then Err NoCapSysAdmin
    else match proc_read k Kpageflags (wmul 64 pfn KPAGEFLAGS_ENTRY_SIZE) 1 with
    | SeekError => Err (SeekFailed Kpageflags)
    | ReadError => Err (ReadFailed Kpageflags)
    | Words flags => Ok (flag (default 0 (head flags)) KPF_ANON)
    end.

Fixpoint anon_entries (k : K) (entries : list Z) : result PagemapAnonError (list bool) :=
  match entries with
  | [] => Ok []
  | entry :: rest => let? item := anon_entry k entry in let? items := anon_entries k rest in Ok (item :: items)
  end.

Definition get_anon_pages (k : K) (host_addr length : Z) : result PagemapAnonError (list bool) :=
  if decide (host_addr mod host_page_size <> 0) then Err NotPageAligned
  else
    let num_pages := Z.to_nat (div_ceil length host_page_size) in
    let start_page := host_addr / host_page_size in
    if negb (proc_open k SelfPagemap) then Err (OpenFailed SelfPagemap)
    else if negb (proc_open k Kpageflags) then Err (OpenFailed Kpageflags)
    else match proc_read k SelfPagemap (wmul 64 start_page PAGEMAP_ENTRY_SIZE) num_pages with
    | SeekError => Err (SeekFailed SelfPagemap)
    | ReadError => Err (ReadFailed SelfPagemap)
    | Words entries => anon_entries k entries
    end.

Definition dirty_entry (entry : Z) : bool :=
  if flag entry PAGEMAP_SWAPPED_BIT then true
  else flag entry PAGEMAP_PRESENT_BIT && flag entry PAGEMAP_SOFT_DIRTY_BIT.

Definition get_soft_dirty_pages (k : K) (host_addr length : Z) : result SoftDirtyError (list bool) :=
  if decide (host_addr mod host_page_size <> 0) then Err SdNotPageAligned
  else
    let num_pages := Z.to_nat (div_ceil length host_page_size) in
    let start_page := host_addr / host_page_size in
    if negb (proc_open k SelfPagemap) then Err SdOpenFailed
    else match proc_read k SelfPagemap (wmul 64 start_page PAGEMAP_ENTRY_SIZE) num_pages with
    | SeekError => Err SdSeekFailed
    | ReadError => Err SdReadFailed
    | Words entries => Ok (dirty_entry <$> entries)
    end.

(** ** Filtering the ranges

    The three filters are the same loop with different page bitmaps. *)
Record FilterStats := mkFilterStats { total_pages : Z; marked_pages : Z; total_bytes : Z; saved_bytes : Z }.

Section filter.
Context {E : Type} (no_host_address : E) (page_bitmap : Z -> Z -> result E (list bool)).

Fixpoint filter_loop (k : K) (ranges : list MemoryRange) (filtered : list MemoryRange) (stats : FilterStats) :
    result E (list MemoryRange * FilterStats) :=
  match ranges with
  | [] => Ok (filtered, stats)
  | range :: rest =>
    let gpa := range_gpa range in
    let length := range_length range in
    match get_host_address k gpa with
    | None => Err no_host_address
    | Some host_addr =>
      let? pages := page_bitmap host_addr length in
      let '(region_ranges, count) := coalesce_pages_to_ranges gpa host_page_size pages in
      filter_loop k rest (filtered ++ region_ranges)
        (mkFilterStats (wadd 64 (total_pages stats) (div_ceil length host_page_size)) (wadd 64 (marked_pages stats) count)
           (wadd 64 (total_bytes stats) length) (wadd 64 (saved_bytes stats) (wmul 64 count host_page_size)))
    end
  end.
End filter.

Definition no_stats : FilterStats := mkFilterStats 0 0 0 0.

(** [swapped_pages] of the statistics keeps its default. *)
Record PagemapAnonStats := mkPagemapAnonStats { anon_stats : FilterStats; swapped_pages : Z }.

Definition filter_memory_ranges_by_pagemap_anon (k : K) (ranges : list MemoryRange) :
    result PagemapAnonError (list MemoryRange * PagemapAnonStats) :=
  let? (filtered, stats) := filter_loop GetHostAddressFailed (get_anon_pages k) k ranges [] no_stats in
  Ok (filtered, mkPagemapAnonStats stats 0).

Definition filter_memory_ranges_by_soft_dirty (k : K) (ranges : list MemoryRange) :
    result SoftDirtyError (list MemoryRange * FilterStats) :=
  filter_loop SdGetHostAddressFailed (get_soft_dirty_pages k) k ranges [] no_stats.

(** The pages that are both anonymous and dirty; [zip] stops at the shorter list. *)
Definition anon_and_dirty_pages (k : K) (host_addr length : Z) : result SoftDirtyError (list bool) :=
  let? anon_pages := match get_anon_pages k host_addr length with Ok b => Ok b | Err e => Err (AnonProbe e) end in
  let? dirty_pages := get_soft_dirty_pages k host_addr length in
  Ok (zip_with andb anon_pages dirty_pages).

Definition filter_memory_ranges_by_anon_and_soft_dirty (k : K) (ranges : list MemoryRange) :
    result SoftDirtyError (list MemoryRange * FilterStats) :=
  filter_loop SdGetHostAddressFailed (anon_and_dirty_pages k) k ranges [] no_stats.

(** ** Arming the tracker *)
Definition clear_soft_dirty (k : K) : result SoftDirtyError unit * K :=
  match clear_refs k with
  | (ClearOpenError, k) => (Err SdOpenFailed, k)
  | (ClearWriteError, k) => (Err SdWriteFailed, k)
  | (Cleared, k) => (Ok tt, k)
  end.

Definition probe_soft_dirty_support (k : K) : bool * K :=
  match scratch_mmap k with
  | (None, k) => (false, k)
  | (Some host_addr, k) =>
    let '(written, k) := scratch_write host_addr k in
    let '(armed, k) :=
      if negb written then (false, k)
      else
        let bit55_set := match get_soft_dirty_pages k host_addr host_page_size with
          | Ok [bit] => bit
          | _ => false
          end in
        if negb bit55_set then (false, k)
        else let '(r, k) := clear_soft_dirty k in (is_ok r, k) in
    (armed, scratch_munmap host_addr k)
  end.
End pages.
