(* ===== verification/SnapshotPagesProofs.v ===== *)
(** The filters of an incremental snapshot: merging a page bitmap is exact, and every
    page that can have changed is kept. *)
From stdpp Require Import base numbers list sorting.
From S2P Require Import Prelude MemoryRanges SnapshotPages.
#[local] Open Scope Z_scope.

(** ** [coalesce_pages_to_ranges] takes the steps of [from_bitmap] *)
Section coalesce.
Context (gpa page_size : Z).

Definition coalesce_view (st : Coalesce) : list MemoryRange * option MemoryRange :=
  (co_ranges st, (fun s => mkMemoryRange s (current_range_length st)) <$> current_range_start st).

Lemma coalesce_page_step i set st :
  coalesce_view (coalesce_page gpa page_size i set st) = page_step gpa page_size (Z.of_nat i) set (coalesce_view st).
Proof. destruct st as [ranges n [s|] len], set; done. Qed.

Context (Hpages : 0 <= gpa /\ 0 < page_size).

Lemma scanned_coalesce (D : nat -> Prop) i bits st :
  (forall p, D p -> gpa + (Z.of_nat p + 1) * page_size < 2 ^ 64) ->
  (forall j b, bits !! j = Some b -> b = true <-> D (i + j)%nat) ->
  scanned gpa page_size D i (coalesce_view st) ->
  scanned gpa page_size D (i + length bits) (coalesce_view (coalesce_loop gpa page_size i bits st)).
Proof.
  intros Hfit. revert i st. induction bits as [|b bits IH]; intros i st Hbits Hst; [by rewrite Nat.add_0_r|].
  cbn [coalesce_loop length]. rewrite <- Nat.add_succ_comm. apply IH.
  - intros j b' Hj. rewrite (Hbits (S j) b' Hj). by rewrite Nat.add_succ_r.
  - rewrite coalesce_page_step. apply scanned_step; [done|done| |done].
    rewrite (Hbits 0%nat b eq_refl). by rewrite Nat.add_0_r.
Qed.

Lemma coalesce_spec bits :
  gpa + Z.of_nat (length bits) * page_size < 2 ^ 64 ->
  let table := (coalesce_pages_to_ranges gpa page_size bits).1 in
  table_ok table /\
  forall a, in_ranges a table <->
    exists p, bits !! p = Some true /\ gpa + Z.of_nat p * page_size <= a < gpa + (Z.of_nat p + 1) * page_size.
Proof.
  intros Hend. cbn zeta. set (D := fun p => bits !! p = Some true).
  assert (Hscan : scanned gpa page_size D (length bits) (coalesce_view (coalesce_loop gpa page_size 0 bits (mkCoalesce [] 0 None 0)))).
  { apply (scanned_coalesce D 0); [| |apply scanned_start].
    - intros p Hp%lookup_lt_Some. nia.
    - intros j b Hj. unfold D. rewrite Nat.add_0_l, Hj. naive_solver. }
  apply scanned_table in Hscan; [|lia|by intros p Hp%lookup_lt_Some].
  unfold coalesce_pages_to_ranges, close_range, coalesce_view in *.
  destruct (coalesce_loop _ _ _ _ _) as [ranges n [s|] len]; exact Hscan.
Qed.

(** The second result is the number of marked pages. *)
Definition marked (bits : list bool) : nat := length (filter (fun b => b = true) bits).

Lemma coalesce_loop_count i bits st :
  0 <= co_set_pages st -> co_set_pages st + Z.of_nat (length bits) < 2 ^ 64 ->
  co_set_pages (coalesce_loop gpa page_size i bits st) = co_set_pages st + Z.of_nat (marked bits).
Proof.
  revert i st. induction bits as [|b bits IH]; intros i st H0 Hlt; [cbn; lia|]. cbn [coalesce_loop length] in *.
  assert (Hpage : co_set_pages (coalesce_page gpa page_size i b st) =
    if b then wadd 64 (co_set_pages st) 1 else co_set_pages st) by (destruct st as [? ? []], b; done).
  unfold marked. rewrite filter_cons. destruct b.
  - rewrite wadd_small in Hpage by (split; lia). rewrite IH, Hpage by lia. unfold marked. rewrite decide_True by done. cbn [length]. lia.
  - rewrite IH, Hpage by lia. by rewrite decide_False.
Qed.

Lemma coalesce_count bits :
  Z.of_nat (length bits) < 2 ^ 64 -> (coalesce_pages_to_ranges gpa page_size bits).2 = Z.of_nat (marked bits).
Proof. intros Hlt. cbn. by rewrite coalesce_loop_count. Qed.
End coalesce.

(** ** What the kernel promises *)
Section kernel.
Context {K : Type} `{ProcHost K}.

(** The guest's memory is where it was and what it was. *)
Definition same_guest (k k' : K) : Prop :=
  forall g, get_host_address k' g = get_host_address k g /\ guest_byte k' g = guest_byte k g.

#[export] Instance same_guest_preorder : PreOrder same_guest.
Proof.
  split; [done|]. intros k1 k2 k3 H12 H23 g. destruct (H12 g), (H23 g). split; congruence.
Qed.
End kernel.

(** [anon] and [soft_dirty] say of a host page that it holds a copy of its own, and
    that it was written since the bits were last cleared.  The page map shows both;
    the flags of its page frame show the first.  [tracks_writes] says that the kernel
    is built with CONFIG_MEM_SOFT_DIRTY. *)
Class ProcLaws (K : Type) `{ProcHost K} := {
  anon : K -> Z -> Prop;
  soft_dirty : K -> Z -> Prop;
  tracks_writes : Prop;
  law_page_size : 8 <= host_page_size;
  law_words k f offset n words : proc_read k f offset n = Words words -> length words = n;
  law_anon k page n words i entry :
    proc_read k SelfPagemap (page * PAGEMAP_ENTRY_SIZE) n = Words words -> words !! i = Some entry -> anon k (page + Z.of_nat i) ->
    flag entry PAGEMAP_SWAPPED_BIT = true \/
    flag entry PAGEMAP_PRESENT_BIT = true /\
    forall flags, proc_read k Kpageflags (wmul 64 (Z.land entry PAGEMAP_PFN_MASK) KPAGEFLAGS_ENTRY_SIZE) 1 = Words flags ->
      flag (default 0 (head flags)) KPF_ANON = true;
  law_soft_dirty k page n words i entry :
    proc_read k SelfPagemap (page * PAGEMAP_ENTRY_SIZE) n = Words words -> words !! i = Some entry ->
    anon k (page + Z.of_nat i) -> soft_dirty k (page + Z.of_nat i) ->
    flag entry PAGEMAP_SWAPPED_BIT = true \/ flag entry PAGEMAP_PRESENT_BIT = true /\ flag entry PAGEMAP_SOFT_DIRTY_BIT = true;
  law_clear k : same_guest k (clear_refs k).2;
  law_scratch_mmap k : same_guest k (scratch_mmap k).2;
  law_scratch_write a k : same_guest k (scratch_write a k).2;
  law_scratch_munmap a k : same_guest k (scratch_munmap a k);
  (** a kernel that does not track leaves bit 55 clear; a page just written is not in swap *)
  law_tracks k offset n words entry : proc_read k SelfPagemap offset n = Words words -> entry ∈ words ->
    flag entry PAGEMAP_PRESENT_BIT = true -> flag entry PAGEMAP_SOFT_DIRTY_BIT = true -> tracks_writes;
  law_scratch_present a k k' n words entry : scratch_write a k = (true, k') ->
    proc_read k' SelfPagemap (wmul 64 (a / host_page_size) PAGEMAP_ENTRY_SIZE) n = Words words -> head words = Some entry ->
    flag entry PAGEMAP_SWAPPED_BIT = false;
}.

Section laws.
Context {K : Type} `{ProcHost K} `{!ProcLaws K}.

Lemma anon_entries_spec k entries bits : anon_entries k entries = Ok bits ->
  Forall2 (fun e b => anon_entry k e = Ok b) entries bits.
Proof.
  revert bits. induction entries as [|e entries IH]; intros bits; cbn; [by intros [= <-]|].
  intros (b & Hb & (rest & Hrest & [= <-])%and_then_ok)%and_then_ok. by constructor; [|apply IH].
Qed.

(** A page of the map is [i] pages after the aligned address [host_addr]. *)
Lemma get_anon_pages_sound k host_addr len bits i :
  0 <= host_addr < 2 ^ 64 -> get_anon_pages k host_addr len = Ok bits ->
  host_addr mod host_page_size = 0 /\ length bits = Z.to_nat (div_ceil len host_page_size) /\
  ((i < length bits)%nat -> anon k (host_addr / host_page_size + Z.of_nat i) -> bits !! i = Some true).
Proof.
  intros Hh. unfold get_anon_pages. case_decide as Hal; [done|]. destruct (negb (proc_open _ SelfPagemap)); [done|].
  destruct (negb (proc_open _ Kpageflags)); [done|]. pose proof law_page_size as Hps.
  rewrite wmul_small.
  2:{ unfold PAGEMAP_ENTRY_SIZE. split; [apply Z.mul_nonneg_nonneg; [apply Z.div_pos; lia|lia]|].
      pose proof (Z.mul_div_le host_addr host_page_size). nia. }
  destruct (proc_read _ _ _ _) as [| |words] eqn:Hr; [done|done|]. intros Hall%anon_entries_spec.
  pose proof (Forall2_length _ _ _ Hall) as Hlen. split_and!; [lia|rewrite <- Hlen; by apply law_words in Hr|].
  intros Hi Hanon. destruct (lookup_lt_is_Some_2 bits i Hi) as [b Hb].
  destruct (Forall2_lookup_r _ _ _ _ _ Hall Hb) as (e & He & Hentry). rewrite Hb. f_equal.
  pose proof (law_anon _ _ _ _ _ _ Hr He Hanon) as Hlaw. unfold anon_entry in Hentry.
  destruct (flag e PAGEMAP_SWAPPED_BIT); [congruence|]. destruct Hlaw as [?|[Hp Hf]]; [done|]. rewrite Hp in Hentry. cbn in Hentry.
  case_decide; [done|]. destruct (proc_read _ Kpageflags _ _) as [| |flags] eqn:Hk; [done|done|]. specialize (Hf _ eq_refl). congruence.
Qed.

Lemma get_soft_dirty_pages_sound k host_addr len bits i :
  0 <= host_addr < 2 ^ 64 -> get_soft_dirty_pages k host_addr len = Ok bits ->
  length bits = Z.to_nat (div_ceil len host_page_size) /\
  let page := host_addr / host_page_size + Z.of_nat i in
  ((i < length bits)%nat -> anon k page -> soft_dirty k page -> bits !! i = Some true).
Proof.
  intros Hh. unfold get_soft_dirty_pages. case_decide as Hal; [done|]. destruct (negb (proc_open _ SelfPagemap)); [done|].
  pose proof law_page_size as Hps. rewrite wmul_small.
  2:{ unfold PAGEMAP_ENTRY_SIZE. split; [apply Z.mul_nonneg_nonneg; [apply Z.div_pos; lia|lia]|].
      pose proof (Z.mul_div_le host_addr host_page_size). nia. }
  destruct (proc_read _ _ _ _) as [| |words] eqn:Hr; [done|done|]. intros [= <-]. rewrite length_fmap.
  split; [by apply law_words in Hr|]. cbn zeta. intros Hi Hanon Hdirty. destruct (lookup_lt_is_Some_2 words i Hi) as [e He].
  rewrite list_lookup_fmap, He. cbn. f_equal. unfold dirty_entry.
  destruct (law_soft_dirty _ _ _ _ _ _ Hr He Hanon Hdirty) as [-> |[-> ->]]; [done|]. by destruct (flag e _).
Qed.

Lemma anon_and_dirty_sound k host_addr len bits i :
  0 <= host_addr < 2 ^ 64 -> anon_and_dirty_pages k host_addr len = Ok bits ->
  host_addr mod host_page_size = 0 /\ length bits = Z.to_nat (div_ceil len host_page_size) /\
  let page := host_addr / host_page_size + Z.of_nat i in
  ((i < length bits)%nat -> anon k page -> soft_dirty k page -> bits !! i = Some true).
Proof.
  intros Hh. unfold anon_and_dirty_pages. destruct (get_anon_pages _ _ _) as [abits|] eqn:Ha; [|done]. cbn [and_then].
  intros (dbits & Hd & [= <-])%and_then_ok.
  destruct (get_anon_pages_sound k host_addr len abits i Hh Ha) as (Hal & Hla & Hai).
  destruct (get_soft_dirty_pages_sound k host_addr len dbits i Hh Hd) as (Hld & Hdi).
  rewrite length_zip_with, Hla, Hld, Nat.min_id. split_and!; [done|done|]. cbn zeta. intros Hi Hanon Hdirty.
  apply lookup_zip_with_Some. exists true, true. split_and!; [done| |]; [apply Hai|apply Hdi]; (done || lia).
Qed.

(** The probe leaves the guest alone, and says yes only on a kernel that tracks. *)
Lemma clear_soft_dirty_same (k : K) : same_guest k (clear_soft_dirty k).2.
Proof. unfold clear_soft_dirty. pose proof (law_clear k) as Hc. by destruct (clear_refs k) as [[]]. Qed.

Lemma probe_spec (k : K) armed k' : probe_soft_dirty_support k = (armed, k') -> same_guest k k' /\ (armed = true -> tracks_writes).
Proof.
  unfold probe_soft_dirty_support. pose proof (law_scratch_mmap k) as Hm. destruct (scratch_mmap k) as [[a|] k1]; cbn [snd] in Hm; [|by intros [= <- <-]].
  pose proof (law_scratch_write a k1) as Hw. destruct (scratch_write a k1) as [written k2] eqn:Hwrite. cbn [snd] in Hw.
  assert (Hdrop : forall k3, same_guest k2 k3 -> same_guest k (scratch_munmap a k3)).
  { intros k3 H3. etrans; [exact Hm|]. etrans; [exact Hw|]. etrans; [exact H3|]. apply law_scratch_munmap. }
  destruct written; cbn [negb]; [|intros [= <- <-]; split; [by apply Hdrop|done]].
  destruct (get_soft_dirty_pages k2 a host_page_size) as [bits|] eqn:Hbits; [|intros [= <- <-]; split; [by apply Hdrop|done]].
  destruct bits as [|[] [|]]; cbn [negb]; try (intros [= <- <-]; split; [by apply Hdrop|done]).
  pose proof (clear_soft_dirty_same k2) as Hc. destruct (clear_soft_dirty k2) as [r k3]. cbn [snd] in Hc.
  intros [= <- <-]. split; [by apply Hdrop|]. intros _. unfold get_soft_dirty_pages in Hbits.
  case_decide; [done|]. destruct (negb (proc_open _ _)); [done|]. destruct (proc_read _ _ _ _) as [| |words] eqn:Hr; [done|done|].
  injection Hbits as Hbits. destruct words as [|e [|]]; try done. injection Hbits as He. unfold dirty_entry in He.
  rewrite (law_scratch_present _ _ _ _ _ _ Hwrite Hr eq_refl) in He. apply andb_true_iff in He as [? ?].
  eapply law_tracks; [exact Hr|by apply list_elem_of_singleton|done|done].
Qed.
End laws.

(** ** The filters *)
Section filter.
Context {K : Type} `{ProcHost K} {E : Type} (no_host_address : E) (page_bitmap : Z -> Z -> result E (list bool)).

Definition region_table (k : K) (r : MemoryRange) (t : list MemoryRange) : Prop :=
  exists host_addr bits, get_host_address k (range_gpa r) = Some host_addr /\ page_bitmap host_addr (range_length r) = Ok bits /\
    t = (coalesce_pages_to_ranges (range_gpa r) host_page_size bits).1.

(** Each range gives the table of its marked pages, in order. *)
Lemma filter_loop_spec k ranges acc stats filtered stats' :
  filter_loop no_host_address page_bitmap k ranges acc stats = Ok (filtered, stats') ->
  exists tables, filtered = acc ++ concat tables /\ Forall2 (region_table k) ranges tables.
Proof.
  revert acc stats. induction ranges as [|r ranges IH]; intros acc stats; cbn [filter_loop].
  - intros [= <- _]. exists []. by rewrite app_nil_r.
  - destruct (get_host_address _ _) as [h|] eqn:Hh; [|done]. intros (bits & Hbits & Hrest)%and_then_ok.
    destruct (coalesce_pages_to_ranges _ _ bits) as [t n] eqn:Ht.
    apply IH in Hrest as (tables & -> & Hall). exists (t :: tables). rewrite <- app_assoc. split; [done|].
    constructor; [|done]. exists h, bits. by rewrite Ht.
Qed.
End filter.
