(* ===== verification/SnapshotMemory.v ===== *)
(** Snapshots of the guest's memory (hypervisor/vmm/src/memory_manager.rs, with the
    paths of hypervisor/vmm/src/migration.rs): the file a snapshot goes to, the
    ranges it holds, the full, incremental, soft-dirty and dirty-log ways to write
    it, and the two ways to read it back.

    The file system is a map from paths to nodes; every call on the memory file
    takes one answer from a script, so a run can have short writes and errors
    anywhere.  A call with no answer left succeeds in full. *)
From stdpp Require Import base numbers strings gmap list sorting.
From S2P Require Import Prelude VirtioMem MemoryRanges SnapshotPages.
#[local] Open Scope Z_scope.

(** ** Files *)
Record Blob := mkBlob { blob_bytes : Z -> Z; blob_len : Z }.
Inductive FileNode := Regular (b : Blob) | BlockDevice (b : Blob) | Directory | OtherNode.
Notation Disk := (gmap string FileNode).
Inductive IoAnswer := IoError | IoCount (n : Z).

Inductive MigratableError :=
| NotFileUrl | DestinationNotDirectory | UnsupportedScheme | NotAbsolute | StatFailed | BlobIsDirectory | BlobNotFile
| IoFailed | AnonFilterFailed (e : PagemapAnonError) | SoftDirtyFilterFailed (e : SoftDirtyError)
| BaseNotFound | NoFileOffset (gpa length : Z) | NoRegion (gpa : Z) | NoRamMapping (gpa : Z) | DirtyLogFailed.

Definition file_url_to_path (url : string) : result MigratableError string :=
  if String.prefix "file://" url then Ok (String.substring 7 (String.length url - 7) url) else Err NotFileUrl.

Definition url_to_path (d : Disk) (url : string) : result MigratableError string :=
  let? path := file_url_to_path url in
  match d !! path with Some Directory => Ok path | _ => Err DestinationNotDirectory end.

Definition contains (needle s : string) : bool :=
  match String.index 0 needle s with Some _ => true | None => false end.

Definition memory_blob_to_path (d : Disk) (input : string) : result MigratableError string :=
  let? path := if String.prefix "file://" input then file_url_to_path input
               else if contains "://" input then Err UnsupportedScheme else Ok input in
  if negb (String.prefix "/" path) then Err NotAbsolute
  else match d !! path with
  | None => Err StatFailed
  | Some Directory => Err BlobIsDirectory
  | Some OtherNode => Err BlobNotFile
  | Some (Regular _ | BlockDevice _) => Ok path
  end.

Definition SNAPSHOT_FILENAME : string := "memory-ranges".

(** [PathBuf::push] of a relative component. *)
Definition push_path (path file : string) : string :=
  if decide (path = EmptyString \/ String.substring (String.length path - 1) 1 path = "/")
  then (path +:+ file)%string else (path +:+ "/" +:+ file)%string.

Record MemorySnapshotFile := mkSnapshotFile { snap_path : string; external : bool }.

Definition from_snapshot_url (d : Disk) (snapshot_url : string) (memory_vol_url : option string) :
    result MigratableError MemorySnapshotFile :=
  match memory_vol_url with
  | Some url => let? path := memory_blob_to_path d url in Ok (mkSnapshotFile path true)
  | None => let? path := url_to_path d snapshot_url in Ok (mkSnapshotFile (push_path path SNAPSHOT_FILENAME) false)
  end.

(** ** The memory manager *)
Definition MAP_SHARED : Z := 1.
Definition MAP_PRIVATE : Z := 2.
Definition MAP_ANONYMOUS : Z := 32.
Definition MAP_NORESERVE : Z := 16384.
Definition MAP_POPULATE : Z := 32768.

(** A region of a zone; [backing_links] is the link count that [fstat] of its
    backing file gives, if it has one and [fstat] succeeds. *)
Record RamRegion := mkRamRegion { ram_start : Z; ram_len : Z; ram_flags : Z; backing_links : option (option Z) }.
Record MemoryZone := mkMemoryZone { zone_regions : list RamRegion; virtio_mem_zone : option (GuestRegion * list bool) }.
Record GuestRamMapping := mkRamMapping {
  map_slot : Z; map_gpa : Z; map_size : Z; map_zone_id : string; map_virtio_mem : bool; map_file_offset : Z }.

(** The manager with the world it works in: the kernel, the disk, the position of
    the open memory file and the script of its calls.  [memory_zones] are the zones
    in the order in which the hash map is iterated. *)
Record MemoryManager (K : Type) := mkMM {
  snapshot_memory_ranges : list MemoryRange;
  soft_dirty_armed : bool;
  dirty_log_on : bool;
  memory_zones : list MemoryZone;
  guest_ram_mappings : list GuestRamMapping;
  mm_kernel : K;
  mm_disk : Disk;
  mm_pos : Z;
  mm_io : list IoAnswer;
}.
Arguments mkMM {K}.
Arguments snapshot_memory_ranges {K}.
Arguments soft_dirty_armed {K}.
Arguments dirty_log_on {K}.
Arguments memory_zones {K}.
Arguments guest_ram_mappings {K}.
Arguments mm_kernel {K}.
Arguments mm_disk {K}.
Arguments mm_pos {K}.
Arguments mm_io {K}.

Section setters.
Context {K : Type}.
Definition set_ranges (r : list MemoryRange) (m : MemoryManager K) : MemoryManager K :=
  mkMM r (soft_dirty_armed m) (dirty_log_on m) (memory_zones m) (guest_ram_mappings m) (mm_kernel m) (mm_disk m) (mm_pos m) (mm_io m).
Definition set_armed (b : bool) (m : MemoryManager K) : MemoryManager K :=
  mkMM (snapshot_memory_ranges m) b (dirty_log_on m) (memory_zones m) (guest_ram_mappings m) (mm_kernel m) (mm_disk m) (mm_pos m) (mm_io m).
Definition set_kernel (k : K) (m : MemoryManager K) : MemoryManager K :=
  mkMM (snapshot_memory_ranges m) (soft_dirty_armed m) (dirty_log_on m) (memory_zones m) (guest_ram_mappings m) k (mm_disk m) (mm_pos m) (mm_io m).
Definition set_file (d : Disk) (pos : Z) (m : MemoryManager K) : MemoryManager K :=
  mkMM (snapshot_memory_ranges m) (soft_dirty_armed m) (dirty_log_on m) (memory_zones m) (guest_ram_mappings m) (mm_kernel m) d pos (mm_io m).
Definition set_io (io : list IoAnswer) (m : MemoryManager K) : MemoryManager K :=
  mkMM (snapshot_memory_ranges m) (soft_dirty_armed m) (dirty_log_on m) (memory_zones m) (guest_ram_mappings m) (mm_kernel m) (mm_disk m) (mm_pos m) io.
End setters.

(** ** The table of a snapshot *)
Definition is_hardlink (st_nlink : option Z) : bool :=
  match st_nlink with None => false | Some n => bool_decide (0 < n) end.

Fixpoint region_ranges (snapshot : bool) (regions : list RamRegion) (table : list MemoryRange) : list MemoryRange :=
  match regions with
  | [] => table
  | region :: rest =>
    let skip := snapshot && match backing_links region with
      | Some links => bool_decide (Z.land (ram_flags region) MAP_SHARED = MAP_SHARED) && is_hardlink links
      | None => false
      end in
    region_ranges snapshot rest (if skip then table else table ++ [mkMemoryRange (ram_start region) (ram_len region)])
  end.

Fixpoint zone_ranges (snapshot : bool) (zones : list MemoryZone) (table : list MemoryRange) : list MemoryRange :=
  match zones with
  | [] => table
  | zone :: rest =>
    let table := match virtio_mem_zone zone with
      | Some (region, blocks) => table ++ plugged_ranges region blocks
      | None => table
      end in
    zone_ranges snapshot rest (region_ranges snapshot (zone_regions zone) table)
  end.

Definition memory_range_table {K} (snapshot : bool) (m : MemoryManager K) : list MemoryRange :=
  zone_ranges snapshot (memory_zones m) [].

(** [Snapshottable::snapshot], the part that fixes the ranges. *)
Definition snapshot {K} : M (MemoryManager K) MigratableError unit :=
  let* m := get in modify (set_ranges (memory_range_table true m)).

(** ** Writing the memory file *)
Inductive SnapshotType := Full | Incremental | SoftDirty.
Record SnapshotConfig := mkSnapshotConfig {
  destination_url : string; memory_vol_url : option string; snapshot_type : SnapshotType }.

(** The dirty logs of the hypervisor and of the VMM, and the guest's regions. *)
Class DirtyHost (K : Type) := {
  guest_regions : K -> list (Z * Z);
  find_region : K -> Z -> option (Z * Z);
  bitmap_get_and_reset : Z -> K -> list Z * K;
  get_dirty_log : Z -> Z -> Z -> K -> option (list Z) * K;
}.

Section send.
Context {K : Type} `{ProcHost K}.
Notation IO := (M (MemoryManager K) MigratableError).

Definition next_io : IO (option IoAnswer) := fun m =>
  match mm_io m with
  | [] => (Done None, m)
  | a :: rest => (Done (Some a), set_io rest m)
  end.

(** A call that can only succeed or fail. *)
Definition io_call : IO unit :=
  let* a := next_io in match a with Some IoError => throw IoFailed | _ => ret tt end.

(** [OpenOptions::open] for reading and writing. *)
Definition open_read_write (f : MemorySnapshotFile) : IO unit :=
  io_call ;;;
  let* m := get in
  match mm_disk m !! snap_path f with
  | Some (Regular _ | BlockDevice _) => modify (set_file (mm_disk m) 0)
  | _ => throw IoFailed
  end.

Definition open_for_fresh_write (f : MemorySnapshotFile) : IO unit :=
  if external f then open_read_write f
  else
    io_call ;;;
    let* m := get in
    match mm_disk m !! snap_path f with
    | Some _ => throw IoFailed
    | None => modify (set_file (<[snap_path f := Regular (mkBlob (fun _ => 0) 0)]> (mm_disk m)) 0)
    end.

Definition map_blob (f : Blob -> Blob) (n : FileNode) : FileNode :=
  match n with Regular b => Regular (f b) | BlockDevice b => BlockDevice (f b) | n => n end.

Definition file_set_len (f : MemorySnapshotFile) (size : Z) : IO unit :=
  io_call ;;;
  modify (fun m => set_file (alter (map_blob (fun b =>
    mkBlob (fun o => if decide (o < size) then blob_bytes b o else 0) size)) (snap_path f) (mm_disk m)) (mm_pos m) m).

Definition seek (offset : Z) : IO unit :=
  io_call ;;; modify (fun m => set_file (mm_disk m) offset m).

(** [n] bytes of the guest's memory at [gpa] go to the file's position [pos]. *)
Definition overlay (k : K) (gpa pos n : Z) (b : Blob) : Blob :=
  mkBlob (fun o => if decide (pos <= o < pos + n) then guest_byte k (gpa + (o - pos)) else blob_bytes b o)
    (if decide (n = 0) then blob_len b else Z.max (blob_len b) (pos + n)).

(** [GuestMemory::write_volatile_to], which may write less than asked. *)
Definition write_volatile_to (f : MemorySnapshotFile) (gpa count : Z) : IO Z :=
  let* m := get in
  match get_host_address (mm_kernel m) gpa with
  | None => throw IoFailed
  | Some _ =>
    let* a := next_io in
    match a with
    | Some IoError => throw IoFailed
    | _ =>
      let n := match a with Some (IoCount n) => Z.min (Z.max 0 n) count | _ => count end in
      modify (fun m => set_file (alter (map_blob (overlay (mm_kernel m) gpa (mm_pos m) n)) (snap_path f) (mm_disk m)) (mm_pos m + n) m) ;;;
      ret n
    end
  end.

(** The retry loop; without fuel it is still running.  Each turn but the last takes
    an answer of the script. *)
Fixpoint save_loop (fuel : nat) (f : MemorySnapshotFile) (range : MemoryRange) (offset : Z) : IO unit :=
  match fuel with
  | O => crash
  | S fuel =>
    let* bytes_written := write_volatile_to f (wadd 64 (range_gpa range) offset) (wsub 64 (range_length range) offset) in
    let offset := wadd 64 offset bytes_written in
    if decide (offset = range_length range) then ret tt else save_loop fuel f range offset
  end.

Definition save_range_to_file (f : MemorySnapshotFile) (range : MemoryRange) (file_offset : Z) : IO unit :=
  (if decide (file_offset <> 0) then seek file_offset else ret tt) ;;;
  let* m := get in
  save_loop (S (length (mm_io m))) f range 0.

(** The table [gpa_to_file_offset]. *)
Fixpoint gpa_to_file_offset (offset : Z) (ranges : list MemoryRange) : list (Z * Z * Z) :=
  match ranges with
  | [] => []
  | range :: rest => (range_gpa range, range_length range, offset) :: gpa_to_file_offset (wadd 64 offset (range_length range)) rest
  end.

Fixpoint calculate_file_offset_for_gpa (gpa length : Z) (table : list (Z * Z * Z)) : result MigratableError Z :=
  match table with
  | [] => Err (NoFileOffset gpa length)
  | (region_gpa, region_length, file_offset) :: rest =>
    if decide (region_gpa <= gpa /\ wadd 64 gpa length <= wadd 64 region_gpa region_length)
    then Ok (wadd 64 file_offset (wsub 64 gpa region_gpa))
    else calculate_file_offset_for_gpa gpa length rest
  end.

Fixpoint save_filtered (f : MemorySnapshotFile) (table : list (Z * Z * Z)) (filtered : list MemoryRange) : IO unit :=
  match filtered with
  | [] => ret tt
  | range :: rest =>
    let* file_off := of_result (calculate_file_offset_for_gpa (range_gpa range) (range_length range) table) in
    save_range_to_file f range file_off ;;;
    save_filtered f table rest
  end.

(** The pages go over the base file, which must exist. *)
Definition overlay_base (f : MemorySnapshotFile) (filtered : list MemoryRange) : IO unit :=
  let* m := get in
  if decide (mm_disk m !! snap_path f = None) then throw BaseNotFound
  else
    open_read_write f ;;;
    save_filtered f (gpa_to_file_offset 0 (snapshot_memory_ranges m)) filtered.

Definition send_pagemap_anon_memory (destination_url : string) (memory_vol_url : option string) : IO unit :=
  let* m := get in
  match snapshot_memory_ranges m with
  | [] => ret tt
  | _ =>
    match filter_memory_ranges_by_pagemap_anon (mm_kernel m) (snapshot_memory_ranges m) with
    | Err e => throw (AnonFilterFailed e)
    | Ok (filtered_ranges, _) =>
      let* target := of_result (from_snapshot_url (mm_disk m) destination_url memory_vol_url) in
      overlay_base target filtered_ranges
    end
  end.

Definition send_soft_dirty_memory (destination_url : string) (memory_vol_url : option string) : IO unit :=
  let* m := get in
  match snapshot_memory_ranges m with
  | [] => ret tt
  | _ =>
    if negb (soft_dirty_armed m) then
      send_pagemap_anon_memory destination_url memory_vol_url ;;;
      let* m := get in
      let '(armed, k) := probe_soft_dirty_support (mm_kernel m) in
      modify (set_kernel k) ;;;
      if armed then modify (set_armed true) else ret tt
    else
      let* target := of_result (from_snapshot_url (mm_disk m) destination_url memory_vol_url) in
      match filter_memory_ranges_by_anon_and_soft_dirty (mm_kernel m) (snapshot_memory_ranges m) with
      | Err e => throw (SoftDirtyFilterFailed e)
      | Ok (filtered_ranges, _) =>
        overlay_base target filtered_ranges ;;;
        let* m := get in
        let '(r, k) := clear_soft_dirty (mm_kernel m) in
        modify (set_kernel k) ;;;
        if is_ok r then ret tt else modify (set_armed false)
      end
  end.

Fixpoint save_full (f : MemorySnapshotFile) (ranges : list MemoryRange) (file_offset : Z) : IO unit :=
  match ranges with
  | [] => ret tt
  | range :: rest =>
    save_range_to_file f range file_offset ;;;
    save_full f rest (wadd 64 file_offset (range_length range))
  end.

Section dirty_log.
Context `{DirtyHost K}.

(** The bitmap of one range: the log of the VMM and that of the hypervisor. *)
Definition range_dirty_bitmap (range : MemoryRange) : IO (list Z) :=
  let* m := get in
  let* vmm_dirty_bitmap :=
    match find_region (mm_kernel m) (range_gpa range) with
    | Some (start, len) =>
      if decide (start = range_gpa range /\ len = range_length range) then
        let '(bitmap, k) := bitmap_get_and_reset start (mm_kernel m) in
        modify (set_kernel k) ;;; ret bitmap
      else crash
    | None => throw (NoRegion (range_gpa range))
    end in
  match List.find (fun map => bool_decide (map_gpa map = range_gpa range) && bool_decide (map_size map = range_length range))
          (guest_ram_mappings m) with
  | None => throw (NoRamMapping (range_gpa range))
  | Some map =>
    let* m := get in
    let '(log, k) := get_dirty_log (map_slot map) (range_gpa range) (range_length range) (mm_kernel m) in
    modify (set_kernel k) ;;;
    match log with
    | None => throw DirtyLogFailed
    | Some vm_dirty_bitmap => ret (zip_with Z.lor vm_dirty_bitmap vmm_dirty_bitmap)
    end
  end.

Fixpoint save_sub_table (f : MemorySnapshotFile) (range : MemoryRange) (offset : Z) (regions : list MemoryRange) : IO unit :=
  match regions with
  | [] => ret tt
  | r :: rest =>
    save_range_to_file f r (wadd 64 (wsub 64 (range_gpa r) (range_gpa range)) offset) ;;;
    save_sub_table f range offset rest
  end.

Fixpoint save_dirty (f : MemorySnapshotFile) (ranges : list MemoryRange) (offset : Z) : IO unit :=
  match ranges with
  | [] => ret tt
  | range :: rest =>
    let* dirty_bitmap := range_dirty_bitmap range in
    save_sub_table f range offset (from_bitmap (range_gpa range) host_page_size dirty_bitmap) ;;;
    save_dirty f rest (wadd 64 offset (range_length range))
  end.

Definition total_size (regions : list (Z * Z)) : Z := foldl (fun acc r => wadd 64 acc r.2) 0 regions.

Definition send_dirty_log (target : MemorySnapshotFile) : IO unit :=
  open_for_fresh_write target ;;;
  let* m := get in
  (if external target then ret tt else file_set_len target (total_size (guest_regions (mm_kernel m)))) ;;;
  save_dirty target (snapshot_memory_ranges m) 0.

(** [Transportable::send] *)
Definition send (config : SnapshotConfig) : IO unit :=
  let* m := get in
  match snapshot_memory_ranges m with
  | [] => ret tt
  | _ =>
    let* target := of_result (from_snapshot_url (mm_disk m) (destination_url config) (memory_vol_url config)) in
    if dirty_log_on m then send_dirty_log target
    else match snapshot_type config with
    | Incremental => send_pagemap_anon_memory (destination_url config) (memory_vol_url config)
    | SoftDirty => send_soft_dirty_memory (destination_url config) (memory_vol_url config)
    | Full => open_for_fresh_write target ;;; save_full target (snapshot_memory_ranges m) 0
    end
  end.
End dirty_log.
End send.

(** ** Reading it back

    [fill_saved_regions] copies the file to the guest's memory. *)
Record Filling := mkFilling { fill_mem : Z -> Z; fill_pos : Z; fill_io : list IoAnswer }.

Definition read_volatile_from (b : Blob) (gpa count : Z) : M Filling MigratableError Z := fun s =>
  let read := fun n io => (Done n, mkFilling (fun a => if decide (gpa <= a < gpa + n)
      then blob_bytes b (fill_pos s + (a - gpa)) else fill_mem s a) (fill_pos s + n) io) in
  let most := Z.min count (Z.max 0 (blob_len b - fill_pos s)) in
  match fill_io s with
  | IoError :: rest => (Fail IoFailed, mkFilling (fill_mem s) (fill_pos s) rest)
  | IoCount n :: rest => read (Z.min (Z.max 0 n) most) rest
  | [] => read most []
  end.

Fixpoint fill_loop (fuel : nat) (b : Blob) (range : MemoryRange) (offset : Z) : M Filling MigratableError unit :=
  match fuel with
  | O => crash
  | S fuel =>
    let* bytes_read := read_volatile_from b (wadd 64 (range_gpa range) offset) (wsub 64 (range_length range) offset) in
    let offset := wadd 64 offset bytes_read in
    if decide (offset = range_length range) then ret tt else fill_loop fuel b range offset
  end.

Fixpoint fill_saved_regions (fuel : nat) (b : Blob) (saved_regions : list MemoryRange) : M Filling MigratableError unit :=
  match saved_regions with
  | [] => ret tt
  | range :: rest => fill_loop fuel b range 0 ;;; fill_saved_regions fuel b rest
  end.

(** The fast way maps the file: the loop of [restore_memory_regions_and_zones] that
    finds where a mapping lies in it, and the backing that [create_ram_region]
    chooses. *)
Fixpoint saved_file_offset (map : GuestRamMapping) (saved_regions : list MemoryRange) (offset : Z) : bool * Z :=
  match saved_regions with
  | [] => (false, offset)
  | range :: rest =>
    if decide (map_gpa map = range_gpa range /\ map_size map = range_length range) then (true, offset)
    else saved_file_offset map rest (wadd 64 offset (range_length range))
  end.

Inductive Backing := SnapshotBacking (offset : Z) | ExistingFile (offset : Z) | BackingFile (offset : Z) | AnonymousFile | NoBacking.

Definition region_backing (backing_file shared hugepages existing_memory_file prefault : bool) (file_offset : Z)
    (snap_file : bool * Z) : Backing * Z :=
  let '(backing, flags) :=
    if snap_file.1 then (SnapshotBacking snap_file.2, MAP_PRIVATE)
    else if existing_memory_file then (ExistingFile file_offset, MAP_SHARED)
    else if backing_file then (BackingFile file_offset, if shared then MAP_SHARED else MAP_PRIVATE)
    else if shared || hugepages then (AnonymousFile, MAP_SHARED)
    else (NoBacking, Z.lor MAP_PRIVATE MAP_ANONYMOUS) in
  let flags := Z.lor MAP_NORESERVE flags in
  (backing, if prefault then Z.lor flags MAP_POPULATE else flags).
