(* ===== verification/SnapshotProofs.v ===== *)
(** Snapshots are exact: after any history of guest activity and of snapshots, some
    of them failed half-way, a snapshot that reports success leaves a file that holds
    the guest's memory; and such a file restores it. *)
From stdpp Require Import base numbers strings gmap list sorting.
From S2P Require Import Prelude VirtioMem MemoryRanges SnapshotPages SnapshotPagesProofs SnapshotMemory.
#[local] Open Scope Z_scope.

(** ** The layout of a memory file *)

(** The guest address whose byte is at an offset of the file. *)
Fixpoint image_gpa (layout : list (Z * Z * Z)) (o : Z) : option Z :=
  match layout with
  | [] => None
  | (gpa, len, offset) :: rest => if decide (offset <= o < offset + len) then Some (gpa + (o - offset)) else image_gpa rest o
  end.

Definition total_length (ranges : list MemoryRange) : Z := foldr (fun r n => range_length r + n) 0 ranges.

Definition disjoint (r r' : MemoryRange) : Prop :=
  range_gpa r + range_length r <= range_gpa r' \/ range_gpa r' + range_length r' <= range_gpa r.

Record ranges_fit (ranges : list MemoryRange) : Prop := {
  rf_each r : r ∈ ranges -> 0 <= range_gpa r /\ 0 < range_length r /\ range_gpa r + range_length r < 2 ^ 64;
  rf_apart : StronglySorted disjoint ranges;
  rf_total : total_length ranges < 2 ^ 64;
}.

Lemma total_length_nonneg rs : (forall r, r ∈ rs -> 0 < range_length r) -> 0 <= total_length rs.
Proof. induction rs as [|r rs IH]; intros Hr; cbn [total_length foldr]; [lia|]. fold (total_length rs). pose proof (Hr r ltac:(set_solver)). specialize (IH ltac:(set_solver)). lia. Qed.

(** The entries follow each other. *)
Lemma layout_sorted off rs : (forall r, r ∈ rs -> 0 < range_length r) -> 0 <= off -> off + total_length rs < 2 ^ 64 ->
  StronglySorted (fun e e' => e.2 + e.1.2 <= e'.2) (gpa_to_file_offset off rs) /\
  forall e, e ∈ gpa_to_file_offset off rs -> off <= e.2 /\ e.2 + e.1.2 <= off + total_length rs /\ mkMemoryRange e.1.1 e.1.2 ∈ rs.
Proof.
  revert off. induction rs as [|r rs IH]; intros off Hpos Hoff Htot; cbn [gpa_to_file_offset]; [split; [constructor|set_solver]|].
  cbn [total_length foldr] in *. fold (total_length rs) in *. pose proof (Hpos r ltac:(set_solver)) as Hr.
  pose proof (total_length_nonneg rs ltac:(set_solver)) as Hn.
  rewrite wadd_small by (split; lia). destruct (IH (off + range_length r)) as [Hs He]; [set_solver|lia|lia|]. split.
  - constructor; [done|]. rewrite Forall_forall. intros e Hin. destruct (He e Hin). cbn. lia.
  - intros e [->|Hin]%elem_of_cons; cbn.
    + destruct r. cbn in *. split_and!; [lia|lia|set_solver].
    + destruct (He e Hin) as (? & ? & ?). split_and!; [lia|lia|set_solver].
Qed.

Lemma entry_image L g l b i : StronglySorted (fun e e' => e.2 + e.1.2 <= e'.2) L ->
  (g, l, b) ∈ L -> 0 <= i < l -> image_gpa L (b + i) = Some (g + i).
Proof.
  intros Hs. induction Hs as [|[[g' l'] b'] L Hs IH Hall]; [set_solver|].
  intros [[= -> -> ->]|Hin]%elem_of_cons Hi; cbn [image_gpa].
  - rewrite decide_True by lia. f_equal. lia.
  - rewrite Forall_forall in Hall. specialize (Hall _ Hin). cbn in Hall. rewrite decide_False by lia. by apply IH.
Qed.

Lemma image_entry L o x : image_gpa L o = Some x -> exists g l b, (g, l, b) ∈ L /\ b <= o < b + l /\ x = g + (o - b).
Proof.
  induction L as [|[[g l] b] L IH]; cbn; [done|]. case_decide; [intros [= <-]; exists g, l, b; set_solver|].
  intros (g' & l' & b' & ? & ? & ?)%IH. exists g', l', b'. set_solver.
Qed.

Lemma sorted_two {A} (R : A -> A -> Prop) l x y : StronglySorted R l -> x ∈ l -> y ∈ l -> x = y \/ R x y \/ R y x.
Proof.
  induction 1 as [|a l Hs IH Hall]; [set_solver|]. rewrite Forall_forall in Hall.
  intros [->|Hx]%elem_of_cons [->|Hy]%elem_of_cons; [by left|right; left; by apply Hall|right; right; by apply Hall|by apply IH].
Qed.

(** The offset of a range inside one of the regions. *)
Definition placed (L : list (Z * Z * Z)) (q : MemoryRange) (fo : Z) : Prop :=
  exists g l b, (g, l, b) ∈ L /\ g <= range_gpa q /\ range_gpa q + range_length q <= g + l /\ 0 < range_length q /\ fo = b + (range_gpa q - g).

Definition entry_range (e : Z * Z * Z) : MemoryRange := mkMemoryRange e.1.1 e.1.2.

Lemma layout_apart off rs : StronglySorted disjoint rs ->
  StronglySorted (fun e e' => disjoint (entry_range e) (entry_range e')) (gpa_to_file_offset off rs).
Proof.
  intros Hs. revert off. induction Hs as [|r rs Hs IH Hall]; intros off; cbn [gpa_to_file_offset]; constructor; [apply IH|].
  generalize (wadd 64 off (range_length r)) as o. clear Hs IH. induction Hall as [|r' rs Hr' Hall IH]; intros o; cbn; constructor; [|apply IH].
  done.
Qed.

Lemma calculate_placed off rs q fo :
  (forall r, r ∈ rs -> 0 <= range_gpa r /\ 0 < range_length r /\ range_gpa r + range_length r < 2 ^ 64) ->
  StronglySorted disjoint rs -> 0 <= off -> off + total_length rs < 2 ^ 64 ->
  placed (gpa_to_file_offset off rs) q fo ->
  calculate_file_offset_for_gpa (range_gpa q) (range_length q) (gpa_to_file_offset off rs) = Ok fo.
Proof.
  revert off. induction rs as [|r rs IH]; intros off Hok Hsort Hoff Htot (g & l & b & Hin & Hlo & Hhi & Hlen & ->); [set_solver|].
  cbn [gpa_to_file_offset total_length foldr calculate_file_offset_for_gpa] in *. fold (total_length rs) in *.
  destruct (Hok r ltac:(set_solver)) as (Hg0 & Hl0 & Hend). apply StronglySorted_inv in Hsort as [Hsort Hall].
  assert (Hpos : forall r', r' ∈ rs -> 0 < range_length r') by (intros r' Hr'; apply Hok; set_solver).
  pose proof (total_length_nonneg rs Hpos) as Hn. rewrite (wadd_small 64 off) in * by (split; lia).
  destruct (layout_sorted (off + range_length r) rs Hpos) as [_ He]; [lia|lia|].
  rewrite (wadd_small 64 (range_gpa r)) by (split; lia). apply elem_of_cons in Hin as [[= -> -> ->]|Hin].
  - rewrite wadd_small by (split; lia). rewrite decide_True by lia.
    rewrite wsub_small by (split; lia). rewrite wadd_small by (split; lia). done.
  - destruct (He _ Hin) as (Hb1 & Hb2 & Hr'). cbn in Hb1, Hb2, Hr'. rewrite Forall_forall in Hall.
    specialize (Hall _ Hr'). unfold disjoint in Hall. cbn in Hall. destruct (Hok (mkMemoryRange g l) ltac:(set_solver)) as (? & ? & ?). cbn [range_gpa range_length] in *.
    rewrite (wadd_small 64 (range_gpa q)) by (split; lia). rewrite decide_False by lia.
    rewrite (wadd_small 64 off) by (split; lia). apply IH; [set_solver|done|lia|lia|]. exists g, l, b. done.
Qed.

Section layout.
Context (ranges : list MemoryRange) (Hfit : ranges_fit ranges).

Definition file_layout : list (Z * Z * Z) := gpa_to_file_offset 0 ranges.

Lemma file_layout_sorted : StronglySorted (fun e e' => e.2 + e.1.2 <= e'.2) file_layout.
Proof. apply layout_sorted; [intros r Hr; by apply (rf_each _ Hfit)|lia|apply Hfit]. Qed.

Lemma file_layout_entry g l b : (g, l, b) ∈ file_layout ->
  0 <= b /\ b + l < 2 ^ 64 /\ mkMemoryRange g l ∈ ranges /\ 0 <= g /\ 0 < l /\ g + l < 2 ^ 64.
Proof.
  intros Hin. pose proof (rf_total _ Hfit). destruct (layout_sorted 0 ranges) as [_ He]; [intros r Hr; by apply (rf_each _ Hfit)|lia|lia|].
  destruct (He _ Hin) as (? & ? & Hr). cbn in *. destruct (rf_each _ Hfit _ Hr) as (? & ? & ?). cbn in *. split_and!; (done || lia).
Qed.

Lemma file_offset_placed q fo : placed file_layout q fo ->
  calculate_file_offset_for_gpa (range_gpa q) (range_length q) file_layout = Ok fo.
Proof. apply calculate_placed; [apply Hfit|apply Hfit|lia|apply Hfit]. Qed.

Lemma placed_image q fo i : placed file_layout q fo -> 0 <= i < range_length q -> image_gpa file_layout (fo + i) = Some (range_gpa q + i).
Proof.
  intros (g & l & b & Hin & ? & ? & ? & ->) Hi.
  replace (b + (range_gpa q - g) + i) with (b + (range_gpa q - g + i)) by lia.
  rewrite (entry_image _ g l b); [f_equal; lia|apply file_layout_sorted|done|lia].
Qed.

(** A byte of the file that comes from a placed range is in the range's part of the file. *)
Lemma image_placed q fo o x : placed file_layout q fo -> image_gpa file_layout o = Some x ->
  range_gpa q <= x < range_gpa q + range_length q -> x = range_gpa q + (o - fo).
Proof.
  intros (g & l & b & Hin & Hlo & Hhi & Hlen & ->) (g' & l' & b' & Hin' & Ho & ->)%image_entry Hx.
  destruct (sorted_two _ _ _ _ (layout_apart 0 ranges (rf_apart _ Hfit)) Hin Hin') as [[= -> -> ->]|Hd]; [lia|].
  unfold disjoint in Hd. cbn in Hd. lia.
Qed.
End layout.

(** ** Writing to the file *)
Definition node_bytes (n : option FileNode) : option (Z -> Z) :=
  match n with Some (Regular b | BlockDevice b) => Some (blob_bytes b) | _ => None end.
Definition node_len (n : option FileNode) : Z := match n with Some (Regular b | BlockDevice b) => blob_len b | _ => 0 end.

Section writing.
Context {K : Type} `{ProcHost K}.
Notation MM := (MemoryManager K).
Notation IO := (M MM MigratableError).

(** Only the file [path] changes, by [P], and it does not get shorter. *)
Record touched (path : string) (P : (Z -> Z) -> (Z -> Z) -> Prop) (m m' : MM) : Prop := {
  t_ranges : snapshot_memory_ranges m' = snapshot_memory_ranges m;
  t_armed : soft_dirty_armed m' = soft_dirty_armed m;
  t_dirty_log : dirty_log_on m' = dirty_log_on m;
  t_zones : memory_zones m' = memory_zones m;
  t_mappings : guest_ram_mappings m' = guest_ram_mappings m;
  t_kernel : mm_kernel m' = mm_kernel m;
  t_other q : q <> path -> mm_disk m' !! q = mm_disk m !! q;
  t_len : node_len (mm_disk m !! path) <= node_len (mm_disk m' !! path);
  t_file : exists f f', node_bytes (mm_disk m !! path) = Some f /\ node_bytes (mm_disk m' !! path) = Some f' /\ P f f';
}.

Lemma touched_trans path (P Q R : (Z -> Z) -> (Z -> Z) -> Prop) m1 m2 m3 :
  (forall f1 f2 f3, P f1 f2 -> Q f2 f3 -> R f1 f3) -> touched path P m1 m2 -> touched path Q m2 m3 -> touched path R m1 m3.
Proof.
  intros HR H1 H2. destruct (t_file _ _ _ _ H1) as (f & f' & Hf & Hf' & HP), (t_file _ _ _ _ H2) as (f1 & f2 & Hf1 & Hf2 & HQ).
  simplify_eq. split.
  all: try (by etrans; [apply H2|apply H1]).
  - etrans; [apply H1|apply H2].
  - exists f, f2. eauto.
Qed.

Lemma touched_mono path (P Q : (Z -> Z) -> (Z -> Z) -> Prop) m m' :
  (forall f f', P f f' -> Q f f') -> touched path P m m' -> touched path Q m m'.
Proof. intros HPQ [? ? ? ? ? ? ? ? (f & f' & ? & ? & ?)]. split; try done. exists f, f'. eauto. Qed.

(** Nothing but the position and the script changes. *)
Lemma touched_same path (P : (Z -> Z) -> (Z -> Z) -> Prop) m f pos io :
  node_bytes (mm_disk m !! path) = Some f -> P f f -> touched path P m (set_io io (set_file (mm_disk m) pos m)).
Proof. intros Hf HP. split; try done. exists f, f. done. Qed.

Lemma touched_none path (P : (Z -> Z) -> (Z -> Z) -> Prop) m f : node_bytes (mm_disk m !! path) = Some f -> P f f -> touched path P m m.
Proof. intros Hf HP. split; try done. exists f, f. done. Qed.

Lemma touched_io path (P : (Z -> Z) -> (Z -> Z) -> Prop) m f io :
  node_bytes (mm_disk m !! path) = Some f -> P f f -> touched path P m (set_io io m).
Proof. intros Hf HP. split; try done. exists f, f. done. Qed.

(** [n] bytes of the guest's memory have been copied. *)
Definition copied (k : K) (gpa pos n : Z) (f f' : Z -> Z) : Prop :=
  forall o, f' o = if decide (pos <= o < pos + n) then guest_byte k (gpa + (o - pos)) else f o.

Lemma copied_none k gpa pos f : copied k gpa pos 0 f f.
Proof. intros o. by rewrite decide_False by lia. Qed.

Lemma copied_app k gpa pos n n' f f1 f2 : 0 <= n -> 0 <= n' ->
  copied k gpa pos n f f1 -> copied k (gpa + n) (pos + n) n' f1 f2 -> copied k gpa pos (n + n') f f2.
Proof.
  intros Hn Hn' H1 H2 o. rewrite H2, H1.
  destruct (decide (pos + n <= o < pos + n + n')); [rewrite decide_True by lia; f_equal; lia|].
  destruct (decide (pos <= o < pos + n)); [by rewrite decide_True by lia|by rewrite decide_False by lia].
Qed.

Lemma overlay_touched f gpa n m b io :
  node_bytes (mm_disk m !! snap_path f) = Some b ->
  touched (snap_path f) (copied (mm_kernel m) gpa (mm_pos m) n) m
    (set_file (alter (map_blob (overlay (mm_kernel m) gpa (mm_pos m) n)) (snap_path f) (mm_disk m)) (mm_pos m + n) (set_io io m)).
Proof.
  intros Hb. split; try done.
  - intros. cbn [mm_disk set_file set_io]. by rewrite lookup_alter_ne.
  - cbn [mm_disk set_file set_io]. rewrite lookup_alter_eq. destruct (mm_disk m !! snap_path f) as [[d|d| |]|]; cbn; try case_decide; lia.
  - exists b. cbn [mm_disk set_file set_io]. rewrite lookup_alter_eq. destruct (mm_disk m !! snap_path f) as [[d|d| |]|]; simplify_eq/=; eexists; split_and!; try done.
Qed.

Lemma io_call_spec (Q : unit -> MM -> Prop) (X : MigratableError -> MM -> Prop) m :
  (forall io, X IoFailed (set_io io m)) -> (forall io, Q tt (set_io io m)) -> wp io_call Q X m.
Proof.
  intros HX HQ. unfold wp, io_call, bind, next_io. destruct (mm_io m) as [|[|n] io] eqn:Hio; cbn; [|apply HX|apply HQ].
  specialize (HQ (mm_io m)). by destruct m.
Qed.

(** One call: it fails, or it copies some bytes; all of them when the script is over. *)
Lemma write_volatile_to_spec f gpa count m b (Q : Z -> MM -> Prop) (X : MigratableError -> MM -> Prop) :
  node_bytes (mm_disk m !! snap_path f) = Some b -> is_Some (get_host_address (mm_kernel m) gpa) -> 0 <= count ->
  (forall io, X IoFailed (set_io io m)) ->
  (forall n m', 0 <= n <= count -> touched (snap_path f) (copied (mm_kernel m) gpa (mm_pos m) n) m m' -> mm_pos m' = mm_pos m + n ->
    (length (mm_io m') < length (mm_io m))%nat \/ n = count /\ mm_io m' = [] -> Q n m') ->
  wp (write_volatile_to f gpa count) Q X m.
Proof.
  intros Hb [a Ha] Hc HX HQ. unfold wp, write_volatile_to. rewrite bind_get, Ha. unfold bind at 1, next_io.
  destruct (mm_io m) as [|[|n] io] eqn:Hio; cbn -[overlay].
  - apply HQ; [lia| |done|by right].
    pose proof (overlay_touched f gpa count m b [] Hb) as Ht. by rewrite <- Hio in Ht; destruct m.
  - apply HX.
  - apply HQ; [lia|by apply (overlay_touched f gpa _ m b io)|done|left; cbn; lia].
Qed.

(** ** One range *)
Definition range_mapped (k : K) (r : MemoryRange) : Prop :=
  exists h, 0 <= h /\ h + range_length r <= 2 ^ 64 /\
    forall i, 0 <= i < range_length r -> get_host_address k (range_gpa r + i) = Some (h + i).

(** Part of the range has been copied to [fo]. *)
Definition copied_part (k : K) (r : MemoryRange) (fo : Z) (f f' : Z -> Z) : Prop :=
  exists n, 0 <= n <= range_length r /\ copied k (range_gpa r) fo n f f'.

Lemma save_loop_spec fuel f r fo offset m m0 :
  0 <= range_gpa r -> range_gpa r + range_length r < 2 ^ 64 -> range_mapped (mm_kernel m0) r ->
  0 <= offset < range_length r -> mm_pos m = fo + offset -> (length (mm_io m) < fuel)%nat ->
  touched (snap_path f) (copied (mm_kernel m0) (range_gpa r) fo offset) m0 m ->
  wp (save_loop fuel f r offset)
    (fun _ m' => touched (snap_path f) (copied (mm_kernel m0) (range_gpa r) fo (range_length r)) m0 m' /\ mm_pos m' = fo + range_length r)
    (fun _ m' => touched (snap_path f) (copied_part (mm_kernel m0) r fo) m0 m') m.
Proof.
  intros Hg Hend Hmap. revert offset m. induction fuel as [|fuel IH]; intros offset m Hoff Hpos Hfuel Ht; [lia|].
  cbn [save_loop]. apply wp_bind. rewrite wadd_small, wsub_small by (split; lia).
  destruct (t_file _ _ _ _ Ht) as (b0 & b & Hb0 & Hb & HP). pose proof (t_kernel _ _ _ _ Ht) as Hk.
  eapply (write_volatile_to_spec f _ _ m b); [done| |lia| |].
  - rewrite Hk. destruct Hmap as (h & _ & _ & Hmap). rewrite Hmap by lia. done.
  - intros io. eapply (touched_mono _ (copied (mm_kernel m0) (range_gpa r) fo offset)).
    { intros ? ? ?. exists offset. split; [lia|done]. }
    destruct Ht. split; done.
  - intros n m' Hn Ht' Hpos' Hio. rewrite wadd_small by (split; lia). rewrite Hk, Hpos in Ht'.
    assert (Hboth : touched (snap_path f) (copied (mm_kernel m0) (range_gpa r) fo (offset + n)) m0 m').
    { eapply touched_trans; [|exact Ht|exact Ht']. intros f1 f2 f3. cbn. apply copied_app; lia. }
    case_decide as Hdone.
    + apply wp_ret. rewrite Hdone in Hboth. split; [done|lia].
    + apply IH; [lia|lia| |done]. destruct Hio as [?|[-> _]]; lia.
Qed.

Lemma save_range_spec f r fo m b :
  node_bytes (mm_disk m !! snap_path f) = Some b -> 0 <= range_gpa r -> 0 < range_length r -> range_gpa r + range_length r < 2 ^ 64 ->
  range_mapped (mm_kernel m) r -> fo <> 0 \/ mm_pos m = 0 ->
  wp (save_range_to_file f r fo)
    (fun _ m' => touched (snap_path f) (copied (mm_kernel m) (range_gpa r) fo (range_length r)) m m')
    (fun _ m' => touched (snap_path f) (copied_part (mm_kernel m) r fo) m m') m.
Proof.
  intros Hb Hg Hl Hend Hmap Hpos. unfold save_range_to_file. apply wp_bind.
  assert (Hrest : forall m1, touched (snap_path f) (copied (mm_kernel m) (range_gpa r) fo 0) m m1 -> mm_pos m1 = fo ->
    wp (let* m2 := get in save_loop (S (length (mm_io m2))) f r 0)
    (fun _ m' => touched (snap_path f) (copied (mm_kernel m) (range_gpa r) fo (range_length r)) m m')
    (fun _ m' => touched (snap_path f) (copied_part (mm_kernel m) r fo) m m') m1).
  { intros m1 Ht Hp. apply wp_bind, wp_get.
    eapply wp_mono; [apply (save_loop_spec _ f r fo 0 m1 m); try done; lia|by intros ? ? []|done]. }
  assert (Hsame : forall pos io, touched (snap_path f) (copied (mm_kernel m) (range_gpa r) fo 0) m (set_io io (set_file (mm_disk m) pos m))).
  { intros pos io. eapply touched_same; [done|apply copied_none]. }
  case_decide as Hfo.
  - unfold seek. apply wp_bind, io_call_spec; intros io.
    + eapply touched_mono; [|apply (Hsame (mm_pos m) io)]. intros ? ? ?. exists 0. split; [lia|done].
    + apply wp_modify, Hrest; [apply (Hsame fo io)|done].
  - apply wp_ret, Hrest; [|lia]. specialize (Hsame (mm_pos m) (mm_io m)). by destruct m.
Qed.
End writing.

(** ** Tables and their places in the file *)
Definition inside (r q : MemoryRange) : Prop :=
  range_gpa r <= range_gpa q /\ range_gpa q + range_length q <= range_gpa r + range_length r /\ 0 < range_length q.

(** A table of each region gives a table whose places are in order. *)
Lemma tables_placed off ranges tables :
  (forall r, r ∈ ranges -> 0 < range_length r) -> 0 <= off -> off + total_length ranges < 2 ^ 64 ->
  Forall2 (fun r t => StronglySorted (fun q q' => range_gpa q < range_gpa q') t /\ Forall (inside r) t) ranges tables ->
  exists ps : list (MemoryRange * Z), ps.*1 = concat tables /\
    Forall (fun p => placed (gpa_to_file_offset off ranges) p.1 p.2 /\ off <= p.2) ps /\ StronglySorted (fun p p' => p.2 < p'.2) ps.
Proof.
  intros Hpos Hoff Htot Hall. revert off Hpos Hoff Htot. induction Hall as [|r t ranges tables [Hsort Hin] Hall IH]; intros off Hpos Hoff Htot.
  { exists []. split_and!; [done|constructor|constructor]. }
  cbn [gpa_to_file_offset total_length foldr concat] in *. fold (total_length ranges) in *.
  pose proof (Hpos r ltac:(by apply elem_of_cons; left)) as Hr.
  assert (Hpos' : forall r', r' ∈ ranges -> 0 < range_length r') by (intros r' Hr'; apply Hpos, elem_of_cons; by right).
  pose proof (total_length_nonneg ranges Hpos') as Hn.
  rewrite wadd_small by (split; lia). destruct (IH (off + range_length r)) as (ps & Hfst & Hplaced & Hord); [done|lia|lia|].
  rewrite Forall_forall in Hin. rewrite Forall_forall in Hplaced. exists (((fun q => (q, off + (range_gpa q - range_gpa r))) <$> t) ++ ps). split_and!.
  - rewrite fmap_app, Hfst, <- list_fmap_compose. f_equal. apply list_fmap_id.
  - apply Forall_app. split.
    + rewrite Forall_fmap, Forall_forall. intros q Hq. destruct (Hin q Hq) as (? & ? & ?). cbn. split; [|lia].
      exists (range_gpa r), (range_length r), off. split_and!; [apply elem_of_cons; by left|lia..].
    + rewrite Forall_forall. intros p Hp. destruct (Hplaced p Hp) as [(g & l & b & He & Hq) ?]. split; [|lia]. exists g, l, b. split; [apply elem_of_cons; by right|done].
  - apply StronglySorted_app. split_and!; [| |done].
    + intros p p' (q & -> & Hq)%list_elem_of_fmap Hp'. cbn. destruct (Hplaced p' Hp') as [_ ?], (Hin q Hq) as (? & ? & ?). lia.
    + clear -Hsort. induction Hsort as [|q t Hsort IH Hq]; [constructor|]. cbn. constructor; [done|].
      rewrite Forall_fmap. eapply Forall_impl; [exact Hq|]. cbn. lia.
Qed.

Section saving.
Context {K : Type} `{ProcHost K} (ranges : list MemoryRange) (Hfit : ranges_fit ranges).
Notation MM := (MemoryManager K).
Notation layout := (file_layout ranges).

(** Bytes of the file change only to those of the guest's memory. *)
Definition better (k : K) (f f' : Z -> Z) : Prop :=
  forall o, f' o = f o \/ exists x, image_gpa layout o = Some x /\ f' o = guest_byte k x.

(** Besides, the bytes of the table are those of the guest's memory. *)
Definition saved (k : K) (table : list MemoryRange) (f f' : Z -> Z) : Prop :=
  better k f f' /\ forall o x, image_gpa layout o = Some x -> in_ranges x table -> f' o = guest_byte k x.

Lemma better_trans k f1 f2 f3 : better k f1 f2 -> better k f2 f3 -> better k f1 f3.
Proof. intros H12 H23 o. destruct (H23 o) as [->|?]; [apply H12|by right]. Qed.

Lemma better_keeps k f f' o x : better k f f' -> image_gpa layout o = Some x -> f o = guest_byte k x -> f' o = guest_byte k x.
Proof. intros Hb Ho Hf. destruct (Hb o) as [->|(y & Hy & ->)]; [done|]. congruence. Qed.

Lemma copied_better k q fo n f f' : placed layout q fo -> n <= range_length q -> copied k (range_gpa q) fo n f f' -> better k f f'.
Proof.
  intros Hp Hn Hc o. rewrite (Hc o). case_decide as Ho; [right|by left]. exists (range_gpa q + (o - fo)). split; [|done].
  rewrite <- (placed_image ranges Hfit q fo); [f_equal; lia|done|lia].
Qed.

Lemma saved_cons k q fo t f1 f2 f3 : placed layout q fo ->
  copied k (range_gpa q) fo (range_length q) f1 f2 -> saved k t f2 f3 -> saved k (q :: t) f1 f3.
Proof.
  intros Hp Hc [Hb Ht]. pose proof (copied_better k q fo _ f1 f2 Hp (Z.le_refl _) Hc) as Hb1.
  split; [by eapply better_trans|]. intros o x Ho (q' & [->|Hq']%elem_of_cons & Hx); [|by apply Ht; [|exists q']].
  apply (better_keeps k f2); [done|done|]. pose proof (image_placed ranges Hfit q fo o x Hp Ho Hx) as ->. rewrite (Hc o).
  by rewrite decide_True by lia.
Qed.

Lemma save_filtered_spec f (ps : list (MemoryRange * Z)) m b :
  node_bytes (mm_disk m !! snap_path f) = Some b ->
  Forall (fun p => placed layout p.1 p.2) ps -> Forall (fun p => range_mapped (mm_kernel m) p.1) ps ->
  StronglySorted (fun p p' => p.2 < p'.2) ps -> Forall (fun p => 0 < p.2) ps \/ mm_pos m = 0 ->
  wp (save_filtered f layout ps.*1)
    (fun _ m' => touched (snap_path f) (saved (mm_kernel m) ps.*1) m m')
    (fun _ m' => touched (snap_path f) (better (mm_kernel m)) m m') m.
Proof.
  revert m b. induction ps as [|[q fo] ps IH]; intros m b Hb Hpl Hmap Hsort Hpos; cbn [fmap list_fmap save_filtered fst].
  - apply wp_ret. apply (touched_none _ _ _ b); [done|]. split; [by left|]. intros o x Ho (q & Hq & _). set_solver.
  - apply Forall_cons in Hpl as [Hq Hpl], Hmap as [Hmq Hmap]. apply StronglySorted_inv in Hsort as [Hsort Hall]. cbn in Hq, Hmq.
    apply wp_bind. rewrite (file_offset_placed ranges Hfit q fo Hq). apply wp_ret, wp_bind.
    destruct Hq as (g & l & o & Hin & ? & ? & ? & Hfo) eqn:Heq. destruct (file_layout_entry ranges Hfit g l o Hin) as (? & ? & _ & ? & ? & ?).
    eapply wp_mono; [apply (save_range_spec f q fo m b); try done; try lia| |].
    + destruct Hpos as [Hpos|Hpos]; [left; apply Forall_cons in Hpos as [? _]; cbn in *; lia|by right].
    + cbn. intros _ m1 Ht. destruct (t_file _ _ _ _ Ht) as (b0 & b1 & Hb0 & Hb1 & Hc). pose proof (t_kernel _ _ _ _ Ht) as Hk.
      eapply wp_mono; [apply (IH m1 b1); try done|cbn|cbn].
      * by rewrite Hk.
      * left. eapply Forall_impl; [exact Hall|]. cbn. lia.
      * intros _ m2 Ht2. rewrite Hk in Ht2. eapply touched_trans; [|exact Ht|exact Ht2]. intros ? ? ?. cbn. by apply saved_cons with (fo := fo).
      * intros _ m2 Ht2. rewrite Hk in Ht2. eapply touched_trans; [|exact Ht|exact Ht2]. intros ? ? ? Hc1. cbn. apply better_trans.
        by apply (copied_better _ q fo (range_length q)).
    + cbn. intros _ m1 Ht. eapply touched_mono; [|exact Ht]. intros ? ? (n & Hn & Hc). by apply (copied_better _ q fo n); [|lia|].
Qed.

(** ** A filtered table goes over the base file *)
Lemma open_save_spec f (ps : list (MemoryRange * Z)) m b :
  node_bytes (mm_disk m !! snap_path f) = Some b ->
  Forall (fun p => placed layout p.1 p.2) ps -> Forall (fun p => range_mapped (mm_kernel m) p.1) ps ->
  StronglySorted (fun p p' => p.2 < p'.2) ps ->
  wp (open_read_write f ;;; save_filtered f layout ps.*1)
    (fun _ m' => touched (snap_path f) (saved (mm_kernel m) ps.*1) m m')
    (fun _ m' => touched (snap_path f) (better (mm_kernel m)) m m') m.
Proof.
  intros Hb Hpl Hmap Hsort. apply wp_bind.
  assert (Hbb : better (mm_kernel m) b b) by (intros o; by left).
  unfold open_read_write. apply wp_bind, io_call_spec; intros io.
  { by apply (touched_io _ _ _ b). }
  apply wp_bind, wp_get. cbn [mm_disk set_io].
  assert (Hrest : wp (save_filtered f layout ps.*1) (fun _ m' => touched (snap_path f) (saved (mm_kernel m) ps.*1) m m')
    (fun _ m' => touched (snap_path f) (better (mm_kernel m)) m m') (set_file (mm_disk m) 0 (set_io io m))).
  { pose proof (touched_same (snap_path f) eq m b 0 io Hb eq_refl) as H0.
    change (set_file (mm_disk m) 0 (set_io io m)) with (set_io io (set_file (mm_disk m) 0 m)).
    eapply wp_mono; [apply (save_filtered_spec f ps _ b); try done; by right| |]; intros ? m' Ht;
      (eapply touched_trans; [|exact H0|exact Ht]); by intros ? ? ? ->. }
  destruct (mm_disk m !! snap_path f) as [[b1|b1| |]|]; simplify_eq/=; apply wp_modify; exact Hrest.
Qed.

Lemma overlay_base_spec f (ps : list (MemoryRange * Z)) m b :
  snapshot_memory_ranges m = ranges -> node_bytes (mm_disk m !! snap_path f) = Some b ->
  Forall (fun p => placed layout p.1 p.2) ps -> Forall (fun p => range_mapped (mm_kernel m) p.1) ps ->
  StronglySorted (fun p p' => p.2 < p'.2) ps ->
  wp (overlay_base f ps.*1)
    (fun _ m' => touched (snap_path f) (saved (mm_kernel m) ps.*1) m m')
    (fun _ m' => touched (snap_path f) (better (mm_kernel m)) m m') m.
Proof.
  intros Hr Hb Hpl Hmap Hsort. unfold overlay_base. apply wp_bind, wp_get.
  rewrite decide_False by (intros Hnone; by rewrite Hnone in Hb). rewrite Hr. by apply (open_save_spec f ps m b).
Qed.

(** A full snapshot saves the table of all ranges. *)
Lemma save_full_filtered f off rs (m : MM) :
  (forall e, e ∈ gpa_to_file_offset off rs -> e ∈ layout) -> save_full f rs off m = save_filtered f layout rs m.
Proof.
  revert off m. induction rs as [|r rs IH]; intros off m Hsub; [done|]. cbn [save_full save_filtered gpa_to_file_offset] in *.
  assert (Hin : (range_gpa r, range_length r, off) ∈ layout) by (apply Hsub, elem_of_cons; by left).
  destruct (file_layout_entry ranges Hfit _ _ _ Hin) as (_ & _ & _ & _ & ? & _).
  rewrite (file_offset_placed ranges Hfit r off); [|exists (range_gpa r), (range_length r), off; split_and!; (done || lia)].
  cbn [of_result]. rewrite bind_ret. unfold bind. destruct (save_range_to_file f r off m) as [[]]; [|done|done].
  apply IH. intros e He. apply Hsub, elem_of_cons. by right.
Qed.

Lemma full_placed : exists ps : list (MemoryRange * Z), ps.*1 = ranges /\ Forall (fun p => placed layout p.1 p.2) ps /\
  StronglySorted (fun p p' => p.2 < p'.2) ps.
Proof.
  destruct (tables_placed 0 ranges ((fun r => [r]) <$> ranges)) as (ps & Hfst & Hpl & Hsort);
    [intros r Hr; by apply (rf_each _ Hfit)|lia|apply Hfit| |].
  - rewrite Forall2_fmap_r. apply Forall_Forall2_diag. rewrite Forall_forall. intros r Hr. destruct (rf_each _ Hfit r Hr) as (? & ? & ?).
    split; [repeat constructor|]. apply Forall_singleton. unfold inside. lia.
  - exists ps. split_and!; [|eapply Forall_impl; [exact Hpl|]; by intros ? []|done]. rewrite Hfst.
    clear. induction ranges as [|r rs IH]; [done|]. cbn. by rewrite IH.
Qed.

Section filtered.
Context (k : K) (Hpage : 0 < host_page_size) (Halign : Forall (fun r => range_length r mod host_page_size = 0) ranges)
  (Hmapped : Forall (range_mapped k) ranges).
Context {E : Type} (no_host_address : E) (page_bitmap : Z -> Z -> result E (list bool)) (Mark : Z -> Prop).
Context (Hsound : forall h len bits i, 0 <= h < 2 ^ 64 -> page_bitmap h len = Ok bits ->
  h mod host_page_size = 0 /\ length bits = Z.to_nat (div_ceil len host_page_size) /\
  ((i < length bits)%nat -> Mark (h / host_page_size + Z.of_nat i) -> bits !! i = Some true)).

Lemma div_ceil_exact len : 0 <= len -> len mod host_page_size = 0 -> Z.of_nat (Z.to_nat (div_ceil len host_page_size)) * host_page_size = len.
Proof.
  intros H0 Hm. unfold div_ceil. rewrite decide_True by done. pose proof (Z.div_pos len host_page_size H0 Hpage).
  rewrite Z2Nat.id by lia. pose proof (Z.div_mod len host_page_size). lia.
Qed.

(** The table of a region is inside it and holds the marked pages. *)
Lemma region_table_spec r t : r ∈ ranges -> region_table page_bitmap k r t ->
  StronglySorted (fun q q' => range_gpa q < range_gpa q') t /\ Forall (inside r) t /\
  forall x a, range_gpa r <= x < range_gpa r + range_length r -> get_host_address k x = Some a -> Mark (a / host_page_size) -> in_ranges x t.
Proof.
  intros Hr (h & bits & Hh & Hbits & ->). destruct (rf_each _ Hfit r Hr) as (Hg & Hl & Hend).
  rewrite Forall_forall in Halign, Hmapped. pose proof (Halign r Hr) as Hal. destruct (Hmapped r Hr) as (h' & Hh0 & Hhend & Hlin).
  pose proof (Hlin 0 ltac:(lia)) as Hh'. rewrite Z.add_0_r, Hh in Hh'. injection Hh' as ->. rewrite Z.add_0_r in *.
  destruct (Hsound h' _ _ 0%nat ltac:(lia) Hbits) as (Hmod & Hlen & _). pose proof (div_ceil_exact (range_length r) ltac:(lia) Hal) as Hceil.
  destruct (coalesce_spec (range_gpa r) host_page_size (conj Hg Hpage) bits) as [[Hsort Hpos] Hin]; [rewrite Hlen, Hceil; lia|].
  cbn zeta in *. set (t := (coalesce_pages_to_ranges _ _ _).1) in *. split_and!.
  - clear -Hsort Hpos. induction Hsort as [|q t Hsort IH Hq]; [constructor|]. apply Forall_cons in Hpos as [? Hpos]. constructor; [by apply IH|].
    eapply Forall_impl; [exact Hq|]. cbn. lia.
  - rewrite Forall_forall in Hpos |- *. intros q Hq. specialize (Hpos q Hq).
    destruct (proj1 (Hin (range_gpa q))) as (p1 & Hp1 & Hx1); [exists q; split; [done|lia]|].
    destruct (proj1 (Hin (range_gpa q + range_length q - 1))) as (p2 & Hp2 & Hx2); [exists q; split; [done|lia]|].
    apply lookup_lt_Some in Hp2. unfold inside. nia.
  - intros x a Hx Ha Hmark. replace x with (range_gpa r + (x - range_gpa r)) in Ha by lia. rewrite Hlin in Ha by lia. injection Ha as <-.
    apply Hin. set (i := (x - range_gpa r) / host_page_size).
    assert (Hnz : host_page_size <> 0) by lia. pose proof (Z.div_mod (x - range_gpa r) host_page_size Hnz) as Hdm. fold i in Hdm.
    pose proof (Z.mod_pos_bound (x - range_gpa r) host_page_size Hpage) as Hmb.
    assert (Hi0 : 0 <= i) by (apply Z.div_pos; lia). exists (Z.to_nat i). rewrite Z2Nat.id by lia. split; [|lia].
    apply (Hsound h' _ _ (Z.to_nat i) ltac:(lia) Hbits); [nia|]. rewrite Z2Nat.id by lia.
    replace (h' / host_page_size + i) with ((h' + (x - range_gpa r)) / host_page_size); [done|]. unfold i.
    pose proof (Z.div_mod h' host_page_size Hnz) as Hdh. rewrite Hdh at 1. rewrite Hmod, Z.add_0_r, Z.mul_comm. by rewrite Z.div_add_l by lia.
Qed.

Lemma filtered_spec filtered stats : filter_loop no_host_address page_bitmap k ranges [] no_stats = Ok (filtered, stats) ->
  (exists ps : list (MemoryRange * Z), ps.*1 = filtered /\ Forall (fun p => placed layout p.1 p.2) ps /\
    Forall (fun p => range_mapped k p.1) ps /\ StronglySorted (fun p p' => p.2 < p'.2) ps) /\
  forall o x a, image_gpa layout o = Some x -> get_host_address k x = Some a -> Mark (a / host_page_size) -> in_ranges x filtered.
Proof.
  intros (tables & -> & Hall)%filter_loop_spec. cbn [app].
  assert (Hspec : forall i r t, ranges !! i = Some r -> tables !! i = Some t -> r ∈ ranges /\ region_table page_bitmap k r t).
  { intros i r t Hr Ht. split; [by eapply list_elem_of_lookup_2|]. by eapply Forall2_lookup_lr. }
  split.
  - destruct (tables_placed 0 ranges tables) as (ps & Hfst & Hpl & Hsort); [intros r Hr; by apply (rf_each _ Hfit)|lia|apply Hfit| |].
    { apply Forall2_same_length_lookup. split; [by eapply Forall2_length|]. intros i r t Hr Ht.
      destruct (Hspec i r t Hr Ht) as [Hin Htab]. by destruct (region_table_spec r t Hin Htab) as (? & ? & _). }
    exists ps. rewrite Forall_forall in Hpl. split_and!; [done| | |done]; rewrite Forall_forall; intros p Hp; [by apply Hpl|].
    destruct (Hpl p Hp) as [(g & l & b & Hin & Hlo & Hhi & Hlen & _) _]. destruct (file_layout_entry ranges Hfit g l b Hin) as (_ & _ & Hr & _).
    rewrite Forall_forall in Hmapped. destruct (Hmapped _ Hr) as (h & Hh & Hend & Hlin). cbn in *.
    exists (h + (range_gpa p.1 - g)). split_and!; [lia|lia|]. intros i Hi.
    replace (range_gpa p.1 + i) with (g + (range_gpa p.1 - g + i)) by lia. rewrite Hlin by lia. f_equal. lia.
  - intros o x a (g & l & b & Hin & Ho & ->)%image_entry Ha Hmark.
    destruct (file_layout_entry ranges Hfit g l b Hin) as (_ & _ & Hr & _). apply list_elem_of_lookup in Hr as [i Hi].
    destruct (Forall2_lookup_l _ _ _ _ _ Hall Hi) as (t & Ht & _). destruct (Hspec i _ t Hi Ht) as [Hr Htab].
    destruct (region_table_spec _ t Hr Htab) as (_ & _ & Hcov). destruct (Hcov (g + (o - b)) a) as (q & Hq & Hx); [cbn; lia|done|done|].
    exists q. split; [|done]. apply list_elem_of_In, in_concat. exists t. split; apply list_elem_of_In; [by eapply list_elem_of_lookup_2|done].
Qed.
End filtered.
End saving.

(** ** Histories *)
Section history.
Context {K : Type} `{ProcHost K} `{!ProcLaws K} `{DirtyHost K}.
Context (url : string) (vol : option string) (target : MemorySnapshotFile) (ranges : list MemoryRange).
Notation MM := (MemoryManager K).
Notation layout := (file_layout ranges).
Notation config ty := (mkSnapshotConfig url vol ty).

(** The guest runs: its memory stays where it is, and the page of a byte that has
    changed is a copy of its own and, if the kernel tracks writes, marked as written;
    marks do not go away. *)
Definition guest_runs (k k' : K) : Prop := forall g,
  get_host_address k' g = get_host_address k g /\
  forall a, get_host_address k g = Some a -> let page := a / host_page_size in
    (guest_byte k' g <> guest_byte k g -> anon k' page /\ (tracks_writes -> soft_dirty k' page)) /\
    (anon k page -> anon k' page) /\ (anon k page -> soft_dirty k page -> soft_dirty k' page).

(** What a snapshot needs: regions that fit, whole pages of them, all of it mapped. *)
Record memory_ready (k : K) : Prop := {
  mr_fit : ranges_fit ranges;
  mr_some : ranges <> [];
  mr_pages : Forall (fun r => range_length r mod host_page_size = 0) ranges;
  mr_mapped : Forall (range_mapped k) ranges;
}.

Definition holds_memory (b : Z -> Z) (k : K) : Prop := forall o x, image_gpa layout o = Some x -> b o = guest_byte k x.

(** The target's file holds the guest's memory. *)
Definition file_exact (m : MM) : Prop :=
  total_length ranges <= node_len (mm_disk m !! snap_path target) /\
  exists b, node_bytes (mm_disk m !! snap_path target) = Some b /\ holds_memory b (mm_kernel m).

Record set_up (m : MM) : Prop := {
  su_target : from_snapshot_url (mm_disk m) url vol = Ok target;
  su_ranges : snapshot_memory_ranges m = ranges;
  su_ready : memory_ready (mm_kernel m);
  su_no_log : dirty_log_on m = false;
}.

(** The pages that can differ from the file are anonymous, and, once the tracker is
    armed, marked as written. *)
Definition differs_only (b : Z -> Z) (k : K) (P : Z -> Prop) : Prop := forall o x a,
  image_gpa layout o = Some x -> get_host_address k x = Some a -> b o = guest_byte k x \/ P (a / host_page_size).

Record snap_inv (m : MM) : Prop := {
  si_set_up : set_up m;
  si_len : total_length ranges <= node_len (mm_disk m !! snap_path target);
  si_file : exists b, node_bytes (mm_disk m !! snap_path target) = Some b /\
    differs_only b (mm_kernel m) (anon (mm_kernel m)) /\
    (soft_dirty_armed m = true -> tracks_writes /\ differs_only b (mm_kernel m) (fun p => anon (mm_kernel m) p /\ soft_dirty (mm_kernel m) p));
}.

Inductive history (m0 : MM) : MM -> Prop :=
| history_start : history m0 m0
| history_guest m k' : history m0 m -> guest_runs (mm_kernel m) k' -> history m0 (set_kernel k' m)
| history_snapshot m ty io r m' : history m0 m -> send (config ty) (set_io io m) = (r, m') -> history m0 m'.

Lemma ready_same k k' : same_guest k k' -> memory_ready k -> memory_ready k'.
Proof.
  intros Hs [? ? ? Hm]. split; try done. eapply Forall_impl; [exact Hm|]. intros r (h & ? & ? & Hlin).
  exists h. split_and!; try done. intros i Hi. by rewrite (proj1 (Hs _)), Hlin.
Qed.

Lemma guest_runs_inv m k' : snap_inv m -> guest_runs (mm_kernel m) k' -> snap_inv (set_kernel k' m).
Proof.
  intros [[Ht Hr [Hfit Hsome Hpg Hm] Hlog] Hlen (b & Hb & Hanon & Hdirty)] Hg.
  assert (Hdiff : forall (P P' : Z -> Prop), differs_only b (mm_kernel m) P ->
    (forall g a, get_host_address (mm_kernel m) g = Some a -> P (a / host_page_size) -> P' (a / host_page_size)) ->
    (forall p, anon k' p -> (tracks_writes -> soft_dirty k' p) -> P' p) -> differs_only b k' P').
  { intros P P' Hd HP Hw o x a Ho Ha. destruct (Hg x) as [Hax Hpg']. rewrite Hax in Ha. destruct (Hpg' a Ha) as (Hch & _ & _).
    destruct (decide (guest_byte k' x = guest_byte (mm_kernel m) x)) as [Heq|Hne].
    - destruct (Hd o x a Ho Ha) as [?|?]; [left; congruence|right; eauto].
    - destruct (Hch Hne). right. by apply Hw. }
  split; [split; try done|done|].
  - split; try done. eapply Forall_impl; [exact Hm|]. intros r (h & ? & ? & Hlin). exists h. split_and!; try done.
    intros i Hi. cbn. by rewrite (proj1 (Hg _)), Hlin.
  - exists b. split_and!; [done| |].
    + apply (Hdiff (anon (mm_kernel m))); [done| |by auto]. intros g a Ha. by apply (proj2 (Hg g) a Ha).
    + intros Harm. destruct (Hdirty Harm) as [Htr Hd]. split; [done|].
      apply (Hdiff (fun p => anon (mm_kernel m) p /\ soft_dirty (mm_kernel m) p)); [done| |by auto].
      intros g a Ha [? ?]. destruct (proj2 (Hg g) a Ha) as (_ & ? & ?). auto.
Qed.

Lemma exact_inv m : set_up m -> file_exact m -> (soft_dirty_armed m = true -> tracks_writes) -> snap_inv m.
Proof.
  intros Hs (Hlen & b & Hb & Hx) Htr. split; [done|done|]. exists b. split_and!; [done| |].
  - intros o x a Ho _. left. by apply Hx.
  - intros Harm. split; [by apply Htr|]. intros o x a Ho _. left. by apply Hx.
Qed.

(** The same target is found after a write to it. *)
Lemma target_stable (m m' : MM) P : touched (snap_path target) P m m' ->
  from_snapshot_url (mm_disk m) url vol = Ok target -> from_snapshot_url (mm_disk m') url vol = Ok target.
Proof.
  intros Ht. destruct (t_file _ _ _ _ Ht) as (f & f' & Hf & Hf' & _). unfold from_snapshot_url. destruct vol as [v|].
  - intros (path & Hp & [= <-])%and_then_ok. cbn in Hf, Hf'. unfold memory_blob_to_path in *.
    apply and_then_ok in Hp as (path' & Hpath & Hp). rewrite Hpath. cbn [and_then]. destruct (negb _); [done|].
    destruct (mm_disk m !! path') as [[]|] eqn:Hd; simplify_eq/=; by destruct (mm_disk m' !! path) as [[]|].
  - intros (path & Hp & [= <-])%and_then_ok. cbn in Hf, Hf'. unfold url_to_path in *.
    apply and_then_ok in Hp as (path' & Hpath & Hp). rewrite Hpath. cbn [and_then].
    rewrite (t_other _ _ _ _ Ht path'). { destruct (mm_disk m !! path') as [[]|]; simplify_eq/=; done. }
    intros ->. cbn in Hp. by destruct (mm_disk m !! _) as [[]|].
Qed.

Lemma touched_set_up m m' P : touched (snap_path target) P m m' -> set_up m -> set_up m'.
Proof.
  intros Ht [? ? ? ?]. split; [by eapply target_stable|by rewrite (t_ranges _ _ _ _ Ht)|by rewrite (t_kernel _ _ _ _ Ht)|by rewrite (t_dirty_log _ _ _ _ Ht)].
Qed.

Lemma touched_inv m m' : touched (snap_path target) (better ranges (mm_kernel m)) m m' -> snap_inv m -> snap_inv m'.
Proof.
  intros Ht [Hs Hlen (b & Hb & Hanon & Hdirty)]. split; [by eapply touched_set_up|pose proof (t_len _ _ _ _ Ht); lia|].
  destruct (t_file _ _ _ _ Ht) as (f & f' & Hf & Hf' & Hbet). simplify_eq. exists f'. rewrite (t_kernel _ _ _ _ Ht), (t_armed _ _ _ _ Ht).
  assert (Hd : forall P, differs_only b (mm_kernel m) P -> differs_only f' (mm_kernel m) P).
  { intros P Hd o x a Ho Ha. destruct (Hd o x a Ho Ha) as [?|?]; [left|by right]. by eapply better_keeps. }
  split_and!; [done|by apply Hd|]. intros Harm. destruct (Hdirty Harm). split; [done|by apply Hd].
Qed.

(** Saving every page that can differ makes the file exact. *)
Lemma saved_exact m m' table b (P : Z -> Prop) :
  snap_inv m -> node_bytes (mm_disk m !! snap_path target) = Some b -> differs_only b (mm_kernel m) P ->
  (forall o x a, image_gpa layout o = Some x -> get_host_address (mm_kernel m) x = Some a -> P (a / host_page_size) -> in_ranges x table) ->
  touched (snap_path target) (saved ranges (mm_kernel m) table) m m' -> file_exact m'.
Proof.
  intros [Hs Hlen _] Hb Hd Htab Ht. pose proof (t_len _ _ _ _ Ht). split; [lia|]. destruct (t_file _ _ _ _ Ht) as (f & f' & Hf & Hf' & Hbet & Hsaved). simplify_eq.
  exists f'. split; [done|]. rewrite (t_kernel _ _ _ _ Ht). intros o x Ho.
  destruct (su_ready _ Hs) as [Hfit _ _ Hm]. rewrite Forall_forall in Hm.
  destruct (image_entry _ _ _ Ho) as (g & l & bo & Hin & Hr & ->). destruct (file_layout_entry ranges Hfit _ _ _ Hin) as (_ & _ & Hrng & _).
  destruct (Hm _ Hrng) as (h & _ & _ & Hlin). cbn in Hlin. specialize (Hlin (o - bo) ltac:(lia)).
  destruct (Hd o _ _ Ho Hlin) as [?|?]; [by eapply better_keeps|]. apply Hsaved; [done|]. by eapply Htab.
Qed.

(** ** Sending

    A success makes the file exact, a failure keeps the invariant, and nothing hangs
    or panics. *)
Lemma inv_tracks m : snap_inv m -> soft_dirty_armed m = true -> tracks_writes.
Proof. intros [_ _ (b & _ & _ & Hd)] Harm. by apply Hd. Qed.

Lemma inv_set_io m io : snap_inv m -> snap_inv (set_io io m).
Proof. intros [[? ? ? ?] ? ?]. by split. Qed.

Lemma overlay_sent m table b (P : Z -> Prop) :
  snap_inv m -> node_bytes (mm_disk m !! snap_path target) = Some b -> differs_only b (mm_kernel m) P ->
  (exists ps : list (MemoryRange * Z), ps.*1 = table /\ Forall (fun p => placed layout p.1 p.2) ps /\
    Forall (fun p => range_mapped (mm_kernel m) p.1) ps /\ StronglySorted (fun p p' => p.2 < p'.2) ps) ->
  (forall o x a, image_gpa layout o = Some x -> get_host_address (mm_kernel m) x = Some a -> P (a / host_page_size) -> in_ranges x table) ->
  wp (overlay_base target table)
    (fun _ m' => snap_inv m' /\ file_exact m' /\ soft_dirty_armed m' = soft_dirty_armed m) (fun _ m' => snap_inv m') m.
Proof.
  intros Hinv Hb Hd (ps & <- & Hpl & Hmap & Hsort) Hcov. pose proof (si_set_up _ Hinv) as Hs.
  eapply wp_mono; [apply (overlay_base_spec ranges (mr_fit _ (su_ready _ Hs)) target ps m b); try done; apply Hs| |]; cbn.
  - intros _ m' Ht. assert (Hx : file_exact m') by (by apply (saved_exact m m' ps.*1 b P)).
    split_and!; [|done|apply Ht]. apply exact_inv; [by eapply touched_set_up|done|]. rewrite (t_armed _ _ _ _ Ht). by apply inv_tracks.
  - intros _ m' Ht. by apply (touched_inv m).
Qed.

Lemma send_pagemap_anon_spec m : snap_inv m ->
  wp (send_pagemap_anon_memory url vol)
    (fun _ m' => snap_inv m' /\ file_exact m' /\ soft_dirty_armed m' = soft_dirty_armed m) (fun _ m' => snap_inv m') m.
Proof.
  intros Hinv. destruct (si_set_up _ Hinv) as [Ht Hr [Hfit Hsome Hpg Hmap] Hlog]. unfold send_pagemap_anon_memory. apply wp_bind, wp_get. rewrite Hr.
  destruct ranges as [|r0 rs] eqn:Hranges; [done|]. rewrite <- Hranges in *. clear r0 rs Hranges.
  unfold filter_memory_ranges_by_pagemap_anon.
  destruct (filter_loop _ _ _ _ _ _) as [[filtered stats]|e] eqn:Hf; cbn [and_then]; [|by apply wp_throw].
  apply wp_bind. rewrite Ht. apply wp_ret. destruct (si_file _ Hinv) as (b & Hb & Hanon & _).
  assert (Hps : 0 < host_page_size) by (pose proof law_page_size; lia).
  destruct (filtered_spec ranges Hfit (mm_kernel m) Hps Hpg Hmap _ _ (anon (mm_kernel m)) (get_anon_pages_sound (mm_kernel m)) _ _ Hf) as [Hplace Hcov].
  by apply (overlay_sent m filtered b (anon (mm_kernel m))).
Qed.

Lemma same_guest_exact m m' : same_guest (mm_kernel m) (mm_kernel m') -> mm_disk m' = mm_disk m -> file_exact m -> file_exact m'.
Proof. intros Hs Hd (Hlen & b & Hb & Hx). split; [by rewrite Hd|]. exists b. rewrite Hd. split; [done|]. intros o x Ho. rewrite (proj2 (Hs x)). by apply Hx. Qed.

Lemma same_guest_set_up m k' : same_guest (mm_kernel m) k' -> set_up m -> set_up (set_kernel k' m).
Proof. intros Hs [? ? ? ?]. split; try done. by eapply ready_same. Qed.

Lemma send_soft_dirty_spec m : snap_inv m ->
  wp (send_soft_dirty_memory url vol) (fun _ m' => snap_inv m' /\ file_exact m') (fun _ m' => snap_inv m') m.
Proof.
  intros Hinv. destruct (si_set_up _ Hinv) as [Ht Hr [Hfit Hsome Hpg Hmap] Hlog]. unfold send_soft_dirty_memory. apply wp_bind, wp_get. rewrite Hr.
  destruct ranges as [|r0 rs] eqn:Hranges; [done|]. rewrite <- Hranges in *. clear r0 rs Hranges.
  destruct (soft_dirty_armed m) eqn:Harm; cbn [negb].
  - apply wp_bind. rewrite Ht. apply wp_ret.
    unfold filter_memory_ranges_by_anon_and_soft_dirty. destruct (filter_loop _ _ _ _ _ _) as [[filtered stats]|e] eqn:Hf; [|by apply wp_throw].
    destruct (si_file _ Hinv) as (b & Hb & _ & Hdirty). destruct (Hdirty Harm) as [Htr Hd]. assert (Hps : 0 < host_page_size) by (pose proof law_page_size; lia).
    set (P := fun p => anon (mm_kernel m) p /\ soft_dirty (mm_kernel m) p) in *.
    assert (Hsound : forall h len bits i, 0 <= h < 2 ^ 64 -> anon_and_dirty_pages (mm_kernel m) h len = Ok bits ->
      h mod host_page_size = 0 /\ length bits = Z.to_nat (div_ceil len host_page_size) /\
      ((i < length bits)%nat -> P (h / host_page_size + Z.of_nat i) -> bits !! i = Some true)).
    { intros h len bits i Hh Hbits. destruct (anon_and_dirty_sound (mm_kernel m) h len bits i Hh Hbits) as (? & ? & Hi).
      split_and!; [done|done|]. intros Hlt [? ?]. by apply Hi. }
    destruct (filtered_spec ranges Hfit (mm_kernel m) Hps Hpg Hmap _ _ P Hsound _ _ Hf) as [Hplace Hcov].
    apply wp_bind. eapply wp_mono; [by apply (overlay_sent m filtered b P)| |done]. cbn beta. intros _ m1 (Hinv1 & Hx1 & Harm1).
    apply wp_bind, wp_get. pose proof (clear_soft_dirty_same (mm_kernel m1)) as Hc. destruct (clear_soft_dirty (mm_kernel m1)) as [r k'].
    apply wp_bind, wp_modify. assert (Hx2 : file_exact (set_kernel k' m1)) by (by apply (same_guest_exact m1)).
    pose proof (same_guest_set_up m1 k' Hc (si_set_up _ Hinv1)) as Hs2.
    destruct (is_ok r); [apply wp_ret|apply wp_modify].
    + split; [|done]. by apply exact_inv.
    + split; [|exact Hx2]. apply exact_inv; [|exact Hx2|done]. destruct Hs2. by split.
  - apply wp_bind. eapply wp_mono; [by apply send_pagemap_anon_spec| |done]. cbn beta. intros _ m1 (Hinv1 & Hx1 & Harm1).
    apply wp_bind, wp_get. destruct (probe_soft_dirty_support (mm_kernel m1)) as [armed k'] eqn:Hprobe.
    apply probe_spec in Hprobe as [Hsame Htr]. apply wp_bind, wp_modify.
    assert (Hx2 : file_exact (set_kernel k' m1)) by (by apply (same_guest_exact m1)).
    pose proof (same_guest_set_up m1 k' Hsame (si_set_up _ Hinv1)) as Hs2.
    destruct armed; [apply wp_modify|apply wp_ret].
    + split; [|exact Hx2]. apply exact_inv; [|exact Hx2|auto]. destruct Hs2. by split.
    + split; [|done]. apply exact_inv; [done|done|]. cbn. rewrite Harm1, Harm. done.
Qed.

Lemma send_full_spec m : snap_inv m ->
  wp (open_for_fresh_write target ;;; save_full target (snapshot_memory_ranges m) 0)
    (fun _ m' => snap_inv m' /\ file_exact m') (fun _ m' => snap_inv m') m.
Proof.
  intros Hinv. pose proof (si_set_up _ Hinv) as Hs. destruct (si_file _ Hinv) as (b & Hb & _ & Hdirty).
  destruct Hs as [Ht Hr [Hfit Hsome Hpg Hmap] Hlog]. rewrite Hr. unfold open_for_fresh_write. destruct (external target).
  - destruct (full_placed ranges Hfit) as (ps & Hfst & Hpl & Hsort).
    assert (Hall : Forall (fun p => range_mapped (mm_kernel m) p.1) ps) by (rewrite <- Hfst, Forall_fmap in Hmap; exact Hmap).
    pose proof (open_save_spec ranges Hfit target ps m b Hb Hpl Hall Hsort) as Hwp. rewrite Hfst in Hwp.
    assert (Heq : (open_read_write target;;; save_full target ranges 0) m = (open_read_write target;;; save_filtered target layout ranges) m).
    { unfold bind. destruct (open_read_write target m) as [[] m1]; [|done|done]. by apply save_full_filtered. }
    unfold wp in *. rewrite Heq. clear Heq. destruct ((open_read_write target;;; save_filtered target layout ranges) m) as [[| |] m']; [|by apply (touched_inv m)|done].
    assert (Hx : file_exact m').
    { pose proof (t_len _ _ _ _ Hwp). pose proof (si_len _ Hinv). split; [lia|].
      destruct (t_file _ _ _ _ Hwp) as (f & f' & Hf & Hf' & _ & Hsaved). exists f'. split; [done|]. rewrite (t_kernel _ _ _ _ Hwp).
      intros o x Ho. apply Hsaved; [done|]. destruct (image_entry _ _ _ Ho) as (g & l & bo & Hin & ? & ->).
      destruct (file_layout_entry ranges Hfit _ _ _ Hin) as (_ & _ & Hrng & _). exists (mkMemoryRange g l). split; [done|]. cbn. lia. }
    split; [|done]. apply exact_inv; [by eapply touched_set_up; [|apply Hinv]|done|]. rewrite (t_armed _ _ _ _ Hwp). by apply inv_tracks.
  - apply wp_bind, wp_bind, io_call_spec; intros io; [by apply inv_set_io|]. apply wp_bind, wp_get. cbn [mm_disk set_io].
    destruct (mm_disk m !! snap_path target); [|done]. apply wp_throw. by apply inv_set_io.
Qed.

Lemma send_spec ty m : snap_inv m -> wp (send (config ty)) (fun _ m' => snap_inv m' /\ file_exact m') (fun _ m' => snap_inv m') m.
Proof.
  intros Hinv. destruct (si_set_up _ Hinv) as [Ht Hr [Hfit Hsome Hpg Hmap] Hlog]. unfold send. apply wp_bind, wp_get.
  assert (Hne : snapshot_memory_ranges m <> []) by congruence. destruct (snapshot_memory_ranges m) as [|r0 rs] eqn:Hranges; [done|].
  rewrite <- Hranges. clear Hne Hranges. apply wp_bind. cbn [destination_url memory_vol_url snapshot_type]. rewrite Ht. apply wp_ret. rewrite Hlog.
  destruct ty; [by apply send_full_spec| |by apply send_soft_dirty_spec].
  eapply wp_mono; [by apply send_pagemap_anon_spec| |done]. cbn. by intros _ m' (? & ? & _).
Qed.

Lemma history_inv m0 m : snap_inv m0 -> history m0 m -> snap_inv m.
Proof.
  intros Hstart. induction 1 as [|m k' Hh IH Hg|m ty io r m' Hh IH Hsend]; [done|by apply guest_runs_inv|].
  pose proof (send_spec ty (set_io io m) (inv_set_io m io IH)) as Hwp. unfold wp in Hwp. rewrite Hsend in Hwp.
  destruct r; [apply Hwp|done|done].
Qed.

End history.
