(* ===== verification/SnapshotRestore.v ===== *)
(** Reading a memory file back, slow and fast, and a small kernel on which the
    snapshot code runs. *)
From stdpp Require Import base numbers strings gmap list sorting.
From S2P Require Import Prelude VirtioMem MemoryRanges SnapshotPages SnapshotPagesProofs SnapshotMemory SnapshotProofs.
#[local] Open Scope Z_scope.

(** ** [fill_saved_regions] *)
Section filling.
Context (b : Blob).

(** [n] bytes of the file at [pos] are in memory at [gpa]. *)
Definition filled (gpa pos n : Z) (mem mem' : Z -> Z) : Prop :=
  forall a, mem' a = if decide (gpa <= a < gpa + n) then blob_bytes b (pos + (a - gpa)) else mem a.

Lemma filled_none gpa pos mem : filled gpa pos 0 mem mem.
Proof. intros a. by rewrite decide_False by lia. Qed.

Lemma filled_app gpa pos n n' m1 m2 m3 : 0 <= n -> 0 <= n' ->
  filled gpa pos n m1 m2 -> filled (gpa + n) (pos + n) n' m2 m3 -> filled gpa pos (n + n') m1 m3.
Proof.
  intros Hn Hn' H12 H23 a. rewrite H23, H12.
  destruct (decide (gpa + n <= a < gpa + n + n')); [rewrite decide_True by lia; f_equal; lia|].
  destruct (decide (gpa <= a < gpa + n)); [by rewrite decide_True by lia|by rewrite decide_False by lia].
Qed.

Definition io_clean (io : list IoAnswer) : Prop := Forall (fun a => a <> IoError) io.

Lemma read_volatile_from_spec gpa count s (Q : Z -> Filling -> Prop) (X : MigratableError -> Filling -> Prop) :
  0 <= count -> fill_pos s + count <= blob_len b ->
  (~ io_clean (fill_io s) -> forall s', X IoFailed s') ->
  (forall n s', 0 <= n <= count -> filled gpa (fill_pos s) n (fill_mem s) (fill_mem s') -> fill_pos s' = fill_pos s + n ->
    (length (fill_io s') < length (fill_io s))%nat \/ n = count /\ fill_io s' = [] -> (io_clean (fill_io s) -> io_clean (fill_io s')) -> Q n s') ->
  wp (read_volatile_from b gpa count) Q X s.
Proof.
  intros Hc Hlen HX HQ. unfold wp, read_volatile_from. destruct (fill_io s) as [|[|n] io] eqn:Hio; cbn.
  - apply HQ; [lia|intros a; done|done|cbn; right; split; [lia|done]|done].
  - apply HX. intros Hcl. by apply Forall_cons in Hcl as [? _].
  - apply HQ; [lia|intros a; done|done|cbn; lia|by intros [_ ?]%Forall_cons].
Qed.

Lemma fill_loop_spec fuel r offset s s0 :
  0 <= range_gpa r -> range_gpa r + range_length r < 2 ^ 64 -> 0 <= offset < range_length r ->
  fill_pos s = fill_pos s0 + offset -> fill_pos s0 + range_length r <= blob_len b -> (length (fill_io s) < fuel)%nat ->
  filled (range_gpa r) (fill_pos s0) offset (fill_mem s0) (fill_mem s) ->
  (io_clean (fill_io s0) -> io_clean (fill_io s)) -> (length (fill_io s) <= length (fill_io s0))%nat ->
  wp (fill_loop fuel b r offset)
    (fun _ s' => filled (range_gpa r) (fill_pos s0) (range_length r) (fill_mem s0) (fill_mem s') /\ fill_pos s' = fill_pos s0 + range_length r /\
      (io_clean (fill_io s0) -> io_clean (fill_io s')) /\ (length (fill_io s') <= length (fill_io s0))%nat)
    (fun _ _ => ~ io_clean (fill_io s0)) s.
Proof.
  intros Hg Hend. revert offset s. induction fuel as [|fuel IH]; intros offset s Hoff Hpos Hlen Hfuel Hf Hcl Hle; [lia|].
  cbn [fill_loop]. apply wp_bind. rewrite wadd_small, wsub_small by (split; lia).
  apply read_volatile_from_spec; [lia|lia|by intros Hn _ Hc; apply Hn, Hcl|].
  intros n s' Hn Hf' Hpos' Hio Hcl'. rewrite wadd_small by (split; lia). rewrite Hpos in Hf'.
  pose proof (filled_app _ _ _ _ _ _ _ (proj1 Hoff) (proj1 Hn) Hf Hf') as Hboth.
  assert (length (fill_io s') <= length (fill_io s))%nat by (destruct Hio as [?|[_ ->]]; cbn; lia).
  case_decide as Hdone.
  - apply wp_ret. rewrite Hdone in Hboth. split_and!; [done|lia|auto|lia].
  - apply IH; [lia|lia|lia| |done|auto|lia]. destruct Hio as [?|[-> _]]; lia.
Qed.

Lemma fill_spec fuel rs off s :
  (forall r, r ∈ rs -> 0 <= range_gpa r /\ 0 < range_length r /\ range_gpa r + range_length r < 2 ^ 64) ->
  StronglySorted disjoint rs -> 0 <= off -> off + total_length rs < 2 ^ 64 ->
  fill_pos s = off -> off + total_length rs <= blob_len b -> (length (fill_io s) < fuel)%nat ->
  wp (fill_saved_regions fuel b rs)
    (fun _ s' => (forall g l bo i, (g, l, bo) ∈ gpa_to_file_offset off rs -> 0 <= i < l -> fill_mem s' (g + i) = blob_bytes b (bo + i)) /\
      forall x, ~ in_ranges x rs -> fill_mem s' x = fill_mem s x)
    (fun _ _ => ~ io_clean (fill_io s)) s.
Proof.
  revert off s. induction rs as [|r rs IH]; intros off s Hok Hsort Hoff Htot Hpos Hlen Hfuel; cbn [fill_saved_regions gpa_to_file_offset].
  { apply wp_ret. split; [set_solver|done]. }
  cbn [total_length foldr] in *. fold (total_length rs) in *. destruct (Hok r ltac:(set_solver)) as (Hg & Hl & Hend).
  apply StronglySorted_inv in Hsort as [Hsort Hall]. rewrite Forall_forall in Hall.
  assert (Hok' : forall r', r' ∈ rs -> 0 <= range_gpa r' /\ 0 < range_length r' /\ range_gpa r' + range_length r' < 2 ^ 64) by set_solver.
  pose proof (total_length_nonneg rs ltac:(intros ? ?; by apply Hok')) as Hn. rewrite wadd_small by (split; lia).
  apply wp_bind. eapply wp_mono; [apply (fill_loop_spec fuel r 0 s s); try lia; [apply filled_none|done]| |done].
  cbn beta. intros _ s1 (Hf & Hpos1 & Hcl & Hle).
  eapply wp_mono; [apply (IH (off + range_length r) s1); try done; lia| |cbn; tauto]. cbn beta. intros _ s2 [Hin Hout].
  split.
  - intros g l bo i [[= -> -> ->]|He]%elem_of_cons Hi; [|by apply (Hin _ l)]. rewrite Hout.
    + rewrite (Hf (range_gpa r + i)), decide_True by lia. f_equal. lia.
    + intros (r' & Hr' & Hx). specialize (Hall r' Hr'). unfold disjoint in Hall. lia.
  - intros x Hx. rewrite Hout by (intros (r' & Hr' & ?); apply Hx; exists r'; set_solver).
    rewrite (Hf x), decide_False; [done|]. intros Hr. apply Hx. exists r. set_solver.
Qed.

(** At the end of the file the loop turns for ever. *)
Lemma fill_truncated_spins fuel r offset s :
  0 <= offset < range_length r -> range_length r < 2 ^ 64 -> blob_len b <= fill_pos s -> fill_io s = [] ->
  (fill_loop fuel b r offset s).1 = Crashed.
Proof.
  intros Hoff Hlt Heof Hio. revert s Heof Hio. induction fuel as [|fuel IH]; intros s Heof Hio; [done|]. cbn [fill_loop].
  unfold bind, read_volatile_from. rewrite Hio. rewrite wsub_small by (split; lia).
  replace (Z.min (range_length r - offset) (Z.max 0 (blob_len b - fill_pos s))) with 0 by lia.
  rewrite wadd_small, Z.add_0_r by (split; lia). rewrite decide_False by lia. apply IH; [cbn; lia|done].
Qed.
End filling.

(** ** The fast way *)
Lemma saved_file_offset_spec map off rs :
  (forall r, r ∈ rs -> 0 < range_length r) -> 0 <= off -> off + total_length rs < 2 ^ 64 ->
  mkMemoryRange (map_gpa map) (map_size map) ∈ rs ->
  exists bo, saved_file_offset map rs off = (true, bo) /\ (map_gpa map, map_size map, bo) ∈ gpa_to_file_offset off rs.
Proof.
  intros Hpos. revert off. induction rs as [|r rs IH]; intros off Hoff Htot Hin; [set_solver|].
  cbn [saved_file_offset gpa_to_file_offset total_length foldr] in *. fold (total_length rs) in *.
  pose proof (Hpos r ltac:(set_solver)) as Hr. pose proof (total_length_nonneg rs ltac:(set_solver)) as Hn. rewrite wadd_small by (split; lia).
  case_decide as Hd; [destruct Hd as [-> ->]; exists off; set_solver|].
  apply elem_of_cons in Hin as [Heq|Hin]; [subst r; by destruct Hd|].
  destruct (IH ltac:(set_solver) (off + range_length r)) as (bo & -> & Hbo); [lia|lia|done|]. exists bo. set_solver.
Qed.

Definition node_blob (n : FileNode) : option Blob := match n with Regular b | BlockDevice b => Some b | _ => None end.

(** C27: A file that a snapshot leaves restores the guest's memory, both ways.
    Copied back with short reads, it gives every address of the ranges its byte and
    leaves the rest alone; the copy ends, and fails only if a read does.  Mapped, each
    mapping of a range gets the offset at which its bytes are. *)
Theorem snapshot_restores {K} `{ProcHost K} target ranges (m : MemoryManager K) node blob fuel s r s' :
  ranges_fit ranges -> file_exact target ranges m -> mm_disk m !! snap_path target = Some node -> node_blob node = Some blob ->
  fill_pos s = 0 -> (length (fill_io s) < fuel)%nat -> fill_saved_regions fuel blob ranges s = (r, s') ->
  r <> Crashed /\ (io_clean (fill_io s) -> r = Done tt) /\
  (r = Done tt -> forall x, (in_ranges x ranges -> fill_mem s' x = guest_byte (mm_kernel m) x) /\ (~ in_ranges x ranges -> fill_mem s' x = fill_mem s x)) /\
  forall map, mkMemoryRange (map_gpa map) (map_size map) ∈ ranges -> exists offset,
    (forall backing_file shared hugepages existing prefault file_offset,
      (region_backing backing_file shared hugepages existing prefault file_offset (saved_file_offset map ranges 0)).1 = SnapshotBacking offset) /\
    forall i, 0 <= i < map_size map -> blob_bytes blob (offset + i) = guest_byte (mm_kernel m) (map_gpa map + i).
Proof.
  intros Hfit (Hlen & b & Hb & Hmem) Hnode Hblob Hpos Hfuel Hrun. rewrite Hnode in Hlen, Hb.
  assert (Hbb : b = blob_bytes blob /\ total_length ranges <= blob_len blob) by (destruct node; cbn in *; by simplify_eq).
  destruct Hbb as [-> Hlong]. clear Hb Hlen Hnode.
  pose proof (fill_spec blob fuel ranges 0 s (rf_each _ Hfit) (rf_apart _ Hfit) ltac:(lia) (rf_total _ Hfit) Hpos Hlong Hfuel) as Hwp.
  unfold wp in Hwp. rewrite Hrun in Hwp. split_and!.
  - by destruct r.
  - intros Hcl. destruct r as [[]|e|]; [done|by destruct (Hwp Hcl)|done].
  - intros -> x. destruct Hwp as [Hin Hout]. split; [|apply Hout]. intros (q & Hq & Hx).
    destruct (saved_file_offset_spec (mkRamMapping 0 (range_gpa q) (range_length q) EmptyString false 0) 0 ranges) as (bo & _ & He);
      [intros r Hr; by apply (rf_each _ Hfit)|lia|apply Hfit|by destruct q|]. cbn in He.
    replace x with (range_gpa q + (x - range_gpa q)) by lia. rewrite (Hin _ (range_length q) bo) by (done || lia). apply Hmem.
    apply (entry_image _ _ (range_length q)); [by apply file_layout_sorted|done|lia].
  - intros map Hmap. destruct (saved_file_offset_spec map 0 ranges) as (bo & Hoff & He);
      [intros q Hq; by apply (rf_each _ Hfit)|lia|apply Hfit|done|].
    exists bo. split; [intros; by rewrite Hoff|]. intros i Hi. apply Hmem. apply (entry_image _ _ (map_size map)); [by apply file_layout_sorted|done|lia].
Qed.

(** ** A small kernel

    Guest addresses below 2^20 are mapped 16 pages up.  A page in [tk_anon] has a
    frame of its own; one in [tk_dirty] was written since the bits were cleared;
    [tk_log] is the hypervisor's dirty log. *)
Record ToyKernel := mkToy { tk_bytes : Z -> Z; tk_anon : list Z; tk_dirty : list Z; tk_log : list Z }.
Definition TOY_BASE : Z := 65536.
Definition TOY_SCRATCH : Z := 4096000.

Definition toy_entry (k : ToyKernel) (page : Z) : Z :=
  PAGEMAP_PRESENT_BIT + (if decide (page ∈ tk_dirty k) then PAGEMAP_SOFT_DIRTY_BIT else 0) + page mod 2 ^ 54.
Definition toy_flags (k : ToyKernel) (page : Z) : Z := if decide (page ∈ (fun p => p mod 2 ^ 54) <$> tk_anon k) then KPF_ANON else 0.

#[export] Instance toy_host : ProcHost ToyKernel := {|
  host_page_size := 4096;
  get_host_address k g := if decide (0 <= g < 1048576) then Some (g + TOY_BASE) else None;
  guest_byte := tk_bytes;
  proc_open _ _ := true;
  proc_read k f offset n := Words ((fun i => (match f with SelfPagemap => toy_entry | Kpageflags => toy_flags end) k (offset / 8 + Z.of_nat i)) <$> seq 0 n);
  clear_refs k := (Cleared, mkToy (tk_bytes k) (tk_anon k) [] (tk_log k));
  scratch_mmap k := (Some TOY_SCRATCH, k);
  scratch_write a k := (true, mkToy (tk_bytes k) (a / 4096 :: tk_anon k) (a / 4096 :: tk_dirty k) (tk_log k));
  scratch_munmap a k := mkToy (tk_bytes k) (filter (fun p => p <> a / 4096) (tk_anon k)) (filter (fun p => p <> a / 4096) (tk_dirty k)) (tk_log k);
|}.

(** A store of the guest. *)
Definition toy_store (g v : Z) (k : ToyKernel) : ToyKernel :=
  let page := (g + TOY_BASE) / 4096 in
  mkToy (fun a => if decide (a = g) then v else tk_bytes k a) (page :: tk_anon k) (page :: tk_dirty k) (page :: tk_log k).

Lemma flag_testbit x n : 0 <= n -> flag x (Z.shiftl 1 n) = Z.testbit x n.
Proof.
  intros Hn. unfold flag. rewrite Z.shiftl_1_l. destruct (Z.testbit x n) eqn:Hb.
  - apply bool_decide_eq_true. intros Heq. assert (Ht : Z.testbit (Z.land x (2 ^ n)) n = true) by (by rewrite Z.land_spec, Hb, Z.pow2_bits_true).
    by rewrite Heq, Z.testbit_0_l in Ht.
  - apply bool_decide_eq_false. intros Hne. apply Hne. apply Z.bits_inj'. intros i Hi. rewrite Z.land_spec, Z.pow2_bits_eqb, Z.testbit_0_l by lia.
    destruct (Z.eqb_spec n i) as [->|]; [by rewrite Hb|by rewrite andb_false_r].
Qed.

Lemma toy_entry_bits k page :
  flag (toy_entry k page) PAGEMAP_PRESENT_BIT = true /\ flag (toy_entry k page) PAGEMAP_SWAPPED_BIT = false /\
  flag (toy_entry k page) PAGEMAP_SOFT_DIRTY_BIT = bool_decide (page ∈ tk_dirty k) /\
  Z.land (toy_entry k page) PAGEMAP_PFN_MASK = page mod 2 ^ 54.
Proof.
  unfold toy_entry, PAGEMAP_PRESENT_BIT, PAGEMAP_SWAPPED_BIT, PAGEMAP_SOFT_DIRTY_BIT, PAGEMAP_PFN_MASK.
  rewrite !flag_testbit by lia. rewrite !Z.testbit_eqb by lia. rewrite !Z.shiftl_1_l.
  change (2 ^ 55 - 1) with (Z.ones 55). rewrite Z.land_ones by lia.
  pose proof (Z.mod_pos_bound page (2 ^ 54) ltac:(lia)) as Hp. set (q := page mod 2 ^ 54) in *. clearbody q.
  change (2 ^ 63) with 9223372036854775808. change (2 ^ 62) with 4611686018427387904.
  change (2 ^ 55) with 36028797018963968. change (2 ^ 54) with 18014398509481984 in Hp.
  destruct (decide (page ∈ tk_dirty k)) as [Hd|Hd].
  - rewrite bool_decide_eq_true_2 by done. split_and!; [apply Z.eqb_eq|apply Z.eqb_neq|apply Z.eqb_eq|]; Z.div_mod_to_equations; lia.
  - rewrite bool_decide_eq_false_2 by done. split_and!; [apply Z.eqb_eq|apply Z.eqb_neq|apply Z.eqb_neq|]; Z.div_mod_to_equations; lia.
Qed.

Lemma toy_words k page n i entry :
  ((fun i => toy_entry k (page * PAGEMAP_ENTRY_SIZE / 8 + Z.of_nat i)) <$> seq 0 n) !! i = Some entry -> entry = toy_entry k (page + Z.of_nat i).
Proof.
  rewrite list_lookup_fmap. intros (j & Hj & ->)%fmap_Some. apply lookup_seq in Hj as [-> _]. unfold PAGEMAP_ENTRY_SIZE. by rewrite Z.div_mul by lia.
Qed.

#[export] Instance toy_laws : ProcLaws ToyKernel.
Proof.
  refine {| anon k page := page ∈ tk_anon k; soft_dirty k page := page ∈ tk_dirty k; tracks_writes := True |}; try done.
  - intros k f offset n words [= <-]. by rewrite length_fmap, length_seq.
  - intros k page n words i entry [= <-] ->%toy_words Hanon. destruct (toy_entry_bits k (page + Z.of_nat i)) as (Hpres & _ & _ & Hpfn).
    right. split; [done|]. rewrite Hpfn. intros flags [= <-]. cbn. rewrite Z.add_0_r. unfold wmul, wrap, KPAGEFLAGS_ENTRY_SIZE, toy_flags.
    pose proof (Z.mod_pos_bound (page + Z.of_nat i) (2 ^ 54) ltac:(lia)). rewrite (Z.mod_small (_ * 8)) by lia. rewrite Z.div_mul by lia.
    rewrite decide_True; [done|]. by apply (list_elem_of_fmap_2 (fun p => p mod 2 ^ 54)).
  - intros k page n words i entry [= <-] ->%toy_words _ Hd. destruct (toy_entry_bits k (page + Z.of_nat i)) as (Hpres & _ & Hsd & _).
    right. split; [done|]. rewrite Hsd. by apply bool_decide_eq_true.
  - intros a k k' n words entry _ [= <-] Hhead. destruct n; [done|]. injection Hhead as <-. by destruct (toy_entry_bits k' (wmul 64 (a / 4096) PAGEMAP_ENTRY_SIZE / 8 + 0)) as (_ & ? & _).
Defined.

Lemma toy_store_runs g v k : guest_runs k (toy_store g v k).
Proof.
  intros g'. split; [done|]. intros a Ha. cbn in Ha. case_decide; simplify_eq. cbn.
  split_and!; [|intros Hin; apply elem_of_cons; by right|intros _ Hin; apply elem_of_cons; by right].
  case_decide as Heq; [|done]. subst. intros _. split; [|intros _]; apply elem_of_cons; by left.
Qed.

(** The dirty logs of the small kernel; the VMM's own bitmap is empty. *)
Definition toy_regions : list (Z * Z) := [(0, 8192); (16384, 4096)].
#[export] Instance toy_dirty : DirtyHost ToyKernel := {|
  guest_regions _ := toy_regions;
  find_region _ g := List.find (fun r => bool_decide (r.1 <= g < r.1 + r.2)) toy_regions;
  bitmap_get_and_reset _ k := ([0], k);
  get_dirty_log _ gpa size k :=
    let page i := (gpa + TOY_BASE) / 4096 + Z.of_nat i in
    (Some [foldr Z.lor 0 ((fun i => if decide (page i ∈ tk_log k) then Z.shiftl 1 (Z.of_nat i) else 0) <$> seq 0 (Z.to_nat (size / 4096)))],
     mkToy (tk_bytes k) (tk_anon k) (tk_dirty k) (filter (fun p => ~ (page 0%nat <= p < page (Z.to_nat (size / 4096)))) (tk_log k)));
|}.

(** A machine restored from the volume /vol, whose regions are [ranges]. *)
Definition toy_ranges : list MemoryRange := [mkMemoryRange 0 8192; mkMemoryRange 16384 4096].
Definition toy_target : MemorySnapshotFile := mkSnapshotFile "/vol" true.
Definition toy_file (ranges : list MemoryRange) (k : ToyKernel) : Blob :=
  mkBlob (fun o => match image_gpa (file_layout ranges) o with Some x => tk_bytes k x | None => 0 end) (total_length ranges).
Definition toy_memory : ToyKernel := mkToy (fun a => a mod 251) [] [] [].
Definition toy_machine (ranges : list MemoryRange) (base : Blob) (k : ToyKernel) : MemoryManager ToyKernel :=
  mkMM ranges false false [] [mkRamMapping 0 0 8192 "mem0" false 0; mkRamMapping 1 16384 4096 "mem0" false 0] k {["/vol" := Regular base]} 0 [].
Definition toy_send (ty : SnapshotType) (io : list IoAnswer) (m : MemoryManager ToyKernel) : outcome MigratableError unit * MemoryManager ToyKernel :=
  send (mkSnapshotConfig "file:///snap" (Some "/vol") ty) (set_io io m).
Definition toy_runs (g v : Z) (m : MemoryManager ToyKernel) : MemoryManager ToyKernel := set_kernel (toy_store g v (mm_kernel m)) m.

Lemma toy_fit : ranges_fit toy_ranges.
Proof.
  split; [|repeat constructor; unfold disjoint; cbn; lia|done].
  intros r [->|[->|[]%not_elem_of_nil]%elem_of_cons]%elem_of_cons; cbn; lia.
Qed.

Lemma toy_address (k : ToyKernel) g : 0 <= g < 1048576 -> get_host_address k g = Some (g + TOY_BASE).
Proof. intros Hg. cbn. by rewrite decide_True. Qed.

Lemma toy_set_up k : set_up "file:///snap" (Some "/vol") toy_target toy_ranges (toy_machine toy_ranges (toy_file toy_ranges k) k) /\
  file_exact toy_target toy_ranges (toy_machine toy_ranges (toy_file toy_ranges k) k).
Proof.
  split; [split; [done|done|split|done]|split].
  - apply toy_fit.
  - done.
  - repeat constructor.
  - apply Forall_cons; split; [exists TOY_BASE|apply Forall_singleton; exists (TOY_BASE + 16384)]; unfold TOY_BASE at 1 2;
      cbn [range_gpa range_length]; (split_and!; [lia|lia|]); intros i Hi; rewrite toy_address by lia; f_equal; lia.
  - done.
  - exists (blob_bytes (toy_file toy_ranges k)). split; [done|]. intros o x Ho. unfold toy_file. cbn [blob_bytes]. by rewrite Ho.
Qed.

(** A first soft-dirty snapshot arms the tracker; the second fails half-way; the third
    has short writes and succeeds. *)
Definition toy_first : MemoryManager ToyKernel := (toy_send SoftDirty [] (toy_runs 5000 7 (toy_machine toy_ranges (toy_file toy_ranges toy_memory) toy_memory))).2.
Definition toy_second : MemoryManager ToyKernel := (toy_send SoftDirty [IoCount 1; IoCount 0; IoCount 100; IoError] (toy_runs 16400 9 (toy_runs 17 8 toy_first))).2.

Definition toy_start : MemoryManager ToyKernel := toy_machine toy_ranges (toy_file toy_ranges toy_memory) toy_memory.
Notation toy_history := (history "file:///snap" (Some "/vol") toy_start).

Lemma toy_send_history ty io m : toy_history m -> toy_history (toy_send ty io m).2.
Proof. intros Hh. eapply history_snapshot; [exact Hh|apply surjective_pairing]. Qed.
Lemma toy_runs_history g v m : toy_history m -> toy_history (toy_runs g v m).
Proof. intros Hh. apply history_guest; [exact Hh|apply toy_store_runs]. Qed.

Lemma toy_second_history : toy_history (toy_runs 18 6 toy_second).
Proof.
  apply toy_runs_history, toy_send_history, toy_runs_history, toy_runs_history, toy_send_history, toy_runs_history, history_start.
Qed.


Lemma snapshot_restores_witness :
  let s := mkFilling (fun _ => 0) 0 [IoCount 3; IoCount 0] in
  let run := fill_saved_regions 3 (toy_file toy_ranges toy_memory) toy_ranges s in
  run.1 = Done tt /\ fill_mem run.2 20000 = 20000 mod 251 /\ fill_mem run.2 10000 = 0 /\
  forall i, 0 <= i < 4096 -> blob_bytes (toy_file toy_ranges toy_memory) (8192 + i) = (16384 + i) mod 251.
Proof.
  cbn zeta. set (s := mkFilling _ _ _). assert (Hrun : (fill_saved_regions 3 (toy_file toy_ranges toy_memory) toy_ranges s).1 = Done tt) by (by vm_compute).
  split; [exact Hrun|]. destruct (toy_set_up toy_memory) as [_ Hx]. fold toy_start in Hx.
  destruct (fill_saved_regions _ _ _ _) as [r s'] eqn:Hfill. cbn [fst snd] in *.
  destruct (snapshot_restores toy_target toy_ranges toy_start (Regular (toy_file toy_ranges toy_memory)) (toy_file toy_ranges toy_memory) 3 s r s'
    toy_fit Hx eq_refl eq_refl eq_refl ltac:(cbn; lia) Hfill) as (_ & _ & Hmem & Hmap).
  split_and!.
  - rewrite (proj1 (Hmem Hrun 20000)); [done|]. exists (mkMemoryRange 16384 4096). split; [by right; left|cbn; lia].
  - rewrite (proj2 (Hmem Hrun 10000)); [done|]. intros (q & [->|[->|[]%not_elem_of_nil]%elem_of_cons]%elem_of_cons & Hq); cbn in Hq; lia.
  - destruct (Hmap (mkRamMapping 1 16384 4096 "mem0" false 0)) as (offset & Hoff & Hbytes); [by right; left|].
    specialize (Hoff false false false false false 0). vm_compute in Hoff. injection Hoff as <-. exact Hbytes.
Defined.

(** ** Where a snapshot goes wrong *)

(** The order of the zones is that of a hash map, which differs from one process to
    the next.  A machine restored from a file with one order lays it out in another:
    its incremental snapshot succeeds and the file does not hold its memory. *)
Lemma zone_order_corrupts :
  let run := toy_send Incremental [] (toy_machine (rev toy_ranges) (toy_file toy_ranges toy_memory) toy_memory) in
  run.1 = Done tt /\ ~ file_exact toy_target (rev toy_ranges) run.2.
Proof.
  cbn zeta. split; [by vm_compute|]. intros (_ & b & Hb & Hx).
  specialize (Hx 0 16384 ltac:(by vm_compute)). vm_compute in Hb. injection Hb as <-. by vm_compute in Hx.
Qed.

(** A soft-dirty snapshot that goes to another copy of the base than the one before it
    succeeds and lacks the pages of the one before it. *)
Lemma other_destination_loses_pages :
  let base := toy_file toy_ranges toy_memory in
  let m := set_file (<["/other" := Regular base]> (mm_disk toy_start)) 0 toy_start in
  let m := (toy_send SoftDirty [] (toy_runs 5000 7 m)).2 in
  let run := send (mkSnapshotConfig "file:///snap" (Some "/other") SoftDirty) m in
  run.1 = Done tt /\ guest_byte (mm_kernel run.2) 5000 = 7 /\
  match mm_disk run.2 !! "/other" with Some (Regular b) => blob_bytes b 5000 = 5000 mod 251 | _ => False end.
Proof. by vm_compute. Qed.

Definition logging (d : Disk) (ranges : list MemoryRange) : MemoryManager ToyKernel :=
  let m := toy_machine ranges (mkBlob (fun _ => 0) 0) (mkToy (fun _ => 0) [] [] []) in
  mkMM (snapshot_memory_ranges m) false true [] (guest_ram_mappings m) (mm_kernel m) d 0 [].

(** With the dirty log, a second snapshot holds only what was written since the first,
    and zeros for the rest. *)
Lemma second_dirty_log_snapshot_loses :
  let m := toy_runs 5000 7 (logging {["/a" := Directory; "/b" := Directory]} toy_ranges) in
  let first := send (mkSnapshotConfig "file:///a" None Full) m in
  let second := send (mkSnapshotConfig "file:///b" None Full) first.2 in
  let byte path := match mm_disk second.2 !! path with Some (Regular b) => Some (blob_bytes b 5000) | _ => None end in
  (first.1, second.1) = (Done tt, Done tt) /\ (byte "/a/memory-ranges", byte "/b/memory-ranges") = (Some 7, Some 0).
Proof. by vm_compute. Qed.

(** With the dirty log, a range that is part of a region, as the plugged blocks of
    virtio-mem are, stops the process: an assertion fails. *)
Lemma dirty_log_of_plugged_blocks_panics :
  (send (mkSnapshotConfig "file:///a" None Full) (logging {["/a" := Directory]} [mkMemoryRange 0 4096])).1 = Crashed.
Proof. by vm_compute. Qed.
