(* ===== verification/MigrationProtocol.v ===== *)
(** The messages of a live migration (hypervisor/vm-migration/src/protocol.rs) and the
    receiving side (hypervisor/vmm/src/lib.rs, [vm_receive_migration], and
    [receive_memory_regions] of hypervisor/vmm/src/memory_manager.rs), which reads its
    socket one request at a time. *)
From stdpp Require Import base numbers list.
From S2P Require Import Prelude Bytes MemoryRanges.
#[local] Open Scope Z_scope.

(** ** Messages *)
Inductive Command := CmdInvalid | CmdStart | CmdConfig | CmdState | CmdMemory | CmdComplete | CmdAbandon | CmdMemoryFd.
#[export] Instance Command_eq_dec : EqDecision Command.
Proof. solve_decision. Defined.

Definition command_code (c : Command) : Z :=
  match c with
  | CmdInvalid => 0 | CmdStart => 1 | CmdConfig => 2 | CmdState => 3
  | CmdMemory => 4 | CmdComplete => 5 | CmdAbandon => 6 | CmdMemoryFd => 7
  end.
Definition command_of_code (z : Z) : option Command :=
  List.find (fun c => bool_decide (command_code c = z))
    [CmdInvalid; CmdStart; CmdConfig; CmdState; CmdMemory; CmdComplete; CmdAbandon; CmdMemoryFd].

Inductive Status := StatusInvalid | StatusOk | StatusError.
#[export] Instance Status_eq_dec : EqDecision Status.
Proof. solve_decision. Defined.
Definition status_code (s : Status) : Z := match s with StatusInvalid => 0 | StatusOk => 1 | StatusError => 2 end.
Definition status_of_code (z : Z) : option Status :=
  List.find (fun s => bool_decide (status_code s = z)) [StatusInvalid; StatusOk; StatusError].

Record Request := mkRequest { req_command : Command; req_length : Z }.
Record Response := mkResponse { resp_status : Status; resp_length : Z }.

(** Both are 16 bytes: a 16-bit code, six bytes of padding, a 64-bit length. *)
Definition MESSAGE_SIZE : nat := 16.
Definition message_bytes (code length : Z) : list Z := le_bytes 2 code ++ replicate 6 0 ++ le_bytes 8 length.
Definition request_bytes (r : Request) : list Z := message_bytes (command_code (req_command r)) (req_length r).
Definition response_bytes (r : Response) : list Z := message_bytes (status_code (resp_status r)) (resp_length r).

(** The bytes are copied over the value.  A code without a constructor makes a value
    that the type does not have. *)
Definition request_of_bytes (bytes : list Z) : option Request :=
  (fun c => mkRequest c (le_value (take 8 (drop 8 bytes)))) <$> command_of_code (le_value (take 2 bytes)).
Definition response_of_bytes (bytes : list Z) : option Response :=
  (fun s => mkResponse s (le_value (take 8 (drop 8 bytes)))) <$> status_of_code (le_value (take 2 bytes)).

Definition response_ok : Response := mkResponse StatusOk 0.
Definition response_error : Response := mkResponse StatusError 0.

(** ** Tables on the wire *)
Definition RANGE_SIZE : Z := 16.
(** The table is a [Vec] in memory, so the product does not wrap. *)
Definition table_length (table : list MemoryRange) : Z := RANGE_SIZE * Z.of_nat (length table).
Definition range_bytes (r : MemoryRange) : list Z := le_bytes 8 (range_gpa r) ++ le_bytes 8 (range_length r).
Definition table_bytes (table : list MemoryRange) : list Z := concat (range_bytes <$> table).

Fixpoint table_of_bytes (n : nat) (bytes : list Z) : list MemoryRange :=
  match n with
  | O => []
  | S n => mkMemoryRange (le_value (take 8 bytes)) (le_value (take 8 (drop 8 bytes))) :: table_of_bytes n (drop 16 bytes)
  end.

Definition new_from_tables (tables : list (list MemoryRange)) : list MemoryRange := concat tables.

(** ** The receiving side *)

(** What it does with a configuration and a state: reading them, checking the CPU,
    creating the machine and its memory, with the addresses that it covers. *)
Inductive StateAnswer := StateFailed | RestoreFailed | StateRestored.
Class RecvHost := {
  recv_memory_manager : list Z -> option ((Z -> Z) * (Z -> bool));
  recv_vm : list Z -> StateAnswer;
  recv_resume : bool;
}.

(** [rx_in] and [rx_out] are the bytes of the socket that are not read yet, [rx_vm] the
    machine with its memory, [rx_mapped] the addresses of the memory, [rx_chunks] how many bytes each read of memory returns,
    [rx_open] whether the loop is still running. *)
Record Receiver := mkReceiver {
  rx_in : list Z;
  rx_out : list Z;
  rx_started : bool;
  rx_memory : option (Z -> Z);
  rx_mapped : Z -> bool;
  rx_vm : option (Z -> Z);
  rx_running : bool;
  rx_chunks : list Z;
  rx_open : bool;
}.

Definition rx_new (chunks : list Z) : Receiver := mkReceiver [] [] false None (fun _ => false) None false chunks true.

(** A turn of the loop: it waits for more bytes, or it ends, or the code panics, or it
    reads a command that does not exist. *)
Inductive Turn := Blocked | Went (r : Receiver) | RxPanic | RxUndefined.

Section setters.
Definition rx_set_in (i : list Z) (r : Receiver) : Receiver :=
  mkReceiver i (rx_out r) (rx_started r) (rx_memory r) (rx_mapped r) (rx_vm r) (rx_running r) (rx_chunks r) (rx_open r).
Definition rx_set_out (o : list Z) (r : Receiver) : Receiver :=
  mkReceiver (rx_in r) o (rx_started r) (rx_memory r) (rx_mapped r) (rx_vm r) (rx_running r) (rx_chunks r) (rx_open r).
Definition rx_set_started (b : bool) (r : Receiver) : Receiver :=
  mkReceiver (rx_in r) (rx_out r) b (rx_memory r) (rx_mapped r) (rx_vm r) (rx_running r) (rx_chunks r) (rx_open r).
Definition rx_set_memory (m : option (Z -> Z)) (r : Receiver) : Receiver :=
  mkReceiver (rx_in r) (rx_out r) (rx_started r) m (rx_mapped r) (rx_vm r) (rx_running r) (rx_chunks r) (rx_open r).
Definition rx_set_vm (v : option (Z -> Z)) (running : bool) (r : Receiver) : Receiver :=
  mkReceiver (rx_in r) (rx_out r) (rx_started r) (rx_memory r) (rx_mapped r) v running (rx_chunks r) (rx_open r).
Definition rx_set_chunks (c : list Z) (r : Receiver) : Receiver :=
  mkReceiver (rx_in r) (rx_out r) (rx_started r) (rx_memory r) (rx_mapped r) (rx_vm r) (rx_running r) c (rx_open r).
Definition rx_set_mapped (f : Z -> bool) (r : Receiver) : Receiver :=
  mkReceiver (rx_in r) (rx_out r) (rx_started r) (rx_memory r) f (rx_vm r) (rx_running r) (rx_chunks r) (rx_open r).
Definition rx_close (r : Receiver) : Receiver :=
  mkReceiver (rx_in r) (rx_out r) (rx_started r) (rx_memory r) (rx_mapped r) (rx_vm r) (rx_running r) (rx_chunks r) false.
End setters.

Definition respond (resp : Response) (r : Receiver) : Receiver := rx_set_out (rx_out r ++ response_bytes resp) r.

(** [read_exact] *)
Definition rx_read (n : Z) (r : Receiver) (k : list Z -> Receiver -> Turn) : Turn :=
  if decide (Z.of_nat (length (rx_in r)) < n) then Blocked
  else k (take (Z.to_nat n) (rx_in r)) (rx_set_in (drop (Z.to_nat n) (rx_in r)) r).

(** Bytes into the memory. *)
Definition overlay_bytes (gpa : Z) (bytes : list Z) (mem : Z -> Z) : Z -> Z := fun a =>
  if decide (gpa <= a < gpa + Z.of_nat (length bytes)) then default 0 (bytes !! Z.to_nat (a - gpa)) else mem a.

(** [read_volatile_from] of a socket: at least one byte, when there is one. *)
Definition rx_chunk (count : Z) (r : Receiver) : Z * Receiver :=
  match rx_chunks r with
  | [] => (Z.min count (Z.of_nat (length (rx_in r))), r)
  | c :: rest => (Z.min (Z.min count (Z.max 1 c)) (Z.of_nat (length (rx_in r))), rx_set_chunks rest r)
  end.

(** A copy waits for bytes, or it meets an address that is not mapped, or it is done. *)
Inductive Received := RcvWaits | RcvError (r : Receiver) | RcvDone (mem : Z -> Z) (r : Receiver).

(** The loop over the bytes of one range; the fuel is enough for the chunks and what is
    left after them. *)
Fixpoint receive_range (fuel : nat) (range : MemoryRange) (offset : Z) (mem : Z -> Z) (r : Receiver) : Received :=
  match fuel with
  | O => RcvWaits
  | S fuel =>
    if negb (rx_mapped r (wadd 64 (range_gpa range) offset)) then RcvError r
    else
      let '(n, r) := rx_chunk (wsub 64 (range_length range) offset) r in
      let mem := overlay_bytes (wadd 64 (range_gpa range) offset) (take (Z.to_nat n) (rx_in r)) mem in
      let r := rx_set_in (drop (Z.to_nat n) (rx_in r)) r in
      let offset := wadd 64 offset n in
      if decide (offset = range_length range) then RcvDone mem r else receive_range fuel range offset mem r
  end.

Fixpoint receive_memory_regions (ranges : list MemoryRange) (mem : Z -> Z) (r : Receiver) : Received :=
  match ranges with
  | [] => RcvDone mem r
  | range :: rest =>
    match receive_range (S (length (rx_chunks r))) range 0 mem r with
    | RcvDone mem r => receive_memory_regions rest mem r
    | o => o
    end
  end.

Definition vm_receive_memory (req : Request) (mem : Z -> Z) (r : Receiver) : Turn :=
  if decide (req_length req mod RANGE_SIZE <> 0) then RxPanic
  else rx_read (req_length req) r (fun bytes r =>
    match receive_memory_regions (table_of_bytes (Z.to_nat (req_length req / RANGE_SIZE)) bytes) mem r with
    | RcvWaits => Blocked
    | RcvError r => Went (rx_close (respond response_error r))
    | RcvDone mem r => Went (respond response_ok (rx_set_memory (Some mem) r))
    end).

Section receiving.
Context `{RecvHost}.

Definition vm_receive_config (req : Request) (r : Receiver) : Turn :=
  rx_read (req_length req) r (fun data r =>
    match recv_memory_manager data with
    | None => Went (rx_close r)
    | Some (mem, mapped) => Went (respond response_ok (rx_set_mapped mapped (rx_set_memory (Some mem) r)))
    end).

(** The memory manager has been taken out of its variable. *)
Definition vm_receive_state (req : Request) (mem : Z -> Z) (r : Receiver) : Turn :=
  rx_read (req_length req) (rx_set_memory None r) (fun data r =>
    match recv_vm data with
    | StateFailed => Went (rx_close r)
    | RestoreFailed => Went (rx_close (respond response_error r))
    | StateRestored => Went (respond response_ok (rx_set_vm (Some mem) false r))
    end).

(** One turn of [vm_receive_migration].  The socket carries no descriptors: the
    [file.unwrap()] of [CmdMemoryFd] panics on the first bytes that arrive. *)
Definition receive_turn (r : Receiver) : Turn :=
  rx_read (Z.of_nat MESSAGE_SIZE) r (fun bytes r =>
    match request_of_bytes bytes with
    | None => RxUndefined
    | Some req =>
      match req_command req with
      | CmdInvalid => Went r
      | CmdStart => Went (respond response_ok (rx_set_started true r))
      | CmdConfig => if negb (rx_started r) then Went (respond response_error r) else vm_receive_config req r
      | CmdState =>
        if negb (rx_started r) then Went (respond response_error r)
        else match rx_memory r with Some mem => vm_receive_state req mem r | None => Went (respond response_error r) end
      | CmdMemory =>
        if negb (rx_started r) then Went (respond response_error r)
        else match rx_memory r with Some mem => vm_receive_memory req mem r | None => Went (respond response_error r) end
      | CmdMemoryFd => if negb (rx_started r) then Went (respond response_error r) else if decide (rx_in r = []) then Blocked else RxPanic
      | CmdComplete =>
        Went (rx_close (match rx_vm r with
          | Some mem => if recv_resume then respond response_ok (rx_set_vm (Some mem) true r) else r
          | None => respond response_error r
          end))
      | CmdAbandon => Went (rx_close (respond response_ok (rx_set_vm None false r)))
      end
    end).

(** Turns until there is a response to read. *)
Fixpoint serve (fuel : nat) (r : Receiver) : Turn :=
  if decide (MESSAGE_SIZE <= length (rx_out r))%nat then Went r
  else if negb (rx_open r) then Went r
  else match fuel with
  | O => Blocked
  | S fuel => match receive_turn r with Went r => serve fuel r | t => t end
  end.
End receiving.
