(* ===== verification/MigrationProtocolProofs.v ===== *)
(** The messages of a migration are read as they were written, and the receiving side
    turns a table and the bytes that follow it into memory. *)
From stdpp Require Import base numbers list sorting.
From S2P Require Import Prelude Bytes MemoryRanges SnapshotPages SnapshotMemory SnapshotProofs MigrationProtocol.
#[local] Open Scope Z_scope.

(** ** Messages *)
Lemma message_bytes_length code len : length (message_bytes code len) = MESSAGE_SIZE.
Proof. unfold message_bytes. by rewrite !length_app, !le_bytes_length, length_replicate. Qed.

Lemma message_fields code len : 0 <= code < 2 ^ 16 -> 0 <= len < 2 ^ 64 ->
  le_value (take 2 (message_bytes code len)) = code /\ le_value (take 8 (drop 8 (message_bytes code len))) = len.
Proof.
  intros Hc Hl. unfold message_bytes. split.
  - rewrite take_app_le by (by rewrite le_bytes_length). rewrite take_ge by (by rewrite le_bytes_length). by apply le_value_bytes.
  - rewrite app_assoc, drop_app_length' by (by rewrite length_app, le_bytes_length, length_replicate).
    rewrite take_ge by (by rewrite le_bytes_length). by apply le_value_bytes.
Qed.

Lemma request_roundtrip r : 0 <= req_length r < 2 ^ 64 -> request_of_bytes (request_bytes r) = Some r.
Proof.
  intros Hl. destruct (message_fields (command_code (req_command r)) (req_length r)) as [Hc Hlen]; [destruct (req_command r); cbn; lia|done|].
  unfold request_of_bytes, request_bytes. rewrite Hc, Hlen. by destruct r as [[] ?].
Qed.

Lemma response_roundtrip r : 0 <= resp_length r < 2 ^ 64 -> response_of_bytes (response_bytes r) = Some r.
Proof.
  intros Hl. destruct (message_fields (status_code (resp_status r)) (resp_length r)) as [Hc Hlen]; [destruct (resp_status r); cbn; lia|done|].
  unfold response_of_bytes, response_bytes. rewrite Hc, Hlen. by destruct r as [[] ?].
Qed.

Definition range_ok (r : MemoryRange) : Prop := 0 <= range_gpa r /\ 0 < range_length r /\ range_gpa r + range_length r < 2 ^ 64.

Lemma range_bytes_length r : length (range_bytes r) = 16%nat.
Proof. unfold range_bytes. by rewrite length_app, !le_bytes_length. Qed.

Lemma table_bytes_length table : Z.of_nat (length (table_bytes table)) = table_length table.
Proof.
  unfold table_length, RANGE_SIZE, table_bytes. induction table as [|r table IH]; [done|].
  cbn [fmap list_fmap concat length]. rewrite length_app, range_bytes_length. lia.
Qed.

Lemma table_roundtrip table : Forall range_ok table -> table_of_bytes (length table) (table_bytes table) = table.
Proof.
  induction 1 as [|r table Hr Hall IH]; [done|]. unfold table_bytes. cbn [fmap list_fmap concat length table_of_bytes].
  fold (table_bytes table). destruct Hr as (? & ? & ?). unfold range_bytes. f_equal.
  - rewrite <- app_assoc, take_app_length', drop_app_length', take_app_length' by (by rewrite le_bytes_length).
    rewrite !le_value_bytes by (cbn; lia). by destruct r.
  - rewrite drop_app_length' by (by rewrite length_app, !le_bytes_length). exact IH.
Qed.

(** ** Memory *)
Lemma overlay_bytes_app gpa b1 b2 mem a :
  overlay_bytes (gpa + Z.of_nat (length b1)) b2 (overlay_bytes gpa b1 mem) a = overlay_bytes gpa (b1 ++ b2) mem a.
Proof.
  unfold overlay_bytes. rewrite length_app.
  destruct (decide (gpa + Z.of_nat (length b1) <= a < _)) as [Ha|Ha].
  - rewrite decide_True by lia. rewrite lookup_app_r by lia. do 2 f_equal. lia.
  - destruct (decide (gpa <= a < gpa + Z.of_nat (length b1))) as [Hb|Hb].
    + rewrite decide_True by lia. by rewrite lookup_app_l by lia.
    + by rewrite decide_False by lia.
Qed.

Lemma overlay_bytes_ext gpa bytes mem mem' : (forall a, mem a = mem' a) -> forall a, overlay_bytes gpa bytes mem a = overlay_bytes gpa bytes mem' a.
Proof. intros Hm a. unfold overlay_bytes. by rewrite Hm. Qed.

Lemma overlay_bytes_nil gpa mem a : overlay_bytes gpa [] mem a = mem a.
Proof. unfold overlay_bytes. rewrite decide_False; [done|]. cbn. lia. Qed.

(** The bytes of a table, written where the table says. *)
Fixpoint deliver (table : list MemoryRange) (bytes : list Z) (mem : Z -> Z) : Z -> Z :=
  match table with
  | [] => mem
  | r :: rest => deliver rest (drop (Z.to_nat (range_length r)) bytes) (overlay_bytes (range_gpa r) (take (Z.to_nat (range_length r)) bytes) mem)
  end.

Lemma deliver_ext table bytes mem mem' : (forall a, mem a = mem' a) -> forall a, deliver table bytes mem a = deliver table bytes mem' a.
Proof. revert bytes mem mem'. induction table as [|r rest IH]; intros bytes mem mem' Hm; [done|]. cbn. by apply IH, overlay_bytes_ext. Qed.

(** All but the input and the chunks is as before. *)
Definition rx_same (r r' : Receiver) : Prop :=
  rx_out r' = rx_out r /\ rx_started r' = rx_started r /\ rx_memory r' = rx_memory r /\ rx_mapped r' = rx_mapped r /\ rx_vm r' = rx_vm r /\
  rx_running r' = rx_running r /\ rx_open r' = rx_open r.

Lemma receive_range_spec fuel range offset mem r :
  range_ok range -> 0 <= offset < range_length range -> (length (rx_chunks r) < fuel)%nat ->
  range_length range - offset <= Z.of_nat (length (rx_in r)) ->
  (forall x, range_gpa range <= x < range_gpa range + range_length range -> rx_mapped r x = true) ->
  let n := Z.to_nat (range_length range - offset) in
  exists mem' r', receive_range fuel range offset mem r = RcvDone mem' r' /\
    (forall a, mem' a = overlay_bytes (range_gpa range + offset) (take n (rx_in r)) mem a) /\
    rx_in r' = drop n (rx_in r) /\ rx_same r r'.
Proof.
  intros (Hg & Hl & Hend). cbn zeta. revert offset mem r. induction fuel as [|fuel IH]; intros offset mem r Hoff Hfuel Hin Hmap; [lia|].
  cbn [receive_range]. rewrite wsub_small, wadd_small by (split; lia). rewrite (Hmap (range_gpa range + offset)) by lia. cbn [negb].
  assert (Hchunk : exists n r1, rx_chunk (range_length range - offset) r = (n, r1) /\ 0 <= n <= range_length range - offset /\
    rx_in r1 = rx_in r /\ rx_same r r1 /\ (n = range_length range - offset \/ 0 < n /\ (length (rx_chunks r1) < length (rx_chunks r))%nat)).
  { unfold rx_chunk. destruct (rx_chunks r) as [|c rest] eqn:Hc; eexists _, _; (split; [reflexivity|]).
    - split_and!; [lia|lia|done|done..|]. left. lia.
    - cbn. split_and!; [lia|lia|done|done..|]. right. lia. }
  destruct Hchunk as (n & r1 & -> & Hn & Hin1 & Hs1 & Hprog). rewrite wadd_small by (split; lia). rewrite Hin1.
  case_decide as Hdone.
  - eexists _, _. split; [reflexivity|]. cbn. replace (range_length range - offset) with n by lia. split_and!; try done; apply Hs1.
  - destruct Hprog as [?|[Hn0 Hless]]; [lia|].
    destruct (IH (offset + n) (overlay_bytes (range_gpa range + offset) (take (Z.to_nat n) (rx_in r)) mem) (rx_set_in (drop (Z.to_nat n) (rx_in r)) r1))
      as (mem' & r' & -> & Hmem & Hin' & Hs'); [lia|cbn; lia|cbn; rewrite length_drop; lia| |].
    { intros x Hx. cbn. destruct Hs1 as (_ & _ & _ & -> & _). by apply Hmap. }
    exists mem', r'. split; [done|]. cbn [rx_in rx_set_in] in *. split_and!.
    + intros a. rewrite Hmem. replace (range_gpa range + (offset + n)) with (range_gpa range + offset + Z.of_nat (length (take (Z.to_nat n) (rx_in r))))
        by (rewrite length_take; lia).
      rewrite overlay_bytes_app. f_equal. rewrite take_take_drop. f_equal. lia.
    + rewrite Hin', drop_drop. f_equal. lia.
    + unfold rx_same in *. cbn in *. naive_solver congruence.
Qed.

Lemma receive_memory_regions_spec table mem r bytes rest :
  Forall range_ok table -> rx_in r = bytes ++ rest -> Z.of_nat (length bytes) = total_length table ->
  Forall (fun q => forall x, range_gpa q <= x < range_gpa q + range_length q -> rx_mapped r x = true) table ->
  exists mem' r', receive_memory_regions table mem r = RcvDone mem' r' /\
    (forall a, mem' a = deliver table bytes mem a) /\ rx_in r' = rest /\ rx_same r r'.
Proof.
  intros Hall. revert mem r bytes. induction Hall as [|range table Hr Hall IH]; intros mem r bytes Hin Hlen Hmap.
  - destruct bytes; [|done]. exists mem, r. done.
  - cbn [total_length foldr] in Hlen. fold (total_length table) in Hlen. destruct Hr as (Hg & Hl & Hend).
    apply Forall_cons in Hmap as [Hmr Hmap]. assert (Hn : 0 <= total_length table).
    { apply total_length_nonneg. intros q Hq. rewrite Forall_forall in Hall. by apply Hall. }
    cbn [receive_memory_regions]. destruct (receive_range_spec (S (length (rx_chunks r))) range 0 mem r) as (mem1 & r1 & -> & Hmem1 & Hin1 & Hs1);
      [done|lia|lia|rewrite Hin, length_app; lia|done|].
    rewrite Z.sub_0_r, Z.add_0_r in *. rewrite Hin in *. rewrite take_app_le in Hmem1 by lia. rewrite drop_app_le in Hin1 by lia.
    destruct (IH mem1 r1 _ Hin1) as (mem2 & r2 & -> & Hmem2 & Hin2 & Hs2); [rewrite length_drop; lia|by destruct Hs1 as (_ & _ & _ & -> & _)|].
    exists mem2, r2. split; [done|]. cbn [deliver]. split_and!; [|done|unfold rx_same in *; naive_solver congruence].
    intros a. rewrite Hmem2. by apply deliver_ext.
Qed.

(** ** Turns *)
Lemma rx_read_app n r a b k : rx_in r = a ++ b -> n = Z.of_nat (length a) -> rx_read n r k = k a (rx_set_in b r).
Proof.
  intros Hin ->. unfold rx_read. rewrite Hin, length_app, decide_False by lia. rewrite Nat2Z.id.
  by rewrite take_app_length, drop_app_length.
Qed.

Lemma request_bytes_length req : Z.of_nat (length (request_bytes req)) = Z.of_nat MESSAGE_SIZE.
Proof. unfold request_bytes. by rewrite message_bytes_length. Qed.

(** The receiver between two requests. *)
Record rx_ready (mem : option (Z -> Z)) (mapped : Z -> bool) (r : Receiver) : Prop := {
  rr_out : rx_out r = [];
  rr_started : rx_started r = true;
  rr_memory : rx_memory r = mem;
  rr_mapped : is_Some mem -> rx_mapped r = mapped;
  rr_vm : rx_vm r = None;
  rr_open : rx_open r = true;
}.

Lemma memory_turn `{RecvHost} table bytes mem mapped r :
  Forall range_ok table -> table_length table < 2 ^ 64 -> rx_ready (Some mem) mapped r ->
  rx_in r = request_bytes (mkRequest CmdMemory (table_length table)) ++ table_bytes table ++ bytes ->
  Z.of_nat (length bytes) = total_length table ->
  Forall (fun q => forall x, range_gpa q <= x < range_gpa q + range_length q -> mapped x = true) table ->
  exists mem' r', receive_turn r = Went (respond response_ok r') /\ rx_in r' = [] /\ rx_ready (Some mem') mapped r' /\
    forall a, mem' a = deliver table bytes mem a.
Proof.
  intros Hok Hlen [Ho Hs Hm Hp Hv Hop] Hin Hb Hmap. unfold receive_turn. erewrite rx_read_app; [|exact Hin|by rewrite request_bytes_length].
  assert (H0 : 0 <= table_length table) by (unfold table_length, RANGE_SIZE; lia).
  rewrite request_roundtrip by done. cbn [req_command rx_started rx_set_in rx_memory]. rewrite Hs, Hm. cbn [negb].
  unfold vm_receive_memory. cbn [req_length].
  assert (Hdiv : table_length table / RANGE_SIZE = Z.of_nat (length table) /\ table_length table mod RANGE_SIZE = 0).
  { unfold table_length, RANGE_SIZE. rewrite Z.mul_comm, Z.div_mul, Z.mod_mul by lia. done. }
  destruct Hdiv as [Hdiv Hmod]. rewrite decide_False by (by intros ?). erewrite rx_read_app; [|reflexivity|by rewrite table_bytes_length].
  rewrite Hdiv, Nat2Z.id, table_roundtrip by done.
  edestruct (receive_memory_regions_spec table mem) as (mem' & r' & -> & Hmem & Hin' & Hsame); [done| |exact Hb| |].
  { cbn. by rewrite app_nil_r. }
  { cbn. by rewrite (Hp (mk_is_Some _ _ eq_refl)). }
  exists mem', (rx_set_memory (Some mem') r'). destruct Hsame as (So & Ss & _ & Sm & Sv & _ & Sop). cbn in *.
  split_and!; [done|done| |done]. split; cbn; try congruence. intros _. rewrite Sm. by apply Hp.
Qed.

Lemma serve_turn `{RecvHost} n r r' : rx_out r = [] -> rx_open r = true -> receive_turn r = Went r' -> (MESSAGE_SIZE <= length (rx_out r'))%nat ->
  serve (S n) r = Went r'.
Proof.
  intros Ho Hop Ht Hlen. cbn [serve]. rewrite Ho, decide_False, Hop, Ht by (cbn; unfold MESSAGE_SIZE; lia). cbn [negb].
  destruct n; cbn [serve]; by rewrite decide_True.
Qed.

Lemma start_turn `{RecvHost} chunks r : r = rx_set_in (request_bytes (mkRequest CmdStart 0)) (rx_new chunks) ->
  exists r', receive_turn r = Went (respond response_ok r') /\ rx_in r' = [] /\ rx_ready None (fun _ => false) r'.
Proof.
  intros ->. unfold receive_turn. erewrite (rx_read_app _ _ _ []); [|cbn [rx_in rx_set_in]; by rewrite app_nil_r|by rewrite request_bytes_length].
  rewrite request_roundtrip by (cbn; lia). cbn [req_command]. eexists. split_and!; [reflexivity|done|by split].
Qed.

Lemma config_turn `{RecvHost} data mem0 mapped0 mem mapped r :
  Z.of_nat (length data) < 2 ^ 64 -> rx_ready mem0 mapped0 r -> recv_memory_manager data = Some (mem, mapped) ->
  rx_in r = request_bytes (mkRequest CmdConfig (Z.of_nat (length data))) ++ data ->
  exists r', receive_turn r = Went (respond response_ok r') /\ rx_in r' = [] /\ rx_ready (Some mem) mapped r'.
Proof.
  intros Hlen [Ho Hs Hm Hp Hv Hop] Hrecv Hin. unfold receive_turn. erewrite rx_read_app; [|exact Hin|by rewrite request_bytes_length].
  rewrite request_roundtrip by (cbn; lia). cbn [req_command rx_started rx_set_in]. rewrite Hs. cbn [negb].
  unfold vm_receive_config. erewrite (rx_read_app _ _ _ []); [|cbn [rx_in rx_set_in]; by rewrite app_nil_r|done].
  rewrite Hrecv. eexists. split_and!; [reflexivity|done|]. split; cbn; done.
Qed.

(** After the state the machine exists, with the memory that was received. *)
Lemma state_turn `{RecvHost} data mem mapped r :
  Z.of_nat (length data) < 2 ^ 64 -> rx_ready (Some mem) mapped r -> recv_vm data = StateRestored ->
  rx_in r = request_bytes (mkRequest CmdState (Z.of_nat (length data))) ++ data ->
  exists r', receive_turn r = Went (respond response_ok r') /\ rx_in r' = [] /\ rx_out r' = [] /\ rx_open r' = true /\ rx_vm r' = Some mem.
Proof.
  intros Hlen [Ho Hs Hm Hp Hv Hop] Hrecv Hin. unfold receive_turn. erewrite rx_read_app; [|exact Hin|by rewrite request_bytes_length].
  rewrite request_roundtrip by (cbn; lia). cbn [req_command rx_started rx_memory rx_set_in]. rewrite Hs, Hm. cbn [negb].
  unfold vm_receive_state. erewrite (rx_read_app _ _ _ []); [|cbn [rx_in rx_set_in rx_set_memory]; by rewrite app_nil_r|done].
  rewrite Hrecv. eexists. split_and!; [reflexivity|done|done|done|done].
Qed.

Lemma complete_turn `{RecvHost} mem r :
  rx_open r = true -> rx_out r = [] -> rx_vm r = Some mem -> recv_resume = true -> rx_in r = request_bytes (mkRequest CmdComplete 0) ->
  exists r', receive_turn r = Went (respond response_ok r') /\ rx_out r' = [] /\ rx_vm r' = Some mem /\ rx_running r' = true.
Proof.
  intros Hop Ho Hv Hres Hin. unfold receive_turn. erewrite (rx_read_app _ _ _ []); [|by rewrite app_nil_r|by rewrite request_bytes_length].
  rewrite request_roundtrip by (cbn; lia). cbn [req_command rx_vm rx_set_in]. rewrite Hv, Hres.
  exists (rx_close (rx_set_vm (Some mem) true (rx_set_in [] r))). split_and!; done.
Qed.
