(* ===== verification/Migration.v ===== *)
(** The sending side of a live migration (hypervisor/vmm/src/lib.rs, [send_migration]
    and [vm_send_migration]; [send_memory_regions] of hypervisor/vmm/src/vm.rs; the
    dirty logs of hypervisor/vmm/src/memory_manager.rs), with the receiving side of
    MigrationProtocol at the other end of its socket.

    The guest runs all the while: before each step that looks at its memory or at a
    dirty log, the next function of [so_guest] is applied to the kernel, until the
    machine is paused. *)
From stdpp Require Import base numbers strings list.
From S2P Require Import Prelude Bytes MemoryRanges SnapshotPages SnapshotMemory MigrationProtocol.
#[local] Open Scope Z_scope.

Inductive MigrateError := MigrateSocket | PeerRefused | HostRefused | LogFailed | RegionNotFound (gpa : Z).

(** The logs that [DirtyHost] reads, and those of the devices. *)
Class LogHost (K : Type) := {
  vm_start_dirty_log : K -> bool * K;
  vm_stop_dirty_log : K -> bool * K;
  bitmap_reset : Z -> K -> K;
  device_dirty_log : K -> option (list MemoryRange) * K;
}.

(** [so_config] and [so_state] are the serialised configuration and snapshot. *)
Record Source (K : Type) := mkSource {
  so_kernel : K;
  so_guest : list (K -> K);
  so_paused : bool;
  so_zones : list MemoryZone;
  so_mappings : list GuestRamMapping;
  so_config : list Z;
  so_state : list Z;
  so_io : list IoAnswer;
  so_peer : Receiver;
}.
Arguments mkSource {K}.
Arguments so_kernel {K}.
Arguments so_guest {K}.
Arguments so_paused {K}.
Arguments so_zones {K}.
Arguments so_mappings {K}.
Arguments so_config {K}.
Arguments so_state {K}.
Arguments so_io {K}.
Arguments so_peer {K}.

Section setters.
Context {K : Type}.
Definition so_set_kernel (k : K) (s : Source K) : Source K :=
  mkSource k (so_guest s) (so_paused s) (so_zones s) (so_mappings s) (so_config s) (so_state s) (so_io s) (so_peer s).
Definition so_set_guest (k : K) (g : list (K -> K)) (s : Source K) : Source K :=
  mkSource k g (so_paused s) (so_zones s) (so_mappings s) (so_config s) (so_state s) (so_io s) (so_peer s).
Definition so_set_paused (b : bool) (s : Source K) : Source K :=
  mkSource (so_kernel s) (so_guest s) b (so_zones s) (so_mappings s) (so_config s) (so_state s) (so_io s) (so_peer s).
Definition so_set_io (io : list IoAnswer) (s : Source K) : Source K :=
  mkSource (so_kernel s) (so_guest s) (so_paused s) (so_zones s) (so_mappings s) (so_config s) (so_state s) io (so_peer s).
Definition so_set_peer (p : Receiver) (s : Source K) : Source K :=
  mkSource (so_kernel s) (so_guest s) (so_paused s) (so_zones s) (so_mappings s) (so_config s) (so_state s) (so_io s) p.
End setters.

Section sending.
Context {K : Type} `{ProcHost K} `{DirtyHost K} `{LogHost K} `{RecvHost}.
Notation IO := (M (Source K) MigrateError).

(** The guest runs. *)
Definition tick : IO unit := fun s =>
  if so_paused s then (Done tt, s)
  else match so_guest s with
  | [] => (Done tt, s)
  | g :: rest => (Done tt, so_set_guest (g (so_kernel s)) rest s)
  end.

Definition so_next : IO (option IoAnswer) := fun s =>
  match so_io s with
  | [] => (Done None, s)
  | a :: rest => (Done (Some a), so_set_io rest s)
  end.

(** A call that succeeds or fails. *)
Definition so_call (e : MigrateError) : IO unit :=
  let* a := so_next in match a with Some IoError => throw e | _ => ret tt end.

Definition push_bytes (bytes : list Z) : IO unit :=
  modify (fun s => so_set_peer (rx_set_in (rx_in (so_peer s) ++ bytes) (so_peer s)) s).

(** [write_all] on the socket. *)
Definition socket_write (bytes : list Z) : IO unit := so_call MigrateSocket ;;; push_bytes bytes.

Definition write_request (r : Request) : IO unit := socket_write (request_bytes r).

(** [Response::read_from]: the other side runs until it has answered.  If it waits for
    bytes at this point, both sides wait for ever. *)
Definition read_response : IO Response :=
  so_call MigrateSocket ;;;
  let* s := get in
  match serve (S (length (rx_in (so_peer s)))) (so_peer s) with
  | Went p =>
    if decide (MESSAGE_SIZE <= length (rx_out p))%nat then
      modify (so_set_peer (rx_set_out (drop MESSAGE_SIZE (rx_out p)) p)) ;;;
      match response_of_bytes (take MESSAGE_SIZE (rx_out p)) with Some resp => ret resp | None => crash end
    else modify (so_set_peer p) ;;; throw MigrateSocket
  | RxPanic | RxUndefined => modify (so_set_peer (rx_close (so_peer s))) ;;; throw MigrateSocket
  | Blocked => crash
  end.

(** What follows every request: a refusal is answered with [abandon]. *)
Definition expect_ok : IO unit :=
  let* res := read_response in
  if decide (resp_status res = StatusOk) then ret tt
  else
    write_request (mkRequest CmdAbandon 0) ;;;
    ignore read_response ;;;
    throw PeerRefused.

(** ** Memory *)
Definition socket_write_volatile (gpa count : Z) : IO Z :=
  tick ;;;
  let* s := get in
  match get_host_address (so_kernel s) gpa with
  | None => throw MigrateSocket
  | Some _ =>
    let* a := so_next in
    match a with
    | Some IoError => throw MigrateSocket
    | _ =>
      let n := match a with Some (IoCount n) => Z.min (Z.max 0 n) count | _ => count end in
      push_bytes ((fun i => guest_byte (so_kernel s) (gpa + i)) <$> seqZ 0 n) ;;;
      ret n
    end
  end.

Fixpoint send_range (fuel : nat) (range : MemoryRange) (offset : Z) : IO unit :=
  match fuel with
  | O => crash
  | S fuel =>
    let* bytes_written := socket_write_volatile (wadd 64 (range_gpa range) offset) (wsub 64 (range_length range) offset) in
    let offset := wadd 64 offset bytes_written in
    if decide (offset = range_length range) then ret tt else send_range fuel range offset
  end.

Fixpoint send_memory_regions (ranges : list MemoryRange) : IO unit :=
  match ranges with
  | [] => ret tt
  | range :: rest =>
    let* s := get in
    send_range (S (length (so_io s))) range 0 ;;;
    send_memory_regions rest
  end.

(** ** Dirty logs *)
Definition kernel_call {A} (f : K -> A * K) : IO A :=
  tick ;;;
  let* s := get in
  let '(a, k) := f (so_kernel s) in
  modify (so_set_kernel k) ;;; ret a.

Fixpoint reset_bitmaps (regions : list (Z * Z)) : IO unit :=
  match regions with
  | [] => ret tt
  | r :: rest => kernel_call (fun k => (tt, bitmap_reset r.1 k)) ;;; reset_bitmaps rest
  end.

(** [MemoryManager::start_dirty_log], then the devices. *)
Definition start_dirty_log : IO unit :=
  let* started := kernel_call vm_start_dirty_log in
  if negb started then throw LogFailed
  else
    let* s := get in
    reset_bitmaps (guest_regions (so_kernel s)) ;;;
    so_call HostRefused.

Definition stop_dirty_log : IO unit :=
  let* stopped := kernel_call vm_stop_dirty_log in
  if negb stopped then throw LogFailed else so_call HostRefused.

(** The dirty pages of one mapping. *)
Definition mapping_dirty_table (r : GuestRamMapping) : IO (list MemoryRange) :=
  let* log := kernel_call (get_dirty_log (map_slot r) (map_gpa r) (map_size r)) in
  match log with
  | None => throw LogFailed
  | Some vm_dirty_bitmap =>
    let* s := get in
    match find_region (so_kernel s) (map_gpa r) with
    | None => throw (RegionNotFound (map_gpa r))
    | Some (start, len) =>
      if decide (start = map_gpa r /\ len = map_size r) then
        let* vmm_dirty_bitmap := kernel_call (bitmap_get_and_reset start) in
        ret (from_bitmap (map_gpa r) host_page_size (zip_with Z.lor vm_dirty_bitmap vmm_dirty_bitmap))
      else crash
    end
  end.

(** [MemoryManager::dirty_log] *)
Fixpoint mm_dirty_log (mappings : list GuestRamMapping) (table : list MemoryRange) : IO (list MemoryRange) :=
  match mappings with
  | [] => ret table
  | r :: rest => let* sub_table := mapping_dirty_table r in mm_dirty_log rest (table ++ sub_table)
  end.

(** [Vm::dirty_log] *)
Definition dirty_log : IO (list MemoryRange) :=
  let* s := get in
  let* mm := mm_dirty_log (so_mappings s) [] in
  let* devices := kernel_call device_dirty_log in
  match devices with
  | None => throw HostRefused
  | Some devices => ret (new_from_tables [mm; devices])
  end.

(** ** The migration *)

(** [write_to(..).unwrap()] *)
Definition write_request_unwrap (r : Request) : IO unit := fun s =>
  match write_request r s with
  | (Fail _, s') => (Crashed, s')
  | o => o
  end.

Definition send_table (table : list MemoryRange) : IO unit :=
  write_request_unwrap (mkRequest CmdMemory (table_length table)) ;;;
  socket_write (table_bytes table) ;;;
  send_memory_regions table ;;;
  expect_ok.

Definition vm_maybe_send_dirty_pages : IO bool :=
  let* table := dirty_log in
  match table with
  | [] => ret false
  | _ => send_table table ;;; ret true
  end.

Definition MAX_DIRTY_MIGRATIONS : nat := 5.

Fixpoint dirty_passes (n : nat) : IO unit :=
  match n with
  | O => ret tt
  | S n => let* more := vm_maybe_send_dirty_pages in if negb more then ret tt else dirty_passes n
  end.

Definition pause : IO unit := so_call HostRefused ;;; modify (so_set_paused true).
Definition resume : IO unit := so_call HostRefused ;;; modify (so_set_paused false).

(** The part between [start_migration] and the snapshot, to another host. *)
Definition send_memory : IO unit :=
  start_dirty_log ;;;
  let* s := get in
  send_table (zone_ranges false (so_zones s) []) ;;;
  dirty_passes MAX_DIRTY_MIGRATIONS ;;;
  pause ;;;
  vm_maybe_send_dirty_pages ;;;
  stop_dirty_log.

Definition send_payload (c : Command) (data : list Z) : IO unit :=
  write_request (mkRequest c (Z.of_nat (length data))) ;;;
  socket_write data ;;;
  expect_ok.

(** [send_migration] to another host: connecting, [generate_common_cpuid],
    [start_migration], the snapshot and [complete_migration] are calls that succeed or
    fail. *)
Definition send_migration : IO unit :=
  so_call MigrateSocket ;;;
  write_request (mkRequest CmdStart 0) ;;;
  expect_ok ;;;
  so_call HostRefused ;;;
  let* s := get in
  send_payload CmdConfig (so_config s) ;;;
  so_call HostRefused ;;;
  send_memory ;;;
  so_call HostRefused ;;;
  send_payload CmdState (so_state s) ;;;
  write_request (mkRequest CmdComplete 0) ;;;
  expect_ok ;;;
  so_call HostRefused.

(** [vm_send_migration]: what happens when it fails. *)
Definition vm_send_migration : IO unit := fun s =>
  match send_migration s with
  | (Fail migration_err, s) =>
    (stop_dirty_log ;;;
     let* s := get in
     (if so_paused s then resume else ret tt) ;;;
     throw migration_err) s
  | (Done _, s) => so_call HostRefused s
  | o => o
  end.
End sending.
