(* ===== verification/MigrationProofs.v ===== *)
(** Live migration: the memory of the machine that runs on the other host is the memory
    of the one that was paused here, although the guest kept writing all along. *)
From stdpp Require Import base numbers strings list sorting sets.
From S2P Require Import Prelude Bytes MemoryRanges SnapshotPages SnapshotPagesProofs SnapshotMemory SnapshotProofs SnapshotRestore MigrationProtocol MigrationProtocolProofs Migration.
#[local] Open Scope Z_scope.

(** ** What the kernel and the logs promise *)
Section places.
Context {K : Type} `{ProcHost K} `{DirtyHost K}.

(** The guest's memory and its regions stay where they are. *)
Definition same_place (k k' : K) : Prop :=
  forall x, get_host_address k' x = get_host_address k x /\ find_region k' x = find_region k x.

Definition unchanged (k k' : K) : Prop := same_place k k' /\ forall x, guest_byte k' x = guest_byte k x.

(** A bitmap of the pages of [gpa, gpa + size) is taken out of the log [own]. *)
Record log_taken (own other : K -> Z -> Prop) (gpa size : Z) (k : K) (words : list Z) (k' : K) : Prop := {
  lt_other x : other k' x <-> other k x;
  lt_words : length words = Z.to_nat (div_ceil (div_ceil size host_page_size) 64);
  lt_bits p : word_bit words p = true -> Z.of_nat p * host_page_size < size;
  lt_inside x : gpa <= x < gpa + size -> ~ own k' x /\ (own k x -> word_bit words (Z.to_nat ((x - gpa) / host_page_size)) = true);
  lt_outside x : ~ (gpa <= x < gpa + size) -> own k' x <-> own k x;
}.
End places.

(** [vm_logged] and [vmm_logged] say that a byte is on a page in the hypervisor's log or
    in the VMM's bitmaps, [log_on] that writes are being logged. *)
Class LogLaws (K : Type) `{ProcHost K} `{DirtyHost K} `{LogHost K} := {
  vm_logged : K -> Z -> Prop;
  vmm_logged : K -> Z -> Prop;
  log_on : K -> Prop;
  law_log_page_size : 8 <= host_page_size;
  law_start k : unchanged k (vm_start_dirty_log k).2;
  law_started k k' : vm_start_dirty_log k = (true, k') -> log_on k';
  law_stop k : unchanged k (vm_stop_dirty_log k).2;
  law_reset a k : unchanged k (bitmap_reset a k) /\ (log_on k -> log_on (bitmap_reset a k));
  law_get_dirty_log slot gpa size k : let k' := (get_dirty_log slot gpa size k).2 in
    unchanged k k' /\ (log_on k -> log_on k') /\
    forall words, (get_dirty_log slot gpa size k).1 = Some words -> log_taken vm_logged vmm_logged gpa size k words k';
  law_bitmap start len k : find_region k start = Some (start, len) -> let '(words, k') := bitmap_get_and_reset start k in
    unchanged k k' /\ (log_on k -> log_on k') /\ log_taken vmm_logged vm_logged start len k words k';
  law_device k : let k' := (device_dirty_log k).2 in
    unchanged k k' /\ (log_on k -> log_on k') /\ (forall x, (vm_logged k' x <-> vm_logged k x) /\ (vmm_logged k' x <-> vmm_logged k x)) /\
    forall table, (device_dirty_log k).1 = Some table ->
      Forall (fun q => range_ok q /\ forall x, range_gpa q <= x < range_gpa q + range_length q -> is_Some (get_host_address k x)) table /\
      Z.of_nat (length table) < 2 ^ 56;
}.

Section migration.
Context {K : Type} `{ProcHost K} `{DirtyHost K} `{LogHost K} `{!LogLaws K} `{RecvHost}.
Notation SO := (Source K).
Notation IO := (M SO MigrateError).

Definition logged (k : K) (x : Z) : Prop := vm_logged k x \/ vmm_logged k x.

(** The guest and its devices run: while writes are logged, the page of a byte that has
    changed is in a log; what is in a log stays there. *)
Definition guest_writes (k k' : K) : Prop :=
  same_place k k' /\ (log_on k -> log_on k') /\
  forall x, (log_on k -> guest_byte k' x <> guest_byte k x -> logged k' x) /\
    (vm_logged k x -> vm_logged k' x) /\ (vmm_logged k x -> vmm_logged k' x).

(** ** The copy and the original

    [D] is the memory that the other side will have when it has read all the bytes sent
    so far.  For the bytes in [P] it is up to date, or the byte is in a log, or its page
    is in a table and will be sent. *)
Definition sync (P pending : Z -> Prop) (D : Z -> Z) (k : K) : Prop :=
  forall x, P x -> D x = guest_byte k x \/ logged k x \/ pending x.

Lemma sync_guest P pending D k k' : log_on k -> guest_writes k k' -> sync P pending D k -> sync P pending D k'.
Proof.
  intros Hon (_ & _ & Hw) Hs x Hx. destruct (Hw x) as (Hch & Hvm & Hvmm).
  destruct (decide (guest_byte k' x = guest_byte k x)) as [Heq|Hne]; [|right; left; by apply Hch].
  destruct (Hs x Hx) as [?|[[?|?]|?]]; [left; congruence|right; left; left; auto|right; left; right; auto|by right; right].
Qed.

Lemma sync_ext P pending D D' k : (forall x, D x = D' x) -> sync P pending D k -> sync P pending D' k.
Proof. intros Hd Hs x Hx. rewrite <- Hd. by apply Hs. Qed.

(** Bytes are copied as they are now. *)
Lemma sync_copy (P pending : Z -> Prop) D k gpa n :
  0 <= n -> sync P pending D k ->
  sync (fun x => P x \/ gpa <= x < gpa + n) (fun x => pending x /\ ~ (gpa <= x < gpa + n))
    (overlay_bytes gpa ((fun i => guest_byte k (gpa + i)) <$> seqZ 0 n) D) k.
Proof.
  intros Hn Hs x Hx. unfold overlay_bytes. rewrite length_fmap, length_seqZ, Z2Nat.id by lia.
  case_decide as Hin.
  - left. rewrite list_lookup_fmap, lookup_seqZ_lt by lia. cbn. f_equal. lia.
  - destruct Hx as [Hx|?]; [|done]. destruct (Hs x Hx) as [?|[?|?]]; auto.
Qed.

Lemma sync_mono (P P' pending pending' : Z -> Prop) D k :
  (forall x, P' x -> P x) -> (forall x, pending x -> pending' x) -> sync P pending D k -> sync P' pending' D k.
Proof. intros HP Hp Hs x Hx. destruct (Hs x (HP x Hx)) as [?|[?|?]]; auto. Qed.

(** ** Runs that may fail

    [F] is what a run that does not end well shows: the script has an error, or the
    kernel or the devices refuse a call about the logs. *)
Definition kernel_obliges : Prop :=
  (forall k, (vm_start_dirty_log k).1 = true) /\ (forall k, (vm_stop_dirty_log k).1 = true) /\
  (forall slot gpa size k, is_Some (get_dirty_log slot gpa size k).1) /\ (forall k, is_Some (device_dirty_log k).1).

Context (F : Prop) (HF : ~ kernel_obliges -> F).

Definition tp {A} (m : IO A) (Q : A -> SO -> Prop) (s : SO) : Prop :=
  match m s with (Done a, s') => Q a s' | _ => F end.

Lemma tp_bind {A B} (m : IO A) (f : A -> IO B) Q s : tp m (fun a => tp (f a) Q) s -> tp (bind m f) Q s.
Proof. unfold tp, bind. by destruct (m s) as [[]]. Qed.
Lemma tp_mono {A} (m : IO A) (Q Q' : A -> SO -> Prop) s : tp m Q s -> (forall a s', Q a s' -> Q' a s') -> tp m Q' s.
Proof. unfold tp. destruct (m s) as [[]]; auto. Qed.
Lemma tp_ret {A} (a : A) (Q : A -> SO -> Prop) s : Q a s -> tp (ret a) Q s.
Proof. done. Qed.
Lemma tp_get (Q : SO -> SO -> Prop) s : Q s s -> tp get Q s.
Proof. done. Qed.
Lemma tp_modify f (Q : unit -> SO -> Prop) s : Q tt (f s) -> tp (modify f) Q s.
Proof. done. Qed.

(** ** The machine *)
Context (zones : list MemoryZone) (mappings : list GuestRamMapping) (config state : list Z) (covers : Z -> bool).
Notation ranges := (zone_ranges false zones []).

Definition in_mapping (r : GuestRamMapping) (x : Z) : Prop := map_gpa r <= x < map_gpa r + map_size r.
Definition in_mappings (rs : list GuestRamMapping) (x : Z) : Prop := exists r, r ∈ rs /\ in_mapping r x.
Definition mappings_size (rs : list GuestRamMapping) : Z := foldr (fun r n => map_size r + n) 0 rs.

(** Each mapping is a whole region of whole pages; the ranges are in the mappings; the
    other side has memory wherever this one has. *)
Record machine_ok (k : K) : Prop := {
  mk_mapping r : r ∈ mappings -> 0 <= map_gpa r /\ 0 < map_size r /\ map_size r mod host_page_size = 0 /\
    map_gpa r + map_size r < 2 ^ 64 /\ find_region k (map_gpa r) = Some (map_gpa r, map_size r) /\
    forall x, in_mapping r x -> is_Some (get_host_address k x);
  mk_size : mappings_size mappings < 2 ^ 56;
  mk_ranges : Forall range_ok ranges;
  mk_count : Z.of_nat (length ranges) < 2 ^ 56;
  mk_inside x : in_ranges x ranges -> in_mappings mappings x;
  mk_covers x : is_Some (get_host_address k x) -> covers x = true;
}.

Lemma machine_ok_same k k' : same_place k k' -> machine_ok k -> machine_ok k'.
Proof.
  intros Hs [Hm ? ? ? ? Hp]. split; try done; [intros r Hr|intros x; rewrite (proj1 (Hs x)); apply Hp]. destruct (Hm r Hr) as (? & ? & ? & ? & Hf & Ha). split_and!; try done.
  - by rewrite (proj2 (Hs _)).
  - intros x Hx. rewrite (proj1 (Hs x)). by apply Ha.
Qed.

Record live (s : SO) : Prop := {
  lv_fail : ~ io_clean (so_io s) -> F;
  lv_guest : Forall (fun g => forall k, guest_writes k (g k)) (so_guest s);
  lv_machine : machine_ok (so_kernel s);
  lv_zones : so_zones s = zones;
  lv_mappings : so_mappings s = mappings;
  lv_config : so_config s = config;
  lv_state : so_state s = state;
}.

(** What a tick does to the kernel. *)
Definition ticked (s : SO) (k : K) : Prop := k = so_kernel s \/ so_paused s = false /\ guest_writes (so_kernel s) k.

Lemma ticked_place s k : ticked s k -> same_place (so_kernel s) k.
Proof. intros [->|[_ [? _]]]; [done|done]. Qed.

Lemma live_kernel s k g : live s -> same_place (so_kernel s) k -> Forall (fun g => forall k, guest_writes k (g k)) g -> live (so_set_guest k g s).
Proof. intros [? ? ? ? ? ? ?] Hs Hg. split; try done. by eapply machine_ok_same. Qed.

Lemma tick_spec (Q : unit -> SO -> Prop) s : live s ->
  (forall k g, ticked s k -> live (so_set_guest k g s) -> Q tt (so_set_guest k g s)) -> tp tick Q s.
Proof.
  intros Hl HQ. unfold tp, tick.
  assert (Hsame : Q tt s).
  { specialize (HQ (so_kernel s) (so_guest s)). destruct s. apply HQ; [by left|exact Hl]. }
  destruct (so_paused s) eqn:Hp; [exact Hsame|]. destruct (so_guest s) as [|g rest] eqn:Hg; [exact Hsame|].
  pose proof (lv_guest _ Hl) as Hall. rewrite Hg in Hall. apply Forall_cons in Hall as [Hgk Hall].
  apply HQ; [right; split; [done|apply Hgk]|]. apply live_kernel; [done|apply Hgk|done].
Qed.

Lemma kernel_call_spec {A} (f : K -> A * K) (Q : A -> SO -> Prop) s : live s ->
  (forall k, same_place (so_kernel s) k -> same_place k (f k).2) ->
  (forall k g, ticked s k -> live (so_set_guest (f k).2 g s) -> Q (f k).1 (so_set_guest (f k).2 g s)) -> tp (kernel_call f) Q s.
Proof.
  intros Hl Hf HQ. unfold kernel_call. apply tp_bind, tick_spec; [done|]. intros k g Ht Hl'.
  apply tp_bind, tp_get. cbn [so_kernel so_set_guest]. pose proof (Hf k (ticked_place s k Ht)) as Hp.
  specialize (HQ k g Ht). destruct (f k) as [a k']. apply tp_bind, tp_modify, tp_ret. cbn [fst snd] in *.
  apply HQ. apply (live_kernel s); [done| |apply Hl']. intros x. destruct (ticked_place s k Ht x), (Hp x). split; congruence.
Qed.

Lemma so_next_spec (Q : option IoAnswer -> SO -> Prop) s : live s ->
  (forall a io, live (so_set_io io s) -> (a = Some IoError -> F) ->
    (length io < length (so_io s))%nat \/ a = None -> (length io <= length (so_io s))%nat -> Q a (so_set_io io s)) -> tp so_next Q s.
Proof.
  intros Hl HQ. unfold tp, so_next. destruct (so_io s) as [|a io] eqn:Hio.
  - specialize (HQ None (so_io s)). destruct s. cbn in *. apply HQ; [done|done|by right|by rewrite Hio].
  - apply HQ; [|intros [= ->]; apply (lv_fail _ Hl); rewrite Hio; by intros [? _]%Forall_cons|left; cbn; lia|cbn; lia].
    destruct Hl as [Hf ? ? ? ? ? ?]. split; try done. cbn. intros Hn. apply Hf. rewrite Hio. by intros [_ ?]%Forall_cons.
Qed.

Lemma so_call_spec e (Q : unit -> SO -> Prop) s : live s ->
  (forall io, live (so_set_io io s) -> Q tt (so_set_io io s)) -> tp (so_call e) Q s.
Proof.
  intros Hl HQ. unfold so_call. apply tp_bind, so_next_spec; [done|]. intros a io Hl' Herr _ _.
  destruct a as [[|n]|]; [by apply Herr|by apply tp_ret, HQ|by apply tp_ret, HQ].
Qed.

Lemma live_peer p s : live s -> live (so_set_peer p s).
Proof. intros [? ? ? ? ? ? ?]. by split. Qed.

(** ** Sending memory *)
Record sent (s s' : SO) (bytes : list Z) : Prop := {
  se_live : live s';
  se_paused : so_paused s' = so_paused s;
  se_kernel : so_paused s = true -> so_kernel s' = so_kernel s;
  se_place : same_place (so_kernel s) (so_kernel s');
  se_peer : so_peer s' = rx_set_in (rx_in (so_peer s) ++ bytes) (so_peer s);
}.

Lemma sent_trans s1 s2 s3 b1 b2 : sent s1 s2 b1 -> sent s2 s3 b2 -> sent s1 s3 (b1 ++ b2).
Proof.
  intros [Hl1 Hp1 Hk1 Hs1 He1] [Hl2 Hp2 Hk2 Hs2 He2]. split; [done|congruence| | |].
  - intros Hp. rewrite Hk2, Hk1 by congruence. done.
  - intros x. destruct (Hs1 x), (Hs2 x). split; congruence.
  - rewrite He2, He1. cbn. by rewrite app_assoc.
Qed.

Definition going (P pending : Z -> Prop) (D : Z -> Z) (s : SO) : Prop := log_on (so_kernel s) /\ sync P pending D (so_kernel s).

Lemma going_ticked P pending D s k : ticked s k -> going P pending D s -> log_on k /\ sync P pending D k.
Proof.
  intros [->|[_ Hw]] [Hon Hs]; [done|]. split; [by apply Hw|by eapply sync_guest].
Qed.

Definition mapped (k : K) (r : MemoryRange) : Prop := forall x, range_gpa r <= x < range_gpa r + range_length r -> is_Some (get_host_address k x).

Lemma mapped_same k k' r : same_place k k' -> mapped k r -> mapped k' r.
Proof. intros Hs Hm x Hx. rewrite (proj1 (Hs x)). by apply Hm. Qed.

Lemma socket_write_volatile_spec gpa count (Q : Z -> SO -> Prop) s : live s -> 0 <= count -> is_Some (get_host_address (so_kernel s) gpa) ->
  (forall n s', 0 <= n <= count -> ticked s (so_kernel s') ->
    sent s s' ((fun i => guest_byte (so_kernel s') (gpa + i)) <$> seqZ 0 n) ->
    (length (so_io s') < length (so_io s))%nat \/ n = count -> Q n s') ->
  tp (socket_write_volatile gpa count) Q s.
Proof.
  intros Hl Hc Ha HQ. unfold socket_write_volatile. apply tp_bind, tick_spec; [done|]. intros k g Ht Hl1.
  apply tp_bind, tp_get. cbn [so_kernel so_set_guest]. rewrite (proj1 (ticked_place s k Ht gpa)). destruct Ha as [a ->].
  apply tp_bind, so_next_spec; [done|]. intros ans io Hl2 Herr Hio _. cbn [so_io so_set_guest] in Hio.
  assert (Hend : forall n, 0 <= n <= count -> (length io < length (so_io s))%nat \/ n = count ->
    tp (push_bytes ((fun i => guest_byte k (gpa + i)) <$> seqZ 0 n) ;;; ret n) Q (so_set_io io (so_set_guest k g s))).
  { intros n Hn Hprog. apply tp_bind, tp_modify, tp_ret, HQ; [done|exact Ht| |exact Hprog].
    split; [by apply live_peer|done| |by apply ticked_place|done]. intros Hp. destruct Ht as [Hk|[Hf _]]; [exact Hk|congruence]. }
  destruct ans as [[|n]|]; [by apply Herr| |]; apply Hend; destruct Hio; (lia || done || auto).
Qed.

(** One range: its bytes go out, and what has gone out counts as copied. *)
Lemma send_range_spec fuel r offset P pending D s s0 bytes0 :
  range_ok r -> mapped (so_kernel s) r -> 0 <= offset < range_length r -> (length (so_io s) < fuel)%nat ->
  sent s0 s bytes0 -> Z.of_nat (length bytes0) = offset ->
  going (fun x => P x \/ range_gpa r <= x < range_gpa r + offset) (fun x => pending x /\ ~ (range_gpa r <= x < range_gpa r + offset))
    (overlay_bytes (range_gpa r) bytes0 D) s ->
  tp (send_range fuel r offset) (fun _ s' => exists bytes, sent s0 s' bytes /\ Z.of_nat (length bytes) = range_length r /\
    going (fun x => P x \/ range_gpa r <= x < range_gpa r + range_length r)
      (fun x => pending x /\ ~ (range_gpa r <= x < range_gpa r + range_length r)) (overlay_bytes (range_gpa r) bytes D) s') s.
Proof.
  intros (Hg & Hl & Hend). revert offset s bytes0. induction fuel as [|fuel IH]; intros offset s bytes0 Hmap Hoff Hfuel Hsent Hb Hgo; [lia|].
  cbn [send_range]. apply tp_bind. rewrite wadd_small, wsub_small by (split; lia).
  apply socket_write_volatile_spec; [apply Hsent|lia|apply Hmap; lia|]. intros n s1 Hn Ht Hs1 Hprog.
  rewrite wadd_small by (split; lia). set (chunk := _ <$> seqZ 0 n) in Hs1.
  assert (Hlen : Z.of_nat (length (bytes0 ++ chunk)) = offset + n).
  { unfold chunk. rewrite length_app, length_fmap, length_seqZ. lia. }
  pose proof (sent_trans _ _ _ _ _ Hsent Hs1) as Hs01.
  assert (Hgo1 : going (fun x => P x \/ range_gpa r <= x < range_gpa r + (offset + n))
    (fun x => pending x /\ ~ (range_gpa r <= x < range_gpa r + (offset + n))) (overlay_bytes (range_gpa r) (bytes0 ++ chunk) D) s1).
  { destruct (going_ticked _ _ _ _ _ Ht Hgo) as [Hon Hsync]. split; [done|].
    apply (sync_copy _ _ _ _ (range_gpa r + offset) n ltac:(lia)) in Hsync. fold chunk in Hsync. rewrite <- Hb in Hsync.
    eapply sync_ext; [intros x; apply overlay_bytes_app|].
    assert (Hsplit : forall x, range_gpa r <= x < range_gpa r + (offset + n) <-> range_gpa r <= x < range_gpa r + Z.of_nat (length bytes0) \/
      range_gpa r + Z.of_nat (length bytes0) <= x < range_gpa r + Z.of_nat (length bytes0) + n) by lia.
    eapply sync_mono; [| |exact Hsync]; cbn beta; intros x; rewrite Hsplit; tauto. }
  case_decide as Hdone.
  - apply tp_ret. exists (bytes0 ++ chunk). rewrite Hdone in *. done.
  - apply (IH (offset + n) s1 (bytes0 ++ chunk)); [|lia|destruct Hprog; lia|done|done|done].
    eapply mapped_same; [apply Hs1|done].
Qed.

Lemma send_memory_regions_spec table P pending D s s0 bytes0 :
  Forall range_ok table -> Forall (mapped (so_kernel s)) table -> sent s0 s bytes0 -> going P pending D s ->
  tp (send_memory_regions table) (fun _ s' => exists bytes, sent s0 s' (bytes0 ++ bytes) /\ Z.of_nat (length bytes) = total_length table /\
    going (fun x => P x \/ in_ranges x table) (fun x => pending x /\ ~ in_ranges x table) (deliver table bytes D) s') s.
Proof.
  intros Hok. revert P pending D s bytes0. induction Hok as [|r table Hr Hok IH]; intros P pending D s bytes0 Hmap Hsent Hgo.
  - apply tp_ret. exists []. rewrite app_nil_r. split_and!; [done|done|]. destruct Hgo as [Hon Hs]. split; [done|].
    eapply sync_mono; [| |exact Hs]; cbn; intros x; [intros [?|(q & Hq & _)]; [done|by apply not_elem_of_nil in Hq]|]. intros ?. split; [done|]. intros (q & Hq & _). by apply not_elem_of_nil in Hq.
  - apply Forall_cons in Hmap as [Hmr Hmap]. cbn [send_memory_regions]. apply tp_bind, tp_get, tp_bind.
    destruct (Hr) as (Hg & Hl & Hend).
    eapply tp_mono; [apply (send_range_spec _ r 0 P pending D s s []); try done; try lia|].
    { split; try done; [apply Hsent|]. cbn. rewrite app_nil_r. by destruct (so_peer s). }
    { destruct Hgo as [Hon Hs]. split; [done|]. eapply sync_ext; [intros x; symmetry; apply overlay_bytes_nil|].
      eapply sync_mono; [| |exact Hs]; cbn; intros x; [intros [?|?]; [done|lia]|]. intros ?. split; [done|lia]. }
    intros [] s1 (b1 & Hs1 & Hlen1 & Hgo1).
    eapply tp_mono; [eapply IH; [|eapply sent_trans; [exact Hsent|exact Hs1]|exact Hgo1]|].
    { eapply Forall_impl; [exact Hmap|]. intros q. apply mapped_same, Hs1. }
    intros [] s2 (b2 & Hs2 & Hlen2 & [Hon2 Hgo2]). exists (b1 ++ b2). rewrite app_assoc. split_and!; [done|cbn; fold (total_length table); rewrite length_app; lia|].
    split; [done|]. cbn [deliver]. rewrite take_app_length', drop_app_length' by lia.
    eapply sync_mono; [| |exact Hgo2]; cbn; intros x.
    + intros [?|(q & [->|Hq]%elem_of_cons & Hx)]; [by left; left|by left; right|right; by exists q].
    + intros [[Hp Hn] Hn2]. split; [done|]. intros (q & [->|Hq]%elem_of_cons & Hx); [by apply Hn|]. apply Hn2. by exists q.
Qed.

(** ** Reading the logs *)
Lemma sync_taken (own other : K -> Z -> Prop) P pending D gpa size k words k' :
  (forall k x, logged k x <-> own k x \/ other k x) -> unchanged k k' -> log_taken own other gpa size k words k' -> sync P pending D k ->
  sync P (fun x => pending x \/ gpa <= x < gpa + size /\ word_bit words (Z.to_nat ((x - gpa) / host_page_size)) = true) D k'.
Proof.
  intros Hlog [_ Hb] Ht Hs x Hx. rewrite Hb, Hlog, (lt_other _ _ _ _ _ _ _ Ht). destruct (Hs x Hx) as [?|[Hl|?]]; [by left| |tauto].
  apply Hlog in Hl as [Hl|?]; [|tauto]. destruct (decide (gpa <= x < gpa + size)) as [Hin|Hout].
  - right; right; right. split; [done|]. by apply (lt_inside _ _ _ _ _ _ _ Ht x Hin).
  - apply (lt_outside _ _ _ _ _ _ _ Ht) in Hl; [|done]. tauto.
Qed.

Lemma not_logged_taken (own other : K -> Z -> Prop) gpa size k words k' x :
  (forall k x, logged k x <-> own k x \/ other k x) -> log_taken own other gpa size k words k' -> ~ logged k x -> ~ logged k' x.
Proof.
  intros Hlog Ht. rewrite !Hlog. intros Hn [Ho|Ho]; [|apply (lt_other _ _ _ _ _ _ _ Ht) in Ho; tauto].
  destruct (decide (gpa <= x < gpa + size)) as [Hin|Hout]; [by apply (lt_inside _ _ _ _ _ _ _ Ht x Hin)|].
  apply (lt_outside _ _ _ _ _ _ _ Ht) in Ho; [tauto|done].
Qed.

Lemma zip_lor_bit a b p : length a = length b -> word_bit (zip_with Z.lor a b) p = word_bit a p || word_bit b p.
Proof.
  intros Hlen. unfold word_bit. rewrite lookup_zip_with. generalize (p / 64)%nat as q, (p mod 64)%nat as j. intros q j.
  destruct (a !! q) as [w|] eqn:Ha; cbn.
  - destruct (b !! q) as [w'|] eqn:Hb; cbn; [apply Z.lor_spec|].
    apply lookup_lt_Some in Ha. apply lookup_ge_None in Hb. lia.
  - apply lookup_ge_None in Ha. by rewrite (lookup_ge_None_2 b) by lia.
Qed.

Lemma table_count table lo hi : table_ok table -> Forall (fun q => lo <= range_gpa q /\ range_gpa q + range_length q <= hi) table -> lo <= hi ->
  Z.of_nat (length table) <= hi - lo.
Proof.
  intros [Hsort Hpos]. revert lo. induction Hsort as [|q table Hsort IH Hall]; intros lo Hin Hle; [cbn; lia|].
  apply Forall_cons in Hpos as [Hq Hpos], Hin as [[Hlo Hhi] Hin]. cbn [length].
  specialize (IH Hpos (range_gpa q + range_length q)). rewrite Forall_forall in Hin, Hall.
  assert (Z.of_nat (length table) <= hi - (range_gpa q + range_length q)); [|lia]. apply IH; [|lia].
  rewrite Forall_forall. intros q' Hq'. specialize (Hin q' Hq'). specialize (Hall q' Hq'). cbn in *. lia.
Qed.

(** The table of a bitmap of a mapping. *)
Definition good_table (k : K) (table : list MemoryRange) : Prop := Forall range_ok table /\ Forall (mapped k) table.

Lemma good_table_covered k table : good_table k table -> machine_ok k ->
  Forall (fun q => forall x, range_gpa q <= x < range_gpa q + range_length q -> covers x = true) table.
Proof. intros [_ Hmap] Hm. eapply Forall_impl; [exact Hmap|]. intros q Hq x Hx. by apply (mk_covers _ Hm), Hq. Qed.

Lemma good_table_same k k' table : same_place k k' -> good_table k table -> good_table k' table.
Proof. intros Hs [? Hm]. split; [done|]. eapply Forall_impl; [exact Hm|]. intros q. by apply mapped_same. Qed.

Lemma bitmap_table_spec k r words : machine_ok k -> r ∈ mappings -> (forall p, word_bit words p = true -> Z.of_nat p * host_page_size < map_size r) ->
  let table := from_bitmap (map_gpa r) host_page_size words in
  good_table k table /\ Z.of_nat (length table) <= map_size r /\
  forall x, in_mapping r x -> word_bit words (Z.to_nat ((x - map_gpa r) / host_page_size)) = true -> in_ranges x table.
Proof.
  intros Hk Hr Hbits. cbn zeta. destruct (mk_mapping _ Hk r Hr) as (Hg & Hl & Hal & Hend & _ & Hmap).
  assert (Hps : 0 < host_page_size) by (pose proof law_log_page_size; lia).
  assert (Hpage : forall p, word_bit words p = true -> (Z.of_nat p + 1) * host_page_size <= map_size r).
  { intros p Hp. specialize (Hbits p Hp). assert (Hnz : host_page_size <> 0) by lia.
    pose proof (Z.div_mod (map_size r) host_page_size Hnz) as Hdm. rewrite Hal, Z.add_0_r in Hdm.
    assert (Z.of_nat p < map_size r / host_page_size) by nia. nia. }
  destruct (from_bitmap_spec (map_gpa r) host_page_size words Hg Hps) as [Hok Hin]; [intros p Hp; specialize (Hpage p Hp); lia|].
  set (table := from_bitmap _ _ _) in *.
  assert (Hinside : forall q, q ∈ table -> map_gpa r <= range_gpa q /\ 0 < range_length q /\ range_gpa q + range_length q <= map_gpa r + map_size r).
  { intros q Hq. pose proof (to_length _ Hok) as Hpos. rewrite Forall_forall in Hpos. specialize (Hpos q Hq). cbn in Hpos.
    destruct (proj1 (Hin (range_gpa q))) as (p1 & Hp1 & Hx1); [exists q; split; [done|lia]|].
    destruct (proj1 (Hin (range_gpa q + range_length q - 1))) as (p2 & Hp2 & Hx2); [exists q; split; [done|lia]|].
    specialize (Hpage p2 Hp2). nia. }
  split_and!; [split| |].
  - rewrite Forall_forall. intros q Hq. destruct (Hinside q Hq) as (? & ? & ?). unfold range_ok. lia.
  - rewrite Forall_forall. intros q Hq x Hx. destruct (Hinside q Hq) as (? & ? & ?). apply Hmap. unfold in_mapping. lia.
  - replace (map_size r) with (map_gpa r + map_size r - map_gpa r) by lia. apply table_count; [done| |lia].
    rewrite Forall_forall. intros q Hq. destruct (Hinside q Hq) as (? & ? & ?). lia.
  - intros x Hx Hbit. apply Hin. eexists. split; [exact Hbit|]. unfold in_mapping in Hx.
    assert (Hnz : host_page_size <> 0) by lia. pose proof (Z.div_mod (x - map_gpa r) host_page_size Hnz) as Hdm.
    pose proof (Z.mod_pos_bound (x - map_gpa r) host_page_size Hps). pose proof (Z.div_pos (x - map_gpa r) host_page_size).
    rewrite Z2Nat.id by lia. lia.
Qed.

(** The socket is left alone. *)
Record quiet (s s' : SO) : Prop := {
  qu_live : live s';
  qu_paused : so_paused s' = so_paused s;
  qu_place : same_place (so_kernel s) (so_kernel s');
  qu_peer : so_peer s' = so_peer s;
}.

Lemma quiet_trans s1 s2 s3 : quiet s1 s2 -> quiet s2 s3 -> quiet s1 s3.
Proof. intros [? ? Hp1 ?] [? ? Hp2 ?]. split; [done|congruence| |congruence]. intros x. destruct (Hp1 x), (Hp2 x). split; congruence. Qed.

Lemma quiet_kernel s k g : live (so_set_guest k g s) -> same_place (so_kernel s) k -> quiet s (so_set_guest k g s).
Proof. intros Hl Hp. by split. Qed.

(** While paused, nothing gets into a log. *)
Definition no_new_log (s s' : SO) : Prop := so_paused s = true -> forall x, ~ logged (so_kernel s) x -> ~ logged (so_kernel s') x.

Lemma mapping_dirty_table_spec r P pending D s : r ∈ mappings -> live s -> going P pending D s ->
  tp (mapping_dirty_table r) (fun t s' => quiet s s' /\ going P (fun x => pending x \/ in_ranges x t) D s' /\
    good_table (so_kernel s') t /\ Z.of_nat (length t) <= map_size r /\
    no_new_log s s' /\ (so_paused s = true -> forall x, in_mapping r x -> ~ logged (so_kernel s') x)) s.
Proof.
  intros Hr Hl Hgo. unfold mapping_dirty_table. apply tp_bind, kernel_call_spec; [done|intros k _; apply law_get_dirty_log|].
  intros k1 g1 Ht1 Hl1. pose proof (going_ticked _ _ _ _ _ Ht1 Hgo) as [Hon1 Hs1]. pose proof (ticked_place _ _ Ht1) as Hp1.
  destruct (law_get_dirty_log (map_slot r) (map_gpa r) (map_size r) k1) as (Hun1 & Hlog1 & Hvm).
  destruct (get_dirty_log _ _ _ k1) as [[vmw|] k1'] eqn:Hget; cbn [fst snd] in *.
  2:{ apply HF. intros (_ & _ & Hob & _). specialize (Hob (map_slot r) (map_gpa r) (map_size r) k1). rewrite Hget in Hob. by destruct Hob. }
  specialize (Hvm _ eq_refl). set (s1 := so_set_guest k1' g1 s) in *.
  pose proof (sync_taken vm_logged vmm_logged _ _ _ _ _ _ _ _ ltac:(done) Hun1 Hvm Hs1) as Hs1'.
  assert (Hq1 : quiet s s1).
  { apply quiet_kernel; [done|]. intros x. destruct (Hp1 x), (proj1 Hun1 x). split; congruence. }
  apply tp_bind, tp_get. destruct (mk_mapping _ (lv_machine _ Hl1) r Hr) as (_ & _ & _ & _ & Hfind & _). rewrite Hfind, decide_True by done.
  apply tp_bind, kernel_call_spec; [done| |].
  { intros k Hk. pose proof (law_bitmap (map_gpa r) (map_size r) k) as Hb. rewrite (proj2 (Hk _)) in Hb. specialize (Hb Hfind).
    destruct (bitmap_get_and_reset _ k). apply Hb. }
  intros k2 g2 Ht2 Hl2. pose proof (ticked_place _ _ Ht2) as Hp2.
  pose proof (law_bitmap (map_gpa r) (map_size r) k2) as Hb. rewrite (proj2 (Hp2 _)) in Hb. specialize (Hb Hfind).
  destruct (bitmap_get_and_reset _ k2) as [vmmw k2'] eqn:Hget2. cbn [fst snd] in *. destruct Hb as (Hun2 & Hlog2 & Hvmm).
  pose proof (going_ticked _ _ _ s1 _ Ht2 (conj (Hlog1 Hon1) Hs1')) as [Hon2 Hs2].
  pose proof (sync_taken vmm_logged vm_logged _ _ _ _ _ _ _ _ ltac:(intros; unfold logged; tauto) Hun2 Hvmm Hs2) as Hs2'.
  apply tp_ret. set (s2 := so_set_guest k2' g2 s1) in *. cbn beta in Hs2'.
  assert (Hlen : length vmw = length vmmw) by (by rewrite (lt_words _ _ _ _ _ _ _ Hvm), (lt_words _ _ _ _ _ _ _ Hvmm)).
  destruct (bitmap_table_spec k2' r (zip_with Z.lor vmw vmmw) (lv_machine _ Hl2) Hr) as (Hgood & Hcount & Hcov).
  { intros p. rewrite zip_lor_bit, orb_true_iff by done. intros [?|?]; [by apply (lt_bits _ _ _ _ _ _ _ Hvm)|by apply (lt_bits _ _ _ _ _ _ _ Hvmm)]. }
  assert (Hpaused : so_paused s = true -> k1 = so_kernel s /\ k2 = k1').
  { intros Hp. destruct Ht1 as [->|[? _]]; [|congruence]. destruct Ht2 as [->|[Hp' _]]; [done|]. cbn in Hp'. congruence. }
  split_and!; [| |exact Hgood|exact Hcount| |].
  - eapply quiet_trans; [exact Hq1|]. apply quiet_kernel; [done|]. intros x. destruct (Hp2 x), (proj1 Hun2 x). split; congruence.
  - split; [by apply Hlog2|]. eapply sync_mono; [by intros ? ?| |exact Hs2']. cbn beta.
    intros x [[?|[Hx Hbit]]|[Hx Hbit]]; [by left|right..]; (apply Hcov; [exact Hx|]); rewrite zip_lor_bit, orb_true_iff by done; auto.
  - intros Hp x Hn. destruct (Hpaused Hp) as [-> ->]. apply (not_logged_taken vm_logged vmm_logged _ _ _ _ _ x ltac:(done) Hvm) in Hn.
    apply (not_logged_taken vmm_logged vm_logged _ _ _ _ _ x ltac:(intros; unfold logged; tauto) Hvmm) in Hn. exact Hn.
  - intros Hp x Hx. destruct (Hpaused Hp) as [-> ->]. cbn. intros [Hv|Hv].
    + apply (lt_other _ _ _ _ _ _ _ Hvmm) in Hv. by apply (lt_inside _ _ _ _ _ _ _ Hvm x Hx).
    + by apply (lt_inside _ _ _ _ _ _ _ Hvmm x Hx).
Qed.

Lemma in_ranges_app x t1 t2 : in_ranges x (t1 ++ t2) <-> in_ranges x t1 \/ in_ranges x t2.
Proof. unfold in_ranges. set_solver. Qed.

Lemma mm_dirty_log_spec rs table P D s : (forall r, r ∈ rs -> r ∈ mappings) -> live s -> going P (fun x => in_ranges x table) D s ->
  good_table (so_kernel s) table ->
  tp (mm_dirty_log rs table) (fun t s' => quiet s s' /\ going P (fun x => in_ranges x t) D s' /\ good_table (so_kernel s') t /\
    Z.of_nat (length t) <= Z.of_nat (length table) + mappings_size rs /\
    no_new_log s s' /\ (so_paused s = true -> forall x, in_mappings rs x -> ~ logged (so_kernel s') x)) s.
Proof.
  revert table s. induction rs as [|r rs IH]; intros table s Hsub Hl Hgo Hgood; cbn [mm_dirty_log].
  - apply tp_ret. split_and!; [by split|done|done|cbn; lia|by intros ? ? ?|]. intros _ x (r & Hr & _). by apply not_elem_of_nil in Hr.
  - apply tp_bind. eapply tp_mono; [apply (mapping_dirty_table_spec r P (fun x => in_ranges x table) D s); [apply Hsub, elem_of_cons; by left|done|done]|].
    intros t s1 (Hq1 & Hgo1 & Hgood1 & Hc1 & Hn1 & Hclear1).
    eapply tp_mono; [apply (IH (table ++ t) s1)|].
    + intros r' Hr'. apply Hsub, elem_of_cons. by right.
    + apply Hq1.
    + destruct Hgo1 as [Hon Hs]. split; [done|]. eapply sync_mono; [by intros ? ?| |exact Hs]. intros x. by rewrite in_ranges_app.
    + apply (good_table_same _ _ _ (qu_place _ _ Hq1)) in Hgood as [? ?]. destruct Hgood1. split; by apply Forall_app.
    + intros t' s2 (Hq2 & Hgo2 & Hgood2 & Hc2 & Hn2 & Hclear2). pose proof (qu_paused _ _ Hq1) as Hp1.
      split_and!; [by eapply quiet_trans|done|done| | |].
      * cbn [mappings_size foldr]. fold (mappings_size rs). rewrite length_app in Hc2. lia.
      * intros Hp x Hx. apply Hn2; [congruence|]. by apply Hn1.
      * intros Hp x (r' & [->|Hr']%elem_of_cons & Hx); [|apply Hclear2; [congruence|]; by exists r']. apply Hn2; [congruence|]. by apply Hclear1.
Qed.

(** The logs are emptied into a table; while paused, nothing is left in them. *)
Lemma dirty_log_spec P D s : live s -> going P (fun _ => False) D s ->
  tp dirty_log (fun t s' => quiet s s' /\ going P (fun x => in_ranges x t) D s' /\ good_table (so_kernel s') t /\
    Z.of_nat (length t) < 2 ^ 57 /\ (so_paused s = true -> forall x, in_mappings mappings x -> ~ logged (so_kernel s') x)) s.
Proof.
  intros Hl [Hon Hs]. unfold dirty_log. apply tp_bind, tp_get, tp_bind. rewrite (lv_mappings _ Hl).
  eapply tp_mono; [apply (mm_dirty_log_spec mappings [] P D s); [done|done| |by split; constructor]|].
  { split; [done|]. eapply sync_mono; [by intros ? ?| |exact Hs]. done. }
  intros t s1 (Hq1 & Hgo1 & Hgood1 & Hc1 & _ & Hclear1). pose proof (mk_size _ (lv_machine _ Hl)) as Hsize. cbn in Hc1.
  apply tp_bind, kernel_call_spec; [apply Hq1|intros k _; apply law_device|]. intros k g Ht Hl2.
  destruct (law_device k) as (Hun & Hlog & Hsame & Htab). destruct (device_dirty_log k) as [[dev|] k'] eqn:Hdev; cbn [fst snd] in *.
  2:{ apply HF. intros (_ & _ & _ & Hob). specialize (Hob k). rewrite Hdev in Hob. by destruct Hob. }
  destruct (Htab _ eq_refl) as [Hdok Hdcount]. pose proof (going_ticked _ _ _ _ _ Ht Hgo1) as [Hon2 Hs2]. pose proof (ticked_place _ _ Ht) as Hp2.
  assert (Hq2 : quiet s1 (so_set_guest k' g s1)).
  { apply quiet_kernel; [done|]. intros x. destruct (Hp2 x), (proj1 Hun x). split; congruence. }
  apply tp_ret. unfold new_from_tables. cbn [concat]. rewrite app_nil_r. split_and!; [by eapply quiet_trans| | | |].
  - split; [by apply Hlog|]. intros x Hx. cbn. rewrite (proj2 Hun x). destruct (Hs2 x Hx) as [?|[Hlg|?]]; [by left| |right; right; apply in_ranges_app; by left].
    right; left. destruct (Hsame x) as [Hv Hvm]. unfold logged in *. by rewrite Hv, Hvm.
  - apply (good_table_same _ _ _ (qu_place _ _ Hq2)) in Hgood1 as [? ?]. split; apply Forall_app; (split; [done|]);
      (eapply Forall_impl; [exact Hdok|]); intros q [? Hm]; [done|]. intros x Hx. cbn. rewrite (proj1 (proj1 Hun x)). by apply Hm.
  - rewrite length_app. lia.
  - intros Hp x Hx. pose proof (qu_paused _ _ Hq1) as Hp1. destruct Ht as [->|[? _]]; [|congruence].
    destruct (Hsame x) as [Hv Hvm]. unfold logged. cbn. rewrite Hv, Hvm. by apply Hclear1.
Qed.

(** ** Messages *)
Lemma socket_write_spec bytes (Q : unit -> SO -> Prop) s : live s ->
  (forall s', sent s s' bytes -> so_kernel s' = so_kernel s -> Q tt s') -> tp (socket_write bytes) Q s.
Proof.
  intros Hl HQ. unfold socket_write. apply tp_bind, so_call_spec; [done|]. intros io Hl1.
  apply tp_modify, HQ; [|done]. split; [by apply live_peer|done|done|done|done].
Qed.

Lemma write_request_unwrap_spec r (Q : unit -> SO -> Prop) s : tp (write_request r) Q s -> tp (write_request_unwrap r) Q s.
Proof. unfold tp, write_request_unwrap. by destruct (write_request r s) as [[]]. Qed.

(** A request that the other side has read in full and accepts. *)
Lemma expect_ok_spec r' (Q : unit -> SO -> Prop) s : live s ->
  rx_out (so_peer s) = [] -> rx_open (so_peer s) = true -> receive_turn (so_peer s) = Went (respond response_ok r') -> rx_out r' = [] ->
  (forall io, live (so_set_peer r' (so_set_io io s)) -> Q tt (so_set_peer r' (so_set_io io s))) -> tp expect_ok Q s.
Proof.
  intros Hl Ho Hop Hturn Ho' HQ. unfold expect_ok, read_response. apply tp_bind, tp_bind, so_call_spec; [done|]. intros io Hl1.
  apply tp_bind, tp_get. cbn [so_peer so_set_io].
  assert (Hout : rx_out (respond response_ok r') = response_bytes response_ok) by (unfold respond; cbn; by rewrite Ho').
  assert (Hlen : length (response_bytes response_ok) = MESSAGE_SIZE) by apply message_bytes_length.
  rewrite (serve_turn _ _ (respond response_ok r')); [|done|done|done|by rewrite Hout, Hlen].
  rewrite Hout, Hlen, decide_True by done. apply tp_bind, tp_modify. rewrite <- Hlen, firstn_all, drop_all.
  rewrite response_roundtrip by (cbn; lia). apply tp_ret. cbn [resp_status response_ok]. rewrite decide_True by done. apply tp_ret.
  assert (Heq : rx_set_out [] (respond response_ok r') = r') by (destruct r'; cbn in *; by rewrite Ho'). rewrite Heq. apply HQ.
  by apply live_peer.
Qed.

(** The other side is between two requests, with the memory [mem]. *)
Definition peer_ready (mem : option (Z -> Z)) (s : SO) : Prop := rx_in (so_peer s) = [] /\ rx_ready mem covers (so_peer s).

Lemma send_table_spec table P pending mem s :
  live s -> peer_ready (Some mem) s -> good_table (so_kernel s) table -> Z.of_nat (length table) < 2 ^ 57 -> going P pending mem s ->
  tp (send_table table) (fun _ s' => live s' /\ so_paused s' = so_paused s /\ (so_paused s = true -> so_kernel s' = so_kernel s) /\
    exists mem', peer_ready (Some mem') s' /\
      going (fun x => P x \/ in_ranges x table) (fun x => pending x /\ ~ in_ranges x table) mem' s') s.
Proof.
  intros Hl [Hin Hready] [Hok Hmap] Hcount Hgo. unfold send_table. apply tp_bind, write_request_unwrap_spec, socket_write_spec; [done|].
  intros s1 Hs1 Hk1. apply tp_bind, socket_write_spec; [apply Hs1|]. intros s2 Hs2 Hk2. apply tp_bind.
  pose proof (sent_trans _ _ _ _ _ Hs1 Hs2) as Hs02.
  eapply tp_mono; [eapply (send_memory_regions_spec table P pending mem s2 s _ Hok); [|exact Hs02|]|].
  { by rewrite Hk2, Hk1. }
  { unfold going. by rewrite Hk2, Hk1. }
  intros [] s3 (bytes & Hs3 & Hlen & Hgo3). pose proof (se_peer _ _ _ Hs3) as Hpeer. rewrite Hin in Hpeer. cbn [app] in Hpeer. rewrite <- app_assoc in Hpeer.
  assert (Hready3 : rx_ready (Some mem) covers (so_peer s3)) by (rewrite Hpeer; by destruct Hready).
  destruct (memory_turn table bytes mem covers (so_peer s3)) as (mem' & r' & Hturn & Hin' & Hready' & Hmem');
    [done|unfold table_length, RANGE_SIZE; lia|done|by rewrite Hpeer|done|by apply (good_table_covered (so_kernel s)), Hl|].
  apply (expect_ok_spec r'); [apply Hs3|apply Hready3|apply Hready3|done|apply Hready'|]. intros io Hl4.
  split_and!; [done|apply Hs3|apply Hs3|]. exists mem'. split; [by split|].
  destruct Hgo3 as [Hon Hsync]. split; [done|]. eapply sync_ext; [|exact Hsync]. intros x. by rewrite Hmem'.
Qed.

(** ** Passes *)
Notation all x := (in_ranges x ranges).

(** Between two passes: every byte of the ranges is up to date over there, or in a log. *)
Definition passing (s : SO) : Prop := live s /\ exists mem, peer_ready (Some mem) s /\ going (fun x => all x) (fun _ => False) mem s.

Lemma maybe_send_spec s : passing s ->
  tp vm_maybe_send_dirty_pages (fun _ s' => passing s' /\ so_paused s' = so_paused s /\
    (so_paused s = true -> forall x, in_mappings mappings x -> ~ logged (so_kernel s') x)) s.
Proof.
  intros (Hl & mem & [Hin Hready] & Hgo). unfold vm_maybe_send_dirty_pages. apply tp_bind.
  eapply tp_mono; [by eapply dirty_log_spec|]. intros t s1 (Hq & Hgo1 & Hgood & Hcount & Hclear).
  assert (Hready1 : peer_ready (Some mem) s1) by (unfold peer_ready; by rewrite (qu_peer _ _ Hq)).
  pose proof (qu_paused _ _ Hq) as Hp. destruct t as [|q t].
  - apply tp_ret. split; [|split; [done|exact Hclear]]. split; [apply Hq|]. exists mem. split; [done|]. destruct Hgo1 as [Hon Hs]. split; [done|].
    apply (sync_mono (fun x => all x) _ (fun x => in_ranges x [])); [done| |exact Hs]. intros x (q & Hq' & _). by apply not_elem_of_nil in Hq'.
  - apply tp_bind. eapply tp_mono; [eapply (send_table_spec (q :: t)); [apply Hq|exact Hready1|exact Hgood|exact Hcount|exact Hgo1]|].
    intros [] s2 (Hl2 & Hp2 & Hk2 & mem' & Hready2 & Hon & Hs). apply tp_ret. split; [|split; [congruence|]].
    + split; [done|]. exists mem'. split; [done|]. split; [done|]. eapply sync_mono; [| |exact Hs]; cbn; [by intros ? ?; left|tauto].
    + intros Hpz x Hx. rewrite Hk2 by congruence. by apply Hclear.
Qed.

Lemma dirty_passes_spec n s : passing s -> tp (dirty_passes n) (fun _ s' => passing s' /\ so_paused s' = so_paused s) s.
Proof.
  revert s. induction n as [|n IH]; intros s Hs; cbn [dirty_passes]; [by apply tp_ret|].
  apply tp_bind. eapply tp_mono; [by apply maybe_send_spec|]. intros more s1 (Hs1 & Hp1 & _). destruct more; cbn [negb]; [|by apply tp_ret].
  eapply tp_mono; [by apply IH|]. cbn. intros _ s2 [? ?]. split; [done|congruence].
Qed.

(** ** The whole migration *)
Lemma reset_bitmaps_spec regions s : live s -> log_on (so_kernel s) ->
  tp (reset_bitmaps regions) (fun _ s' => quiet s s' /\ log_on (so_kernel s')) s.
Proof.
  revert s. induction regions as [|r rest IH]; intros s Hl Hon; cbn [reset_bitmaps]; [by apply tp_ret|].
  apply tp_bind, kernel_call_spec; [done|intros k _; apply law_reset|]. intros k g Ht Hl1. cbn [fst snd] in *.
  destruct (law_reset r.1 k) as [[Hun _] Hlog]. pose proof (ticked_place _ _ Ht) as Hp.
  assert (Hq : quiet s (so_set_guest (bitmap_reset r.1 k) g s)).
  { apply quiet_kernel; [done|]. intros x. destruct (Hp x), (Hun x). split; congruence. }
  assert (Honk : log_on k) by (destruct Ht as [->|[_ (_ & Hw & _)]]; auto).
  eapply tp_mono; [apply IH; [done|by apply Hlog]|]. cbn beta. intros _ s2 [Hq2 Hon2]. split; [by eapply quiet_trans|done].
Qed.

Lemma start_dirty_log_spec s : live s -> tp start_dirty_log (fun _ s' => quiet s s' /\ log_on (so_kernel s')) s.
Proof.
  intros Hl. unfold start_dirty_log. apply tp_bind, kernel_call_spec; [done|intros k _; apply law_start|]. intros k g Ht Hl1.
  pose proof (ticked_place _ _ Ht) as Hp. pose proof (law_start k) as [Hun _]. destruct (vm_start_dirty_log k) as [started k'] eqn:Hst. cbn [fst snd] in *.
  assert (Hq : quiet s (so_set_guest k' g s)).
  { apply quiet_kernel; [done|]. intros x. destruct (Hp x), (Hun x). split; congruence. }
  destruct started; cbn [negb].
  2:{ apply HF. intros (Hob & _). specialize (Hob k). by rewrite Hst in Hob. }
  apply tp_bind, tp_get, tp_bind. eapply tp_mono; [apply reset_bitmaps_spec; [done|by eapply law_started]|].
  cbn beta. intros _ s2 [Hq2 Hon2]. apply so_call_spec; [apply Hq2|]. intros io Hl3.
  split; [|done]. eapply quiet_trans; [exact Hq|]. eapply quiet_trans; [exact Hq2|]. by split.
Qed.

Lemma stop_dirty_log_spec s : live s -> so_paused s = true ->
  tp stop_dirty_log (fun _ s' => quiet s s' /\ forall x, guest_byte (so_kernel s') x = guest_byte (so_kernel s) x) s.
Proof.
  intros Hl Hpz. unfold stop_dirty_log. apply tp_bind, kernel_call_spec; [done|intros k _; apply law_stop|]. intros k g Ht Hl1.
  destruct Ht as [->|[? _]]; [|congruence]. pose proof (law_stop (so_kernel s)) as [Hun Hb].
  destruct (vm_stop_dirty_log (so_kernel s)) as [stopped k'] eqn:Hst. cbn [fst snd] in *. destruct stopped; cbn [negb].
  2:{ apply HF. intros (_ & Hob & _). specialize (Hob (so_kernel s)). by rewrite Hst in Hob. }
  apply so_call_spec; [done|]. intros io Hl3. split; [by split|done].
Qed.

Lemma send_memory_spec mem0 s : live s -> peer_ready (Some mem0) s ->
  tp send_memory (fun _ s' => live s' /\ so_paused s' = true /\
    exists mem, peer_ready (Some mem) s' /\ forall x, all x -> mem x = guest_byte (so_kernel s') x) s.
Proof.
  intros Hl [Hin Hready]. unfold send_memory. apply tp_bind. eapply tp_mono; [by apply start_dirty_log_spec|]. cbn beta. intros _ s1 [Hq1 Hon1].
  apply tp_bind, tp_get, tp_bind. rewrite (lv_zones _ (qu_live _ _ Hq1)). pose proof (lv_machine _ (qu_live _ _ Hq1)) as Hm.
  assert (Hgood : good_table (so_kernel s1) ranges).
  { split; [apply Hm|]. rewrite Forall_forall. intros q Hq x Hx. destruct (mk_inside _ Hm x) as (r & Hr & Hxr); [by exists q|]. by apply (mk_mapping _ Hm r Hr). }
  eapply tp_mono; [apply (send_table_spec ranges (fun _ => False) (fun _ => False) mem0 s1); [apply Hq1| |done| |split; [done|by intros x []]]|].
  { unfold peer_ready. by rewrite (qu_peer _ _ Hq1). }
  { pose proof (mk_count _ Hm). lia. }
  cbn beta. intros _ s2 (Hl2 & _ & _ & mem2 & Hready2 & Hon2 & Hs2).
  assert (Hpass2 : passing s2).
  { split; [done|]. exists mem2. split; [done|]. split; [done|]. eapply sync_mono; [| |exact Hs2]; cbn; [by intros ? ?; right|tauto]. }
  apply tp_bind. eapply tp_mono; [by apply dirty_passes_spec|]. cbn beta. intros _ s3 [Hpass3 _].
  apply tp_bind. unfold pause. apply tp_bind, so_call_spec; [apply Hpass3|]. intros io Hl4. apply tp_modify.
  set (s4 := so_set_paused true (so_set_io io s3)). assert (Hpass4 : passing s4).
  { destruct Hpass3 as (_ & mem & Hr & Hgo). split; [|by exists mem]. destruct Hl4. by split. }
  apply tp_bind. eapply tp_mono; [by apply maybe_send_spec|]. cbn beta. intros _ s5 (Hpass5 & Hp5 & Hclear).
  assert (Hpz : so_paused s5 = true) by (by rewrite Hp5). destruct Hpass5 as (Hl5 & mem & Hready5 & _ & Hs5).
  eapply tp_mono; [by apply stop_dirty_log_spec|]. cbn beta. intros _ s6 [Hq6 Hb6]. split; [apply Hq6|]. split; [by rewrite (qu_paused _ _ Hq6)|].
  exists mem. split; [unfold peer_ready; by rewrite (qu_peer _ _ Hq6)|]. intros x Hx. rewrite Hb6.
  destruct (Hs5 x Hx) as [?|[Hlg|[]]]; [done|]. exfalso. apply (Hclear eq_refl x); [|done]. by apply (mk_inside _ (lv_machine _ Hl5)).
Qed.

Lemma send_payload_spec c data r' (Q : unit -> SO -> Prop) s : live s -> rx_in (so_peer s) = [] -> rx_out (so_peer s) = [] -> rx_open (so_peer s) = true ->
  receive_turn (rx_set_in (request_bytes (mkRequest c (Z.of_nat (length data))) ++ data) (so_peer s)) = Went (respond response_ok r') -> rx_out r' = [] ->
  (forall s', live s' -> so_kernel s' = so_kernel s -> so_paused s' = so_paused s -> so_peer s' = r' -> Q tt s') -> tp (send_payload c data) Q s.
Proof.
  intros Hl Hin Ho Hop Hturn Ho' HQ. unfold send_payload. apply tp_bind, socket_write_spec; [done|]. intros s1 Hs1 Hk1.
  apply tp_bind, socket_write_spec; [apply Hs1|]. intros s2 Hs2 Hk2. pose proof (sent_trans _ _ _ _ _ Hs1 Hs2) as Hs02.
  pose proof (se_peer _ _ _ Hs02) as Hpeer. rewrite Hin in Hpeer. cbn [app] in Hpeer.
  apply (expect_ok_spec r'); [apply Hs02|by rewrite Hpeer|by rewrite Hpeer|by rewrite Hpeer|done|]. intros io Hl3.
  apply HQ; [done|cbn; congruence|apply Hs02|done].
Qed.

Lemma send_migration_spec chunks mem0 s :
  live s -> so_peer s = rx_new chunks -> Z.of_nat (length config) < 2 ^ 64 -> Z.of_nat (length state) < 2 ^ 64 ->
  recv_memory_manager config = Some (mem0, covers) -> recv_vm state = StateRestored -> recv_resume = true ->
  tp send_migration (fun _ s' => so_paused s' = true /\ rx_running (so_peer s') = true /\
    exists mem, rx_vm (so_peer s') = Some mem /\ forall x, all x -> mem x = guest_byte (so_kernel s') x) s.
Proof.
  intros Hl Hpeer Hcl Hsl Hrc Hrs Hrr. unfold send_migration. apply tp_bind, so_call_spec; [done|]. intros io1 Hl1.
  apply tp_bind, socket_write_spec; [done|]. intros s2 Hs2 Hk2. pose proof (se_peer _ _ _ Hs2) as Hp2. cbn [so_peer so_set_io] in Hp2. rewrite Hpeer in Hp2. cbn [rx_in rx_new app] in Hp2.
  destruct (start_turn chunks (so_peer s2) Hp2) as (r3 & Hturn3 & Hin3 & Hready3).
  apply tp_bind, (expect_ok_spec r3); [apply Hs2|by rewrite Hp2|by rewrite Hp2|done|apply Hready3|]. intros io2 Hl2.
  apply tp_bind, so_call_spec; [done|]. intros io3 Hl3.
  apply tp_bind, tp_get. rewrite (lv_config _ Hl3), (lv_state _ Hl3). 
  destruct (config_turn config None (fun _ => false) mem0 covers (rx_set_in (request_bytes (mkRequest CmdConfig (Z.of_nat (length config))) ++ config) r3))
    as (r4 & Hturn4 & Hin4 & Hready4); [done|by destruct Hready3|done|done|].
  apply tp_bind, (send_payload_spec _ _ r4); [done|done|apply Hready3|apply Hready3|done|apply Hready4|]. intros s4 Hl4 _ _ Hp4.
  apply tp_bind, so_call_spec; [done|]. intros io5 Hl5. apply tp_bind.
  eapply tp_mono; [apply (send_memory_spec mem0); [done|split; cbn; by rewrite Hp4]|]. cbn beta.
  intros _ s6 (Hl6 & Hpz6 & mem & [Hin6 Hready6] & Hmem). apply tp_bind, so_call_spec; [done|]. intros io7 Hl7.
  destruct (state_turn state mem covers (rx_set_in (request_bytes (mkRequest CmdState (Z.of_nat (length state))) ++ state) (so_peer s6)))
    as (r8 & Hturn8 & Hin8 & Ho8 & Hop8 & Hv8); [done|by destruct Hready6|done|done|].
  apply tp_bind, (send_payload_spec _ _ r8); [done|done|apply Hready6|apply Hready6|done|done|]. intros s8 Hl8 Hk8 Hpz8 Hp8.
  apply tp_bind, socket_write_spec; [done|]. intros s9 Hs9 Hk9. pose proof (se_peer _ _ _ Hs9) as Hp9. rewrite Hp8, Hin8 in Hp9. cbn [app] in Hp9.
  destruct (complete_turn mem (so_peer s9)) as (r10 & Hturn10 & Ho10 & Hv10 & Hrun10); [by rewrite Hp9|by rewrite Hp9|by rewrite Hp9|done|by rewrite Hp9|].
  apply tp_bind, (expect_ok_spec r10); [apply Hs9|by rewrite Hp9|by rewrite Hp9|done|done|]. intros io10 Hl10.
  apply so_call_spec; [done|]. intros io11 Hl11. cbn. split_and!; [|done|].
  - rewrite (se_paused _ _ _ Hs9), Hpz8. done.
  - exists mem. split; [done|]. intros x Hx. rewrite Hk9, Hk8. by apply Hmem.
Qed.
End migration.

(** C16: A live migration moves the memory exactly.
    The guest and its devices write all along, between any two steps, until they are
    paused; writes to the socket are short or fail, reads on the other side come in
    pieces.  When the migration reports success, the machine is paused here and runs
    there, and every byte of its ranges is there what it is here.  Without an error of
    the socket, of the logs or of the other side, the migration succeeds. *)
Theorem live_migration {K} `{ProcHost K} `{DirtyHost K} `{LogHost K} `{!LogLaws K} `{RecvHost} (s s' : Source K) r chunks mem0 covers :
  so_peer s = rx_new chunks -> Forall (fun g => forall k, guest_writes k (g k)) (so_guest s) ->
  machine_ok (so_zones s) (so_mappings s) covers (so_kernel s) ->
  Z.of_nat (length (so_config s)) < 2 ^ 64 -> Z.of_nat (length (so_state s)) < 2 ^ 64 ->
  recv_memory_manager (so_config s) = Some (mem0, covers) -> recv_vm (so_state s) = StateRestored -> recv_resume = true ->
  send_migration s = (r, s') ->
  (io_clean (so_io s) -> kernel_obliges -> r = Done tt) /\
  (r = Done tt -> so_paused s' = true /\ rx_running (so_peer s') = true /\
    exists mem, rx_vm (so_peer s') = Some mem /\
      forall x, in_ranges x (zone_ranges false (so_zones s) []) -> mem x = guest_byte (so_kernel s') x).
Proof.
  intros Hpeer Hg Hm Hcl Hsl Hrc Hrs Hrr Hrun. set (F := ~ (io_clean (so_io s) /\ kernel_obliges)).
  assert (Hl : live F (so_zones s) (so_mappings s) (so_config s) (so_state s) covers s) by (split; unfold F; tauto).
  pose proof (send_migration_spec F ltac:(unfold F; tauto) _ _ _ _ covers chunks mem0 s Hl Hpeer Hcl Hsl Hrc Hrs Hrr) as Htp.
  unfold tp in Htp. rewrite Hrun in Htp. split.
  - intros Hio Hob. destruct r as [[]|e|]; [done|by destruct Htp|by destruct Htp].
  - intros ->. exact Htp.
Qed.


Section failing.
Context {K : Type} `{ProcHost K} `{DirtyHost K} `{LogHost K} `{RecvHost}.
Notation SO := (Source K).

Lemma so_call_clean e (s : SO) : io_clean (so_io s) -> exists io, so_call e s = (Done tt, so_set_io io s) /\ io_clean io.
Proof.
  intros Hcl. unfold so_call, bind, so_next. destruct s as [k g p z m c st io pe]. cbn in *. destruct io as [|[|n] io].
  - by exists [].
  - by apply Forall_cons in Hcl as [? _].
  - exists io. split; [done|]. by apply Forall_cons in Hcl as [_ ?].
Qed.

Lemma tick_runs (s : SO) : exists k g, tick s = (Done tt, so_set_guest k g s).
Proof. destruct s as [k g p z m c st io pe]. unfold tick. cbn. destruct p, g; by eexists _, _. Qed.

Lemma stop_dirty_log_clean (s : SO) : (forall k, (vm_stop_dirty_log k).1 = true) -> io_clean (so_io s) ->
  exists s', stop_dirty_log s = (Done tt, s') /\ so_paused s' = so_paused s /\ io_clean (so_io s').
Proof.
  intros Hob Hcl. unfold stop_dirty_log, kernel_call. destruct (tick_runs s) as (k & g & Htick).
  unfold bind, get, modify, ret. rewrite Htick. cbn [so_kernel so_set_guest]. specialize (Hob k).
  destruct (vm_stop_dirty_log k) as [b k']. cbn in Hob. subst b. cbn [negb].
  destruct (so_call_clean HostRefused (so_set_kernel k' (so_set_guest k g s)) Hcl) as (io & Hc & Hcl'). rewrite Hc. by eexists.
Qed.
End failing.

(** C26: A migration that returns an error leaves the machine running here.
    At whatever point the error was, if the kernel's calls for the dirty logs succeed and no
    call fails after it, so that the logs can be stopped and the machine resumed, the error
    is that of the migration and the machine is not paused.  An error of the socket at the
    request for the memory is not returned, it panics: [memory_request_panics]. *)
Theorem failed_migration_resumes {K} `{ProcHost K} `{DirtyHost K} `{LogHost K} `{RecvHost} (s s1 : Source K) e :
  send_migration s = (Fail e, s1) -> io_clean (so_io s1) -> kernel_obliges ->
  exists s', vm_send_migration s = (Fail e, s') /\ so_paused s' = false.
Proof.
  intros Hrun Hio (_ & Hob & _). unfold vm_send_migration. rewrite Hrun.
  destruct (stop_dirty_log_clean s1 Hob Hio) as (s2 & Hst & _ & Hcl2). unfold bind at 1. rewrite Hst.
  unfold bind, get, modify, resume, throw, ret. destruct (so_paused s2) eqn:Hp2; [|by exists s2].
  unfold bind. destruct (so_call_clean HostRefused s2 Hcl2) as (io & Hc & _). rewrite Hc. by eexists.
Qed.
