(* ===== verification/MigrationRun.v ===== *)
(** A kernel with dirty logs that keeps the laws of MigrationProofs, a live migration on
    it, and what a migration does when its last steps go wrong. *)
From stdpp Require Import base numbers strings list.
From S2P Require Import Prelude Bytes MemoryRanges SnapshotPages SnapshotMemory SnapshotProofs SnapshotRestore MigrationProtocol MigrationProtocolProofs Migration MigrationProofs.
#[local] Open Scope Z_scope.

(** ** The kernel

    The logs are the addresses that were written by the guest ([lk_vm]) and by the
    devices ([lk_vmm]) and not reported yet.  Its pages are of 64 bytes. *)
Record LogKernel := mkLog { lk_bytes : Z -> Z; lk_vm : list Z; lk_vmm : list Z; lk_on : bool }.

#[export] Instance log_proc : ProcHost LogKernel := {|
  host_page_size := 64;
  get_host_address _ g := if decide (0 <= g < 4096) then Some g else None;
  guest_byte := lk_bytes;
  proc_open _ _ := false;
  proc_read _ _ _ _ := ReadError;
  clear_refs k := (Cleared, k);
  scratch_mmap k := (None, k);
  scratch_write _ k := (false, k);
  scratch_munmap _ k := k;
|}.

(** The bitmap of the pages of [gpa, gpa + size) with an address in [log]. *)
Definition log_words (gpa size : Z) (log : list Z) : list Z :=
  foldr (fun x words =>
    if decide (gpa <= x < gpa + size) then
      let p := Z.to_nat ((x - gpa) / 64) in
      alter (fun w => Z.lor w (Z.shiftl 1 (Z.of_nat (p mod 64)))) (p / 64)%nat words
    else words) (replicate (Z.to_nat (div_ceil (div_ceil size 64) 64)) 0) log.
Definition log_rest (gpa size : Z) (log : list Z) : list Z := filter (fun x => ~ (gpa <= x < gpa + size)) log.

Definition log_regions : list (Z * Z) := [(0, 128); (256, 64)].
#[export] Instance log_dirty : DirtyHost LogKernel := {|
  guest_regions _ := log_regions;
  find_region _ g := List.find (fun r => bool_decide (r.1 <= g < r.1 + r.2)) log_regions;
  bitmap_get_and_reset start k :=
    match List.find (fun r => bool_decide (r.1 <= start < r.1 + r.2)) log_regions with
    | Some (_, len) => (log_words start len (lk_vmm k), mkLog (lk_bytes k) (lk_vm k) (log_rest start len (lk_vmm k)) (lk_on k))
    | None => ([], k)
    end;
  get_dirty_log _ gpa size k :=
    (Some (log_words gpa size (lk_vm k)), mkLog (lk_bytes k) (log_rest gpa size (lk_vm k)) (lk_vmm k) (lk_on k));
|}.

#[export] Instance log_logs : LogHost LogKernel := {|
  vm_start_dirty_log k := (true, mkLog (lk_bytes k) (lk_vm k) (lk_vmm k) true);
  vm_stop_dirty_log k := (true, mkLog (lk_bytes k) [] (lk_vmm k) false);
  bitmap_reset a k := (bitmap_get_and_reset a k).2;
  device_dirty_log k := (Some [], k);
|}.

Lemma div_ceil_above x y q : 0 < y -> q * y < x -> q < div_ceil x y.
Proof. intros Hy Hq. unfold div_ceil. case_decide; Z.div_mod_to_equations; nia. Qed.

Lemma log_words_length gpa size log : length (log_words gpa size log) = Z.to_nat (div_ceil (div_ceil size 64) 64).
Proof.
  induction log as [|x log IH]; cbn; [apply length_replicate|]. case_decide; [|done]. by rewrite length_alter.
Qed.

Lemma log_words_bit gpa size log p :
  word_bit (log_words gpa size log) p = true <-> exists x, x ∈ log /\ gpa <= x < gpa + size /\ p = Z.to_nat ((x - gpa) / 64).
Proof.
  induction log as [|x log IH].
  - split; [|by intros (x & ?%elem_of_nil & _)]. cbn. unfold word_bit. destruct (replicate _ _ !! _) as [w|] eqn:Hw; [|done].
    apply lookup_replicate in Hw as [-> _]. by rewrite Z.testbit_0_l.
  - unfold log_words. cbn [foldr]. fold (log_words gpa size log). case_decide as Hx.
    + rewrite word_bit_alter, orb_true_iff, bool_decide_eq_true, IH.
      2:{ rewrite log_words_length.
          assert (Hp : (x - gpa) / 64 < div_ceil size 64) by (apply div_ceil_above; Z.div_mod_to_equations; lia).
          assert (H0 : 0 <= (x - gpa) / 64) by (apply Z.div_pos; lia). set (q := (x - gpa) / 64) in *.
          assert (Hq : q / 64 < div_ceil (div_ceil size 64) 64) by (apply div_ceil_above; [lia|]; Z.div_mod_to_equations; lia).
          apply Nat2Z.inj_lt. rewrite Nat2Z.inj_div, Z2Nat.id by lia. pose proof (Z.div_pos q 64). lia. }
      split.
      * intros [->|(y & Hy & ?)]; [exists x; split; [apply elem_of_cons; by left|done]|exists y; split; [apply elem_of_cons; by right|done]].
      * intros (y & [->|Hy]%elem_of_cons & Hin & ->); [by left|right; by exists y].
    + rewrite IH. split.
      * intros (y & Hy & ?). exists y. split; [apply elem_of_cons; by right|done].
      * intros (y & [->|Hy]%elem_of_cons & Hin & ->); [done|by exists y].
Qed.

Lemma log_words_taken (own other : LogKernel -> list Z) gpa size k k' :
  own k' = log_rest gpa size (own k) -> other k' = other k ->
  log_taken (fun k x => x ∈ own k) (fun k x => x ∈ other k) gpa size k (log_words gpa size (own k)) k'.
Proof.
  intros Ho Hr. split.
  - intros x. by rewrite Hr.
  - apply log_words_length.
  - intros p (x & _ & Hx & ->)%log_words_bit. cbn. rewrite Z2Nat.id by (apply Z.div_pos; lia). Z.div_mod_to_equations; lia.
  - intros x Hx. rewrite Ho. unfold log_rest. rewrite list_elem_of_filter. split; [tauto|]. intros Hin. apply log_words_bit. by exists x.
  - intros x Hx. rewrite Ho. unfold log_rest. rewrite list_elem_of_filter. tauto.
Qed.

#[export] Instance log_laws : LogLaws LogKernel.
Proof.
  refine {| vm_logged k x := x ∈ lk_vm k; vmm_logged k x := x ∈ lk_vmm k; log_on k := lk_on k = true |}.
  - cbn. lia.
  - done.
  - by intros k k' [= <-].
  - done.
  - intros a k. cbn [bitmap_reset log_logs bitmap_get_and_reset log_dirty]. by destruct (List.find _ _) as [[]|].
  - intros slot gpa size k. split; [done|]. split; [done|]. intros words [= <-]. by apply (log_words_taken lk_vm lk_vmm).
  - intros start len k Hf. cbn [find_region log_dirty] in Hf. cbn [bitmap_get_and_reset log_dirty]. rewrite Hf.
    split; [done|]. split; [done|]. by apply (log_words_taken lk_vmm lk_vm).
  - intros k. split; [done|]. split; [done|]. split; [done|]. intros table [= <-]. split; [apply Forall_nil_2|cbn; lia].
Defined.

(** ** A migration

    A store of the guest or of a device. *)
Definition log_store (device : bool) (g v : Z) (k : LogKernel) : LogKernel :=
  mkLog (fun x => if decide (x = g) then v else lk_bytes k x)
    (if device then lk_vm k else g :: lk_vm k) (if device then g :: lk_vmm k else lk_vmm k) (lk_on k).

Lemma log_store_writes device g v k : guest_writes k (log_store device g v k).
Proof.
  split; [done|]. split; [done|]. intros x. cbn. split; [|destruct device; split; try done; intros Hin; apply elem_of_cons; by right].
  intros _. case_decide as Hx; [|done]. intros _. subst. unfold logged. destruct device; [right|left]; cbn; apply elem_of_cons; by left.
Qed.

Definition log_peer : RecvHost := {|
  recv_memory_manager data := if decide (data = [1; 2; 3]) then Some (fun _ => 0, fun x => bool_decide (0 <= x < 4096)) else None;
  recv_vm data := if decide (data = [4; 5]) then StateRestored else StateFailed;
  recv_resume := true;
|}.
#[local] Existing Instance log_peer.

Definition log_zones : list MemoryZone := [mkMemoryZone [mkRamRegion 0 128 0 None; mkRamRegion 256 64 0 None] None].
Definition log_mappings : list GuestRamMapping := [mkRamMapping 0 0 128 "mem0" false 0; mkRamMapping 1 256 64 "mem0" false 0].
Definition log_source (guest : list (LogKernel -> LogKernel)) (io : list IoAnswer) : Source LogKernel :=
  mkSource (mkLog (fun x => x mod 251) [] [] false) guest false log_zones log_mappings [1; 2; 3] [4; 5] io (rx_new [3; 1000]).

Lemma log_machine k : machine_ok log_zones log_mappings (fun x => bool_decide (0 <= x < 4096)) k.
Proof.
  split.
  - intros r Hr. assert (Hb : 0 <= map_gpa r /\ 0 < map_size r /\ map_size r mod 64 = 0 /\ map_gpa r + map_size r <= 4096 /\
      find_region k (map_gpa r) = Some (map_gpa r, map_size r)).
    { apply elem_of_cons in Hr as [->|[->|[]%elem_of_nil]%elem_of_cons]; cbn; repeat split; lia. }
    destruct Hb as (? & ? & ? & ? & ?). split_and!; try done; [lia|]. intros x Hx. unfold in_mapping in Hx. cbn. rewrite decide_True by lia. done.
  - cbn. lia.
  - repeat constructor; cbn; lia.
  - cbn. lia.
  - intros x Hx. cbn in Hx. unfold in_ranges in Hx. destruct Hx as (q & Hq & Hx). apply elem_of_cons in Hq as [->|[->|[]%elem_of_nil]%elem_of_cons]; cbn in Hx.
    + exists (mkRamMapping 0 0 128 "mem0" false 0). split; [apply elem_of_cons; by left|]. unfold in_mapping. cbn. lia.
    + exists (mkRamMapping 1 256 64 "mem0" false 0). split; [apply elem_of_cons; right; apply elem_of_cons; by left|]. unfold in_mapping. cbn. lia.
  - intros x. cbn. case_decide; [|by intros []]. by rewrite bool_decide_eq_true.
Qed.

(** Stores during the first copy, during each pass, and one that will not happen. *)
Definition busy_guest : list (LogKernel -> LogKernel) :=
  [log_store false 5 1; log_store true 262 2; log_store false 65 3; log_store false 6 4; log_store true 9 5; log_store false 256 6; log_store true 7 7].
Definition busy_source : Source LogKernel := log_source busy_guest [IoCount 1; IoCount 1; IoCount 1; IoCount 1; IoCount 1; IoCount 1; IoCount 1; IoCount 1; IoCount 1; IoCount 1; IoCount 100].

Lemma busy_guest_writes : Forall (fun g => forall k, guest_writes k (g k)) busy_guest.
Proof. unfold busy_guest. repeat (apply Forall_cons_2; [intros k; apply log_store_writes|]). apply Forall_nil_2. Qed.

Lemma live_migration_witness :
  (send_migration busy_source).1 = Done tt /\
  exists mem, rx_vm (so_peer (send_migration busy_source).2) = Some mem /\
    forall x, 0 <= x < 128 \/ 256 <= x < 320 -> mem x = lk_bytes (so_kernel (send_migration busy_source).2) x.
Proof.
  destruct (live_migration busy_source (send_migration busy_source).2 (send_migration busy_source).1 [3; 1000] (fun _ => 0) (fun x => bool_decide (0 <= x < 4096))) as [Hdone Hmem];
    [done|exact busy_guest_writes|apply log_machine|cbn; lia|cbn; lia|done|done|done|by destruct (send_migration busy_source)|].
  assert (Hr : (send_migration busy_source).1 = Done tt).
  { apply Hdone; [repeat constructor; done|]. split_and!; done. }
  split; [exact Hr|]. destruct (Hmem Hr) as (_ & _ & mem & Hvm & Hx). exists mem. split; [exact Hvm|]. intros x [H|H]; apply Hx.
  - exists (mkMemoryRange 0 128). split; [apply elem_of_cons; by left|cbn; lia].
  - exists (mkMemoryRange 256 64). split; [apply elem_of_cons; right; apply elem_of_cons; by left|cbn; lia].
Defined.

(** The stores made while the memory was being copied have arrived. *)
Lemma busy_stores_arrive :
  (fun x => match rx_vm (so_peer (send_migration busy_source).2) with Some mem => mem x | None => -1 end) <$> [5; 262; 65; 6; 9; 256; 7] = [1; 2; 3; 4; 5; 6; 7].
Proof. vm_compute. done. Qed.

(** ** Migrations that fail

    The first [n] calls succeed and the next ones are [rest]. *)
Definition fails_at (n : nat) (rest : list IoAnswer) : Source LogKernel := log_source [] (replicate n (IoCount 128) ++ rest).

(** The snapshot cannot be taken: the machine, paused for the last pass, runs again. *)
Lemma failed_migration_resumes_witness :
  so_paused (send_migration (fails_at 16 [IoError])).2 = true /\
  exists s', vm_send_migration (fails_at 16 [IoError]) = (Fail HostRefused, s') /\ so_paused s' = false.
Proof.
  split; [vm_compute; reflexivity|].
  apply (failed_migration_resumes (fails_at 16 [IoError]) (send_migration (fails_at 16 [IoError])).2 HostRefused).
  - assert (Hr : (send_migration (fails_at 16 [IoError])).1 = Fail HostRefused) by (vm_compute; reflexivity).
    rewrite <- Hr. apply surjective_pairing.
  - assert (Hio : so_io (send_migration (fails_at 16 [IoError])).2 = []) by (vm_compute; reflexivity). rewrite Hio. apply Forall_nil_2.
  - split_and!; done.
Defined.

(** When the last call, [complete_migration], fails, the other side has already resumed
    the machine, and this side resumes it as well. *)
Lemma both_sides_run :
  let '(r, s) := vm_send_migration (fails_at 22 [IoError]) in
  (r, so_paused s, rx_running (so_peer s)) = (Fail HostRefused, false, true).
Proof. vm_compute. done. Qed.

(** A socket that fails when the request for the memory is written panics the VMM. *)
Lemma memory_request_panics : (vm_send_migration (fails_at 9 [IoError])).1 = Crashed.
Proof. vm_compute. done. Qed.

(** When the devices cannot stop their logs, the machine stays paused. *)
Lemma stop_failure_stays_paused :
  let '(r, s) := vm_send_migration (fails_at 15 [IoError; IoError]) in (r, so_paused s, rx_running (so_peer s)) = (Fail HostRefused, true, false).
Proof. vm_compute. done. Qed.

(** A configuration sent before the start is refused without being read: its bytes are
    taken for the next request. *)
Lemma refused_payload_is_parsed :
  let payload := request_bytes (mkRequest CmdStart 0) in
  match receive_turn (rx_set_in (request_bytes (mkRequest CmdConfig (Z.of_nat (length payload))) ++ payload) (rx_new [])) with
  | Went r => rx_started r = false /\ match receive_turn r with Went r' => rx_started r' = true | _ => False end
  | _ => False
  end.
Proof. vm_compute. done. Qed.

(** A length that is no multiple of the size of a range panics the receiver, and so does
    a slot without its descriptor; a code that is no command is undefined behaviour. *)
Lemma bad_requests :
  let ready := rx_set_in (request_bytes (mkRequest CmdStart 0) ++ request_bytes (mkRequest CmdConfig 3) ++ [1; 2; 3] ++ request_bytes (mkRequest CmdMemory 15) ++ replicate 15 0) (rx_new []) in
  (match receive_turn ready with Went r => match receive_turn r with Went r => receive_turn r | t => t end | t => t end) = RxPanic /\
  (let start := rx_set_in (request_bytes (mkRequest CmdStart 0) ++ request_bytes (mkRequest CmdMemoryFd 4) ++ [0; 0; 0; 0]) (rx_new []) in
   match receive_turn start with Went r => receive_turn r | t => t end) = RxPanic /\
  receive_turn (rx_set_in (le_bytes 2 77 ++ replicate 14 0) (rx_new [])) = RxUndefined.
Proof. vm_compute. done. Qed.
