(* ===== verification/AddressAllocator.v ===== *)
(** The allocator of guest address ranges
    (hypervisor/vm-allocator/src/address.rs): ranges are handed out from the end
    of the managed space, or at a requested address. *)
From stdpp Require Import base numbers sets list.
From S2P Require Import Prelude BTree.

Inductive alloc_error := AllocOverflow | AllocOverlap | UnalignedAddress.

(** [end_] is the last address; [ranges] has an entry of size zero after it. *)
Record AddressAllocator := mkAllocator {
  base : Z;
  end_ : Z;
  ranges : list (Z * Z);
}.

Definition set_ranges (r : list (Z * Z)) (al : AddressAllocator) : AddressAllocator :=
  mkAllocator (base al) (end_ al) r.

Definition allocator_new (b size : Z) : option AddressAllocator :=
  if decide (size = 0%Z) then None
  else
    last_address ← checked_add 64 b (size - 1);
    marker ← checked_add 64 b size;
    Some (mkAllocator b last_address (bt_insert marker 0%Z [])).

(** [%] on a divisor that is not zero; [unchecked_add] wraps. *)
Definition align_address (address alignment : Z) : Z :=
  let align_adjust :=
    if decide (address mod alignment <> 0)%Z then (alignment - address mod alignment)%Z else 0%Z in
  wadd 64 address align_adjust.

(** The loop over the ranges, [prev_end] being the end of the last one. *)
Fixpoint available_loop (prev_end addr req_size : Z) (rs : list (Z * Z)) : result alloc_error Z :=
  match rs with
  | [] => Err AllocOverflow
  | (address, size) :: rs =>
    if decide (addr <= address)%Z then
      if decide (addr < prev_end)%Z then Err AllocOverlap
      else if decide (wsub 64 address addr < req_size)%Z then Err AllocOverlap
      else Ok addr
    else available_loop (wadd 64 address size) addr req_size rs
  end.

Definition available_range (req_address req_size alignment : Z) (al : AddressAllocator)
  : result alloc_error Z :=
  let aligned_address := align_address req_address alignment in
  if decide (aligned_address <> req_address) then Err UnalignedAddress
  else if decide (end_ al <= aligned_address \/ aligned_address < base al)%Z then Err AllocOverflow
  else available_loop (base al) aligned_address req_size (ranges al).

(** The loop over the ranges in reverse order. *)
Fixpoint first_loop (b req_size alignment : Z) (rev_ranges : list (Z * Z)) : option Z :=
  match rev_ranges with
  | [] => None
  | (address, _) :: rest =>
    let prev_end_address :=
      match rest with [] => b | (a, s) :: _ => wadd 64 a s end in
    match checked_sub address (align_address prev_end_address alignment) with
    | Some size_delta =>
      let adjust := if decide (1 < alignment)%Z then (alignment - 1)%Z else 0%Z in
      if decide (req_size <= size_delta)%Z
      then Some (align_address (wsub 64 address (wadd 64 req_size adjust)) alignment)
      else first_loop b req_size alignment rest
    | None => first_loop b req_size alignment rest
    end
  end.

Definition first_available_range (req_size alignment : Z) (al : AddressAllocator) : option Z :=
  first_loop (base al) req_size alignment (reverse (ranges al)).

Definition is_power_of_two (x : Z) : bool :=
  bool_decide (0 < x)%Z && bool_decide (Z.land x (x - 1) = 0%Z).

Definition allocate (address : option Z) (size : Z) (align_size : option Z) (al : AddressAllocator)
  : option Z * AddressAllocator :=
  let alignment := default 4%Z align_size in
  if decide (size = 0%Z) then (None, al)
  else if negb (is_power_of_two alignment) || bool_decide (alignment = 0%Z) then (None, al)
  else
    let new_addr :=
      match address with
      | Some req_address =>
        match available_range req_address size alignment al with Ok addr => Some addr | Err _ => None end
      | None => first_available_range size alignment al
      end in
    match new_addr with
    | None => (None, al)
    | Some addr => (Some addr, set_ranges (bt_insert addr size (ranges al)) al)
    end.

Definition free (address size : Z) (al : AddressAllocator) : AddressAllocator :=
  match bt_get address (ranges al) with
  | Some range_size =>
    if decide (size = range_size) then set_ranges (bt_remove address (ranges al)) al else al
  | None => al
  end.

(** ** Alignment *)
#[local] Open Scope Z_scope.

Lemma power_of_two_spec x : in_width 64 x -> is_power_of_two x = true -> exists k, 0 <= k < 64 /\ x = 2 ^ k.
Proof.
  intros [Hx Hw]. unfold is_power_of_two. rewrite andb_true_iff, !bool_decide_eq_true. intros [H0 Hl].
  exists (Z.log2 x). pose proof (Z.log2_nonneg x). pose proof (Z.log2_spec x H0) as [Hlo Hhi].
  split; [split; [done|by apply Z.log2_lt_pow2]|].
  destruct (decide (x = 2 ^ Z.log2 x)) as [|Hne]; [done|]. exfalso.
  assert (Hlog : Z.log2 (x - 1) = Z.log2 x) by (apply Z.log2_unique; lia).
  assert (Hbit : Z.testbit (Z.land x (x - 1)) (Z.log2 x) = true).
  { rewrite Z.land_spec, Z.bit_log2 by done. rewrite <- Hlog. apply Z.bit_log2. lia. }
  by rewrite Hl, Z.bits_0 in Hbit.
Qed.

(** The next multiple of [A], and the one before. *)
Definition up (x A : Z) : Z := x + (- x) mod A.
Definition down (x A : Z) : Z := x - x mod A.

Lemma up_spec x A : 0 < A -> x <= up x A < x + A /\ (A | up x A).
Proof.
  intros HA. unfold up. pose proof (Z.mod_pos_bound (- x) A HA). split; [lia|].
  apply Z.mod_divide; [lia|]. rewrite Zplus_mod_idemp_r. replace (x + - x) with 0 by lia.
  apply Z.mod_0_l. lia.
Qed.
Lemma down_spec x A : 0 < A -> x - A < down x A <= x /\ (A | down x A).
Proof.
  intros HA. unfold down. pose proof (Z.mod_pos_bound x A HA). split; [lia|].
  apply Z.mod_divide; [lia|]. rewrite Zminus_mod_idemp_r, Z.sub_diag. apply Z.mod_0_l. lia.
Qed.
Lemma multiple_le q r A : 0 < A -> q * A < r * A + A -> q * A <= r * A.
Proof. intros HA Hlt. destruct (decide (q <= r)); [nia|]. assert ((r + 1) * A <= q * A) by nia. lia. Qed.
Lemma multiple_le_down x y A : 0 < A -> (A | y) -> y <= x -> y <= down x A.
Proof.
  intros HA [q ->] Hle. destruct (down_spec x A HA) as [Hb [r Hr]]. rewrite Hr in Hb |- *.
  apply multiple_le; lia.
Qed.
Lemma multiple_ge_up x y A : 0 < A -> (A | y) -> x <= y -> up x A <= y.
Proof.
  intros HA [q ->] Hle. destruct (up_spec x A HA) as [Hb [r Hr]]. rewrite Hr in Hb |- *.
  apply multiple_le; lia.
Qed.
Lemma up_before x A : 0 < A -> up (x - (A - 1)) A = down x A.
Proof.
  intros HA. destruct (up_spec (x - (A - 1)) A HA) as [Hu [q Hq]].
  destruct (down_spec x A HA) as [Hd [r Hr]]. rewrite Hq in Hu |- *. rewrite Hr in Hd |- *.
  apply Z.le_antisymm; apply multiple_le; lia.
Qed.

(** Alignment commutes with the wrap-around, as the alignment divides [2^64]. *)
Lemma align_wrap x k :
  0 <= k < 64 -> align_address (wrap 64 x) (2 ^ k) = wrap 64 (up x (2 ^ k)).
Proof.
  intros Hk. assert (HA : 0 < 2 ^ k) by (apply Z.pow_pos_nonneg; lia).
  unfold align_address. rewrite wrap_mod by lia. unfold up. rewrite wadd_wrap_l.
  pose proof (Z.mod_pos_bound x (2 ^ k) HA). case_decide as Hz.
  - by rewrite Z.mod_opp_l_nz by lia.
  - rewrite Z.mod_opp_l_z by lia. done.
Qed.
Lemma align_up x k :
  0 <= k < 64 -> 0 <= x -> x + 2 ^ k <= 2 ^ 64 -> align_address x (2 ^ k) = up x (2 ^ k).
Proof.
  intros Hk Hx Hfit. destruct (up_spec x (2 ^ k)) as [Hu _]; [apply Z.pow_pos_nonneg; lia|].
  rewrite <- (wrap_small 64 x) at 1 by (unfold in_width; lia).
  rewrite align_wrap by done. apply wrap_small. unfold in_width. lia.
Qed.
Lemma align_fixed x k : 0 <= k < 64 -> in_width 64 x -> align_address x (2 ^ k) = x <-> (2 ^ k | x).
Proof.
  intros Hk Hx. assert (HA : 0 < 2 ^ k) by (apply Z.pow_pos_nonneg; lia).
  assert (H64 : 2 ^ k <= 2 ^ 63) by (apply Z.pow_le_mono_r; lia).
  rewrite <- Z.mod_divide by lia. unfold align_address, wadd.
  pose proof (Z.mod_pos_bound x (2 ^ k) HA). case_decide as Hz.
  - split; [|lia]. intros Hw. exfalso. unfold wrap, in_width in *.
    destruct (decide (x + (2 ^ k - x mod 2 ^ k) < 2 ^ 64)) as [Hs|Hs]; [rewrite Z.mod_small in Hw; lia|].
    rewrite <- (Z.mod_unique _ (2 ^ 64) 1 (x + (2 ^ k - x mod 2 ^ k) - 2 ^ 64)) in Hw; lia.
  - rewrite Z.add_0_r, wrap_small by done. split; [lia|done].
Qed.

(** ** Ranges in ascending order

    [seg lo hi l]: the ranges of [l] lie one after the other between [lo] and
    [hi]. *)
Fixpoint seg (lo hi : Z) (l : list (Z * Z)) : Prop :=
  match l with
  | [] => lo <= hi
  | (a, s) :: l => lo <= a /\ 0 <= s /\ seg (a + s) hi l
  end.

Lemma seg_le lo hi l : seg lo hi l -> lo <= hi.
Proof. revert lo. induction l as [|[a s] l IH]; intros lo; cbn; [done|]. intros (? & ? & ?%IH). lia. Qed.
Lemma seg_weaken lo hi hi' l : seg lo hi l -> hi <= hi' -> seg lo hi' l.
Proof. revert lo. induction l as [|[a s] l IH]; intros lo; cbn; [lia|]. intros (? & ? & ?) ?. eauto. Qed.
Lemma seg_app lo hi l1 l2 : seg lo hi (l1 ++ l2) <-> exists mid, seg lo mid l1 /\ seg mid hi l2.
Proof.
  revert lo. induction l1 as [|[a s] l1 IH]; intros lo; cbn.
  - split; [|intros (mid & ? & Hs)]; [by exists lo|].
    destruct l2 as [|[a s] l2]; cbn in *; [lia|]. destruct Hs as (? & ? & ?). split_and!; [lia|done|done].
  - rewrite IH. split; [intros (? & ? & mid & ? & ?)|intros (mid & (? & ? & ?) & ?)]; eauto 10.
Qed.
Lemma seg_elem lo hi l a s : seg lo hi l -> (a, s) ∈ l -> lo <= a /\ 0 <= s /\ a + s <= hi.
Proof.
  revert lo. induction l as [|[a' s'] l IH]; intros lo; cbn; [set_solver|].
  intros (? & ? & Hs) [[= -> ->]|Hin]%elem_of_cons; [pose proof (seg_le _ _ _ Hs); lia|].
  destruct (IH _ Hs Hin). lia.
Qed.

(** The end of the last range. *)
Definition seg_end (lo : Z) (rev_l : list (Z * Z)) : Z :=
  match rev_l with [] => lo | (a, s) :: _ => a + s end.

Lemma seg_to_end lo hi l : seg lo hi l -> seg lo (seg_end lo (reverse l)) l /\ seg_end lo (reverse l) <= hi.
Proof.
  destruct l as [|[a s] l _] using rev_ind; cbn; [lia|]. rewrite reverse_snoc. cbn.
  rewrite !seg_app. intros (mid & H1 & H2). cbn in H2. split; [|lia]. exists mid. split; [done|]. cbn. lia.
Qed.

(** [n] addresses from [x] that lie before the start of some range of [l], not
    below [b], and in none of the ranges. *)
Definition free_in (b : Z) (l : list (Z * Z)) (x n : Z) : Prop :=
  b <= x /\ (exists e, e ∈ l /\ x + n <= e.1) /\ (forall e, e ∈ l -> x + n <= e.1 \/ e.1 + e.2 <= x).

(** A gap that is too small for an aligned block adds no place for one. *)
Lemma free_in_snoc b hi l a s A x n :
  0 < A -> 0 < n -> seg b hi (l ++ [(a, s)]) -> (A | x) ->
  a < up (seg_end b (reverse l)) A + n -> free_in b (l ++ [(a, s)]) x n <-> free_in b l x n.
Proof.
  intros HA Hn Hseg Hx Hgap. apply seg_app in Hseg as (mid & Hl & Hlast). cbn in Hlast.
  destruct (seg_to_end _ _ _ Hl) as [Hend Hmid]. unfold free_in. setoid_rewrite elem_of_app.
  setoid_rewrite list_elem_of_singleton. split.
  - intros (Hb & Hbelow & Hno). split; [done|]. split; [|auto].
    assert (Hxa : x + n <= a).
    { destruct (Hno (a, s)) as [|Hge]; [by right|done|]. cbn in Hge.
      destruct Hbelow as ([a1 s1] & [Hin| [= -> ->]] & Hlt); cbn in Hlt; [|lia].
      destruct (seg_elem _ _ _ _ _ Hl Hin). lia. }
    destruct (decide (Exists (fun e => x + n <= e.1) l)) as [He|He]; [by apply Exists_exists in He|].
    exfalso. assert (Hpast : seg_end b (reverse l) <= x).
    { clear Hgap. destruct (reverse l) as [|[a1 s1] rl] eqn:Hr; cbn; [done|].
      assert (Hin : (a1, s1) ∈ l) by (apply elem_of_reverse; rewrite Hr; by left).
      destruct (Hno (a1, s1)) as [Hc|]; [by left| |done]. destruct He. apply Exists_exists. eauto. }
    pose proof (multiple_ge_up _ _ _ HA Hx Hpast). lia.
  - intros (Hb & ([a1 s1] & Hin & Hlt) & Hno). split; [done|]. split; [eauto|].
    intros e [He| ->]; [auto|]. left. destruct (seg_elem _ _ _ _ _ Hl Hin). cbn in *. lia.
Qed.

Definition highest (b : Z) (l : list (Z * Z)) (A n x : Z) : Prop :=
  (A | x) /\ free_in b l x n /\ forall y, (A | y) -> free_in b l y n -> y <= x.

(** The last gap has room: the highest aligned block in it. *)
Lemma highest_in_gap b hi l a s A n :
  0 < A -> 0 < n -> seg b hi (l ++ [(a, s)]) -> up (seg_end b (reverse l)) A + n <= a ->
  highest b (l ++ [(a, s)]) A n (down (a - n) A).
Proof.
  intros HA Hn Hseg Hgap. pose proof Hseg as Hseg0. apply seg_app in Hseg as (mid & Hl & Hlast). cbn in Hlast.
  destruct (seg_to_end _ _ _ Hl) as [Hend Hmid].
  destruct (up_spec (seg_end b (reverse l)) A HA) as [Hu Hdiv].
  destruct (down_spec (a - n) A HA) as [Hd Hdiv'].
  assert (Hge : up (seg_end b (reverse l)) A <= down (a - n) A) by (apply multiple_le_down; [done|done|lia]).
  pose proof (seg_le _ _ _ Hend). split; [done|]. split; [split; [lia|split]|].
  - exists (a, s). split; [set_solver|cbn; lia].
  - intros [a1 s1] [Hin|Hin]%elem_of_app; [right|left]; cbn.
    + destruct (seg_elem _ _ _ _ _ Hend Hin). lia.
    + apply list_elem_of_singleton in Hin as [= -> ->]. lia.
  - intros y Hy (_ & ([a1 s1] & Hin & Hlt) & Hno). apply multiple_le_down; [done|done|]. cbn in Hlt.
    assert (a1 <= a).
    { apply elem_of_app in Hin as [Hin|Hin]; [destruct (seg_elem _ _ _ _ _ Hl Hin); lia|].
      apply list_elem_of_singleton in Hin as [= -> ->]. lia. }
    destruct (Hno (a, s)) as [|Hc]; [set_solver|cbn in *; lia|cbn in *; lia].
Qed.

(** The search finds the highest aligned block that is free, if there is one. *)
Lemma first_loop_spec b k n l hi :
  0 <= k < 64 -> 0 < n -> 0 <= b -> seg b hi l -> hi + 2 ^ k <= 2 ^ 64 ->
  match first_loop b n (2 ^ k) (reverse l) with
  | Some x => highest b l (2 ^ k) n x
  | None => forall y, (2 ^ k | y) -> ~ free_in b l y n
  end.
Proof.
  intros Hk Hn Hb. revert hi. assert (HA : 0 < 2 ^ k) by (apply Z.pow_pos_nonneg; lia).
  induction l as [|[a s] l IH] using rev_ind; intros hi Hseg Hhi.
  { cbn. intros y _ (_ & (e & He & _) & _). set_solver. }
  rewrite reverse_snoc. cbn [first_loop]. pose proof Hseg as Hseg0.
  apply seg_app in Hseg0 as (mid & Hl & Hlast). cbn in Hlast. specialize (IH mid Hl ltac:(lia)).
  destruct (seg_to_end _ _ _ Hl) as [Hend Hmid]. pose proof (seg_le _ _ _ Hend).
  assert (Hprev : match reverse l with [] => b | (a0, s0) :: _ => wadd 64 a0 s0 end = seg_end b (reverse l)).
  { destruct (reverse l) as [|[a0 s0] r] eqn:Hr; [done|]. cbn. cbn in Hmid.
    assert (Hin : (a0, s0) ∈ l) by (apply elem_of_reverse; rewrite Hr; by left).
    destruct (seg_elem _ _ _ _ _ Hl Hin). apply wadd_small. unfold in_width. lia. }
  rewrite Hprev, align_up by lia. unfold checked_sub.
  assert (Hsnoc : a < up (seg_end b (reverse l)) (2 ^ k) + n ->
    match first_loop b n (2 ^ k) (reverse l) with
    | Some x => highest b (l ++ [(a, s)]) (2 ^ k) n x
    | None => forall y, (2 ^ k | y) -> ~ free_in b (l ++ [(a, s)]) y n
    end).
  { intros Hgap.
    assert (Hiff : forall y, (2 ^ k | y) -> free_in b (l ++ [(a, s)]) y n <-> free_in b l y n).
    { intros y Hy. by apply (free_in_snoc b hi l a s (2 ^ k)). }
    destruct (first_loop b n (2 ^ k) (reverse l)) as [x|].
    - destruct IH as (H1 & H2 & H3). split; [done|]. split; [by apply Hiff|].
      intros y Hy Hf. apply H3; [done|]. by apply Hiff.
    - intros y Hy Hf. by apply (IH y Hy), Hiff. }
  case_decide as Hroom; [|apply Hsnoc; lia]. case_decide as Hfit; [|apply Hsnoc; lia].
  assert (Hadj : (if decide (1 < 2 ^ k) then 2 ^ k - 1 else 0) = 2 ^ k - 1) by (case_decide; lia).
  rewrite Hadj. unfold wadd. rewrite wsub_wrap_r. unfold wsub. replace (a - (n + (2 ^ k - 1))) with (a - n - (2 ^ k - 1)) by lia.
  rewrite align_wrap, up_before by done. destruct (up_spec (seg_end b (reverse l)) (2 ^ k) HA) as [Hu Hdiv].
  destruct (down_spec (a - n) (2 ^ k) HA) as [Hd _]. rewrite wrap_small.
  - eapply highest_in_gap; [done|done|exact Hseg|lia].
  - pose proof (multiple_le_down (a - n) _ _ HA Hdiv ltac:(lia)). unfold in_width. lia.
Qed.

(** The search at a requested address accepts exactly the free blocks. *)
Lemma available_loop_spec l addr n hi : forall p,
  seg p hi l -> 0 <= p -> hi < 2 ^ 64 -> 0 <= addr -> 0 < n ->
  (forall e, e ∈ l -> e.2 = 0 -> e.1 <> addr) ->
  (free_in p l addr n -> available_loop p addr n l = Ok addr) /\
  (forall x, available_loop p addr n l = Ok x -> x = addr /\ free_in p l addr n).
Proof.
  induction l as [|[a s] l IH]; intros p Hseg Hp Hhi Haddr Hn Hz; cbn [available_loop].
  { split; [intros (_ & (e & He & _) & _); set_solver|done]. }
  cbn in Hseg. destruct Hseg as (Hpa & Hs & Hseg). pose proof (seg_le _ _ _ Hseg).
  case_decide as Hle.
  - rewrite wsub_small by (unfold in_width; lia). split.
    + intros (Hge & _ & Hno). rewrite decide_False by lia. rewrite decide_False; [done|].
      destruct (Hno (a, s)) as [|Hc]; [by left|cbn in *; lia|]. cbn in Hc.
      destruct (Hz (a, s)); [by left|cbn; lia|cbn; lia].
    + intros x. repeat case_decide; try done. intros [= <-]. split; [done|]. split; [lia|]. split.
      * exists (a, s). split; [by left|cbn; lia].
      * intros [a1 s1] [[= -> ->]|Hin]%elem_of_cons; left; cbn; [lia|].
        destruct (seg_elem _ _ _ _ _ Hseg Hin). lia.
  - rewrite wadd_small by (unfold in_width; lia).
    destruct (IH (a + s) Hseg) as [IH1 IH2]; [lia|done|done|done|set_solver|].
    assert (Hiff : free_in p ((a, s) :: l) addr n <-> free_in (a + s) l addr n).
    { unfold free_in. setoid_rewrite elem_of_cons. split.
      - intros (Hge & (e & [->|He] & Hlt) & Hno); [cbn in Hlt; lia|].
        destruct (Hno (a, s)) as [|Hc]; [by left|cbn in *; lia|]. cbn in Hc.
        split; [done|]. split; [eauto|auto].
      - intros (Hge & (e & He & Hlt) & Hno). split; [lia|]. split; [eauto|].
        intros e' [->|?]; [right; cbn; lia|auto]. }
    split; [intros ?%Hiff; auto|]. intros x Hx. destruct (IH2 x Hx) as [-> ?]. split; [done|]. by apply Hiff.
Qed.

(** ** The invariant *)
Record alloc_ok (al : AddressAllocator) : Prop := {
  ao_base : 0 <= base al;
  ao_end : base al <= end_ al /\ end_ al + 1 < 2 ^ 64;
  ao_sorted : bt_ok (ranges al);
  ao_seg : seg (base al) (end_ al + 1) (ranges al);
  ao_marker : (end_ al + 1, 0) ∈ ranges al;
  ao_pos : forall a s, (a, s) ∈ ranges al -> s = 0 -> a = end_ al + 1;
}.

(** [n] addresses from [x] that are managed and in no allocated range. *)
Definition free_at (al : AddressAllocator) (x n : Z) : Prop :=
  base al <= x /\ x + n <= end_ al + 1 /\
  forall a s, (a, s) ∈ ranges al -> x + n <= a \/ a + s <= x.

Lemma free_at_in al x n : alloc_ok al -> 0 < n -> free_at al x n <-> free_in (base al) (ranges al) x n.
Proof.
  intros Hok Hn. unfold free_at, free_in. split.
  - intros (? & ? & Hno). split; [done|]. split; [|intros [a s]; apply Hno].
    exists (end_ al + 1, 0). split; [apply Hok|done].
  - intros (? & ([a s] & He & Hlt) & Hno). cbn in Hlt.
    destruct (seg_elem _ _ _ _ _ (ao_seg al Hok) He). split; [done|]. split; [lia|].
    intros a1 s1 Hin. apply (Hno (a1, s1) Hin).
Qed.

Lemma seg_insert x n l hi : forall lo,
  seg lo hi l -> 0 < n -> lo <= x -> x + n <= hi ->
  (forall e, e ∈ l -> (x + n <= e.1 \/ e.1 + e.2 <= x) /\ e.1 <> x) -> seg lo hi (bt_insert x n l).
Proof.
  induction l as [|[a s] l IH]; intros lo Hseg Hn Hlo Hhi Hno; cbn; [lia|].
  cbn in Hseg. destruct Hseg as (Hla & Hs & Hseg).
  destruct (Hno (a, s)) as [Ha Hne]; [by left|]. cbn in Ha, Hne.
  case_decide; [cbn; split_and!; [done|lia|lia|done|done]|]. rewrite decide_False by done. cbn.
  split_and!; [done|done|]. apply IH; [done|done|lia|done|set_solver].
Qed.
Lemma seg_lower lo lo' hi l : seg lo hi l -> lo' <= lo -> seg lo' hi l.
Proof. destruct l as [|[a s] l]; cbn; [lia|]. intros (? & ? & ?) ?. split_and!; [lia|done|done]. Qed.
Lemma seg_remove x l hi : forall lo, seg lo hi l -> seg lo hi (bt_remove x l).
Proof.
  induction l as [|[a s] l IH]; intros lo; cbn; [done|]. intros (? & ? & Hseg).
  case_decide; [eapply seg_lower; [done|lia]|]. cbn. eauto.
Qed.

Lemma alloc_ok_new b n al : 0 <= b -> 0 <= n -> allocator_new b n = Some al -> alloc_ok al.
Proof.
  intros Hb Hn. unfold allocator_new, checked_add. repeat (case_decide; cbn; try done).
  intros [= <-]. split; cbn; [done|lia|apply bt_ok_cons; split; [set_solver|apply bt_ok_nil]|lia| |].
  - replace (b + (n - 1) + 1) with (b + n) by lia. by left.
  - intros a s [[= -> ->]|?]%elem_of_cons; [lia|set_solver].
Qed.

Lemma alloc_ok_insert al x n :
  alloc_ok al -> 0 < n -> free_at al x n ->
  alloc_ok (set_ranges (bt_insert x n (ranges al)) al) /\
  forall e, e ∈ bt_insert x n (ranges al) <-> e = (x, n) \/ e ∈ ranges al.
Proof.
  intros [Hb He Hs Hseg Hm Hpos] Hn (Hx & Hend & Hno).
  assert (Hne : forall e, e ∈ ranges al -> e.1 <> x).
  { intros [a s] Hin Heq. cbn in Heq. subst a. destruct (Hno x s Hin); [lia|].
    destruct (seg_elem _ _ _ _ _ Hseg Hin). specialize (Hpos x s Hin ltac:(lia)). lia. }
  assert (Helem : forall e, e ∈ bt_insert x n (ranges al) <-> e = (x, n) \/ e ∈ ranges al).
  { intros e. rewrite (elem_of_bt_insert _ _ _ _ Hs). naive_solver. }
  split; [|done]. split; cbn; [done|done|by apply bt_insert_ok| | |].
  - apply seg_insert; try done. intros [a s] Hin. split; [by apply Hno|by apply Hne].
  - apply Helem. by right.
  - intros a s [[= -> ->]|Hin]%Helem ?; [lia|eauto].
Qed.

Lemma alloc_ok_free al x n : alloc_ok al -> n <> 0 -> alloc_ok (free x n al).
Proof.
  intros Hok Hn. unfold free. destruct (bt_get x (ranges al)) as [s|] eqn:Hg; [|done].
  case_decide as Hs; [subst s|done]. destruct Hok as [Hb He Hsort Hseg Hm Hpos].
  apply (bt_get_elem _ _ _ Hsort) in Hg.
  split; cbn; [done|done|by apply bt_remove_ok|by apply seg_remove| |].
  - apply (elem_of_bt_remove _ _ _ Hsort). split; [done|]. cbn. intros <-.
    apply (bt_get_elem _ _ _ Hsort) in Hg, Hm. congruence.
  - intros a s (Hin & _)%(elem_of_bt_remove _ _ _ Hsort). eauto.
Qed.

(** What the caller of [allocate] may ask for: the alignment is a power of two
    that does not carry the end of the space over [2^64]. *)
Definition request_ok (al : AddressAllocator) (size A : Z) : Prop :=
  0 < size /\ in_width 64 A /\ is_power_of_two A = true /\ end_ al + 1 + A <= 2 ^ 64.

Lemma first_available_spec al size A :
  alloc_ok al -> request_ok al size A ->
  match first_available_range size A al with
  | Some x => (A | x) /\ free_at al x size /\ forall y, (A | y) -> free_at al y size -> y <= x
  | None => forall y, (A | y) -> ~ free_at al y size
  end.
Proof.
  intros Hok (Hsize & Hw & Hpow & Hfit). destruct (power_of_two_spec A Hw Hpow) as (k & Hk & ->).
  pose proof (first_loop_spec (base al) k size (ranges al) (end_ al + 1) Hk Hsize (ao_base _ Hok)
    (ao_seg _ Hok) Hfit) as Hloop. unfold first_available_range.
  destruct (first_loop _ _ _ _) as [x|].
  - destruct Hloop as (H1 & H2 & H3). split; [done|]. split; [by apply free_at_in|].
    intros y Hy Hf. apply H3; [done|]. by apply free_at_in.
  - intros y Hy Hf. apply (Hloop y Hy). by apply free_at_in.
Qed.

Lemma available_range_spec al r size A :
  alloc_ok al -> request_ok al size A -> in_width 64 r ->
  match available_range r size A al with
  | Ok x => x = r /\ (A | r) /\ free_at al r size
  | Err _ => ~ ((A | r) /\ free_at al r size) \/ r = end_ al
  end.
Proof.
  intros Hok (Hsize & Hw & Hpow & Hfit) Hr. destruct (power_of_two_spec A Hw Hpow) as (k & Hk & ->).
  pose proof (align_fixed r k Hk Hr) as Hfix. unfold available_range.
  case_decide as Hal; [left; intros [Hd _]; by apply Hal, Hfix|].
  assert (Heq : align_address r (2 ^ k) = r) by (destruct (decide (align_address r (2 ^ k) = r)); done).
  rewrite Heq. pose proof (proj1 Hfix Heq) as Hdiv. unfold in_width in Hr.
  case_decide as Hrange.
  { destruct (decide (r = end_ al)); [by right|left]. intros [_ (? & ? & _)]. lia. }
  destruct (available_loop_spec (ranges al) r size (end_ al + 1) (base al)) as [Hyes Hno].
  1-5: first [apply Hok|lia|destruct (ao_end al Hok); lia].
  { intros [a s] Hin Hs. cbn in *. rewrite (ao_pos al Hok a s Hin Hs). lia. }
  destruct (available_loop (base al) r size (ranges al)) as [x|e].
  - destruct (Hno x eq_refl) as [-> ?]. split_and!; [done|done|by apply free_at_in].
  - left. intros [_ Hf]. apply free_at_in in Hf; [|done|done]. by specialize (Hyes Hf).
Qed.

Lemma allocate_place address size align_size al :
  alloc_ok al -> request_ok al size (default 4 align_size) -> from_option (in_width 64) True address ->
  match allocate address size align_size al with
  | (Some x, al') => (default 4 align_size | x) /\ free_at al x size /\
                     al' = set_ranges (bt_insert x size (ranges al)) al
  | (None, al') => al' = al
  end.
Proof.
  intros Hok Hreq Haddr. unfold allocate. set (A := default 4 align_size) in *.
  case_decide; [done|]. destruct (negb _ || _); [done|]. destruct address as [r|].
  - pose proof (available_range_spec al r size A Hok Hreq Haddr) as Hspec.
    destruct (available_range r size A al) as [x|e]; [|done]. by destruct Hspec as (-> & ? & ?).
  - pose proof (first_available_spec al size A Hok Hreq) as Hspec.
    destruct (first_available_range size A al) as [x|]; [|done]. by destruct Hspec as (? & ? & ?).
Qed.

(** Asking for an address. *)
Lemma allocate_at r size A al :
  alloc_ok al -> request_ok al size A -> in_width 64 r ->
  ((A | r) /\ free_at al r size /\
   allocate (Some r) size (Some A) al = (Some r, set_ranges (bt_insert r size (ranges al)) al)) \/
  ((~ ((A | r) /\ free_at al r size) \/ r = end_ al) /\ allocate (Some r) size (Some A) al = (None, al)).
Proof.
  intros Hok Hreq Hr. pose proof Hreq as (Hsize & HA & Hpow & _). unfold allocate.
  change (default 4 (Some A)) with A. assert (HA0 : A <> 0) by (intros H0; by rewrite H0 in Hpow).
  rewrite decide_False, Hpow, bool_decide_eq_false_2 by lia. cbn [negb orb].
  pose proof (available_range_spec al r size A Hok Hreq Hr) as Hspec.
  destruct (available_range r size A al) as [x|e]; [left; by destruct Hspec as (-> & ? & ?)|by right].
Qed.

(** Asking for any address. *)
Lemma allocate_first size A al y :
  alloc_ok al -> request_ok al size A -> (A | y) -> free_at al y size ->
  exists x, allocate None size (Some A) al = (Some x, set_ranges (bt_insert x size (ranges al)) al) /\
    (A | x) /\ free_at al x size.
Proof.
  intros Hok Hreq Hd Hf. pose proof Hreq as (Hsize & HA & Hpow & _). unfold allocate.
  change (default 4 (Some A)) with A. assert (HA0 : A <> 0) by (intros H0; by rewrite H0 in Hpow).
  rewrite decide_False, Hpow, bool_decide_eq_false_2 by lia. cbn [negb orb].
  pose proof (first_available_spec al size A Hok Hreq) as Hspec.
  destruct (first_available_range size A al) as [x|]; [|by destruct (Hspec y)].
  exists x. by destruct Hspec as (? & ? & _).
Qed.

(** C12: What the address allocator hands out.  On a well-formed allocator, for
    a size above zero and an alignment that is a power of two and leaves the
    rounded end of the space within 64 bits, a successful allocation is aligned,
    lies in the managed space, overlaps no allocated range, is recorded, and
    leaves the allocator well formed.  Without a requested address it is the
    highest such place, and allocation fails only if there is none; with one it
    is the requested place, and allocation fails only if that is not aligned,
    not free, or the very last address.  A failed allocation changes nothing.
    Larger alignments are [large_alignment_escapes]. *)
Theorem allocate_spec address size align_size al :
  let A := default 4 align_size in
  alloc_ok al -> request_ok al size A -> from_option (in_width 64) True address ->
  match allocate address size align_size al with
  | (Some x, al') =>
    (A | x) /\ free_at al x size /\ alloc_ok al' /\
    (forall e, e ∈ ranges al' <-> e = (x, size) \/ e ∈ ranges al) /\
    match address with
    | Some r => x = r
    | None => forall y, (A | y) -> free_at al y size -> y <= x
    end
  | (None, al') =>
    al' = al /\
    match address with
    | Some r => ~ ((A | r) /\ free_at al r size) \/ r = end_ al
    | None => forall y, (A | y) -> ~ free_at al y size
    end
  end.
Proof.
  intros A Hok Hreq Haddr. pose proof Hreq as (Hsize & HA & Hpow & _). unfold allocate. fold A.
  assert (HA0 : A <> 0) by (intros H0; by rewrite H0 in Hpow).
  rewrite decide_False, Hpow, bool_decide_eq_false_2 by lia. cbn [negb orb].
  destruct address as [r|].
  - pose proof (available_range_spec al r size A Hok Hreq Haddr) as Hspec.
    destruct (available_range r size A al) as [x|e]; [|done]. destruct Hspec as (-> & Hd & Hf).
    destruct (alloc_ok_insert al r size Hok Hsize Hf). by split_and!.
  - pose proof (first_available_spec al size A Hok Hreq) as Hspec.
    destruct (first_available_range size A al) as [x|]; [|done]. destruct Hspec as (Hd & Hf & Hmax).
    destruct (alloc_ok_insert al x size Hok Hsize Hf). by split_and!.
Qed.

(** ** Examples *)
Definition example_allocator : AddressAllocator := mkAllocator 4096 69631 [(4608, 256); (69632, 0)].

Lemma example_allocator_ok : alloc_ok example_allocator.
Proof.
  split; cbn; [lia|lia| |lia|set_solver|].
  - repeat (apply bt_ok_cons; split; [set_solver by lia|]). apply bt_ok_nil.
  - intros a s Hin ->. set_solver.
Qed.

Lemma allocate_spec_witness :
  (allocate None 272 (Some 256) example_allocator).1 = Some 69120 /\
  forall y, (256 | y) -> free_at example_allocator y 272 -> y <= 69120.
Proof.
  pose proof (allocate_spec None 272 (Some 256) example_allocator example_allocator_ok) as Hspec.
  split; [reflexivity|]. cbn [default] in Hspec.
  destruct (allocate None 272 (Some 256) example_allocator) as [[x|] al] eqn:Hrun;
    vm_compute in Hrun; [injection Hrun as <- <-|discriminate].
  apply Hspec; [|exact I]. split; [lia|]. split; [vm_compute; split; congruence|].
  split; [reflexivity|vm_compute; congruence].
Defined.

(** An alignment that carries the previous end over [2^64] makes the search
    believe the whole space below is free: the block it returns lies below the
    managed space. *)
Lemma large_alignment_escapes :
  let al := mkAllocator (2 ^ 63 + 4096) (2 ^ 63 + 12287) [(2 ^ 63 + 12288, 0)] in
  allocator_new (2 ^ 63 + 4096) 8192 = Some al /\ (allocate None 4096 (Some (2 ^ 63)) al).1 = Some (2 ^ 63).
Proof. vm_compute. split; reflexivity. Qed.

(** The last address is managed, but cannot be requested. *)
Lemma last_address_refused :
  let al := mkAllocator 4096 8191 [(8192, 0)] in
  (allocate (Some 8191) 1 (Some 1) al).1 = None /\ (allocate None 1 (Some 1) al).1 = Some 8191.
Proof. vm_compute. split; reflexivity. Qed.

(** Freeing nothing at the end of the space removes the end marker, after which
    nothing can be allocated. *)
Lemma free_removes_marker :
  let al := free 8192 0 (mkAllocator 4096 8191 [(8192, 0)]) in
  ranges al = [] /\ (allocate None 16 None al).1 = None.
Proof. vm_compute. split; reflexivity. Qed.
