(* ===== verification/DeviceBus.v ===== *)
(** The bus that routes accesses of the guest to devices
    (hypervisor/vm-device/src/bus.rs). *)
From stdpp Require Import base numbers sets list.
From S2P Require Import Prelude BTree AddressAllocator.

Inductive bus_error := BusOverlap | ZeroSizedRange | MissingAddressRange.

Record BusRange := mkRange { r_base : Z; r_len : Z }.

(** Sums of the source wrap. *)
Definition overlaps (r : BusRange) (b len : Z) : bool :=
  bool_decide (r_base r < wadd 64 b len)%Z && bool_decide (b < wadd 64 (r_base r) (r_len r))%Z.

(** A bus over devices [Dev], compared by identity; an entry has the length of
    its range and a weak reference, which [alive] tells whether it can be
    upgraded. *)
Section bus.
Context {Dev : Type} `{EqDecision Dev} (alive : Dev -> bool).
Abbreviation Bus := (list (Z * (Z * Dev))).

Definition bus_new : Bus := [].

Definition first_before (addr : Z) (bus : Bus) : option (BusRange * Dev) :=
  match bt_last_upto addr bus with
  | Some (b, (len, dev)) => if alive dev then Some (mkRange b len, dev) else None
  | None => None
  end.

Definition resolve (addr : Z) (bus : Bus) : option (Z * Z * Dev) :=
  match first_before addr bus with
  | Some (range, dev) =>
    let offset := (addr - r_base range)%Z in
    if decide (offset < r_len range)%Z then Some (r_base range, offset, dev) else None
  | None => None
  end.

(** [BTreeMap::insert] keeps the key that is there and replaces the value. *)
Definition bus_insert (dev : Dev) (b len : Z) (bus : Bus) : result bus_error unit * Bus :=
  if decide (len = 0%Z) then (Err ZeroSizedRange, bus)
  else if existsb (fun e => overlaps (mkRange e.1 e.2.1) b len) bus then (Err BusOverlap, bus)
  else match bt_get b bus with
  | Some (old_len, _) => (Err BusOverlap, bt_insert b (old_len, dev) bus)
  | None => (Ok tt, bt_insert b (len, dev) bus)
  end.

(** Ranges are compared by their base. *)
Definition bus_remove (b len : Z) (bus : Bus) : result bus_error unit * Bus :=
  if decide (len = 0%Z) then (Err ZeroSizedRange, bus)
  else match bt_get b bus with
  | Some _ => (Ok tt, bt_remove b bus)
  | None => (Err MissingAddressRange, bus)
  end.

(** The first loop upgrades every reference, and panics on one it cannot. *)
Definition remove_by_device (dev : Dev) : M Bus bus_error unit :=
  let* bus := get in
  if forallb (fun e => alive e.2.2) bus then
    let remove_key_list := (filter (fun e => e.2.2 = dev) bus).*1 in
    modify (fun bus => foldl (fun m k => bt_remove k m) bus remove_key_list)
  else crash.

Definition update_range (old_base old_len new_base new_len : Z) (bus : Bus)
  : result bus_error unit * Bus :=
  match resolve old_base bus with
  | None => (Err MissingAddressRange, bus)
  | Some (_, _, dev) =>
    match bus_remove old_base old_len bus with
    | (Err e, bus) => (Err e, bus)
    | (Ok _, bus) => bus_insert dev new_base new_len bus
    end
  end.

(** Accesses, over what the devices do with them: [St] is their state. *)
Section access.
Context {St : Type}.
Variable dev_read : Dev -> Z -> Z -> list Z -> St -> list Z * St.
Variable dev_write : Dev -> Z -> Z -> list Z -> St -> St.

Definition bus_read (addr : Z) (data : list Z) (bus : Bus) (s : St) : result bus_error (list Z) * St :=
  match resolve addr bus with
  | Some (b, offset, dev) => let '(data, s) := dev_read dev b offset data s in (Ok data, s)
  | None => (Err MissingAddressRange, s)
  end.
Definition bus_write (addr : Z) (data : list Z) (bus : Bus) (s : St) : result bus_error unit * St :=
  match resolve addr bus with
  | Some (b, offset, dev) => (Ok tt, dev_write dev b offset data s)
  | None => (Err MissingAddressRange, s)
  end.
End access.
End bus.

(** ** Well-formed buses *)
#[local] Open Scope Z_scope.
Section routes.
Context {Dev : Type}.
Abbreviation Bus := (list (Z * (Z * Dev))).
Implicit Types (bus : Bus) (b len addr : Z) (dev : Dev).

(** The ranges of the bus do not overlap and end below [2^64]. *)
Record bus_ok bus : Prop := {
  bk_sorted : bt_ok bus;
  bk_range : forall b len dev, (b, (len, dev)) ∈ bus -> 0 <= b /\ 0 < len /\ b + len < 2 ^ 64;
  bk_apart : forall b len dev b' len' dev', (b, (len, dev)) ∈ bus -> (b', (len', dev')) ∈ bus ->
    b < b' -> b + len <= b';
}.

(** The device placed at an address, with the base of its range. *)
Definition placed bus addr b dev : Prop :=
  exists len, (b, (len, dev)) ∈ bus /\ b <= addr < b + len.

Lemma placed_fun bus addr b dev b' dev' :
  bus_ok bus -> placed bus addr b dev -> placed bus addr b' dev' -> b' = b /\ dev' = dev.
Proof.
  intros [Hs Hr Ha] (len & Hin & Hb) (len' & Hin' & Hb').
  destruct (Z.lt_trichotomy b b') as [Hlt|[->|Hlt]].
  - pose proof (Ha _ _ _ _ _ _ Hin Hin' Hlt). lia.
  - apply (bt_get_elem _ _ _ Hs) in Hin, Hin'. rewrite Hin in Hin'. by simplify_eq.
  - pose proof (Ha _ _ _ _ _ _ Hin' Hin Hlt). lia.
Qed.

Lemma overlaps_spec r b len :
  0 <= r_base r -> r_base r + r_len r < 2 ^ 64 -> 0 < r_len r -> 0 <= b -> 0 < len -> b + len < 2 ^ 64 ->
  overlaps r b len = true <-> exists addr, r_base r <= addr < r_base r + r_len r /\ b <= addr < b + len.
Proof.
  intros. unfold overlaps. rewrite !wadd_small by (unfold in_width; lia).
  rewrite andb_true_iff, !bool_decide_eq_true. split.
  - intros [? ?]. exists (Z.max (r_base r) b). lia.
  - intros (a & ? & ?). lia.
Qed.

(** No device is placed in the range. *)
Definition vacant bus b len : Prop := forall addr b' dev', b <= addr < b + len -> ~ placed bus addr b' dev'.

Lemma no_overlap_vacant bus b len :
  bus_ok bus -> 0 <= b -> 0 < len -> b + len < 2 ^ 64 ->
  existsb (fun e => overlaps (mkRange e.1 e.2.1) b len) bus = false <-> vacant bus b len.
Proof.
  intros [Hs Hr Ha] Hb Hl Hfit. rewrite <- not_true_iff_false, existsb_exists. split.
  - intros Hno addr b' dev' Haddr (len' & Hin & Hb'). apply Hno. exists (b', (len', dev')).
    split; [by apply list_elem_of_In|]. destruct (Hr _ _ _ Hin) as (? & ? & ?).
    apply overlaps_spec; cbn; try lia. exists addr. lia.
  - intros Hv ([b' [len' dev']] & Hin & Ho). apply list_elem_of_In in Hin.
    destruct (Hr _ _ _ Hin) as (? & ? & ?). apply overlaps_spec in Ho as (addr & ? & ?); cbn in *; try lia.
    apply (Hv addr b' dev'); [done|]. exists len'. split; [done|lia].
Qed.

Lemma vacant_get bus b len : bus_ok bus -> 0 < len -> vacant bus b len -> bt_get b bus = None.
Proof.
  intros [Hs Hr Ha] Hl Hv. destruct (bt_get b bus) as [[len' dev']|] eqn:Hg; [|done]. exfalso.
  apply (bt_get_elem _ _ _ Hs) in Hg. destruct (Hr _ _ _ Hg) as (? & ? & ?).
  apply (Hv b b dev'); [lia|]. exists len'. split; [done|lia].
Qed.

Lemma insert_vacant bus dev b len :
  bus_ok bus -> 0 <= b -> 0 < len -> b + len < 2 ^ 64 -> vacant bus b len ->
  bus_insert dev b len bus = (Ok tt, bt_insert b (len, dev) bus) /\
  bus_ok (bt_insert b (len, dev) bus) /\
  forall addr b' dev', placed (bt_insert b (len, dev) bus) addr b' dev' <->
    placed bus addr b' dev' \/ (b' = b /\ dev' = dev /\ b <= addr < b + len).
Proof.
  intros Hok Hb Hl Hfit Hv. pose proof (vacant_get _ _ _ Hok Hl Hv) as Hg.
  assert (Hno := proj2 (no_overlap_vacant bus b len Hok Hb Hl Hfit) Hv).
  split; [unfold bus_insert; by rewrite decide_False, Hno, Hg by lia|].
  pose proof Hok as [Hs Hr Ha]. pose proof (proj1 (bt_get_None b bus) Hg) as Habs.
  assert (Helem : forall e, e ∈ bt_insert b (len, dev) bus <-> e = (b, (len, dev)) \/ e ∈ bus).
  { intros e. rewrite (elem_of_bt_insert _ _ _ _ Hs). split; [naive_solver|].
    intros [->|He]; [by left|right; split; [done|]]. destruct e as [k v]. cbn. intros ->. by apply (Habs v). }
  assert (Hnew : forall b' len' dev', (b', (len', dev')) ∈ bus -> b' < b -> b' + len' <= b).
  { intros b' len' dev' Hin Hlt. destruct (decide (b' + len' <= b)); [done|exfalso].
    apply (Hv b b' dev'); [lia|]. exists len'. split; [done|lia]. }
  assert (Hnew' : forall b' len' dev', (b', (len', dev')) ∈ bus -> b < b' -> b + len <= b').
  { intros b' len' dev' Hin Hlt. destruct (decide (b + len <= b')); [done|exfalso].
    destruct (Hr _ _ _ Hin). apply (Hv b' b' dev'); [lia|]. exists len'. split; [done|lia]. }
  split; [split; [by apply bt_insert_ok| |]|].
  - intros b' len' dev' [[= -> -> ->]|Hin]%Helem; [lia|eauto].
  - intros b1 l1 d1 b2 l2 d2 [[= -> -> ->]|H1]%Helem [[= -> -> ->]|H2]%Helem ?; [lia|eauto..].
  - intros addr b' dev'. unfold placed. setoid_rewrite Helem. split.
    + intros (len' & [[= -> -> ->]|Hin] & ?); [by right|left; eauto].
    + intros [(len' & Hin & ?)|(-> & -> & ?)]; [exists len'; auto|exists len; auto].
Qed.

Lemma insert_occupied bus dev b len :
  bus_ok bus -> 0 <= b -> 0 < len -> b + len < 2 ^ 64 -> ~ vacant bus b len ->
  bus_insert dev b len bus = (Err BusOverlap, bus).
Proof.
  intros Hok Hb Hl Hfit Hv. unfold bus_insert. rewrite decide_False by lia.
  destruct (existsb _ bus) eqn:He; [done|]. by apply no_overlap_vacant in He.
Qed.

(** Taking away the entries whose base satisfies [P]. *)
Lemma bus_ok_part bus bus' :
  bus_ok bus -> bt_ok bus' -> (forall e, e ∈ bus' -> e ∈ bus) -> bus_ok bus'.
Proof. intros [Hs Hr Ha] Hs' Hsub. split; [done|eauto..]. Qed.

Lemma remove_spec bus b :
  bus_ok bus -> bus_ok (bt_remove b bus) /\
  forall addr b' dev', placed (bt_remove b bus) addr b' dev' <-> placed bus addr b' dev' /\ b' <> b.
Proof.
  intros Hok. pose proof (bk_sorted _ Hok) as Hs. split.
  - eapply bus_ok_part; [done|by apply bt_remove_ok|]. by intros e [? _]%(elem_of_bt_remove _ _ _ Hs).
  - intros addr b' dev'. unfold placed. setoid_rewrite (elem_of_bt_remove _ _ _ Hs). cbn. naive_solver.
Qed.

Lemma placed_get bus b : bus_ok bus -> (exists v, bt_get b bus = Some v) <-> exists dev, placed bus b b dev.
Proof.
  intros Hok. pose proof (bk_sorted _ Hok) as Hs. split.
  - intros ([len dev] & Hg%(bt_get_elem _ _ _ Hs)). exists dev, len. split; [done|].
    destruct (bk_range _ Hok _ _ _ Hg). lia.
  - intros (dev & len & Hin & _). exists (len, dev). by apply bt_get_elem.
Qed.

Context `{EqDecision Dev} (alive : Dev -> bool).

Lemma resolve_spec bus addr b off dev :
  bus_ok bus ->
  resolve alive addr bus = Some (b, off, dev) <->
  placed bus addr b dev /\ off = addr - b /\ alive dev = true.
Proof.
  intros [Hs Hr Ha]. unfold resolve, first_before. split.
  - destruct (bt_last_upto addr bus) as [[b1 [len1 dev1]]|] eqn:Hl; [|done].
    apply (bt_last_upto_Some _ _ _ _ Hs) in Hl as (Hin & Hle & _).
    destruct (alive dev1) eqn:Hal; [|done]. cbn. case_decide; [|done]. intros [= <- <- <-].
    split_and!; [|done|done]. exists len1. split; [done|lia].
  - intros ((len & Hin & Hb) & -> & Hal).
    assert (Hl : bt_last_upto addr bus = Some (b, (len, dev))).
    { apply (bt_last_upto_Some _ _ _ _ Hs). split_and!; [done|lia|].
      intros [b1 [len1 dev1]] Hin1 Hle. cbn in *. destruct (decide (b1 <= b)) as [|Hgt]; [done|].
      pose proof (Ha _ _ _ _ _ _ Hin Hin1 ltac:(lia)). lia. }
    rewrite Hl, Hal. cbn. by rewrite decide_True by lia.
Qed.

(** ** The specification: placements of devices

    A placement tells which device is at an address, with the base of its
    range. *)
Definition placement := Z -> Z -> Dev -> Prop.
Definition same (f g : placement) : Prop := forall addr b dev, f addr b dev <-> g addr b dev.
Definition unused (f : placement) b len : Prop := forall addr b' dev', b <= addr < b + len -> ~ f addr b' dev'.
Definition based (f : placement) b : Prop := exists dev, f b b dev.

Inductive bus_op :=
| Insert (dev : Dev) (b len : Z)
| Remove (b len : Z)
| RemoveByDevice (dev : Dev)
| UpdateRange (old_base old_len new_base new_len : Z).

Definition spec_insert dev b len (f : placement) (r : outcome bus_error unit) (f' : placement) : Prop :=
  (len = 0 /\ r = Fail ZeroSizedRange /\ same f' f) \/
  (len <> 0 /\ ~ unused f b len /\ r = Fail BusOverlap /\ same f' f) \/
  (len <> 0 /\ unused f b len /\ r = Done tt /\
   same f' (fun addr b' dev' => f addr b' dev' \/ (b' = b /\ dev' = dev /\ b <= addr < b + len))).

Lemma spec_insert_same dev b len f g r f' :
  same f g -> spec_insert dev b len f r f' -> spec_insert dev b len g r f'.
Proof.
  intros Hfg. assert (Hu : unused f b len <-> unused g b len).
  { unfold unused. by setoid_rewrite (Hfg _ _ _). }
  unfold spec_insert, same in *. intros [(? & ? & Hs)|[(? & ? & ? & Hs)|(? & ? & ? & Hs)]].
  - left. split_and!; [done|done|]. intros. by rewrite Hs, Hfg.
  - right; left. rewrite <- Hu. split_and!; [done..|]. intros. by rewrite Hs, Hfg.
  - right; right. rewrite <- Hu. split_and!; [done..|]. intros. by rewrite Hs, Hfg.
Qed.

Definition without b (f : placement) : placement := fun addr b' dev' => f addr b' dev' /\ b' <> b.

(** A live device answers at an address. *)
Definition found (f : placement) addr : Prop := exists b dev, f addr b dev /\ alive dev = true.

Definition spec_step (o : bus_op) (f : placement) (r : outcome bus_error unit) (f' : placement) : Prop :=
  match o with
  | Insert dev b len => spec_insert dev b len f r f'
  | Remove b len =>
    (len = 0 /\ r = Fail ZeroSizedRange /\ same f' f) \/
    (len <> 0 /\ ~ based f b /\ r = Fail MissingAddressRange /\ same f' f) \/
    (len <> 0 /\ based f b /\ r = Done tt /\ same f' (without b f))
  | RemoveByDevice dev =>
    ((exists addr b d, f addr b d /\ alive d = false) /\ r = Crashed /\ same f' f) \/
    ((forall addr b d, f addr b d -> alive d = true) /\ r = Done tt /\
     same f' (fun addr b' dev' => f addr b' dev' /\ dev' <> dev))
  | UpdateRange ob ol nb nl =>
    ((forall b d, f ob b d -> alive d = false) /\ r = Fail MissingAddressRange /\ same f' f) \/
    (found f ob /\ ol = 0 /\ r = Fail ZeroSizedRange /\ same f' f) \/
    (found f ob /\ ol <> 0 /\ ~ based f ob /\ r = Fail MissingAddressRange /\ same f' f) \/
    (exists dev, f ob ob dev /\ alive dev = true /\ ol <> 0 /\ spec_insert dev nb nl (without ob f) r f')
  end.

Definition lift {E} (r : result E unit * Bus) : outcome E unit * Bus :=
  match r with (Ok _, bus) => (Done tt, bus) | (Err e, bus) => (Fail e, bus) end.

Definition bus_exec (o : bus_op) bus : outcome bus_error unit * Bus :=
  match o with
  | Insert dev b len => lift (bus_insert dev b len bus)
  | Remove b len => lift (bus_remove b len bus)
  | RemoveByDevice dev => remove_by_device alive dev bus
  | UpdateRange ob ol nb nl => lift (update_range alive ob ol nb nl bus)
  end.

(** Ranges that end below [2^64]. *)
Definition range_fits b len : Prop := 0 <= b /\ 0 <= len /\ b + len < 2 ^ 64.
Definition op_fits (o : bus_op) : Prop :=
  match o with
  | Insert _ b len | UpdateRange _ _ b len => range_fits b len
  | _ => True
  end.

Lemma vacant_dec bus b len :
  bus_ok bus -> range_fits b len -> len <> 0 -> vacant bus b len \/ ~ vacant bus b len.
Proof.
  intros Hok (? & ? & ?) Hl.
  pose proof (no_overlap_vacant bus b len Hok ltac:(lia) ltac:(lia) ltac:(lia)) as Hiff.
  destruct (existsb _ bus); [right|left]; by rewrite <- Hiff.
Qed.

Lemma insert_refines bus dev b len :
  bus_ok bus -> range_fits b len ->
  let '(r, bus') := lift (bus_insert dev b len bus) in
  bus_ok bus' /\ spec_insert dev b len (placed bus) r (placed bus').
Proof.
  intros Hok (Hb & Hl & Hfit). destruct (decide (len = 0)) as [->|Hne].
  { cbn. split; [done|]. left. done. }
  destruct (vacant_dec bus b len Hok) as [Hv|Hv]; [done|done| |].
  - destruct (insert_vacant bus dev b len) as (-> & Hok' & Hpl); [done|done|lia|done|done|]. cbn.
    split; [done|]. right; right. done.
  - rewrite insert_occupied by (done || lia). cbn. split; [done|]. right; left. done.
Qed.

Lemma remove_refines bus b len :
  bus_ok bus ->
  let '(r, bus') := lift (bus_remove b len bus) in
  bus_ok bus' /\ spec_step (Remove b len) (placed bus) r (placed bus').
Proof.
  intros Hok. unfold bus_remove. case_decide as Hz; [split; [done|by left]|].
  pose proof (placed_get bus b Hok) as Hiff. destruct (remove_spec bus b Hok) as [Hok' Hpl].
  destruct (bt_get b bus) as [v|] eqn:Hg; cbn.
  - split; [done|]. right; right. split_and!; [done| |done|done]. apply Hiff. eauto.
  - split; [done|]. right; left. split_and!; [done| |done|done]. intros [v Hv]%Hiff. done.
Qed.

Lemma foldl_remove ks bus e :
  bt_ok bus -> bt_ok (foldl (fun m k => bt_remove k m) bus ks) /\
  (e ∈ foldl (fun m k => bt_remove k m) bus ks <-> e ∈ bus /\ e.1 ∉ ks).
Proof.
  revert bus. induction ks as [|k ks IH]; intros bus Hs; cbn; [set_solver|].
  destruct (IH (bt_remove k bus)) as [H1 H2]; [by apply bt_remove_ok|]. split; [done|].
  rewrite H2, (elem_of_bt_remove _ _ _ Hs), not_elem_of_cons. tauto.
Qed.

Lemma remove_by_device_refines bus dev :
  bus_ok bus ->
  let '(r, bus') := remove_by_device alive dev bus in
  bus_ok bus' /\ spec_step (RemoveByDevice dev) (placed bus) r (placed bus').
Proof.
  intros Hok. unfold remove_by_device, bind, get.
  assert (Hat : forall b len d, (b, (len, d)) ∈ bus -> placed bus b b d).
  { intros b len d Hin. exists len. split; [done|]. destruct (bk_range _ Hok _ _ _ Hin). lia. }
  destruct (forallb _ bus) eqn:Hall; cbn.
  - rewrite forallb_forall in Hall. set (ks := (filter _ bus).*1).
    pose proof (fun e => foldl_remove ks bus e (bk_sorted _ Hok)) as Hrm.
    assert (Hks : forall b len d, (b, (len, d)) ∈ bus -> b ∈ ks <-> d = dev).
    { intros b len d Hin. unfold ks. rewrite list_elem_of_fmap. split.
      - intros ([b' [len' d']] & -> & [<- Hin']%list_elem_of_filter). cbn in *.
        apply (bt_get_elem _ _ _ (bk_sorted _ Hok)) in Hin, Hin'. congruence.
      - intros ->. exists (b, (len, dev)). split; [done|]. by apply list_elem_of_filter. }
    split; [eapply bus_ok_part; [done|apply (Hrm (0, (0, dev)))|]; intros e He; by apply (proj2 (Hrm e)) in He as [? _]|].
    right. split_and!; [|done|].
    + intros addr b d (len & Hin & _). by apply (Hall (b, (len, d))), list_elem_of_In.
    + intros addr b d. unfold placed. setoid_rewrite (fun e => proj2 (Hrm e)). cbn. split.
      * intros (len & (Hin & Hk) & ?). split; [eauto|]. by rewrite (Hks _ _ _ Hin) in Hk.
      * intros ((len & Hin & ?) & Hd). exists len. by rewrite (Hks _ _ _ Hin).
  - split; [done|]. left. split; [|done]. apply not_true_iff_false in Hall.
    destruct (decide (Exists (fun e => alive e.2.2 = false) bus)) as [He|He].
    + apply Exists_exists in He as ([b [len d]] & Hin & Hd). exists b, b, d. eauto.
    + destruct Hall. apply forallb_forall. intros e Hin%list_elem_of_In.
      destruct (alive e.2.2) eqn:Ha; [done|]. destruct He. apply Exists_exists. eauto.
Qed.

Lemma update_refines bus ob ol nb nl :
  bus_ok bus -> range_fits nb nl ->
  let '(r, bus') := lift (update_range alive ob ol nb nl bus) in
  bus_ok bus' /\ spec_step (UpdateRange ob ol nb nl) (placed bus) r (placed bus').
Proof.
  intros Hok Hfits. unfold update_range.
  destruct (resolve alive ob bus) as [[[b off] dev]|] eqn:Hres.
  2: { cbn. split; [done|]. left. split_and!; [|done|done]. intros b d Hpl.
       destruct (alive d) eqn:Hal; [|done]. exfalso.
       assert (Hr : resolve alive ob bus = Some (b, ob - b, d)) by (apply resolve_spec; auto).
       by rewrite Hr in Hres. }
  apply resolve_spec in Hres as (Hpl & -> & Hal); [|done].
  assert (Hfound : found (placed bus) ob) by (by exists b, dev).
  unfold bus_remove. case_decide as Hz; [cbn; split; [done|]; by right; left|].
  destruct (remove_spec bus ob Hok) as [Hok' Hwithout]. pose proof (placed_get bus ob Hok) as Hiff.
  destruct (bt_get ob bus) as [v|] eqn:Hg; cbn.
  2: { split; [done|]. right; right; left. split_and!; try done. intros [v Hv]%Hiff. done. }
  destruct (proj1 Hiff) as [dev' Hbase]; [eauto|].
  destruct (placed_fun _ _ _ _ _ _ Hok Hpl Hbase) as [-> ->].
  pose proof (insert_refines (bt_remove b bus) dev nb nl Hok' Hfits) as Hins.
  destruct (lift (bus_insert dev nb nl (bt_remove b bus))) as [r bus']. destruct Hins as [Hok2 Hspec].
  split; [done|]. right; right; right. exists dev. split_and!; [done|done|done|].
  eapply spec_insert_same; [|exact Hspec]. exact Hwithout.
Qed.

Lemma bus_exec_refines o bus :
  bus_ok bus -> op_fits o ->
  let '(r, bus') := bus_exec o bus in bus_ok bus' /\ spec_step o (placed bus) r (placed bus').
Proof.
  intros Hok Hfits. destruct o; cbn [bus_exec]; [by apply insert_refines|by apply remove_refines| |].
  - by apply remove_by_device_refines.
  - by apply update_refines.
Qed.

(** Runs of operations, and runs of the specification with the same results. *)
Fixpoint bus_run (os : list bus_op) bus : list (outcome bus_error unit) * Bus :=
  match os with
  | [] => ([], bus)
  | o :: os =>
    let '(r, bus) := bus_exec o bus in let '(rs, bus) := bus_run os bus in (r :: rs, bus)
  end.

Inductive spec_run : list bus_op -> placement -> list (outcome bus_error unit) -> placement -> Prop :=
| spec_run_nil f : spec_run [] f [] f
| spec_run_cons o os f r f1 rs f2 :
    spec_step o f r f1 -> spec_run os f1 rs f2 -> spec_run (o :: os) f (r :: rs) f2.

Lemma bus_run_refines os bus :
  bus_ok bus -> Forall op_fits os ->
  let '(rs, bus') := bus_run os bus in bus_ok bus' /\ spec_run os (placed bus) rs (placed bus').
Proof.
  intros Hok Hall. revert bus Hok. induction Hall as [|o os Ho _ IH]; intros bus Hok; cbn.
  { split; [done|constructor]. }
  pose proof (bus_exec_refines o bus Hok Ho) as Hstep. destruct (bus_exec o bus) as [r bus1].
  destruct Hstep as [Hok1 Hstep]. specialize (IH bus1 Hok1). destruct (bus_run os bus1) as [rs bus2].
  destruct IH as [Hok2 Hrun]. split; [done|]. by econstructor.
Qed.

Lemma bus_ok_new : bus_ok [].
Proof. split; [apply bt_ok_nil|set_solver..]. Qed.
End routes.

(** C11: The bus routes as specified.  For every sequence of insertions,
    removals and moves of ranges that end below [2^64], on a new bus: each
    call has the result of the specification of placements (an insertion is
    refused exactly if a device is placed at an address of its range, and then
    changes nothing), and at the end an address resolves exactly to the live
    device placed at it, with its offset from the base of that range. *)
Theorem bus_refines_placement {Dev} `{EqDecision Dev} (alive : Dev -> bool) (os : list (@bus_op Dev)) rs bus :
  Forall op_fits os -> bus_run alive os bus_new = (rs, bus) ->
  exists f, spec_run alive os (placed bus_new) rs f /\
    forall addr b off dev, resolve alive addr bus = Some (b, off, dev) <->
      f addr b dev /\ off = addr - b /\ alive dev = true.
Proof.
  intros Hfits Hrun. pose proof (bus_run_refines alive os bus_new bus_ok_new Hfits) as Href.
  rewrite Hrun in Href. destruct Href as [Hok Hspec]. exists (placed bus). split; [done|].
  intros addr b off dev. by apply resolve_spec.
Qed.

(** ** Examples *)
Definition example_bus_ops : list (@bus_op nat) :=
  [Insert 1%nat 4096 4096; Insert 2%nat 8192 16; Insert 3%nat 8000 256; UpdateRange 4096 4096 65536 4096;
   Remove 8192 16].

Lemma bus_refines_placement_witness :
  exists f, spec_run (fun _ => true) example_bus_ops (placed bus_new)
    [Done tt; Done tt; Fail BusOverlap; Done tt; Done tt] f /\ f 65540 65536 1%nat.
Proof.
  destruct (bus_refines_placement (fun _ : nat => true) example_bus_ops
    (bus_run (fun _ => true) example_bus_ops bus_new).1
    (bus_run (fun _ => true) example_bus_ops bus_new).2) as (f & Hrun & Hroute).
  - unfold example_bus_ops, op_fits, range_fits. repeat constructor; lia.
  - by vm_compute.
  - exists f. split; [exact Hrun|]. apply (Hroute 65540 65536 4 1%nat). by vm_compute.
Defined.

(** A range that ends at [2^64] overlaps nothing for the code: a second device
    is accepted inside it. *)
Lemma top_range_overlaps :
  let bus := (bus_insert 1%nat (2 ^ 64 - 4096) 4096 bus_new).2 in
  (bus_insert 2%nat (2 ^ 64 - 2048) 16 bus).1 = Ok tt.
Proof. vm_compute. reflexivity. Qed.

(** At the same base the insertion is refused, but the device is replaced. *)
Lemma refused_insert_replaces :
  let bus := (bus_insert 1%nat (2 ^ 64 - 4096) 4096 bus_new).2 in
  let '(r, bus') := bus_insert 2%nat (2 ^ 64 - 4096) 4096 bus in
  r = Err BusOverlap /\ resolve (fun _ => true) (2 ^ 64 - 4096) bus' = Some (2 ^ 64 - 4096, 0, 2%nat).
Proof. vm_compute. split; reflexivity. Qed.

(** Moving a range onto another device fails and loses the device. *)
Lemma failed_move_loses_device :
  let bus := (bus_run (fun _ => true) [Insert 1%nat 4096 16; Insert 2%nat 8192 16] bus_new).2 in
  let '(r, bus') := update_range (fun _ => true) 4096 16 8192 16 bus in
  r = Err BusOverlap /\ resolve (fun _ => true) 4096 bus' = None.
Proof. vm_compute. split; reflexivity. Qed.

(** Removing a device panics while the bus has a range of a dropped one. *)
Lemma remove_by_device_panics :
  let bus := (bus_run (fun _ => true) [Insert 1%nat 4096 16; Insert 2%nat 8192 16] bus_new).2 in
  (remove_by_device (fun d => bool_decide (d = 2%nat)) 2%nat bus).1 = Crashed.
Proof. vm_compute. reflexivity. Qed.
