(* ===== verification/VmResources.v ===== *)
(** The system allocator of the hypervisor
    (hypervisor/vm-allocator/src/gsi.rs and system.rs), and how its ranges are
    used on the device bus. *)
From stdpp Require Import base numbers sets list.
From S2P Require Import Prelude BTree AddressAllocator DeviceBus.
#[local] Open Scope Z_scope.

(** ** Interrupt numbers *)
Record GsiApic := mkApic { apic_base : Z; apic_irqs : Z }.

Record GsiAllocator := mkGsi {
  apics : list (Z * Z);
  next_irq : Z;
  next_gsi : Z;
}.

Definition gsi_add_apic (g : GsiAllocator) (apic : GsiApic) : GsiAllocator :=
  let irq := if decide (apic_base apic < next_irq g) then apic_base apic else next_irq g in
  let top := wadd 32 (apic_base apic) (apic_irqs apic) in
  let gsi := if decide (next_gsi g < top) then top else next_gsi g in
  mkGsi (bt_insert (apic_base apic) (apic_irqs apic) (apics g)) irq gsi.

Definition gsi_new (l : list GsiApic) : GsiAllocator :=
  foldl gsi_add_apic (mkGsi [] (2 ^ 32 - 1) 0) l.

(** The error is [Overflow], the only one. *)
Definition gsi_allocate_gsi (g : GsiAllocator) : option Z * GsiAllocator :=
  match checked_add 32 (next_gsi g) 1 with
  | Some n => (Some (next_gsi g), mkGsi (apics g) (next_irq g) n)
  | None => (None, g)
  end.

(** The loop over the APICs updates [irq] and [next_irq]. *)
Definition irq_turn (st : Z * Z) (apic : Z * Z) : Z * Z :=
  let '(irq, next) := st in
  if decide (apic.1 <= next /\ next < wadd 32 apic.1 apic.2) then (next, wadd 32 next 1) else st.

Definition gsi_allocate_irq (g : GsiAllocator) : option Z * GsiAllocator :=
  let '(irq, next) := foldl irq_turn (0, next_irq g) (apics g) in
  let g := mkGsi (apics g) next (next_gsi g) in
  if decide (irq = 0) then (None, g) else (Some irq, g).

(** ** The system allocator; [pagesize] is that of the host *)
Record SystemAllocator := mkSystem {
  io_address_space : AddressAllocator;
  platform_mmio_address_space : AddressAllocator;
  mmio_hole_address_space : AddressAllocator;
  gsi_allocator : GsiAllocator;
}.

Definition system_new (io_base io_size platform_mmio_base platform_mmio_size mmio_hole_base
    mmio_hole_size : Z) (l : list GsiApic) : option SystemAllocator :=
  io ← allocator_new io_base io_size;
  platform ← allocator_new platform_mmio_base platform_mmio_size;
  hole ← allocator_new mmio_hole_base mmio_hole_size;
  Some (mkSystem io platform hole (gsi_new l)).

Definition set_gsi (g : GsiAllocator) (s : SystemAllocator) : SystemAllocator :=
  mkSystem (io_address_space s) (platform_mmio_address_space s) (mmio_hole_address_space s) g.

Definition allocate_irq (s : SystemAllocator) : option Z * SystemAllocator :=
  let '(r, g) := gsi_allocate_irq (gsi_allocator s) in
  (r, set_gsi g s).
Definition allocate_gsi (s : SystemAllocator) : option Z * SystemAllocator :=
  let '(r, g) := gsi_allocate_gsi (gsi_allocator s) in
  (r, set_gsi g s).

Definition set_io (al : AddressAllocator) (s : SystemAllocator) : SystemAllocator :=
  mkSystem al (platform_mmio_address_space s) (mmio_hole_address_space s) (gsi_allocator s).
Definition set_platform (al : AddressAllocator) (s : SystemAllocator) : SystemAllocator :=
  mkSystem (io_address_space s) al (mmio_hole_address_space s) (gsi_allocator s).
Definition set_hole (al : AddressAllocator) (s : SystemAllocator) : SystemAllocator :=
  mkSystem (io_address_space s) (platform_mmio_address_space s) al (gsi_allocator s).

Definition allocate_io_addresses (address : option Z) (size : Z) (align_size : option Z)
    (s : SystemAllocator) : option Z * SystemAllocator :=
  let '(r, al) := allocate address size (Some (default 1 align_size)) (io_address_space s) in
  (r, set_io al s).
Definition allocate_platform_mmio_addresses (pagesize : Z) (address : option Z) (size : Z)
    (align_size : option Z) (s : SystemAllocator) : option Z * SystemAllocator :=
  let '(r, al) := allocate address size (Some (default pagesize align_size)) (platform_mmio_address_space s) in
  (r, set_platform al s).
Definition allocate_mmio_hole_addresses (pagesize : Z) (address : option Z) (size : Z)
    (align_size : option Z) (s : SystemAllocator) : option Z * SystemAllocator :=
  let '(r, al) := allocate address size (Some (default pagesize align_size)) (mmio_hole_address_space s) in
  (r, set_hole al s).

Definition free_io_addresses (address size : Z) (s : SystemAllocator) : SystemAllocator :=
  set_io (free address size (io_address_space s)) s.
Definition free_platform_mmio_addresses (address size : Z) (s : SystemAllocator) : SystemAllocator :=
  set_platform (free address size (platform_mmio_address_space s)) s.
Definition free_mmio_hole_addresses (address size : Z) (s : SystemAllocator) : SystemAllocator :=
  set_hole (free address size (mmio_hole_address_space s)) s.

(** ** Runs of the allocator *)
Inductive space := IoSpace | PlatformSpace | HoleSpace.
Definition space_of (sp : space) (s : SystemAllocator) : AddressAllocator :=
  match sp with
  | IoSpace => io_address_space s
  | PlatformSpace => platform_mmio_address_space s
  | HoleSpace => mmio_hole_address_space s
  end.

Inductive sys_op :=
| AllocIrq
| AllocGsi
| AllocRange (sp : space) (address : option Z) (size : Z) (align_size : option Z)
| FreeRange (sp : space) (address size : Z).

Definition sys_exec (pagesize : Z) (o : sys_op) (s : SystemAllocator) : option Z * SystemAllocator :=
  match o with
  | AllocIrq => allocate_irq s
  | AllocGsi => allocate_gsi s
  | AllocRange IoSpace r n a => allocate_io_addresses r n a s
  | AllocRange PlatformSpace r n a => allocate_platform_mmio_addresses pagesize r n a s
  | AllocRange HoleSpace r n a => allocate_mmio_hole_addresses pagesize r n a s
  | FreeRange IoSpace x n => (None, free_io_addresses x n s)
  | FreeRange PlatformSpace x n => (None, free_platform_mmio_addresses x n s)
  | FreeRange HoleSpace x n => (None, free_mmio_hole_addresses x n s)
  end.

(** The interrupt numbers and the global interrupt numbers given out. *)
Fixpoint system_run (pagesize : Z) (os : list sys_op) (s : SystemAllocator) : list Z * list Z * SystemAllocator :=
  match os with
  | [] => ([], [], s)
  | o :: os =>
    let '(r, s) := sys_exec pagesize o s in
    let '(irqs, gsis, s) := system_run pagesize os s in
    match o, r with
    | AllocIrq, Some n => (n :: irqs, gsis, s)
    | AllocGsi, Some n => (irqs, n :: gsis, s)
    | _, _ => (irqs, gsis, s)
    end
  end.

(** Alignments up to [2^63], and no range of size zero is freed. *)
Definition sys_op_ok (o : sys_op) : Prop :=
  match o with
  | AllocRange _ r n a =>
    from_option (in_width 64) True r /\ 0 <= n /\ from_option (fun A => 0 <= A <= 2 ^ 63) True a
  | FreeRange _ _ n => n <> 0
  | _ => True
  end.

(** A space that ends below [2^63]. *)
Definition space_ok (al : AddressAllocator) : Prop := alloc_ok al /\ end_ al + 1 <= 2 ^ 63.

Lemma allocate_ok address size A al :
  space_ok al -> from_option (in_width 64) True address -> 0 <= size -> 0 <= A <= 2 ^ 63 ->
  space_ok (allocate address size (Some A) al).2.
Proof.
  intros [Hok Hend] Ha Hn HA. destruct (decide (size = 0)) as [->|Hne]; [done|].
  destruct (is_power_of_two A) eqn:Hp.
  - assert (Hreq : request_ok al size A) by (split; [lia|]; split; [unfold in_width; lia|by split; [|lia]]).
    pose proof (allocate_place address size (Some A) al Hok Hreq Ha) as Hspec.
    destruct (allocate address size (Some A) al) as [[x|] al']; [|by subst].
    destruct Hspec as (_ & Hf & ->). split; [|done]. apply alloc_ok_insert; [done|lia|done].
  - unfold allocate. rewrite decide_False by done. change (default 4 (Some A)) with A. by rewrite Hp.
Qed.

Lemma free_ok x n al : space_ok al -> n <> 0 -> space_ok (free x n al).
Proof.
  intros [Hok Hend] Hn. split; [by apply alloc_ok_free|]. unfold free. by repeat case_match.
Qed.

Lemma space_ok_new b n al :
  allocator_new b n = Some al -> 0 <= b -> 0 <= n -> b + n <= 2 ^ 63 -> space_ok al.
Proof.
  intros Hnew Hb Hn Hfit. split; [by apply (alloc_ok_new b n)|].
  unfold allocator_new, checked_add in Hnew. repeat (case_decide; cbn in Hnew; try done).
  simplify_eq. cbn. lia.
Qed.

(** With one APIC of [irqs] lines from [b], after [i] interrupt numbers and [j]
    global ones. *)
Definition gsi_at (b irqs i j : Z) (g : GsiAllocator) : Prop :=
  apics g = [(b, irqs)] /\ next_irq g = b + i /\ next_gsi g = b + irqs + j.

Lemma gsi_at_new b irqs : 0 < b -> 0 <= irqs -> b + irqs < 2 ^ 32 - 1 -> gsi_at b irqs 0 0 (gsi_new [mkApic b irqs]).
Proof.
  intros Hb Hn Hfit. unfold gsi_new, gsi_at, gsi_add_apic. cbn.
  rewrite !wadd_small by (unfold in_width; lia). repeat case_decide; cbn; split_and!; try done; lia.
Qed.

Lemma irq_step b irqs i j g :
  0 < b -> 0 <= i <= irqs -> b + irqs < 2 ^ 32 - 1 -> gsi_at b irqs i j g ->
  gsi_allocate_irq g = (if decide (i < irqs) then Some (b + i) else None, (gsi_allocate_irq g).2) /\
  gsi_at b irqs (if decide (i < irqs) then i + 1 else i) j (gsi_allocate_irq g).2.
Proof.
  intros Hb Hi Hfit (Ha & Hn & Hg). unfold gsi_allocate_irq. rewrite Ha, Hn. cbn.
  rewrite !wadd_small by (unfold in_width; lia).
  destruct (decide (i < irqs)); [rewrite decide_True by lia|rewrite decide_False by lia].
  - rewrite decide_False by lia. split; [done|]. unfold gsi_at. cbn. split_and!; [done|lia|done].
  - cbn. split; [done|]. unfold gsi_at. cbn. done.
Qed.

Lemma gsi_step b irqs i j g :
  0 <= b + irqs + j < 2 ^ 32 - 1 -> gsi_at b irqs i j g ->
  gsi_allocate_gsi g = (Some (b + irqs + j), (gsi_allocate_gsi g).2) /\
  gsi_at b irqs i (j + 1) (gsi_allocate_gsi g).2.
Proof.
  intros Hj (Ha & Hn & Hg). unfold gsi_allocate_gsi, checked_add. rewrite Hg.
  rewrite decide_True by lia. split; [done|]. unfold gsi_at. cbn. split_and!; [done|done|lia].
Qed.

(** ** What the system allocator guarantees *)

Definition sys_ok (b irqs i j : Z) (s : SystemAllocator) : Prop :=
  (forall sp, space_ok (space_of sp s)) /\ gsi_at b irqs i j (gsi_allocator s).

Lemma sys_exec_range pagesize o b irqs i j s :
  0 <= pagesize <= 2 ^ 63 -> sys_op_ok o -> sys_ok b irqs i j s ->
  match o with AllocIrq | AllocGsi => True | _ => sys_ok b irqs i j (sys_exec pagesize o s).2 end.
Proof.
  intros Hpage Hop [Hsp Hg].
  destruct o as [| |sp r n a|sp x n]; [done|done| |].
  - destruct Hop as (Hr & Hn & Ha). pose proof (Hsp sp) as Hal.
    assert (Hdef : forall d, 0 <= d <= 2 ^ 63 -> 0 <= default d a <= 2 ^ 63) by (by destruct a).
    destruct sp; cbn [sys_exec];
      unfold allocate_io_addresses, allocate_platform_mmio_addresses, allocate_mmio_hole_addresses;
      match goal with |- context [allocate ?r ?n (Some ?A) ?al] =>
        pose proof (allocate_ok r n A al Hal Hr Hn ltac:(apply Hdef; lia)) as Hok';
        destruct (allocate r n (Some A) al) as [x al'] end;
      (split; [|exact Hg]); intros [| |]; first [exact Hok'|apply (Hsp IoSpace)|apply (Hsp PlatformSpace)|apply (Hsp HoleSpace)].
  - pose proof (free_ok x n _ (Hsp sp) Hop) as Hok'.
    destruct sp; cbn; (split; [|exact Hg]); intros [| |];
      first [exact Hok'|apply (Hsp IoSpace)|apply (Hsp PlatformSpace)|apply (Hsp HoleSpace)].
Qed.

Lemma sys_ok_gsi b irqs i j i' j' g s :
  sys_ok b irqs i j s -> gsi_at b irqs i' j' g -> sys_ok b irqs i' j' (set_gsi g s).
Proof. intros [Hsp _] Hg. split; [|done]. intros []; [apply (Hsp IoSpace)|apply (Hsp PlatformSpace)|apply (Hsp HoleSpace)]. Qed.

(** One operation: which number it gives out, and what is given out then. *)
Lemma sys_exec_step pagesize o b irqs i j s :
  0 < b -> 0 <= i <= irqs -> 0 <= j -> b + irqs + j < 2 ^ 32 - 1 -> 0 <= pagesize <= 2 ^ 63 ->
  sys_op_ok o -> sys_ok b irqs i j s ->
  let '(r, s') := sys_exec pagesize o s in
  match o, r with
  | AllocIrq, Some n => n = b + i /\ i < irqs /\ sys_ok b irqs (i + 1) j s'
  | AllocGsi, Some n => n = b + irqs + j /\ sys_ok b irqs i (j + 1) s'
  | _, _ => sys_ok b irqs i j s'
  end.
Proof.
  intros Hb Hi Hj Hfit Hpage Ho Hok.
  pose proof (sys_exec_range pagesize o b irqs i j s Hpage Ho Hok) as Hrange. pose proof Hok as [_ Hg].
  destruct o as [| |sp r n a|sp x n]; cbn [sys_exec] in *.
  - unfold allocate_irq. destruct (irq_step b irqs i j _ Hb Hi ltac:(lia) Hg) as [Hrun Hg'].
    rewrite Hrun. case_decide; [split_and!; [done|done|]|]; by eapply sys_ok_gsi.
  - unfold allocate_gsi. destruct (gsi_step b irqs i j _ ltac:(lia) Hg) as [Hrun Hg']. rewrite Hrun.
    split; [done|]. by eapply sys_ok_gsi.
  - by destruct (match sp with IoSpace => _ | _ => _ end) as [x s1].
  - by destruct (match sp with IoSpace => _ | _ => _ end) as [y s1].
Qed.

(** The numbers a run gives out from the state with [i] and [j] given. *)
Lemma sys_run_numbers pagesize b irqs os : forall i j s,
  0 < b -> 0 <= i <= irqs -> 0 <= j -> b + irqs + j + Z.of_nat (length os) < 2 ^ 32 - 1 ->
  0 <= pagesize <= 2 ^ 63 -> Forall sys_op_ok os -> sys_ok b irqs i j s ->
  exists n m s' i' j', system_run pagesize os s = (seqZ (b + i) n, seqZ (b + irqs + j) m, s') /\
    0 <= n /\ i + n <= irqs /\ 0 <= m /\ sys_ok b irqs i' j' s'.
Proof.
  induction os as [|o os IH]; intros i j s Hb Hi Hj Hfit Hpage Hops Hok; cbn [system_run].
  { exists 0, 0, s, i, j. repeat (split; [first [done|lia]|]). done. }
  inversion_clear Hops as [|? ? Ho Hrest]. cbn [length] in Hfit.
  pose proof (sys_exec_step pagesize o b irqs i j s Hb Hi Hj ltac:(lia) Hpage Ho Hok) as Hstep.
  destruct (sys_exec pagesize o s) as [r s1].
  assert (Hsame : sys_ok b irqs i j s1 -> exists n m s' i' j',
    system_run pagesize os s1 = (seqZ (b + i) n, seqZ (b + irqs + j) m, s') /\
    0 <= n /\ i + n <= irqs /\ 0 <= m /\ sys_ok b irqs i' j' s').
  { intros Hok1. apply IH; try done; lia. }
  destruct o as [| |sp r0 n0 a|sp x n0]; destruct r as [k|].
  1: { destruct Hstep as (-> & Hlt & Hok1).
       destruct (IH (i + 1) j s1) as (n & m & s' & i' & j' & -> & ? & ? & ? & Hok'); try done; try lia.
       exists (n + 1), m, s', i', j'. rewrite (seqZ_cons (b + i)) by lia.
       replace (Z.succ (b + i)) with (b + (i + 1)) by lia. replace (Z.pred (n + 1)) with n by lia.
       repeat (split; [first [done|lia]|]). done. }
  2: { destruct Hstep as (-> & Hok1).
       destruct (IH i (j + 1) s1) as (n & m & s' & i' & j' & -> & ? & ? & ? & Hok'); try done; try lia.
       exists n, (m + 1), s', i', j'. rewrite (seqZ_cons (b + irqs + j)) by lia.
       replace (Z.succ (b + irqs + j)) with (b + irqs + (j + 1)) by lia.
       replace (Z.pred (m + 1)) with m by lia. repeat (split; [first [done|lia]|]). done. }
  all: destruct (Hsame Hstep) as (n & m & s' & i' & j' & -> & ?); by exists n, m, s', i', j'.
Qed.

(** Two ranges in use do not overlap. *)
Lemma alloc_disjoint al a s b t :
  alloc_ok al -> (a, s) ∈ ranges al -> (b, t) ∈ ranges al -> a < b -> a + s <= b.
Proof.
  intros Hok Ha Hb Hlt. pose proof (ao_seg _ Hok) as Hseg.
  apply list_elem_of_split in Ha as (l1 & l2 & Heq). rewrite Heq in Hseg, Hb.
  apply seg_app in Hseg as (mid & H1 & H2). cbn in H2. destruct H2 as (? & ? & H2).
  apply elem_of_app in Hb as [Hb|[[= -> ->]|Hb]%elem_of_cons].
  - destruct (seg_elem _ _ _ _ _ H1 Hb). lia.
  - lia.
  - destruct (seg_elem _ _ _ _ _ H2 Hb). lia.
Qed.

(** C39: The system allocator gives every resource to one user.  For every
    sequence of allocations and releases on a new allocator with one interrupt
    controller: the interrupt numbers it gives out are consecutive from the
    first line of the controller and within its lines, the global ones are
    consecutive above them, so all are distinct; and in each address space the
    ranges in use lie in the space and do not overlap. *)
Theorem system_resources_distinct pagesize io_base io_size pm_base pm_size hole_base hole_size b irqs
    os s0 irq_l gsi_l s :
  system_new io_base io_size pm_base pm_size hole_base hole_size [mkApic b irqs] = Some s0 ->
  Forall (fun r => 0 <= r.1 /\ 0 <= r.2 /\ r.1 + r.2 <= 2 ^ 63)
    [(io_base, io_size); (pm_base, pm_size); (hole_base, hole_size)] ->
  0 < b -> 0 <= irqs -> b + irqs + Z.of_nat (length os) < 2 ^ 32 - 1 -> 0 <= pagesize <= 2 ^ 63 ->
  Forall sys_op_ok os -> system_run pagesize os s0 = (irq_l, gsi_l, s) ->
  irq_l = seqZ b (Z.of_nat (length irq_l)) /\ Z.of_nat (length irq_l) <= irqs /\
  gsi_l = seqZ (b + irqs) (Z.of_nat (length gsi_l)) /\ NoDup (irq_l ++ gsi_l) /\
  forall sp x n, (x, n) ∈ ranges (space_of sp s) ->
    base (space_of sp s) <= x /\ x + n <= end_ (space_of sp s) + 1 /\
    forall y k, (y, k) ∈ ranges (space_of sp s) -> x < y -> x + n <= y.
Proof.
  intros Hnew Hspaces Hb Hn Hfit Hpage Hops Hrun.
  assert (Hok0 : sys_ok b irqs 0 0 s0).
  { unfold system_new in Hnew. repeat match type of Hnew with context [allocator_new ?x ?y] =>
      destruct (allocator_new x y) eqn:?; cbn in Hnew; [|done] end. simplify_eq.
    rewrite !Forall_cons in Hspaces. destruct Hspaces as ((? & ? & ?) & (? & ? & ?) & (? & ? & ?) & _).
    split; [|by apply gsi_at_new; [| |lia]]. cbn in *.
    intros []; cbn; eauto using space_ok_new. }
  destruct (sys_run_numbers pagesize b irqs os 0 0 s0) as (n & m & s' & i' & j' & Heq & ? & ? & ? & [Hsp _]);
    [done|lia|lia|lia|done|done|done|].
  rewrite Hrun in Heq. simplify_eq. rewrite !Z.add_0_r, !length_seqZ, !Z2Nat.id by lia.
  split_and!; [done|lia|done| |].
  - apply NoDup_app. split; [apply NoDup_seqZ|]. split; [|apply NoDup_seqZ].
    intros k Hk1 Hk2. apply elem_of_seqZ in Hk1, Hk2. lia.
  - intros sp x k Hin. destruct (Hsp sp) as [Hok _].
    destruct (seg_elem _ _ _ _ _ (ao_seg _ Hok) Hin) as (? & ? & ?). split_and!; [done|done|].
    intros y k' Hin' ?. by eapply alloc_disjoint.
Qed.

Definition example_system : SystemAllocator :=
  mkSystem (mkAllocator 0 65535 [(65536, 0)]) (mkAllocator 1048576 2097151 [(2097152, 0)])
    (mkAllocator 4194304 8388607 [(8388608, 0)]) (gsi_new [mkApic 5 19]).
Definition example_ops : list sys_op :=
  [AllocIrq; AllocRange HoleSpace None 4096 None; AllocGsi; AllocRange IoSpace (Some 1016) 8 None; AllocIrq;
   AllocRange HoleSpace None 8192 (Some 8192); FreeRange IoSpace 1016 8].

Lemma system_resources_distinct_witness :
  let '(irq_l, gsi_l, s) := system_run 4096 example_ops example_system in
  irq_l = [5; 6] /\ gsi_l = [24] /\ NoDup (irq_l ++ gsi_l) /\
  ranges (space_of HoleSpace s) = [(8372224, 8192); (8384512, 4096); (8388608, 0)].
Proof.
  destruct (system_run 4096 example_ops example_system) as [[irq_l gsi_l] s] eqn:Hrun.
  pose proof (system_resources_distinct 4096 0 65536 1048576 1048576 4194304 4194304 5 19 example_ops
    example_system irq_l gsi_l s) as H.
  destruct H as (_ & _ & _ & Hnd & _); [vm_compute; reflexivity|repeat constructor; cbn; lia|lia|lia|cbn; lia|lia| |done|].
  { repeat constructor; cbn; unfold in_width; lia. }
  vm_compute in Hrun. simplify_eq. split_and!; try done; vm_compute; reflexivity.
Defined.

(** The source takes the interrupt number 0 for none: an APIC whose lines start
    at 0 loses its first line (gsi.rs, [allocate_irq]). *)
Lemma irq_zero_lost :
  let g := gsi_new [mkApic 0 4] in
  (gsi_allocate_irq g).1 = None /\ (gsi_allocate_irq (gsi_allocate_irq g).2).1 = Some 1.
Proof. vm_compute. split; reflexivity. Qed.

(** The loop does not stop at the APIC that has the number: of two adjacent
    APICs one call takes the last line of the first and the first of the second. *)
Lemma irq_skipped :
  let g := gsi_new [mkApic 5 1; mkApic 6 2] in (gsi_allocate_irq g).1 = Some 6.
Proof. vm_compute. reflexivity. Qed.
