(* ===== verification/IrqGroup.v ===== *)
(** Interrupt source groups: the interface of hypervisor/vm-device/src/interrupt
    and the groups of MSI interrupts (hypervisor/vmm/src/interrupt.rs), on the
    system allocator and the virtual machine of the kernel. *)
From stdpp Require Import base numbers gmap list.
From S2P Require Import Prelude BTree AddressAllocator DeviceBus VmResources.
#[local] Open Scope Z_scope.

(** ** Interrupt sources *)
Record MsiIrqSourceConfig := mkMsi { high_addr : Z; low_addr : Z; msi_data : Z; msi_devid : Z }.
Inductive InterruptSourceConfig :=
| LegacyIrq (irqchip pin : Z)
| MsiIrq (c : MsiIrqSourceConfig).

Inductive irq_error := VmFailed | InvalidIndex (index : Z) | NoEventFd | NoGsi.

Class InterruptSourceGroup (G : Type) := {
  isg_enable : M G irq_error unit;
  isg_disable : M G irq_error unit;
  isg_trigger : Z -> M G irq_error unit;
  isg_update : Z -> InterruptSourceConfig -> bool -> M G irq_error unit;
}.

(** What a user of a group relies on: [shape g] gives the interrupt of each
    index; [routed g i c] says that an interrupt raised at index [i] reaches the
    guest as the message [c]; [fired g] lists the interrupts raised. *)
Class GroupLaws (G : Type) `{InterruptSourceGroup G} := {
  group_ok : G -> Prop;
  shape : G -> gmap Z Z;
  routed : G -> Z -> MsiIrqSourceConfig -> Prop;
  fired : G -> list Z;
  shape_inj : forall g i j n, group_ok g -> shape g !! i = Some n -> shape g !! j = Some n -> i = j;
  isg_update_spec : forall g i c masked, group_ok g -> is_Some (shape g !! i) ->
    exists g', isg_update i (MsiIrq c) masked g = (Done tt, g') /\ group_ok g' /\
      shape g' = shape g /\ fired g' = fired g /\
      (masked = false -> routed g' i c) /\ (masked = true -> forall c', ~ routed g' i c') /\
      (forall j c', j <> i -> routed g' j c' <-> routed g j c');
  isg_enable_spec : forall g, group_ok g ->
    exists g', isg_enable g = (Done tt, g') /\ group_ok g' /\ shape g' = shape g /\ fired g' = fired g /\
      (forall j c, routed g j c -> routed g' j c);
  isg_disable_spec : forall g, group_ok g ->
    exists g', isg_disable g = (Done tt, g') /\ group_ok g' /\ shape g' = shape g /\ fired g' = fired g /\
      (forall j c, ~ routed g' j c);
  isg_trigger_spec : forall g i n, group_ok g -> shape g !! i = Some n ->
    exists g', isg_trigger i g = (Done tt, g') /\ group_ok g' /\ shape g' = shape g /\
      fired g' = fired g ++ [n] /\ (forall j c, routed g' j c <-> routed g j c);
}.

(** ** The virtual machine

    The part of it that interrupts use: the descriptors that raise an interrupt
    when they are written, the routing table, and the writes so far.  A
    descriptor is named by the interrupt it was made for. *)
Inductive IrqRoutingEntry :=
| KvmMsi (gsi address_lo address_hi data : Z) (devid : option Z)
| KvmIrqchip (gsi irqchip pin : Z).

Record Kvm := mkKvm {
  kvm_irqfds : gset Z;
  kvm_routes : list IrqRoutingEntry;
  kvm_events : list Z;
}.
Inductive vm_call :=
| RegisterIrqfd (gsi : Z)
| UnregisterIrqfd (gsi : Z)
| SetGsiRouting (entries : list IrqRoutingEntry)
| WriteEvent (gsi : Z).

Definition kvm_exec (c : vm_call) (k : Kvm) : Kvm :=
  match c with
  | RegisterIrqfd gsi => mkKvm ({[gsi]} ∪ kvm_irqfds k) (kvm_routes k) (kvm_events k)
  | UnregisterIrqfd gsi => mkKvm (kvm_irqfds k ∖ {[gsi]}) (kvm_routes k) (kvm_events k)
  | SetGsiRouting entries => mkKvm (kvm_irqfds k) entries (kvm_events k)
  | WriteEvent gsi => mkKvm (kvm_irqfds k) (kvm_routes k) (kvm_events k ++ [gsi])
  end.

Record InterruptRoute := mkRoute { route_gsi : Z; route_registered : bool }.
Record RoutingEntry := mkEntry { entry_route : IrqRoutingEntry; entry_masked : bool }.

(** The host: which calls it refuses, whether it has the extension [MsiDevid],
    and the order in which a hash map is iterated. *)
Class VmHost := {
  vm_refuses : Kvm -> vm_call -> bool;
  has_msi_devid : bool;
  irq_order : gmap Z InterruptRoute -> list Z;
  irq_order_spec : forall m i, i ∈ irq_order m <-> is_Some (m !! i);
}.

Section group.
Context `{VmHost}.

(** [gsi_msi_routes] and the virtual machine are shared with other groups. *)
Record MsiInterruptGroup := mkMsiGroup {
  gsi_msi_routes : gmap Z RoutingEntry;
  irq_routes : gmap Z InterruptRoute;
  group_vm : Kvm;
}.
Abbreviation G := MsiInterruptGroup.

Definition make_routing_entry (gsi : Z) (config : InterruptSourceConfig) : IrqRoutingEntry :=
  match config with
  | MsiIrq cfg =>
    let modified_devid :=
      Z.lor (Z.shiftr (Z.land (msi_devid cfg) 0x00ff0000) 8) (Z.land (msi_devid cfg) 0xff) in
    KvmMsi gsi (low_addr cfg) (high_addr cfg) (msi_data cfg)
      (if has_msi_devid then Some modified_devid else None)
  | LegacyIrq irqchip pin => KvmIrqchip gsi irqchip pin
  end.

Definition vm_do (c : vm_call) : M G irq_error unit :=
  let* g := get in
  if vm_refuses (group_vm g) c then throw VmFailed
  else modify (fun g => mkMsiGroup (gsi_msi_routes g) (irq_routes g) (kvm_exec c (group_vm g))).

Definition set_registered (i gsi : Z) (b : bool) : M G irq_error unit :=
  modify (fun g => mkMsiGroup (gsi_msi_routes g) (<[i := mkRoute gsi b]> (irq_routes g)) (group_vm g)).

(** [InterruptRoute::enable] and [disable] of the route at index [i]. *)
Definition route_enable (i : Z) (route : InterruptRoute) : M G irq_error unit :=
  if route_registered route then ret tt
  else vm_do (RegisterIrqfd (route_gsi route)) ;;; set_registered i (route_gsi route) true.
Definition route_disable (i : Z) (route : InterruptRoute) : M G irq_error unit :=
  if route_registered route
  then vm_do (UnregisterIrqfd (route_gsi route)) ;;; set_registered i (route_gsi route) false
  else ret tt.
Definition route_trigger (route : InterruptRoute) : M G irq_error unit := vm_do (WriteEvent (route_gsi route)).

Definition set_gsi_routes (routes : gmap Z RoutingEntry) : M G irq_error unit :=
  let entry_vec := omap (fun e => if entry_masked e.2 then None else Some (entry_route e.2)) (map_to_list routes) in
  vm_do (SetGsiRouting entry_vec).

Fixpoint for_routes (f : Z -> InterruptRoute -> M G irq_error unit) (l : list Z) : M G irq_error unit :=
  match l with
  | [] => ret tt
  | i :: l =>
    let* g := get in
    match irq_routes g !! i with
    | Some route => f i route ;;; for_routes f l
    | None => for_routes f l
    end
  end.

Definition group_enable : M G irq_error unit :=
  let* g := get in for_routes route_enable (irq_order (irq_routes g)).
Definition group_disable : M G irq_error unit :=
  let* g := get in for_routes route_disable (irq_order (irq_routes g)).

Definition group_trigger (index : Z) : M G irq_error unit :=
  let* g := get in
  match irq_routes g !! index with
  | Some route => route_trigger route
  | None => throw (InvalidIndex index)
  end.

Definition group_update (index : Z) (config : InterruptSourceConfig) (masked : bool) : M G irq_error unit :=
  let* g := get in
  match irq_routes g !! index with
  | Some route =>
    let entry := mkEntry (make_routing_entry (route_gsi route) config) masked in
    (if masked then route_disable index route else route_enable index route) ;;;
    modify (fun g => mkMsiGroup (<[route_gsi route := entry]> (gsi_msi_routes g)) (irq_routes g) (group_vm g)) ;;;
    let* g := get in
    set_gsi_routes (gsi_msi_routes g)
  | None => throw (InvalidIndex index)
  end.

#[export] Instance MsiInterruptGroup_group : InterruptSourceGroup MsiInterruptGroup := {
  isg_enable := group_enable;
  isg_disable := group_disable;
  isg_trigger := group_trigger;
  isg_update := group_update;
}.
End group.

(** ** Creating a group

    [eventfd] tells which of the descriptors can be created. *)
Definition route_new (eventfd : bool) : M SystemAllocator irq_error InterruptRoute :=
  if eventfd then
    fun s => match allocate_gsi s with
             | (Some gsi, s) => (Done (mkRoute gsi false), s)
             | (None, s) => (Fail NoGsi, s)
             end
  else throw NoEventFd.

Fixpoint create_routes (eventfd : Z -> bool) (base : Z) (count : nat) (irq_routes : gmap Z InterruptRoute)
  : M SystemAllocator irq_error (gmap Z InterruptRoute) :=
  match count with
  | 0%nat => ret irq_routes
  | S count =>
    let* route := route_new (eventfd base) in
    create_routes eventfd (base + 1) count (<[base := route]> irq_routes)
  end.

(** [routes] and [vm] are those of the interrupt manager.  The range of the
    source is empty when its end wraps around. *)
Definition create_group (eventfd : Z -> bool) (base count : Z) (routes : gmap Z RoutingEntry) (vm : Kvm)
  : M SystemAllocator irq_error MsiInterruptGroup :=
  let* irqs := create_routes eventfd base (Z.to_nat (wadd 32 base count - base)) ∅ in
  ret (mkMsiGroup routes irqs vm).

(** ** MSI groups satisfy the laws, on a host that refuses nothing *)
Class VmAccepts `{VmHost} : Prop := vm_accepts : forall k c, vm_refuses k c = false.

Section laws.
Context `{VmHost} `{!VmAccepts}.
Abbreviation G := MsiInterruptGroup.
Implicit Types (g : G) (k : Kvm).

Definition routing_gsi (e : IrqRoutingEntry) : Z :=
  match e with KvmMsi gsi _ _ _ _ | KvmIrqchip gsi _ _ => gsi end.

Record msi_ok g : Prop := {
  mo_inj : forall i j r r', irq_routes g !! i = Some r -> irq_routes g !! j = Some r' ->
    route_gsi r = route_gsi r' -> i = j;
  mo_registered : forall i r, irq_routes g !! i = Some r ->
    route_registered r = true <-> route_gsi r ∈ kvm_irqfds (group_vm g);
  mo_key : forall gsi e, gsi_msi_routes g !! gsi = Some e -> routing_gsi (entry_route e) = gsi;
  mo_kernel : forall e, e ∈ kvm_routes (group_vm g) <-> exists gsi, gsi_msi_routes g !! gsi = Some (mkEntry e false);
}.
Definition msi_shape g : gmap Z Z := route_gsi <$> irq_routes g.
Definition msi_routed g (i : Z) (c : MsiIrqSourceConfig) : Prop :=
  exists n, msi_shape g !! i = Some n /\ n ∈ kvm_irqfds (group_vm g) /\
    make_routing_entry n (MsiIrq c) ∈ kvm_routes (group_vm g).

Lemma vm_do_ok c g :
  vm_do c g = (Done tt, mkMsiGroup (gsi_msi_routes g) (irq_routes g) (kvm_exec c (group_vm g))).
Proof. unfold vm_do, bind, get. by rewrite vm_accepts. Qed.

(** The state in which the route [i] has been registered, or not. *)
Definition with_registered (i gsi : Z) (b : bool) g : G :=
  mkMsiGroup (gsi_msi_routes g) (<[i := mkRoute gsi b]> (irq_routes g))
    (kvm_exec (if b then RegisterIrqfd gsi else UnregisterIrqfd gsi) (group_vm g)).

Lemma with_registered_ok i gsi b b0 g :
  msi_ok g -> irq_routes g !! i = Some (mkRoute gsi b0) ->
  msi_ok (with_registered i gsi b g) /\ msi_shape (with_registered i gsi b g) = msi_shape g.
Proof.
  intros [Hinj Hreg Hkey Hker] Hi. split.
  - assert (Hlook : forall j r, (<[i := mkRoute gsi b]> (irq_routes g)) !! j = Some r ->
      exists r0, irq_routes g !! j = Some r0 /\ route_gsi r0 = route_gsi r).
    { intros j r. destruct (decide (j = i)) as [->|Hne].
      - rewrite lookup_insert_eq. intros [= <-]. eauto.
      - rewrite lookup_insert_ne by done. eauto. }
    split; cbn.
    + intros j1 j2 r1 r2 (r1' & H1 & E1)%Hlook (r2' & H2 & E2)%Hlook Heq.
      apply (Hinj _ _ _ _ H1 H2). congruence.
    + intros j r Hj. destruct (decide (j = i)) as [->|Hne].
      * rewrite lookup_insert_eq in Hj. simplify_eq. destruct b; cbn; set_solver.
      * rewrite lookup_insert_ne in Hj by done.
        assert (route_gsi r <> gsi). { intros <-. apply Hne. by apply (Hinj _ _ _ _ Hj Hi). }
        rewrite (Hreg _ _ Hj). destruct b; cbn; set_solver.
    + done.
    + by destruct b.
  - unfold msi_shape. cbn. rewrite fmap_insert. apply insert_id. by rewrite lookup_fmap, Hi.
Qed.

(** Registering and unregistering the interrupts in [X] changes nothing but the
    descriptors. *)
Definition switched (b : bool) (X : gset Z) g g' : Prop :=
  msi_ok g' /\ msi_shape g' = msi_shape g /\ gsi_msi_routes g' = gsi_msi_routes g /\
  kvm_routes (group_vm g') = kvm_routes (group_vm g) /\ kvm_events (group_vm g') = kvm_events (group_vm g) /\
  kvm_irqfds (group_vm g') = (if b then X ∪ kvm_irqfds (group_vm g) else kvm_irqfds (group_vm g) ∖ X).

Lemma switched_refl b g : msi_ok g -> switched b ∅ g g.
Proof. intros Hok. split_and!; try done. destruct b; set_solver. Qed.
Lemma switched_trans b X Y g g1 g2 : switched b X g g1 -> switched b Y g1 g2 -> switched b (X ∪ Y) g g2.
Proof.
  intros (_ & Hs1 & Hr1 & Hk1 & He1 & Hf1) (Hok & Hs2 & Hr2 & Hk2 & He2 & Hf2).
  split_and!; [done|congruence..|]. rewrite Hf2, Hf1. destruct b; set_solver.
Qed.

Definition route_switch (b : bool) : Z -> InterruptRoute -> M G irq_error unit :=
  if b then route_enable else route_disable.

Lemma route_switch_ok b i r g :
  msi_ok g -> irq_routes g !! i = Some r ->
  exists g', route_switch b i r g = (Done tt, g') /\ switched b {[route_gsi r]} g g'.
Proof.
  intros Hok Hi. destruct r as [gsi rg]. pose proof (mo_registered _ Hok _ _ Hi) as Hreg. cbn in Hreg.
  destruct (decide (rg = b)) as [->|Hne].
  - exists g. split; [by destruct b|]. split_and!; try done. cbn.
    destruct b; apply set_eq; intros n; destruct (decide (n = gsi)); set_solver.
  - exists (with_registered i gsi b g). split.
    + destruct b, rg; try done; unfold route_switch, route_enable, route_disable; cbn;
        by erewrite bind_done by apply vm_do_ok.
    + destruct (with_registered_ok i gsi b rg g Hok Hi) as [Hok' Hsh].
      split_and!; try done; by destruct b.
Qed.

Lemma msi_shape_lookup g i : msi_shape g !! i = route_gsi <$> irq_routes g !! i.
Proof. apply lookup_fmap. Qed.

Lemma for_routes_ok b l : forall g,
  msi_ok g -> exists g', for_routes (route_switch b) l g = (Done tt, g') /\
    switched b (list_to_set (omap (fun i => msi_shape g !! i) l)) g g'.
Proof.
  induction l as [|i l IH]; intros g Hok; cbn [for_routes].
  { exists g. split; [done|by apply switched_refl]. }
  rewrite bind_get. cbn [omap list_omap]. rewrite msi_shape_lookup.
  destruct (irq_routes g !! i) as [r|] eqn:Hi; cbn [fmap option_fmap option_map list_to_set]; [|by apply IH].
  destruct (route_switch_ok b i r g Hok Hi) as (g1 & Hrun & Hsw). pose proof Hsw as (Hok1 & Hsh1 & _).
  destruct (IH g1 Hok1) as (g2 & Hrun2 & Hsw2). exists g2. rewrite Hsh1 in Hsw2.
  split; [by rewrite (bind_done _ _ _ _ _ Hrun)|]. by eapply switched_trans.
Qed.

Lemma for_all_routes_ok b g :
  msi_ok g -> exists g', for_routes (route_switch b) (irq_order (irq_routes g)) g = (Done tt, g') /\
    switched b (map_img (msi_shape g)) g g'.
Proof.
  intros Hok. destruct (for_routes_ok b (irq_order (irq_routes g)) g Hok) as (g' & Hrun & Hsw).
  exists g'. split; [done|].
  replace (map_img (msi_shape g)) with
    (list_to_set (C := gset Z) (omap (fun i => msi_shape g !! i) (irq_order (irq_routes g)))); [done|].
  apply set_eq. intros n. rewrite elem_of_list_to_set, list_elem_of_omap, elem_of_map_img.
  split; [intros (i & _ & Hs); eauto|]. intros (i & Hs). exists i. split; [|done].
  apply irq_order_spec. rewrite msi_shape_lookup in Hs. by apply fmap_is_Some with (f := route_gsi).
Qed.

(** A new entry for the interrupt [n], and the table of the kernel after it. *)
Lemma set_route_ok n e g :
  msi_ok g -> routing_gsi (entry_route e) = n ->
  let g0 := mkMsiGroup (<[n := e]> (gsi_msi_routes g)) (irq_routes g) (group_vm g) in
  exists g', set_gsi_routes (gsi_msi_routes g0) g0 = (Done tt, g') /\ msi_ok g' /\
    msi_shape g' = msi_shape g /\ kvm_irqfds (group_vm g') = kvm_irqfds (group_vm g) /\
    kvm_events (group_vm g') = kvm_events (group_vm g) /\
    (forall r, routing_gsi r <> n -> r ∈ kvm_routes (group_vm g') <-> r ∈ kvm_routes (group_vm g)) /\
    (entry_masked e = false -> entry_route e ∈ kvm_routes (group_vm g')).
Proof.
  intros Hok He g0. unfold set_gsi_routes. rewrite vm_do_ok. eexists. split; [done|].
  assert (Hker : forall r, r ∈ omap (fun x : Z * RoutingEntry => if entry_masked x.2 then None else
      Some (entry_route x.2)) (map_to_list (gsi_msi_routes g0)) <->
      exists gsi, gsi_msi_routes g0 !! gsi = Some (mkEntry r false)).
  { intros r. rewrite list_elem_of_omap. split.
    - intros ([gsi [r' []]] & Hin%elem_of_map_to_list & Hr); cbn in *; [done|]. simplify_eq. eauto.
    - intros [gsi Hg]. exists (gsi, mkEntry r false). by rewrite elem_of_map_to_list. }
  destruct Hok as [Hinj Hreg Hkey Hold]. split_and!; try done.
  - split; cbn; try done. intros gsi e'. destruct (decide (gsi = n)) as [->|Hne].
    + rewrite lookup_insert_eq. congruence.
    + rewrite lookup_insert_ne by done. apply Hkey.
  - intros r Hr. cbn [group_vm kvm_exec kvm_routes]. rewrite Hker, Hold. cbn.
    split; intros [gsi Hg]; exists gsi; pose proof Hg as Hg'.
    + destruct (decide (gsi = n)) as [->|Hne]; [|by rewrite lookup_insert_ne in Hg].
      rewrite lookup_insert_eq in Hg. simplify_eq.
    + apply Hkey in Hg'. cbn in Hg'. rewrite lookup_insert_ne; congruence.
  - intros Hm. apply Hker. exists n. cbn. rewrite lookup_insert_eq. destruct e. cbn in *. congruence.
Qed.

Lemma group_update_ok g i c masked :
  msi_ok g -> is_Some (msi_shape g !! i) ->
  exists g', group_update i (MsiIrq c) masked g = (Done tt, g') /\ msi_ok g' /\
    msi_shape g' = msi_shape g /\ kvm_events (group_vm g') = kvm_events (group_vm g) /\
    (masked = false -> msi_routed g' i c) /\ (masked = true -> forall c', ~ msi_routed g' i c') /\
    (forall j c', j <> i -> msi_routed g' j c' <-> msi_routed g j c').
Proof.
  intros Hok [n Hn]. unfold group_update. rewrite bind_get.
  rewrite msi_shape_lookup in Hn. destruct (irq_routes g !! i) as [r|] eqn:Hi; [|done]. cbn in Hn. simplify_eq.
  destruct (route_switch_ok (negb masked) i r g Hok Hi) as (g1 & Hrun & Hok1 & Hsh1 & Hr1 & Hk1 & He1 & Hf1).
  replace (if masked then route_disable i r else route_enable i r) with (route_switch (negb masked) i r)
    by (by destruct masked).
  rewrite (bind_done _ _ _ _ _ Hrun), bind_modify, bind_get.
  set (e := mkEntry (make_routing_entry (route_gsi r) (MsiIrq c)) masked).
  destruct (set_route_ok (route_gsi r) e g1 Hok1 eq_refl) as (g2 & Hrun2 & Hok2 & Hsh2 & Hf2 & He2 & Hk2 & Hnew).
  exists g2. split; [exact Hrun2|]. split; [done|]. do 2 (split; [congruence|]).
  assert (Hs : msi_shape g !! i = Some (route_gsi r)) by (by rewrite msi_shape_lookup, Hi).
  unfold msi_routed. rewrite Hsh2, Hsh1, Hf2, Hf1. split_and!.
  - intros ->. exists (route_gsi r). split_and!; [done|set_solver|by apply Hnew].
  - intros -> c' (n & Hn & Hin & _). set_solver.
  - intros j c' Hne. apply exist_proper. intros n.
    assert (Hout : msi_shape g !! j = Some n -> n <> route_gsi r).
    { intros Hj ->. rewrite msi_shape_lookup in Hj. destruct (irq_routes g !! j) as [r'|] eqn:Hj'; [|done].
      cbn in Hj. simplify_eq. apply Hne. by apply (mo_inj _ Hok _ _ _ _ Hj' Hi). }
    split; intros (Hj & Hin & Hr); specialize (Hout Hj); (split; [done|split]).
    + destruct masked; set_solver.
    + rewrite <- Hk1, <- Hk2; done.
    + destruct masked; set_solver.
    + rewrite Hk2, Hk1; done.
Qed.
Lemma group_enable_ok g :
  msi_ok g -> exists g', group_enable g = (Done tt, g') /\ msi_ok g' /\ msi_shape g' = msi_shape g /\
    kvm_events (group_vm g') = kvm_events (group_vm g) /\ (forall j c, msi_routed g j c -> msi_routed g' j c).
Proof.
  intros Hok. destruct (for_all_routes_ok true g Hok) as (g' & Hrun & Hok' & Hsh & Hr & Hk & He & Hf).
  exists g'. split; [exact Hrun|]. split_and!; [done..|]. unfold msi_routed. rewrite Hsh, Hk, Hf.
  intros j c (n & ? & ? & ?). exists n. set_solver.
Qed.
Lemma group_disable_ok g :
  msi_ok g -> exists g', group_disable g = (Done tt, g') /\ msi_ok g' /\ msi_shape g' = msi_shape g /\
    kvm_events (group_vm g') = kvm_events (group_vm g) /\ (forall j c, ~ msi_routed g' j c).
Proof.
  intros Hok. destruct (for_all_routes_ok false g Hok) as (g' & Hrun & Hok' & Hsh & Hr & Hk & He & Hf).
  exists g'. split; [exact Hrun|]. split_and!; [done..|]. unfold msi_routed. rewrite Hsh, Hk, Hf.
  intros j c (n & Hn & Hin & _). apply elem_of_difference in Hin as [_ Hin]. apply Hin, elem_of_map_img. eauto.
Qed.
Lemma group_trigger_ok g i n :
  msi_ok g -> msi_shape g !! i = Some n ->
  exists g', group_trigger i g = (Done tt, g') /\ msi_ok g' /\ msi_shape g' = msi_shape g /\
    kvm_events (group_vm g') = kvm_events (group_vm g) ++ [n] /\
    (forall j c, msi_routed g' j c <-> msi_routed g j c).
Proof.
  intros Hok Hn. unfold group_trigger, route_trigger. rewrite bind_get.
  rewrite msi_shape_lookup in Hn. destruct (irq_routes g !! i) as [r|] eqn:Hi; [|done]. cbn in Hn. simplify_eq.
  rewrite vm_do_ok. eexists. split; [done|]. split; [by destruct Hok; split|]. done.
Qed.
Lemma msi_shape_inj g i j n : msi_ok g -> msi_shape g !! i = Some n -> msi_shape g !! j = Some n -> i = j.
Proof.
  intros Hok. rewrite !msi_shape_lookup, !fmap_Some. intros (r & Hi & ->) (r' & Hj & Heq).
  by apply (mo_inj _ Hok _ _ _ _ Hi Hj).
Qed.

#[export] Instance msi_group_laws : GroupLaws MsiInterruptGroup := {
  group_ok := msi_ok; shape := msi_shape; routed := msi_routed; fired g := kvm_events (group_vm g);
  shape_inj := msi_shape_inj; isg_update_spec := group_update_ok; isg_enable_spec := group_enable_ok;
  isg_disable_spec := group_disable_ok; isg_trigger_spec := group_trigger_ok;
}.
End laws.

(** ** New groups *)
Lemma create_routes_ok eventfd b irqs i count : forall base j m s,
  gsi_at b irqs i j (gsi_allocator s) -> 0 <= b + irqs + j ->
  b + irqs + j + Z.of_nat count < 2 ^ 32 ->
  (forall k, base <= k < base + Z.of_nat count -> eventfd k = true) ->
  exists m' s', create_routes eventfd base count m s = (Done m', s') /\
    gsi_at b irqs i (j + Z.of_nat count) (gsi_allocator s') /\
    forall k, m' !! k = if decide (base <= k < base + Z.of_nat count)
                        then Some (mkRoute (b + irqs + j + (k - base)) false) else m !! k.
Proof.
  induction count as [|count IH]; intros base j m s Hg Hj Hfit Hfd; cbn [create_routes].
  { exists m, s. rewrite Z.add_0_r. split_and!; [done|done|]. intros k. by rewrite decide_False by lia. }
  destruct (gsi_step b irqs i j (gsi_allocator s)) as [Hrun Hg']; [lia|done|].
  set (s1 := set_gsi (gsi_allocate_gsi (gsi_allocator s)).2 s).
  assert (Hnew : route_new (eventfd base) s = (Done (mkRoute (b + irqs + j) false), s1)).
  { unfold route_new. rewrite Hfd by lia. unfold allocate_gsi. by rewrite Hrun. }
  rewrite (bind_done _ _ _ _ _ Hnew).
  destruct (IH (base + 1) (j + 1) (<[base := mkRoute (b + irqs + j) false]> m) s1)
    as (m' & s' & -> & Hg2 & Hm); [done|lia|lia|intros k Hk; apply Hfd; lia|].
  exists m', s'. split; [done|]. split; [by replace (j + Z.of_nat (S count)) with (j + 1 + Z.of_nat count) by lia|].
  intros k. rewrite Hm. destruct (decide (k = base)) as [->|Hne].
  - rewrite decide_False, decide_True by lia. rewrite lookup_insert_eq. do 2 f_equal. lia.
  - rewrite lookup_insert_ne by done. repeat case_decide; try lia; [|done]. do 2 f_equal. lia.
Qed.

(** What the interrupt manager keeps between groups: its table is the one of the
    kernel, and only interrupts given out have descriptors. *)
Record routes_ok (top : Z) (routes : gmap Z RoutingEntry) (vm : Kvm) : Prop := {
  mg_key : forall gsi e, routes !! gsi = Some e -> routing_gsi (entry_route e) = gsi;
  mg_kernel : forall e, e ∈ kvm_routes vm <-> exists gsi, routes !! gsi = Some (mkEntry e false);
  mg_fds : forall gsi, gsi ∈ kvm_irqfds vm -> gsi < top;
}.

Lemma create_group_ok eventfd b irqs i j base count routes vm s :
  gsi_at b irqs i j (gsi_allocator s) -> 0 <= b + irqs + j -> 0 <= base -> 0 <= count ->
  base + count < 2 ^ 32 -> b + irqs + j + count < 2 ^ 32 ->
  (forall k, base <= k < base + count -> eventfd k = true) -> routes_ok (b + irqs + j) routes vm ->
  exists g s', create_group eventfd base count routes vm s = (Done g, s') /\
    gsi_at b irqs i (j + count) (gsi_allocator s') /\ msi_ok g /\ group_vm g = vm /\
    forall k, msi_shape g !! k = if decide (base <= k < base + count) then Some (b + irqs + j + (k - base)) else None.
Proof.
  intros Hg Hj Hb Hc Hfit Hgsi Hfd [Hkey Hker Hfds]. unfold create_group.
  rewrite wadd_small by (unfold in_width; lia). replace (base + count - base) with count by lia.
  destruct (create_routes_ok eventfd b irqs i (Z.to_nat count) base j ∅ s) as (m & s' & Hrun & Hg' & Hm);
    [done|done|lia|intros k Hk; apply Hfd; lia|].
  rewrite (bind_done _ _ _ _ _ Hrun). rewrite Z2Nat.id in * by done.
  eexists _, s'. split; [done|]. split; [done|].
  assert (Hlook : forall k r, m !! k = Some r -> r = mkRoute (b + irqs + j + (k - base)) false /\ base <= k).
  { intros k r. rewrite Hm. case_decide; [|by rewrite lookup_empty]. intros [= <-]. split; [done|lia]. }
  split; [split; cbn; try done|].
  - intros k1 k2 r1 r2 [-> _]%Hlook [-> _]%Hlook. cbn. lia.
  - intros k r [-> ?]%Hlook. cbn. split; [done|]. intros ?%Hfds. lia.
  - split; [done|]. intros k. rewrite msi_shape_lookup. cbn. rewrite Hm. by case_decide.
Qed.
