(* ===== verification/Msix.v ===== *)
(** MSI-X (hypervisor/pci/src/msix.rs) and the interrupts of virtio devices that
    go through it (hypervisor/virtio-devices/src/transport/pci_device.rs). *)
From stdpp Require Import base numbers gmap list.
From S2P Require Import Prelude Bytes IrqGroup.
#[local] Open Scope Z_scope.

Definition MAX_MSIX_VECTORS_PER_DEVICE : Z := 2048.
Definition MSIX_TABLE_ENTRIES_MODULO : Z := 16.
Definition MSIX_PBA_ENTRIES_MODULO : Z := 8.
Definition BITS_PER_PBA_ENTRY : Z := 64.
Definition FUNCTION_MASK_BIT : Z := 14.
Definition MSIX_ENABLE_BIT : Z := 15.

(** ** The table *)
Record MsixTableEntry := mkTE { msg_addr_lo : Z; msg_addr_hi : Z; msg_data : Z; vector_ctl : Z }.
#[global] Instance MsixTableEntry_eq_dec : EqDecision MsixTableEntry.
Proof. solve_decision. Defined.

Definition te_masked (e : MsixTableEntry) : bool := bool_decide (Z.land (vector_ctl e) 1 = 1).
Definition te_default : MsixTableEntry := mkTE 0 0 0 1.

(** ** The configuration; [G] is the group of interrupts *)
Record MsixConfig (G : Type) := mkMsix {
  table_entries : list MsixTableEntry;
  pba_entries : list Z;
  devid : Z;
  interrupt_source_group : G;
  masked : bool;
  enabled : bool;
}.
Arguments mkMsix {G}.
Arguments table_entries {G}.
Arguments pba_entries {G}.
Arguments devid {G}.
Arguments interrupt_source_group {G}.
Arguments masked {G}.
Arguments enabled {G}.

Inductive msix_error := EnableInterruptRoute (e : irq_error) | UpdateInterruptRoute (e : irq_error).

Record MsixConfigState := mkMsixState {
  ms_table_entries : list MsixTableEntry;
  ms_pba_entries : list Z;
  ms_masked : bool;
  ms_enabled : bool;
}.

Section msix.
Context {G : Type} `{InterruptSourceGroup G}.
Abbreviation C := (MsixConfig G).
Abbreviation IO A := (M C msix_error A).

Definition set_table (t : list MsixTableEntry) (c : C) : C :=
  mkMsix t (pba_entries c) (devid c) (interrupt_source_group c) (masked c) (enabled c).
Definition set_pba (p : list Z) (c : C) : C :=
  mkMsix (table_entries c) p (devid c) (interrupt_source_group c) (masked c) (enabled c).
Definition set_group (g : G) (c : C) : C :=
  mkMsix (table_entries c) (pba_entries c) (devid c) g (masked c) (enabled c).
Definition set_mask_enable (m e : bool) (c : C) : C :=
  mkMsix (table_entries c) (pba_entries c) (devid c) (interrupt_source_group c) m e.

(** A call of the group. *)
Definition on_group {E A} (m : M G irq_error A) : M C E (result irq_error A) := fun c =>
  match m (interrupt_source_group c) with
  | (Done a, g) => (Done (Ok a), set_group g c)
  | (Fail e, g) => (Done (Err e), set_group g c)
  | (Crashed, g) => (Crashed, set_group g c)
  end.

(** [None] where the assertion fails. *)
Definition msix_new (msix_vectors : Z) (g : G) (devid : Z) : option C :=
  if decide (msix_vectors <= MAX_MSIX_VECTORS_PER_DEVICE) then
    let num_pba_entries := Z.to_nat (msix_vectors / BITS_PER_PBA_ENTRY + 1) in
    Some (mkMsix (replicate (Z.to_nat msix_vectors) te_default) (replicate num_pba_entries 0) devid g true false)
  else None.

Definition msix_state (c : C) : MsixConfigState :=
  mkMsixState (table_entries c) (pba_entries c) (masked c) (enabled c).

Definition source_config (devid : Z) (e : MsixTableEntry) : MsiIrqSourceConfig :=
  mkMsi (msg_addr_hi e) (msg_addr_lo e) (msg_data e) devid.

Fixpoint restore_routes (idx : Z) (es : list MsixTableEntry) : IO unit :=
  match es with
  | [] => ret tt
  | e :: es =>
    (if te_masked e then ret tt
     else
       let* c := get in
       let* r := on_group (isg_update (wrap 32 idx) (MsiIrq (source_config (devid c) e)) (masked c)) in
       match r with Err x => throw (UpdateInterruptRoute x) | Ok _ =>
         let* r := on_group isg_enable in
         match r with Err x => throw (EnableInterruptRoute x) | Ok _ => ret tt end
       end) ;;;
    restore_routes (idx + 1) es
  end.

Definition set_state (st : MsixConfigState) : IO unit :=
  modify (fun c => mkMsix (ms_table_entries st) (ms_pba_entries st) (devid c) (interrupt_source_group c)
                     (ms_masked st) (ms_enabled st)) ;;;
  let* c := get in
  if enabled c && negb (masked c) then restore_routes 0 (table_entries c) else ret tt.

(** ** Pending bits

    The mask of the source is an [i32] that is cast to [u64]: in the release
    profile the amount of the shift is taken modulo 32, and the cast extends the
    sign. *)
Definition pba_mask (shift : Z) : Z :=
  let bit := Z.shiftl 1 (shift mod 32) in
  wrap 64 (if decide (2 ^ 31 <= bit) then bit - 2 ^ 32 else bit).

Definition pba_entry (vector : Z) : IO Z :=
  if decide (vector < MAX_MSIX_VECTORS_PER_DEVICE) then
    let* c := get in
    match pba_entries c !! Z.to_nat (vector / BITS_PER_PBA_ENTRY) with Some p => ret p | None => crash end
  else crash.

Definition set_pba_bit (vector : Z) (reset : bool) : IO unit :=
  let* p := pba_entry vector in
  let mask := pba_mask (vector mod BITS_PER_PBA_ENTRY) in
  let p := if reset then Z.land p (unot 64 mask) else Z.lor p mask in
  modify (fun c => set_pba (<[Z.to_nat (vector / BITS_PER_PBA_ENTRY) := p]> (pba_entries c)) c).

Definition get_pba_bit (vector : Z) : IO Z :=
  let* p := pba_entry vector in
  ret (Z.land (Z.shiftr p (vector mod BITS_PER_PBA_ENTRY)) 1).

Definition inject_msix_and_clear_pba (vector : Z) : IO unit :=
  on_group (isg_trigger (wrap 32 vector)) ;;;
  set_pba_bit (wrap 16 vector) true.

(** ** Message control *)
Fixpoint update_routes (idx : Z) (es : list MsixTableEntry) : IO unit :=
  match es with
  | [] => ret tt
  | e :: es =>
    let* c := get in
    on_group (isg_update (wrap 32 idx) (MsiIrq (source_config (devid c) e)) (te_masked e)) ;;;
    update_routes (idx + 1) es
  end.

Fixpoint inject_pending (index : Z) (es : list MsixTableEntry) : IO unit :=
  match es with
  | [] => ret tt
  | e :: es =>
    (if te_masked e then ret tt
     else let* b := get_pba_bit (wrap 16 index) in
          if decide (b = 1) then inject_msix_and_clear_pba index else ret tt) ;;;
    inject_pending (index + 1) es
  end.

Definition ctl_masked (reg : Z) : bool := bool_decide (Z.land (Z.shiftr reg FUNCTION_MASK_BIT) 1 = 1).
Definition ctl_enabled (reg : Z) : bool := bool_decide (Z.land (Z.shiftr reg MSIX_ENABLE_BIT) 1 = 1).

Definition set_msg_ctl (reg : Z) : IO unit :=
  let* old := get in
  let new_masked := ctl_masked reg in
  let new_enabled := ctl_enabled reg in
  modify (set_mask_enable new_masked new_enabled) ;;;
  (if xorb (masked old) new_masked || xorb (enabled old) new_enabled then
     if new_enabled && negb new_masked then update_routes 0 (table_entries old)
     else if enabled old || negb (masked old) then on_group isg_disable ;;; ret tt
     else ret tt
   else ret tt) ;;;
  if masked old && negb new_masked then inject_pending 0 (table_entries old) else ret tt.

(** ** Accesses of the guest to the table and to the pending bits

    Slices that are read into are results; [n] is their length. *)
Definition te_u32 (ofs : Z) (e : MsixTableEntry) : Z :=
  if decide (ofs = 0) then msg_addr_lo e
  else if decide (ofs = 4) then msg_addr_hi e
  else if decide (ofs = 8) then msg_data e
  else if decide (ofs = 12) then vector_ctl e
  else 0.
Definition te_u64 (ofs : Z) (e : MsixTableEntry) : Z :=
  if decide (ofs = 0) then Z.lor (Z.shiftl (msg_addr_hi e) 32) (msg_addr_lo e)
  else if decide (ofs = 8) then Z.lor (Z.shiftl (vector_ctl e) 32) (msg_data e)
  else 0.

Definition read_table (offset : Z) (n : nat) (c : C) : list Z :=
  if negb (bool_decide (n = 4%nat)) && negb (bool_decide (n = 8%nat)) then replicate n 255
  else
    let modulo_offset := offset mod MSIX_TABLE_ENTRIES_MODULO in
    match table_entries c !! Z.to_nat (offset / MSIX_TABLE_ENTRIES_MODULO) with
    | None => replicate n 255
    | Some e => if decide (n = 4%nat) then le_bytes 4 (te_u32 modulo_offset e) else le_bytes 8 (te_u64 modulo_offset e)
    end.

Definition te_set_u32 (ofs value : Z) (e : MsixTableEntry) : MsixTableEntry :=
  if decide (ofs = 0) then mkTE value (msg_addr_hi e) (msg_data e) (vector_ctl e)
  else if decide (ofs = 4) then mkTE (msg_addr_lo e) value (msg_data e) (vector_ctl e)
  else if decide (ofs = 8) then mkTE (msg_addr_lo e) (msg_addr_hi e) value (vector_ctl e)
  else if decide (ofs = 12) then mkTE (msg_addr_lo e) (msg_addr_hi e) (msg_data e) value
  else e.
Definition te_set_u64 (ofs value : Z) (e : MsixTableEntry) : MsixTableEntry :=
  let lo := wrap 32 (Z.land value 0xffffffff) in
  let hi := wrap 32 (Z.shiftr value 32) in
  if decide (ofs = 0) then mkTE lo hi (msg_data e) (vector_ctl e)
  else if decide (ofs = 8) then mkTE (msg_addr_lo e) (msg_addr_hi e) lo hi
  else e.

Definition write_table (offset : Z) (data : list Z) : IO unit :=
  if negb (bool_decide (length data = 4%nat)) && negb (bool_decide (length data = 8%nat)) then ret tt
  else
    let index := offset / MSIX_TABLE_ENTRIES_MODULO in
    let modulo_offset := offset mod MSIX_TABLE_ENTRIES_MODULO in
    let* c := get in
    match table_entries c !! Z.to_nat index with
    | None => ret tt
    | Some old_entry =>
      let table_entry :=
        if decide (length data = 4%nat) then te_set_u32 modulo_offset (le_value data) old_entry
        else te_set_u64 modulo_offset (le_value data) old_entry in
      modify (fun c => set_table (<[Z.to_nat index := table_entry]> (table_entries c)) c) ;;;
      if decide (old_entry = table_entry) then ret tt
      else
        (if enabled c && negb (masked c) && negb (te_masked table_entry) then
           on_group (isg_update (wrap 32 index) (MsiIrq (source_config (devid c) table_entry))
                       (te_masked table_entry)) ;;; ret tt
         else ret tt) ;;;
        if negb (masked c) && enabled c && te_masked old_entry && negb (te_masked table_entry) then
          let* b := get_pba_bit (wrap 16 index) in
          if decide (b = 1) then inject_msix_and_clear_pba index else ret tt
        else ret tt
    end.

Definition read_pba (offset : Z) (n : nat) (c : C) : list Z :=
  if negb (bool_decide (n = 4%nat)) && negb (bool_decide (n = 8%nat)) then replicate n 255
  else
    let modulo_offset := offset mod MSIX_PBA_ENTRIES_MODULO in
    match pba_entries c !! Z.to_nat (offset / MSIX_PBA_ENTRIES_MODULO) with
    | None => replicate n 255
    | Some p =>
      if decide (n = 4%nat) then
        le_bytes 4 (if decide (modulo_offset = 0) then wrap 32 (Z.land p 0xffffffff)
                    else if decide (modulo_offset = 4) then wrap 32 (Z.shiftr p 32) else 0)
      else le_bytes 8 (if decide (modulo_offset = 0) then p else 0)
    end.
Definition write_pba (offset : Z) (data : list Z) : IO unit := ret tt.

(** ** Interrupts of a virtio device

    The configuration change has a vector, and so has each queue; the guest sets
    them.  An index out of range panics. *)
Inductive VirtioInterruptType := ConfigInt | QueueInt (queue_index : Z).
Definition VIRTQ_MSI_NO_VECTOR : Z := 0xffff.

Definition trigger_vector (vector : Z) : M C irq_error unit :=
  if decide (vector = VIRTQ_MSI_NO_VECTOR) then ret tt
  else
    let* c := get in
    match table_entries c !! Z.to_nat vector with
    | None => crash
    | Some entry =>
      if masked c || te_masked entry then
        fun c => match set_pba_bit vector false c with
                 | (Crashed, c) => (Crashed, c)
                 | (_, c) => (Done tt, c)
                 end
      else let* r := on_group (isg_trigger vector) in of_result r
    end.

Definition virtio_trigger (config_vector : Z) (queues_vectors : list Z) (int_type : VirtioInterruptType)
  : M C irq_error unit :=
  match int_type with
  | ConfigInt => trigger_vector config_vector
  | QueueInt queue_index =>
    match queues_vectors !! Z.to_nat queue_index with
    | Some vector => trigger_vector vector
    | None => crash
    end
  end.
End msix.

(** ** The capability *)
Record MsixCap := mkMsixCap { cap_msg_ctl : Z; cap_table : Z; cap_pba : Z }.

(** [None] where the assertion fails. *)
Definition msix_cap_new (table_pci_bar table_size table_off pba_pci_bar pba_off : Z) : option MsixCap :=
  if decide (table_size < MAX_MSIX_VECTORS_PER_DEVICE) then
    Some (mkMsixCap (wsub 16 (wadd 16 0x8000 table_size) 1)
      (Z.lor (Z.land table_off 0xfffffff8) (Z.land table_pci_bar 7))
      (Z.lor (Z.land pba_off 0xfffffff8) (Z.land pba_pci_bar 7)))
  else None.

Definition msix_cap_bytes (cap : MsixCap) : list Z :=
  le_bytes 2 (cap_msg_ctl cap) ++ le_bytes 4 (cap_table cap) ++ le_bytes 4 (cap_pba cap).

Definition cap_ctl_bits : Z := Z.lor (Z.shiftl 1 FUNCTION_MASK_BIT) (Z.shiftl 1 MSIX_ENABLE_BIT).
Definition cap_set_msg_ctl (data : Z) (cap : MsixCap) : MsixCap :=
  mkMsixCap (Z.lor (Z.land (cap_msg_ctl cap) (unot 16 cap_ctl_bits)) (Z.land data cap_ctl_bits))
    (cap_table cap) (cap_pba cap).
Definition cap_masked (cap : MsixCap) : bool := ctl_masked (cap_msg_ctl cap).
Definition cap_enabled (cap : MsixCap) : bool := ctl_enabled (cap_msg_ctl cap).
Definition table_offset (cap : MsixCap) : Z := Z.land (cap_table cap) 0xfffffff8.
Definition pba_offset (cap : MsixCap) : Z := Z.land (cap_pba cap) 0xfffffff8.
Definition table_bir (cap : MsixCap) : Z := Z.land (cap_table cap) 7.
Definition pba_bir (cap : MsixCap) : Z := Z.land (cap_pba cap) 7.
Definition cap_table_size (cap : MsixCap) : Z := Z.land (cap_msg_ctl cap) 0x7ff + 1.
Definition table_range (cap : MsixCap) : Z * Z := (table_offset cap, cap_table_size cap * 16).
Definition pba_range (cap : MsixCap) : Z * Z := (pba_offset cap, (cap_table_size cap / 64 + 1) * 8).
