(* ===== verification/MsixProofs.v ===== *)
(** MSI-X delivers every interrupt: what a device raises reaches the guest once,
    at once or when the guest opens the vector, with the message the guest
    programmed. *)
From stdpp Require Import base numbers gmap list.
From Stdlib Require Import Btauto.
From S2P Require Import Prelude Bytes VmResources IrqGroup Msix.
#[local] Open Scope Z_scope.

(** ** Traces of interrupts *)
Inductive event := Raise (n : Z) | Fire (n : Z).

(** Whether the interrupt [n] was raised after it last fired. *)
Definition pending (tr : list event) (n : Z) : bool :=
  foldl (fun b e => match e with
                    | Raise m => if decide (m = n) then true else b
                    | Fire m => if decide (m = n) then false else b
                    end) false tr.
Definition fires (tr : list event) : list Z :=
  omap (fun e => match e with Fire n => Some n | Raise _ => None end) tr.
(** An interrupt fires only when it was raised. *)
Definition no_spurious (tr : list event) : Prop :=
  forall tr1 n tr2, tr = tr1 ++ Fire n :: tr2 -> pending tr1 n = true.

Lemma pending_snoc tr e n :
  pending (tr ++ [e]) n = match e with
                          | Raise m => if decide (m = n) then true else pending tr n
                          | Fire m => if decide (m = n) then false else pending tr n
                          end.
Proof. unfold pending. by rewrite foldl_app. Qed.
Lemma fires_app tr tr' : fires (tr ++ tr') = fires tr ++ fires tr'.
Proof. apply omap_app. Qed.
Lemma fires_Fire ns : fires (Fire <$> ns) = ns.
Proof. induction ns as [|n ns IH]; [done|]. cbn. by f_equal. Qed.
Lemma no_spurious_snoc tr e :
  no_spurious tr -> (forall n, e = Fire n -> pending tr n = true) -> no_spurious (tr ++ [e]).
Proof.
  intros Htr He tr1 n tr2 Heq. destruct tr2 as [|e' tr2 _] using rev_ind.
  - apply app_inj_tail in Heq as [<- ->]. by apply He.
  - rewrite app_comm_cons, app_assoc in Heq. apply app_inj_tail in Heq as [-> _]. by eapply Htr.
Qed.

(** ** Pending bits *)
Lemma pba_mask_small v : 0 <= v < 31 -> pba_mask (v mod 64) = 2 ^ v.
Proof.
  intros Hv. unfold pba_mask. rewrite (Z.mod_small v 64), (Z.mod_small v 32) by lia. rewrite Z.shiftl_1_l.
  assert (2 ^ v < 2 ^ 31) by (apply Z.pow_lt_mono_r; lia). assert (0 < 2 ^ v) by (apply Z.pow_pos_nonneg; lia).
  rewrite decide_False by lia. apply wrap_small. unfold in_width. lia.
Qed.

Section proofs.
Context {G : Type} `{GroupLaws G}.
Abbreviation C := (MsixConfig G).
Implicit Types (c : C) (g : G) (tr es : list event).

(** At most 31 vectors, so that the mask of the source has the right bit. *)
Record msix_wf c : Prop := {
  wf_vectors : (length (table_entries c) <= 31)%nat;
  wf_pba : length (pba_entries c) = 1%nat;
  wf_group : group_ok (interrupt_source_group c);
  wf_shape : forall i, (i < length (table_entries c))%nat ->
    is_Some (shape (interrupt_source_group c) !! Z.of_nat i);
}.
Definition pba_bit c (i : nat) : bool := Z.testbit (nth 0 (pba_entries c) 0) (Z.of_nat i).
Definition shp c : gmap Z Z := shape (interrupt_source_group c).
Definition fird c : list Z := fired (interrupt_source_group c).
Definition rout c (i : nat) (e : MsixTableEntry) : Prop :=
  routed (interrupt_source_group c) (Z.of_nat i) (source_config (devid c) e).

Lemma pba_lookup c : msix_wf c -> pba_entries c !! 0%nat = Some (nth 0 (pba_entries c) 0).
Proof. intros Hwf. pose proof (wf_pba _ Hwf) as Hl. by destruct (pba_entries c). Qed.
Lemma pba_insert c p : msix_wf c -> <[0%nat := p]> (pba_entries c) = [p].
Proof. intros Hwf. pose proof (wf_pba _ Hwf) as Hl. by destruct (pba_entries c) as [|q [|]]. Qed.

Lemma pba_entry_ok c i :
  msix_wf c -> (i < length (table_entries c))%nat ->
  pba_entry (Z.of_nat i) c = (Done (nth 0 (pba_entries c) 0), c).
Proof.
  intros Hwf Hi. pose proof (wf_vectors _ Hwf). unfold pba_entry, MAX_MSIX_VECTORS_PER_DEVICE.
  rewrite decide_True by lia. rewrite bind_get. unfold BITS_PER_PBA_ENTRY.
  rewrite Z.div_small by lia. change (Z.to_nat 0) with 0%nat. by rewrite (pba_lookup c Hwf).
Qed.

Lemma get_pba_bit_ok c i :
  msix_wf c -> (i < length (table_entries c))%nat ->
  get_pba_bit (Z.of_nat i) c = (Done (Z.b2z (pba_bit c i)), c).
Proof.
  intros Hwf Hi. pose proof (wf_vectors _ Hwf). unfold get_pba_bit. rewrite (bind_done _ _ _ _ _ (pba_entry_ok c i Hwf Hi)).
  unfold BITS_PER_PBA_ENTRY. rewrite Z.mod_small by lia. unfold ret, pba_bit. do 2 f_equal.
  change 1 with (Z.ones 1) at 1. rewrite Z.land_ones, <- Z.bit0_mod, Z.shiftr_spec by lia. by rewrite Z.add_0_l.
Qed.

Lemma set_pba_bit_ok c i reset :
  msix_wf c -> (i < length (table_entries c))%nat ->
  exists p, set_pba_bit (Z.of_nat i) reset c = (Done tt, set_pba [p] c) /\
    forall j, (j < 31)%nat -> pba_bit (set_pba [p] c) j = if decide (j = i) then negb reset else pba_bit c j.
Proof.
  intros Hwf Hi. pose proof (wf_vectors _ Hwf). unfold set_pba_bit.
  rewrite (bind_done _ _ _ _ _ (pba_entry_ok c i Hwf Hi)).
  unfold BITS_PER_PBA_ENTRY. rewrite pba_mask_small by lia. rewrite (Z.div_small (Z.of_nat i) 64) by lia.
  set (p := if reset then _ else _). exists p. split; [unfold modify; by rewrite pba_insert|].
  intros j Hj. unfold pba_bit, p. cbn [set_pba pba_entries nth].
  assert (Hb : Z.testbit (2 ^ Z.of_nat i) (Z.of_nat j) = bool_decide (j = i)).
  { rewrite Z.pow2_bits_eqb by lia. destruct (Z.eqb_spec (Z.of_nat i) (Z.of_nat j)); case_bool_decide; lia || done. }
  destruct (decide (j = i)) as [Heq|Hne]; [rewrite bool_decide_true in Hb by done|rewrite bool_decide_false in Hb by done];
    destruct reset; rewrite ?Z.land_spec, ?Z.lor_spec, ?unot_testbit, Hb by lia; cbn; btauto.
Qed.

(** The trace so far agrees with the pending bits. *)
Definition good c tr : Prop :=
  no_spurious tr /\
  forall i n, (i < length (table_entries c))%nat -> shp c !! Z.of_nat i = Some n -> pba_bit c i = pending tr n.

(** From [c] to [c'] the events [es] happen; the table and the flags stay. *)
Record steps c c' es : Prop := {
  st_table : table_entries c' = table_entries c;
  st_devid : devid c' = devid c;
  st_masked : masked c' = masked c;
  st_enabled : enabled c' = enabled c;
  st_wf : msix_wf c';
  st_shape : shp c' = shp c;
  st_fired : fird c' = fird c ++ fires es;
  st_routed : forall i e, rout c' i e <-> rout c i e;
  st_good : forall tr, good c tr -> good c' (tr ++ es);
}.

Lemma steps_refl c : msix_wf c -> steps c c [].
Proof. intros Hwf. split; try done; [by rewrite app_nil_r|intros tr; by rewrite app_nil_r]. Qed.
Lemma steps_trans c c1 c2 es es' : steps c c1 es -> steps c1 c2 es' -> steps c c2 (es ++ es').
Proof.
  intros [Ht Hd Hm He Hwf Hs Hf Hr Hg] [Ht' Hd' Hm' He' Hwf' Hs' Hf' Hr' Hg'].
  split; try congruence.
  - by rewrite Hf', Hf, fires_app, app_assoc.
  - intros i e. by rewrite Hr', Hr.
  - intros tr Htr. rewrite app_assoc. auto.
Qed.

Lemma wf_set c c' :
  msix_wf c -> table_entries c' = table_entries c -> length (pba_entries c') = 1%nat ->
  group_ok (interrupt_source_group c') -> shp c' = shp c -> msix_wf c'.
Proof. intros [Hn Hp Hg Hs] Ht Hp' Hg' Hs'. split; rewrite ?Ht; try done. unfold shp in Hs'. by rewrite Hs'. Qed.

Lemma pba_bit_group g c i : pba_bit (set_group g c) i = pba_bit c i.
Proof. done. Qed.

(** Two vectors have different interrupts. *)
Lemma shp_inj c i j n : msix_wf c -> shp c !! Z.of_nat i = Some n -> shp c !! Z.of_nat j = Some n -> j = i.
Proof. intros Hwf Hi Hj. pose proof (shape_inj _ _ _ _ (wf_group _ Hwf) Hj Hi). lia. Qed.

Lemma wrap16 c i : msix_wf c -> (i < length (table_entries c))%nat -> wrap 16 (Z.of_nat i) = Z.of_nat i.
Proof. intros Hwf Hi. pose proof (wf_vectors _ Hwf). apply wrap_small. unfold in_width. lia. Qed.
Lemma wrap32 c i : msix_wf c -> (i < length (table_entries c))%nat -> wrap 32 (Z.of_nat i) = Z.of_nat i.
Proof. intros Hwf Hi. pose proof (wf_vectors _ Hwf). apply wrap_small. unfold in_width. lia. Qed.

Lemma fire_ok c i n :
  msix_wf c -> (i < length (table_entries c))%nat -> shp c !! Z.of_nat i = Some n -> pba_bit c i = true ->
  exists c', inject_msix_and_clear_pba (Z.of_nat i) c = (Done tt, c') /\ steps c c' [Fire n] /\
    forall j, (j < length (table_entries c))%nat -> pba_bit c' j = if decide (j = i) then false else pba_bit c j.
Proof.
  intros Hwf Hi Hn Hb. unfold inject_msix_and_clear_pba. rewrite (wrap16 c i), (wrap32 c i) by done.
  destruct (isg_trigger_spec _ _ _ (wf_group _ Hwf) Hn) as (g & Hrun & Hok & Hsh & Hf & Hr).
  set (c1 := set_group g c).
  assert (Hrun1 : on_group (E := msix_error) (isg_trigger (Z.of_nat i)) c = (Done (Ok tt), c1)).
  { unfold on_group. by rewrite Hrun. }
  rewrite (bind_done _ _ _ _ _ Hrun1).
  assert (Hwf1 : msix_wf c1) by (eapply wf_set; [exact Hwf|done|apply (wf_pba _ Hwf)|done|done]).
  destruct (set_pba_bit_ok c1 i true Hwf1 Hi) as (p & Hrun2 & Hbits). pose proof (wf_vectors _ Hwf) as Hlen.
  exists (set_pba [p] c1). split; [done|]. split; [|intros j Hj; by apply (Hbits j ltac:(lia))].
  split; try done.
  - by eapply wf_set.
  - intros j e. apply Hr.
  - intros tr [Hns Hbit]. split.
    + apply no_spurious_snoc; [done|]. intros m [= <-]. rewrite <- (Hbit i n); done.
    + intros j m Hj Hm. cbn in Hj. rewrite Hbits by lia. rewrite pending_snoc.
      assert (Hm' : shp c !! Z.of_nat j = Some m) by (unfold shp in *; cbn in Hm; by rewrite <- Hsh).
      destruct (decide (j = i)) as [->|Hne]; [rewrite decide_True; [done|congruence]|].
      rewrite decide_False; [by apply Hbit|]. intros ->. apply Hne. by apply (shp_inj c i j m).
Qed.

Lemma lookup_shp c i : msix_wf c -> (i < length (table_entries c))%nat -> exists n, shp c !! Z.of_nat i = Some n.
Proof. intros Hwf Hi. destruct (wf_shape _ Hwf i Hi) as [n Hn]. by exists n. Qed.

(** Delivering a vector if it is pending. *)
Lemma inject_if_pending c i :
  msix_wf c -> (i < length (table_entries c))%nat ->
  exists c' ns, (let* b := get_pba_bit (wrap 16 (Z.of_nat i)) in
      if decide (b = 1) then inject_msix_and_clear_pba (Z.of_nat i) else ret tt) c = (Done tt, c') /\
    steps c c' (Fire <$> ns) /\ pba_bit c' i = false /\
    forall j, (j < length (table_entries c))%nat -> pba_bit c j = false -> pba_bit c' j = false.
Proof.
  intros Hwf Hi. rewrite (wrap16 c i) by done. rewrite (bind_done _ _ _ _ _ (get_pba_bit_ok c i Hwf Hi)).
  destruct (pba_bit c i) eqn:Hb; cbn [Z.b2z]; [|exists c, []; split_and!; try done; by apply steps_refl].
  destruct (lookup_shp c i Hwf Hi) as [n Hn].
  destruct (fire_ok c i n Hwf Hi Hn Hb) as (c1 & Hrun & Hst & Hbits). exists c1, [n]. split_and!; try done.
  - rewrite Hbits by done. by rewrite decide_True.
  - intros j Hj Hbj. rewrite Hbits by done. by case_decide.
Qed.

Lemma inject_pending_ok l : forall pre c,
  msix_wf c -> table_entries c = pre ++ l ->
  exists c' ns, inject_pending (Z.of_nat (length pre)) l c = (Done tt, c') /\ steps c c' (Fire <$> ns) /\
    forall i e, table_entries c !! i = Some e -> pba_bit c i = false \/ ((length pre <= i)%nat /\ te_masked e = false) ->
      pba_bit c' i = false.
Proof.
  induction l as [|e l IH]; intros pre c Hwf Ht; cbn [inject_pending].
  { exists c, []. split; [done|]. split; [by apply steps_refl|]. rewrite app_nil_r in Ht.
    intros i e Hi [|[Hle _]]; [done|]. apply lookup_lt_Some in Hi. rewrite Ht in Hi. lia. }
  assert (Hi : (length pre < length (table_entries c))%nat) by (rewrite Ht, length_app; cbn; lia).
  assert (Hei : table_entries c !! length pre = Some e) by (rewrite Ht; by apply list_lookup_middle).
  assert (Hstep : exists c1 ns1, (if te_masked e then ret tt
        else let* b := get_pba_bit (wrap 16 (Z.of_nat (length pre))) in
             if decide (b = 1) then inject_msix_and_clear_pba (Z.of_nat (length pre)) else ret tt) c = (Done tt, c1) /\
      steps c c1 (Fire <$> ns1) /\ (te_masked e = false -> pba_bit c1 (length pre) = false) /\
      forall j, (j < length (table_entries c))%nat -> pba_bit c j = false -> pba_bit c1 j = false).
  { destruct (te_masked e); [exists c, []; split_and!; try done; by apply steps_refl|].
    destruct (inject_if_pending c _ Hwf Hi) as (c1 & ns1 & ? & ? & ? & ?). by exists c1, ns1. }
  destruct Hstep as (c1 & ns1 & Hrun & Hst & Hclr & Hkeep). rewrite (bind_done _ _ _ _ _ Hrun).
  destruct (IH (pre ++ [e]) c1) as (c2 & ns2 & Hrun2 & Hst2 & Hclr2); [apply Hst|by rewrite (st_table _ _ _ Hst), <- app_assoc|].
  exists c2, (ns1 ++ ns2). rewrite length_app, Nat2Z.inj_add in Hrun2. split; [done|]. split; [rewrite fmap_app; by eapply steps_trans|].
  intros j ej Hj Hor. apply (Hclr2 j ej); [by rewrite (st_table _ _ _ Hst)|].
  pose proof (lookup_lt_Some _ _ _ Hj) as Hlt. rewrite length_app. cbn.
  destruct Hor as [Hb|[Hle Hm]]; [left; by apply Hkeep|].
  destruct (decide (j = length pre)) as [->|Hne]; [left; rewrite Hei in Hj; simplify_eq; by apply Hclr|].
  right. split; [lia|done].
Qed.

(** Updating the routes of all vectors. *)
Lemma update_routes_ok l : forall pre c,
  msix_wf c -> table_entries c = pre ++ l ->
  exists g, update_routes (Z.of_nat (length pre)) l c = (Done tt, set_group g c) /\ group_ok g /\
    shape g = shp c /\ fired g = fird c /\
    (forall i e, pre !! i = Some e -> rout (set_group g c) i e <-> rout c i e) /\
    (forall k e, l !! k = Some e -> te_masked e = false -> rout (set_group g c) (length pre + k) e).
Proof.
  induction l as [|e l IH]; intros pre c Hwf Ht; cbn [update_routes].
  { exists (interrupt_source_group c). split; [by destruct c|]. split_and!; try done. apply Hwf. }
  assert (Hi : (length pre < length (table_entries c))%nat) by (rewrite Ht, length_app; cbn; lia).
  rewrite bind_get, (wrap32 c (length pre)) by done.
  destruct (isg_update_spec _ (Z.of_nat (length pre)) (source_config (devid c) e) (te_masked e)
    (wf_group _ Hwf) (wf_shape _ Hwf _ Hi)) as (g & Hrun & Hok & Hsh & Hf & Hon & _ & Hother).
  assert (Hrun1 : on_group (E := msix_error) (isg_update (Z.of_nat (length pre)) (MsiIrq (source_config (devid c) e))
      (te_masked e)) c = (Done (Ok tt), set_group g c)) by (unfold on_group; by rewrite Hrun).
  rewrite (bind_done _ _ _ _ _ Hrun1).
  destruct (IH (pre ++ [e]) (set_group g c)) as (g2 & Hrun2 & Hok2 & Hsh2 & Hf2 & Hpre & Hnew).
  { eapply wf_set; [exact Hwf|done|apply Hwf|done|done]. }
  { by rewrite <- app_assoc. }
  exists g2. rewrite length_app, Nat2Z.inj_add in Hrun2. split; [exact Hrun2|]. split; [done|].
  split; [by rewrite Hsh2|]. split; [by rewrite Hf2|]. split.
  - intros i ei Hi'. rewrite (Hpre i ei) by (apply lookup_app_l_Some; done).
    apply lookup_lt_Some in Hi'. apply Hother. lia.
  - intros [|k] ek Hk Hm; cbn in Hk; simplify_eq.
    + rewrite Nat.add_0_r. apply (Hpre _ ek); [by apply list_lookup_middle|]. by apply Hon.
    + replace (length pre + S k)%nat with (length (pre ++ [e]) + k)%nat by (rewrite length_app; cbn; lia).
      by apply Hnew.
Qed.

(** ** The invariant

    The vector [i] can be delivered. *)
Definition open c (i : nat) (e : MsixTableEntry) : Prop :=
  table_entries c !! i = Some e /\ enabled c = true /\ masked c = false /\ te_masked e = false.

(** [F] are the interrupts that fired before the trace. *)
Record inv (F : list Z) c tr : Prop := {
  inv_wf : msix_wf c;
  inv_good : good c tr;
  inv_fired : fird c = F ++ fires tr;
  inv_open : forall i e, open c i e -> rout c i e /\ pba_bit c i = false;
}.

(** The same configuration but for the group and the flags. *)
Lemma good_set c c' tr :
  good c tr -> table_entries c' = table_entries c -> pba_entries c' = pba_entries c -> shp c' = shp c -> good c' tr.
Proof. intros [Hns Hb] Ht Hp Hs. split; [done|]. unfold pba_bit in *. rewrite Ht, Hp, Hs. done. Qed.

Definition ctl_routes (old : C) (reg : Z) : M C msix_error unit :=
  if xorb (masked old) (ctl_masked reg) || xorb (enabled old) (ctl_enabled reg) then
    if ctl_enabled reg && negb (ctl_masked reg) then update_routes 0 (table_entries old)
    else if enabled old || negb (masked old) then on_group isg_disable ;;; ret tt
    else ret tt
  else ret tt.

Lemma ctl_routes_ok F c tr reg :
  inv F c tr -> let c0 := set_mask_enable (ctl_masked reg) (ctl_enabled reg) c in
  exists g, ctl_routes c reg c0 = (Done tt, set_group g c0) /\ group_ok g /\ shape g = shp c /\ fired g = fird c /\
    (ctl_enabled reg = true -> ctl_masked reg = false -> forall i e, table_entries c !! i = Some e ->
      te_masked e = false -> rout (set_group g c) i e).
Proof.
  intros [Hwf Hg Hf Hopen] c0. unfold ctl_routes.
  assert (Hwf0 : msix_wf c0) by (eapply wf_set; [exact Hwf|done|apply Hwf|apply Hwf|done]).
  destruct (xorb _ _ || xorb _ _) eqn:Hx.
  2: { exists (interrupt_source_group c). apply orb_false_iff in Hx as [Hm%xorb_eq He%xorb_eq].
       split; [by destruct c|]. split; [apply Hwf|]. split_and!; [done|done|].
       intros Hen Hma i e Hi Hte. destruct (Hopen i e) as [Hr _]; [split_and!; congruence|by destruct c]. }
  destruct (ctl_enabled reg && negb (ctl_masked reg)) eqn:Hon.
  - destruct (update_routes_ok (table_entries c) [] c0 Hwf0 eq_refl) as (g & Hrun & Hok & Hsh & Hf' & _ & Hnew).
    exists g. do 4 (split; [done|]). intros _ _ i e Hi Hte. by apply (Hnew i e).
  - assert (Hoff : ctl_enabled reg = true -> ctl_masked reg = false -> False).
    { intros He Hm. by rewrite He, Hm in Hon. }
    destruct (enabled c || negb (masked c)).
    + destruct (isg_disable_spec _ (wf_group _ Hwf0)) as (g & Hrun & Hok & Hsh & Hf' & _).
      exists g. split; [unfold bind, on_group; by rewrite Hrun|].
      split_and!; try done. intros; by destruct Hoff.
    + exists (interrupt_source_group c). split; [by destruct c|]. split_and!; try done; [apply Hwf|].
      intros; by destruct Hoff.
Qed.

Lemma set_msg_ctl_ok F c tr reg :
  inv F c tr -> (ctl_enabled reg = true -> ctl_masked reg = false -> enabled c = true \/ masked c = true) ->
  exists c' ns, set_msg_ctl reg c = (Done tt, c') /\ inv F c' (tr ++ (Fire <$> ns)) /\ fird c' = fird c ++ ns /\
    length (table_entries c') = length (table_entries c) /\ shp c' = shp c /\
    masked c' = ctl_masked reg /\ enabled c' = ctl_enabled reg /\ devid c' = devid c.
Proof.
  intros Hinv Hctl. pose proof Hinv as [Hwf Hg Hf Hopen].
  destruct (ctl_routes_ok F c tr reg Hinv) as (g & Hrun & Hok & Hsh & Hf' & Hrt).
  set (c1 := set_group g (set_mask_enable (ctl_masked reg) (ctl_enabled reg) c)) in *.
  assert (Hwf1 : msix_wf c1) by (eapply wf_set; [exact Hwf|done|apply Hwf|done|done]).
  assert (Hg1 : good c1 tr) by (by eapply good_set).
  unfold set_msg_ctl. rewrite bind_get, bind_modify. fold (ctl_routes c reg). rewrite (bind_done _ _ _ _ _ Hrun).
  assert (Hfin : exists c2 ns, (if masked c && negb (ctl_masked reg) then inject_pending 0 (table_entries c)
      else ret tt) c1 = (Done tt, c2) /\ steps c1 c2 (Fire <$> ns) /\
      forall i e, open c1 i e -> pba_bit c2 i = false).
  { destruct (masked c && negb (ctl_masked reg)) eqn:Hm.
    - destruct (inject_pending_ok (table_entries c) [] c1 Hwf1 eq_refl) as (c2 & ns & Hrun2 & Hst & Hclr).
      exists c2, ns. split_and!; try done.
      intros i e (Hi & _ & _ & Hte). apply (Hclr i e Hi). right. split; [cbn; lia|done].
    - exists c1, []. split_and!; try done; [by apply steps_refl|]. intros i e (Hi & Hen & Hma & Hte).
      cbn in Hi, Hen, Hma. rewrite Hma, andb_true_r in Hm. destruct (Hctl Hen Hma) as [He|]; [|congruence].
      by destruct (Hopen i e) as [_ Hb]. }
  destruct Hfin as (c2 & ns & Hrun2 & Hst & Hclr). exists c2, ns. split; [done|].
  destruct Hst as [Ht Hd Hm He Hwf2 Hs2 Hfi Hro Hgo]. rewrite fires_Fire in Hfi. split_and!; try done.
  - split; [done|by apply Hgo| |].
    + rewrite Hfi, fires_app, fires_Fire, app_assoc, <- Hf. f_equal. done.
    + intros i e Ho. assert (Ho1 : open c1 i e) by (unfold open in *; by rewrite Ht, Hm, He in Ho).
      split; [|by apply (Hclr i e)]. apply Hro. destruct Ho1 as (Hi & Hen & Hma & Hte). by apply Hrt.
  - by rewrite Hfi, <- Hf'.
  - by rewrite Ht.
  - by rewrite Hs2.
Qed.

(** Changing the entry [i], and its route when it is open after that. *)
Definition entry_routes (i : Z) (c : C) (e : MsixTableEntry) : M C msix_error unit :=
  if enabled c && negb (masked c) && negb (te_masked e) then
    on_group (isg_update (wrap 32 i) (MsiIrq (source_config (devid c) e)) (te_masked e)) ;;; ret tt
  else ret tt.

Lemma entry_routes_ok F c tr i old e :
  inv F c tr -> table_entries c !! i = Some old ->
  let c0 := set_table (<[i := e]> (table_entries c)) c in
  exists g, entry_routes (Z.of_nat i) c e c0 = (Done tt, set_group g c0) /\ group_ok g /\
    shape g = shp c /\ fired g = fird c /\ forall j ej, open (set_group g c0) j ej -> rout (set_group g c0) j ej.
Proof.
  intros [Hwf Hg Hf Hopen] Hi c0. pose proof (lookup_lt_Some _ _ _ Hi) as Hlt. unfold entry_routes.
  assert (Hne : forall g j ej, j <> i -> open (set_group g c0) j ej -> rout c j ej).
  { intros g j ej Hne (Hj & Hen & Hma & Hte). cbn in Hj. rewrite list_lookup_insert_ne in Hj by done.
    by apply Hopen. }
  destruct (enabled c && negb (masked c) && negb (te_masked e)) eqn:Ho.
  - rewrite (wrap32 c i) by done.
    destruct (isg_update_spec _ (Z.of_nat i) (source_config (devid c) e) (te_masked e)
      (wf_group _ Hwf) (wf_shape _ Hwf _ Hlt)) as (g & Hrun & Hok & Hsh & Hf' & Hon & _ & Hother).
    exists g. split; [unfold bind, on_group; cbn; by rewrite Hrun|]. do 3 (split; [done|]).
    intros j ej Hj. destruct (decide (j = i)) as [->|Hji].
    + destruct Hj as (Hj & _ & _ & Hte). cbn in Hj. rewrite list_lookup_insert_eq in Hj by done. simplify_eq.
      by apply Hon.
    + apply Hother; [lia|]. by apply (Hne g).
  - exists (interrupt_source_group c). split; [by destruct c|]. split; [apply Hwf|]. do 2 (split; [done|]).
    intros j ej Hj. destruct (decide (j = i)) as [->|Hji]; [|by apply (Hne _ _ _ Hji Hj)].
    destruct Hj as (Hj & Hen & Hma & Hte). cbn in Hj, Hen, Hma. rewrite list_lookup_insert_eq in Hj by done.
    simplify_eq. by rewrite Hen, Hma, Hte in Ho.
Qed.

Lemma inv_table_id F c tr i e : inv F c tr -> table_entries c !! i = Some e ->
  set_table (<[i := e]> (table_entries c)) c = c.
Proof. intros _ Hi. rewrite list_insert_id by done. by destruct c. Qed.

Definition entry_inject (i : Z) (c : C) (old e : MsixTableEntry) : M C msix_error unit :=
  if negb (masked c) && enabled c && te_masked old && negb (te_masked e) then
    let* b := get_pba_bit (wrap 16 i) in
    if decide (b = 1) then inject_msix_and_clear_pba i else ret tt
  else ret tt.

(** What an operation that raises nothing does. *)
Definition fires_only F c tr (r : outcome msix_error unit * C) : Prop :=
  exists c' ns, r = (Done tt, c') /\ inv F c' (tr ++ (Fire <$> ns)) /\ fird c' = fird c ++ ns /\
    length (table_entries c') = length (table_entries c) /\ shp c' = shp c /\
    masked c' = masked c /\ enabled c' = enabled c /\ devid c' = devid c.

Lemma fires_nothing F c tr : inv F c tr -> fires_only F c tr (Done tt, c).
Proof. intros Hinv. exists c, []. by rewrite !app_nil_r. Qed.

Lemma entry_change_ok F c tr i old e :
  inv F c tr -> table_entries c !! i = Some old ->
  fires_only F c tr ((entry_routes (Z.of_nat i) c e ;;; entry_inject (Z.of_nat i) c old e)
    (set_table (<[i := e]> (table_entries c)) c)).
Proof.
  intros Hinv Hold. pose proof Hinv as [Hwf Hg Hf Hopen]. pose proof (lookup_lt_Some _ _ _ Hold) as Hlt.
  destruct (entry_routes_ok F c tr i old e Hinv Hold) as (g & Hrun & Hok & Hsh & Hf' & Hrt).
  rewrite (bind_done _ _ _ _ _ Hrun). set (c1 := set_group g (set_table (<[i := e]> (table_entries c)) c)) in *.
  assert (Hlen : length (table_entries c1) = length (table_entries c)) by apply length_insert.
  assert (Hwf1 : msix_wf c1).
  { destruct Hwf as [Hn Hp Hgo Hs]. split; rewrite ?Hlen; try done. cbn. by rewrite Hsh. }
  assert (Hg1 : good c1 tr).
  { destruct Hg as [Hns Hb]. split; [done|]. rewrite Hlen. intros j n Hj Hn. apply Hb; [done|].
    unfold shp in *. cbn in Hn. by rewrite <- Hsh. }
  assert (Hbit : forall j ej, open c1 j ej -> te_masked old = false \/ j <> i -> pba_bit c1 j = false).
  { intros j ej (Hj & Hen & Hma & Hte) Hor. destruct (decide (j = i)) as [->|Hji].
    - destruct Hor as [Ho|]; [|done]. by destruct (Hopen i old).
    - cbn in Hj. rewrite list_lookup_insert_ne in Hj by done. by destruct (Hopen j ej). }
  assert (Hfin : exists c2 ns, entry_inject (Z.of_nat i) c old e c1 = (Done tt, c2) /\ steps c1 c2 (Fire <$> ns) /\
      forall j ej, open c1 j ej -> pba_bit c2 j = false).
  { unfold entry_inject. destruct (negb _ && _ && _ && _) eqn:Hc.
    - destruct (inject_if_pending c1 i Hwf1) as (c2 & ns & Hrun2 & Hst & Hclr & Hkeep); [by rewrite Hlen|].
      exists c2, ns. split_and!; try done. intros j ej Hj. destruct (decide (j = i)) as [->|Hji]; [done|].
      apply Hkeep; [destruct Hj as [Hj _]; by eapply lookup_lt_Some|]. by apply (Hbit j ej); [|right].
    - exists c1, []. split_and!; try done; [by apply steps_refl|]. intros j ej Hj. apply (Hbit j ej); [done|].
      destruct (decide (j = i)) as [->|Hji]; [left|by right]. destruct Hj as (Hj & Hen & Hma & Hte).
      cbn in Hj, Hen, Hma. rewrite list_lookup_insert_eq in Hj by done. simplify_eq.
      rewrite Hen, Hma, Hte in Hc. by destruct (te_masked old). }
  destruct Hfin as (c2 & ns & Hrun2 & [Ht Hd Hm He Hwf2 Hs2 Hfi Hro Hgo] & Hclr). exists c2, ns.
  rewrite fires_Fire in Hfi. split; [done|]. split_and!; [|by rewrite Hfi, <- Hf'|by rewrite Ht|by rewrite Hs2|done..].
  split; [done|by apply Hgo| |].
  - rewrite Hfi, fires_app, fires_Fire, app_assoc, <- Hf. f_equal. done.
  - intros j ej Ho. assert (Ho1 : open c1 j ej) by (unfold open in *; by rewrite Ht, Hm, He in Ho).
    split; [by apply Hro, Hrt|by apply (Hclr j ej)].
Qed.

Lemma write_table_ok F c tr offset data :
  inv F c tr -> 0 <= offset -> fires_only F c tr (write_table offset data c).
Proof.
  intros Hinv Hoff. unfold write_table. destruct (negb _ && negb _); [by apply fires_nothing|]. rewrite bind_get.
  set (i := Z.to_nat (offset / MSIX_TABLE_ENTRIES_MODULO)).
  assert (Hi : offset / MSIX_TABLE_ENTRIES_MODULO = Z.of_nat i).
  { unfold i. rewrite Z2Nat.id; [done|]. by apply Z.div_pos. }
  rewrite Hi. destruct (table_entries c !! i) as [old|] eqn:Hold; [|by apply fires_nothing].
  set (e := if decide (length data = 4%nat) then _ else _). rewrite bind_modify.
  case_decide as Heq; [rewrite <- Heq, list_insert_id by done; destruct c; by apply fires_nothing|].
  by apply (entry_change_ok F c tr i old e).
Qed.

(** ** Raising an interrupt *)
Lemma trigger_ok F c tr i n :
  inv F c tr -> (i < length (table_entries c))%nat -> shp c !! Z.of_nat i = Some n ->
  enabled c = true \/ masked c = true ->
  exists c' ns, trigger_vector (Z.of_nat i) c = (Done tt, c') /\ inv F c' (tr ++ Raise n :: (Fire <$> ns)) /\
    fird c' = fird c ++ ns /\ length (table_entries c') = length (table_entries c) /\ shp c' = shp c /\
    masked c' = masked c /\ enabled c' = enabled c /\ devid c' = devid c.
Proof.
  intros [Hwf [Hns Hb] Hf Hopen] Hi Hn Hen. pose proof (wf_vectors _ Hwf) as Hlen. unfold trigger_vector.
  rewrite decide_False by (unfold VIRTQ_MSI_NO_VECTOR; lia). rewrite bind_get, Nat2Z.id.
  destruct (lookup_lt_is_Some_2 _ _ Hi) as [e He]. rewrite He.
  destruct (masked c || te_masked e) eqn:Hm.
  - destruct (set_pba_bit_ok c i false Hwf Hi) as (p & Hrun & Hbits). rewrite Hrun.
    exists (set_pba [p] c), []. rewrite app_nil_r. split_and!; try done.
    split; [eapply wf_set; [exact Hwf|done|done|apply Hwf|done]|split| |].
    + by apply no_spurious_snoc.
    + intros j m Hj Hm'. change (shp (set_pba [p] c)) with (shp c) in Hm'. rewrite Hbits by (cbn in Hj; lia). cbn [fmap list_fmap]. rewrite pending_snoc.
      destruct (decide (j = i)) as [->|Hne]; [rewrite decide_True; [done|congruence]|].
      rewrite decide_False; [by apply Hb|]. intros ->. apply Hne. by apply (shp_inj c i j m).
    + cbn [fmap list_fmap]. rewrite fires_app. cbn. by rewrite app_nil_r.
    + intros j ej Ho. destruct (Hopen j ej Ho) as [Hr Hbj]. split; [done|].
      destruct Ho as (Hj & _ & Hma & Hte). pose proof (lookup_lt_Some _ _ _ Hj) as Hjlt. cbn in Hj, Hjlt, Hma.
      rewrite Hbits by lia. rewrite decide_False; [done|]. intros ->. rewrite He in Hj. simplify_eq.
      by rewrite Hma, Hte in Hm.
  - apply orb_false_iff in Hm as [Hma Hte]. destruct Hen as [Hen|]; [|congruence].
    destruct (isg_trigger_spec _ _ _ (wf_group _ Hwf) Hn) as (g & Hrun & Hok & Hsh & Hf' & Hr).
    exists (set_group g c), [n]. split; [unfold bind, on_group; by rewrite Hrun|].
    destruct (Hopen i e) as [_ Hbi]; [done|]. split_and!; try done.
    replace (tr ++ Raise n :: (Fire <$> [n])) with ((tr ++ [Raise n]) ++ [Fire n]) by (by rewrite <- app_assoc).
    split; [eapply wf_set; [exact Hwf|done|apply Hwf|done|done]|split| |].
    + apply no_spurious_snoc; [by apply no_spurious_snoc|]. intros m [= <-]. rewrite pending_snoc. by rewrite decide_True.
    + intros j m Hj Hm. rewrite !pending_snoc, pba_bit_group.
      assert (Hm' : shp c !! Z.of_nat j = Some m) by (unfold shp in *; cbn in Hm; by rewrite <- Hsh).
      case_decide as Hnm; [|by apply Hb]. subst m. by rewrite (shp_inj c i j n Hwf Hn Hm').
    + unfold fird. cbn. rewrite Hf', !fires_app, <- app_assoc, app_nil_l, app_assoc. f_equal. done.
    + intros j ej Ho. destruct (Hopen j ej Ho) as [Hrj Hbj]. split; [by apply Hr|done].
Qed.

(** ** Runs

    What the device and the guest do: the device raises an interrupt, the guest
    writes to the table or to the message control register. *)
Inductive msix_op :=
| Trigger (vector : Z)
| WriteTable (offset : Z) (data : list Z)
| SetMsgCtl (reg : Z).

Definition finished {E A} (r : outcome E A * C) : option C :=
  match r with (Done _, c) => Some c | _ => None end.
Definition msix_exec (o : msix_op) (c : C) : option C :=
  match o with
  | Trigger v => finished (trigger_vector v c)
  | WriteTable offset data => finished (write_table offset data c)
  | SetMsgCtl reg => finished (set_msg_ctl reg c)
  end.

(** The events of an operation that takes [c] to [c']. *)
Definition events (o : msix_op) c c' : list event :=
  match o with
  | Trigger v => match shp c !! v with Some n => [Raise n] | None => [] end
  | _ => []
  end ++ (Fire <$> drop (length (fird c)) (fird c')).

Fixpoint msix_run (os : list msix_op) (c : C) : option (list event * C) :=
  match os with
  | [] => Some ([], c)
  | o :: os =>
    c' ← msix_exec o c;
    '(tr, c'') ← msix_run os c';
    Some (events o c c' ++ tr, c'')
  end.

(** The device raises no interrupt, and the guest does not enable MSI-X without
    the function mask, while MSI-X is disabled with the mask clear. *)
Fixpoint run_ok (vectors : Z) (m e : bool) (os : list msix_op) : Prop :=
  match os with
  | [] => True
  | Trigger v :: os => 0 <= v < vectors /\ e || m = true /\ run_ok vectors m e os
  | WriteTable offset _ :: os => 0 <= offset /\ run_ok vectors m e os
  | SetMsgCtl reg :: os =>
    (ctl_enabled reg && negb (ctl_masked reg) = true -> e || m = true) /\
    run_ok vectors (ctl_masked reg) (ctl_enabled reg) os
  end.

Lemma exec_ok F c tr o os :
  inv F c tr -> run_ok (Z.of_nat (length (table_entries c))) (masked c) (enabled c) (o :: os) ->
  exists c', msix_exec o c = Some c' /\ inv F c' (tr ++ events o c c') /\
    run_ok (Z.of_nat (length (table_entries c'))) (masked c') (enabled c') os /\
    length (table_entries c') = length (table_entries c) /\ shp c' = shp c /\ devid c' = devid c.
Proof.
  intros Hinv Hok. unfold events. destruct o as [v|offset data|reg]; cbn [run_ok msix_exec] in *.
  - destruct Hok as (Hv & Hen%orb_true_iff & Hok).
    destruct (lookup_shp c (Z.to_nat v) (inv_wf _ _ _ Hinv)) as [n Hn]; [lia|].
    destruct (trigger_ok F c tr (Z.to_nat v) n) as (c' & ns & Hrun & Hinv' & Hf & Hlen & Hsh & Hm & He & Hd);
      [done|lia|done|done|]. rewrite Z2Nat.id in * by lia.
    exists c'. rewrite Hrun, Hf, drop_app_length, Hn, Hlen, Hm, He. done.
  - destruct Hok as (Hoff & Hok).
    destruct (write_table_ok F c tr offset data Hinv Hoff) as (c' & ns & Hrun & Hinv' & Hf & Hlen & Hsh & Hm & He & Hd).
    exists c'. rewrite Hrun, Hf, drop_app_length, Hlen, Hm, He. done.
  - destruct Hok as (Hctl & Hok).
    destruct (set_msg_ctl_ok F c tr reg Hinv) as (c' & ns & Hrun & Hinv' & Hf & Hlen & Hsh & Hm & He & Hd).
    { intros Hre Hrm. rewrite Hre, Hrm in Hctl. by apply orb_true_iff, Hctl. }
    exists c'. rewrite Hrun, Hf, drop_app_length, Hlen, Hm, He. done.
Qed.

Lemma run_inv F os : forall c tr,
  inv F c tr -> run_ok (Z.of_nat (length (table_entries c))) (masked c) (enabled c) os ->
  exists tr' c', msix_run os c = Some (tr', c') /\ inv F c' (tr ++ tr') /\
    length (table_entries c') = length (table_entries c) /\ shp c' = shp c /\ devid c' = devid c.
Proof.
  induction os as [|o os IH]; intros c tr Hinv Hok; cbn [msix_run].
  { exists [], c. by rewrite app_nil_r. }
  destruct (exec_ok F c tr o os Hinv Hok) as (c1 & -> & Hinv1 & Hok1 & Hlen1 & Hsh1 & Hd1). cbn.
  destruct (IH c1 _ Hinv1 Hok1) as (tr2 & c2 & -> & Hinv2 & Hlen2 & Hsh2 & Hd2). cbn.
  exists (events o c c1 ++ tr2), c2. rewrite app_assoc. split_and!; [done|done|congruence..].
Qed.

Lemma inv_new vectors g dev c :
  0 <= vectors <= 31 -> group_ok g -> (forall i, 0 <= i < vectors -> is_Some (shape g !! i)) ->
  msix_new vectors g dev = Some c -> inv (fired g) c [].
Proof.
  intros Hv Hok Hsh. unfold msix_new, MAX_MSIX_VECTORS_PER_DEVICE, BITS_PER_PBA_ENTRY.
  rewrite decide_True, Z.div_small by lia. intros [= <-]. split.
  - split; cbn; rewrite ?length_replicate; [lia|done|done|]. intros i Hi. apply Hsh. lia.
  - split; [by intros [|] n tr2|]. intros i n Hi Hn. apply Z.testbit_0_l.
  - by rewrite app_nil_r.
  - by intros i e (_ & [=] & _).
Qed.
(** ** Restoring a snapshot *)
Lemma restore_one c i e :
  msix_wf c -> (i < length (table_entries c))%nat -> masked c = false ->
  exists g, (let* r := on_group (isg_update (wrap 32 (Z.of_nat i)) (MsiIrq (source_config (devid c) e)) (masked c)) in
      match r with Err x => throw (UpdateInterruptRoute x) | Ok _ =>
        let* r := on_group isg_enable in
        match r with Err x => throw (EnableInterruptRoute x) | Ok _ => ret tt end
      end) c = (Done tt, set_group g c) /\ group_ok g /\ shape g = shp c /\ fired g = fird c /\
    rout (set_group g c) i e /\ forall j ej, j <> i -> rout c j ej -> rout (set_group g c) j ej.
Proof.
  intros Hwf Hi Hm. rewrite (wrap32 c i), Hm by done.
  destruct (isg_update_spec _ (Z.of_nat i) (source_config (devid c) e) false (wf_group _ Hwf) (wf_shape _ Hwf _ Hi))
    as (g & Hrun & Hok & Hsh & Hf & Hon & _ & Hother).
  destruct (isg_enable_spec g Hok) as (g2 & Hrun2 & Hok2 & Hsh2 & Hf2 & Hmono).
  exists g2. split; [unfold bind, on_group; rewrite Hrun; cbn; by rewrite Hrun2|].
  split; [done|]. split; [by rewrite Hsh2|]. split; [by rewrite Hf2|]. split; [by apply Hmono, Hon|].
  intros j ej Hne Hr. apply Hmono, Hother; [lia|done].
Qed.

Lemma restore_routes_ok l : forall pre c,
  msix_wf c -> table_entries c = pre ++ l -> masked c = false ->
  exists g, restore_routes (Z.of_nat (length pre)) l c = (Done tt, set_group g c) /\ group_ok g /\
    shape g = shp c /\ fired g = fird c /\
    (forall i e, pre !! i = Some e -> rout c i e -> rout (set_group g c) i e) /\
    (forall k e, l !! k = Some e -> te_masked e = false -> rout (set_group g c) (length pre + k) e).
Proof.
  induction l as [|e l IH]; intros pre c Hwf Ht Hm; cbn [restore_routes].
  { exists (interrupt_source_group c). split; [by destruct c|]. split_and!; try done. apply Hwf. }
  assert (Hi : (length pre < length (table_entries c))%nat) by (rewrite Ht, length_app; cbn; lia).
  assert (Hone : exists g, (if te_masked e then ret tt else let* c := get in
      let* r := on_group (isg_update (wrap 32 (Z.of_nat (length pre))) (MsiIrq (source_config (devid c) e)) (masked c)) in
      match r with Err x => throw (UpdateInterruptRoute x) | Ok _ =>
        let* r := on_group isg_enable in
        match r with Err x => throw (EnableInterruptRoute x) | Ok _ => ret tt end
      end) c = (Done tt, set_group g c) /\ group_ok g /\ shape g = shp c /\ fired g = fird c /\
      (te_masked e = false -> rout (set_group g c) (length pre) e) /\
      forall j ej, j <> length pre -> rout c j ej -> rout (set_group g c) j ej).
  { destruct (te_masked e).
    - exists (interrupt_source_group c). split; [by destruct c|]. split; [apply Hwf|done].
    - destruct (restore_one c (length pre) e Hwf Hi Hm) as (g & Hrun & ?). exists g.
      split; [rewrite bind_get; exact Hrun|naive_solver]. }
  destruct Hone as (g & Hrun & Hok & Hsh & Hf & Hnew & Hkeep). rewrite (bind_done _ _ _ _ _ Hrun).
  destruct (IH (pre ++ [e]) (set_group g c)) as (g2 & Hrun2 & Hok2 & Hsh2 & Hf2 & Hpre2 & Hnew2).
  { eapply wf_set; [exact Hwf|done|apply Hwf|done|done]. }
  { by rewrite <- app_assoc. }
  { done. }
  exists g2. rewrite length_app, Nat2Z.inj_add in Hrun2. split; [exact Hrun2|]. split; [done|].
  split; [by rewrite Hsh2|]. split; [by rewrite Hf2|]. split.
  - intros i ei Hi' Hr. apply (Hpre2 i ei); [by apply lookup_app_l_Some|]. apply lookup_lt_Some in Hi'.
    apply Hkeep; [lia|done].
  - intros [|k] ek Hk Hte; cbn in Hk; simplify_eq.
    + rewrite Nat.add_0_r. apply (Hpre2 _ ek); [by apply list_lookup_middle|]. by apply Hnew.
    + replace (length pre + S k)%nat with (length (pre ++ [e]) + k)%nat by (rewrite length_app; cbn; lia).
      by apply Hnew2.
Qed.
End proofs.

(** C9: MSI-X delivers every interrupt once.  For every sequence of interrupts
    of the device, of vectors it has, and writes of the guest to the table and to
    the message control register of a device with up to 31 vectors, in which the
    device raises no interrupt and the guest does not enable MSI-X without the
    function mask while MSI-X is disabled with that mask clear: all of them end;
    an interrupt fires only if it was raised since it last fired; one that was
    raised and has not fired is the one whose pending bit is set; and a vector
    that the guest has open is never pending, and its interrupt is routed to the
    message that is in the table.  Beyond 31 vectors pending bits are misplaced
    ([pba_bit_misplaced]). *)
Theorem msix_delivers {G} `{GroupLaws G} vectors (g : G) dev os c :
  0 <= vectors <= 31 -> group_ok g -> (forall i, 0 <= i < vectors -> is_Some (shape g !! i)) ->
  msix_new vectors g dev = Some c -> run_ok vectors true false os ->
  exists tr c', msix_run os c = Some (tr, c') /\ no_spurious tr /\
    fired (interrupt_source_group c') = fired g ++ fires tr /\
    forall i n, (i < Z.to_nat vectors)%nat -> shape g !! Z.of_nat i = Some n ->
      pba_bit c' i = pending tr n /\
      forall e, open c' i e -> pending tr n = false /\
        routed (interrupt_source_group c') (Z.of_nat i) (source_config dev e).
Proof.
  intros Hv Hok Hsh Hnew Hrun. pose proof (inv_new vectors g dev c Hv Hok Hsh Hnew) as Hinv.
  assert (Hc : table_entries c = replicate (Z.to_nat vectors) te_default /\ masked c = true /\ enabled c = false /\
    devid c = dev /\ interrupt_source_group c = g).
  { unfold msix_new in Hnew. case_decide; by simplify_eq. }
  destruct Hc as (Ht & Hm & He & Hd & Hg).
  destruct (run_inv (fired g) os c [] Hinv) as (tr & c' & Hrun' & [Hwf [Hns Hb] Hf Ho] & Hlen & Hs & Hd').
  { by rewrite Ht, length_replicate, Hm, He, Z2Nat.id by lia. }
  exists tr, c'. split_and!; [done|done|done|]. intros i n Hi Hn.
  assert (Hbit : pba_bit c' i = pending tr n).
  { apply Hb; [by rewrite Hlen, Ht, length_replicate|]. rewrite Hs. unfold shp. by rewrite Hg. }
  split; [done|]. intros e Hopen. destruct (Ho i e Hopen) as [Hr Hp]. split; [congruence|].
  unfold rout in Hr. by rewrite Hd', Hd in Hr.
Qed.

(** A snapshot of MSI-X restores.  Setting the state taken from one
    configuration on the configuration of another machine succeeds, gives the
    same state, and routes every open vector to its message in the new group. *)
Theorem msix_restore {G} `{GroupLaws G} (c c0 : MsixConfig G) :
  msix_wf c -> group_ok (interrupt_source_group c0) ->
  (forall i, (i < length (table_entries c))%nat -> is_Some (shape (interrupt_source_group c0) !! Z.of_nat i)) ->
  exists c', set_state (msix_state c) c0 = (Done tt, c') /\ msix_state c' = msix_state c /\
    fired (interrupt_source_group c') = fired (interrupt_source_group c0) /\
    forall i e, open c' i e -> routed (interrupt_source_group c') (Z.of_nat i) (source_config (devid c0) e).
Proof.
  intros Hwf Hok Hsh. unfold set_state. rewrite bind_modify, bind_get.
  set (c1 := mkMsix _ _ _ _ _ _).
  assert (Hwf1 : msix_wf c1) by (destruct Hwf; by split).
  destruct (enabled c1 && negb (masked c1)) eqn:Ho.
  - apply andb_true_iff in Ho as [He Hm%negb_true_iff].
    destruct (restore_routes_ok (table_entries c1) [] c1 Hwf1 eq_refl Hm) as (g & Hrun & Hok' & Hsh' & Hf & _ & Hnew).
    exists (set_group g c1). split; [exact Hrun|]. split_and!; [done|done|].
    intros i e (Hi & _ & _ & Hte). by apply (Hnew i e).
  - exists c1. split_and!; try done. intros i e (_ & He & Hm & _). cbn in He, Hm. unfold c1 in Ho. cbn in Ho.
    by rewrite He, Hm in Ho.
Qed.

(** ** Examples: a host that refuses nothing, and three vectors *)
#[local] Program Instance example_host : VmHost := {
  vm_refuses _ _ := false; has_msi_devid := false; irq_order m := (map_to_list m).*1;
}.
Next Obligation.
  intros m i. rewrite list_elem_of_fmap. split.
  - intros ([j r] & -> & Hin%elem_of_map_to_list). eauto.
  - intros [r Hr]. exists (i, r). by rewrite elem_of_map_to_list.
Qed.
#[local] Instance example_host_accepts : VmAccepts.
Proof. done. Qed.

Definition example_group : MsiInterruptGroup :=
  match (create_group (fun _ => true) 0 3 ∅ (mkKvm ∅ [] []) example_system).1 with
  | Done g => g
  | _ => mkMsiGroup ∅ ∅ (mkKvm ∅ [] [])
  end.

Lemma example_group_ok :
  msi_ok example_group /\ forall k, msi_shape example_group !! k = if decide (0 <= k < 3) then Some (24 + k) else None.
Proof.
  destruct (create_group_ok (fun _ => true) 5 19 0 0 0 3 ∅ (mkKvm ∅ [] []) example_system)
    as (g & s' & Hrun & _ & Hok & _ & Hsh); try done; try lia.
  { split; cbn; [by intros| |set_solver]. intros e. rewrite elem_of_nil. split; [done|by intros [? ?]]. }
  unfold example_group. rewrite Hrun. split; [done|]. intros k. rewrite Hsh. repeat case_decide; try lia; [|done]. f_equal. lia.
Qed.

(** The guest enables MSI-X with the function masked, programs the vector 1, and
    the device raises it; then the guest clears the function mask. *)
Definition example_msix_ops : list msix_op :=
  [SetMsgCtl 0xc000; WriteTable 16 (le_bytes 4 0xfee00000); WriteTable 24 (le_bytes 8 0x41);
   Trigger 1; Trigger 1; SetMsgCtl 0x8000; Trigger 1; Trigger 2].

Lemma msix_delivers_witness :
  exists c tr c', msix_new 3 example_group 8 = Some c /\ msix_run example_msix_ops c = Some (tr, c') /\
    tr = [Raise 25; Raise 25; Fire 25; Raise 25; Fire 25; Raise 26] /\
    no_spurious tr /\ pba_bit c' 2 = true /\
    routed (interrupt_source_group c') 1 (mkMsi 0 0xfee00000 0x41 8).
Proof.
  destruct example_group_ok as [Hok Hsh].
  destruct (msix_new 3 example_group 8) as [c|] eqn:Hnew; [|vm_compute in Hnew; done].
  destruct (msix_delivers 3 example_group 8 example_msix_ops c) as (tr & c' & Hrun & Hns & _ & Hvec);
    [lia|exact Hok| |exact Hnew|vm_compute; intuition congruence|].
  { intros i Hi. cbn. rewrite Hsh, decide_True by lia. done. }
  exists c, tr, c'. split; [done|]. split; [done|].
  assert (Htr : tr = [Raise 25; Raise 25; Fire 25; Raise 25; Fire 25; Raise 26] /\
    open c' 1 (mkTE 0xfee00000 0 0x41 0) /\ pba_bit c' 2 = true).
  { vm_compute in Hnew. simplify_eq. vm_compute in Hrun. simplify_eq. by vm_compute. }
  destruct Htr as (Htr & Hopen & Hbit). split_and!; [done|done|done|].
  destruct (Hvec 1%nat 25) as [_ Hr]; [lia|cbn; by rewrite Hsh|]. by apply (Hr _ Hopen).
Defined.

(** The pending bit of the vector 32 is that of the vector 0, and the one of the
    vector 31 those of all vectors above it (msix.rs, [set_pba_bit]). *)
Lemma pba_bit_misplaced :
  (forall c, msix_new 64 example_group 8 = Some c ->
     option_map (read_pba 0 8) (finished (set_pba_bit 32 false c)) = Some (le_bytes 8 (2 ^ 0)) /\
     option_map (read_pba 0 8) (finished (set_pba_bit 31 false c)) = Some (le_bytes 8 (2 ^ 64 - 2 ^ 31))).
Proof. intros c Hc. vm_compute in Hc. simplify_eq. split; vm_compute; reflexivity. Qed.

(** An interrupt that is pending while MSI-X is disabled stays pending when the
    guest enables MSI-X with the vector and the function unmasked. *)
Lemma pending_not_delivered :
  forall c, msix_new 3 example_group 8 = Some c ->
    match msix_run [SetMsgCtl 0; Trigger 1; WriteTable 28 (le_bytes 4 0); SetMsgCtl 0x8000] c with
    | Some (tr, c') => tr = [Raise 25] /\ masked c' = false /\ enabled c' = true /\ pba_bit c' 1 = true /\
                       option_map te_masked (table_entries c' !! 1%nat) = Some false
    | None => False
    end.
Proof. intros c Hc. vm_compute in Hc. simplify_eq. vm_compute. auto. Qed.

(** A vector beyond the table, which the guest may set for a queue, ends the
    process when the queue is used. *)
Lemma vector_out_of_range_panics :
  forall c, msix_new 3 example_group 8 = Some c -> (virtio_trigger 0 [3] (QueueInt 0) c).1 = Crashed.
Proof. intros c Hc. vm_compute in Hc. simplify_eq. by vm_compute. Qed.

Definition example_msix : MsixConfig MsiInterruptGroup :=
  mkMsix [mkTE 0xfee00000 0 0x41 0; te_default] [2] 8 example_group false true.

Lemma msix_restore_witness :
  exists c', set_state (msix_state example_msix) (mkMsix [] [] 8 example_group true false) = (Done tt, c') /\
    msix_state c' = msix_state example_msix /\
    routed (interrupt_source_group c') 0 (mkMsi 0 0xfee00000 0x41 8).
Proof.
  destruct example_group_ok as [Hok Hsh].
  destruct (msix_restore example_msix (mkMsix [] [] 8 example_group true false)) as (c' & Hrun & Hst & _ & Hr).
  - split; [cbn; lia|done|exact Hok|]. intros i Hi. cbn in Hi |- *. rewrite Hsh, decide_True by lia. done.
  - exact Hok.
  - intros i Hi. cbn in Hi |- *. rewrite Hsh, decide_True by lia. done.
  - exists c'. split_and!; [done|done|]. apply (Hr 0%nat (mkTE 0xfee00000 0 0x41 0)).
    unfold msix_state in Hst. injection Hst as Ht _ Hm He. unfold open. by rewrite Ht, Hm, He.
Defined.
