(* ===== verification/Ioapic.v ===== *)
(** The I/O APIC (hypervisor/devices/src/ioapic.rs): 24 pins, each with an entry
    that the guest programs through an index and a window register, and that
    becomes the message of an interrupt of a group. *)
From stdpp Require Import base numbers gmap list strings.
From S2P Require Import Prelude Bytes IrqGroup.
#[local] Open Scope Z_scope.

Definition vector (entry : Z) : Z := wrap 8 (Z.land entry 0xff).
Definition delivery_mode (entry : Z) : Z := wrap 8 (Z.land (Z.shiftr entry 8) 0x7).
Definition destination_mode (entry : Z) : Z := wrap 8 (Z.land (Z.shiftr entry 11) 0x1).
Definition remote_irr (entry : Z) : Z := wrap 8 (Z.land (Z.shiftr entry 14) 0x1).
Definition trigger_mode (entry : Z) : Z := wrap 8 (Z.land (Z.shiftr entry 15) 0x1).
Definition interrupt_mask (entry : Z) : Z := wrap 8 (Z.land (Z.shiftr entry 16) 0x1).
Definition destination_field (entry : Z) : Z := wrap 8 (Z.land (Z.shiftr entry 56) 0xff).
Definition set_delivery_status (entry val : Z) : Z :=
  Z.lor (Z.land entry 0xffffffffffffefff) (Z.shiftl (Z.land val 0x1) 12).
Definition set_remote_irr (entry val : Z) : Z :=
  Z.lor (Z.land entry 0xffffffffffffbfff) (Z.shiftl (Z.land val 0x1) 14).

Definition NUM_IOAPIC_PINS : nat := 24.
Definition IOAPIC_VERSION_ID : Z := 0x00170011.
Definition IOAPIC_REG_ID : Z := 0x00.
Definition IOAPIC_REG_VERSION : Z := 0x01.
Definition IOAPIC_REG_ARBITRATION_ID : Z := 0x02.
Definition IOREGSEL_OFF : Z := 0x0.
Definition IOWIN_OFF : Z := 0x10.
Definition IOWIN_SCALE : Z := 0x2.
Definition REG_MAX_OFFSET : Z := IOWIN_OFF + Z.of_nat NUM_IOAPIC_PINS * 2 - 1.

Definition decode_irq_from_selector (selector : Z) : nat * bool :=
  (Z.to_nat (wsub 8 selector IOWIN_OFF / IOWIN_SCALE), bool_decide (Z.land selector 1 <> 0)).

Record Ioapic (G : Type) := mkIoapic {
  io_id : string;
  io_id_reg : Z;
  io_reg_sel : Z;
  io_reg_entries : list Z;
  io_used_entries : list bool;
  io_apic_address : Z;
  io_group : G;
}.
Arguments mkIoapic {G}.
Arguments io_id {G}. Arguments io_id_reg {G}. Arguments io_reg_sel {G}. Arguments io_reg_entries {G}.
Arguments io_used_entries {G}. Arguments io_apic_address {G}. Arguments io_group {G}.

Record IoapicState := mkIoapicState {
  is_id_reg : Z;
  is_reg_sel : Z;
  is_reg_entries : list Z;
  is_used_entries : list bool;
  is_apic_address : Z;
}.

Inductive ioapic_error :=
| InvalidTriggerMode
| InvalidDeliveryMode
| UpdateInterrupt (e : irq_error)
| TriggerInterrupt (e : irq_error).

Section ioapic.
Context {G : Type} `{InterruptSourceGroup G}.
Abbreviation D := (Ioapic G).

Definition io_set_id_reg (v : Z) (d : D) : D :=
  mkIoapic (io_id d) v (io_reg_sel d) (io_reg_entries d) (io_used_entries d) (io_apic_address d) (io_group d).
Definition io_set_reg_sel (v : Z) (d : D) : D :=
  mkIoapic (io_id d) (io_id_reg d) v (io_reg_entries d) (io_used_entries d) (io_apic_address d) (io_group d).
Definition io_set_entries (l : list Z) (d : D) : D :=
  mkIoapic (io_id d) (io_id_reg d) (io_reg_sel d) l (io_used_entries d) (io_apic_address d) (io_group d).
Definition io_set_used (l : list bool) (d : D) : D :=
  mkIoapic (io_id d) (io_id_reg d) (io_reg_sel d) (io_reg_entries d) l (io_apic_address d) (io_group d).
Definition io_set_group (g : G) (d : D) : D :=
  mkIoapic (io_id d) (io_id_reg d) (io_reg_sel d) (io_reg_entries d) (io_used_entries d) (io_apic_address d) g.

(** The group is the one that the interrupt manager creates for the pins. *)
Definition ioapic_new (id : string) (apic_address : Z) (interrupt_source_group : G) : D :=
  mkIoapic id 0 0 (replicate NUM_IOAPIC_PINS 0x10000) (replicate NUM_IOAPIC_PINS false) apic_address interrupt_source_group.

(** The message of an entry; the trigger mode has one bit and the delivery mode
    three, so that the checks of their values pass. *)
Definition msi_message (apic_address entry : Z) : MsiIrqSourceConfig :=
  let redirection_hint := 1 in
  let low_addr := Z.lor (Z.lor (Z.lor (wrap 32 apic_address) (Z.shiftl (destination_field entry) 12))
    (Z.shiftl redirection_hint 3)) (Z.shiftl (destination_mode entry) 2) in
  let data := Z.lor (Z.lor (Z.lor (Z.shiftl (trigger_mode entry) 15) (Z.shiftl (remote_irr entry) 14))
    (Z.shiftl (delivery_mode entry) 8)) (vector entry) in
  mkMsi 0 low_addr data 0.

Definition update_entry (irq : nat) : M D ioapic_error unit :=
  let* d := get in
  let* entry := at_index (io_reg_entries d) irq in
  if negb (bool_decide (trigger_mode entry = 0 \/ trigger_mode entry = 1)) then throw InvalidTriggerMode
  else if negb (bool_decide (delivery_mode entry = 0 \/ delivery_mode entry = 1 \/ delivery_mode entry = 2 \/
    delivery_mode entry = 3 \/ delivery_mode entry = 4 \/ delivery_mode entry = 5 \/ delivery_mode entry = 6 \/
    delivery_mode entry = 7)) then throw InvalidDeliveryMode
  else
  zoom io_group io_set_group (map_err UpdateInterrupt (isg_update (wrap 32 (Z.of_nat irq))
    (MsiIrq (msi_message (io_apic_address d) entry)) (bool_decide (interrupt_mask entry = 1)))).

Definition write_entry (val : Z) (is_high_bits : bool) (entry : Z) : Z :=
  if is_high_bits then Z.lor (Z.land entry 0xffffffff) (Z.shiftl val 32)
  else Z.lor (Z.land entry 0xffffffff00005000) (Z.land val 0xffffafff).

Definition ioapic_write (val : Z) : M D ioapic_error unit :=
  let* d := get in
  let sel := wrap 8 (io_reg_sel d) in
  if decide (sel = IOAPIC_REG_VERSION) then ret tt
  else if decide (sel = IOAPIC_REG_ID) then modify (io_set_id_reg (Z.land (Z.shiftr val 24) 0xf))
  else if decide (IOWIN_OFF <= sel <= REG_MAX_OFFSET) then
    let '(index, is_high_bits) := decode_irq_from_selector sel in
    if decide (NUM_IOAPIC_PINS < index)%nat then ret tt
    else
    let* entry := at_index (io_reg_entries d) index in
    modify (fun d => io_set_entries (<[index := write_entry val is_high_bits entry]> (io_reg_entries d)) d) ;;;
    ignore (update_entry index) ;;;
    modify (fun d => io_set_used (<[index := true]> (io_used_entries d)) d)
  else ret tt.

Definition ioapic_read (d : D) : option Z :=
  let sel := wrap 8 (io_reg_sel d) in
  if decide (sel = IOAPIC_REG_VERSION) then Some IOAPIC_VERSION_ID
  else if decide (sel = IOAPIC_REG_ID \/ sel = IOAPIC_REG_ARBITRATION_ID) then Some (wrap 32 (Z.shiftl (Z.land (io_id_reg d) 0xf) 24))
  else if decide (IOWIN_OFF <= sel <= REG_MAX_OFFSET) then
    let '(index, is_high_bits) := decode_irq_from_selector sel in
    if decide (NUM_IOAPIC_PINS < index)%nat then Some 0
    else entry ← io_reg_entries d !! index;
      Some (if is_high_bits then wrap 32 (Z.shiftr entry 32) else wrap 32 (Z.land entry 0xffffffff))
  else Some 0.

(** Accesses of the bus; [None] is a panic. *)
Definition io_bus_read (offset : Z) (data : list Z) (d : D) : option (list Z) :=
  if decide (length data <> 4%nat) then Some data
  else if decide (wrap 8 offset = IOREGSEL_OFF) then Some (le_bytes 4 (io_reg_sel d))
  else if decide (wrap 8 offset = IOWIN_OFF) then le_bytes 4 <$> ioapic_read d
  else Some data.
Definition io_bus_write (offset : Z) (data : list Z) : M D ioapic_error unit :=
  if decide (length data <> 4%nat) then ret tt
  else
  let value := le_value data in
  if decide (wrap 8 offset = IOREGSEL_OFF) then modify (io_set_reg_sel value)
  else if decide (wrap 8 offset = IOWIN_OFF) then ioapic_write value
  else ret tt.

Definition eoi_entry (vec entry : Z) : Z :=
  if decide (vector entry = vec /\ trigger_mode entry = 1) then set_remote_irr entry 0 else entry.
Definition end_of_interrupt (vec : Z) (d : D) : D := io_set_entries (eoi_entry vec <$> io_reg_entries d) d.

Definition serviced (entry : Z) : Z :=
  set_delivery_status (if decide (trigger_mode entry = 1) then set_remote_irr entry 1 else entry) 0.
Definition service_irq (irq : nat) : M D ioapic_error unit :=
  let* d := get in
  let* entry := at_index (io_reg_entries d) irq in
  zoom io_group io_set_group (map_err TriggerInterrupt (isg_trigger (wrap 32 (Z.of_nat irq)))) ;;;
  modify (fun d => io_set_entries (<[irq := serviced entry]> (io_reg_entries d)) d).

Definition ioapic_state (d : D) : IoapicState :=
  mkIoapicState (io_id_reg d) (io_reg_sel d) (io_reg_entries d) (io_used_entries d) (io_apic_address d).

Fixpoint update_used (irq : nat) (used : list bool) : M D ioapic_error unit :=
  match used with
  | [] => ret tt
  | entry :: rest => (if entry then update_entry irq else ret tt) ;;; update_used (S irq) rest
  end.
Definition ioapic_set_state (s : IoapicState) : M D ioapic_error unit :=
  modify (fun d => mkIoapic (io_id d) (is_id_reg s) (is_reg_sel s) (is_reg_entries s) (is_used_entries s)
    (is_apic_address s) (io_group d)) ;;;
  update_used 0 (is_used_entries s).
End ioapic.
