(* ===== verification/IoapicProofs.v ===== *)
(** The I/O APIC delivers what the guest has programmed. *)
From stdpp Require Import base numbers gmap list strings.
From S2P Require Import Prelude Bytes VmResources IrqGroup MsixProofs Ioapic.
#[local] Open Scope Z_scope.

(** ** Bits of entries *)
Lemma mask_bits m (f : Z -> bool) :
  forallb (fun i => eqb (Z.testbit m (Z.of_nat i)) (f (Z.of_nat i))) (seq 0 64) = true ->
  forall i, 0 <= i < 64 -> Z.testbit m i = f i.
Proof.
  intros Hall i Hi. rewrite forallb_forall in Hall. specialize (Hall (Z.to_nat i)).
  rewrite Z2Nat.id in Hall by lia. apply eqb_prop, Hall, in_seq. lia.
Qed.

(** Entries that differ at most in the bits that are read-only for the guest. *)
Definition writable (i : Z) : Prop := 0 <= i < 64 /\ i <> 12 /\ i <> 14.
Definition same_fields (e e' : Z) : Prop := forall i, writable i -> Z.testbit e i = Z.testbit e' i.
#[local] Instance same_fields_equiv : Equivalence same_fields.
Proof.
  split; [done|intros e e' He i Hi; by rewrite He|].
  intros e1 e2 e3 H1 H2 i Hi. rewrite H1 by done. by apply H2.
Qed.

Lemma field_ext e e' k n : 0 <= k -> 0 <= n -> (forall i, k <= i < k + n -> Z.testbit e i = Z.testbit e' i) ->
  Z.land (Z.shiftr e k) (Z.ones n) = Z.land (Z.shiftr e' k) (Z.ones n).
Proof.
  intros Hk Hn Hbits. apply Z.bits_inj'. intros i Hi. rewrite !Z.land_spec, !Z.shiftr_spec by lia.
  destruct (decide (i < n)); [by rewrite Hbits by lia|]. rewrite Z.ones_spec_high by lia. by rewrite !andb_false_r.
Qed.

Lemma same_fields_mask e e' : same_fields e e' -> interrupt_mask e = interrupt_mask e'.
Proof. intros He. unfold interrupt_mask. f_equal. apply (field_ext e e' 16 1); [lia..|]. intros i Hi. apply He. split; lia. Qed.

Lemma set_remote_irr_fields e v : same_fields (set_remote_irr e v) e.
Proof.
  intros i (Hi & _ & H14). unfold set_remote_irr. rewrite Z.lor_spec, Z.land_spec, Z.shiftl_spec by lia.
  rewrite (mask_bits 0xffffffffffffbfff (fun i => negb (bool_decide (i = 14)))) by (done || by vm_compute).
  rewrite bool_decide_eq_false_2 by done. rewrite Z.land_spec. change 1 with (Z.ones 1).
  destruct (decide (14 <= i)); [rewrite (Z.ones_spec_high 1 (i - 14)) by lia|rewrite (Z.testbit_neg_r _ (i - 14)) by lia].
  all: by rewrite ?andb_false_r, ?andb_true_r, ?orb_false_r.
Qed.
Lemma set_delivery_status_fields e : same_fields (set_delivery_status e 0) e.
Proof.
  intros i (Hi & H12 & _). unfold set_delivery_status. rewrite Z.lor_spec, Z.land_spec, Z.shiftl_0_l, Z.testbit_0_l, orb_false_r.
  rewrite (mask_bits 0xffffffffffffefff (fun i => negb (bool_decide (i = 12)))) by (done || by vm_compute).
  rewrite bool_decide_eq_false_2 by done. by rewrite andb_true_r.
Qed.
Lemma serviced_fields e : same_fields (serviced e) e.
Proof.
  unfold serviced. rewrite set_delivery_status_fields. case_decide; [apply set_remote_irr_fields|done].
Qed.
Lemma eoi_fields vec e : same_fields (eoi_entry vec e) e.
Proof. unfold eoi_entry. case_decide; [apply set_remote_irr_fields|done]. Qed.

(** The checks of the modes never fail. *)
Lemma update_entry_zoom {G} `{InterruptSourceGroup G} irq e (d : Ioapic G) : io_reg_entries d !! irq = Some e ->
  update_entry irq d = zoom io_group io_set_group (map_err UpdateInterrupt (isg_update (wrap 32 (Z.of_nat irq))
    (MsiIrq (msi_message (io_apic_address d) e)) (bool_decide (interrupt_mask e = 1)))) d.
Proof.
  intros He. unfold update_entry. rewrite bind_get. unfold at_index. rewrite He, bind_ret.
  assert (Ht : 0 <= trigger_mode e < 2).
  { unfold trigger_mode. change 1 with (Z.ones 1). rewrite Z.land_ones by lia. pose proof (Z.mod_pos_bound (Z.shiftr e 15) (2 ^ 1)).
    rewrite wrap_small; [lia|]. split; lia. }
  assert (Hd : 0 <= delivery_mode e < 8).
  { unfold delivery_mode. change 7 with (Z.ones 3). rewrite Z.land_ones by lia. pose proof (Z.mod_pos_bound (Z.shiftr e 8) (2 ^ 3)).
    rewrite wrap_small; [lia|]. split; lia. }
  rewrite bool_decide_eq_true_2 by lia. rewrite bool_decide_eq_true_2 by lia. done.
Qed.

(** ** The guest's view

    What the guest has written: the selector, and for each pin the two halves of
    its entry as they were written last. *)
Record guest_view := mkView { gv_sel : Z; gv_entries : list Z; gv_written : list bool }.

Definition pin_of (sel : Z) : option (nat * bool) :=
  let s := sel mod 256 in
  if decide (16 <= s < 64) then Some (Z.to_nat ((s - 16) / 2), Z.odd s) else None.

Definition put_half (high : bool) (val e : Z) : Z :=
  if high then Z.lor (Z.shiftl val 32) (wrap 32 e) else Z.lor (Z.shiftl (Z.shiftr e 32) 32) val.

Definition guest_writes (offset : Z) (data : list Z) (v : guest_view) : guest_view :=
  if decide (length data = 4%nat) then
    if decide (offset mod 256 = 0) then mkView (le_value data) (gv_entries v) (gv_written v)
    else if decide (offset mod 256 = 16) then
      match pin_of (gv_sel v) with
      | Some (pin, high) =>
        mkView (gv_sel v) (alter (put_half high (le_value data)) pin (gv_entries v)) (<[pin := true]> (gv_written v))
      | None => v
      end
    else v
  else v.

Lemma write_fields val high e e' : in_width 32 val -> same_fields e e' -> same_fields (write_entry val high e) (put_half high val e').
Proof.
  intros Hval He i Hi. pose proof Hi as (Hi1 & H12 & H14). unfold write_entry, put_half. destruct high.
  - rewrite !Z.lor_spec, Z.land_spec, Z.shiftl_spec, (He i Hi), orb_comm by lia. f_equal.
    rewrite (mask_bits 0xffffffff (fun i => bool_decide (i < 32))) by (done || by vm_compute).
    unfold wrap. destruct (decide (i < 32)).
    + rewrite bool_decide_eq_true_2, (Z.mod_pow2_bits_low e' 32) by lia. apply andb_true_r.
    + rewrite bool_decide_eq_false_2, (Z.mod_pow2_bits_high e' 32) by lia. apply andb_false_r.
  - rewrite !Z.lor_spec, !Z.land_spec, (He i Hi).
    rewrite (mask_bits 0xffffffff00005000 (fun i => bool_decide (32 <= i \/ i = 12 \/ i = 14))) by (done || by vm_compute).
    rewrite (mask_bits 0xffffafff (fun i => bool_decide (i < 32 /\ i <> 12 /\ i <> 14))) by (done || by vm_compute).
    destruct (decide (i < 32)).
    + rewrite bool_decide_eq_false_2, bool_decide_eq_true_2 by lia. rewrite Z.shiftl_spec_low by done.
      by rewrite andb_false_r, andb_true_r.
    + rewrite bool_decide_eq_true_2, bool_decide_eq_false_2, Z.shiftl_spec, Z.shiftr_spec by lia.
      rewrite (testbit_high 32 val) by (done || lia). rewrite andb_true_r, andb_false_r, !orb_false_r. f_equal. lia.
Qed.

Lemma pin_of_decode sel : 0 <= sel ->
  match pin_of sel with
  | Some (pin, high) => IOWIN_OFF <= wrap 8 sel <= REG_MAX_OFFSET /\ decode_irq_from_selector (wrap 8 sel) = (pin, high) /\ (pin < 24)%nat
  | None => ~ (IOWIN_OFF <= wrap 8 sel <= REG_MAX_OFFSET)
  end.
Proof.
  intros Hs. unfold pin_of, wrap, IOWIN_OFF, REG_MAX_OFFSET, NUM_IOAPIC_PINS, IOWIN_OFF. change (2 ^ 8) with 256.
  pose proof (Z.mod_pos_bound sel 256 ltac:(lia)) as Hb. set (s := sel mod 256) in *. clearbody s. case_decide as Hr; [|lia].
  split; [lia|]. unfold decode_irq_from_selector, IOWIN_OFF, IOWIN_SCALE. rewrite wsub_small by (split; lia). split.
  - f_equal. assert (Hl : Z.land s 1 = s mod 2) by (apply (Z.land_ones s 1); lia). rewrite Hl, Zmod_odd.
    destruct (Z.odd s); by vm_compute.
  - assert ((s - 16) / 2 < 24) by (apply Z.div_lt_upper_bound; lia). lia.
Qed.

(** ** Operations *)
Inductive ioapic_op :=
| IoWrite (offset : Z) (data : list Z)
| IoRead (offset : Z) (data : list Z)
| IoEoi (vec : Z)
| IoService (pin : nat).

Definition guest_after (o : ioapic_op) (v : guest_view) : guest_view :=
  match o with IoWrite offset data => guest_writes offset data v | _ => v end.
Definition new_view : guest_view := mkView 0 (replicate 24 0x10000) (replicate 24 false).
Definition guest_run (os : list ioapic_op) : guest_view := foldl (fun v o => guest_after o v) new_view os.
Definition serviced_pins (os : list ioapic_op) : list nat :=
  omap (fun o => match o with IoService pin => Some pin | _ => None end) os.
Definition ioapic_op_ok (o : ioapic_op) : Prop :=
  match o with
  | IoWrite _ data => Forall byte_ok data
  | IoService pin => (pin < 24)%nat
  | _ => True
  end.

Section delivery.
Context {G : Type} `{GroupLaws G}.
Abbreviation D := (Ioapic G).

(** [None] is a panic. *)
Definition io_exec (o : ioapic_op) (d : D) : option D :=
  match o with
  | IoWrite offset data => match io_bus_write offset data d with (Crashed, _) => None | (_, d') => Some d' end
  | IoRead offset data => _ ← io_bus_read offset data d; Some d
  | IoEoi vec => Some (end_of_interrupt vec d)
  | IoService pin => match service_irq pin d with (Crashed, _) => None | (_, d') => Some d' end
  end.
Fixpoint io_run (os : list ioapic_op) (d : D) : option D :=
  match os with [] => Some d | o :: os => io_exec o d ≫= io_run os end.

(** What happens to an interrupt of a pin whose entry the guest wrote as [e]: it
    arrives as the message of the entry, up to the read-only bits, unless the pin
    was not programmed or is masked. *)
Definition pin_routed (d : D) (pin : nat) (e : Z) (written : bool) : Prop :=
  if written && negb (bool_decide (interrupt_mask e = 1))
  then exists e', same_fields e' e /\ routed (io_group d) (Z.of_nat pin) (msi_message (io_apic_address d) e')
  else forall c, ~ routed (io_group d) (Z.of_nat pin) c.

Record io_inv (g : G) (v : guest_view) (pins : list nat) (d : D) : Prop := {
  ii_sel : io_reg_sel d = gv_sel v;
  ii_sel_pos : 0 <= gv_sel v;
  ii_entries : Forall2 same_fields (io_reg_entries d) (gv_entries v);
  ii_count : length (gv_entries v) = 24%nat;
  ii_used : io_used_entries d = gv_written v;
  ii_used_count : length (gv_written v) = 24%nat;
  ii_group : group_ok (io_group d);
  ii_shape : shape (io_group d) = shape g;
  ii_pins pin : (pin < 24)%nat -> is_Some (shape g !! Z.of_nat pin);
  ii_routes pin e w : gv_entries v !! pin = Some e -> gv_written v !! pin = Some w -> pin_routed d pin e w;
  ii_fired : exists ns, fired (io_group d) = fired g ++ ns /\ Forall2 (fun pin n => shape g !! Z.of_nat pin = Some n) pins ns;
}.

Lemma pin_index pin : (pin < 24)%nat -> wrap 32 (Z.of_nat pin) = Z.of_nat pin.
Proof. intros Hp. apply wrap_small. split; lia. Qed.

(** Routing of an entry. *)
Lemma update_entry_ok pin e (d : D) : (pin < 24)%nat -> io_reg_entries d !! pin = Some e ->
  group_ok (io_group d) -> is_Some (shape (io_group d) !! Z.of_nat pin) ->
  exists g', update_entry pin d = (Done tt, io_set_group g' d) /\ group_ok g' /\ shape g' = shape (io_group d) /\
    fired g' = fired (io_group d) /\ pin_routed (io_set_group g' d) pin e true /\
    forall j c, j <> Z.of_nat pin -> routed g' j c <-> routed (io_group d) j c.
Proof.
  intros Hp He Hg Hs. rewrite (update_entry_zoom pin e d He), pin_index by done.
  destruct (isg_update_spec (io_group d) (Z.of_nat pin) (msi_message (io_apic_address d) e) (bool_decide (interrupt_mask e = 1)) Hg Hs)
    as (g' & Hrun & Hg' & Hsh & Hf & Hr & Hm & Hoth).
  exists g'. split; [erewrite zoom_run by (apply map_err_done; exact Hrun); done|].
  split; [exact Hg'|]. split; [exact Hsh|]. split; [exact Hf|]. split; [|exact Hoth].
  unfold pin_routed. cbn [andb]. destruct (bool_decide (interrupt_mask e = 1)); cbn [negb]; [by apply Hm|].
  exists e. split; [done|]. by apply Hr.
Qed.

Lemma pin_routed_fields d pin e e' w : same_fields e e' -> pin_routed d pin e w -> pin_routed d pin e' w.
Proof.
  intros He. unfold pin_routed. rewrite (same_fields_mask e e' He). destruct (_ && _); [|done].
  intros (e1 & Hs & Hr). exists e1. split; [by etrans|done].
Qed.

Lemma inv_entries g v pins d entries : io_inv g v pins d -> Forall2 same_fields entries (io_reg_entries d) ->
  io_inv g v pins (io_set_entries entries d).
Proof.
  intros [] He. split; try assumption. cbn. clear - He ii_entries0. revert ii_entries0. generalize (gv_entries v) as l.
  induction He as [|e e' l1 l2 Hh Ht IH]; intros l Hl; inversion_clear Hl; constructor; [by etrans|by apply IH].
Qed.

Lemma inv_entry g v pins d pin : io_inv g v pins d -> (pin < 24)%nat ->
  exists e e', io_reg_entries d !! pin = Some e /\ gv_entries v !! pin = Some e' /\ same_fields e e'.
Proof.
  intros Hinv Hp. destruct (lookup_lt_is_Some_2 (gv_entries v) pin) as [e' He']; [by rewrite (ii_count _ _ _ _ Hinv)|].
  destruct (Forall2_lookup_r _ _ _ _ _ (ii_entries _ _ _ _ Hinv) He') as (e & He & Hs). by exists e, e'.
Qed.

Lemma alter_is_insert {A} (f : A -> A) (l : list A) i x : l !! i = Some x -> alter f i l = <[i := f x]> l.
Proof.
  revert i. induction l as [|y l IH]; intros [|i] Hx; [done..| |]; cbn in *; [by injection Hx as ->|]. f_equal. by apply IH.
Qed.

(** A write of the guest to half of an entry. *)
Lemma write_pin g v pins d pin high val : io_inv g v pins d -> in_width 32 val -> (pin < 24)%nat ->
  exists d', (let* entry := at_index (io_reg_entries d) pin in
    modify (fun d => io_set_entries (<[pin := write_entry val high entry]> (io_reg_entries d)) d) ;;;
    ignore (update_entry pin) ;;;
    modify (fun d => io_set_used (<[pin := true]> (io_used_entries d)) d)) d = (Done tt, d') /\
  io_inv g (mkView (gv_sel v) (alter (put_half high val) pin (gv_entries v)) (<[pin := true]> (gv_written v))) pins d'.
Proof.
  intros Hinv Hval Hp. destruct (inv_entry g v pins d pin Hinv Hp) as (e & e' & He & He' & Hfields).
  unfold at_index. rewrite He, bind_ret, bind_modify. set (e1 := write_entry val high e).
  set (d1 := io_set_entries (<[pin := e1]> (io_reg_entries d)) d).
  assert (Hf1 : same_fields e1 (put_half high val e')) by (by apply write_fields).
  assert (Hlen : length (io_reg_entries d) = 24%nat).
  { by rewrite (Forall2_length _ _ _ (ii_entries _ _ _ _ Hinv)), (ii_count _ _ _ _ Hinv). }
  destruct (update_entry_ok pin e1 d1) as (g' & Hrun & Hg' & Hsh & Hfi & Hr & Hoth); [done| |apply Hinv| |].
  { cbn. apply list_lookup_insert_eq. lia. }
  { cbn. rewrite (ii_shape _ _ _ _ Hinv). by apply (ii_pins _ _ _ _ Hinv). }
  rewrite (bind_done _ _ _ _ _ (ignore_done _ _ _ _ Hrun)). eexists. split; [reflexivity|].
  destruct Hinv. split; cbn [io_set_used io_set_group io_set_entries d1 io_reg_sel io_reg_entries io_used_entries io_group gv_sel gv_entries gv_written]; try assumption.
  - rewrite (alter_is_insert _ _ _ _ He'). by apply Forall2_insert.
  - by rewrite length_alter.
  - by rewrite ii_used0.
  - by rewrite length_insert.
  - by rewrite Hsh.
  - intros j ej w Hj Hw. destruct (decide (j = pin)) as [->|Hne].
    + rewrite list_lookup_alter_eq, He' in Hj. injection Hj as <-. rewrite list_lookup_insert_eq in Hw by lia.
      injection Hw as <-. eapply pin_routed_fields; [exact Hf1|]. exact Hr.
    + rewrite list_lookup_alter_ne in Hj by done. rewrite list_lookup_insert_ne in Hw by done.
      specialize (ii_routes0 j ej w Hj Hw). unfold pin_routed in *. cbn in *.
      destruct (_ && _); [destruct ii_routes0 as (e2 & ? & ?); exists e2; split; [done|apply Hoth; [lia|done]]|].
      intros c Hc. apply (ii_routes0 c). by apply Hoth in Hc; [|lia].
  - destruct ii_fired0 as (ns & Hns & Hall). exists ns. rewrite Hfi. split; assumption.
Qed.

Lemma inv_sel g v pins d n : io_inv g v pins d -> 0 <= n ->
  io_inv g (mkView n (gv_entries v) (gv_written v)) pins (io_set_reg_sel n d).
Proof. intros [] Hn. split; try assumption. reflexivity. Qed.

Lemma inv_id_reg g v pins d n : io_inv g v pins d -> io_inv g v pins (io_set_id_reg n d).
Proof. intros []. split; assumption. Qed.

Lemma window_write_ok g v pins d val : io_inv g v pins d -> in_width 32 val ->
  exists d', ioapic_write val d = (Done tt, d') /\
    io_inv g (match pin_of (gv_sel v) with
      | Some (pin, high) => mkView (gv_sel v) (alter (put_half high val) pin (gv_entries v)) (<[pin := true]> (gv_written v))
      | None => v
      end) pins d'.
Proof.
  intros Hinv Hval. pose proof (pin_of_decode (gv_sel v) (ii_sel_pos _ _ _ _ Hinv)) as Hpin.
  unfold ioapic_write. rewrite bind_get, (ii_sel _ _ _ _ Hinv). destruct (pin_of (gv_sel v)) as [[pin high]|].
  - destruct Hpin as (Hr & Hdec & Hlt). rewrite decide_False by (unfold IOWIN_OFF, IOAPIC_REG_VERSION in *; lia).
    rewrite decide_False by (unfold IOWIN_OFF, IOAPIC_REG_ID in *; lia). rewrite decide_True by exact Hr. rewrite Hdec.
    rewrite decide_False by (unfold NUM_IOAPIC_PINS; lia). by apply write_pin.
  - case_decide; [by exists d|]. case_decide; [|rewrite decide_False by exact Hpin; by exists d].
    eexists. split; [reflexivity|]. by apply inv_id_reg.
Qed.

Lemma bus_write_ok g v pins d offset data : io_inv g v pins d -> Forall byte_ok data ->
  exists d', io_bus_write offset data d = (Done tt, d') /\ io_inv g (guest_writes offset data v) pins d'.
Proof.
  intros Hinv Hdata. unfold io_bus_write, guest_writes. destruct (decide (length data = 4%nat)) as [Hlen|Hlen].
  2: { rewrite decide_True by exact Hlen. by exists d. }
  rewrite decide_False by lia. pose proof (le_value_width data Hdata) as Hval. rewrite Hlen in Hval.
  change (wrap 8 offset) with (offset mod 256). unfold IOREGSEL_OFF, IOWIN_OFF.
  case_decide; [eexists; split; [reflexivity|]; apply inv_sel; [exact Hinv|apply Hval]|].
  case_decide; [by apply window_write_ok|by exists d].
Qed.

Lemma Forall2_fields_insert l pin e e' : l !! pin = Some e -> same_fields e' e -> Forall2 same_fields (<[pin := e']> l) l.
Proof.
  intros He Hs. rewrite <- (list_insert_id l pin e He) at 2. apply Forall2_insert; [|exact Hs].
  by apply Forall_Forall2_diag, Forall_true.
Qed.

Lemma service_ok g v pins d pin : io_inv g v pins d -> (pin < 24)%nat ->
  exists d', service_irq pin d = (Done tt, d') /\ io_inv g v (pins ++ [pin]) d'.
Proof.
  intros Hinv Hp. destruct (inv_entry g v pins d pin Hinv Hp) as (e & e' & He & He' & Hfields).
  destruct (ii_pins _ _ _ _ Hinv pin Hp) as [n Hn].
  destruct (isg_trigger_spec (io_group d) (Z.of_nat pin) n (ii_group _ _ _ _ Hinv)) as (g' & Hrun & Hg' & Hsh & Hfi & Hr).
  { by rewrite (ii_shape _ _ _ _ Hinv). }
  unfold service_irq. rewrite bind_get. unfold at_index. rewrite He, bind_ret, pin_index by done.
  erewrite bind_done by (apply zoom_run, map_err_done; exact Hrun). eexists. split; [reflexivity|]. cbv beta.
  apply inv_entries; [|by eapply Forall2_fields_insert, serviced_fields].
  destruct Hinv. split; cbn [io_set_group io_reg_sel io_reg_entries io_used_entries io_group]; try assumption.
  - by rewrite Hsh.
  - intros j ej w Hj Hw. specialize (ii_routes0 j ej w Hj Hw). unfold pin_routed in *. cbn in *.
    destruct (_ && _); [destruct ii_routes0 as (e2 & ? & ?); exists e2; split; [done|by apply Hr]|].
    intros c Hc%Hr. by apply (ii_routes0 c).
  - destruct ii_fired0 as (ns & Hns & Hall). exists (ns ++ [n]). rewrite Hfi, Hns, app_assoc. split; [done|].
    apply Forall2_app; [done|]. by repeat constructor.
Qed.

Lemma read_ok g v pins d offset data : io_inv g v pins d -> is_Some (io_bus_read offset data d).
Proof.
  intros Hinv. unfold io_bus_read. case_decide; [done|]. case_decide; [done|]. case_decide; [|done].
  unfold ioapic_read. rewrite (ii_sel _ _ _ _ Hinv). case_decide; [done|]. case_decide; [done|].
  pose proof (pin_of_decode (gv_sel v) (ii_sel_pos _ _ _ _ Hinv)) as Hpin. case_decide as Hr; [|done].
  destruct (pin_of (gv_sel v)) as [[pin high]|]; [|done]. destruct Hpin as (_ & -> & Hlt). case_decide; [done|].
  destruct (inv_entry g v pins d pin Hinv Hlt) as (e & _ & -> & _). done.
Qed.

Lemma io_exec_ok g v pins d o : io_inv g v pins d -> ioapic_op_ok o ->
  exists d', io_exec o d = Some d' /\ io_inv g (guest_after o v) (pins ++ serviced_pins [o]) d'.
Proof.
  intros Hinv Ho. destruct o as [offset data|offset data|vec|pin]; cbn [io_exec guest_after serviced_pins omap list_omap];
    rewrite ?app_nil_r.
  - destruct (bus_write_ok g v pins d offset data Hinv Ho) as (d' & -> & Hd'). by exists d'.
  - destruct (read_ok g v pins d offset data Hinv) as [x ->]. by exists d.
  - eexists. split; [reflexivity|]. apply inv_entries; [exact Hinv|]. apply Forall2_fmap_l, Forall_Forall2_diag, Forall_true.
    intros e. apply eoi_fields.
  - destruct (service_ok g v pins d pin Hinv Ho) as (d' & -> & Hd'). by exists d'.
Qed.

Lemma io_run_ok g os v pins d : io_inv g v pins d -> Forall ioapic_op_ok os ->
  exists d', io_run os d = Some d' /\ io_inv g (foldl (fun v o => guest_after o v) v os) (pins ++ serviced_pins os) d'.
Proof.
  revert v pins d. induction os as [|o os IH]; intros v pins d Hinv Hos; [exists d; by rewrite app_nil_r|].
  inversion_clear Hos as [|? ? Ho Hos']. destruct (io_exec_ok g v pins d o Hinv Ho) as (d1 & Hrun & Hinv1).
  destruct (IH _ _ d1 Hinv1 Hos') as (d' & Hrun' & Hinv'). exists d'. cbn [io_run foldl]. rewrite Hrun. split; [exact Hrun'|].
  rewrite <- app_assoc in Hinv'. unfold serviced_pins in *. by rewrite (omap_app _ [o] os).
Qed.

Lemma io_inv_new id apic_address g : group_ok g -> (forall pin, (pin < 24)%nat -> is_Some (shape g !! Z.of_nat pin)) ->
  (forall i c, ~ routed g i c) -> io_inv g new_view [] (ioapic_new id apic_address g).
Proof.
  intros Hg Hpins Hno. split; [done|done|by apply Forall_Forall2_diag, Forall_true|done|done|done|exact Hg|done|exact Hpins| |].
  - intros pin e w _ Hw. cbn [gv_written new_view] in Hw. apply lookup_replicate in Hw as [-> _]. intros c. apply Hno.
  - exists []. by rewrite app_nil_r.
Qed.

(** ** Snapshots

    A controller that takes over the state of another routes the programmed pins
    in its own group. *)
Lemma update_used_ok used k d : (k + length used <= 24)%nat -> length (io_reg_entries d) = 24%nat -> group_ok (io_group d) ->
  (forall pin, (pin < 24)%nat -> is_Some (shape (io_group d) !! Z.of_nat pin)) ->
  exists g', update_used k used d = (Done tt, io_set_group g' d) /\ group_ok g' /\ shape g' = shape (io_group d) /\
    fired g' = fired (io_group d) /\
    (forall j e, io_reg_entries d !! (k + j)%nat = Some e -> used !! j = Some true -> pin_routed (io_set_group g' d) (k + j) e true) /\
    (forall i c, (forall j, used !! j = Some true -> i <> Z.of_nat (k + j)) -> routed g' i c <-> routed (io_group d) i c).
Proof.
  revert k d. induction used as [|b used IH]; intros k d Hk Hlen Hg Hs.
  { exists (io_group d). split; [by destruct d|]. split; [exact Hg|]. split; [reflexivity|]. split; [reflexivity|].
    split; [intros j e _ Hj; discriminate Hj|intros i c _; reflexivity]. }
  cbn [length] in Hk. cbn [update_used].
  assert (Hstep : exists g1, (if b then update_entry k else ret tt) d = (Done tt, io_set_group g1 d) /\ group_ok g1 /\
    shape g1 = shape (io_group d) /\ fired g1 = fired (io_group d) /\
    (forall e, b = true -> io_reg_entries d !! k = Some e -> pin_routed (io_set_group g1 d) k e true) /\
    (forall j c, (b = true -> j <> Z.of_nat k) -> routed g1 j c <-> routed (io_group d) j c)).
  { destruct b.
    - destruct (lookup_lt_is_Some_2 (io_reg_entries d) k) as [e He]; [lia|].
      destruct (update_entry_ok k e d) as (g1 & Hrun & Hg1 & Hs1 & Hf1 & Hr1 & Ho1); [lia|exact He|exact Hg|apply Hs; lia|].
      exists g1. split; [exact Hrun|]. split; [exact Hg1|]. split; [exact Hs1|]. split; [exact Hf1|].
      split; [intros e' _ He'; rewrite He in He'; injection He' as <-; exact Hr1|]. intros j c Hj. apply Ho1. by apply Hj.
    - exists (io_group d). split; [by destruct d|]. split; [exact Hg|]. split; [reflexivity|]. split; [reflexivity|].
      split; [intros e Hb; discriminate Hb|intros j c _; reflexivity]. }
  destruct Hstep as (g1 & Hrun & Hg1 & Hs1 & Hf1 & Hr1 & Ho1). rewrite (bind_done _ _ _ _ _ Hrun).
  destruct (IH (S k) (io_set_group g1 d)) as (g2 & Hrun2 & Hg2 & Hs2 & Hf2 & Hr2 & Ho2); [lia|exact Hlen|exact Hg1| |].
  { cbn. rewrite Hs1. exact Hs. }
  cbn in Hs2, Hf2. exists g2. split; [exact Hrun2|]. split; [exact Hg2|]. split; [congruence|]. split; [congruence|]. split.
  - intros [|j] e He Hj; cbn in Hj.
    + rewrite Nat.add_0_r in *. injection Hj as ->. specialize (Hr1 e eq_refl He).
      assert (Hsame : forall c, routed g2 (Z.of_nat k) c <-> routed g1 (Z.of_nat k) c).
      { intros c. apply Ho2. intros j _. lia. }
      unfold pin_routed in *. cbn in *. destruct (negb _).
      * destruct Hr1 as (e2 & ? & ?). exists e2. split; [done|]. by apply Hsame.
      * intros c Hc%Hsame. by apply (Hr1 c).
    + replace (k + S j)%nat with (S k + j)%nat in * by lia. exact (Hr2 j e He Hj).
  - intros i c Hi. rewrite Ho2; [|intros j Hj; replace (S k + j)%nat with (k + S j)%nat by lia; by apply Hi].
    cbn. apply Ho1. intros ->. rewrite <- (Nat.add_0_r k). by apply (Hi 0%nat).
Qed.

Lemma ioapic_restored s d : length (is_reg_entries s) = 24%nat -> length (is_used_entries s) = 24%nat -> group_ok (io_group d) ->
  (forall pin, (pin < 24)%nat -> is_Some (shape (io_group d) !! Z.of_nat pin)) -> (forall i c, ~ routed (io_group d) i c) ->
  exists d', ioapic_set_state s d = (Done tt, d') /\ ioapic_state d' = s /\ fired (io_group d') = fired (io_group d) /\
    forall pin e w, is_reg_entries s !! pin = Some e -> is_used_entries s !! pin = Some w -> pin_routed d' pin e w.
Proof.
  intros Hlen Hused Hg Hs Hno. unfold ioapic_set_state. rewrite bind_modify.
  set (d1 := mkIoapic (io_id d) _ _ _ _ _ _).
  destruct (update_used_ok (is_used_entries s) 0 d1) as (g' & Hrun & _ & _ & Hf & Hr & Ho); [lia|exact Hlen|exact Hg|exact Hs|].
  exists (io_set_group g' d1). split; [exact Hrun|]. split; [by destruct s|]. split; [exact Hf|].
  intros pin e [] He Hw; [by apply (Hr pin)|]. intros c Hc. apply (Hno (Z.of_nat pin) c), Ho; [|exact Hc].
  intros j Hj Heq. apply Nat2Z.inj in Heq. cbn in Heq. subst j. congruence.
Qed.
End delivery.

(** C14: The I/O APIC delivers what the guest has programmed.
    Over any sequence of accesses of the guest to the registers, interrupts of the
    pins and ends of interrupts, from a new controller whose group has an interrupt
    for each pin and routes none: nothing panics; the interrupts raised are those of
    the pins, in order; every entry is what the guest wrote last to its two halves,
    up to the read-only bits; and an interrupt of a pin arrives as the message of
    its entry, or not at all when the pin is masked or was never programmed. *)
Theorem ioapic_delivers {G} `{GroupLaws G} id apic_address (g : G) os :
  group_ok g -> (forall pin, (pin < 24)%nat -> is_Some (shape g !! Z.of_nat pin)) -> (forall i c, ~ routed g i c) ->
  Forall ioapic_op_ok os ->
  exists d, io_run os (ioapic_new id apic_address g) = Some d /\
    (exists ns, fired (io_group d) = fired g ++ ns /\
      Forall2 (fun pin n => shape g !! Z.of_nat pin = Some n) (serviced_pins os) ns) /\
    Forall2 same_fields (io_reg_entries d) (gv_entries (guest_run os)) /\
    forall pin e w, gv_entries (guest_run os) !! pin = Some e -> gv_written (guest_run os) !! pin = Some w -> pin_routed d pin e w.
Proof.
  intros Hg Hpins Hno Hos. destruct (io_run_ok g os new_view [] (ioapic_new id apic_address g)) as (d & Hrun & Hinv).
  { by apply io_inv_new. } { exact Hos. }
  exists d. split; [exact Hrun|]. split; [apply Hinv|]. split; [apply Hinv|]. apply Hinv.
Qed.

(** ** Example: a controller on a group of the interrupt manager *)
#[local] Existing Instances example_host example_host_accepts.

Definition pins_group : MsiInterruptGroup :=
  match (create_group (fun _ => true) 0 24 ∅ (mkKvm ∅ [] []) example_system).1 with
  | Done g => g
  | _ => mkMsiGroup ∅ ∅ (mkKvm ∅ [] [])
  end.

Lemma pins_group_ok :
  msi_ok pins_group /\ group_vm pins_group = mkKvm ∅ [] [] /\
  forall k, msi_shape pins_group !! k = if decide (0 <= k < 24) then Some (24 + k) else None.
Proof.
  destruct (create_group_ok (fun _ => true) 5 19 0 0 0 24 ∅ (mkKvm ∅ [] []) example_system)
    as (g & s' & Hrun & _ & Hok & Hvm & Hsh); [by vm_compute|lia..|done| |].
  { split; cbn; [by intros| |set_solver]. intros e. rewrite elem_of_nil. split; [done|by intros [? ?]]. }
  unfold pins_group. rewrite Hrun. split; [done|]. split; [done|].
  intros k. rewrite Hsh. repeat case_decide; try lia; [|done]. f_equal. lia.
Qed.

(** The guest programs the pin 1 for the processor 2, level-triggered with the
    vector 0x41, and takes two interrupts; the pin 3 stays masked. *)
Definition example_ioapic_ops : list ioapic_op :=
  [IoWrite 0 (le_bytes 4 0x13); IoWrite 16 (le_bytes 4 0x02000000); IoWrite 0 (le_bytes 4 0x12); IoWrite 16 (le_bytes 4 0x8041);
   IoService 1; IoEoi 0x41; IoService 1; IoRead 16 [0; 0; 0; 0]; IoWrite 0 (le_bytes 4 0x16); IoWrite 16 (le_bytes 4 0x10042)].

Lemma ioapic_delivers_witness :
  exists d, io_run example_ioapic_ops (ioapic_new "ioapic" 0xfee00000 pins_group) = Some d /\
    fired (io_group d) = [25; 25] /\ pin_routed d 1 0x0200000000008041 true /\ pin_routed d 3 0x10042 true.
Proof.
  generalize pins_group, pins_group_ok. intros g (Hok & Hvm & Hsh).
  destruct (ioapic_delivers "ioapic" 0xfee00000 g example_ioapic_ops) as (d & Hrun & (ns & Hns & Hall) & _ & Hr).
  - exact Hok.
  - intros pin Hp. cbn [shape msi_group_laws]. rewrite Hsh, decide_True by lia. done.
  - intros i c (n & _ & Hin & _). rewrite Hvm in Hin. exact (not_elem_of_empty n Hin).
  - repeat constructor; vm_compute; congruence.
  - exists d. split; [exact Hrun|]. split; [|split; [apply Hr; vm_compute; reflexivity|apply Hr; vm_compute; reflexivity]].
    rewrite Hns. cbn [fired msi_group_laws]. rewrite Hvm. cbn.
    change (serviced_pins example_ioapic_ops) with [1%nat; 1%nat] in Hall.
    inversion_clear Hall as [|? n1 ? l1 H1 Hl1]. inversion_clear Hl1 as [|? n2 ? l2 H2 Hl2]. inversion_clear Hl2.
    cbn [shape msi_group_laws] in H1, H2. rewrite Hsh, decide_True in H1, H2 by lia.
    injection H1 as <-. injection H2 as <-. reflexivity.
Defined.
