(* ===== verification/PciConfig.v ===== *)
(** The configuration space of a PCI function
    (hypervisor/pci/src/configuration.rs): registers and their writable bits,
    base address registers, and the list of capabilities. *)
From stdpp Require Import base numbers gmap list.
From S2P Require Import Prelude Bytes IrqGroup Msix.
#[local] Open Scope Z_scope.

Definition NUM_CONFIGURATION_REGISTERS : nat := 1024.
Definition STATUS_REG : nat := 1.
Definition STATUS_REG_CAPABILITIES_USED_MASK : Z := 0x00100000.
Definition BAR0_REG : nat := 4.
Definition ROM_BAR_REG : nat := 12.
Definition ROM_BAR_IDX : nat := 6.
Definition BAR_IO_ADDR_MASK : Z := 0xfffffffc.
Definition BAR_MEM_ADDR_MASK : Z := 0xfffffff0.
Definition ROM_BAR_ADDR_MASK : Z := 0xfffff800.
Definition MSI_CAPABILITY_REGISTER_MASK : Z := 0x00710000.
Definition MSIX_CAPABILITY_REGISTER_MASK : Z := 0xc0000000.
Definition NUM_BAR_REGS : nat := 6.
Definition CAPABILITY_LIST_HEAD_OFFSET : nat := 0x34.
Definition FIRST_CAPABILITY_OFFSET : nat := 0x40.
Definition CAPABILITY_MAX_OFFSET : nat := 192.
Definition INTERRUPT_LINE_PIN_REG : nat := 15.
Definition U32_MAX : Z := 0xffffffff.

(** ** Types *)
Inductive PciHeaderType := Device | Bridge.

Inductive PciCapabilityId :=
| ListId | PowerManagement | AcceleratedGraphicsPort | VitalProductData | SlotIdentification
| MessageSignalledInterrupts | CompactPciHotSwap | PciX | HyperTransport | VendorSpecific | Debugport
| CompactPciCentralResourceControl | PciStandardHotPlugController | BridgeSubsystemVendorDeviceId
| AgpTargetPciPcibridge | SecureDevice | PciExpress | MsiX | SataDataIndexConf | PciAdvancedFeatures
| PciEnhancedAllocation.

Definition capability_value (id : PciCapabilityId) : Z :=
  match id with
  | ListId => 0 | PowerManagement => 1 | AcceleratedGraphicsPort => 2 | VitalProductData => 3
  | SlotIdentification => 4 | MessageSignalledInterrupts => 5 | CompactPciHotSwap => 6 | PciX => 7
  | HyperTransport => 8 | VendorSpecific => 9 | Debugport => 10 | CompactPciCentralResourceControl => 11
  | PciStandardHotPlugController => 12 | BridgeSubsystemVendorDeviceId => 13 | AgpTargetPciPcibridge => 14
  | SecureDevice => 15 | PciExpress => 16 | MsiX => 17 | SataDataIndexConf => 18 | PciAdvancedFeatures => 19
  | PciEnhancedAllocation => 20
  end.

(** What a capability provides: its id and the bytes after its header. *)
Record PciCapability := mkCapability { cap_id : PciCapabilityId; cap_bytes : list Z }.

Inductive PciBarRegionType := Memory32BitRegion | IoRegion | Memory64BitRegion.
#[global] Instance PciBarRegionType_eq_dec : EqDecision PciBarRegionType.
Proof. solve_decision. Defined.
Definition region_value (t : PciBarRegionType) : Z :=
  match t with Memory32BitRegion => 0 | IoRegion => 1 | Memory64BitRegion => 4 end.

Inductive PciBarPrefetchable := NotPrefetchable | Prefetchable.
Definition prefetchable_value (p : PciBarPrefetchable) : Z :=
  match p with NotPrefetchable => 0 | Prefetchable => 8 end.

Record PciBarConfiguration := mkBarConfig {
  bc_addr : Z;
  bc_size : Z;
  bc_idx : nat;
  bc_region_type : PciBarRegionType;
  bc_prefetchable : PciBarPrefetchable;
}.

Record PciBar := mkBar { bar_addr : Z; bar_size : Z; bar_used : bool; bar_type : option PciBarRegionType }.
Definition bar_default : PciBar := mkBar 0 0 false None.

Record BarReprogrammingParams := mkParams {
  old_base : Z;
  new_base : Z;
  bar_len : Z;
  region_type : PciBarRegionType;
}.

Inductive pci_error :=
| BarAddressInvalid (addr size : Z)
| BarInUse (idx : nat)
| BarInUse64 (idx : nat)
| BarInvalid (idx : nat)
| BarInvalid64 (idx : nat)
| BarSizeInvalid (size : Z)
| CapabilityEmpty
| CapabilitySpaceFull (len : nat)
| Encode32BarSize
| Encode64BarSize
| RomBarAddressInvalid (addr size : Z)
| RomBarInUse (idx : nat)
| RomBarInvalid (idx : nat)
| RomBarSizeInvalid (size : Z).

(** ** Sizes of base address registers *)
Definition encode_32_bits_bar_size (bar_size : Z) : option Z :=
  if decide (0 < bar_size) then Some (unot 32 (bar_size - 1)) else None.
Definition decode_32_bits_bar_size (bar_size : Z) : option Z :=
  if decide (0 < bar_size) then Some (wadd 32 (unot 32 bar_size) 1) else None.
Definition encode_64_bits_bar_size (bar_size : Z) : option (Z * Z) :=
  if decide (0 < bar_size) then
    let result := unot 64 (bar_size - 1) in
    Some (wrap 32 (Z.shiftr result 32), wrap 32 (Z.land result U32_MAX))
  else None.
Definition decode_64_bits_bar_size (bar_size_hi bar_size_lo : Z) : option Z :=
  let bar_size := Z.lor (Z.shiftl bar_size_hi 32) bar_size_lo in
  if decide (0 < bar_size) then Some (wadd 64 (unot 64 bar_size) 1) else None.

(** [u64::count_ones] *)
Definition count_ones (x : Z) : nat := length (filter (fun i => Z.testbit x i = true) (seqZ 0 64)).

(** ** The configuration space *)
Record PciConfiguration (G : Type) := mkPciConfig {
  registers : list Z;
  writable_bits : list Z;
  bars : list PciBar;
  rom_bar_addr : Z;
  rom_bar_size : Z;
  rom_bar_used : bool;
  last_capability : option (nat * nat);
  msix_cap_reg_idx : option nat;
  msix_config : option (MsixConfig G);
}.
Arguments mkPciConfig {G}.
Arguments registers {G}.
Arguments writable_bits {G}.
Arguments bars {G}.
Arguments rom_bar_addr {G}.
Arguments rom_bar_size {G}.
Arguments rom_bar_used {G}.
Arguments last_capability {G}.
Arguments msix_cap_reg_idx {G}.
Arguments msix_config {G}.

Section config.
Context {G : Type} `{InterruptSourceGroup G}.
Abbreviation P := (PciConfiguration G).
Abbreviation IO A := (M P pci_error A).

Definition set_registers (r : list Z) (c : P) : P :=
  mkPciConfig r (writable_bits c) (bars c) (rom_bar_addr c) (rom_bar_size c) (rom_bar_used c)
    (last_capability c) (msix_cap_reg_idx c) (msix_config c).
Definition set_writable (w : list Z) (c : P) : P :=
  mkPciConfig (registers c) w (bars c) (rom_bar_addr c) (rom_bar_size c) (rom_bar_used c)
    (last_capability c) (msix_cap_reg_idx c) (msix_config c).
Definition set_bars (b : list PciBar) (c : P) : P :=
  mkPciConfig (registers c) (writable_bits c) b (rom_bar_addr c) (rom_bar_size c) (rom_bar_used c)
    (last_capability c) (msix_cap_reg_idx c) (msix_config c).
Definition set_rom (addr size : Z) (used : bool) (c : P) : P :=
  mkPciConfig (registers c) (writable_bits c) (bars c) addr size used
    (last_capability c) (msix_cap_reg_idx c) (msix_config c).
Definition set_capability (last : option (nat * nat)) (idx : option nat) (c : P) : P :=
  mkPciConfig (registers c) (writable_bits c) (bars c) (rom_bar_addr c) (rom_bar_size c) (rom_bar_used c)
    last idx (msix_config c).
Definition set_msix (m : option (MsixConfig G)) (c : P) : P :=
  mkPciConfig (registers c) (writable_bits c) (bars c) (rom_bar_addr c) (rom_bar_size c) (rom_bar_used c)
    (last_capability c) (msix_cap_reg_idx c) m.

Definition put_register (i : nat) (v : Z) : P -> P := fun c => set_registers (<[i := v]> (registers c)) c.
Definition put_writable (i : nat) (v : Z) : P -> P := fun c => set_writable (<[i := v]> (writable_bits c)) c.
Definition put_bar (i : nat) (b : PciBar) : P -> P := fun c => set_bars (<[i := b]> (bars c)) c.

(** [class], [subclass] and [pi] are the register values of the class codes. *)
Definition config_new (vendor_id device_id revision_id class subclass : Z) (programming_interface : option Z)
    (header_type : PciHeaderType) (subsystem_vendor_id subsystem_id : Z) (msix : option (MsixConfig G)) : P :=
  let pi := default 0 programming_interface in
  let zeros := replicate NUM_CONFIGURATION_REGISTERS 0 in
  let registers :=
    <[0%nat := Z.lor (Z.shiftl device_id 16) vendor_id]>
    (<[2%nat := Z.lor (Z.lor (Z.lor (Z.shiftl class 24) (Z.shiftl subclass 16)) (Z.shiftl pi 8)) revision_id]>
    (<[3%nat := match header_type with Device => 0 | Bridge => 0x00010000 end]>
    (<[11%nat := Z.lor (Z.shiftl subsystem_id 16) subsystem_vendor_id]> zeros))) in
  let writable_bits :=
    <[1%nat := 0x0000ffff]> (<[3%nat := 0x000000ff]>
    match header_type with
    | Device => <[15%nat := 0x000000ff]> zeros
    | Bridge => <[9%nat := 0xfff0fff0]> (<[15%nat := 0xffff00ff]> zeros)
    end) in
  mkPciConfig registers writable_bits (replicate NUM_BAR_REGS bar_default) 0 0 false None None msix.

(** ** Saving and restoring: all but the MSI-X table, which has a state of its own *)
Record PciConfigurationState := mkConfigState {
  cs_registers : list Z;
  cs_writable_bits : list Z;
  cs_bars : list PciBar;
  cs_rom_bar_addr : Z;
  cs_rom_bar_size : Z;
  cs_rom_bar_used : bool;
  cs_last_capability : option (nat * nat);
  cs_msix_cap_reg_idx : option nat;
}.
Definition config_state (c : P) : PciConfigurationState :=
  mkConfigState (registers c) (writable_bits c) (bars c) (rom_bar_addr c) (rom_bar_size c) (rom_bar_used c)
    (last_capability c) (msix_cap_reg_idx c).
(** [clone_from_slice] panics on slices of another length. *)
Definition config_set_state (st : PciConfigurationState) : IO unit :=
  let* c := get in
  if decide (length (cs_registers st) = length (registers c)) then
    modify (set_registers (cs_registers st)) ;;;
    if decide (length (cs_writable_bits st) = length (writable_bits c)) then
      modify (set_writable (cs_writable_bits st)) ;;;
      if decide (length (cs_bars st) = length (bars c)) then
        modify (set_bars (cs_bars st)) ;;;
        modify (set_rom (cs_rom_bar_addr st) (cs_rom_bar_size st) (cs_rom_bar_used st)) ;;;
        modify (set_capability (cs_last_capability st) (cs_msix_cap_reg_idx st))
      else crash
    else crash
  else crash.

(** ** Reads and writes of registers *)
Definition read_reg (reg_idx : nat) (c : P) : Z := default U32_MAX (registers c !! reg_idx).

Definition is_bar_reg (reg_idx : nat) : bool :=
  bool_decide (BAR0_REG <= reg_idx)%nat && bool_decide (reg_idx < BAR0_REG + NUM_BAR_REGS)%nat.

Definition write_reg (reg_idx : nat) (value : Z) : IO unit :=
  let* c := get in
  let* wb := at_index (writable_bits c) reg_idx in
  let* mask :=
    (if is_bar_reg reg_idx then
       if decide (value = U32_MAX) then
         let* bar := at_index (bars c) (reg_idx - 4) in ret (Z.land wb (bar_size bar))
       else ret wb
     else if decide (reg_idx = ROM_BAR_REG) then
       if decide (Z.land value ROM_BAR_ADDR_MASK = ROM_BAR_ADDR_MASK) then ret (Z.land wb (rom_bar_size c)) else ret wb
     else ret wb) in
  match registers c !! reg_idx with
  | Some r => modify (put_register reg_idx (Z.lor (Z.land r (unot 32 wb)) (Z.land value mask)))
  | None => ret tt
  end.

Definition write_word (offset : nat) (value : Z) : IO unit :=
  let go (shift : Z) : IO unit :=
    let reg_idx := (offset / 4)%nat in
    let* c := get in
    match registers c !! reg_idx with
    | Some r =>
      let* writable_mask := at_index (writable_bits c) reg_idx in
      let mask := Z.land (wrap 32 (Z.shiftl 0xffff shift)) writable_mask in
      let shifted_value := Z.land (wrap 32 (Z.shiftl value shift)) writable_mask in
      modify (put_register reg_idx (Z.lor (Z.land r (unot 32 mask)) shifted_value))
    | None => ret tt
    end in
  match (offset mod 4)%nat with
  | 0%nat => go 0
  | 2%nat => go 16
  | _ => ret tt
  end.

Definition write_byte_internal (offset : nat) (value : Z) (apply_writable_mask : bool) : IO unit :=
  let shift := 8 * Z.of_nat (offset mod 4) in
  let reg_idx := (offset / 4)%nat in
  let* c := get in
  match registers c !! reg_idx with
  | Some r =>
    let* writable_mask := if apply_writable_mask then at_index (writable_bits c) reg_idx else ret U32_MAX in
    let mask := Z.land (wrap 32 (Z.shiftl 0xff shift)) writable_mask in
    let shifted_value := Z.land (wrap 32 (Z.shiftl value shift)) writable_mask in
    modify (put_register reg_idx (Z.lor (Z.land r (unot 32 mask)) shifted_value))
  | None => ret tt
  end.
Definition write_byte (offset : nat) (value : Z) : IO unit := write_byte_internal offset value true.

(** ** Base address registers *)
Definition bar_encoding (config : PciBarConfiguration) : Z * Z :=
  match bc_region_type config with
  | Memory32BitRegion | Memory64BitRegion =>
    (BAR_MEM_ADDR_MASK, Z.lor (prefetchable_value (bc_prefetchable config)) (region_value (bc_region_type config)))
  | IoRegion => (BAR_IO_ADDR_MASK, region_value (bc_region_type config))
  end.

(** The part of [add_pci_bar] that depends on the region: the encoded size, and
    the upper half of a 64-bit register. *)
Definition add_bar_region (config : PciBarConfiguration) (end_addr : Z) : IO unit :=
  let bar_idx := bc_idx config in
  let reg_idx := (BAR0_REG + bar_idx)%nat in
  let* c := get in
  let* bar := at_index (bars c) bar_idx in
  match bc_region_type config with
  | Memory32BitRegion | IoRegion =>
    if decide (U32_MAX < end_addr) then throw (BarAddressInvalid (bc_addr config) (bc_size config))
    else match encode_32_bits_bar_size (wrap 32 (bc_size config)) with
    | None => throw Encode32BarSize
    | Some size => modify (put_bar bar_idx (mkBar (bar_addr bar) size (bar_used bar) (bar_type bar)))
    end
  | Memory64BitRegion =>
    if decide (NUM_BAR_REGS <= bar_idx + 1)%nat then throw (BarInvalid64 bar_idx)
    else if decide (2 ^ 64 - 1 < end_addr) then throw (BarAddressInvalid (bc_addr config) (bc_size config))
    else
      let* next := at_index (bars c) (bar_idx + 1) in
      if bar_used next then throw (BarInUse64 bar_idx)
      else match encode_64_bits_bar_size (bc_size config) with
      | None => throw Encode64BarSize
      | Some (bar_size_hi, bar_size_lo) =>
        let upper := wrap 32 (Z.shiftr (bc_addr config) 32) in
        modify (put_register (reg_idx + 1) upper) ;;;
        modify (put_writable (reg_idx + 1) U32_MAX) ;;;
        modify (put_bar bar_idx (mkBar (bar_addr bar) bar_size_lo (bar_used bar) (bar_type bar))) ;;;
        modify (put_bar (bar_idx + 1) (mkBar upper bar_size_hi true (bar_type next)))
      end
  end.

Definition add_pci_bar (config : PciBarConfiguration) : IO unit :=
  let bar_idx := bc_idx config in
  let reg_idx := (BAR0_REG + bar_idx)%nat in
  let* c := get in
  let* bar := at_index (bars c) bar_idx in
  if bar_used bar then throw (BarInUse bar_idx)
  else if decide (count_ones (bc_size config) <> 1%nat) then throw (BarSizeInvalid (bc_size config))
  else if decide (NUM_BAR_REGS <= bar_idx)%nat then throw (BarInvalid bar_idx)
  else match checked_add 64 (bc_addr config) (bc_size config - 1) with
  | None => throw (BarAddressInvalid (bc_addr config) (bc_size config))
  | Some end_addr =>
    add_bar_region config end_addr ;;;
    let '(mask, lower_bits) := bar_encoding config in
    let value := Z.lor (Z.land (wrap 32 (bc_addr config)) mask) lower_bits in
    modify (put_register reg_idx value) ;;;
    modify (put_writable reg_idx mask) ;;;
    let* c := get in
    let* bar := at_index (bars c) bar_idx in
    modify (put_bar bar_idx (mkBar value (bar_size bar) true (Some (bc_region_type config))))
  end.

Definition add_pci_rom_bar (config : PciBarConfiguration) (active : Z) : IO unit :=
  let bar_idx := bc_idx config in
  let* c := get in
  if rom_bar_used c then throw (RomBarInUse bar_idx)
  else if decide (count_ones (bc_size config) <> 1%nat) then throw (RomBarSizeInvalid (bc_size config))
  else if decide (bar_idx <> ROM_BAR_IDX) then throw (RomBarInvalid bar_idx)
  else match checked_add 64 (bc_addr config) (bc_size config - 1) with
  | None => throw (RomBarAddressInvalid (bc_addr config) (bc_size config))
  | Some end_addr =>
    if decide (U32_MAX < end_addr) then throw (RomBarAddressInvalid (bc_addr config) (bc_size config))
    else
      let value := Z.lor (wrap 32 (bc_addr config)) active in
      modify (put_register ROM_BAR_REG value) ;;;
      modify (put_writable ROM_BAR_REG ROM_BAR_ADDR_MASK) ;;;
      modify (fun c => set_rom value (rom_bar_size c) (rom_bar_used c) c) ;;;
      match encode_32_bits_bar_size (wrap 32 (bc_size config)) with
      | None => throw Encode32BarSize
      | Some size => modify (fun c => set_rom (rom_bar_addr c) size true c)
      end
  end.

Definition get_bar_addr (bar_num : nat) : IO Z :=
  let* c := get in
  let* bar := at_index (bars c) bar_num in
  let* wb := at_index (writable_bits c) (BAR0_REG + bar_num) in
  let addr := Z.land (bar_addr bar) wb in
  if decide (bar_type bar = Some Memory64BitRegion) then
    let* next := at_index (bars c) (bar_num + 1) in
    ret (Z.lor addr (wrap 64 (Z.shiftl (bar_addr next) 32)))
  else ret addr.

(** [pin] is the number of the pin, from 0. *)
Definition set_irq (line pin : Z) : IO unit :=
  let* c := get in
  let* r := at_index (registers c) INTERRUPT_LINE_PIN_REG in
  modify (put_register INTERRUPT_LINE_PIN_REG
    (Z.lor (Z.lor (Z.land r 0xffff0000) (wrap 32 (Z.shiftl (pin + 1) 8))) line)).

(** ** Capabilities *)
Definition next_dword (offset len : nat) : nat :=
  let next := (offset + len)%nat in
  Z.to_nat (Z.land (Z.of_nat (next + 3)) (unot 64 3)).

Fixpoint write_bytes (offset : nat) (bytes : list Z) : IO unit :=
  match bytes with
  | [] => ret tt
  | b :: bytes => write_byte_internal offset b false ;;; write_bytes (S offset) bytes
  end.

Definition add_capability (cap : PciCapability) : IO nat :=
  let total_len := length (cap_bytes cap) in
  if decide (total_len = 0%nat) then throw CapabilityEmpty
  else
    let* c := get in
    let '(cap_offset, tail_offset) :=
      match last_capability c with
      | Some (offset, len) => (next_dword offset len, (offset + 1)%nat)
      | None => (FIRST_CAPABILITY_OFFSET, CAPABILITY_LIST_HEAD_OFFSET)
      end in
    if decide (CAPABILITY_MAX_OFFSET < cap_offset + total_len)%nat then throw (CapabilitySpaceFull total_len)
    else
      let* status := at_index (registers c) STATUS_REG in
      modify (put_register STATUS_REG (Z.lor status STATUS_REG_CAPABILITIES_USED_MASK)) ;;;
      write_byte_internal tail_offset (wrap 8 (Z.of_nat cap_offset)) false ;;;
      write_byte_internal cap_offset (capability_value (cap_id cap)) false ;;;
      write_byte_internal (cap_offset + 1) 0 false ;;;
      write_bytes (cap_offset + 2) (cap_bytes cap) ;;;
      modify (fun c => set_capability (Some (cap_offset, total_len)) (msix_cap_reg_idx c) c) ;;;
      match cap_id cap with
      | MessageSignalledInterrupts => modify (put_writable (cap_offset / 4) MSI_CAPABILITY_REGISTER_MASK)
      | MsiX =>
        modify (fun c => set_capability (last_capability c) (Some (cap_offset / 4)%nat) c) ;;;
        modify (put_writable (cap_offset / 4) MSIX_CAPABILITY_REGISTER_MASK)
      | _ => ret tt
      end ;;;
      ret cap_offset.

(** ** Accesses of the guest *)
Definition on_msix (m : M (MsixConfig G) msix_error unit) : IO unit := fun c =>
  match msix_config c with
  | Some x =>
    match m x with
    | (Crashed, x) => (Crashed, set_msix (Some x) c)
    | (_, x) => (Done tt, set_msix (Some x) c)
    end
  | None => (Done tt, c)
  end.

Definition msix_ctl_write (reg_idx offset : nat) (data : list Z) : IO unit :=
  let* c := get in
  match msix_cap_reg_idx c, msix_config c with
  | Some idx, Some _ =>
    if decide (idx = reg_idx /\ offset = 2%nat /\ length data = 2%nat) then on_msix (set_msg_ctl (le_value data))
    else if decide (idx = reg_idx /\ offset = 0%nat /\ length data = 4%nat) then
      on_msix (set_msg_ctl (wrap 16 (Z.shiftr (le_value data) 16)))
    else ret tt
  | _, _ => ret tt
  end.

Definition write_config_register (reg_idx offset : nat) (data : list Z) : IO unit :=
  if decide (4 < offset + length data)%nat then ret tt
  else
    msix_ctl_write reg_idx offset data ;;;
    match data with
    | [b] => write_byte (reg_idx * 4 + offset) b
    | [b0; b1] => write_word (reg_idx * 4 + offset) (Z.lor b0 (Z.shiftl b1 8))
    | [_; _; _; _] => write_reg reg_idx (le_value data)
    | _ => ret tt
    end.

Definition read_config_register (reg_idx : nat) (c : P) : Z := read_reg reg_idx c.

Definition set_bar_addr (i : nat) (addr : Z) : IO unit :=
  let* c := get in
  let* bar := at_index (bars c) i in
  modify (put_bar i (mkBar addr (bar_size bar) (bar_used bar) (bar_type bar))).

(** A register that is not the upper half of a 64-bit one. *)
Definition detect_bar (reg_idx : nat) (value mask : Z) (bar : PciBar) (t : PciBarRegionType)
  : IO (option BarReprogrammingParams) :=
  if decide (t = Memory64BitRegion) then ret None
  else if decide (Z.land value mask = Z.land (bar_addr bar) mask) then ret None
  else match decode_32_bits_bar_size (bar_size bar) with
  | None => crash
  | Some len =>
    set_bar_addr (reg_idx - 4) value ;;;
    ret (Some (mkParams (Z.land (bar_addr bar) mask) (Z.land value mask) len t))
  end.

(** The upper half of a 64-bit register; the lower half is the one before. *)
Definition detect_upper_bar (reg_idx : nat) (value mask : Z) (bar : PciBar) : IO (option BarReprogrammingParams) :=
  if decide (reg_idx <= BAR0_REG)%nat then ret None
  else
    let* c := get in
    let* lo_reg := at_index (registers c) (reg_idx - 1) in
    let* lo_mask := at_index (writable_bits c) (reg_idx - 1) in
    let* lo_bar := at_index (bars c) (reg_idx - 4 - 1) in
    if decide (Z.land lo_reg lo_mask <> Z.land (bar_addr lo_bar) lo_mask \/
               Z.land value mask <> Z.land (bar_addr bar) mask) then
      match decode_64_bits_bar_size (bar_size bar) (bar_size lo_bar) with
      | None => crash
      | Some len =>
        set_bar_addr (reg_idx - 4) value ;;;
        set_bar_addr (reg_idx - 4 - 1) lo_reg ;;;
        ret (Some (mkParams
          (Z.lor (Z.shiftl (Z.land (bar_addr bar) mask) 32) (Z.land (bar_addr lo_bar) lo_mask))
          (Z.lor (Z.shiftl (Z.land value mask) 32) (Z.land lo_reg lo_mask)) len Memory64BitRegion))
      end
    else ret None.

Definition detect_rom_bar (value mask : Z) : IO (option BarReprogrammingParams) :=
  let* c := get in
  if decide (Z.land value mask = Z.land (rom_bar_addr c) mask) then ret None
  else if decide (Z.land value ROM_BAR_ADDR_MASK = ROM_BAR_ADDR_MASK) then ret None
  else match decode_32_bits_bar_size (rom_bar_size c) with
  | None => crash
  | Some len =>
    modify (fun c => set_rom value (rom_bar_size c) (rom_bar_used c) c) ;;;
    ret (Some (mkParams (Z.land (rom_bar_addr c) mask) (Z.land value mask) len Memory32BitRegion))
  end.

Definition detect_bar_reprogramming (reg_idx : nat) (data : list Z) : IO (option BarReprogrammingParams) :=
  if decide (length data <> 4%nat) then ret None
  else
    let value := le_value data in
    let* c := get in
    let* mask := at_index (writable_bits c) reg_idx in
    if is_bar_reg reg_idx then
      if decide (value = U32_MAX) then ret None
      else
        let* bar := at_index (bars c) (reg_idx - 4) in
        match bar_type bar with
        | Some t => detect_bar reg_idx value mask bar t
        | None => detect_upper_bar reg_idx value mask bar
        end
    else if decide (reg_idx = ROM_BAR_REG) then detect_rom_bar value mask
    else ret None.
End config.
