(* ===== verification/PciConfigProofs.v ===== *)
(** Well-formed configuration spaces: writes of the guest change writable bits
    only, and base address registers are added and moved consistently. *)
From stdpp Require Import base numbers gmap list.
From Stdlib Require Import Btauto.
From S2P Require Import Prelude Bytes IrqGroup Msix MsixProofs PciConfig.
#[local] Open Scope Z_scope.

(** ** Bits of a masked write *)
Lemma masked_bit r m v i :
  0 <= i < 32 -> Z.testbit (Z.lor (Z.land r (unot 32 m)) v) i = (Z.testbit r i && negb (Z.testbit m i)) || Z.testbit v i.
Proof. intros Hi. by rewrite Z.lor_spec, Z.land_spec, unot_testbit. Qed.

Lemma masked_in_width r m v : in_width 32 r -> in_width 32 v -> in_width 32 (Z.lor (Z.land r (unot 32 m)) v).
Proof. intros Hr Hv. apply lor_in_width; [lia|apply land_in_width; [lia|done]|done]. Qed.

Lemma land_in_width_r w x y : 0 <= w -> in_width w y -> in_width w (Z.land x y).
Proof. rewrite Z.land_comm. apply land_in_width. Qed.

(** ** Sizes *)
Lemma count_ones_power x : in_width 64 x -> count_ones x = 1%nat -> exists k, 0 <= k < 64 /\ x = 2 ^ k.
Proof.
  intros Hx. unfold count_ones. set (l := filter _ _). intros Hl.
  destruct l as [|k [|]] eqn:El; try done. exists k.
  assert (Hin : forall i, i ∈ l <-> 0 <= i < 64 /\ Z.testbit x i = true).
  { intros i. unfold l. rewrite list_elem_of_filter, elem_of_seqZ. naive_solver. }
  rewrite El in Hin. destruct (proj1 (Hin k)) as [Hk Hbit]; [set_solver|]. split; [done|].
  apply (bits_eq 64); [lia|done| |].
  - split; [apply Z.pow_nonneg; lia|apply Z.pow_lt_mono_r; lia].
  - intros i Hi. rewrite Z.pow2_bits_eqb by lia. destruct (Z.eqb_spec k i) as [->|Hne]; [done|].
    destruct (Z.testbit x i) eqn:Hb; [|done]. assert (i ∈ [k]) by (by apply Hin). set_solver.
Qed.

Lemma pow2_in_width w k : 0 <= k < w -> in_width w (2 ^ k).
Proof. intros Hk. split; [apply Z.pow_nonneg; lia|apply Z.pow_lt_mono_r; lia]. Qed.

Lemma encode_32_spec s : 0 < s < 2 ^ 32 -> encode_32_bits_bar_size s = Some (2 ^ 32 - s).
Proof.
  intros Hs. unfold encode_32_bits_bar_size. rewrite decide_True by lia.
  rewrite unot_sub by (unfold in_width; lia). f_equal. lia.
Qed.
Lemma decode_32_spec s : 0 < s < 2 ^ 32 -> decode_32_bits_bar_size (2 ^ 32 - s) = Some s.
Proof.
  intros Hs. unfold decode_32_bits_bar_size. rewrite decide_True by lia.
  rewrite unot_sub by (unfold in_width; lia). rewrite wadd_small by (unfold in_width; lia). f_equal. lia.
Qed.

(** The halves of a 64-bit value. *)
Definition hi32 (x : Z) : Z := wrap 32 (Z.shiftr x 32).
Definition lo32 (x : Z) : Z := wrap 32 x.
Lemma hi_lo_join x : in_width 64 x -> Z.lor (Z.shiftl (hi32 x) 32) (lo32 x) = x.
Proof.
  intros Hx. apply (bits_eq 64); [lia| |done|].
  - apply lor_in_width; [lia| |]; unfold hi32, lo32.
    + apply (shiftl_in_width 32 _ 32); [lia|lia|]. by apply wrap_in_width.
    + destruct (wrap_in_width 32 x); [lia|]. split; lia.
  - intros i Hi. rewrite Z.lor_spec. unfold hi32, lo32. destruct (decide (i < 32)).
    + rewrite Z.shiftl_spec_low, wrap_testbit by lia. done.
    + rewrite Z.shiftl_spec, wrap_testbit, Z.shiftr_spec by lia. replace (i - 32 + 32) with i by lia.
      rewrite (testbit_high 32 (wrap 32 x)) by (lia || by apply wrap_in_width). by rewrite orb_false_r.
Qed.
Lemma land_ones32 x : 0 <= x -> wrap 32 (Z.land x U32_MAX) = lo32 x.
Proof.
  intros Hx. unfold lo32. change U32_MAX with (Z.ones 32). rewrite Z.land_ones by lia. apply wrap_wrap.
Qed.
Lemma encode_64_spec s :
  0 < s < 2 ^ 64 -> encode_64_bits_bar_size s = Some (hi32 (2 ^ 64 - s), lo32 (2 ^ 64 - s)).
Proof.
  intros Hs. unfold encode_64_bits_bar_size. rewrite decide_True by lia.
  rewrite unot_sub by (unfold in_width; lia). replace (2 ^ 64 - 1 - (s - 1)) with (2 ^ 64 - s) by lia.
  by rewrite land_ones32 by lia.
Qed.
Lemma decode_64_spec s :
  0 < s < 2 ^ 64 -> decode_64_bits_bar_size (hi32 (2 ^ 64 - s)) (lo32 (2 ^ 64 - s)) = Some s.
Proof.
  intros Hs. unfold decode_64_bits_bar_size. rewrite hi_lo_join by (unfold in_width; lia).
  rewrite decide_True by lia. rewrite unot_sub by (unfold in_width; lia).
  rewrite wadd_small by (unfold in_width; lia). f_equal. lia.
Qed.

(** ** MSI-X never stops *)
Section msix.
Context {G : Type} `{GroupLaws G}.

Lemma ctl_routes_done (c : MsixConfig G) reg :
  msix_wf c -> exists g, ctl_routes c reg (set_mask_enable (ctl_masked reg) (ctl_enabled reg) c) =
    (Done tt, set_group g (set_mask_enable (ctl_masked reg) (ctl_enabled reg) c)) /\ group_ok g /\ shape g = shp c.
Proof.
  intros Hwf. unfold ctl_routes. set (c0 := set_mask_enable _ _ c).
  assert (Hwf0 : msix_wf c0) by (eapply wf_set; [exact Hwf|done|apply Hwf|apply Hwf|done]).
  assert (Hsame : exists g, (Done (E := msix_error) tt, c0) = (Done tt, set_group g c0) /\ group_ok g /\ shape g = shp c).
  { exists (interrupt_source_group c). split; [by destruct c|]. split; [apply Hwf|done]. }
  destruct (xorb _ _ || xorb _ _); [|exact Hsame]. destruct (ctl_enabled reg && negb (ctl_masked reg)).
  - destruct (update_routes_ok (table_entries c) [] c0 Hwf0 eq_refl) as (g & Hrun & Hok & Hsh & _). by exists g.
  - destruct (enabled c || negb (masked c)); [|exact Hsame].
    destruct (isg_disable_spec _ (wf_group _ Hwf0)) as (g & Hrun & Hok & Hsh & _).
    exists g. split; [unfold bind, on_group; by rewrite Hrun|done].
Qed.

Lemma set_msg_ctl_done (c : MsixConfig G) reg :
  msix_wf c -> exists c', set_msg_ctl reg c = (Done tt, c') /\ msix_wf c'.
Proof.
  intros Hwf. destruct (ctl_routes_done c reg Hwf) as (g & Hrun & Hok & Hsh).
  set (c1 := set_group g (set_mask_enable (ctl_masked reg) (ctl_enabled reg) c)) in *.
  assert (Hwf1 : msix_wf c1) by (eapply wf_set; [exact Hwf|done|apply Hwf|done|done]).
  unfold set_msg_ctl. rewrite bind_get, bind_modify. fold (ctl_routes c reg). rewrite (bind_done _ _ _ _ _ Hrun).
  destruct (masked c && negb (ctl_masked reg)); [|by exists c1].
  destruct (inject_pending_ok (table_entries c) [] c1 Hwf1 eq_refl) as (c2 & ns & Hrun2 & Hst & _).
  exists c2. split; [exact Hrun2|apply Hst].
Qed.
End msix.

(** ** Well-formed configurations *)
Section wf.
Context {G : Type} `{GroupLaws G}.
Abbreviation P := (PciConfiguration G).
Implicit Types (c : P) (b : PciBar).

Definition u32s (l : list Z) : Prop := Forall (in_width 32) l.

(** The register of the base address [i]: one of 32 bits, the lower half of one
    of 64 bits, the upper half of one, or not used. *)
Definition bar_wf (bs : list PciBar) (wb : list Z) (i : nat) (b : PciBar) : Prop :=
  in_width 32 (bar_addr b) /\ in_width 32 (bar_size b) /\
  match bar_type b with
  | Some Memory64BitRegion =>
    bar_used b = true /\ exists b', bs !! S i = Some b' /\ bar_type b' = None /\ bar_used b' = true /\ 0 < bar_size b'
  | Some _ => bar_used b = true /\ 0 < bar_size b
  | None =>
    if bar_used b then exists j b', i = S j /\ bs !! j = Some b' /\ bar_type b' = Some Memory64BitRegion
    else bar_size b = 0 /\ wb !! (BAR0_REG + i)%nat = Some 0
  end.

Record pci_wf c : Prop := {
  pw_registers : Z.of_nat (length (registers c)) = 1024 /\ u32s (registers c);
  pw_writable : Z.of_nat (length (writable_bits c)) = 1024 /\ u32s (writable_bits c);
  pw_bars : length (bars c) = 6%nat;
  pw_bar : forall i b, bars c !! i = Some b -> bar_wf (bars c) (writable_bits c) i b;
  pw_rom : in_width 32 (rom_bar_addr c) /\ in_width 32 (rom_bar_size c) /\
    if rom_bar_used c then 0 < rom_bar_size c else writable_bits c !! ROM_BAR_REG = Some 0;
  pw_capability : forall off len, last_capability c = Some (off, len) ->
    (FIRST_CAPABILITY_OFFSET <= off /\ off + len <= CAPABILITY_MAX_OFFSET)%nat;
  pw_msix : forall x, msix_config c = Some x -> msix_wf x;
}.

Lemma pci_wf_registers c r :
  pci_wf c -> Z.of_nat (length r) = 1024 -> u32s r -> pci_wf (set_registers r c).
Proof. intros [Hr Hw Hb Hbar Hrom Hcap Hm] Hlen Hu. by split. Qed.

Lemma put_register_wf c i v : pci_wf c -> in_width 32 v -> pci_wf (put_register i v c).
Proof.
  intros Hwf Hv. destruct (pw_registers _ Hwf) as [Hl Hu]. apply pci_wf_registers; [done|by rewrite length_insert|].
  by apply Forall_insert.
Qed.

Lemma register_lookup c i : pci_wf c -> Z.of_nat i < 1024 ->
  exists r, registers c !! i = Some r /\ in_width 32 r.
Proof.
  intros Hwf Hi. destruct (pw_registers _ Hwf) as [Hl Hu].
  destruct (lookup_lt_is_Some_2 (registers c) i) as [r Hr]; [lia|]. exists r. split; [done|].
  by eapply Forall_lookup_1 in Hu.
Qed.
Lemma writable_lookup c i : pci_wf c -> Z.of_nat i < 1024 ->
  exists w, writable_bits c !! i = Some w /\ in_width 32 w.
Proof.
  intros Hwf Hi. destruct (pw_writable _ Hwf) as [Hl Hu].
  destruct (lookup_lt_is_Some_2 (writable_bits c) i) as [r Hr]; [lia|]. exists r. split; [done|].
  by eapply Forall_lookup_1 in Hu.
Qed.
Lemma bar_lookup c i : pci_wf c -> (i < 6)%nat -> exists b, bars c !! i = Some b /\ bar_wf (bars c) (writable_bits c) i b.
Proof.
  intros Hwf Hi. pose proof (pw_bars _ Hwf). destruct (lookup_lt_is_Some_2 (bars c) i) as [b Hb]; [lia|].
  exists b. split; [done|]. by apply Hwf.
Qed.

Lemma at_index_ok {S E A} (l : list A) i a : l !! i = Some a -> at_index (S := S) (E := E) l i = ret a.
Proof. intros Hi. unfold at_index. by rewrite Hi. Qed.

(** ** Writes of the guest change writable bits only *)
Definition keeps_read_only (reg : nat) c c' : Prop :=
  writable_bits c' = writable_bits c /\ bars c' = bars c /\
  (forall j, j <> reg -> registers c' !! j = registers c !! j) /\
  forall j r r' wb, registers c !! j = Some r -> registers c' !! j = Some r' -> writable_bits c !! j = Some wb ->
    forall i, 0 <= i < 32 -> Z.testbit wb i = false -> Z.testbit r' i = Z.testbit r i.

Lemma keeps_refl reg c : keeps_read_only reg c c.
Proof. split_and!; try done. intros. by simplify_eq. Qed.

(** A write to one register that is limited by its writable bits. *)
Lemma masked_write_ok c j r wb m v :
  pci_wf c -> registers c !! j = Some r -> writable_bits c !! j = Some wb ->
  in_width 32 v ->
  (forall i, 0 <= i < 32 -> Z.testbit wb i = false -> Z.testbit m i = false /\ Z.testbit v i = false) ->
  let c' := put_register j (Z.lor (Z.land r (unot 32 m)) v) c in
  pci_wf c' /\ keeps_read_only j c c'.
Proof.
  intros Hwf Hr Hwb Hv Hm c'.
  assert (Hr32 : in_width 32 r). { destruct (pw_registers _ Hwf) as [_ Hu]. by eapply Forall_lookup_1 in Hu. }
  split; [apply put_register_wf; [done|by apply masked_in_width]|].
  split_and!; [done|done|by intros j' Hne; apply list_lookup_insert_ne|].
  intros j' r1 r2 wb' H1 H2 Hwb' i Hi Hw. cbn in H2.
  destruct (decide (j' = j)) as [->|Hne]; [|rewrite list_lookup_insert_ne in H2 by done; by simplify_eq].
  rewrite list_lookup_insert_eq in H2 by (by eapply lookup_lt_Some). simplify_eq.
  destruct (Hm i Hi Hw) as [Hmi Hvi]. rewrite masked_bit, Hmi, Hvi by done. btauto.
Qed.

Lemma write_reg_ok c j value :
  pci_wf c -> Z.of_nat j < 1024 -> in_width 32 value ->
  exists c', write_reg j value c = (Done tt, c') /\ pci_wf c' /\ keeps_read_only j c c'.
Proof.
  intros Hwf Hj Hv. destruct (register_lookup c j Hwf Hj) as (r & Hr & _).
  destruct (writable_lookup c j Hwf Hj) as (wb & Hwb & Hwb32).
  unfold write_reg. rewrite bind_get, (at_index_ok _ _ _ Hwb), bind_ret.
  assert (Hmask : exists mask, (if is_bar_reg j then if decide (value = U32_MAX) then
        let* bar := at_index (bars c) (j - 4) in ret (Z.land wb (bar_size bar)) else ret wb
      else if decide (j = ROM_BAR_REG) then
        if decide (Z.land value ROM_BAR_ADDR_MASK = ROM_BAR_ADDR_MASK) then ret (Z.land wb (rom_bar_size c)) else ret wb
      else ret wb) c = (Done (E := pci_error) mask, c) /\ forall i, Z.testbit wb i = false -> Z.testbit mask i = false).
  { assert (Hland : forall x i, Z.testbit wb i = false -> Z.testbit (Z.land wb x) i = false).
    { intros x i Hi. by rewrite Z.land_spec, Hi. }
    destruct (is_bar_reg j) eqn:Hb.
    - unfold is_bar_reg in Hb. rewrite andb_true_iff, !bool_decide_eq_true in Hb.
      unfold BAR0_REG, NUM_BAR_REGS in Hb. case_decide; [|by exists wb].
      destruct (bar_lookup c (j - 4) Hwf) as (b & Hlb & _); [lia|]. rewrite (at_index_ok _ _ _ Hlb), bind_ret. eauto.
    - repeat case_decide; eauto. }
  destruct Hmask as (mask & Hrun & Hsub). rewrite (bind_done _ _ _ _ _ Hrun), Hr.
  eexists. split; [done|]. apply (masked_write_ok c j r wb); try done; [by apply land_in_width|].
  intros i Hi Hw. split; [done|]. by rewrite Z.land_spec, Hsub, andb_false_r.
Qed.

Lemma write_part_ok c j shift ones value :
  pci_wf c -> Z.of_nat j < 1024 ->
  exists r wb, registers c !! j = Some r /\ writable_bits c !! j = Some wb /\
    let c' := put_register j (Z.lor (Z.land r (unot 32 (Z.land (wrap 32 (Z.shiftl ones shift)) wb)))
      (Z.land (wrap 32 (Z.shiftl value shift)) wb)) c in
    pci_wf c' /\ keeps_read_only j c c'.
Proof.
  intros Hwf Hj. destruct (register_lookup c j Hwf Hj) as (r & Hr & _).
  destruct (writable_lookup c j Hwf Hj) as (wb & Hwb & Hwb32). exists r, wb. split_and!; [done|done|].
  apply (masked_write_ok c j r wb); try done; [by apply land_in_width_r|].
  intros i Hi Hw. by rewrite !Z.land_spec, Hw, !andb_false_r.
Qed.

Lemma write_word_ok c off value :
  pci_wf c -> Z.of_nat off < 4096 -> 
  exists c', write_word off value c = (Done tt, c') /\ pci_wf c' /\ keeps_read_only (off / 4) c c'.
Proof.
  intros Hwf Hoff. assert (Hj : Z.of_nat (off / 4) < 1024) by (rewrite Nat2Z.inj_div; apply Z.div_lt_upper_bound; lia).
  assert (Hskip : exists c', (Done (E := pci_error) tt, c) = (Done tt, c') /\ pci_wf c' /\ keeps_read_only (off / 4) c c').
  { exists c. split_and!; [done|done|apply keeps_refl]. }
  unfold write_word. destruct (off mod 4)%nat as [|[|[|]]]; [|exact Hskip| |exact Hskip].
  - destruct (write_part_ok c (off / 4) 0 0xffff value Hwf Hj) as (r & wb & Hr & Hwb & Hok).
    rewrite bind_get, Hr, (at_index_ok _ _ _ Hwb), bind_ret. eexists. split; [done|exact Hok].
  - destruct (write_part_ok c (off / 4) 16 0xffff value Hwf Hj) as (r & wb & Hr & Hwb & Hok).
    rewrite bind_get, Hr, (at_index_ok _ _ _ Hwb), bind_ret. eexists. split; [done|exact Hok].
Qed.

Lemma write_byte_ok c off value :
  pci_wf c -> Z.of_nat off < 4096 -> 
  exists c', write_byte off value c = (Done tt, c') /\ pci_wf c' /\ keeps_read_only (off / 4) c c'.
Proof.
  intros Hwf Hoff. assert (Hj : Z.of_nat (off / 4) < 1024) by (rewrite Nat2Z.inj_div; apply Z.div_lt_upper_bound; lia).
  destruct (write_part_ok c (off / 4) (8 * Z.of_nat (off mod 4)) 0xff value Hwf Hj) as (r & wb & Hr & Hwb & Hok).
  unfold write_byte, write_byte_internal. rewrite bind_get, Hr, (at_index_ok _ _ _ Hwb), bind_ret.
  eexists. split; [done|exact Hok].
Qed.

Lemma msix_ctl_write_ok c reg_idx offset data :
  pci_wf c -> exists c', msix_ctl_write reg_idx offset data c = (Done tt, c') /\ pci_wf c' /\
    exists x, c' = set_msix x c.
Proof.
  intros Hwf. unfold msix_ctl_write. rewrite bind_get.
  assert (Hsame : c = set_msix (msix_config c) c) by (by destruct c).
  destruct (msix_cap_reg_idx c), (msix_config c) as [x|] eqn:Hx; eauto.
  assert (Hone : forall reg, exists c', on_msix (set_msg_ctl reg) c = (Done tt, c') /\ pci_wf c' /\ exists x, c' = set_msix x c).
  { intros reg. destruct (set_msg_ctl_done x reg) as (x' & Hrun & Hwf'); [by apply Hwf|].
    unfold on_msix. rewrite Hx, Hrun. exists (set_msix (Some x') c). split_and!; [done| |by eexists].
    destruct Hwf; split; try done. by intros ? [= <-]. }
  repeat case_decide; eauto.
Qed.

Lemma write_config_register_ok c reg_idx offset data :
  pci_wf c -> Z.of_nat reg_idx < 1024 -> Forall byte_ok data ->
  exists c', write_config_register reg_idx offset data c = (Done tt, c') /\ pci_wf c' /\ keeps_read_only reg_idx c c'.
Proof.
  intros Hwf Hreg Hdata. unfold write_config_register. case_decide as Hlen.
  { exists c. split_and!; [done|done|apply keeps_refl]. }
  destruct (msix_ctl_write_ok c reg_idx offset data Hwf) as (c1 & Hrun & Hwf1 & x & ->).
  rewrite (bind_done _ _ _ _ _ Hrun).
  assert (Hkeep : forall c', keeps_read_only reg_idx (set_msix x c) c' -> keeps_read_only reg_idx c c') by done.
  assert (Hidx : forall n, (offset + S n <= 4)%nat -> ((reg_idx * 4 + offset) / 4)%nat = reg_idx).
  { intros n Hn. rewrite Nat.div_add_l, (Nat.div_small offset); lia. }
  destruct data as [|b0 [|b1 [|b2 [|b3 [|]]]]]; cbn [length] in Hlen;
    try (eexists; split_and!; [done|done|apply Hkeep, keeps_refl]).
  - destruct (write_byte_ok (set_msix x c) (reg_idx * 4 + offset) b0 Hwf1) as (c' & ? & ? & ?); [lia|].
    rewrite (Hidx 0%nat) in * by lia. exists c'. auto.
  - destruct (write_word_ok (set_msix x c) (reg_idx * 4 + offset) (Z.lor b0 (Z.shiftl b1 8)) Hwf1)
      as (c' & ? & ? & ?); [lia|]. rewrite (Hidx 1%nat) in * by lia. exists c'. auto.
  - destruct (write_reg_ok (set_msix x c) reg_idx (le_value [b0; b1; b2; b3]) Hwf1 Hreg) as (c' & ? & ? & ?);
      [by apply (le_value_width [b0; b1; b2; b3])|]. exists c'. auto.
Qed.

(** ** Moving a base address *)
Definition with_addr (a : Z) (b : PciBar) : PciBar := mkBar a (bar_size b) (bar_used b) (bar_type b).

Lemma bar_wf_addr bs wb i a b j x :
  bs !! i = Some b -> bar_wf bs wb j x -> bar_wf (<[i := with_addr a b]> bs) wb j x.
Proof.
  intros Hi (Ha & Hs & Hk). split_and!; [done|done|].
  assert (Hlook : forall k y, bs !! k = Some y -> exists y', (<[i := with_addr a b]> bs) !! k = Some y' /\
    bar_type y' = bar_type y /\ bar_used y' = bar_used y /\ bar_size y' = bar_size y).
  { intros k y Hk'. destruct (decide (k = i)) as [->|Hne].
    - rewrite list_lookup_insert_eq by (by eapply lookup_lt_Some). eexists. split; [done|]. by simplify_eq.
    - rewrite list_lookup_insert_ne by done. eauto. }
  destruct (bar_type x) as [[]|]; try done.
  - destruct Hk as (Hu & y & Hy & Ht & Hu' & Hs'). destruct (Hlook _ _ Hy) as (y' & Hy' & Ht2 & Hu2 & Hs2).
    split; [done|]. exists y'. by rewrite Ht2, Hu2, Hs2.
  - destruct (bar_used x); [|done]. destruct Hk as (k & y & -> & Hy & Ht).
    destruct (Hlook _ _ Hy) as (y' & Hy' & Ht' & _). exists k, y'. by rewrite Ht'.
Qed.

Lemma set_bar_addr_ok c i b a :
  pci_wf c -> bars c !! i = Some b -> in_width 32 a ->
  set_bar_addr i a c = (Done tt, put_bar i (with_addr a b) c) /\ pci_wf (put_bar i (with_addr a b) c).
Proof.
  intros Hwf Hi Ha. split; [unfold set_bar_addr; by rewrite bind_get, (at_index_ok _ _ _ Hi), bind_ret|].
  destruct Hwf as [Hr Hw Hb Hbar Hrom Hcap Hm]. split; try done; cbn.
  - by rewrite length_insert.
  - intros j x Hx. destruct (decide (j = i)) as [->|Hne].
    + rewrite list_lookup_insert_eq in Hx by (by eapply lookup_lt_Some). simplify_eq.
      apply bar_wf_addr; [done|]. destruct (Hbar i b Hi) as (_ & ? & ?). by split_and!.
    + rewrite list_lookup_insert_ne in Hx by done. apply bar_wf_addr; [done|]. by apply Hbar.
Qed.

Lemma decode_32_some x : 0 < x -> is_Some (decode_32_bits_bar_size x).
Proof. intros Hx. unfold decode_32_bits_bar_size. rewrite decide_True by done. eauto. Qed.
Lemma decode_64_some hi lo :
  in_width 32 hi -> in_width 32 lo -> 0 < hi \/ 0 < lo -> is_Some (decode_64_bits_bar_size hi lo).
Proof.
  intros Hh Hl Hor. unfold decode_64_bits_bar_size. rewrite decide_True; [eauto|].
  assert (0 <= Z.lor (Z.shiftl hi 32) lo) by (apply Z.lor_nonneg; split; [apply Z.shiftl_nonneg; apply Hh|apply Hl]).
  assert (Z.lor (Z.shiftl hi 32) lo <> 0); [|lia]. rewrite Z.lor_eq_0_iff. intros [Hz ->].
  apply Z.shiftl_eq_0_iff in Hz; lia.
Qed.

(** What a call that may report a move leaves behind. *)
Definition detected c (r : outcome pci_error (option BarReprogrammingParams) * P) : Prop :=
  exists p c', r = (Done p, c') /\ pci_wf c' /\ registers c' = registers c /\ writable_bits c' = writable_bits c.
Lemma detected_none c : pci_wf c -> detected c (Done None, c).
Proof. intros Hwf. by exists None, c. Qed.

Lemma detect_upper_bar_ok c i value mask b :
  pci_wf c -> (i < 6)%nat -> bars c !! i = Some b -> writable_bits c !! (4 + i)%nat = Some mask ->
  bar_type b = None -> in_width 32 value -> detected c (detect_upper_bar (4 + i) value mask b c).
Proof.
  intros Hwf Hi Hb Hmask Ht Hv. unfold detect_upper_bar. destruct i as [|i].
  { rewrite decide_True by (unfold BAR0_REG; lia). by apply detected_none. }
  rewrite decide_False by (unfold BAR0_REG; lia). rewrite bind_get.
  replace (4 + S i - 1)%nat with (4 + i)%nat by lia. replace (4 + S i - 4 - 1)%nat with i by lia.
  replace (4 + S i - 4)%nat with (S i) by lia.
  destruct (register_lookup c (4 + i) Hwf) as (lr & Hlr & Hlr32); [lia|].
  destruct (writable_lookup c (4 + i) Hwf) as (lm & Hlm & _); [lia|].
  destruct (bar_lookup c i Hwf) as (lb & Hlb & Hlbwf); [lia|].
  rewrite (at_index_ok _ _ _ Hlr), bind_ret, (at_index_ok _ _ _ Hlm), bind_ret, (at_index_ok _ _ _ Hlb), bind_ret.
  destruct (decide (_ \/ _)) as [Hmove|]; [|by apply detected_none].
  assert (Hsz : in_width 32 (bar_size b) /\ in_width 32 (bar_size lb) /\ (0 < bar_size b \/ 0 < bar_size lb)).
  { destruct (pw_bar _ Hwf _ _ Hb) as (_ & Hsb & Hkb). destruct Hlbwf as (_ & Hsl & Hkl).
    split_and!; [done|done|]. rewrite Ht in Hkb. destruct (bar_used b) eqn:Hub.
    - destruct Hkb as (j & b' & [= <-] & Hb' & Htb'). rewrite Hlb in Hb'. simplify_eq. rewrite Htb' in Hkl.
      destruct Hkl as (_ & b2 & Hb2 & _ & _ & Hpos). rewrite Hb in Hb2. simplify_eq. by left.
    - right. destruct (bar_type lb) as [[]|] eqn:Htl; [by destruct Hkl..| |].
      + destruct Hkl as (_ & b2 & Hb2 & _ & Hu2 & _). rewrite Hb in Hb2. simplify_eq. congruence.
      + destruct (bar_used lb) eqn:Hul.
        * destruct Hkl as (j & b' & -> & Hb' & Htb'). pose proof (pw_bar _ Hwf _ _ Hb') as (_ & _ & Hk').
          rewrite Htb' in Hk'. destruct Hk' as (_ & b2 & Hb2 & _ & _ & Hpos). rewrite Hlb in Hb2. by simplify_eq.
        * destruct Hkb as [_ Hz]. destruct Hkl as [_ Hzl]. unfold BAR0_REG in *.
          rewrite Hmask in Hz. rewrite Hlm in Hzl. simplify_eq. rewrite !Z.land_0_r in Hmove. by destruct Hmove. }
  destruct Hsz as (Hs1 & Hs2 & Hpos). destruct (decode_64_some _ _ Hs1 Hs2 Hpos) as [len ->].
  destruct (set_bar_addr_ok c (S i) b value Hwf Hb Hv) as [Hrun1 Hwf1]. rewrite (bind_done _ _ _ _ _ Hrun1).
  destruct (set_bar_addr_ok (put_bar (S i) (with_addr value b) c) i lb lr Hwf1) as [Hrun2 Hwf2]; [|done|].
  { cbn. by rewrite list_lookup_insert_ne by lia. }
  rewrite (bind_done _ _ _ _ _ Hrun2). eexists _, _. done.
Qed.

Lemma detect_bar_reprogramming_ok c reg_idx data :
  pci_wf c -> Z.of_nat reg_idx < 1024 -> Forall byte_ok data ->
  detected c (detect_bar_reprogramming reg_idx data c).
Proof.
  intros Hwf Hreg Hdata. unfold detect_bar_reprogramming. case_decide as Hlen; [by apply detected_none|].
  assert (Hv : in_width 32 (le_value data)).
  { pose proof (le_value_width data Hdata) as Hw. by rewrite Hlen in Hw. }
  destruct (writable_lookup c reg_idx Hwf Hreg) as (mask & Hmask & _).
  rewrite bind_get, (at_index_ok _ _ _ Hmask), bind_ret.
  destruct (is_bar_reg reg_idx) eqn:Hb.
  - unfold is_bar_reg, BAR0_REG, NUM_BAR_REGS in Hb. rewrite andb_true_iff, !bool_decide_eq_true in Hb.
    case_decide; [by apply detected_none|].
    destruct (bar_lookup c (reg_idx - 4) Hwf) as (b & Hlb & Hk); [lia|].
    rewrite (at_index_ok _ _ _ Hlb), bind_ret. destruct (bar_type b) as [t|] eqn:Ht.
    + unfold detect_bar. repeat (case_decide; [by apply detected_none|]).
      destruct Hk as (_ & Hs & Hk). rewrite Ht in Hk.
      destruct (decode_32_some (bar_size b)) as [len ->]; [by destruct t, Hk|].
      destruct (set_bar_addr_ok c (reg_idx - 4) b (le_value data) Hwf Hlb Hv) as [Hrun Hwf1].
      rewrite (bind_done _ _ _ _ _ Hrun). by eexists _, _.
    + replace reg_idx with (4 + (reg_idx - 4))%nat at 1 by lia. apply detect_upper_bar_ok; try done; [lia|].
      by replace (4 + (reg_idx - 4))%nat with reg_idx by lia.
  - case_decide as Hrom; [subst reg_idx|by apply detected_none]. unfold detect_rom_bar. rewrite bind_get.
    case_decide as Heq; [by apply detected_none|]. case_decide; [by apply detected_none|].
    destruct (pw_rom _ Hwf) as (Ha & Hs & Hu).
    destruct (rom_bar_used c); [|rewrite Hmask in Hu; simplify_eq; by rewrite !Z.land_0_r in Heq].
    destruct (decode_32_some _ Hu) as [len ->]. rewrite bind_modify. eexists _, _. split; [done|]. split; [|done].
    destruct Hwf as [? ? ? ? [_ [? ?]] ? ?]. by split.
Qed.

(** ** Adding a base address register *)
Definition bar_mask (config : PciBarConfiguration) : Z := (bar_encoding config).1.
Definition bar_low (config : PciBarConfiguration) : Z := (bar_encoding config).2.
Definition bar_value (config : PciBarConfiguration) : Z :=
  Z.lor (Z.land (wrap 32 (bc_addr config)) (bar_mask config)) (bar_low config).

Definition put_low (config : PciBarConfiguration) (size : Z) c : P :=
  let i := bc_idx config in
  put_bar i (mkBar (bar_value config) size true (Some (bc_region_type config)))
    (put_writable (BAR0_REG + i) (bar_mask config) (put_register (BAR0_REG + i) (bar_value config) c)).
Definition put_high (config : PciBarConfiguration) c : P :=
  let i := S (bc_idx config) in
  put_bar i (mkBar (hi32 (bc_addr config)) (hi32 (2 ^ 64 - bc_size config)) true None)
    (put_writable (BAR0_REG + i) U32_MAX (put_register (BAR0_REG + i) (hi32 (bc_addr config)) c)).

(** When [add_pci_bar] succeeds, and the configuration after it. *)
Definition bar_fits config c : Prop :=
  exists b k, bars c !! bc_idx config = Some b /\ bar_used b = false /\ 0 <= k < 64 /\ bc_size config = 2 ^ k /\
    match bc_region_type config with
    | Memory64BitRegion =>
      bc_addr config + bc_size config <= 2 ^ 64 /\
      exists b', bars c !! S (bc_idx config) = Some b' /\ bar_used b' = false
    | _ => bc_addr config + bc_size config <= 2 ^ 32 /\ k < 32
    end.
Definition with_bar config c : P :=
  match bc_region_type config with
  | Memory64BitRegion => put_low config (lo32 (2 ^ 64 - bc_size config)) (put_high config c)
  | _ => put_low config (2 ^ 32 - bc_size config) c
  end.

Lemma bar_unused_type c i b : pci_wf c -> bars c !! i = Some b -> bar_used b = false -> bar_type b = None.
Proof.
  intros Hwf Hb Hu. destruct (pw_bar _ Hwf _ _ Hb) as (_ & _ & Hk). destruct (bar_type b) as [[]|]; [..|done].
  all: destruct Hk; congruence.
Qed.

Lemma add_low_ok config c c1 b size :
  bars c1 !! bc_idx config = Some b -> bar_size b = size ->
  (let '(mask, lower_bits) := bar_encoding config in
   let value := Z.lor (Z.land (wrap 32 (bc_addr config)) mask) lower_bits in
   modify (put_register (BAR0_REG + bc_idx config) value) ;;;
   modify (put_writable (BAR0_REG + bc_idx config) mask) ;;;
   let* c := get in
   let* bar := at_index (bars c) (bc_idx config) in
   modify (put_bar (bc_idx config) (mkBar value (bar_size bar) true (Some (bc_region_type config))))) c1 =
  (Done (E := pci_error) tt, put_low config size c1).
Proof.
  intros Hb Hs. unfold put_low, bar_value, bar_mask, bar_low. destruct (bar_encoding config) as [mask low].
  rewrite !bind_modify, bind_get. cbn [put_writable put_register set_writable set_registers bars].
  rewrite (at_index_ok _ _ _ Hb), bind_ret. by rewrite Hs.
Qed.

Lemma put_low_twice config size c i b :
  i = bc_idx config -> put_low config size (put_bar i b c) = put_low config size c.
Proof. intros ->. unfold put_low, put_bar, put_writable, put_register. cbn. by rewrite list_insert_insert_eq. Qed.

Lemma add_bar_region_ok config c b k :
  pci_wf c -> bars c !! bc_idx config = Some b -> bar_used b = false -> 0 <= k < 64 -> bc_size config = 2 ^ k ->
  0 <= bc_addr config -> bc_addr config + (bc_size config - 1) < 2 ^ 64 ->
  (exists e, add_bar_region config (bc_addr config + (bc_size config - 1)) c = (Fail e, c)) \/
  (bar_fits config c /\ exists c1 b1, add_bar_region config (bc_addr config + (bc_size config - 1)) c = (Done tt, c1) /\
    bars c1 !! bc_idx config = Some b1 /\ put_low config (bar_size b1) c1 = with_bar config c).
Proof.
  intros Hwf Hb Hu Hk Hpow Ha Hend. pose proof (lookup_lt_Some _ _ _ Hb) as Hlt. rewrite (pw_bars _ Hwf) in Hlt.
  assert (0 < 2 ^ k) by (apply Z.pow_pos_nonneg; lia). destruct (pow2_in_width 64 k Hk) as [_ Hk64].
  unfold add_bar_region, bar_fits, with_bar. rewrite bind_get, (at_index_ok _ _ _ Hb), bind_ret.
  destruct (bc_region_type config).
  3: { case_decide; [left; by eexists|]. rewrite decide_False by lia. unfold NUM_BAR_REGS in *.
       destruct (bar_lookup c (bc_idx config + 1) Hwf) as (b' & Hb' & _); [lia|].
       rewrite (at_index_ok _ _ _ Hb'), bind_ret. destruct (bar_used b') eqn:Hu'; [left; by eexists|].
       rewrite encode_64_spec by lia. rewrite !bind_modify. right.
       pose proof (bar_unused_type _ _ _ Hwf Hb' Hu') as Ht'. rewrite Nat.add_1_r in *. split.
       - exists b, k. do 4 (split; [done|]). split; [lia|by exists b'].
       - eexists _, _. split; [done|]. split.
         + cbn. rewrite list_lookup_insert_ne, list_lookup_insert_eq by (lia || rewrite (pw_bars _ Hwf); lia). done.
         + rewrite Ht'. unfold put_low, put_high, put_bar, put_writable, put_register. cbn.
           rewrite ?Nat.add_succ_r, ?Nat.add_0_r.
           by rewrite !(list_insert_insert_ne _ (bc_idx config) (S (bc_idx config))), list_insert_insert_eq by lia. }
  all: case_decide as Hmax; [left; by eexists|]; unfold U32_MAX in Hmax; rewrite Hpow in *;
    destruct (decide (k < 32)) as [H32|H32];
    [assert (2 ^ k < 2 ^ 32) by (apply Z.pow_lt_mono_r; lia);
     rewrite wrap_small by (unfold in_width; lia); rewrite encode_32_spec by lia; right; split;
     [exists b, k; do 4 (split; [done|]); lia|];
     eexists _, _; split; [done|]; split;
     [cbn; rewrite list_lookup_insert_eq by (rewrite (pw_bars _ Hwf); lia); done|by apply put_low_twice]
    |left; assert (2 ^ 32 <= 2 ^ k) by (apply Z.pow_le_mono_r; lia);
     replace (wrap 32 (2 ^ k)) with 0; [by eexists|];
     symmetry; apply Z.mod_divide; [lia|]; exists (2 ^ (k - 32)); rewrite <- Z.pow_add_r by lia; f_equal; lia].
Qed.

Lemma add_pci_bar_ok config c :
  pci_wf c -> (bc_idx config < 6)%nat -> in_width 64 (bc_addr config) -> in_width 64 (bc_size config) ->
  (exists e, add_pci_bar config c = (Fail e, c)) \/
  (bar_fits config c /\ add_pci_bar config c = (Done tt, with_bar config c)).
Proof.
  intros Hwf Hi Ha Hs. destruct (bar_lookup c _ Hwf Hi) as (b & Hb & _).
  unfold add_pci_bar. rewrite bind_get, (at_index_ok _ _ _ Hb), bind_ret.
  destruct (bar_used b) eqn:Hu; [left; by eexists|]. case_decide as Hones; [left; by eexists|].
  rewrite decide_False by (unfold NUM_BAR_REGS; lia).
  destruct (count_ones_power _ Hs Hones) as (k & Hk & Hpow).
  unfold checked_add. case_decide as Hend; [|left; by eexists].
  destruct (add_bar_region_ok config c b k) as [[e Hrun]|(Hfits & c1 & b1 & Hrun & Hb1 & Hput)]; try done; [apply Ha| |].
  - left. exists e. by rewrite (bind_fail _ _ _ _ _ Hrun).
  - right. split; [done|]. rewrite (bind_done _ _ _ _ _ Hrun), <- Hput. by eapply add_low_ok.
Qed.

(** Replacing registers that were not used. *)
Lemma bars_wf c bs wb :
  pci_wf c -> length bs = 6%nat ->
  (forall j x, bs !! j = Some x ->
    (bars c !! j = Some x /\ wb !! (BAR0_REG + j)%nat = writable_bits c !! (BAR0_REG + j)%nat) \/
    (bar_wf bs wb j x /\ exists y, bars c !! j = Some y /\ bar_used y = false)) ->
  forall j x, bs !! j = Some x -> bar_wf bs wb j x.
Proof.
  intros Hwf Hlen Hall j x Hx. destruct (Hall j x Hx) as [[Hold Hw]|[? _]]; [|done].
  assert (Hsame : forall k y, bars c !! k = Some y -> bar_used y = true -> bs !! k = Some y).
  { intros k y Hy Hu. destruct (lookup_lt_is_Some_2 bs k) as [z Hz].
    { apply lookup_lt_Some in Hy. rewrite (pw_bars _ Hwf) in Hy. lia. }
    destruct (Hall k z Hz) as [[Hz' _]|[_ (y' & Hy' & Hu')]]; [congruence|]. rewrite Hy in Hy'. simplify_eq. congruence. }
  destruct (pw_bar _ Hwf _ _ Hold) as (Ha & Hs & Hk). split_and!; [done|done|].
  destruct (bar_type x) as [[]|] eqn:Ht; try done.
  - destruct Hk as (Hu & b' & Hb' & Ht' & Hu' & Hs'). split; [done|]. exists b'. auto.
  - destruct (bar_used x); [|by rewrite Hw]. destruct Hk as (k & b' & -> & Hb' & Ht').
    exists k, b'. split_and!; try done. apply Hsame; [done|].
    destruct (pw_bar _ Hwf _ _ Hb') as (_ & _ & Hk'). rewrite Ht' in Hk'. by destruct Hk'.
Qed.

Lemma bar_value_width config : in_width 32 (bar_value config) /\ in_width 32 (bar_mask config).
Proof.
  assert (Hm : in_width 32 (bar_mask config) /\ in_width 32 (bar_low config)).
  { unfold bar_mask, bar_low, bar_encoding. destruct (bc_region_type config), (bc_prefetchable config);
      split; split; vm_compute; congruence. }
  split; [|apply Hm]. apply lor_in_width; [lia| |apply Hm]. apply land_in_width_r; [lia|apply Hm].
Qed.

Lemma hi32_width x : in_width 32 (hi32 x).
Proof. by apply wrap_in_width. Qed.
Lemma lo32_width x : in_width 32 (lo32 x).
Proof. by apply wrap_in_width. Qed.
Lemma hi32_pos k : 0 <= k < 64 -> 0 < hi32 (2 ^ 64 - 2 ^ k).
Proof.
  intros Hk. pose proof (hi32_width (2 ^ 64 - 2 ^ k)) as [Hnn _].
  destruct (decide (hi32 (2 ^ 64 - 2 ^ k) = 0)) as [Hz|]; [|lia]. exfalso.
  assert (0 < 2 ^ k) by (apply Z.pow_pos_nonneg; lia). assert (2 ^ k <= 2 ^ 63) by (apply Z.pow_le_mono_r; lia).
  pose proof (hi_lo_join (2 ^ 64 - 2 ^ k)) as Hj. rewrite Hz, Z.shiftl_0_l, Z.lor_0_l in Hj.
  pose proof (lo32_width (2 ^ 64 - 2 ^ k)) as [_ Hlo]. rewrite Hj in Hlo by (unfold in_width; lia). lia.
Qed.

Lemma u32s_insert l i v : u32s l -> in_width 32 v -> u32s (<[i := v]> l).
Proof. intros. by apply Forall_insert. Qed.

(** The parts of [pci_wf] that do not speak of the base address registers. *)
Lemma pci_wf_bars c c' :
  pci_wf c -> Z.of_nat (length (registers c')) = 1024 /\ u32s (registers c') ->
  Z.of_nat (length (writable_bits c')) = 1024 /\ u32s (writable_bits c') ->
  length (bars c') = 6%nat -> (forall j x, bars c' !! j = Some x -> bar_wf (bars c') (writable_bits c') j x) ->
  rom_bar_addr c' = rom_bar_addr c -> rom_bar_size c' = rom_bar_size c -> rom_bar_used c' = rom_bar_used c ->
  writable_bits c' !! ROM_BAR_REG = writable_bits c !! ROM_BAR_REG ->
  last_capability c' = last_capability c -> msix_config c' = msix_config c -> pci_wf c'.
Proof.
  intros [Hr Hw Hb Hbar Hrom Hcap Hm] Hr' Hw' Hb' Hbar' H1 H2 H3 H4 H5 H6.
  split; try done; rewrite ?H1, ?H2, ?H3, ?H4, ?H5, ?H6; done.
Qed.

Ltac inserted := rewrite ?list_lookup_insert_ne, ?list_lookup_insert_eq by (rewrite ?length_insert; unfold BAR0_REG in *; lia).

Lemma put_low_wf config k c b :
  pci_wf c -> bars c !! bc_idx config = Some b -> bar_used b = false -> (bc_idx config < 6)%nat ->
  bc_region_type config <> Memory64BitRegion -> 0 <= k < 32 -> pci_wf (put_low config (2 ^ 32 - 2 ^ k) c).
Proof.
  intros Hwf Hb Hu Hlt Ht Hk. destruct (bar_value_width config) as [Hv Hm].
  assert (0 < 2 ^ k) by (apply Z.pow_pos_nonneg; lia). assert (2 ^ k < 2 ^ 32) by (apply Z.pow_lt_mono_r; lia).
  pose proof Hwf as [[Hrl Hru] [Hwl Hwu] Hbl _ _ _ _].
  apply (pci_wf_bars c); try done; cbn -[BAR0_REG].
  - split; [by rewrite length_insert|by apply u32s_insert].
  - split; [by rewrite length_insert|by apply u32s_insert].
  - by rewrite length_insert.
  - apply (bars_wf c); [done|by rewrite length_insert|]. intros j x Hx.
    destruct (decide (j = bc_idx config)) as [->|Hne].
    + revert Hx. inserted. intros [= <-]. right. split; [|by exists b].
      split_and!; [done|cbn; unfold in_width; lia|]. cbn. destruct (bc_region_type config); try done; split; try done; lia.
    + revert Hx. inserted. auto.
  - unfold ROM_BAR_REG. by inserted.
Qed.

Lemma put_both_wf config k c b b' :
  pci_wf c -> bars c !! bc_idx config = Some b -> bar_used b = false ->
  bars c !! S (bc_idx config) = Some b' -> bar_used b' = false ->
  bc_region_type config = Memory64BitRegion -> 0 <= k < 64 -> bc_size config = 2 ^ k ->
  pci_wf (put_low config (lo32 (2 ^ 64 - 2 ^ k)) (put_high config c)).
Proof.
  intros Hwf Hb Hu Hb' Hu' Ht Hk Hpow. destruct (bar_value_width config) as [Hv Hm].
  pose proof (lookup_lt_Some _ _ _ Hb') as Hlt. rewrite (pw_bars _ Hwf) in Hlt.
  pose proof Hwf as [[Hrl Hru] [Hwl Hwu] Hbl _ _ _ _]. pose proof (hi32_width (bc_addr config)) as Hh.
  assert (in_width 32 U32_MAX) by done.
  apply (pci_wf_bars c); try done; cbn -[BAR0_REG].
  - split; [by rewrite !length_insert|by repeat apply u32s_insert].
  - split; [by rewrite !length_insert|by repeat apply u32s_insert].
  - by rewrite !length_insert.
  - apply (bars_wf c); [done|by rewrite !length_insert|]. intros j x Hx.
    destruct (decide (j = bc_idx config)) as [->|Hne]; [|destruct (decide (j = S (bc_idx config))) as [->|Hne']].
    + revert Hx. inserted. intros [= <-]. right. split; [|by exists b].
      split_and!; [done|apply lo32_width|]. cbn. rewrite Ht. split; [done|]. inserted.
      eexists. split_and!; try done. cbn. rewrite Hpow. by apply hi32_pos.
    + revert Hx. inserted. intros [= <-]. right. split; [|by exists b'].
      split_and!; [done|apply hi32_width|]. cbn. eexists _, _. inserted. split_and!; try done. by rewrite Ht.
    + revert Hx. inserted. auto.
  - unfold ROM_BAR_REG. by inserted.
Qed.

Lemma with_bar_wf config c : pci_wf c -> bar_fits config c -> pci_wf (with_bar config c).
Proof.
  intros Hwf (b & k & Hb & Hu & Hk & Hpow & Hfit). pose proof (lookup_lt_Some _ _ _ Hb) as Hlt.
  rewrite (pw_bars _ Hwf) in Hlt. unfold with_bar. rewrite Hpow. destruct (bc_region_type config) eqn:Ht.
  - apply (put_low_wf config k c b); try done; [by rewrite Ht|lia].
  - apply (put_low_wf config k c b); try done; [by rewrite Ht|lia].
  - destruct Hfit as (_ & b' & Hb' & Hu'). by apply (put_both_wf config k c b b').
Qed.
End wf.
