(* ===== verification/PciCaps.v ===== *)
(** The capabilities of a configuration space: every operation keeps the space
    well formed, and walking the list in the registers finds the capabilities
    that were added. *)
From stdpp Require Import base numbers gmap list.
From S2P Require Import Prelude Bytes IrqGroup Msix MsixProofs PciConfig PciConfigProofs.
#[local] Open Scope Z_scope.

Section caps.
Context {G : Type} `{GroupLaws G}.
Abbreviation P := (PciConfiguration G).
Implicit Types (c : P) (cap : PciCapability).

(** ** Bytes of the configuration space *)
Definition cfg_byte c (off : nat) : Z :=
  wrap 8 (Z.shiftr (default 0 (registers c !! (off / 4)%nat)) (8 * Z.of_nat (off mod 4))).

Lemma cfg_byte_bit c off i :
  0 <= i < 8 -> Z.testbit (cfg_byte c off) i =
    Z.testbit (default 0 (registers c !! (off / 4)%nat)) (i + 8 * Z.of_nat (off mod 4)).
Proof. intros Hi. unfold cfg_byte. rewrite wrap_testbit, Z.shiftr_spec by lia. done. Qed.

Lemma raw_bit r v s i :
  in_width 8 v -> 0 <= s -> 0 <= i < 32 ->
  Z.testbit (Z.lor (Z.land r (unot 32 (Z.land (wrap 32 (Z.shiftl 0xff s)) U32_MAX)))
    (Z.land (wrap 32 (Z.shiftl v s)) U32_MAX)) i =
  if decide (s <= i < s + 8) then Z.testbit v (i - s) else Z.testbit r i.
Proof.
  intros Hv Hs Hi. rewrite masked_bit by done. rewrite !Z.land_spec, !wrap_testbit by done.
  assert (Hm : Z.testbit U32_MAX i = true) by (change U32_MAX with (Z.ones 32); apply Z.ones_spec_low; lia).
  rewrite Hm, !andb_true_r. rewrite !Z.shiftl_spec by lia. change 0xff with (Z.ones 8).
  destruct (decide (s <= i < s + 8)) as [Hin|Hout].
  - rewrite Z.ones_spec_low by lia. by rewrite andb_false_r.
  - destruct (decide (i < s)) as [Hlt|Hge].
    + rewrite (Z.testbit_neg_r (Z.ones 8)), (Z.testbit_neg_r v) by lia. by rewrite andb_true_r, orb_false_r.
    + rewrite Z.ones_spec_high by lia. rewrite (testbit_high 8 v) by (done || lia).
      by rewrite andb_true_r, orb_false_r.
Qed.

Lemma write_raw_ok c off v :
  pci_wf c -> Z.of_nat off < 4096 -> in_width 8 v ->
  exists r, write_byte_internal off v false c = (Done tt, put_register (off / 4) r c) /\
    pci_wf (put_register (off / 4) r c) /\
    forall off', Z.of_nat off' < 4096 -> cfg_byte (put_register (off / 4) r c) off' =
      if decide (off' = off) then v else cfg_byte c off'.
Proof.
  intros Hwf Hoff Hv. assert (Hj : Z.of_nat (off / 4) < 1024) by (rewrite Nat2Z.inj_div; apply Z.div_lt_upper_bound; lia).
  destruct (register_lookup c (off / 4) Hwf Hj) as (r & Hr & Hr32). pose proof (pw_registers _ Hwf) as [Hlen _].
  unfold write_byte_internal. rewrite bind_get, Hr, bind_ret. eexists. split; [done|]. split.
  { apply put_register_wf; [done|]. apply masked_in_width; [done|]. by apply land_in_width_r. }
  intros off' Hoff'. assert (H4 : (4 <> 0)%nat) by lia.
  pose proof (Nat.div_mod_eq off 4). pose proof (Nat.div_mod_eq off' 4).
  pose proof (Nat.mod_upper_bound off 4 H4). pose proof (Nat.mod_upper_bound off' 4 H4).
  apply (bits_eq 8); [lia|by apply wrap_in_width|case_decide; [done|by apply wrap_in_width]|].
  intros i Hi. rewrite cfg_byte_bit by done. cbn [put_register set_registers registers].
  destruct (decide (off' / 4 = off / 4)%nat) as [Heq|Hne].
  - rewrite Heq. rewrite list_lookup_insert_eq by lia. cbn [from_option id]. rewrite raw_bit by (done || lia).
    destruct (decide (off' = off)) as [->|Hd].
    + rewrite decide_True by lia. f_equal. lia.
    + rewrite decide_False by lia. rewrite cfg_byte_bit by done. by rewrite Heq, Hr.
  - rewrite list_lookup_insert_ne by done. rewrite decide_False by congruence. by rewrite cfg_byte_bit.
Qed.

Lemma write_bytes_ok bytes : forall off c,
  pci_wf c -> Z.of_nat (off + length bytes) <= 4096 -> Forall byte_ok bytes ->
  exists rs, write_bytes off bytes c = (Done tt, set_registers rs c) /\ pci_wf (set_registers rs c) /\
    forall off', Z.of_nat off' < 4096 -> cfg_byte (set_registers rs c) off' =
      match bytes !! (off' - off)%nat with
      | Some v => if decide (off <= off')%nat then v else cfg_byte c off'
      | None => cfg_byte c off'
      end.
Proof.
  induction bytes as [|b bytes IH]; intros off c Hwf Hfit Hb; cbn [write_bytes].
  { exists (registers c). destruct c. by split_and!. }
  inversion_clear Hb as [|? ? Hb0 Hb1]. cbn [length] in Hfit.
  destruct (write_raw_ok c off b Hwf) as (r & Hrun & Hwf1 & Hbyte); [lia|done|].
  rewrite (bind_done _ _ _ _ _ Hrun).
  destruct (IH (S off) _ Hwf1) as (rs & Hrun2 & Hwf2 & Hbyte2); [lia|done|].
  exists rs. split; [exact Hrun2|]. split; [exact Hwf2|]. intros off' Hoff'.
  change (set_registers rs c) with (set_registers rs (put_register (off / 4) r c)).
  rewrite Hbyte2, Hbyte by done. destruct (decide (off <= off')%nat) as [Hle|Hgt].
  - destruct (decide (off' = off)) as [->|Hne].
    + rewrite Nat.sub_diag. cbn. replace (off - S off)%nat with 0%nat by lia.
      destruct (bytes !! 0%nat); [by rewrite decide_False by lia|done].
    + replace (off' - off)%nat with (S (off' - S off)) by lia. cbn.
      destruct (bytes !! (off' - S off)%nat); [|done]. by rewrite decide_True by lia.
  - rewrite (decide_False (P := off' = off)) by lia.
    destruct (bytes !! (off' - S off)%nat), ((b :: bytes) !! (off' - off)%nat); rewrite ?decide_False by lia; done.
Qed.

Lemma cfg_byte_put_other c i v off : (off / 4)%nat <> i -> cfg_byte (put_register i v c) off = cfg_byte c off.
Proof. intros Hne. unfold cfg_byte, put_register. cbn. by rewrite list_lookup_insert_ne by done. Qed.

(** Writable bits of a register that is not a base address. *)
Lemma put_writable_wf c i v :
  pci_wf c -> in_width 32 v -> (i < 4 \/ 10 <= i)%nat -> i <> ROM_BAR_REG -> pci_wf (put_writable i v c).
Proof.
  intros Hwf Hv Hi Hrom. pose proof Hwf as [Hr [Hwl Hwu] Hbl Hbar _ _ _]. apply (pci_wf_bars c); try done; cbn.
  - split; [by rewrite length_insert|by apply u32s_insert].
  - intros j x Hx. pose proof (lookup_lt_Some _ _ _ Hx) as Hlt. destruct (Hbar j x Hx) as (Ha & Hs & Hk).
    split_and!; [done|done|]. destruct (bar_type x) as [[]|]; try done. destruct (bar_used x); [done|].
    destruct Hk as [Hz Hw]. split; [done|]. rewrite list_lookup_insert_ne by (unfold BAR0_REG; lia). done.
  - by rewrite list_lookup_insert_ne by done.
Qed.

Lemma set_capability_wf c off len idx :
  pci_wf c -> (FIRST_CAPABILITY_OFFSET <= off)%nat -> (off + len <= CAPABILITY_MAX_OFFSET)%nat ->
  pci_wf (set_capability (Some (off, len)) idx c).
Proof. intros [Hr Hw Hb Hbar Hrom Hcap Hm] Hoff Hlen. split; try done. cbn. intros ? ? [= <- <-]. done. Qed.

Lemma next_dword_spec off len :
  Z.of_nat (off + len) <= 4096 -> (off + len <= next_dword off len < off + len + 4)%nat /\ (next_dword off len mod 4 = 0)%nat.
Proof.
  intros Hfit. unfold next_dword. set (n := Z.of_nat (off + len + 3)).
  assert (Hland : Z.land n (unot 64 3) = n - n mod 4).
  { assert (Hn : in_width 64 n) by (unfold n, in_width; lia). pose proof (Z.mod_pos_bound n 4 ltac:(lia)).
    pose proof (Z.mod_le n 4 ltac:(unfold n; lia) ltac:(lia)).
    apply (bits_eq 64); [lia|by apply land_in_width|unfold in_width in *; lia|].
    intros i Hi. rewrite Z.land_spec, unot_testbit by done.
    assert (Hsub : n - n mod 4 = Z.shiftl (Z.shiftr n 2) 2).
    { rewrite Z.shiftl_mul_pow2, Z.shiftr_div_pow2 by lia. change (2 ^ 2) with 4. pose proof (Z.div_mod n 4). lia. }
    rewrite Hsub. destruct (decide (i < 2)).
    - rewrite Z.shiftl_spec_low by lia. assert (i = 0 \/ i = 1) as [-> | ->] by lia; cbn; by rewrite andb_false_r.
    - rewrite Z.shiftl_spec, Z.shiftr_spec by lia. replace (i - 2 + 2) with i by lia.
      change 3 with (Z.ones 2). rewrite Z.ones_spec_high by lia. by rewrite andb_true_r. }
  rewrite Hland. pose proof (Z.mod_pos_bound n 4 ltac:(lia)). pose proof (Z.div_mod n 4 ltac:(lia)).
  split; [unfold n in *; lia|]. apply Nat2Z.inj. rewrite Nat2Z.inj_mod, Z2Nat.id by (unfold n in *; lia).
  replace (n - n mod 4) with (n / 4 * 4) by lia. apply Z.mod_mul. lia.
Qed.

(** Where the next capability goes, and where the pointer to it is. *)
Definition next_cap c : nat * nat :=
  match last_capability c with
  | Some (offset, len) => (next_dword offset len, (offset + 1)%nat)
  | None => (FIRST_CAPABILITY_OFFSET, CAPABILITY_LIST_HEAD_OFFSET)
  end.

Lemma next_cap_bounds c :
  pci_wf c -> (FIRST_CAPABILITY_OFFSET <= (next_cap c).1)%nat /\ Z.of_nat (next_cap c).2 < 4096 /\ ((next_cap c).2 / 4 <> 1)%nat.
Proof.
  intros Hwf. unfold next_cap, FIRST_CAPABILITY_OFFSET, CAPABILITY_LIST_HEAD_OFFSET.
  destruct (last_capability c) as [[off len]|] eqn:Hl; [|cbn; lia].
  destruct (pw_capability _ Hwf _ _ Hl) as [H1 H2]. unfold FIRST_CAPABILITY_OFFSET, CAPABILITY_MAX_OFFSET in *.
  destruct (next_dword_spec off len ltac:(lia)) as [H3 _]. cbn [fst snd]. split_and!; [lia|lia|].
  assert (16 <= (off + 1) / 4)%nat by (apply Nat.div_le_lower_bound; lia). lia.
Qed.

Definition cap_written (cap : PciCapability) (off tail : nat) c (o : nat) : Z :=
  match cap_bytes cap !! (o - (off + 2))%nat with
  | Some v => if decide (off + 2 <= o)%nat then v else
      if decide (o = off + 1)%nat then 0 else if decide (o = off) then capability_value (cap_id cap)
      else if decide (o = tail) then Z.of_nat off else cfg_byte c o
  | None => if decide (o = off + 1)%nat then 0 else if decide (o = off) then capability_value (cap_id cap)
      else if decide (o = tail) then Z.of_nat off else cfg_byte c o
  end.

Lemma add_capability_ok c cap :
  pci_wf c -> Forall byte_ok (cap_bytes cap) ->
  (exists e, add_capability cap c = (Fail e, c)) \/
  let '(off, tail) := next_cap c in
  (off + length (cap_bytes cap) <= CAPABILITY_MAX_OFFSET)%nat /\
  exists c', add_capability cap c = (Done off, c') /\ pci_wf c' /\
    last_capability c' = Some (off, length (cap_bytes cap)) /\ bars c' = bars c /\
    forall o, Z.of_nat o < 4096 -> (o / 4 <> 1)%nat -> cfg_byte c' o = cap_written cap off tail c o.
Proof.
  intros Hwf Hbytes. unfold add_capability. case_decide as Hlen; [left; by eexists|]. rewrite bind_get.
  pose proof (next_cap_bounds c Hwf) as (Hoff & Htail & Htail4). unfold next_cap in *.
  destruct (match last_capability c with Some _ => _ | None => _ end) as [off tail] eqn:Hnext. cbn [fst snd] in *.
  case_decide as Hmax; [left; by eexists|]. right. unfold CAPABILITY_MAX_OFFSET, FIRST_CAPABILITY_OFFSET in *.
  split; [lia|]. destruct (register_lookup c STATUS_REG Hwf) as (status & Hst & Hst32); [unfold STATUS_REG; lia|].
  rewrite (at_index_ok _ _ _ Hst), bind_ret, bind_modify.
  set (c1 := put_register STATUS_REG _ c).
  assert (Hwf1 : pci_wf c1) by (apply put_register_wf; [done|]; by apply lor_in_width).
  destruct (write_raw_ok c1 tail (wrap 8 (Z.of_nat off)) Hwf1 Htail) as (r2 & Hrun2 & Hwf2 & Hb2); [by apply wrap_in_width|].
  rewrite wrap_small in Hb2 by (unfold in_width; lia).
  rewrite (bind_done _ _ _ _ _ Hrun2). set (c2 := put_register _ r2 c1) in *.
  assert (Hid : in_width 8 (capability_value (cap_id cap))) by (by destruct (cap_id cap)).
  destruct (write_raw_ok c2 off _ Hwf2 ltac:(lia) Hid) as (r3 & Hrun3 & Hwf3 & Hb3).
  rewrite (bind_done _ _ _ _ _ Hrun3). set (c3 := put_register _ r3 c2) in *.
  destruct (write_raw_ok c3 (off + 1) 0 Hwf3 ltac:(lia)) as (r4 & Hrun4 & Hwf4 & Hb4); [done|].
  rewrite (bind_done _ _ _ _ _ Hrun4). set (c4 := put_register _ r4 c3) in *.
  destruct (write_bytes_ok (cap_bytes cap) (off + 2) c4 Hwf4 ltac:(lia) Hbytes) as (rs & Hrun5 & Hwf5 & Hb5).
  rewrite (bind_done _ _ _ _ _ Hrun5), bind_modify. set (c5 := set_registers rs c4) in *.
  set (c6 := set_capability _ _ c5).
  assert (Hwf6 : pci_wf c6) by (apply set_capability_wf; [done|done|unfold CAPABILITY_MAX_OFFSET; lia]).
  assert (Hbyte : forall o, Z.of_nat o < 4096 -> (o / 4 <> 1)%nat -> cfg_byte c6 o = cap_written cap off tail c o).
  { intros o Ho Ho4. change (cfg_byte c6 o) with (cfg_byte c5 o). rewrite Hb5, Hb4, Hb3, Hb2 by done.
    unfold cap_written. assert (Hc1 : cfg_byte c1 o = cfg_byte c o) by (by apply cfg_byte_put_other). by rewrite Hc1. }
  assert (H4 : (16 <= off / 4 < 49)%nat).
  { split; [apply Nat.div_le_lower_bound; lia|apply Nat.Div0.div_lt_upper_bound; lia]. }
  assert (Hw : forall c7 v, pci_wf c7 -> in_width 32 v -> pci_wf (put_writable (off / 4) v c7)).
  { intros. apply put_writable_wf; try done; unfold ROM_BAR_REG; lia. }
  destruct (cap_id cap); try (exists c6; split_and!; done).
  - eexists. split; [done|]. split; [by apply Hw|done].
  - eexists. split; [done|]. split; [apply Hw; [|done]|done].
    apply set_capability_wf; [done|done|unfold CAPABILITY_MAX_OFFSET; lia].
Qed.

(** ** The list of capabilities

    What a guest does: it follows the pointers from the head of the list. *)
Fixpoint cap_walk (fuel : nat) c (ptr : nat) : list (nat * Z) :=
  match fuel with
  | O => []
  | S fuel =>
    if decide (ptr = 0%nat) then []
    else (ptr, cfg_byte c ptr) :: cap_walk fuel c (Z.to_nat (cfg_byte c (ptr + 1)))
  end.

(** The capabilities in [l] are linked from the cell [p], all between [lo] and
    [fin]. *)
Fixpoint links c (p lo fin : nat) (l : list (nat * PciCapability)) : Prop :=
  match l with
  | [] => cfg_byte c p = 0 /\ (lo <= fin)%nat
  | (off, cap) :: l =>
    cfg_byte c p = Z.of_nat off /\ (lo <= off)%nat /\ cfg_byte c off = capability_value (cap_id cap) /\
    (forall k v, cap_bytes cap !! k = Some v -> cfg_byte c (off + 2 + k) = v) /\
    links c (off + 1) (off + 2 + length (cap_bytes cap)) fin l
  end.
Definition tail_cell (p : nat) (l : list (nat * PciCapability)) : nat :=
  match last l with Some (off, _) => (off + 1)%nat | None => p end.

Lemma tail_cell_cons p off cap l : tail_cell p ((off, cap) :: l) = tail_cell (off + 1) l.
Proof. unfold tail_cell. rewrite last_cons. by destruct (last l) as [[]|]. Qed.

Lemma links_bounds c p lo fin l :
  links c p lo fin l -> (lo <= fin)%nat /\ (l = [] /\ tail_cell p l = p \/ (lo < tail_cell p l < fin)%nat).
Proof.
  revert p lo. induction l as [|[off cap] l IH]; intros p lo; cbn [links].
  { intros [_ ?]. split; [done|]. by left. }
  intros (_ & Hlo & _ & _ & Hl). rewrite tail_cell_cons. apply IH in Hl as [Hfin [[-> ->]|Ht]]; split; try right; lia.
Qed.

Lemma links_snoc c c' fin fin' cap l : forall p lo,
  links c p lo fin l -> (p < lo)%nat -> (8 <= p)%nat ->
  (forall o, (8 <= o < fin)%nat -> o <> tail_cell p l -> cfg_byte c' o = cfg_byte c o) ->
  cfg_byte c' (tail_cell p l) = Z.of_nat fin -> links c' (fin + 1) (fin + 2 + length (cap_bytes cap)) fin' [] ->
  cfg_byte c' fin = capability_value (cap_id cap) ->
  (forall k v, cap_bytes cap !! k = Some v -> cfg_byte c' (fin + 2 + k) = v) ->
  links c' p lo fin' (l ++ [(fin, cap)]).
Proof.
  induction l as [|[off cap0] l IH]; intros p lo Hl Hp H8 Hsame Htail Hnil Hid Hbytes; cbn [links app].
  { destruct Hl as [_ Hle]. split; [exact Htail|]. do 3 (split; [done|]). exact Hnil. }
  pose proof Hl as (Hptr & Hlo & Hid0 & Hb0 & Hl'). destruct (links_bounds _ _ _ _ _ Hl') as [Hfin Ht].
  rewrite tail_cell_cons in *.
  assert (Hne : forall o, (8 <= o)%nat -> (o <= off \/ off + 2 <= o < off + 2 + length (cap_bytes cap0))%nat ->
    cfg_byte c' o = cfg_byte c o).
  { intros o Ho Hor. apply Hsame; lia. }
  split_and!.
  - by rewrite Hne by lia.
  - done.
  - by rewrite Hne by lia.
  - intros k v Hk. pose proof (lookup_lt_Some _ _ _ Hk). rewrite Hne by lia. by apply Hb0.
  - apply (IH (off + 1)%nat (off + 2 + length (cap_bytes cap0))%nat); try done; lia.
Qed.

Lemma cap_walk_links c fin l : forall p lo fuel,
  links c p lo fin l -> (0 < lo)%nat -> (length l < fuel)%nat ->
  cap_walk fuel c (Z.to_nat (cfg_byte c p)) = (fun x => (x.1, capability_value (cap_id x.2))) <$> l.
Proof.
  induction l as [|[off cap] l IH]; intros p lo fuel Hl Hlo Hf; cbn [links] in Hl.
  { destruct Hl as [-> _]. by destruct fuel. }
  destruct Hl as (-> & Hle & Hid & _ & Hl). destruct fuel as [|fuel]; [cbn in Hf; lia|]. cbn [cap_walk fmap list_fmap].
  rewrite Nat2Z.id, decide_False by lia. rewrite Hid. f_equal. eapply IH; [exact Hl|lia|cbn in Hf; lia].
Qed.

(** The list in a configuration, with the place of the next capability. *)
Definition caps_at c (l : list (nat * PciCapability)) : Prop :=
  links c CAPABILITY_LIST_HEAD_OFFSET FIRST_CAPABILITY_OFFSET (next_cap c).1 l /\
  (next_cap c).2 = tail_cell CAPABILITY_LIST_HEAD_OFFSET l.

(** The code reserves room for the bytes of a capability but not for its header,
    so a capability is followed by another one only if its length is one or two
    modulo four. *)
Definition cap_ok cap : Prop :=
  Forall byte_ok (cap_bytes cap) /\ (length (cap_bytes cap) mod 4 = 1 \/ length (cap_bytes cap) mod 4 = 2)%nat.

Lemma next_dword_room off len :
  Z.of_nat (off + len) <= 4096 -> (off mod 4 = 0)%nat -> (len mod 4 = 1 \/ len mod 4 = 2)%nat ->
  (off + len + 2 <= next_dword off len)%nat.
Proof.
  intros Hfit Hoff Hlen. destruct (next_dword_spec off len Hfit) as [Hb Hm].
  pose proof (Nat.div_mod_eq off 4). pose proof (Nat.div_mod_eq len 4).
  pose proof (Nat.div_mod_eq (next_dword off len) 4). lia.
Qed.

Lemma add_capability_list c cap l :
  pci_wf c -> caps_at c l -> cap_ok cap -> ((next_cap c).1 mod 4 = 0)%nat ->
  (exists e, add_capability cap c = (Fail e, c)) \/
  exists off c', add_capability cap c = (Done off, c') /\ pci_wf c' /\ caps_at c' (l ++ [(off, cap)]) /\
    ((next_cap c').1 mod 4 = 0)%nat.
Proof.
  intros Hwf [Hlinks Htail] [Hb Hlen] H4. destruct (next_cap_bounds c Hwf) as (Hoff & Hto & _).
  destruct (add_capability_ok c cap Hwf Hb) as [?|Hok]; [by left|right]. destruct (next_cap c) as [off tail] eqn:Hnext.
  destruct Hok as (Hmax & c' & Hrun & Hwf' & Hlast & _ & Hbyte). cbn [fst snd] in *.
  unfold CAPABILITY_MAX_OFFSET, FIRST_CAPABILITY_OFFSET in *.
  pose proof (next_dword_room off (length (cap_bytes cap)) ltac:(lia) H4 Hlen) as Hroom.
  destruct (next_dword_spec off (length (cap_bytes cap)) ltac:(lia)) as [_ Hmod].
  assert (Hc' : next_cap c' = (next_dword off (length (cap_bytes cap)), off + 1)%nat).
  { unfold next_cap. by rewrite Hlast. }
  destruct (links_bounds _ _ _ _ _ Hlinks) as [_ Ht]. rewrite <- Htail in Ht.
  unfold CAPABILITY_LIST_HEAD_OFFSET in *.
  assert (Hbyte' : forall o, (8 <= o <= off + 2 + length (cap_bytes cap))%nat -> cfg_byte c' o = cap_written cap off tail c o).
  { intros o Ho. apply Hbyte; [lia|]. assert (2 <= o / 4)%nat by (apply Nat.div_le_lower_bound; lia). lia. }
  exists off, c'. split; [done|]. split; [done|]. rewrite Hc'. split; [|done]. split; rewrite ?Hc'; cbn [fst snd].
  2: { unfold tail_cell. by rewrite last_snoc. }
  unfold CAPABILITY_LIST_HEAD_OFFSET, FIRST_CAPABILITY_OFFSET.
  apply (links_snoc c c' off _ cap l); [exact Hlinks|lia|lia|rewrite <- Htail|rewrite <- Htail| | |].
  - intros o Ho Hne. rewrite Hbyte' by lia. unfold cap_written.
    destruct (cap_bytes cap !! (o - (off + 2))%nat); rewrite ?decide_False by lia; done.
  - rewrite Hbyte' by lia. unfold cap_written.
    destruct (cap_bytes cap !! (tail - (off + 2))%nat); rewrite ?(decide_False (P := (_ <= _)%nat)) by lia;
      rewrite (decide_False (P := tail = (off + 1)%nat)), (decide_False (P := tail = off)), decide_True by lia; done.
  - cbn [links]. split; [|lia]. rewrite Hbyte' by lia. unfold cap_written.
    destruct (cap_bytes cap !! (off + 1 - (off + 2))%nat); rewrite ?(decide_False (P := (_ <= _)%nat)) by lia;
      by rewrite decide_True.
  - rewrite Hbyte' by lia. unfold cap_written.
    destruct (cap_bytes cap !! (off - (off + 2))%nat); rewrite ?(decide_False (P := (_ <= _)%nat)) by lia;
      by rewrite (decide_False (P := off = (off + 1)%nat)), decide_True by lia.
  - intros k v Hk. pose proof (lookup_lt_Some _ _ _ Hk). rewrite Hbyte' by lia. unfold cap_written.
    replace (off + 2 + k - (off + 2))%nat with k by lia. rewrite Hk. by rewrite decide_True by lia.
Qed.

Fixpoint add_capabilities (caps : list PciCapability) : M P pci_error (list nat) :=
  match caps with
  | [] => ret []
  | cap :: caps =>
    let* off := add_capability cap in
    let* offs := add_capabilities caps in
    ret (off :: offs)
  end.

Lemma add_capabilities_list caps : forall c l offs c',
  pci_wf c -> caps_at c l -> Forall cap_ok caps -> ((next_cap c).1 mod 4 = 0)%nat ->
  add_capabilities caps c = (Done offs, c') ->
  length offs = length caps /\ pci_wf c' /\ caps_at c' (l ++ zip offs caps).
Proof.
  induction caps as [|cap caps IH]; intros c l offs c' Hwf Hl Hok H4 Hrun; cbn [add_capabilities] in Hrun.
  { unfold ret in Hrun. simplify_eq. by rewrite app_nil_r. }
  inversion_clear Hok as [|? ? Hcap Hcaps]. apply bind_inv_done in Hrun as (off & c1 & Hadd & Hrun).
  apply bind_inv_done in Hrun as (offs1 & c2 & Hrun & Hret). unfold ret in Hret. simplify_eq.
  destruct (add_capability_list c cap l Hwf Hl Hcap H4) as [[e He]|(off' & c1' & Hadd' & Hwf1 & Hl1 & H41)]; [congruence|].
  rewrite Hadd in Hadd'. simplify_eq.
  destruct (IH _ _ _ _ Hwf1 Hl1 Hcaps H41 Hrun) as (Hlen & Hwf2 & Hl2). cbn. split; [lia|]. split; [done|].
  by rewrite <- app_assoc in Hl2.
Qed.

Lemma links_bytes c p lo fin l i off cap k v :
  links c p lo fin l -> l !! i = Some (off, cap) -> cap_bytes cap !! k = Some v -> cfg_byte c (off + 2 + k) = v.
Proof.
  revert p lo i. induction l as [|[off0 cap0] l IH]; intros p lo i Hl Hi Hk; [done|].
  destruct Hl as (_ & _ & _ & Hb & Hl). destruct i as [|i]; cbn in Hi; simplify_eq; [by apply Hb|by eapply IH].
Qed.

(** ** New configurations *)
Lemma config_new_wf vendor device revision class subclass pi sub_vendor sub_id msix :
  in_width 16 vendor -> in_width 16 device -> in_width 8 revision -> in_width 8 class -> in_width 8 subclass ->
  from_option (in_width 8) True pi -> in_width 16 sub_vendor -> in_width 16 sub_id ->
  from_option msix_wf True msix ->
  let c := config_new (G := G) vendor device revision class subclass pi Device sub_vendor sub_id msix in
  pci_wf c /\ last_capability c = None /\ cfg_byte c CAPABILITY_LIST_HEAD_OFFSET = 0.
Proof.
  intros Hv Hd Hr Hc Hs Hp Hsv Hsi Hm c. split; [|done].
  assert (Hwide : forall w x, 0 <= w <= 32 -> in_width w x -> in_width 32 x).
  { intros w x Hw [? ?]. split; [done|]. assert (2 ^ w <= 2 ^ 32) by (apply Z.pow_le_mono_r; lia). lia. }
  assert (Hsh : forall w n x, 0 <= w -> 0 <= n -> w + n <= 32 -> in_width w x -> in_width 32 (Z.shiftl x n)).
  { intros w n x Hw Hn Hle Hx. apply (Hwide (w + n)); [lia|]. by apply shiftl_in_width. }
  assert (Hpi : in_width 8 (default 0 pi)) by (by destruct pi).
  assert (Hz : u32s (replicate NUM_CONFIGURATION_REGISTERS 0)) by (by apply Forall_replicate).
  split.
  - split; [done|]. cbn [c config_new registers].
    repeat apply u32s_insert; try done; repeat (apply lor_in_width; [lia| |]);
      first [by apply (Hsh 16); lia || done|by apply (Hsh 8); lia || done|by apply (Hwide 16); lia || done
            |by apply (Hwide 8); lia || done].
  - split; [done|]. by repeat apply u32s_insert.
  - done.
  - intros i b Hi. cbn [c config_new bars] in Hi. apply lookup_replicate in Hi as [-> Hi].
    unfold NUM_BAR_REGS in Hi. split_and!; [done|done|]. cbn [bar_type bar_used bar_default bar_size]. split; [done|].
    cbn [c config_new writable_bits]. unfold BAR0_REG. rewrite !list_lookup_insert_ne by lia.
    apply lookup_replicate_2. unfold NUM_CONFIGURATION_REGISTERS. lia.
  - done.
  - done.
  - intros x Hx. cbn in Hx. by rewrite Hx in Hm.
Qed.
End caps.

(** A guest that walks the list of capabilities finds those that were
    added.  After capabilities have been added to a configuration without any,
    following the pointers from the head of the list visits them in order, at
    the offsets the calls returned and with their identifiers, and ends; and the
    bytes of each capability follow its header. *)
Theorem capability_list {G} `{GroupLaws G} (caps : list PciCapability) (c c' : PciConfiguration G) offs fuel :
  pci_wf c -> last_capability c = None -> cfg_byte c CAPABILITY_LIST_HEAD_OFFSET = 0 -> Forall cap_ok caps ->
  add_capabilities caps c = (Done offs, c') -> (length caps < fuel)%nat ->
  cap_walk fuel c' (Z.to_nat (cfg_byte c' CAPABILITY_LIST_HEAD_OFFSET)) =
    zip offs ((fun cap => capability_value (cap_id cap)) <$> caps) /\
  forall i off cap k v, offs !! i = Some off -> caps !! i = Some cap -> cap_bytes cap !! k = Some v ->
    cfg_byte c' (off + 2 + k) = v.
Proof.
  intros Hwf Hlast Hhead Hok Hrun Hfuel.
  assert (Hl0 : caps_at c []) by (unfold caps_at, next_cap; rewrite Hlast; cbn; by split_and!).
  destruct (add_capabilities_list caps c [] offs c' Hwf Hl0 Hok) as (Hlen & _ & [Hlinks _]);
    [unfold next_cap; by rewrite Hlast|done|].
  cbn [app] in Hlinks. split.
  - rewrite (cap_walk_links c' _ _ _ _ fuel Hlinks);
      [|unfold FIRST_CAPABILITY_OFFSET; lia|rewrite length_zip_with; lia].
    clear -Hlen. revert offs Hlen. induction caps as [|cap caps IH]; intros [|off offs] Hlen; cbn in *; try done.
    f_equal. apply IH. lia.
  - intros i off cap k v Hoff Hcap Hk. apply (links_bytes _ _ _ _ _ i off cap k v Hlinks); [|done].
    by rewrite lookup_zip_with, Hoff, Hcap.
Qed.

(** ** Example *)
#[local] Existing Instances example_host example_host_accepts.

(** Two capabilities: a vendor-specific one and MSI-X. *)
Definition example_config : PciConfiguration MsiInterruptGroup :=
  config_new 0x1af4 0x1042 1 1 0 None Device 0x1af4 0x1100 None.
Definition example_capabilities : list PciCapability :=
  [mkCapability VendorSpecific (replicate 14 7);
   mkCapability MsiX [2; 128; 0; 64; 0; 0; 0; 128; 0; 0]].

Lemma example_config_wf :
  pci_wf example_config /\ last_capability example_config = None /\
  cfg_byte example_config CAPABILITY_LIST_HEAD_OFFSET = 0.
Proof. by apply config_new_wf. Qed.

Lemma capability_list_witness :
  exists c', add_capabilities example_capabilities example_config = (Done [64; 80]%nat, c') /\
    cap_walk 3 c' (Z.to_nat (cfg_byte c' CAPABILITY_LIST_HEAD_OFFSET)) = [(64%nat, 9); (80%nat, 17)] /\
    cfg_byte c' (80 + 2 + 3) = 64.
Proof.
  destruct (add_capabilities example_capabilities example_config) as [r c'] eqn:Hrun.
  assert (Hr : r = Done [64; 80]%nat) by (apply (f_equal fst) in Hrun; vm_compute in Hrun; done). subst r.
  destruct example_config_wf as (Hwf & Hlast & Hhead). exists c'. split; [done|].
  destruct (capability_list example_capabilities example_config c' [64; 80]%nat 3 Hwf Hlast Hhead) as [Hwalk Hbytes].
  - repeat constructor; cbn; lia.
  - exact Hrun.
  - cbn. lia.
  - split; [exact Hwalk|]. by apply (Hbytes 1%nat 80%nat _ 3%nat 64 eq_refl eq_refl).
Defined.

(** The bytes that are written are two more than the room that is reserved: the
    identifier of the second capability overwrites the end of the first
    (configuration.rs, [add_capability]). *)
Lemma capabilities_overlap :
  match add_capabilities [mkCapability VendorSpecific (replicate 12 7); mkCapability PciX [1; 2]] example_config with
  | (Done offs, c') => offs = [64; 76]%nat /\ cfg_byte c' (64 + 2 + 10) = capability_value PciX
  | _ => False
  end.
Proof. vm_compute. split; reflexivity. Qed.
