(* ===== verification/PciBars.v ===== *)
(** The protocol by which a guest sizes and programs base address registers. *)
From stdpp Require Import base numbers gmap list.
From Stdlib Require Import Btauto.
From S2P Require Import Prelude Bytes IrqGroup Msix MsixProofs PciConfig PciConfigProofs PciCaps.
#[local] Open Scope Z_scope.

(** ** Masks of the bits from [m] up *)
Lemma high_mask_bit w m i : 0 <= m <= w -> 0 <= i -> Z.testbit (2 ^ w - 2 ^ m) i = bool_decide (m <= i < w).
Proof.
  intros Hm Hi. replace (2 ^ w - 2 ^ m) with (Z.shiftl (Z.ones (w - m)) m).
  - destruct (decide (i < m)) as [Hlt|Hge].
    + rewrite Z.shiftl_spec_low by lia. symmetry. apply bool_decide_eq_false. lia.
    + rewrite Z.shiftl_spec by lia. destruct (decide (i < w)).
      * rewrite Z.ones_spec_low by lia. symmetry. apply bool_decide_eq_true. lia.
      * rewrite Z.ones_spec_high by lia. symmetry. apply bool_decide_eq_false. lia.
  - rewrite Z.shiftl_mul_pow2, Z.ones_equiv by lia. unfold Z.pred. rewrite Z.mul_add_distr_r, <- Z.pow_add_r by lia.
    replace (w - m + m) with w by lia. lia.
Qed.
Lemma high_mask_width w m : 0 <= m <= w -> in_width w (2 ^ w - 2 ^ m).
Proof.
  intros Hm. assert (0 < 2 ^ m) by (apply Z.pow_pos_nonneg; lia).
  assert (2 ^ m <= 2 ^ w) by (apply Z.pow_le_mono_r; lia). unfold in_width. lia.
Qed.

(** What a masked write leaves in the bits of the mask. *)
Lemma masked_read r w v m :
  in_width 32 w -> in_width 32 m -> (forall i, 0 <= i < 32 -> Z.testbit m i = true -> Z.testbit w i = true) ->
  Z.land (Z.lor (Z.land r (unot 32 w)) (Z.land v m)) w = Z.land v m.
Proof.
  intros Hw Hm Hsub. apply (bits_eq 32); [lia|by apply land_in_width_r|by apply land_in_width_r|].
  intros i Hi. rewrite Z.land_spec, masked_bit, Z.land_spec by done. specialize (Hsub i Hi).
  destruct (Z.testbit r i), (Z.testbit w i), (Z.testbit v i), (Z.testbit m i); cbn in *; try done; by destruct Hsub.
Qed.

Section bars.
Context {G : Type} `{GroupLaws G}.
Abbreviation P := (PciConfiguration G).
Implicit Types (c : P) (b : PciBar).

(** An access of the guest to a whole register. *)
Definition guest_write32 (reg : nat) (v : Z) : M P pci_error (option BarReprogrammingParams) :=
  let* p := detect_bar_reprogramming reg (le_bytes 4 v) in
  write_config_register reg 0 (le_bytes 4 v) ;;;
  ret p.

Lemma le_value4 v : in_width 32 v -> le_value (le_bytes 4 v) = v.
Proof. intros Hv. by apply le_value_bytes. Qed.

Lemma is_bar_reg_bar i : (i < 6)%nat -> is_bar_reg (4 + i) = true.
Proof.
  intros Hi. unfold is_bar_reg, BAR0_REG, NUM_BAR_REGS. rewrite !bool_decide_true by lia. done.
Qed.

(** The mask of a write to a base address register. *)
Definition bar_wmask (w : Z) b (v : Z) : Z := if decide (v = U32_MAX) then Z.land w (bar_size b) else w.

Lemma write_bar_reg c i b r w v :
  pci_wf c -> (i < 6)%nat -> in_width 32 v -> bars c !! i = Some b -> registers c !! (4 + i)%nat = Some r ->
  writable_bits c !! (4 + i)%nat = Some w ->
  exists x, write_config_register (4 + i) 0 (le_bytes 4 v) c =
    (Done tt, put_register (4 + i) (Z.lor (Z.land r (unot 32 w)) (Z.land v (bar_wmask w b v))) (set_msix x c)) /\
    pci_wf (put_register (4 + i) (Z.lor (Z.land r (unot 32 w)) (Z.land v (bar_wmask w b v))) (set_msix x c)).
Proof.
  intros Hwf Hi Hv Hb Hr Hw.
  destruct (msix_ctl_write_ok c (4 + i) 0 (le_bytes 4 v) Hwf) as (c1 & Hrun & Hwf1 & x & ->). exists x.
  assert (Hstep : write_config_register (4 + i) 0 (le_bytes 4 v) c =
    (Done tt, put_register (4 + i) (Z.lor (Z.land r (unot 32 w)) (Z.land v (bar_wmask w b v))) (set_msix x c))).
  { unfold write_config_register. rewrite decide_False by (rewrite le_bytes_length; lia).
    rewrite (bind_done _ _ _ _ _ Hrun).
    change (write_reg (4 + i) (le_value (le_bytes 4 v)) (set_msix x c) =
      (Done tt, put_register (4 + i) (Z.lor (Z.land r (unot 32 w)) (Z.land v (bar_wmask w b v))) (set_msix x c))).
    rewrite le_value4 by done. unfold write_reg. rewrite bind_get.
    rewrite (at_index_ok _ _ _ (Hw : writable_bits (set_msix x c) !! _ = _)), bind_ret, is_bar_reg_bar by done.
    replace (4 + i - 4)%nat with i by lia. unfold bar_wmask. case_decide.
    - rewrite (at_index_ok _ _ _ (Hb : bars (set_msix x c) !! _ = _)), bind_assoc, !bind_ret. cbn [set_msix registers]. by rewrite Hr.
    - rewrite bind_ret. cbn [set_msix registers]. by rewrite Hr. }
  split; [done|]. destruct (write_config_register_ok c (4 + i) 0 (le_bytes 4 v) Hwf) as (c' & Hrun' & Hwf' & _).
  { rewrite Nat2Z.inj_add. lia. }
  { apply le_bytes_ok. }
  rewrite Hstep in Hrun'. by simplify_eq.
Qed.

(** ** Registers of 32 bits

    The bits below [low_bits t] of a register of type [t] are fixed. *)
Definition low_bits (t : PciBarRegionType) : Z := match t with IoRegion => 2 | _ => 4 end.
Definition type_mask (t : PciBarRegionType) : Z := 2 ^ 32 - 2 ^ low_bits t.

Lemma bar_mask_type config : bar_mask config = type_mask (bc_region_type config).
Proof. unfold bar_mask, bar_encoding. by destruct (bc_region_type config). Qed.
Lemma type_mask_width t : in_width 32 (type_mask t).
Proof. by destruct t. Qed.
Lemma type_mask_bit t i : 0 <= i < 32 -> Z.testbit (type_mask t) i = bool_decide (low_bits t <= i).
Proof.
  intros Hi. unfold type_mask. rewrite high_mask_bit by (destruct t; cbn; lia). apply bool_decide_ext. lia.
Qed.

(** The base address [i] holds [a], has size [2^k], and its register holds [r]. *)
Record bar32 c (i : nat) (t : PciBarRegionType) (a k r : Z) : Prop := {
  b32_bar : bars c !! i = Some (mkBar a (2 ^ 32 - 2 ^ k) true (Some t));
  b32_writable : writable_bits c !! (4 + i)%nat = Some (type_mask t);
  b32_register : registers c !! (4 + i)%nat = Some r;
}.

Lemma bar_index c i b : pci_wf c -> bars c !! i = Some b -> (i < 6)%nat.
Proof. intros Hwf Hb. apply lookup_lt_Some in Hb. by rewrite (pw_bars _ Hwf) in Hb. Qed.

Lemma detect_run c i b w v :
  pci_wf c -> bars c !! i = Some b -> writable_bits c !! (4 + i)%nat = Some w -> in_width 32 v ->
  detect_bar_reprogramming (4 + i) (le_bytes 4 v) c =
    if decide (v = U32_MAX) then (Done None, c)
    else match bar_type b with
         | Some t => detect_bar (4 + i) v w b t c
         | None => detect_upper_bar (4 + i) v w b c
         end.
Proof.
  intros Hwf Hb Hw Hv. pose proof (bar_index c i b Hwf Hb) as Hi. unfold detect_bar_reprogramming.
  rewrite decide_False by (rewrite le_bytes_length; lia).
  rewrite bind_get, (at_index_ok _ _ _ Hw), bind_ret, is_bar_reg_bar, le_value4 by done. case_decide; [done|].
  replace (4 + i - 4)%nat with i by lia. rewrite (at_index_ok _ _ _ Hb), bind_ret. by destruct (bar_type b).
Qed.

Lemma read_put c i v x : pci_wf c -> (i < 6)%nat -> registers (put_register (4 + i) v (set_msix x c)) !! (4 + i)%nat = Some v.
Proof.
  intros Hwf Hi. cbn [put_register set_registers registers set_msix]. apply list_lookup_insert_eq.
  destruct (pw_registers _ Hwf) as [Hl _]. lia.
Qed.

(** Asking for the size. *)
Lemma bar32_size c i t a k r :
  pci_wf c -> bar32 c i t a k r -> t <> Memory64BitRegion -> low_bits t <= k < 32 ->
  exists c' r', guest_write32 (4 + i) U32_MAX c = (Done None, c') /\ pci_wf c' /\ bar32 c' i t a k r' /\
    Z.land r' (type_mask t) = 2 ^ 32 - 2 ^ k.
Proof.
  intros Hwf [Hb Hw Hr] Ht Hk. pose proof (bar_index c i _ Hwf Hb) as Hi. unfold guest_write32.
  assert (0 <= k) by (destruct t; cbn in Hk; lia). assert (Hmax : in_width 32 U32_MAX) by done.
  erewrite bind_done by (by rewrite (detect_run c i _ _ _ Hwf Hb Hw Hmax), decide_True).
  destruct (write_bar_reg c i _ r _ U32_MAX Hwf Hi Hmax Hb Hr Hw) as (x & Hrun & Hwf').
  rewrite (bind_done _ _ _ _ _ Hrun). eexists _, _. split; [done|]. split; [done|]. split.
  - split; [done|done|by apply read_put].
  - unfold bar_wmask. rewrite decide_True by done. cbn [bar_size]. rewrite masked_read.
    + apply (bits_eq 32); [lia|by apply land_in_width|apply high_mask_width; lia|]. intros j Hj.
      rewrite !Z.land_spec, type_mask_bit, high_mask_bit by lia. change U32_MAX with (Z.ones 32).
      rewrite Z.ones_spec_low by lia. cbn [andb]. repeat case_bool_decide; cbn; lia || done.
    + apply type_mask_width.
    + apply land_in_width; [lia|apply type_mask_width].
    + intros j Hj. rewrite Z.land_spec. by intros [? _]%andb_true_iff.
Qed.

(** Programming an address: the move is detected first, then the register is
    written. *)
Lemma bar32_detect c i t a k r v :
  pci_wf c -> bar32 c i t a k r -> t <> Memory64BitRegion -> 0 <= k < 32 -> in_width 32 v -> v <> U32_MAX ->
  exists c1 a', detect_bar_reprogramming (4 + i) (le_bytes 4 v) c =
      (Done (if decide (Z.land v (type_mask t) = Z.land a (type_mask t)) then None
             else Some (mkParams (Z.land a (type_mask t)) (Z.land v (type_mask t)) (2 ^ k) t)), c1) /\
    pci_wf c1 /\ bar32 c1 i t a' k r /\ Z.land a' (type_mask t) = Z.land v (type_mask t).
Proof.
  intros Hwf [Hb Hw Hr] Ht Hk Hv Hne. pose proof (bar_index c i _ Hwf Hb) as Hi.
  assert (Hpk : 0 < 2 ^ k < 2 ^ 32) by (split; [apply Z.pow_pos_nonneg|apply Z.pow_lt_mono_r]; lia).
  rewrite (detect_run c i _ _ _ Hwf Hb Hw Hv), decide_False by done. cbn [bar_type]. unfold detect_bar.
  rewrite decide_False by done. cbn [bar_addr bar_size]. case_decide as Heq; [exists c, a; by split_and!|].
  rewrite decode_32_spec by lia. replace (4 + i - 4)%nat with i by lia.
  destruct (set_bar_addr_ok c i _ v Hwf Hb Hv) as [Hrun Hwf1]. rewrite (bind_done _ _ _ _ _ Hrun).
  eexists _, v. split; [done|]. split; [done|]. split; [|done]. split; [|done|done].
  cbn. rewrite list_lookup_insert_eq; [done|]. rewrite (pw_bars _ Hwf). lia.
Qed.
Lemma bar32_store c i t a k r v :
  pci_wf c -> bar32 c i t a k r -> in_width 32 v -> v <> U32_MAX ->
  exists c' r', write_config_register (4 + i) 0 (le_bytes 4 v) c = (Done tt, c') /\ pci_wf c' /\
    bar32 c' i t a k r' /\ Z.land r' (type_mask t) = Z.land v (type_mask t).
Proof.
  intros Hwf [Hb Hw Hr] Hv Hne. pose proof (bar_index c i _ Hwf Hb) as Hi.
  destruct (write_bar_reg c i _ r _ v Hwf Hi Hv Hb Hr Hw) as (x & Hrun & Hwf').
  rewrite Hrun. eexists _, _. split; [done|]. split; [done|]. split; [split; [done|done|by apply read_put]|].
  unfold bar_wmask. rewrite decide_False by done. rewrite masked_read; [done|apply type_mask_width..|auto].
Qed.
Lemma bar32_program c i t a k r v :
  pci_wf c -> bar32 c i t a k r -> t <> Memory64BitRegion -> 0 <= k < 32 -> in_width 32 v -> v <> U32_MAX ->
  exists c' a' r', guest_write32 (4 + i) v c =
      (Done (if decide (Z.land v (type_mask t) = Z.land a (type_mask t)) then None
             else Some (mkParams (Z.land a (type_mask t)) (Z.land v (type_mask t)) (2 ^ k) t)), c') /\
    pci_wf c' /\ bar32 c' i t a' k r' /\ Z.land a' (type_mask t) = Z.land v (type_mask t) /\
    Z.land r' (type_mask t) = Z.land v (type_mask t).
Proof.
  intros Hwf Hb Ht Hk Hv Hne. unfold guest_write32.
  destruct (bar32_detect c i t a k r v Hwf Hb Ht Hk Hv Hne) as (c1 & a' & Hdet & Hwf1 & Hb1 & Ha').
  rewrite (bind_done _ _ _ _ _ Hdet).
  destruct (bar32_store c1 i t a' k r v Hwf1 Hb1 Hv Hne) as (c' & r' & Hrun & Hwf' & Hb' & Hr').
  rewrite (bind_done _ _ _ _ _ Hrun). by exists c', a', r'.
Qed.

Lemma bar32_addr c i t a k r :
  bar32 c i t a k r -> t <> Memory64BitRegion -> get_bar_addr i c = (Done (Z.land a (type_mask t)), c).
Proof.
  intros [Hb Hw Hr] Ht. unfold get_bar_addr. rewrite bind_get, (at_index_ok _ _ _ Hb), bind_ret.
  unfold BAR0_REG. rewrite (at_index_ok _ _ _ Hw), bind_ret. cbn [bar_type]. rewrite decide_False by congruence. done.
Qed.

Lemma bar32_added config c c1 k :
  pci_wf c -> (bc_idx config < 6)%nat -> in_width 64 (bc_addr config) -> in_width 64 (bc_size config) ->
  bc_region_type config <> Memory64BitRegion -> bc_size config = 2 ^ k ->
  add_pci_bar config c = (Done tt, c1) ->
  pci_wf c1 /\ bar32 c1 (bc_idx config) (bc_region_type config) (bar_value config) k (bar_value config).
Proof.
  intros Hwf Hi Ha Hs Ht Hk Hrun.
  destruct (add_pci_bar_ok config c Hwf Hi Ha Hs) as [[e He]|[Hfits Hrun']]; [congruence|].
  rewrite Hrun in Hrun'. simplify_eq. split; [by apply with_bar_wf|].
  destruct (pw_registers _ Hwf) as [Hrl _]. destruct (pw_writable _ Hwf) as [Hwl _].
  assert (Hw : with_bar config c = put_low config (2 ^ 32 - 2 ^ k) c).
  { unfold with_bar. rewrite Hk. by destruct (bc_region_type config). }
  rewrite Hw. split; cbn -[Nat.add]; unfold BAR0_REG.
  - rewrite list_lookup_insert_eq; [done|]. by rewrite (pw_bars _ Hwf).
  - rewrite list_lookup_insert_eq by lia. by rewrite bar_mask_type.
  - rewrite list_lookup_insert_eq by lia. done.
Qed.

(** ** Registers of 64 bits *)
Definition MEM64_MASK : Z := 2 ^ 64 - 2 ^ 4.

Record bar64 c (i : nat) (lo hi k rl rh : Z) : Prop := {
  b64_lo : bars c !! i = Some (mkBar lo (lo32 (2 ^ 64 - 2 ^ k)) true (Some Memory64BitRegion));
  b64_hi : bars c !! S i = Some (mkBar hi (hi32 (2 ^ 64 - 2 ^ k)) true None);
  b64_wlo : writable_bits c !! (4 + i)%nat = Some (type_mask Memory64BitRegion);
  b64_whi : writable_bits c !! (4 + S i)%nat = Some U32_MAX;
  b64_rlo : registers c !! (4 + i)%nat = Some rl;
  b64_rhi : registers c !! (4 + S i)%nat = Some rh;
}.

Lemma read_put_ne c i j v x :
  i <> j -> registers (put_register (4 + i) v (set_msix x c)) !! (4 + j)%nat = registers c !! (4 + j)%nat.
Proof. intros Hne. cbn [put_register set_registers registers set_msix]. apply list_lookup_insert_ne. lia. Qed.

(** A write to the lower half moves nothing. *)
Lemma bar64_low c i lo hi k rl rh v :
  pci_wf c -> bar64 c i lo hi k rl rh -> in_width 32 v ->
  exists c' rl', guest_write32 (4 + i) v c = (Done None, c') /\ pci_wf c' /\ bar64 c' i lo hi k rl' rh /\
    Z.land rl' (type_mask Memory64BitRegion) =
      Z.land v (if decide (v = U32_MAX) then Z.land (type_mask Memory64BitRegion) (lo32 (2 ^ 64 - 2 ^ k))
                else type_mask Memory64BitRegion).
Proof.
  intros Hwf [Hbl Hbh Hwl Hwh Hrl Hrh] Hv. pose proof (bar_index c i _ Hwf Hbl) as Hi. unfold guest_write32.
  assert (Hdet : detect_bar_reprogramming (4 + i) (le_bytes 4 v) c = (Done None, c)).
  { rewrite (detect_run c i _ _ _ Hwf Hbl Hwl Hv). case_decide; [done|]. cbn [bar_type]. done. }
  rewrite (bind_done _ _ _ _ _ Hdet).
  destruct (write_bar_reg c i _ rl _ v Hwf Hi Hv Hbl Hrl Hwl) as (x & Hrun & Hwf').
  rewrite (bind_done _ _ _ _ _ Hrun). eexists _, _. split; [done|]. split; [done|]. split.
  - split; try done; [by apply read_put|by rewrite read_put_ne by lia].
  - unfold bar_wmask. cbn [bar_size]. apply masked_read; [apply type_mask_width|..].
    + case_decide; [apply land_in_width; [lia|]|]; apply type_mask_width.
    + intros j Hj. case_decide; [|done]. rewrite Z.land_spec. by intros [? _]%andb_true_iff.
Qed.

Lemma land_max x : in_width 32 x -> Z.land x U32_MAX = x.
Proof. intros Hx. change U32_MAX with (Z.ones 32). rewrite Z.land_ones by lia. by apply Z.mod_small. Qed.

(** Asking for the upper half of the size. *)
Lemma bar64_high_size c i lo hi k rl rh :
  pci_wf c -> bar64 c i lo hi k rl rh ->
  exists c', guest_write32 (4 + S i) U32_MAX c = (Done None, c') /\ pci_wf c' /\
    bar64 c' i lo hi k rl (hi32 (2 ^ 64 - 2 ^ k)).
Proof.
  intros Hwf [Hbl Hbh Hwl Hwh Hrl Hrh]. pose proof (bar_index c (S i) _ Hwf Hbh) as Hi. unfold guest_write32.
  assert (Hmax : in_width 32 U32_MAX) by done.
  erewrite bind_done by (by rewrite (detect_run c (S i) _ _ _ Hwf Hbh Hwh Hmax), decide_True).
  destruct (write_bar_reg c (S i) _ rh _ U32_MAX Hwf Hi Hmax Hbh Hrh Hwh) as (x & Hrun & Hwf').
  rewrite (bind_done _ _ _ _ _ Hrun). eexists. split; [done|]. split; [done|].
  assert (Hval : Z.lor (Z.land rh (unot 32 U32_MAX)) (Z.land U32_MAX (bar_wmask U32_MAX
      (mkBar hi (hi32 (2 ^ 64 - 2 ^ k)) true None) U32_MAX)) = hi32 (2 ^ 64 - 2 ^ k)).
  { change (unot 32 U32_MAX) with 0. rewrite Z.land_0_r, Z.lor_0_l. unfold bar_wmask. rewrite decide_True by done.
    cbn [bar_size]. rewrite !(Z.land_comm U32_MAX), !land_max; [done|apply hi32_width|].
    apply land_in_width_r; [lia|]. done. }
  split; try done; [by rewrite read_put_ne by lia|].
  rewrite read_put by done. by f_equal.
Qed.

Definition join (h l : Z) : Z := Z.lor (Z.shiftl h 32) l.
Lemma join_add h l : in_width 32 h -> in_width 32 l -> join h l = h * 2 ^ 32 + l.
Proof.
  intros [? ?] [? ?]. rewrite <- (hi_lo_join (h * 2 ^ 32 + l)) by (unfold in_width; lia). unfold join. f_equal.
  - f_equal. unfold hi32. rewrite Z.shiftr_div_pow2, Z.div_add_l, (Z.div_small l), Z.add_0_r by lia.
    symmetry. by apply wrap_small.
  - unfold lo32, wrap. rewrite Z.add_comm, Z.mod_add, Z.mod_small by lia. done.
Qed.
Lemma join_inj h l h' l' :
  in_width 32 h -> in_width 32 l -> in_width 32 h' -> in_width 32 l' -> join h l = join h' l' -> h = h' /\ l = l'.
Proof. intros Hh Hl Hh' Hl'. rewrite !join_add by done. unfold in_width in *. lia. Qed.

Lemma join_masked a :
  in_width 64 a -> join (hi32 a) (Z.land (lo32 a) (type_mask Memory64BitRegion)) = Z.land a MEM64_MASK.
Proof.
  intros Ha. unfold join. apply (bits_eq 64); [lia| |by apply land_in_width|].
  - apply lor_in_width; [lia| |].
    + apply (shiftl_in_width 32 _ 32); [lia|lia|apply hi32_width].
    + destruct (land_in_width 32 (lo32 a) (type_mask Memory64BitRegion) ltac:(lia) (lo32_width a)).
      split; [done|]. assert (2 ^ 32 < 2 ^ 64) by done. lia.
  - intros j Hj. rewrite Z.lor_spec, !Z.land_spec. unfold MEM64_MASK. rewrite high_mask_bit by lia.
    destruct (decide (j < 32)) as [Hlt|Hge].
    + rewrite Z.shiftl_spec_low, type_mask_bit by lia. cbn [orb low_bits]. unfold lo32. rewrite wrap_testbit by lia.
      f_equal. apply bool_decide_ext. lia.
    + rewrite Z.shiftl_spec by lia. unfold hi32. rewrite wrap_testbit, Z.shiftr_spec by lia.
      rewrite (testbit_high 32 (lo32 a)) by (lia || apply lo32_width). rewrite bool_decide_true by lia. cbn [andb].
      rewrite orb_false_r, andb_true_r. f_equal. lia.
Qed.

Lemma bar64_detect c i lo hi k rl rh v :
  pci_wf c -> bar64 c i lo hi k rl rh -> 0 <= k < 64 -> in_width 32 v -> v <> U32_MAX ->
  exists c' lo', detect_bar_reprogramming (4 + S i) (le_bytes 4 v) c =
      (Done (if decide (Z.land rl (type_mask Memory64BitRegion) = Z.land lo (type_mask Memory64BitRegion) /\ v = hi)
             then None
             else Some (mkParams (join hi (Z.land lo (type_mask Memory64BitRegion)))
                          (join v (Z.land rl (type_mask Memory64BitRegion))) (2 ^ k) Memory64BitRegion)), c') /\
    pci_wf c' /\ bar64 c' i lo' v k rl rh /\
    Z.land lo' (type_mask Memory64BitRegion) = Z.land rl (type_mask Memory64BitRegion).
Proof.
  intros Hwf [Hbl Hbh Hwl Hwh Hrl Hrh] Hk Hv Hne. set (m := type_mask Memory64BitRegion) in *.
  assert (Hpk : 0 < 2 ^ k < 2 ^ 64) by (split; [apply Z.pow_pos_nonneg|apply Z.pow_lt_mono_r]; lia).
  assert (Hhi : in_width 32 hi) by (by destruct (pw_bar _ Hwf _ _ Hbh)).
  assert (Hrl32 : in_width 32 rl). { destruct (pw_registers _ Hwf) as [_ Hu]. by eapply Forall_lookup_1 in Hu. }
  rewrite (detect_run c (S i) _ _ _ Hwf Hbh Hwh Hv), decide_False by done. cbn [bar_type]. unfold detect_upper_bar.
  rewrite decide_False by (unfold BAR0_REG; lia). rewrite bind_get.
  replace (4 + S i - 1)%nat with (4 + i)%nat by lia. replace (4 + S i - 4 - 1)%nat with i by lia.
  replace (4 + S i - 4)%nat with (S i) by lia.
  rewrite (at_index_ok _ _ _ Hrl), bind_ret, (at_index_ok _ _ _ Hwl), bind_ret, (at_index_ok _ _ _ Hbl), bind_ret.
  cbn [bar_addr bar_size]. rewrite !land_max by done. destruct (decide (_ \/ _)) as [Hmove|Hstay].
  - rewrite (decide_False (P := _ /\ _)) by (intros [? ?]; by destruct Hmove).
    rewrite decode_64_spec by lia.
    destruct (set_bar_addr_ok c (S i) _ v Hwf Hbh Hv) as [Hrun1 Hwf1]. rewrite (bind_done _ _ _ _ _ Hrun1).
    set (c1 := put_bar (S i) _ c) in *.
    assert (Hbl1 : bars c1 !! i = bars c !! i) by (cbn; by rewrite list_lookup_insert_ne by lia).
    rewrite Hbl in Hbl1. destruct (set_bar_addr_ok c1 i _ rl Hwf1 Hbl1 Hrl32) as [Hrun2 Hwf2].
    rewrite (bind_done _ _ _ _ _ Hrun2). eexists _, rl. split; [done|]. split; [done|]. split; [|done].
    pose proof (bar_index c (S i) _ Hwf Hbh). pose proof (pw_bars _ Hwf).
    split; try done; cbn; rewrite ?list_lookup_insert_ne by lia; rewrite list_lookup_insert_eq;
      rewrite ?length_insert; done || lia.
  - assert (Heq : Z.land rl m = Z.land lo m /\ v = hi).
    { destruct (decide (Z.land rl m = Z.land lo m)), (decide (v = hi)); tauto. }
    rewrite decide_True by done. destruct Heq as [Heq ->]. exists c, lo. by split_and!.
Qed.

Lemma bar64_program c i lo hi k rl rh v :
  pci_wf c -> bar64 c i lo hi k rl rh -> 0 <= k < 64 -> in_width 32 v -> v <> U32_MAX ->
  exists c' lo', guest_write32 (4 + S i) v c =
      (Done (if decide (Z.land rl (type_mask Memory64BitRegion) = Z.land lo (type_mask Memory64BitRegion) /\ v = hi)
             then None
             else Some (mkParams (join hi (Z.land lo (type_mask Memory64BitRegion)))
                          (join v (Z.land rl (type_mask Memory64BitRegion))) (2 ^ k) Memory64BitRegion)), c') /\
    pci_wf c' /\ bar64 c' i lo' v k rl v /\
    Z.land lo' (type_mask Memory64BitRegion) = Z.land rl (type_mask Memory64BitRegion).
Proof.
  intros Hwf Hbar Hk Hv Hne. unfold guest_write32.
  destruct (bar64_detect c i lo hi k rl rh v Hwf Hbar Hk Hv Hne) as (c1 & lo' & Hdet & Hwf1 & [Hbl Hbh Hwl Hwh Hrl Hrh] & Hlo).
  rewrite (bind_done _ _ _ _ _ Hdet). pose proof (bar_index c1 (S i) _ Hwf1 Hbh) as Hi.
  destruct (write_bar_reg c1 (S i) _ rh _ v Hwf1 Hi Hv Hbh Hrh Hwh) as (x & Hrun & Hwf').
  rewrite (bind_done _ _ _ _ _ Hrun). eexists _, lo'. split; [done|]. split; [done|]. split; [|done].
  assert (Hval : Z.lor (Z.land rh (unot 32 U32_MAX)) (Z.land v (bar_wmask U32_MAX
      (mkBar v (hi32 (2 ^ 64 - 2 ^ k)) true None) v)) = v).
  { change (unot 32 U32_MAX) with 0. rewrite Z.land_0_r, Z.lor_0_l. unfold bar_wmask. rewrite decide_False by done.
    by apply land_max. }
  split; try done; [by rewrite read_put_ne by lia|]. rewrite read_put by done. by f_equal.
Qed.

Lemma bar64_addr c i lo hi k rl rh :
  bar64 c i lo hi k rl rh -> in_width 32 lo -> in_width 32 hi ->
  get_bar_addr i c = (Done (join hi (Z.land lo (type_mask Memory64BitRegion))), c).
Proof.
  intros [Hbl Hbh Hwl Hwh Hrl Hrh] Hlo Hhi. unfold get_bar_addr. rewrite bind_get, (at_index_ok _ _ _ Hbl), bind_ret.
  unfold BAR0_REG. rewrite (at_index_ok _ _ _ Hwl), bind_ret. cbn [bar_type]. rewrite decide_True by done.
  rewrite Nat.add_1_r, (at_index_ok _ _ _ Hbh), bind_ret. unfold join, ret. cbn [bar_addr]. do 2 f_equal.
  rewrite Z.lor_comm. f_equal. apply wrap_small. by apply (shiftl_in_width 32 _ 32).
Qed.

Lemma bar_value_masked config :
  Z.land (bar_value config) (type_mask (bc_region_type config)) =
  Z.land (wrap 32 (bc_addr config)) (type_mask (bc_region_type config)).
Proof.
  unfold bar_value. rewrite bar_mask_type. apply (bits_eq 32); [lia|by apply land_in_width_r; [|apply type_mask_width]..|].
  intros j Hj. rewrite !Z.land_spec, Z.lor_spec, Z.land_spec, type_mask_bit by done. case_bool_decide as Hle; [|by rewrite !andb_false_r].
  rewrite !andb_true_r. assert (Hlow : Z.testbit (bar_low config) j = false).
  { apply (testbit_high (low_bits (bc_region_type config))); [|destruct (bc_region_type config); cbn in *; lia].
    unfold bar_low, bar_encoding. destruct (bc_region_type config), (bc_prefetchable config); vm_compute; intuition congruence. }
  by rewrite Hlow, orb_false_r.
Qed.

Lemma bar64_added config c c1 k :
  pci_wf c -> (bc_idx config < 6)%nat -> in_width 64 (bc_addr config) -> in_width 64 (bc_size config) ->
  bc_region_type config = Memory64BitRegion -> bc_size config = 2 ^ k ->
  add_pci_bar config c = (Done tt, c1) ->
  pci_wf c1 /\ bar64 c1 (bc_idx config) (bar_value config) (hi32 (bc_addr config)) k
    (bar_value config) (hi32 (bc_addr config)).
Proof.
  intros Hwf Hi Ha Hs Ht Hk Hrun.
  destruct (add_pci_bar_ok config c Hwf Hi Ha Hs) as [[e He]|[Hfits Hrun']]; [congruence|].
  rewrite Hrun in Hrun'. simplify_eq. split; [by apply with_bar_wf|].
  destruct Hfits as (b & k' & Hb & _ & _ & _ & Hfit). rewrite Ht in Hfit. destruct Hfit as (_ & b' & Hb' & _).
  pose proof (bar_index c _ _ Hwf Hb'). pose proof (pw_bars _ Hwf).
  destruct (pw_registers _ Hwf) as [Hrl _]. destruct (pw_writable _ Hwf) as [Hwl _].
  unfold with_bar. rewrite Ht, Hk. split; cbn -[Nat.add]; unfold BAR0_REG; rewrite ?Ht, ?Hk, ?bar_mask_type, ?Ht;
    rewrite ?list_lookup_insert_ne by lia; rewrite list_lookup_insert_eq by (rewrite ?length_insert; lia); done.
Qed.
End bars.

(** A 32-bit base address register follows the protocol of PCI.  After a
    register is added, writing all ones to it moves nothing and makes it read as
    the size of the region; then writing an address moves the region exactly if
    the address differs, from the address it had to the one written, and after
    that the register and the device have the address that was written. *)
Theorem bar32_protocol {G} `{GroupLaws G} config (c c1 : PciConfiguration G) k :
  let i := bc_idx config in
  let t := bc_region_type config in
  let mask := type_mask t in
  pci_wf c -> (i < 6)%nat -> in_width 64 (bc_addr config) -> bc_size config = 2 ^ k -> low_bits t <= k < 32 ->
  t <> Memory64BitRegion -> add_pci_bar config c = (Done tt, c1) ->
  exists c2, guest_write32 (4 + i) U32_MAX c1 = (Done None, c2) /\
    wadd 32 (unot 32 (Z.land (read_config_register (4 + i) c2) mask)) 1 = bc_size config /\
    forall a, in_width 32 a -> a <> U32_MAX -> exists c3,
      guest_write32 (4 + i) a c2 =
        (Done (if decide (Z.land a mask = Z.land (wrap 32 (bc_addr config)) mask) then None
               else Some (mkParams (Z.land (wrap 32 (bc_addr config)) mask) (Z.land a mask) (bc_size config) t)), c3) /\
      Z.land (read_config_register (4 + i) c3) mask = Z.land a mask /\
      get_bar_addr i c3 = (Done (Z.land a mask), c3).
Proof.
  intros i t mask Hwf Hi Ha Hk Hlow Ht Hadd. assert (0 <= k) by (unfold t in *; destruct (bc_region_type config); cbn in Hlow; lia).
  assert (Hpk : 0 < 2 ^ k < 2 ^ 32) by (split; [apply Z.pow_pos_nonneg|apply Z.pow_lt_mono_r]; lia).
  destruct (bar32_added config c c1 k) as [Hwf1 Hb1]; try done; [rewrite Hk; apply pow2_in_width; lia|].
  destruct (bar32_size c1 i t _ k _ Hwf1 Hb1 Ht Hlow) as (c2 & r2 & Hrun2 & Hwf2 & Hb2 & Hr2).
  exists c2. split; [done|]. unfold read_config_register, read_reg.
  split.
  - rewrite (b32_register _ _ _ _ _ _ Hb2). cbn [from_option id]. unfold mask. rewrite Hr2.
    rewrite unot_sub by (unfold in_width; lia). rewrite wadd_small by (unfold in_width; lia). lia.
  - intros a Ha32 Hne.
    destruct (bar32_program c2 i t _ k _ a Hwf2 Hb2 Ht ltac:(lia) Ha32 Hne) as (c3 & a' & r3 & Hrun3 & Hwf3 & Hb3 & Ha' & Hr3).
    exists c3. unfold t in Hrun3. rewrite bar_value_masked, <- Hk in Hrun3. split; [exact Hrun3|].
    rewrite (b32_register _ _ _ _ _ _ Hb3). cbn [from_option id]. split; [exact Hr3|].
    rewrite (bar32_addr _ _ _ _ _ _ Hb3 Ht). by rewrite Ha'.
Qed.

(** C34: A 64-bit base address register follows the protocol of PCI.  After a
    register is added, writing all ones to both halves moves nothing and makes
    them read as the size of the region; then writing the lower and the upper
    half of an address moves the region, with the second write, exactly if the
    address differs, and after that the device has the address written. *)
Theorem bar64_protocol {G} `{GroupLaws G} config (c c1 : PciConfiguration G) k :
  let i := bc_idx config in
  let lo := (4 + i)%nat in
  let hi := (4 + S i)%nat in
  pci_wf c -> (i < 6)%nat -> in_width 64 (bc_addr config) -> bc_size config = 2 ^ k -> 4 <= k < 64 ->
  bc_region_type config = Memory64BitRegion -> add_pci_bar config c = (Done tt, c1) ->
  exists c2 c3, guest_write32 lo U32_MAX c1 = (Done None, c2) /\ guest_write32 hi U32_MAX c2 = (Done None, c3) /\
    wadd 64 (unot 64 (join (read_config_register hi c3)
      (Z.land (read_config_register lo c3) (type_mask Memory64BitRegion)))) 1 = bc_size config /\
    forall a, in_width 64 a -> lo32 a <> U32_MAX -> hi32 a <> U32_MAX -> exists c4 c5,
      guest_write32 lo (lo32 a) c3 = (Done None, c4) /\
      guest_write32 hi (hi32 a) c4 =
        (Done (if decide (Z.land a MEM64_MASK = Z.land (bc_addr config) MEM64_MASK) then None
               else Some (mkParams (Z.land (bc_addr config) MEM64_MASK) (Z.land a MEM64_MASK) (bc_size config)
                            Memory64BitRegion)), c5) /\
      get_bar_addr i c5 = (Done (Z.land a MEM64_MASK), c5).
Proof.
  intros i lo hi Hwf Hi Ha Hk Hk64 Ht Hadd.
  assert (Hpk : 2 ^ 4 <= 2 ^ k < 2 ^ 64) by (split; [apply Z.pow_le_mono_r|apply Z.pow_lt_mono_r]; lia).
  destruct (bar64_added config c c1 k) as [Hwf1 Hb1]; try done; [rewrite Hk; apply pow2_in_width; lia|].
  destruct (bar64_low c1 i _ _ k _ _ U32_MAX Hwf1 Hb1) as (c2 & rl2 & Hrun2 & Hwf2 & Hb2 & Hrl2); [done|].
  destruct (bar64_high_size c2 i _ _ k _ _ Hwf2 Hb2) as (c3 & Hrun3 & Hwf3 & Hb3).
  exists c2, c3. split; [done|]. split; [done|]. unfold read_config_register, read_reg.
  assert (Hold : Z.land (bar_value config) (type_mask Memory64BitRegion) = Z.land (lo32 (bc_addr config)) (type_mask Memory64BitRegion)).
  { rewrite <- Ht. apply bar_value_masked. }
  split.
  - unfold lo, hi. rewrite (b64_rlo _ _ _ _ _ _ _ Hb3), (b64_rhi _ _ _ _ _ _ _ Hb3). cbn [from_option id].
    rewrite Hrl2. rewrite decide_True by done. rewrite (Z.land_comm U32_MAX), land_max
      by (apply land_in_width; [lia|apply type_mask_width]).
    rewrite Z.land_comm, join_masked by (unfold in_width; lia).
    replace (Z.land (2 ^ 64 - 2 ^ k) MEM64_MASK) with (2 ^ 64 - 2 ^ k).
    + rewrite unot_sub by (unfold in_width; lia). rewrite wadd_small by (unfold in_width; lia). lia.
    + apply (bits_eq 64); [lia|unfold in_width; lia|apply land_in_width; unfold in_width; lia|].
      intros j Hj. unfold MEM64_MASK. rewrite Z.land_spec, !high_mask_bit by lia. repeat case_bool_decide; cbn; lia || done.
  - intros a Ha64 Hlo Hhi.
    destruct (bar64_low c3 i _ _ k _ _ (lo32 a) Hwf3 Hb3) as (c4 & rl4 & Hrun4 & Hwf4 & Hb4 & Hrl4); [apply lo32_width|].
    rewrite decide_False in Hrl4 by done.
    destruct (bar64_program c4 i _ _ k _ _ (hi32 a) Hwf4 Hb4) as (c5 & lo5 & Hrun5 & Hwf5 & Hb5 & Hlo5);
      [lia|apply hi32_width|done|].
    exists c4, c5. split; [done|]. split.
    + unfold hi. rewrite Hrun5, Hrl4, Hold, <- Hk. rewrite !join_masked by done.
      assert (Hiff : (Z.land (lo32 a) (type_mask Memory64BitRegion) =
          Z.land (lo32 (bc_addr config)) (type_mask Memory64BitRegion) /\ hi32 a = hi32 (bc_addr config)) <->
        Z.land a MEM64_MASK = Z.land (bc_addr config) MEM64_MASK).
      { rewrite <- !join_masked by done. split; [by intros [-> ->]|]. intros Hj. apply join_inj in Hj as [? ?]; try done;
          first [apply hi32_width|apply land_in_width; [lia|apply lo32_width]]. }
      destruct (decide (Z.land a MEM64_MASK = Z.land (bc_addr config) MEM64_MASK)) as [Heq|Hneq].
      * by rewrite decide_True by (by apply Hiff).
      * by rewrite decide_False by (by rewrite Hiff).
    + rewrite (bar64_addr _ _ _ _ _ _ _ Hb5); [|by destruct (pw_bar _ Hwf5 _ _ (b64_lo _ _ _ _ _ _ _ Hb5))|apply hi32_width].
      rewrite Hlo5, Hrl4. by rewrite join_masked.
Qed.

(** ** Examples *)
#[local] Existing Instances example_host example_host_accepts.

Definition example_bar32 : PciBarConfiguration := mkBarConfig 0xe0001000 0x1000 2 Memory32BitRegion NotPrefetchable.
Definition example_bar64 : PciBarConfiguration := mkBarConfig 0x3fffc00000 0x80000 0 Memory64BitRegion NotPrefetchable.

Lemma bar32_protocol_witness :
  match add_pci_bar example_bar32 example_config with
  | (Done tt, c1) =>
    exists c2, guest_write32 6 U32_MAX c1 = (Done None, c2) /\
      wadd 32 (unot 32 (Z.land (read_config_register 6 c2) (type_mask Memory32BitRegion))) 1 = 0x1000 /\
      exists c3, guest_write32 6 0xe0004000 c2 =
        (Done (Some (mkParams 0xe0001000 0xe0004000 0x1000 Memory32BitRegion)), c3)
  | _ => False
  end.
Proof.
  destruct (add_pci_bar example_bar32 example_config) as [r c1] eqn:Hadd.
  assert (Hr : r = Done tt) by (apply (f_equal fst) in Hadd; vm_compute in Hadd; done). subst r.
  destruct (bar32_protocol example_bar32 example_config c1 12) as (c2 & Hones & Hsize & Hprog); try done.
  - apply example_config_wf.
  - cbn. lia.
  - exists c2. split; [exact Hones|]. split; [exact Hsize|].
    destruct (Hprog 0xe0004000) as (c3 & Hrun & _); [done|done|]. exists c3. etrans; [exact Hrun|]. by vm_compute.
Defined.

Lemma bar64_protocol_witness :
  match add_pci_bar example_bar64 example_config with
  | (Done tt, c1) =>
    exists c2 c3, guest_write32 4 U32_MAX c1 = (Done None, c2) /\ guest_write32 5 U32_MAX c2 = (Done None, c3) /\
      exists c4 c5, guest_write32 4 0x00100000 c3 = (Done None, c4) /\
        guest_write32 5 0x41 c4 =
          (Done (Some (mkParams 0x3fffc00000 0x4100100000 0x80000 Memory64BitRegion)), c5) /\
        get_bar_addr 0 c5 = (Done 0x4100100000, c5)
  | _ => False
  end.
Proof.
  destruct (add_pci_bar example_bar64 example_config) as [r c1] eqn:Hadd.
  assert (Hr : r = Done tt) by (apply (f_equal fst) in Hadd; vm_compute in Hadd; done). subst r.
  destruct (bar64_protocol example_bar64 example_config c1 19) as (c2 & c3 & Hlo & Hhi & _ & Hprog); try done.
  - apply example_config_wf.
  - cbn. lia.
  - exists c2, c3. split; [exact Hlo|]. split; [exact Hhi|].
    destruct (Hprog 0x4100100000) as (c4 & c5 & H4 & H5 & Haddr); [done|done|done|]. exists c4, c5.
    split; [exact H4|]. split; [|exact Haddr]. etrans; [exact H5|]. by vm_compute.
Defined.

(** A register that is not used, after one of 32 bits that the guest is sizing,
    is taken for the upper half of a 64-bit one: writing to it reports a move of
    the region before it, to the mask of its size (configuration.rs,
    [detect_bar_reprogramming]). *)
Lemma unused_register_moves_region :
  match (add_pci_bar example_bar32 ;;; guest_write32 6 U32_MAX ;;; guest_write32 7 0) example_config with
  | (Done p, _) => p = Some (mkParams 0xe0001000 0xfffff000 (2 ^ 64 - 0xfffff000) Memory64BitRegion)
  | _ => False
  end.
Proof. vm_compute. reflexivity. Qed.

(** The upper half first, then the lower half: the region stays where the lower
    half was. *)
Lemma upper_half_first :
  match (add_pci_bar example_bar64 ;;; guest_write32 5 0x41 ;;; guest_write32 4 0x00100000 ;;;
         get_bar_addr 0) example_config with
  | (Done a, c) => a = 0x41ffc00000 /\ read_reg 4 c = 0x00100004 /\ read_reg 5 c = 0x41
  | _ => False
  end.
Proof. vm_compute. repeat split; reflexivity. Qed.

(** The index of a register is used before it is checked. *)
Lemma bar_index_panics :
  (add_pci_bar (mkBarConfig 0 16 6 Memory32BitRegion NotPrefetchable) example_config).1 = Crashed.
Proof. vm_compute. reflexivity. Qed.

(** A bridge has writable bits in the place of the last base address register. *)
Lemma bridge_write_panics :
  (detect_bar_reprogramming 9 (le_bytes 4 0x10)
     (config_new (G := MsiInterruptGroup) 0x8086 0xd57 0 6 0 None Bridge 0 0 None)).1 = Crashed.
Proof. vm_compute. reflexivity. Qed.
