(* ===== verification/PciConfigSpec.v ===== *)
(** Every operation keeps the configuration space well formed, and none of the
    guest's panics or changes a bit that is not writable. *)
From stdpp Require Import base numbers gmap list.
From S2P Require Import Prelude Bytes IrqGroup Msix MsixProofs PciConfig PciConfigProofs PciCaps PciBars.
#[local] Open Scope Z_scope.

Section spec.
Context {G : Type} `{GroupLaws G}.
Abbreviation P := (PciConfiguration G).
Implicit Types (c : P).

Lemma rom_wf c v size :
  pci_wf c -> in_width 32 v -> 0 < size < 2 ^ 32 ->
  pci_wf (set_rom v size true (put_writable ROM_BAR_REG ROM_BAR_ADDR_MASK (put_register ROM_BAR_REG v c))).
Proof.
  intros Hwf Hv Hs. pose proof (put_register_wf c ROM_BAR_REG v Hwf Hv) as Hwf1.
  destruct Hwf1 as [Hr [Hwl Hwu] Hbl Hbar _ Hcap Hm]. split; try done; cbn -[ROM_BAR_REG].
  - split; [by rewrite length_insert|by apply u32s_insert].
  - intros j x Hx. pose proof (lookup_lt_Some _ _ _ Hx) as Hlt. cbn in Hlt, Hbl. rewrite Hbl in Hlt.
    destruct (Hbar j x Hx) as (Ha & Hs' & Hk). split_and!; [done|done|].
    destruct (bar_type x) as [[]|]; try done. destruct (bar_used x); [done|]. destruct Hk as [Hz Hw]. split; [done|].
    rewrite list_lookup_insert_ne by (unfold BAR0_REG, ROM_BAR_REG; lia). exact Hw.
  - split; [done|]. split; [unfold in_width; lia|lia].
Qed.

Lemma add_rom_ok config active c :
  pci_wf c -> 0 <= bc_addr config -> in_width 32 (bc_size config) -> in_width 32 active ->
  exists r c', add_pci_rom_bar config active c = (r, c') /\ r <> Crashed /\ pci_wf c'.
Proof.
  intros Hwf Ha Hs Hact. unfold add_pci_rom_bar. rewrite bind_get.
  assert (Hfail : forall e, exists r c', (Fail (E := pci_error) (A := unit) e, c) = (r, c') /\ r <> Crashed /\ pci_wf c').
  { intros e. by eexists _, _. }
  destruct (rom_bar_used c); [apply Hfail|]. case_decide as Hones; [apply Hfail|]. case_decide; [apply Hfail|].
  unfold checked_add. case_decide; [|apply Hfail]. case_decide; [apply Hfail|]. rewrite !bind_modify.
  assert (Hs64 : in_width 64 (bc_size config)). { destruct Hs. split; [done|]. assert (2 ^ 32 < 2 ^ 64) by done. lia. }
  destruct (count_ones_power _ Hs64 Hones) as (k & Hk & Hpow).
  assert (0 < bc_size config) by (rewrite Hpow; apply Z.pow_pos_nonneg; lia). destruct Hs as [_ Hs].
  rewrite wrap_small by (unfold in_width; lia). rewrite encode_32_spec by lia.
  eexists _, _. split; [done|]. split; [done|].
  apply (rom_wf c (Z.lor (wrap 32 (bc_addr config)) active) (2 ^ 32 - bc_size config)); [done| |lia].
  apply lor_in_width; [lia|by apply wrap_in_width|done].
Qed.

Lemma set_irq_ok line pin c :
  pci_wf c -> in_width 8 line -> 0 <= pin < 4 -> exists c', set_irq line pin c = (Done tt, c') /\ pci_wf c'.
Proof.
  intros Hwf Hl Hp. unfold set_irq. rewrite bind_get.
  destruct (register_lookup c INTERRUPT_LINE_PIN_REG Hwf) as (r & Hr & Hr32); [done|].
  rewrite (at_index_ok _ _ _ Hr), bind_ret. eexists. split; [done|]. apply put_register_wf; [done|].
  apply lor_in_width; [lia| |destruct Hl; split; lia].
  apply lor_in_width; [lia|by apply land_in_width|by apply wrap_in_width].
Qed.

(** Restoring what was saved gives back everything but the MSI-X table. *)
Lemma config_restored c c' :
  pci_wf c -> pci_wf c' -> config_set_state (config_state c) c' = (Done tt, set_msix (msix_config c') c).
Proof.
  intros Hwf Hwf'. unfold config_set_state. rewrite bind_get.
  rewrite decide_True by (cbn; destruct (pw_registers _ Hwf), (pw_registers _ Hwf'); lia). rewrite bind_modify.
  rewrite decide_True by (cbn; destruct (pw_writable _ Hwf), (pw_writable _ Hwf'); lia). rewrite bind_modify.
  rewrite decide_True by (cbn; by rewrite (pw_bars _ Hwf), (pw_bars _ Hwf')). by rewrite !bind_modify.
Qed.

(** ** Operations *)
Inductive cfg_op :=
| AddBar (config : PciBarConfiguration)
| AddRomBar (config : PciBarConfiguration) (active : Z)
| AddCapability (cap : PciCapability)
| SetIrq (line pin : Z)
| GuestWrite (reg offset : nat) (data : list Z).

(** The state after an operation, whether or not it reports an error; [None] if
    it panics.  A write of the guest looks for a move first. *)
Definition survives {A} (r : outcome pci_error A * P) : option P :=
  match r with (Crashed, _) => None | (_, c) => Some c end.
Definition cfg_exec (o : cfg_op) (c : P) : option P :=
  match o with
  | AddBar config => survives (add_pci_bar config c)
  | AddRomBar config active => survives (add_pci_rom_bar config active c)
  | AddCapability cap => survives (add_capability cap c)
  | SetIrq line pin => survives (set_irq line pin c)
  | GuestWrite reg offset data =>
    survives ((detect_bar_reprogramming reg data ;;; write_config_register reg offset data) c)
  end.

(** Values in their types, and a register within the space. *)
Definition cfg_op_ok (o : cfg_op) : Prop :=
  match o with
  | AddBar config => (bc_idx config < 6)%nat /\ in_width 64 (bc_addr config) /\ in_width 64 (bc_size config)
  | AddRomBar config active => 0 <= bc_addr config /\ in_width 32 (bc_size config) /\ in_width 32 active
  | AddCapability cap => Forall byte_ok (cap_bytes cap)
  | SetIrq line pin => in_width 8 line /\ 0 <= pin < 4
  | GuestWrite reg offset data => Z.of_nat reg < 1024 /\ Forall byte_ok data
  end.

Lemma cfg_exec_ok o c : pci_wf c -> cfg_op_ok o -> exists c', cfg_exec o c = Some c' /\ pci_wf c'.
Proof.
  intros Hwf Hok. destruct o as [config|config active|cap|line pin|reg offset data]; cbn [cfg_exec cfg_op_ok] in *.
  - destruct Hok as (Hi & Ha & Hs).
    destruct (add_pci_bar_ok config c Hwf Hi Ha Hs) as [[e He]|[Hfits Hrun]]; [rewrite He|rewrite Hrun]; [by eexists|].
    eexists. split; [done|by apply with_bar_wf].
  - destruct Hok as (Ha & Hs & Hact). destruct (add_rom_ok config active c Hwf Ha Hs Hact) as (r & c' & Hrun & Hr & Hwf').
    rewrite Hrun. exists c'. by destruct r.
  - destruct (add_capability_ok c cap Hwf Hok) as [[e He]|Hdone]; [rewrite He; by eexists|].
    destruct (next_cap c) as [off tail]. destruct Hdone as (_ & c' & Hrun & Hwf' & _). rewrite Hrun. by exists c'.
  - destruct Hok as [Hl Hp]. destruct (set_irq_ok line pin c Hwf Hl Hp) as (c' & Hrun & Hwf'). rewrite Hrun. by exists c'.
  - destruct Hok as [Hreg Hdata].
    destruct (detect_bar_reprogramming_ok c reg data Hwf Hreg Hdata) as (p & c1 & Hdet & Hwf1 & _).
    rewrite (bind_done _ _ _ _ _ Hdet).
    destruct (write_config_register_ok c1 reg offset data Hwf1 Hreg Hdata) as (c' & Hrun & Hwf' & _).
    rewrite Hrun. by exists c'.
Qed.

Fixpoint cfg_run (os : list cfg_op) (c : P) : option P :=
  match os with
  | [] => Some c
  | o :: os => c' ← cfg_exec o c; cfg_run os c'
  end.
End spec.

(** C36: The configuration space of a device is well formed in every state.
    From a new configuration with the header of a device, whose MSI-X state, if it
    has one, is well formed with up to 31 vectors, every sequence of additions of
    base address registers, with indices below 6, and of capabilities, and of writes
    of the guest to registers below 1024 ends without a panic in a well-formed state:
    registers hold 32-bit values, each base address register is a 32-bit one, a half
    of a 64-bit one with its other half beside it, or not used and not writable, and
    those in use have a size.  Other indices and the header of a bridge panic:
    [bar_index_panics], [bridge_write_panics]. *)
Theorem config_ops_wf {G} `{GroupLaws G} vendor device revision class subclass pi sub_vendor sub_id
    (msix : option (MsixConfig G)) os :
  in_width 16 vendor -> in_width 16 device -> in_width 8 revision -> in_width 8 class -> in_width 8 subclass ->
  from_option (in_width 8) True pi -> in_width 16 sub_vendor -> in_width 16 sub_id ->
  from_option msix_wf True msix -> Forall cfg_op_ok os ->
  exists c, cfg_run os (config_new vendor device revision class subclass pi Device sub_vendor sub_id msix) = Some c /\
    pci_wf c.
Proof.
  intros Hv Hd Hr Hc Hs Hp Hsv Hsi Hm Hos.
  destruct (config_new_wf vendor device revision class subclass pi sub_vendor sub_id msix) as [Hwf _]; try done.
  revert Hwf. generalize (config_new vendor device revision class subclass pi Device sub_vendor sub_id msix).
  induction Hos as [|o os Ho _ IH]; intros c Hwf; cbn [cfg_run]; [by exists c|].
  destruct (cfg_exec_ok o c Hwf Ho) as (c' & -> & Hwf'). by apply IH.
Qed.

#[local] Existing Instances example_host example_host_accepts.

Lemma config_ops_wf_witness :
  exists c, cfg_run [AddBar example_bar64; AddBar example_bar32; AddBar example_bar32;
      AddCapability (mkCapability MsiX [2; 128; 0; 64; 0; 0; 0; 128; 0; 0]);
      GuestWrite 4 0 [255; 255; 255; 255]; GuestWrite 5 0 [65; 0; 0; 0]; GuestWrite 1 1 [4]]
    example_config = Some c /\ pci_wf c.
Proof.
  apply (config_ops_wf 0x1af4 0x1042 1 1 0 None 0x1af4 0x1100 None); try done.
  repeat constructor; cbn; lia.
Defined.

(** C37: A guest changes writable bits only.  A write of the guest to the
    configuration space, of any size and at any offset, leaves all other
    registers alone, and in its register every bit that is not writable. *)
Theorem guest_keeps_read_only {G} `{GroupLaws G} (c : PciConfiguration G) reg offset data :
  pci_wf c -> Z.of_nat reg < 1024 -> Forall byte_ok data ->
  exists c', write_config_register reg offset data c = (Done tt, c') /\ pci_wf c' /\
    writable_bits c' = writable_bits c /\ (forall j, j <> reg -> registers c' !! j = registers c !! j) /\
    forall j r r' wb i, registers c !! j = Some r -> registers c' !! j = Some r' -> writable_bits c !! j = Some wb ->
      0 <= i < 32 -> Z.testbit wb i = false -> Z.testbit r' i = Z.testbit r i.
Proof.
  intros Hwf Hreg Hdata.
  destruct (write_config_register_ok c reg offset data Hwf Hreg Hdata) as (c' & Hrun & Hwf' & Hw & _ & Hoth & Hro).
  exists c'. split_and!; try done. intros j r r' wb i Hr Hr' Hwb. by apply (Hro j r r' wb).
Qed.

Lemma guest_keeps_read_only_witness :
  exists c', write_config_register 0 0 [0; 0; 0; 0] example_config = (Done tt, c') /\
    Z.testbit (read_reg 0 c') 28 = Z.testbit 0x10421af4 28.
Proof.
  destruct (guest_keeps_read_only example_config 0 0 [0; 0; 0; 0]) as (c' & Hrun & Hwf & Hw & _ & Hro).
  - apply example_config_wf.
  - done.
  - repeat constructor; cbn; lia.
  - exists c'. split; [exact Hrun|]. destruct (register_lookup c' 0 Hwf) as (r' & Hr' & _); [done|].
    unfold read_reg. rewrite Hr'. by apply (Hro 0%nat 0x10421af4 r' 0 28).
Defined.
