(* ===== verification/PciBdf.v ===== *)
(** Addresses of PCI functions (hypervisor/pci/src/lib.rs): their fields, how
    they are printed, and how they are read back from text. *)
From stdpp Require Import base numbers strings list.
From Stdlib Require Import Ascii.
From S2P Require Import Prelude Bytes.
#[local] Open Scope Z_scope.

(** ** Text: characters, hexadecimal numbers, splitting *)
Abbreviation chars := (list ascii).

Definition hex_digit (n : Z) : ascii :=
  ascii_of_N (Z.to_N (if decide (n < 10) then 48 + n else 87 + n)).
(** [char::to_digit(16)] *)
Definition to_digit (c : ascii) : option Z :=
  let n := Z.of_N (N_of_ascii c) in
  if decide (48 <= n <= 57) then Some (n - 48)
  else if decide (97 <= n <= 102) then Some (n - 87)
  else if decide (65 <= n <= 70) then Some (n - 55)
  else None.

(** The digits of [n], the last one first; [fuel] digits at most. *)
Fixpoint hex_rev (fuel : nat) (n : Z) : chars :=
  match fuel with
  | O => []
  | S fuel => hex_digit (n mod 16) :: (if decide (n < 16) then [] else hex_rev fuel (n / 16))
  end.
(** [{:0wx}] of a number of 64 bits *)
Definition fmt_hex (w : nat) (n : Z) : chars :=
  let ds := reverse (hex_rev 16 n) in
  replicate (w - length ds) (ascii_of_N 48) ++ ds.

(** [str::split] with a character *)
Fixpoint split_at (c : ascii) (l : chars) : list chars :=
  match l with
  | [] => [[]]
  | x :: l =>
    if decide (x = c) then [] :: split_at c l
    else match split_at c l with
         | [] => [[x]]
         | item :: items => (x :: item) :: items
         end
  end.

Inductive ParseIntError := EmptyNumber | InvalidDigit | PosOverflow.

(** [from_str_radix(_, 16)] of an unsigned type of [w] bits *)
Fixpoint radix_loop (w acc : Z) (l : chars) : result ParseIntError Z :=
  match l with
  | [] => Ok acc
  | c :: l =>
    match to_digit c with
    | None => Err InvalidDigit
    | Some x => let acc := acc * 16 + x in if decide (acc < 2 ^ w) then radix_loop w acc l else Err PosOverflow
    end
  end.
Definition from_str_radix (w : Z) (l : chars) : result ParseIntError Z :=
  match l with
  | [] => Err EmptyNumber
  | c :: l' =>
    if decide (c = "+"%char) then match l' with [] => Err InvalidDigit | _ => radix_loop w 0 l' end
    else radix_loop w 0 l
  end.

(** ** Addresses *)
Abbreviation PciBdf := Z (only parsing).
Definition bdf_segment (b : PciBdf) : Z := Z.land (Z.shiftr b 16) 0xffff.
Definition bdf_bus (b : PciBdf) : Z := Z.land (Z.shiftr b 8) 0xff.
Definition bdf_device (b : PciBdf) : Z := Z.land (Z.shiftr b 3) 0x1f.
Definition bdf_function (b : PciBdf) : Z := Z.land b 0x7.
Definition bdf_new (segment bus device function : Z) : PciBdf :=
  Z.lor (Z.lor (Z.lor (Z.shiftl segment 16) (Z.shiftl bus 8)) (Z.shiftl (Z.land device 0x1f) 3)) (Z.land function 0x7).
(** [u16::from] *)
Definition bdf_u16 (b : PciBdf) : Z := Z.land b 0xffff.

Definition bdf_to_string (b : PciBdf) : chars :=
  fmt_hex 4 (bdf_segment b) ++ ":"%char :: fmt_hex 2 (bdf_bus b) ++ ":"%char :: fmt_hex 2 (bdf_device b) ++
  "."%char :: fmt_hex 1 (bdf_function b).

(** An assertion that fails is a crash. *)
Definition bdf_from_str (s : chars) : outcome ParseIntError PciBdf :=
  match split_at "."%char s with
  | [head; function] =>
    match from_str_radix 8 function with
    | Err e => Fail e
    | Ok function =>
      match split_at ":"%char head with
      | [segment; bus; device] =>
        match from_str_radix 16 segment, from_str_radix 8 bus, from_str_radix 8 device with
        | Ok segment, Ok bus, Ok device => Done (bdf_new segment bus device function)
        | Err e, _, _ | Ok _, Err e, _ | Ok _, Ok _, Err e => Fail e
        end
      | _ => Crashed
      end
    end
  | _ => Crashed
  end.
(** [PciBdf::from] of a string, which is what deserialization calls. *)
Definition bdf_from (s : chars) : outcome ParseIntError PciBdf :=
  match bdf_from_str s with Done b => Done b | _ => Crashed end.

(** ** Fields *)
Lemma bdf_new_sum s b d f :
  0 <= s -> in_width 8 b -> in_width 5 d -> in_width 3 f ->
  bdf_new s b d f = s * 2 ^ 16 + (b * 2 ^ 8 + (d * 2 ^ 3 + f)).
Proof.
  unfold in_width. intros Hs Hb Hd Hf. unfold bdf_new. change 0x1f with (Z.ones 5). change 0x7 with (Z.ones 3).
  rewrite !Z.land_ones, (Z.mod_small d), (Z.mod_small f), <- !Z.lor_assoc by lia.
  rewrite (lor_fields d f), (lor_fields b), lor_fields by lia. done.
Qed.
Lemma bdf_field_values b :
  bdf_segment b = (b / 2 ^ 16) mod 2 ^ 16 /\ bdf_bus b = (b / 2 ^ 8) mod 2 ^ 8 /\
  bdf_device b = (b / 2 ^ 3) mod 2 ^ 5 /\ bdf_function b = b mod 2 ^ 3.
Proof.
  split_and!; [by apply (field_div b 16 16)|by apply (field_div b 8 8)|by apply (field_div b 3 5)|].
  by apply (Z.land_ones b 3).
Qed.
Lemma bdf_fields b : in_width 32 b -> bdf_new (bdf_segment b) (bdf_bus b) (bdf_device b) (bdf_function b) = b.
Proof.
  destruct (bdf_field_values b) as (-> & -> & -> & ->). intros Hb.
  rewrite bdf_new_sum by (unfold in_width in *; Z.to_euclidean_division_equations; lia).
  unfold in_width in Hb. Z.to_euclidean_division_equations. lia.
Qed.
Lemma bdf_new_fields s b d f :
  in_width 16 s -> in_width 8 b -> in_width 5 d -> in_width 3 f ->
  let x := bdf_new s b d f in
  in_width 32 x /\ bdf_segment x = s /\ bdf_bus x = b /\ bdf_device x = d /\ bdf_function x = f.
Proof.
  intros Hs Hb Hd Hf x. destruct (bdf_field_values x) as (-> & -> & -> & ->). unfold x.
  rewrite bdf_new_sum by (unfold in_width in *; lia). unfold in_width in *.
  split_and!; Z.to_euclidean_division_equations; lia.
Qed.

(** ** Text *)
Definition plain (c : ascii) : Prop := c <> ":"%char /\ c <> "."%char /\ c <> "+"%char.

Lemma hex_digit_ok n : 0 <= n < 16 -> to_digit (hex_digit n) = Some n /\ plain (hex_digit n).
Proof.
  intros Hn. assert (Hcases : n ∈ seqZ 0 16) by (apply elem_of_seqZ; lia). clear Hn. revert n Hcases.
  apply Forall_forall. repeat constructor; done.
Qed.
Lemma radix_app w acc l l' :
  radix_loop w acc (l ++ l') = match radix_loop w acc l with Ok a => radix_loop w a l' | Err e => Err e end.
Proof.
  revert acc. induction l as [|c l IH]; intros acc; [done|]. cbn. destruct (to_digit c); [|done]. by case_decide.
Qed.
Lemma radix_digit w acc n : 0 <= n < 16 -> acc * 16 + n < 2 ^ w -> radix_loop w acc [hex_digit n] = Ok (acc * 16 + n).
Proof. intros Hn Hw. cbn. destruct (hex_digit_ok n Hn) as [-> _]. by rewrite decide_True. Qed.

Lemma hex_rev_value fuel n w :
  0 <= n < 16 ^ Z.of_nat fuel -> n < 2 ^ w -> (0 < fuel)%nat ->
  radix_loop w 0 (reverse (hex_rev fuel n)) = Ok n /\ Forall plain (hex_rev fuel n).
Proof.
  revert n. induction fuel as [|fuel IH]; intros n Hn Hw Hf; [lia|].
  rewrite Nat2Z.inj_succ, Z.pow_succ_r in Hn by lia. assert (Hd : 0 <= n mod 16 < 16) by (apply Z.mod_pos_bound; lia).
  pose proof (proj2 (hex_digit_ok _ Hd)) as Hp. pose proof (Z.div_mod n 16 ltac:(done)) as Hdm. cbn [hex_rev]. case_decide as Hs.
  - rewrite Z.mod_small in * by lia. split; [by apply radix_digit|by constructor].
  - assert (0 < n / 16 < n) by (Z.to_euclidean_division_equations; lia).
    destruct (IH (n / 16)) as [IHv IHp]; [split; [lia|apply Z.div_lt_upper_bound; lia]|lia| |].
    { destruct fuel; [change (16 ^ Z.of_nat 0) with 1 in Hn|]; lia. }
    split; [|by constructor]. rewrite reverse_cons, radix_app, IHv, radix_digit by lia. f_equal. lia.
Qed.
Lemma radix_zeros w k l : 0 <= w -> radix_loop w 0 (replicate k (hex_digit 0) ++ l) = radix_loop w 0 l.
Proof.
  intros Hw. assert (0 < 2 ^ w) by (apply Z.pow_pos_nonneg; lia). induction k as [|k IH]; [done|].
  change (replicate (S k) (hex_digit 0) ++ l) with ([hex_digit 0] ++ replicate k (hex_digit 0) ++ l).
  by rewrite radix_app, radix_digit by lia.
Qed.

(** A number is read back from its text. *)
Lemma fmt_hex_read w m n :
  0 <= w <= 64 -> in_width w n -> from_str_radix w (fmt_hex m n) = Ok n /\ Forall plain (fmt_hex m n).
Proof.
  intros Hw [Hn Hlt]. assert (2 ^ w <= 2 ^ 64) by (apply Z.pow_le_mono_r; lia).
  destruct (hex_rev_value 16 n w) as [Hv Hp]; [change (16 ^ Z.of_nat 16) with (2 ^ 64); lia|done|lia|].
  assert (Hplain : Forall plain (fmt_hex m n)).
  { apply Forall_app. split; [by apply Forall_replicate|by apply Forall_reverse]. }
  split; [|done]. assert (Hval : radix_loop w 0 (fmt_hex m n) = Ok n).
  { unfold fmt_hex. change (ascii_of_N 48) with (hex_digit 0). by rewrite radix_zeros by lia. }
  destruct (fmt_hex m n) as [|c l] eqn:Heq.
  - assert (Hlen : length (fmt_hex m n) = 0%nat) by (by rewrite Heq). revert Hlen. unfold fmt_hex.
    rewrite length_app, length_reverse. cbn. lia.
  - cbn [from_str_radix]. apply Forall_cons in Hplain as [(_ & _ & Hc) _]. by rewrite decide_False.
Qed.

Lemma split_plain c l : c ∉ l -> split_at c l = [l].
Proof.
  induction l as [|x l IH]; intros Hno; [done|]. apply not_elem_of_cons in Hno as [Hne Hno]. cbn.
  rewrite decide_False by congruence. by rewrite IH.
Qed.
Lemma split_app c l l' : c ∉ l -> split_at c (l ++ c :: l') = l :: split_at c l'.
Proof.
  induction l as [|x l IH]; intros Hno; cbn; [by rewrite decide_True|].
  apply not_elem_of_cons in Hno as [Hne Hno]. rewrite decide_False by congruence. by rewrite IH.
Qed.
Lemma plain_colon l : Forall plain l -> ":"%char ∉ l.
Proof. intros Hl Hin. rewrite Forall_forall in Hl. destruct (Hl _ Hin) as (? & ? & ?). done. Qed.
Lemma plain_dot l : Forall plain l -> "."%char ∉ l.
Proof. intros Hl Hin. rewrite Forall_forall in Hl. destruct (Hl _ Hin) as (? & ? & ?). done. Qed.

(** The text of an address is read back as that address.  For every address
    of 32 bits, its four fields determine it, and reading what is printed gives
    the same address, without an error or a panic. *)
Theorem bdf_roundtrip (b : Z) :
  in_width 32 b -> bdf_from (bdf_to_string b) = Done b /\
  bdf_new (bdf_segment b) (bdf_bus b) (bdf_device b) (bdf_function b) = b.
Proof.
  intros Hb. split; [|by apply bdf_fields]. destruct (bdf_field_values b) as (Hs & Hu & Hd & Hf).
  assert (Hws : 0 <= bdf_segment b < 65536) by (rewrite Hs; Z.to_euclidean_division_equations; lia).
  assert (Hwu : 0 <= bdf_bus b < 256) by (rewrite Hu; Z.to_euclidean_division_equations; lia).
  assert (Hwd : 0 <= bdf_device b < 32) by (rewrite Hd; Z.to_euclidean_division_equations; lia).
  assert (Hwf : 0 <= bdf_function b < 8) by (rewrite Hf; Z.to_euclidean_division_equations; lia).
  destruct (fmt_hex_read 16 4 (bdf_segment b)) as [Hps Hcs]; [done|done|].
  destruct (fmt_hex_read 8 2 (bdf_bus b)) as [Hpu Hcu]; [done|done|].
  destruct (fmt_hex_read 8 2 (bdf_device b)) as [Hpd Hcd]; [done|unfold in_width; lia|].
  destruct (fmt_hex_read 8 1 (bdf_function b)) as [Hpf Hcf]; [done|unfold in_width; lia|].
  assert (Hstr : bdf_to_string b =
    (fmt_hex 4 (bdf_segment b) ++ ":"%char :: fmt_hex 2 (bdf_bus b) ++ ":"%char :: fmt_hex 2 (bdf_device b)) ++
    "."%char :: fmt_hex 1 (bdf_function b)).
  { unfold bdf_to_string. rewrite <- app_assoc. cbn [app]. by rewrite <- app_assoc. }
  unfold bdf_from, bdf_from_str. rewrite Hstr, split_app, split_plain, Hpf; [|by apply plain_dot|].
  - rewrite !split_app, split_plain, Hps, Hpu, Hpd by (by apply plain_colon). by rewrite bdf_fields.
  - pose proof (plain_dot _ Hcs). pose proof (plain_dot _ Hcu). pose proof (plain_dot _ Hcd).
    rewrite elem_of_app, elem_of_cons, elem_of_app, elem_of_cons. intuition congruence.
Qed.

Lemma bdf_roundtrip_witness :
  in_width 32 0x1234ab9d /\ bdf_from (bdf_to_string 0x1234ab9d) = Done 0x1234ab9d /\
  bdf_to_string 0x1234ab9d = String.list_ascii_of_string "1234:ab:13.5".
Proof. split; [done|]. split; [apply (bdf_roundtrip 0x1234ab9d); done|by vm_compute]. Defined.

(** Text that is not an address ends the process, also where it is read from a
    snapshot; a device number that is out of range loses its upper bits. *)
Lemma bdf_text_panics : bdf_from (String.list_ascii_of_string "0000:00:zz.0") = Crashed.
Proof. by vm_compute. Qed.
Lemma bdf_device_truncated : bdf_from_str (String.list_ascii_of_string "0000:00:21.0") = Done (bdf_new 0 0 1 0).
Proof. by vm_compute. Qed.
