(* ===== verification/PciDevice.v ===== *)
(** What the virtual machine monitor needs of a PCI device: its resources
    (hypervisor/vm-device/src/lib.rs), the trait [PciDevice]
    (hypervisor/pci/src/device.rs), and the parts of a virtio device that depend
    on the address of its regions. *)
From stdpp Require Import base numbers gmap strings list.
From S2P Require Import Prelude Bytes AddressAllocator VmResources IrqGroup Msix PciConfig PciBdf.
#[local] Open Scope Z_scope.

(** ** Resources of devices (hypervisor/vm-device/src/lib.rs) *)
Inductive PciBarType := Io | Mmio32 | Mmio64.
Definition region_of (t : PciBarType) : PciBarRegionType :=
  match t with Io => IoRegion | Mmio32 => Memory32BitRegion | Mmio64 => Memory64BitRegion end.
Definition type_of (t : PciBarRegionType) : PciBarType :=
  match t with IoRegion => Io | Memory32BitRegion => Mmio32 | Memory64BitRegion => Mmio64 end.

Inductive MsiIrqType := PciMsi | PciMsix | GenericMsi.
Inductive Resource :=
| PioAddressRange (base size : Z)
| MmioAddressRange (base size : Z)
| ResPciBar (index : nat) (base size : Z) (type_ : PciBarType) (prefetchable : bool)
| ResLegacyIrq (irq : Z)
| ResMsiIrq (ty : MsiIrqType) (base size : Z)
| MacAddress (mac : string)
| KvmMemSlot (slot : Z).

(** A node of the device tree (hypervisor/vmm/src/device_tree.rs); the handles
    that are not saved are left out. *)
Record DeviceNode := mkNode {
  node_id : string;
  node_resources : list Resource;
  node_parent : option string;
  node_children : list string;
  node_pci_bdf : option PciBdf;
}.
Definition device_node (id : string) : DeviceNode := mkNode id [] None [] None.
Definition set_node_resources (r : list Resource) (n : DeviceNode) : DeviceNode :=
  mkNode (node_id n) r (node_parent n) (node_children n) (node_pci_bdf n).
Definition set_node_bdf (b : option PciBdf) (n : DeviceNode) : DeviceNode :=
  mkNode (node_id n) (node_resources n) (node_parent n) (node_children n) b.

(** [prefetchable().into()] *)
Definition prefetchable_bool (p : PciBarPrefetchable) : bool :=
  match p with NotPrefetchable => false | Prefetchable => true end.

(** The resource that [add_pci_device] records for a region. *)
Definition bar_resource (bar : PciBarConfiguration) : Resource :=
  ResPciBar (bc_idx bar) (bc_addr bar) (bc_size bar) (type_of (bc_region_type bar))
    (prefetchable_bool (bc_prefetchable bar)).

Inductive pci_device_error :=
| CapabilitiesSetup (e : pci_error)
| IoAllocationFailed (size : Z)
| IoRegistrationFailed (addr : Z) (e : pci_error)
| MissingResource
| InvalidResource (r : Resource).

(** ** Virtio devices *)
Record VirtioSharedMemoryList := mkShm {
  shm_host_addr : Z;
  shm_mem_slot : Z;
  shm_addr : Z;
  shm_len : Z;
  shm_region_list : list (Z * Z);
}.
Definition shm_moved (addr : Z) (l : VirtioSharedMemoryList) : VirtioSharedMemoryList :=
  mkShm (shm_host_addr l) (shm_mem_slot l) addr (shm_len l) (shm_region_list l).

Definition NOTIFICATION_BAR_OFFSET : Z := 0x6000.
Definition NOTIFY_OFF_MULTIPLIER : Z := 4.
(** The event of each queue, with the address the guest writes to notify it. *)
Definition ioeventfds (queue_evts : list Z) (base_addr : Z) : list (Z * Z) :=
  let notify_base := wadd 64 base_addr NOTIFICATION_BAR_OFFSET in
  imap (fun i event => (event, wadd 64 notify_base (wmul 64 (Z.of_nat i) NOTIFY_OFF_MULTIPLIER))) queue_evts.

(** What [move_bar] uses of a [VirtioPciDevice]: [config_bar_addr()], the events
    of its queues, and [get_shm_regions()]. *)
Record virtio_view := mkView {
  vv_config_bar_addr : Z;
  vv_queue_evts : list Z;
  vv_shm_regions : option VirtioSharedMemoryList;
}.

(** ** The trait

    The first argument of [pd_allocate_bars] is the size of a page of the host.  A
    barrier that a write returns is a number.  [pd_as_virtio] is the downcast
    to [VirtioPciDevice]; [pd_set_shm_regions] is the call on its device.  Reads and
    writes of a region come from the bus and are not in the class. *)
Class PciDevice (D : Type) := {
  pd_id : D -> option string;
  pd_allocate_bars : Z -> option (list Resource) ->
    M (SystemAllocator * AddressAllocator * D) pci_device_error (list PciBarConfiguration);
  pd_free_bars : M (SystemAllocator * AddressAllocator * D) pci_device_error unit;
  pd_write_config_register : nat -> nat -> list Z -> M D pci_error (option nat);
  pd_read_config_register : nat -> D -> Z * D;
  pd_detect_bar_reprogramming : nat -> list Z -> M D pci_error (option BarReprogrammingParams);
  pd_move_bar : Z -> Z -> D -> result unit unit * D;
  pd_as_virtio : D -> option virtio_view;
  pd_set_shm_regions : VirtioSharedMemoryList -> D -> result unit unit * D;
}.
