(* ===== verification/AddressManager.v ===== *)
(** The address manager of the virtual machine (hypervisor/vmm/src/device_manager.rs):
    the allocators, the buses and the device tree, and how a PCI region moves
    from one address to another. *)
From stdpp Require Import base numbers gmap strings list.
From S2P Require Import Prelude Bytes BTree AddressAllocator DeviceBus VmResources IrqGroup Msix PciConfig PciBdf PciDevice.
#[local] Open Scope Z_scope.

Inductive move_error :=
| NoIoRange
| NoMmio32Range
| NoMmio64Range
| MoveBus (e : bus_error)
| NoResource (base : Z) (id : string)
| NoDevice (id : string)
| UnregisterIoevent
| RegisterIoevent
| RemoveUserMemoryRegion
| CreateUserMemoryRegion
| SetShmRegions
| DeviceMoveBar.

(** ** The virtual machine

    The calls of the hypervisor that [move_bar] makes; [true] is success. *)
Record UserMemoryRegion := mkMemRegion {
  mr_slot : Z;
  mr_guest_phys_addr : Z;
  mr_memory_size : Z;
  mr_userspace_addr : Z;
  mr_flags : Z;
}.
Definition KVM_MEM_LOG_DIRTY_PAGES : Z := 1.
Definition KVM_MEM_READONLY : Z := 2.
Definition make_user_memory_region (slot guest_phys_addr memory_size userspace_addr : Z)
    (readonly log_dirty_pages : bool) : UserMemoryRegion :=
  mkMemRegion slot guest_phys_addr memory_size userspace_addr
    (Z.lor (if readonly then KVM_MEM_READONLY else 0) (if log_dirty_pages then KVM_MEM_LOG_DIRTY_PAGES else 0)).

Class VmCalls (VM : Type) := {
  vm_register_ioevent : Z -> Z -> VM -> bool * VM;
  vm_unregister_ioevent : Z -> Z -> VM -> bool * VM;
  vm_create_user_memory_region : UserMemoryRegion -> VM -> bool * VM;
  vm_remove_user_memory_region : UserMemoryRegion -> VM -> bool * VM;
}.

Section manager.
Context {Dev VM : Type} (alive : Dev -> bool) (pagesize : Z).
Abbreviation Bus := (list (Z * (Z * Dev))).

Record AddressManager := mkManager {
  am_allocator : SystemAllocator;
  am_io_bus : Bus;
  am_mmio_bus : Bus;
  am_vm : VM;
  pci_mmio_allocators : list AddressAllocator;
  device_tree : gmap string DeviceNode;
}.
Abbreviation IO A := (M AddressManager move_error A).

Definition set_allocator (s : SystemAllocator) (m : AddressManager) : AddressManager :=
  mkManager s (am_io_bus m) (am_mmio_bus m) (am_vm m) (pci_mmio_allocators m) (device_tree m).
Definition set_io_bus (b : Bus) (m : AddressManager) : AddressManager :=
  mkManager (am_allocator m) b (am_mmio_bus m) (am_vm m) (pci_mmio_allocators m) (device_tree m).
Definition set_mmio_bus (b : Bus) (m : AddressManager) : AddressManager :=
  mkManager (am_allocator m) (am_io_bus m) b (am_vm m) (pci_mmio_allocators m) (device_tree m).
Definition set_pci_mmio (l : list AddressAllocator) (m : AddressManager) : AddressManager :=
  mkManager (am_allocator m) (am_io_bus m) (am_mmio_bus m) (am_vm m) l (device_tree m).
Definition set_tree (t : gmap string DeviceNode) (m : AddressManager) : AddressManager :=
  mkManager (am_allocator m) (am_io_bus m) (am_mmio_bus m) (am_vm m) (pci_mmio_allocators m) t.

Definition set_vm (v : VM) (m : AddressManager) : AddressManager :=
  mkManager (am_allocator m) (am_io_bus m) (am_mmio_bus m) v (pci_mmio_allocators m) (device_tree m).

(** A call of the system allocator that must give a range. *)
Definition must_allocate (e : move_error) (f : SystemAllocator -> option Z * SystemAllocator) : IO unit := fun m =>
  match f (am_allocator m) with
  | (Some _, s) => (Done tt, set_allocator s m)
  | (None, s) => (Fail e, set_allocator s m)
  end.

Definition move_io_bus (old_base new_base len : Z) : IO unit := fun m =>
  match update_range alive old_base len new_base len (am_io_bus m) with
  | (Ok _, b) => (Done tt, set_io_bus b m)
  | (Err e, b) => (Fail (MoveBus e), set_io_bus b m)
  end.
Definition move_mmio_bus (old_base new_base len : Z) : IO unit := fun m =>
  match update_range alive old_base len new_base len (am_mmio_bus m) with
  | (Ok _, b) => (Done tt, set_mmio_bus b m)
  | (Err e, b) => (Fail (MoveBus e), set_mmio_bus b m)
  end.

(** The loop over the allocators: the first one that contains the old base. *)
Fixpoint move_in_allocators (old_base new_base len : Z) (ls : list AddressAllocator)
  : result move_error unit * list AddressAllocator :=
  match ls with
  | [] => (Ok tt, [])
  | al :: ls =>
    if decide (base al <= old_base /\ old_base <= end_ al) then
      match allocate (Some new_base) len (Some len) (free old_base len al) with
      | (Some _, al) => (Ok tt, al :: ls)
      | (None, al) => (Err NoMmio64Range, al :: ls)
      end
    else let '(r, ls) := move_in_allocators old_base new_base len ls in (r, al :: ls)
  end.

(** The first part of [move_bar]: the allocators and the buses. *)
Definition move_ranges (old_base new_base len : Z) (region_type : PciBarRegionType) : IO unit :=
  match region_type with
  | IoRegion =>
    modify (fun m => set_allocator (free_io_addresses old_base len (am_allocator m)) m) ;;;
    must_allocate NoIoRange (allocate_io_addresses (Some new_base) len None) ;;;
    move_io_bus old_base new_base len
  | Memory32BitRegion =>
    modify (fun m => set_allocator (free_mmio_hole_addresses old_base len (am_allocator m)) m) ;;;
    must_allocate NoMmio32Range (allocate_mmio_hole_addresses pagesize (Some new_base) len (Some len)) ;;;
    move_mmio_bus old_base new_base len
  | Memory64BitRegion =>
    (fun m => match move_in_allocators old_base new_base len (pci_mmio_allocators m) with
              | (Ok _, ls) => (Done tt, set_pci_mmio ls m)
              | (Err e, ls) => (Fail e, set_pci_mmio ls m)
              end) ;;;
    move_mmio_bus old_base new_base len
  end.

(** The loop over the resources of the device: the first one that matches. *)
Fixpoint move_resource (old_base new_base : Z) (region_type : PciBarRegionType) (rs : list Resource)
  : bool * list Resource :=
  match rs with
  | [] => (false, [])
  | ResPciBar index b size type_ prefetchable :: rs =>
    if decide (region_of type_ = region_type /\ b = old_base)
    then (true, ResPciBar index new_base size type_ prefetchable :: rs)
    else let '(found, rs) := move_resource old_base new_base region_type rs in
         (found, ResPciBar index b size type_ prefetchable :: rs)
  | r :: rs => let '(found, rs) := move_resource old_base new_base region_type rs in (found, r :: rs)
  end.

Definition move_in_tree (id : option string) (old_base new_base : Z) (region_type : PciBarRegionType) : IO unit :=
  match id with
  | None => ret tt
  | Some id =>
    let* m := get in
    match device_tree m !! id with
    | None => throw (NoDevice id)
    | Some node =>
      let '(found, resources) := move_resource old_base new_base region_type (node_resources node) in
      modify (fun m => set_tree (<[id := set_node_resources resources node]> (device_tree m)) m) ;;;
      if found then ret tt else throw (NoResource old_base id)
    end
  end.

(** ** Devices with state in the virtual machine *)
Context `{VmCalls VM} {D : Type} `{PciDevice D}.

Definition call_vm (e : move_error) (f : VM -> bool * VM) : IO unit := fun m =>
  match f (am_vm m) with
  | (true, v) => (Done tt, set_vm v m)
  | (false, v) => (Fail e, set_vm v m)
  end.

Fixpoint unregister_ioevents (l : list (Z * Z)) : IO unit :=
  match l with
  | [] => ret tt
  | (event, addr) :: l => call_vm UnregisterIoevent (vm_unregister_ioevent event addr) ;;; unregister_ioevents l
  end.
Fixpoint register_ioevents (l : list (Z * Z)) : IO unit :=
  match l with
  | [] => ret tt
  | (event, addr) :: l => call_vm RegisterIoevent (vm_register_ioevent event addr) ;;; register_ioevents l
  end.

(** The manager, and the device whose region moves. *)
Abbreviation IOD A := (M (AddressManager * D) move_error A).
Definition on_manager {A} (m : IO A) : IOD A := zoom fst (fun am s => (am, s.2)) m.
Definition device_call (e : move_error) (f : D -> result unit unit * D) : IOD unit := fun s =>
  match f s.2 with
  | (Ok _, d) => (Done tt, (s.1, d))
  | (Err _, d) => (Fail e, (s.1, d))
  end.

Definition shm_region (base : Z) (l : VirtioSharedMemoryList) : UserMemoryRegion :=
  make_user_memory_region (shm_mem_slot l) base (shm_len l) (shm_host_addr l) false false.

Definition move_virtio (old_base new_base : Z) : IOD unit :=
  let* s := get in
  match pd_as_virtio s.2 with
  | None => ret tt
  | Some v =>
    if decide (vv_config_bar_addr v = new_base) then
      on_manager (unregister_ioevents (ioeventfds (vv_queue_evts v) old_base)) ;;;
      on_manager (register_ioevents (ioeventfds (vv_queue_evts v) new_base))
    else
      match vv_shm_regions v with
      | None => ret tt
      | Some shm_regions =>
        if decide (shm_addr shm_regions = old_base) then
          on_manager (call_vm RemoveUserMemoryRegion (vm_remove_user_memory_region (shm_region old_base shm_regions))) ;;;
          on_manager (call_vm CreateUserMemoryRegion (vm_create_user_memory_region (shm_region new_base shm_regions))) ;;;
          device_call SetShmRegions (pd_set_shm_regions (shm_moved new_base shm_regions))
        else ret tt
      end
  end.

(** The allocators, the buses, the device tree, the virtual machine, and last
    the device itself. *)
Definition move_bar (p : BarReprogrammingParams) : IOD unit :=
  on_manager (move_ranges (old_base p) (new_base p) (bar_len p) (region_type p)) ;;;
  let* s := get in
  on_manager (move_in_tree (pd_id s.2) (old_base p) (new_base p) (region_type p)) ;;;
  move_virtio (old_base p) (new_base p) ;;;
  device_call DeviceMoveBar (pd_move_bar (old_base p) (new_base p)).
End manager.
Arguments AddressManager : clear implicits.
