(* ===== verification/PciBus.v ===== *)
(** The PCI bus and the two mechanisms by which a guest accesses the
    configuration spaces of its devices (hypervisor/pci/src/bus.rs). *)
From stdpp Require Import base numbers gmap strings list.
From S2P Require Import Prelude Bytes BTree AddressAllocator DeviceBus VmResources IrqGroup Msix PciConfig PciDevice AddressManager.
#[local] Open Scope Z_scope.

Definition VENDOR_ID_INTEL : Z := 0x8086.
Definition DEVICE_ID_INTEL_VIRT_PCIE_HOST : Z := 0x0d57.
Definition NUM_DEVICE_IDS : nat := 32.

Inductive PciRootError :=
| AllocateDeviceAddrs (e : pci_device_error)
| AllocateIrq
| PioInsert (e : bus_error)
| MmioInsert (e : bus_error)
| NoPciDeviceSlotAvailable
| InvalidPciDeviceSlot (id : nat)
| AlreadyInUsePciDeviceSlot (id : nat).

(** The configuration space of the root bridge: a host bridge, of the class of
    bridges. *)
Definition pci_root_new {G : Type} (config : option (PciConfiguration G)) : PciConfiguration G :=
  match config with
  | Some config => config
  | None => config_new VENDOR_ID_INTEL DEVICE_ID_INTEL_VIRT_PCIE_HOST 0 0x06 0x00 None Device 0 0 None
  end.

(** ** The bus

    A device is shared between the bus and those who attached it: the bus has
    the number of each device, the devices are in a store. *)
Record PciBus := mkPciBus { pb_devices : gmap Z nat; pb_device_ids : list bool }.

Definition pci_bus_new (pci_root : nat) : PciBus :=
  mkPciBus {[0 := pci_root]} (<[0%nat := true]> (replicate NUM_DEVICE_IDS false)).

Definition add_device (device_id : Z) (device : nat) (b : PciBus) : PciBus :=
  mkPciBus (<[device_id := device]> (pb_devices b)) (pb_device_ids b).
Definition pci_remove_by_device (device : nat) (b : PciBus) : PciBus :=
  mkPciBus (filter (fun e => e.2 <> device) (pb_devices b)) (pb_device_ids b).

Fixpoint first_unused (ids : list bool) : option nat :=
  match ids with
  | [] => None
  | false :: _ => Some 0%nat
  | true :: ids => S <$> first_unused ids
  end.
Definition next_device_id (b : PciBus) : result PciRootError nat * PciBus :=
  match first_unused (pb_device_ids b) with
  | Some idx => (Ok idx, mkPciBus (pb_devices b) (<[idx := true]> (pb_device_ids b)))
  | None => (Err NoPciDeviceSlotAvailable, b)
  end.

(** [device_ids[id]] panics out of range. *)
Definition get_device_id (id : nat) : M PciBus PciRootError unit :=
  if decide (id < NUM_DEVICE_IDS)%nat then
    let* b := get in
    let* used := at_index (pb_device_ids b) id in
    if used : bool then throw (AlreadyInUsePciDeviceSlot id)
    else modify (fun b => mkPciBus (pb_devices b) (<[id := true]> (pb_device_ids b)))
  else throw (InvalidPciDeviceSlot id).
Definition put_device_id (id : nat) : M PciBus PciRootError unit :=
  if decide (id < NUM_DEVICE_IDS)%nat then
    let* b := get in
    let* _ := at_index (pb_device_ids b) id in
    modify (fun b => mkPciBus (pb_devices b) (<[id := false]> (pb_device_ids b)))
  else throw (InvalidPciDeviceSlot id).

(** ** Addresses of registers: (bus, device, function, register) *)
Definition shift_and_mask (value offset mask : Z) : Z := Z.land (Z.shiftr value offset) mask.

Definition parse_mmio_config_address (config_address : Z) : Z * Z * Z * Z :=
  (shift_and_mask config_address 20 0xff, shift_and_mask config_address 15 0x1f,
   shift_and_mask config_address 12 0x07, shift_and_mask config_address 2 0x3ff).
Definition parse_io_config_address (config_address : Z) : Z * Z * Z * Z :=
  (shift_and_mask config_address 16 0xff, shift_and_mask config_address 11 0x1f,
   shift_and_mask config_address 8 0x07, shift_and_mask config_address 2 0x3f).

(** [x << n] of 32 bits *)
Definition shl32 (x n : Z) : Z := wrap 32 (Z.shiftl x (n mod 32)).

(** The bytes of a register that a read returns. *)
Definition register_bytes (value start : Z) (len : nat) : list Z :=
  (fun i => wrap 8 (Z.shiftr value (i * 8))) <$> seqZ start (Z.of_nat len).

Section bus.
Context {VM : Type} `{VmCalls VM} {D : Type} `{PciDevice D} (alive : nat -> bool) (pagesize : Z).
Abbreviation AM := (AddressManager nat VM).

(** Placing the regions of a device on the buses. *)
Fixpoint register_mapping (dev : nat) (bars : list PciBarConfiguration) : M AM PciRootError unit :=
  match bars with
  | [] => ret tt
  | bar :: bars =>
    (fun m =>
       match bc_region_type bar with
       | IoRegion =>
         match bus_insert dev (bc_addr bar) (bc_size bar) (am_io_bus m) with
         | (Ok _, b) => (Done tt, set_io_bus b m)
         | (Err e, b) => (Fail (PioInsert e), set_io_bus b m)
         end
       | Memory32BitRegion | Memory64BitRegion =>
         match bus_insert dev (bc_addr bar) (bc_size bar) (am_mmio_bus m) with
         | (Ok _, b) => (Done tt, set_mmio_bus b m)
         | (Err e, b) => (Fail (MmioInsert e), set_mmio_bus b m)
         end
       end) ;;;
    register_mapping dev bars
  end.

(** ** Accesses to configuration spaces *)
Record Machine := mkMachine {
  mc_heap : gmap nat D;
  mc_bus : PciBus;
  mc_manager : AM;
  mc_config_address : Z;
}.

Definition device_at (device : Z) (m : Machine) : option (nat * D) :=
  h ← pb_devices (mc_bus m) !! device;
  d ← mc_heap m !! h;
  Some (h, d).
Definition set_device (h : nat) (d : D) (m : Machine) : Machine :=
  mkMachine (<[h := d]> (mc_heap m)) (mc_bus m) (mc_manager m) (mc_config_address m).
Definition set_manager (am : AM) (m : Machine) : Machine :=
  mkMachine (mc_heap m) (mc_bus m) am (mc_config_address m).
Definition put_config_address (a : Z) (m : Machine) : Machine :=
  mkMachine (mc_heap m) (mc_bus m) (mc_manager m) a.

Definition read_device (device register : Z) (m : Machine) : Z * Machine :=
  match device_at device m with
  | None => (0xffffffff, m)
  | Some (h, d) =>
    let '(v, d) := pd_read_config_register (Z.to_nat register) d in (v, set_device h d m)
  end.

(** A region that the write reprograms moves first; the error of a move that
    fails is only logged. *)
Definition reprogram (register : nat) (data : list Z) : M (AM * D) pci_error unit :=
  let* p := zoom snd (fun d s => (s.1, d)) (pd_detect_bar_reprogramming register data) in
  match p with
  | Some params => let* _ := attempt (move_bar alive pagesize params) in ret tt
  | None => ret tt
  end.
Definition device_config_write (register offset : nat) (data : list Z) : M (AM * D) pci_error (option nat) :=
  reprogram register data ;;;
  zoom snd (fun d s => (s.1, d)) (pd_write_config_register register offset data).

Definition write_device (device register : Z) (offset : nat) (data : list Z) : M Machine pci_error (option nat) := fun m =>
  match device_at device m with
  | None => (Done None, m)
  | Some (h, d) =>
    let '(r, (am, d)) := device_config_write (Z.to_nat register) offset data (mc_manager m, d) in
    (r, set_manager am (set_device h d m))
  end.

(** ** The ports *)
Definition io_config_space_read (m : Machine) : Z * Machine :=
  let a := mc_config_address m in
  if decide (Z.land a 0x80000000 = 0) then (0xffffffff, m)
  else
    let '(bus, device, function, register) := parse_io_config_address (Z.land a (unot 32 0x80000000)) in
    if decide (bus <> 0) then (0xffffffff, m)
    else if decide (0 < function) then (0xffffffff, m)
    else read_device device register m.

Definition io_config_space_write (offset : nat) (data : list Z) : M Machine pci_error (option nat) :=
  if decide (4 < offset + length data)%nat then ret None
  else
    let* m := get in
    let a := mc_config_address m in
    if decide (Z.land a 0x80000000 = 0) then ret None
    else
      let '(bus, device, _, register) := parse_io_config_address (Z.land a (unot 32 0x80000000)) in
      if decide (bus <> 0) then ret None
      else write_device device register offset data.

Definition set_config_address (offset : nat) (data : list Z) (m : Machine) : Machine :=
  let o := Z.of_nat offset in
  let put (mask value : Z) :=
    put_config_address (Z.lor (Z.land (mc_config_address m) (unot 32 mask)) value) m in
  if decide (4 < offset + length data)%nat then m
  else match data with
  | [b] => put (shl32 0xff (o * 8)) (shl32 b (o * 8))
  | [b0; b1] => put (shl32 0xffff (o * 16)) (shl32 (Z.lor (Z.shiftl b1 8) b0) (o * 16))
  | [_; _; _; _] => put 0xffffffff (le_value data)
  | _ => m
  end.

Definition config_io_read (offset : Z) (len : nat) (m : Machine) : list Z * Machine :=
  let '(value, m) :=
    if decide (0 <= offset <= 3) then (mc_config_address m, m)
    else if decide (4 <= offset <= 7) then io_config_space_read m
    else (0xffffffff, m) in
  let start := offset mod 4 in
  if decide (start + Z.of_nat len <= 4) then (register_bytes value start len, m)
  else (replicate len 0xff, m).

Definition config_io_write (offset : Z) (data : list Z) : M Machine pci_error (option nat) :=
  if decide (0 <= offset <= 3) then modify (set_config_address (Z.to_nat offset) data) ;;; ret None
  else if decide (4 <= offset <= 7) then io_config_space_write (Z.to_nat (offset - 4)) data
  else ret None.

(** ** The memory-mapped configuration space *)
Definition mmio_config_space_read (config_address : Z) (m : Machine) : Z * Machine :=
  let '(bus, device, _, register) := parse_mmio_config_address config_address in
  if decide (bus <> 0) then (0xffffffff, m) else read_device device register m.

Definition mmio_config_space_write (config_address : Z) (offset : nat) (data : list Z) : M Machine pci_error unit :=
  if decide (4 < offset + length data)%nat then ret tt
  else
    let '(bus, device, _, register) := parse_mmio_config_address config_address in
    if decide (bus <> 0) then ret tt
    else let* _ := write_device device register offset data in ret tt.

Definition config_mmio_read (offset : Z) (len : nat) (m : Machine) : list Z * Machine :=
  let start := offset mod 4 in
  if decide (4 < start + Z.of_nat len \/ 2 ^ 32 - 1 < offset) then (replicate len 0xff, m)
  else let '(value, m) := mmio_config_space_read offset m in (register_bytes value start len, m).

Definition config_mmio_write (offset : Z) (data : list Z) : M Machine pci_error (option nat) :=
  if decide (2 ^ 32 - 1 < offset) then ret None
  else mmio_config_space_write offset (Z.to_nat (offset mod 4)) data ;;; ret None.
End bus.
Arguments Machine : clear implicits.
