(* ===== verification/PvPanic.v ===== *)
(** The pvpanic device (hypervisor/devices/src/pvpanic.rs), and how the device
    manager attaches it to the bus (hypervisor/vmm/src/device_manager.rs). *)
From stdpp Require Import base numbers gmap strings list.
From S2P Require Import Prelude Bytes BTree AddressAllocator DeviceBus VmResources IrqGroup Msix PciConfig PciBdf PciDevice AddressManager PciBus.
#[local] Open Scope Z_scope.

Definition PVPANIC_VENDOR_ID : Z := 0x1b36.
Definition PVPANIC_DEVICE_ID : Z := 0x0011.
Definition PVPANIC_DEVICE_MMIO_SIZE : Z := 2.
Definition PVPANIC_PANICKED : Z := 1.
Definition PVPANIC_CRASH_LOADED : Z := 2.

Section pvpanic.
Context {G : Type} `{InterruptSourceGroup G}.

Record PvPanicDevice := mkPvPanic {
  pv_id : string;
  pv_events : Z;
  pv_configuration : PciConfiguration G;
  pv_bar_regions : list PciBarConfiguration;
}.
Definition set_pv_configuration (c : PciConfiguration G) (d : PvPanicDevice) : PvPanicDevice :=
  mkPvPanic (pv_id d) (pv_events d) c (pv_bar_regions d).
Definition set_pv_bars (l : list PciBarConfiguration) (d : PvPanicDevice) : PvPanicDevice :=
  mkPvPanic (pv_id d) (pv_events d) (pv_configuration d) l.
Definition on_configuration {E A} (m : M (PciConfiguration G) E A) : M PvPanicDevice E A :=
  zoom pv_configuration set_pv_configuration m.

(** [state] is the state saved in a snapshot: the events. *)
Definition pvpanic_new (id : string) (state : option Z) : outcome pci_error PvPanicDevice :=
  let configuration :=
    config_new PVPANIC_VENDOR_ID PVPANIC_DEVICE_ID 0x1 0x08 0x80 None Device 0 0 None in
  match write_config_register 1 0 [0x03; 0x01] configuration with
  | (Done _, configuration) =>
    let events := match state with
                  | Some events => events
                  | None => Z.lor PVPANIC_PANICKED PVPANIC_CRASH_LOADED
                  end in
    Done (mkPvPanic id events configuration [])
  | (Fail e, _) => Fail e
  | (Crashed, _) => Crashed
  end.

Definition event_to_string (event : Z) : string :=
  if decide (event = PVPANIC_PANICKED) then "panic"
  else if decide (event = PVPANIC_CRASH_LOADED) then "crash_loaded"
  else "unknown_event".
Definition pvpanic_state (d : PvPanicDevice) : Z := pv_events d.
Definition config_bar_addr (d : PvPanicDevice) : outcome pci_error Z := (get_bar_addr 0 (pv_configuration d)).1.

(** The device on the bus: a read sets the first byte, a write names an event;
    both panic on no data. *)
Definition pvpanic_read_bar (data : list Z) (d : PvPanicDevice) : option (list Z) :=
  match data with _ :: data => Some (pv_events d :: data) | [] => None end.
Definition pvpanic_write (data : list Z) : option string :=
  match data with b :: _ => Some (event_to_string b) | [] => None end.

Definition pvpanic_bar (addr : Z) : PciBarConfiguration :=
  mkBarConfig addr PVPANIC_DEVICE_MMIO_SIZE 0 Memory32BitRegion NotPrefetchable.

Definition pvpanic_allocate_bars (pagesize : Z) (resources : option (list Resource))
    : M (SystemAllocator * AddressAllocator * PvPanicDevice) pci_device_error (list PciBarConfiguration) :=
  fun '(allocator, mmio_allocator, d) =>
  match allocate_mmio_hole_addresses pagesize None PVPANIC_DEVICE_MMIO_SIZE None allocator with
  | (None, allocator) => (Fail (IoAllocationFailed PVPANIC_DEVICE_MMIO_SIZE), (allocator, mmio_allocator, d))
  | (Some bar_addr, allocator) =>
    let bar := pvpanic_bar bar_addr in
    let done (d : PvPanicDevice) := (Done [bar], (allocator, mmio_allocator, set_pv_bars [bar] d)) in
    match resources with
    | Some _ => done d
    | None =>
      match on_configuration (add_pci_bar bar) d with
      | (Done _, d) => done d
      | (Fail e, d) => (Fail (IoRegistrationFailed bar_addr e), (allocator, mmio_allocator, d))
      | (Crashed, d) => (Crashed, (allocator, mmio_allocator, d))
      end
    end
  end.

Definition pvpanic_free_bars : M (SystemAllocator * AddressAllocator * PvPanicDevice) pci_device_error unit :=
  modify (fun '(allocator, mmio_allocator, d) =>
    (foldl (fun a bar => free_mmio_hole_addresses (bc_addr bar) (bc_size bar) a) allocator (pv_bar_regions d),
     mmio_allocator, set_pv_bars [] d)).

Definition set_address (addr : Z) (bar : PciBarConfiguration) : PciBarConfiguration :=
  mkBarConfig addr (bc_size bar) (bc_idx bar) (bc_region_type bar) (bc_prefetchable bar).
Definition pvpanic_move_bar (old_base new_base : Z) (d : PvPanicDevice) : result unit unit * PvPanicDevice :=
  (Ok tt, set_pv_bars
    ((fun bar => if decide (bc_addr bar = old_base) then set_address new_base bar else bar) <$> pv_bar_regions d) d).

(** ** The devices of the machine: the root bridge and pvpanic *)
Inductive pci_dev :=
| RootBridge (config : PciConfiguration G)
| PvPanic (d : PvPanicDevice).

Definition on_root {E A} (m : M (PciConfiguration G) E A) (c : PciConfiguration G) : outcome E A * pci_dev :=
  let '(r, c) := m c in (r, RootBridge c).
Definition on_pvpanic {E A} (m : M PvPanicDevice E A) (d : PvPanicDevice) : outcome E A * pci_dev :=
  let '(r, d) := m d in (r, PvPanic d).
Definition on_bars {A} (m : M (SystemAllocator * AddressAllocator * PvPanicDevice) pci_device_error A) (default : A)
    : M (SystemAllocator * AddressAllocator * pci_dev) pci_device_error A := fun '(s, al, d) =>
  match d with
  | RootBridge _ => (Done default, (s, al, d))
  | PvPanic d => let '(r, (s, al, d)) := m (s, al, d) in (r, (s, al, PvPanic d))
  end.

#[global] Instance pci_dev_device : PciDevice pci_dev := {
  pd_id d := match d with RootBridge _ => None | PvPanic d => Some (pv_id d) end;
  pd_allocate_bars pagesize resources := on_bars (pvpanic_allocate_bars pagesize resources) [];
  pd_free_bars := on_bars pvpanic_free_bars tt;
  pd_write_config_register reg_idx offset data d :=
    match d with
    | RootBridge c => on_root (write_config_register reg_idx offset data ;;; ret None) c
    | PvPanic d => on_pvpanic (on_configuration (write_config_register reg_idx offset data ;;; ret None)) d
    end;
  pd_read_config_register reg_idx d :=
    (match d with RootBridge c => read_reg reg_idx c | PvPanic d => read_reg reg_idx (pv_configuration d) end, d);
  pd_detect_bar_reprogramming reg_idx data d :=
    match d with
    | RootBridge c => (Done None, RootBridge c)
    | PvPanic d => on_pvpanic (on_configuration (detect_bar_reprogramming reg_idx data)) d
    end;
  pd_move_bar old_base new_base d :=
    match d with
    | RootBridge c => (Ok tt, RootBridge c)
    | PvPanic d => let '(r, d) := pvpanic_move_bar old_base new_base d in (r, PvPanic d)
    end;
  pd_as_virtio _ := None;
  pd_set_shm_regions _ d := (Err tt, d);
}.
End pvpanic.
Arguments PvPanicDevice : clear implicits.
Arguments pci_dev : clear implicits.
