(* ===== verification/DeviceManager.v ===== *)
(** The part of the device manager (hypervisor/vmm/src/device_manager.rs) that
    attaches a PCI device to a machine with one PCI segment. *)
From stdpp Require Import base numbers gmap strings list.
From S2P Require Import Prelude Bytes BTree AddressAllocator DeviceBus VmResources IrqGroup Msix PciConfig PciBdf PciDevice AddressManager PciBus PvPanic.
#[local] Open Scope Z_scope.

Definition PVPANIC_DEVICE_NAME : string := "__pvpanic".

Inductive dm_error :=
| AllocateBars (e : pci_device_error)
| AddPciDevice (e : PciRootError)
| NextPciDeviceId (e : PciRootError)
| GetPciDeviceId (e : PciRootError)
| MissingDeviceNodePciBdf
| PvPanicCreate (e : pci_error).

Section manager.
Context {VM : Type} `{VmCalls VM} {D : Type} `{PciDevice D} (pagesize : Z).
Abbreviation MC := (Machine VM D).
Abbreviation IO A := (M MC dm_error A).

Definition set_bus (b : PciBus) (m : MC) : MC := mkMachine (mc_heap m) b (mc_manager m) (mc_config_address m).
Definition on_bus {A} (f : PciRootError -> dm_error) (x : M PciBus PciRootError A) : IO A :=
  zoom mc_bus set_bus (map_err f x).

(** The device allocates its regions; the allocator of the segment is the first
    of those of the address manager. *)
Definition device_allocate_bars (h : nat) (resources : option (list Resource)) : IO (list PciBarConfiguration) := fun m =>
  let am := mc_manager m in
  match mc_heap m !! h, pci_mmio_allocators am !! 0%nat with
  | Some d, Some al =>
    let '(r, (s, al, d)) := map_err AllocateBars (pd_allocate_bars pagesize resources) (am_allocator am, al, d) in
    (r, set_manager (set_pci_mmio (<[0%nat := al]> (pci_mmio_allocators am)) (set_allocator s am)) (set_device h d m))
  | _, _ => (Crashed, m)
  end.

Definition add_pci_device (h : nat) (bdf : PciBdf) (resources : option (list Resource)) : IO (list Resource) :=
  let* bars := device_allocate_bars h resources in
  modify (fun m => set_bus (add_device (bdf_device bdf) h (mc_bus m)) m) ;;;
  zoom mc_manager set_manager (map_err AddPciDevice (register_mapping h bars)) ;;;
  ret (bar_resource <$> bars).

(** The number of the segment is 0; another one is out of range. *)
Definition next_device_bdf : IO PciBdf :=
  let* id := on_bus NextPciDeviceId (fun b => let '(r, b) := next_device_id b in
                                              (match r with Ok id => Done id | Err e => Fail e end, b)) in
  ret (bdf_new 0 0 (wrap 8 (Z.of_nat id)) 0).
Definition pci_resources (id : string) : IO (PciBdf * option (list Resource)) :=
  let* m := get in
  match device_tree (mc_manager m) !! id with
  | Some node =>
    match node_pci_bdf node with
    | None => throw MissingDeviceNodePciBdf
    | Some bdf =>
      if decide (bdf_segment bdf <> 0) then crash
      else on_bus GetPciDeviceId (get_device_id (Z.to_nat (bdf_device bdf))) ;;; ret (bdf, Some (node_resources node))
    end
  | None => let* bdf := next_device_bdf in ret (bdf, None)
  end.
End manager.

(** [h] is the number of the new device in the store; [state] is what the
    snapshot has of it. *)
Definition add_pvpanic_device {VM G} `{VmCalls VM} `{InterruptSourceGroup G} (pagesize : Z) (h : nat) (state : option Z)
    : M (Machine VM (pci_dev G)) dm_error unit :=
  let id := PVPANIC_DEVICE_NAME in
  let* r := pci_resources id in
  let '(bdf, resources) := r in
  match pvpanic_new id state with
  | Crashed => crash
  | Fail e => throw (PvPanicCreate e)
  | Done d =>
    modify (set_device h (PvPanic d)) ;;;
    let* new_resources := add_pci_device pagesize h bdf resources in
    let node := set_node_bdf (Some bdf) (set_node_resources new_resources (device_node id)) in
    modify (fun m => set_manager (set_tree (<[id := node]> (device_tree (mc_manager m))) (mc_manager m)) m)
  end.
