(* ===== verification/AddressManagerProofs.v ===== *)
(** The allocators and the buses agree: a range that an allocator gives out can
    always be placed on the bus, and moving a region moves it in both. *)
From stdpp Require Import base numbers gmap strings sets list.
From S2P Require Import Prelude Bytes BTree AddressAllocator DeviceBus VmResources IrqGroup Msix PciConfig PciBdf PciDevice AddressManager.
#[local] Open Scope Z_scope.

Section agreement.
Context {Dev : Type}.
Abbreviation Bus := (list (Z * (Z * Dev))).
Implicit Types (al : AddressAllocator) (bus : Bus) (d : Dev).

(** Every range of the bus that meets the space of the allocator is inside a
    range that is in use there. *)
Definition covered al bus : Prop :=
  forall b len d, (b, (len, d)) ∈ bus -> b <= end_ al -> base al < b + len ->
    exists x n, (x, n) ∈ ranges al /\ x <= b /\ b + len <= x + n.

Record agree al bus : Prop := {
  ag_alloc : alloc_ok al;
  ag_bus : bus_ok bus;
  ag_covered : covered al bus;
}.

Lemma covered_vacant al bus x n : agree al bus -> 0 < n -> free_at al x n -> vacant bus x n.
Proof.
  intros [Hal Hbus Hcov] Hn (Hlo & Hhi & Hno) addr b d Haddr (len & Hin & Hb).
  destruct (Hcov b len d Hin) as (y & k & Hr & ? & ?); [lia|lia|]. destruct (Hno y k Hr); lia.
Qed.

(** A range that is free in the allocator can be taken in both. *)
Lemma agree_insert al bus d x n :
  agree al bus -> 0 < n -> free_at al x n ->
  bus_insert d x n bus = (Ok tt, bt_insert x (n, d) bus) /\
  agree (set_ranges (bt_insert x n (ranges al)) al) (bt_insert x (n, d) bus) /\
  forall addr b d', placed (bt_insert x (n, d) bus) addr b d' <->
    placed bus addr b d' \/ (b = x /\ d' = d /\ x <= addr < x + n).
Proof.
  intros Hag Hn Hfree. pose proof Hag as [Hal Hbus Hcov]. pose proof Hfree as (Hlo & Hhi & _).
  pose proof (ao_base _ Hal). destruct (ao_end _ Hal) as [_ Hend].
  destruct (insert_vacant bus d x n) as (Hrun & Hbus' & Hpl); [done|lia|done|lia|by eapply covered_vacant|].
  destruct (alloc_ok_insert al x n Hal Hn Hfree) as [Hal' Helem]. split_and!; [done| |done].
  split; [done|done|]. intros b len d' Hin Hb Hb'. cbn in Hb, Hb'. cbn.
  apply (elem_of_bt_insert _ _ _ _ (bk_sorted _ Hbus)) in Hin as [[= -> -> ->]|[Hin _]].
  - exists x, n. split; [apply Helem; by left|lia].
  - destruct (Hcov b len d' Hin Hb Hb') as (y & k & Hy & ?). exists y, k. split; [apply Helem; by right|done].
Qed.

(** A range that is in use in both, by one device, can be given back in both. *)
Lemma agree_remove al bus d x n :
  agree al bus -> 0 < n -> (x, n) ∈ ranges al -> (x, (n, d)) ∈ bus ->
  free x n al = set_ranges (bt_remove x (ranges al)) al /\ agree (free x n al) (bt_remove x bus) /\
  forall addr b d', placed (bt_remove x bus) addr b d' <-> placed bus addr b d' /\ b <> x.
Proof.
  intros [Hal Hbus Hcov] Hn Hr Hin. destruct (remove_spec bus x Hbus) as [Hbus' Hpl].
  assert (Hfree : free x n al = set_ranges (bt_remove x (ranges al)) al).
  { unfold free. apply (bt_get_elem _ _ _ (ao_sorted _ Hal)) in Hr. by rewrite Hr, decide_True. }
  split_and!; [done| |done]. split; [apply alloc_ok_free; [done|lia]|done|]. rewrite Hfree.
  intros b len d' Hb Hlo Hhi. cbn in Hlo, Hhi |- *.
  apply (elem_of_bt_remove _ _ _ (bk_sorted _ Hbus)) in Hb as [Hb Hne]. cbn in Hne.
  destruct (Hcov b len d' Hb Hlo Hhi) as (y & k & Hy & ? & ?). exists y, k.
  split; [|done]. apply (elem_of_bt_remove _ _ _ (ao_sorted _ Hal)). split; [done|]. cbn. intros ->.
  assert (k = n).
  { apply (bt_get_elem _ _ _ (ao_sorted _ Hal)) in Hr, Hy. congruence. }
  subst k. destruct (bk_range _ Hbus _ _ _ Hb) as (_ & Hpos & _).
  pose proof (bk_apart _ Hbus _ _ _ _ _ _ Hin Hb ltac:(lia)). lia.
Qed.

(** What a move does to a bus: the range at [x] becomes one at [y]. *)
Definition bus_moved bus bus2 x y n d : Prop :=
  (forall e, e ∈ bus2 -> e = (y, (n, d)) \/ e ∈ bus) /\ (y, (n, d)) ∈ bus2 /\
  forall addr b d', placed bus2 addr b d' <->
    (placed bus addr b d' /\ b <> x) \/ (b = y /\ d' = d /\ y <= addr < y + n).

Lemma insert_moved al bus d y n :
  agree al bus -> 0 < n -> free_at al y n -> bus_moved bus (bt_insert y (n, d) bus) y y n d.
Proof.
  intros Hag Hn Hfree. pose proof (covered_vacant al bus y n Hag Hn Hfree) as Hvac.
  destruct (agree_insert al bus d y n Hag Hn Hfree) as (_ & _ & Hpl). pose proof (bk_sorted _ (ag_bus _ _ Hag)) as Hs.
  split_and!.
  - intros e [->|[? _]]%(elem_of_bt_insert _ _ _ _ Hs); auto.
  - apply (elem_of_bt_insert _ _ _ _ Hs). by left.
  - intros addr b d'. rewrite Hpl. split; [intros [Hold|?]; [left|by right]|intros [[? _]|?]; auto].
    split; [done|]. intros ->. pose proof Hold as (len & Hin & _). destruct (bk_range _ (ag_bus _ _ Hag) _ _ _ Hin).
    apply (Hvac y y d'); [lia|]. exists len. split; [done|lia].
Qed.

Context (alive : Dev -> bool).

(** Moving on the bus. *)
Lemma update_range_ok bus d x n y :
  bus_ok bus -> (x, (n, d)) ∈ bus -> alive d = true -> vacant (bt_remove x bus) y n -> 0 <= y -> y + n < 2 ^ 64 ->
  update_range alive x n y n bus = (Ok tt, bt_insert y (n, d) (bt_remove x bus)).
Proof.
  intros Hbus Hin Hal Hv Hy Hfit. destruct (bk_range _ Hbus _ _ _ Hin) as (? & Hn & ?).
  assert (Hres : resolve alive x bus = Some (x, x - x, d)).
  { apply resolve_spec; [done|]. split; [|done]. exists n. split; [done|lia]. }
  unfold update_range. rewrite Hres. unfold bus_remove. rewrite decide_False by lia.
  rewrite (proj2 (bt_get_elem x (n, d) bus (bk_sorted _ Hbus)) Hin).
  destruct (remove_spec bus x Hbus) as [Hbus' _]. by destruct (insert_vacant (bt_remove x bus) d y n) as (-> & _).
Qed.

(** Moving a region in an allocator and on a bus that agree. *)
Lemma agree_move al bus d x n y A :
  agree al bus -> (x, n) ∈ ranges al -> (x, (n, d)) ∈ bus -> alive d = true -> request_ok al n A -> in_width 64 y ->
  let al1 := free x n al in
  ((A | y) /\ free_at al1 y n /\ exists al2 bus2,
     allocate (Some y) n (Some A) al1 = (Some y, al2) /\ update_range alive x n y n bus = (Ok tt, bus2) /\
     agree al2 bus2 /\ (forall e, e ∈ ranges al2 <-> e = (y, n) \/ (e ∈ ranges al /\ e.1 <> x)) /\
     base al2 = base al /\ end_ al2 = end_ al /\ bus_moved bus bus2 x y n d) \/
  ((~ ((A | y) /\ free_at al1 y n) \/ y = end_ al) /\ allocate (Some y) n (Some A) al1 = (None, al1)).
Proof.
  intros Hag Hr Hin Halive Hreq Hy al1. destruct Hreq as (Hn & HA & Hpow & Hfit).
  destruct (agree_remove al bus d x n Hag Hn Hr Hin) as (Hf & Hag1 & Hpl1). fold al1 in Hf, Hag1.
  assert (Hreq1 : request_ok al1 n A) by (rewrite Hf; by split_and!).
  destruct (allocate_at y n A al1 (ag_alloc _ _ Hag1) Hreq1 Hy) as [(Hd & Hfree & Hrun)|[Hno Hrun]].
  - left. split; [done|]. split; [done|].
    destruct (agree_insert al1 _ d y n Hag1 Hn Hfree) as (_ & Hag2 & Hpl2).
    destruct (alloc_ok_insert al1 y n (ag_alloc _ _ Hag1) Hn Hfree) as [_ Helem].
    pose proof Hfree as (_ & Hhi & _). destruct (ao_end _ (ag_alloc _ _ Hag1)).
    eexists _, _. split; [exact Hrun|]. split.
    { apply update_range_ok; try done; [apply Hag|by eapply covered_vacant|apply Hy|lia]. }
    split; [done|]. split.
    { intros e. cbn. rewrite Helem, Hf. cbn. rewrite (elem_of_bt_remove _ _ _ (ao_sorted _ (ag_alloc _ _ Hag))). done. }
    split; [by rewrite Hf|]. split; [by rewrite Hf|].
    pose proof (bk_sorted _ (ag_bus _ _ Hag)) as Hs. pose proof (bt_remove_ok x _ Hs) as Hs'. split_and!.
    + intros e [->|[[? _]%(elem_of_bt_remove _ _ _ Hs) _]]%(elem_of_bt_insert _ _ _ _ Hs'); auto.
    + apply (elem_of_bt_insert _ _ _ _ Hs'). by left.
    + intros addr b d'. by rewrite Hpl2, Hpl1.
  - right. split; [|done]. destruct Hno as [|Hend]; [by left|right]. by rewrite Hf in Hend.
Qed.
(** An allocator of other addresses agrees with the bus after the move. *)
Lemma agree_other al bus bus2 x y n d :
  agree al bus -> bus_ok bus2 -> bus_moved bus bus2 x y n d -> y + n <= base al \/ end_ al < y -> agree al bus2.
Proof.
  intros [Hal Hbus Hcov] Hbus2 (Hsub & _) Hout. split; [done|done|]. intros b len d' Hin Hlo Hhi.
  destruct (Hsub _ Hin) as [[= -> -> ->]|Hold]; [lia|by eapply Hcov].
Qed.
End agreement.

(** ** Moving a region of any type *)
Section moves.
Context {Dev VM : Type} (alive : Dev -> bool) (pagesize : Z).
Abbreviation AM := (AddressManager Dev VM).
Implicit Types (am : AM) (al : AddressAllocator) (d : Dev).

(** The allocators of addresses on the memory bus. *)
Definition mmio_spaces am : list AddressAllocator :=
  mmio_hole_address_space (am_allocator am) :: pci_mmio_allocators am.
Definition spaces_apart al al' : Prop := end_ al < base al' \/ end_ al' < base al.

(** The allocators agree with their buses, and manage different addresses. *)
Record manager_ok am : Prop := {
  mo_io : agree (io_address_space (am_allocator am)) (am_io_bus am);
  mo_mmio : forall i al, mmio_spaces am !! i = Some al -> agree al (am_mmio_bus am);
  mo_apart : forall i j al al', i <> j -> mmio_spaces am !! i = Some al -> mmio_spaces am !! j = Some al' -> spaces_apart al al';
}.

(** The allocator and the bus of a region, its alignment, and the error of a
    move that finds no range. *)
Definition holds_base (x : Z) (al : AddressAllocator) : Prop := base al <= x /\ x <= end_ al.
#[local] Instance holds_base_dec x al : Decision (holds_base x al).
Proof. unfold holds_base. apply _. Defined.
Definition region_space (t : PciBarRegionType) (x : Z) am : option AddressAllocator :=
  match t with
  | IoRegion => Some (io_address_space (am_allocator am))
  | Memory32BitRegion => Some (mmio_hole_address_space (am_allocator am))
  | Memory64BitRegion => snd <$> list_find (holds_base x) (pci_mmio_allocators am)
  end.
Definition region_bus (t : PciBarRegionType) am : list (Z * (Z * Dev)) :=
  match t with IoRegion => am_io_bus am | _ => am_mmio_bus am end.
Definition region_align (t : PciBarRegionType) (n : Z) : Z := match t with IoRegion => 1 | _ => n end.
Definition region_error (t : PciBarRegionType) : move_error :=
  match t with IoRegion => NoIoRange | Memory32BitRegion => NoMmio32Range | Memory64BitRegion => NoMmio64Range end.

Lemma free_base x n al : base (free x n al) = base al /\ end_ (free x n al) = end_ al.
Proof. unfold free. destruct (bt_get x (ranges al)); [by case_decide|done]. Qed.

Lemma move_in_allocators_spec x y n ls i al :
  list_find (holds_base x) ls = Some (i, al) ->
  move_in_allocators x y n ls =
    match allocate (Some y) n (Some n) (free x n al) with
    | (Some _, al') => (Ok tt, <[i := al']> ls)
    | (None, al') => (Err NoMmio64Range, <[i := al']> ls)
    end.
Proof.
  revert i. induction ls as [|a ls IH]; intros i Hfind; [done|]. cbn in Hfind |- *.
  destruct (decide (holds_base x a)) as [Hb|Hb].
  - simplify_eq. rewrite decide_True by done. by destruct (allocate _ _ _ _) as [[]].
  - rewrite decide_False by done. destruct (list_find (holds_base x) ls) as [[j a']|] eqn:Hj; [|done].
    cbn in Hfind. simplify_eq. rewrite (IH j) by done. by destruct (allocate _ _ _ _) as [[]].
Qed.
Lemma list_find_base x ls i al al' :
  list_find (holds_base x) ls = Some (i, al) -> base al' = base al -> end_ al' = end_ al ->
  list_find (holds_base x) (<[i := al']> ls) = Some (i, al').
Proof.
  intros (Hi & Hx & Hbefore)%list_find_Some Hb He. apply list_find_Some. split_and!.
  - apply list_lookup_insert_eq. by eapply lookup_lt_Some.
  - unfold holds_base in *. by rewrite Hb, He.
  - intros j a Ha Hlt. rewrite list_lookup_insert_ne in Ha by lia. by eapply Hbefore.
Qed.

(** The state after a move in one of the allocators of the memory bus. *)
Lemma manager_moved am am' i al al2 x y n d :
  manager_ok am -> mmio_spaces am !! i = Some al -> agree al2 (am_mmio_bus am') ->
  base al2 = base al -> end_ al2 = end_ al -> base al <= y -> y + n <= end_ al + 1 -> 0 < n ->
  bus_moved (am_mmio_bus am) (am_mmio_bus am') x y n d -> mmio_spaces am' = <[i := al2]> (mmio_spaces am) ->
  io_address_space (am_allocator am') = io_address_space (am_allocator am) -> am_io_bus am' = am_io_bus am ->
  manager_ok am'.
Proof.
  intros [Hio Hmmio Hapart] Hi Hag Hb He Hlo Hhi Hn Hmv Hsp Hio1 Hio2.
  assert (Hlt : (i < length (mmio_spaces am))%nat) by (by eapply lookup_lt_Some).
  assert (Hlook : forall j a, mmio_spaces am' !! j = Some a ->
    (j = i /\ a = al2) \/ (j <> i /\ mmio_spaces am !! j = Some a)).
  { intros j a Ha. rewrite Hsp in Ha. destruct (decide (j = i)) as [->|Hne].
    - rewrite list_lookup_insert_eq in Ha by done. by simplify_eq; left.
    - rewrite list_lookup_insert_ne in Ha by done. by right. }
  split; [by rewrite Hio1, Hio2| |].
  - intros j a Ha. destruct (Hlook j a Ha) as [[-> ->]|[Hne Ha']]; [done|].
    eapply agree_other; [by eapply Hmmio|apply Hag|done|]. destruct (Hapart _ _ _ _ Hne Ha' Hi); lia.
  - intros j k a a' Hne Ha Ha'.
    destruct (Hlook j a Ha) as [[-> ->]|[? Hj]], (Hlook k a' Ha') as [[-> ->]|[? Hk]]; [done|..];
      unfold spaces_apart; rewrite ?Hb, ?He; (eapply Hapart; [|eassumption|eassumption]; congruence).
Qed.

(** What is left when the range cannot be had: the old range is free, and still
    on the bus. *)
Definition range_given_back (t : PciBarRegionType) (x n : Z) am am' : Prop :=
  am_io_bus am' = am_io_bus am /\ am_mmio_bus am' = am_mmio_bus am /\ device_tree am' = device_tree am /\
  exists al, region_space t x am = Some al /\ region_space t x am' = Some (free x n al).

(** The state after a region of type [t] moved. *)
Definition region_moved (t : PciBarRegionType) (x y n : Z) d am am' : Prop :=
  manager_ok am' /\ bus_moved (region_bus t am) (region_bus t am') x y n d /\
  (match t with IoRegion => am_mmio_bus am' = am_mmio_bus am | _ => am_io_bus am' = am_io_bus am end) /\
  device_tree am' = device_tree am /\ am_vm am' = am_vm am /\
  exists al al', region_space t x am = Some al /\ region_space t x am' = Some al' /\
    base al' = base al /\ end_ al' = end_ al /\
    forall e, e ∈ ranges al' <-> e = (y, n) \/ (e ∈ ranges al /\ e.1 <> x).

Lemma move_io am al d x n y :
  manager_ok am -> region_space IoRegion x am = Some al -> (x, n) ∈ ranges al -> (x, (n, d)) ∈ am_io_bus am ->
  alive d = true -> request_ok al n 1 -> in_width 64 y ->
  (free_at (free x n al) y n /\ exists am', move_ranges alive pagesize x y n IoRegion am = (Done tt, am') /\
     region_moved IoRegion x y n d am am') \/
  ((~ free_at (free x n al) y n \/ y = end_ al) /\ exists am', move_ranges alive pagesize x y n IoRegion am = (Fail NoIoRange, am') /\
     range_given_back IoRegion x n am am').
Proof.
  intros [Hio Hmmio Hap] [= <-] Hr Hin Halive Hreq Hy. unfold move_ranges. rewrite bind_modify.
  destruct (agree_move alive _ _ d x n y 1 Hio Hr Hin Halive Hreq Hy)
    as [(_ & Hfree & al2 & bus2 & Ha & Hu & Hag & Hel & Hb & He & Hmv)|[Hno Ha]].
  - left. split; [done|]. erewrite bind_done by (unfold must_allocate, allocate_io_addresses; cbn; by rewrite Ha).
    unfold move_io_bus. cbn. rewrite Hu. eexists. split; [done|]. split; [by split|]. split; [exact Hmv|].
    split; [done|]. split; [done|]. split; [done|]. eauto 10.
  - right. split; [destruct Hno as [Hno|]; [left|by right]; intros ?; apply Hno; split; [apply Z.divide_1_l|done]|].
    erewrite bind_fail by (unfold must_allocate, allocate_io_addresses; cbn; by rewrite Ha).
    eexists. split; [done|]. do 3 (split; [done|]). eauto.
Qed.

Lemma move_mmio32 am al d x n y :
  manager_ok am -> region_space Memory32BitRegion x am = Some al -> (x, n) ∈ ranges al -> (x, (n, d)) ∈ am_mmio_bus am ->
  alive d = true -> request_ok al n n -> in_width 64 y ->
  ((n | y) /\ free_at (free x n al) y n /\ exists am',
     move_ranges alive pagesize x y n Memory32BitRegion am = (Done tt, am') /\ region_moved Memory32BitRegion x y n d am am') \/
  ((~ ((n | y) /\ free_at (free x n al) y n) \/ y = end_ al) /\ exists am',
     move_ranges alive pagesize x y n Memory32BitRegion am = (Fail NoMmio32Range, am') /\
     range_given_back Memory32BitRegion x n am am').
Proof.
  intros Hok [= <-] Hr Hin Halive Hreq Hy. unfold move_ranges. rewrite bind_modify.
  destruct (agree_move alive _ _ d x n y n (mo_mmio _ Hok 0%nat _ eq_refl) Hr Hin Halive Hreq Hy)
    as [(Hd & Hfree & al2 & bus2 & Ha & Hu & Hag & Hel & Hb & He & Hmv)|[Hno Ha]].
  - left. split; [done|]. split; [done|].
    erewrite bind_done by (unfold must_allocate, allocate_mmio_hole_addresses; cbn; by rewrite Ha).
    unfold move_mmio_bus. cbn. rewrite Hu. eexists. split; [done|].
    destruct (free_base x n (mmio_hole_address_space (am_allocator am))) as [Hfb Hfe].
    destruct Hfree as (? & ? & _). rewrite Hfb, Hfe in *. split.
    { eapply (manager_moved am _ 0%nat); try done; apply Hreq. }
    split; [exact Hmv|]. do 3 (split; [done|]). eauto 10.
  - right. split; [done|].
    erewrite bind_fail by (unfold must_allocate, allocate_mmio_hole_addresses; cbn; by rewrite Ha).
    eexists. split; [done|]. do 3 (split; [done|]). eauto.
Qed.

Lemma move_mmio64 am al d x n y :
  manager_ok am -> region_space Memory64BitRegion x am = Some al -> (x, n) ∈ ranges al -> (x, (n, d)) ∈ am_mmio_bus am ->
  alive d = true -> request_ok al n n -> in_width 64 y ->
  ((n | y) /\ free_at (free x n al) y n /\ exists am',
     move_ranges alive pagesize x y n Memory64BitRegion am = (Done tt, am') /\ region_moved Memory64BitRegion x y n d am am') \/
  ((~ ((n | y) /\ free_at (free x n al) y n) \/ y = end_ al) /\ exists am',
     move_ranges alive pagesize x y n Memory64BitRegion am = (Fail NoMmio64Range, am') /\
     range_given_back Memory64BitRegion x n am am').
Proof.
  intros Hok Hsp Hr Hin Halive Hreq Hy. cbn in Hsp.
  destruct (list_find _ _) as [[i a]|] eqn:Hfind; cbn in Hsp; simplify_eq. unfold move_ranges.
  pose proof (proj1 (list_find_Some _ _ _ _) Hfind) as (Hi & _). assert (Hag := mo_mmio _ Hok (S i) al Hi).
  destruct (free_base x n al) as [Hfb Hfe].
  destruct (agree_move alive _ _ d x n y n Hag Hr Hin Halive Hreq Hy)
    as [(Hd & Hfree & al2 & bus2 & Ha & Hu & Hag2 & Hel & Hb & He & Hmv)|[Hno Ha]].
  - left. split; [done|]. split; [done|]. pose proof (move_in_allocators_spec x y n _ i al Hfind) as Hmove. rewrite Ha in Hmove.
    erewrite bind_done by (by rewrite Hmove). unfold move_mmio_bus. cbn. rewrite Hu. eexists. split; [done|].
    destruct Hfree as (? & ? & _). rewrite Hfb, Hfe in *. split.
    { eapply (manager_moved am _ (S i)); try done; apply Hreq. }
    split; [exact Hmv|]. do 3 (split; [done|]). exists al, al2. cbn. rewrite Hfind, (list_find_base _ _ _ _ _ Hfind) by done. done.
  - right. split; [done|]. pose proof (move_in_allocators_spec x y n _ i al Hfind) as Hmove. rewrite Ha in Hmove.
    erewrite bind_fail by (by rewrite Hmove). eexists. split; [done|]. do 3 (split; [done|]).
    exists al. cbn. rewrite Hfind, (list_find_base _ _ _ _ _ Hfind) by done. done.
Qed.
End moves.

(** C10: What moving a region does in the allocator and on the bus.  Where
    the allocators agree with the buses, and a live device has a region of type
    [t] at [x] whose range is allocated: if the new address is aligned and the
    range there is free once the old one is, the region moves, in the allocator
    of its addresses and on its bus; all other ranges stay as they are, and the
    allocators still agree with the buses.  Otherwise, or possibly at the very
    last address of the space, the call fails: the buses do not change, but the
    allocator has given the old range back, where the device still answers
    ([failed_move_frees_range]). *)
Theorem move_region {Dev VM} (alive : Dev -> bool) (pagesize : Z) t (am : AddressManager Dev VM) al d x n y :
  manager_ok am -> region_space t x am = Some al -> (x, n) ∈ ranges al -> (x, (n, d)) ∈ region_bus t am ->
  alive d = true -> request_ok al n (region_align t n) -> in_width 64 y ->
  let fits := (region_align t n | y) /\ free_at (free x n al) y n in
  let '(r, am') := move_ranges alive pagesize x y n t am in
  (fits /\ r = Done tt /\ region_moved t x y n d am am') \/
  ((~ fits \/ y = end_ al) /\ r = Fail (region_error t) /\ range_given_back t x n am am').
Proof.
  intros Hok Hsp Hr Hin Halive Hreq Hy fits. unfold fits.
  destruct t; cbn [region_align region_bus region_error] in *.
  - destruct (move_mmio32 alive pagesize am al d x n y) as [(? & ? & am' & -> & ?)|(? & am' & -> & ?)]; auto 10.
  - assert (Hone : (1 | y)) by apply Z.divide_1_l.
    destruct (move_io alive pagesize am al d x n y) as [(? & am' & -> & ?)|(Hno & am' & -> & ?)]; auto 10.
    right. split; [|done]. destruct Hno; [left; by intros [_ ?]|by right].
  - destruct (move_mmio64 alive pagesize am al d x n y) as [(? & ? & am' & -> & ?)|(? & am' & -> & ?)]; auto 10.
Qed.

(** ** Examples *)
Ltac concrete_sorted := repeat (apply bt_ok_cons; split; [set_solver by lia|]); apply bt_ok_nil.
Ltac concrete_allocator :=
  split; cbn; [lia|lia|concrete_sorted|lia|set_solver|intros ? ? ? ->; set_solver].
Ltac concrete_bus :=
  split; [concrete_sorted|intros b len d Hin; set_unfold in Hin; naive_solver lia
         |intros b len d b' len' d' Hin Hin' Hlt; set_unfold in Hin; set_unfold in Hin'; naive_solver lia].

Definition example_manager : AddressManager nat unit :=
  mkManager (mkSystem (mkAllocator 0 65535 [(65536, 0)]) (mkAllocator 4096 8191 [(8192, 0)])
               (mkAllocator 16384 65535 [(16384, 4096); (65536, 0)]) (gsi_new []))
    [] [(16384, (4096, 3%nat)); (1048576, (4096, 7%nat))] tt
    [mkAllocator 1048576 1114111 [(1048576, 4096); (1114112, 0)]] ∅.

Lemma example_manager_ok : manager_ok example_manager.
Proof.
  assert (Hbus : bus_ok (am_mmio_bus example_manager)) by concrete_bus.
  split.
  - split; [concrete_allocator|apply bus_ok_new|intros b len d Hin; set_solver].
  - intros [|[|i]] al Hi; cbn in Hi; simplify_eq; (split; [concrete_allocator|done|]); intros b len d Hin Hlo Hhi; cbn in *;
      [exists 16384, 4096|exists 1048576, 4096]; rewrite !elem_of_cons in Hin;
      destruct Hin as [[= -> -> ->]|[[= -> -> ->]|Hin]]; try lia; by (split; [left|lia]) || by apply elem_of_nil in Hin.
  - intros [|[|i]] [|[|j]] al al' Hne Hi Hj; cbn in *; simplify_eq; unfold spaces_apart; cbn; lia.
Qed.

Lemma move_region_witness :
  let '(r, am') := move_ranges (fun _ => true) 4096 1048576 1056768 4096 Memory64BitRegion example_manager in
  r = Done tt /\ region_moved Memory64BitRegion 1048576 1056768 4096 7%nat example_manager am'.
Proof.
  pose proof (move_region (fun _ => true) 4096 Memory64BitRegion example_manager
    (mkAllocator 1048576 1114111 [(1048576, 4096); (1114112, 0)]) 7%nat 1048576 4096 1056768
    example_manager_ok eq_refl ltac:(by left) ltac:(by right; left) eq_refl) as Hmove.
  assert (Hreq : request_ok (mkAllocator 1048576 1114111 [(1048576, 4096); (1114112, 0)]) 4096 4096).
  { split; [lia|]. split; [split; [lia|reflexivity]|]. split; [reflexivity|vm_compute; congruence]. }
  specialize (Hmove Hreq ltac:(split; [lia|reflexivity])). cbn zeta in Hmove.
  destruct (move_ranges _ _ _ _ _ _ _) as [r am'] eqn:Hrun. vm_compute in Hrun. injection Hrun as <- <-.
  destruct Hmove as [(_ & _ & Hmv)|(_ & Hbad & _)]; [by split|discriminate].
Defined.

(** A move that finds no range leaves the old one free in the allocator, while
    the bus still routes it to the device: the next device is given the same
    addresses, and cannot be placed there. *)
Lemma failed_move_frees_range :
  let '(r, am) := move_ranges (fun _ => true) 4096 16384 18432 4096 Memory32BitRegion example_manager in
  r = Fail NoMmio32Range /\ (resolve (fun _ => true) 16384 (am_mmio_bus am)) = Some (16384, 0, 3%nat) /\
  (allocate_mmio_hole_addresses 4096 (Some 16384) 4096 None (am_allocator am)).1 = Some 16384 /\
  (bus_insert 9%nat 16384 4096 (am_mmio_bus am)).1 = Err BusOverlap.
Proof. vm_compute. auto. Qed.

(** A region outside all the allocators of its type moves on the bus alone. *)
Lemma unmanaged_region_moves :
  let am := set_mmio_bus [(4194304, (4096, 5%nat))] example_manager in
  let '(r, am') := move_ranges (fun _ => true) 4096 4194304 1048576 4096 Memory64BitRegion am in
  r = Done tt /\ am_mmio_bus am' = [(1048576, (4096, 5%nat))] /\ pci_mmio_allocators am' = pci_mmio_allocators am.
Proof. vm_compute. auto. Qed.
