(* ===== verification/MoveBarProofs.v ===== *)
(** Moving a region of any device to the end: after the allocators and the bus,
    the device tree, the notifications of a virtio device in the virtual machine,
    and the device itself. *)
From stdpp Require Import base numbers gmap strings sets list.
From S2P Require Import Prelude Bytes BTree AddressAllocator DeviceBus VmResources IrqGroup Msix PciConfig PciBdf PciDevice AddressManager AddressManagerProofs.
#[local] Open Scope Z_scope.

(** ** Events of the virtual machine

    What KVM documents of [KVM_IOEVENTFD]: an address has one event at most, and
    an event that is there can be taken away. *)
Class EventLaws (VM : Type) `{VmCalls VM} := {
  vm_events : VM -> gset (Z * Z);
  vm_register_ok : forall e a v, (forall e', (e', a) ∉ vm_events v) ->
    exists v', vm_register_ioevent e a v = (true, v') /\ vm_events v' = {[(e, a)]} ∪ vm_events v;
  vm_unregister_ok : forall e a v, (e, a) ∈ vm_events v ->
    exists v', vm_unregister_ioevent e a v = (true, v') /\ vm_events v' = vm_events v ∖ {[(e, a)]};
}.

(** ** Resources *)
Definition is_region (t : PciBarRegionType) (x : Z) (r : Resource) : Prop :=
  match r with ResPciBar _ b _ ty _ => region_of ty = t /\ b = x | _ => False end.
Definition moved_to (y : Z) (r : Resource) : Resource :=
  match r with ResPciBar i _ n ty p => ResPciBar i y n ty p | r => r end.

(** The first resource that matches, and only that one, has the new address. *)
Lemma move_resource_spec x y t rs i r :
  rs !! i = Some r -> is_region t x r -> (forall j r', (j < i)%nat -> rs !! j = Some r' -> ~ is_region t x r') ->
  move_resource x y t rs = (true, <[i := moved_to y r]> rs).
Proof.
  revert i. induction rs as [|r0 rs IH]; intros [|i] Hi Hr Hno; cbn in Hi; try done.
  - simplify_eq. destruct r; try done. cbn in Hr |- *. by rewrite decide_True.
  - pose proof (Hno 0%nat r0 ltac:(lia) eq_refl) as Hr0.
    assert (Hrec : move_resource x y t rs = (true, <[i := moved_to y r]> rs)).
    { apply IH; [done|done|]. intros j r' Hj Hr'. by apply (Hno (S j) r'); [lia|]. }
    destruct r0; cbn in Hr0 |- *; rewrite ?Hrec; try done. by rewrite decide_False.
Qed.

(** ** Notifications *)
Lemma ioeventfds_lookup evts x i :
  0 <= x -> x + 0x6000 + 4 * Z.of_nat (length evts) < 2 ^ 64 ->
  ioeventfds evts x !! i = (fun e => (e, x + 0x6000 + 4 * Z.of_nat i)) <$> evts !! i.
Proof.
  intros Hx Hfit. unfold ioeventfds. rewrite list_lookup_imap. destruct (evts !! i) as [e|] eqn:He; [|done]. cbn.
  apply lookup_lt_Some in He. unfold NOTIFICATION_BAR_OFFSET, NOTIFY_OFF_MULTIPLIER, wmul.
  rewrite (wadd_small 64 x), wrap_small, wadd_small by (unfold in_width; lia). do 2 f_equal. lia.
Qed.

Lemma ioeventfds_addresses evts x :
  0 <= x -> x + 0x6000 + 4 * Z.of_nat (length evts) < 2 ^ 64 -> NoDup (ioeventfds evts x).*2.
Proof.
  intros Hx Hfit. apply NoDup_alt. intros i j a Hi Hj. rewrite !list_lookup_fmap, !ioeventfds_lookup in * by done.
  destruct (evts !! i), (evts !! j); cbn in *; simplify_eq. lia.
Qed.

Section events.
Context {Dev VM : Type} `{EventLaws VM}.
Abbreviation AM := (AddressManager Dev VM).
Implicit Types (am : AM) (l : list (Z * Z)).

Lemma unregister_all l am :
  NoDup l -> list_to_set l ⊆ vm_events (am_vm am) ->
  exists v, unregister_ioevents l am = (Done tt, set_vm v am) /\ vm_events v = vm_events (am_vm am) ∖ list_to_set l.
Proof.
  intros Hnd. revert am. induction Hnd as [|[e a] l Hni Hnd IH]; intros am Hsub; cbn.
  { exists (am_vm am). destruct am. split; [done|set_solver]. }
  destruct (vm_unregister_ok e a (am_vm am)) as (v1 & Hrun & Hev); [set_solver|].
  unfold bind, call_vm at 1. rewrite Hrun. destruct (IH (set_vm v1 am)) as (v & Hrun' & Hev').
  { cbn. rewrite Hev. cbn in Hsub. set_solver. }
  exists v. split; [exact Hrun'|]. rewrite Hev'. cbn. rewrite Hev. set_solver.
Qed.

Lemma register_all l am :
  NoDup l.*2 -> (forall e a, (e, a) ∈ vm_events (am_vm am) -> a ∉ l.*2) ->
  exists v, register_ioevents l am = (Done tt, set_vm v am) /\ vm_events v = list_to_set l ∪ vm_events (am_vm am).
Proof.
  revert am. induction l as [|[e a] l IH]; intros am Hnd Hfree; cbn.
  { exists (am_vm am). destruct am. split; [done|set_solver]. }
  cbn in Hnd. apply NoDup_cons in Hnd as [Hni Hnd].
  destruct (vm_register_ok e a (am_vm am)) as (v1 & Hrun & Hev).
  { intros e' Hin. apply (Hfree e' a Hin). by left. }
  unfold bind, call_vm at 1. rewrite Hrun. destruct (IH (set_vm v1 am) Hnd) as (v & Hrun' & Hev').
  { cbn. rewrite Hev. intros e1 a1 [Hone%elem_of_singleton|Hin]%elem_of_union; [by simplify_eq|].
    intros Hbad. apply (Hfree e1 a1 Hin). by right. }
  exists v. split; [exact Hrun'|]. rewrite Hev'. cbn. rewrite Hev. set_solver.
Qed.
End events.

Lemma move_ranges_done {Dev VM} (alive : Dev -> bool) pagesize t (am : AddressManager Dev VM) al d x n y :
  manager_ok am -> region_space t x am = Some al -> (x, n) ∈ ranges al -> (x, (n, d)) ∈ region_bus t am ->
  alive d = true -> request_ok al n (region_align t n) -> in_width 64 y ->
  (region_align t n | y) -> free_at (free x n al) y n -> y <> end_ al ->
  exists am', move_ranges alive pagesize x y n t am = (Done tt, am') /\ region_moved t x y n d am am'.
Proof.
  intros Hok Hsp Hr Hin Halive Hreq Hy Hd Hf Hne. destruct t; cbn [region_align region_bus] in *.
  - destruct (move_mmio32 alive pagesize am al d x n y) as [(_ & _ & ?)|[[[]|?] _]]; done.
  - destruct (move_io alive pagesize am al d x n y) as [(_ & ?)|[[?|?] _]]; done.
  - destruct (move_mmio64 alive pagesize am al d x n y) as [(_ & _ & ?)|[[[]|?] _]]; done.
Qed.

(** The notifications of a device move from [x] to [y]. *)
Definition events_move (evts : list Z) (x y : Z) (old new : gset (Z * Z)) : Prop :=
  new = (old ∖ list_to_set (ioeventfds evts x)) ∪ list_to_set (ioeventfds evts y).

(** The addresses of the notifications do not wrap, the device has its events at
    the old ones, and the new ones are not used by others. *)
Definition events_fit (evts : list Z) (x y : Z) (old : gset (Z * Z)) : Prop :=
  0 <= x /\ x + 0x6000 + 4 * Z.of_nat (length evts) < 2 ^ 64 /\
  0 <= y /\ y + 0x6000 + 4 * Z.of_nat (length evts) < 2 ^ 64 /\
  list_to_set (ioeventfds evts x) ⊆ old /\
  forall e a, (e, a) ∈ old -> (e, a) ∉ ioeventfds evts x -> a ∉ (ioeventfds evts y).*2.

Lemma move_events {Dev VM} `{EventLaws VM} evts x y (am : AddressManager Dev VM) :
  events_fit evts x y (vm_events (am_vm am)) ->
  exists v, (unregister_ioevents (ioeventfds evts x) ;;; register_ioevents (ioeventfds evts y)) am = (Done tt, set_vm v am) /\
    events_move evts x y (vm_events (am_vm am)) (vm_events v).
Proof.
  intros (Hx & Hx' & Hy & Hy' & Hsub & Hfree).
  destruct (unregister_all (ioeventfds evts x) am) as (v1 & Hrun1 & Hev1); [|done|].
  { eapply NoDup_fmap_1, (ioeventfds_addresses evts x); done. }
  destruct (register_all (ioeventfds evts y) (set_vm v1 am)) as (v & Hrun2 & Hev2); [by apply ioeventfds_addresses| |].
  { cbn. rewrite Hev1. intros e a [Hin Hni]%elem_of_difference. apply (Hfree e a Hin). by rewrite elem_of_list_to_set in Hni. }
  exists v. rewrite (bind_done _ _ _ _ _ Hrun1), Hrun2. split; [done|]. unfold events_move. rewrite Hev2. cbn. rewrite Hev1.
  set_solver.
Qed.

(** C33: Moving the region of a virtio device moves its notifications with it.
    Where the region can move and the notifications of the device are in it: the
    whole call succeeds; the region moves in its allocator and on its bus, its
    resource in the device tree has the new address, the virtual machine has the
    events of the queues at the new addresses and no more at the old ones, other
    events stay, and the device is told last. *)
Theorem move_bar_virtio {VM D} `{EventLaws VM} `{PciDevice D} (alive : nat -> bool) (pagesize : Z) t
    (am : AddressManager nat VM) al h x n y (d d' : D) id node i r v :
  manager_ok am -> region_space t x am = Some al -> (x, n) ∈ ranges al -> (x, (n, h)) ∈ region_bus t am ->
  alive h = true -> request_ok al n (region_align t n) -> in_width 64 y ->
  (region_align t n | y) -> free_at (free x n al) y n -> y <> end_ al ->
  pd_id d = Some id -> device_tree am !! id = Some node ->
  node_resources node !! i = Some r -> is_region t x r ->
  (forall j r', (j < i)%nat -> node_resources node !! j = Some r' -> ~ is_region t x r') ->
  pd_as_virtio d = Some v -> vv_config_bar_addr v = y -> events_fit (vv_queue_evts v) x y (vm_events (am_vm am)) ->
  pd_move_bar x y d = (Ok tt, d') ->
  exists am1 v', move_bar alive pagesize (mkParams x y n t) (am, d) =
      (Done tt, (set_vm v' (set_tree (<[id := set_node_resources (<[i := moved_to y r]> (node_resources node)) node]>
         (device_tree am)) am1), d')) /\
    region_moved t x y n h am am1 /\ events_move (vv_queue_evts v) x y (vm_events (am_vm am)) (vm_events v').
Proof.
  intros Hok Hsp Hr Hin Halive Hreq Hy Hd Hf Hne Hid Hnode Hi Hreg Hfirst Hvirtio Hbar Hfit Hmove.
  destruct (move_ranges_done alive pagesize t am al h x n y) as (am1 & Hrun & Hmv); try done.
  pose proof Hmv as (_ & _ & _ & Htree & Hvm & _).
  set (am2 := set_tree (<[id := set_node_resources (<[i := moved_to y r]> (node_resources node)) node]> (device_tree am)) am1).
  destruct (move_events (vv_queue_evts v) x y am2) as (v' & Hev & Hset); [cbn; by rewrite Hvm|].
  exists am1, v'. split; [|split; [done|cbn in Hset; by rewrite Hvm in Hset]].
  apply bind_inv_done in Hev as ([] & am3 & Hev1 & Hev2).
  unfold move_bar. cbn [old_base new_base bar_len region_type].
  erewrite bind_done by (unfold on_manager; eapply zoom_run; exact Hrun). rewrite bind_get. cbn [snd]. rewrite Hid.
  erewrite bind_done.
  2: { unfold on_manager. eapply zoom_run. cbn [fst]. unfold move_in_tree. rewrite bind_get, Htree, Hnode.
       rewrite (move_resource_spec _ _ _ _ _ _ Hi Hreg Hfirst), bind_modify. rewrite Htree. reflexivity. }
  cbn [snd]. fold am2. erewrite bind_done.
  2: { unfold move_virtio. rewrite bind_get. cbn [snd]. rewrite Hvirtio, decide_True by done.
       erewrite bind_done by (unfold on_manager; eapply zoom_run; exact Hev1). cbn [snd].
       unfold on_manager. eapply zoom_run. exact Hev2. }
  unfold device_call. cbn [snd fst]. by rewrite Hmove.
Qed.

(** ** Example: a virtual machine that is a set of events, and a device that is
    its view *)
#[local] Instance event_vm : VmCalls (gset (Z * Z)) := {|
  vm_register_ioevent e a v := if decide (a ∈ (elements v).*2) then (false, v) else (true, {[(e, a)]} ∪ v);
  vm_unregister_ioevent e a v := if decide ((e, a) ∈ v) then (true, v ∖ {[(e, a)]}) else (false, v);
  vm_create_user_memory_region _ v := (true, v);
  vm_remove_user_memory_region _ v := (true, v);
|}.
#[local] Program Instance event_vm_laws : EventLaws (gset (Z * Z)) := {| vm_events v := v |}.
Next Obligation.
  intros e a v Hno. cbn. rewrite decide_False; [by eexists|].
  intros ([e' a'] & -> & Hin%elem_of_elements)%list_elem_of_fmap. by apply (Hno e').
Qed.
Next Obligation. intros e a v Hin. cbn. rewrite decide_True by done. by eexists. Qed.

#[local] Instance view_device : PciDevice virtio_view := {|
  pd_id _ := Some "disk"%string;
  pd_allocate_bars _ _ := ret [];
  pd_free_bars := ret tt;
  pd_write_config_register _ _ _ := ret None;
  pd_read_config_register _ d := (0, d);
  pd_detect_bar_reprogramming _ _ := ret None;
  pd_move_bar _ _ d := (Ok tt, d);
  pd_as_virtio d := Some d;
  pd_set_shm_regions _ d := (Ok tt, d);
|}.

Definition event_manager : AddressManager nat (gset (Z * Z)) :=
  mkManager (am_allocator example_manager) (am_io_bus example_manager) (am_mmio_bus example_manager)
    {[(5, 1073152); (6, 1073156)]} (pci_mmio_allocators example_manager)
    {["disk" := set_node_resources [ResPciBar 0 1048576 4096 Mmio64 false] (device_node "disk")]}.

Lemma move_bar_virtio_witness :
  exists am1 v', move_bar (fun _ => true) 4096 (mkParams 1048576 1056768 4096 Memory64BitRegion)
      (event_manager, mkView 1056768 [5; 6] None) =
      (Done tt, (set_vm v' (set_tree {["disk" := set_node_resources [ResPciBar 0 1056768 4096 Mmio64 false]
         (device_node "disk")]} am1), mkView 1056768 [5; 6] None)) /\
    region_moved Memory64BitRegion 1048576 1056768 4096 7%nat event_manager am1 /\
    v' = {[(5, 1081344); (6, 1081348)]}.
Proof.
  destruct (move_bar_virtio (fun _ => true) 4096 Memory64BitRegion event_manager
    (mkAllocator 1048576 1114111 [(1048576, 4096); (1114112, 0)]) 7 1048576 4096 1056768
    (mkView 1056768 [5; 6] None) (mkView 1056768 [5; 6] None) "disk"
    (set_node_resources [ResPciBar 0 1048576 4096 Mmio64 false] (device_node "disk")) 0
    (ResPciBar 0 1048576 4096 Mmio64 false) (mkView 1056768 [5; 6] None)) as (am1 & v' & Hrun & Hmv & Hev); try reflexivity.
  - destruct example_manager_ok as [Hio Hmmio Hapart]. split; [exact Hio|exact Hmmio|exact Hapart].
  - by left.
  - by right; left.
  - cbn [region_align]. split; [lia|]. split; [split; [lia|reflexivity]|]. split; [reflexivity|vm_compute; congruence].
  - split; [lia|reflexivity].
  - by exists 258.
  - change (free_at (mkAllocator 1048576 1114111 [(1114112, 0)]) 1056768 4096).
    split; [cbn; lia|]. split; [cbn; lia|]. intros a n Hin. apply list_elem_of_singleton in Hin as [= -> ->]. lia.
  - discriminate.
  - by split.
  - intros j r' Hj. lia.
  - do 4 (split; [cbn; lia|]). split; [by vm_compute|]. intros e a Hin Hno. exfalso. apply Hno.
    assert (Hcases : (e, a) = (5, 1073152) \/ (e, a) = (6, 1073156)) by (cbn in Hin; set_solver).
    destruct Hcases as [-> | ->]; vm_compute; [by left|by right; left].
  - exists am1, v'. split; [exact Hrun|]. split; [exact Hmv|]. refine (eq_trans Hev _). by vm_compute.
Defined.
