(* ===== verification/PciRelocation.v ===== *)
(** A guest moves the region of a device through the ports of the configuration
    space: the configuration space, the allocators, the memory bus and the
    device tree follow together. *)
From stdpp Require Import base numbers gmap strings sets list.
From S2P Require Import Prelude Bytes BTree AddressAllocator DeviceBus VmResources IrqGroup Msix MsixProofs PciConfig PciConfigProofs PciCaps PciBars PciBdf PciDevice AddressManager PciBus PvPanic DeviceManager AddressManagerProofs.
#[local] Open Scope Z_scope.

(** ** Addresses of registers *)
Definition io_address (bus device function register : Z) : Z :=
  2 ^ 31 + (bus * 2 ^ 16 + (device * 2 ^ 11 + (function * 2 ^ 8 + register * 4))).
Definition ecam_address (bus device function register offset : Z) : Z :=
  bus * 2 ^ 20 + (device * 2 ^ 15 + (function * 2 ^ 12 + (register * 4 + offset))).

Lemma parse_io b d f r :
  in_width 8 b -> in_width 5 d -> in_width 3 f -> in_width 6 r ->
  in_width 32 (io_address b d f r) /\ Z.land (io_address b d f r) 0x80000000 <> 0 /\
  parse_io_config_address (Z.land (io_address b d f r) (unot 32 0x80000000)) = (b, d, f, r).
Proof.
  unfold in_width. intros Hb Hd Hf Hr.
  assert (Hbit : Z.testbit (io_address b d f r) 31 = true).
  { apply Z.testbit_true; [lia|]. unfold io_address. Z.to_euclidean_division_equations. lia. }
  split; [unfold io_address; lia|]. split.
  - intros Hz. apply (f_equal (fun x => Z.testbit x 31)) in Hz. rewrite Z.land_spec, Hbit in Hz. done.
  - change (unot 32 0x80000000) with (Z.ones 31). rewrite Z.land_ones by lia.
    replace (io_address b d f r mod 2 ^ 31) with (b * 2 ^ 16 + (d * 2 ^ 11 + (f * 2 ^ 8 + r * 4)))
      by (unfold io_address; Z.to_euclidean_division_equations; lia).
    unfold parse_io_config_address, shift_and_mask.
    rewrite (field_div _ 16 8), (field_div _ 11 5), (field_div _ 8 3), (field_div _ 2 6) by lia.
    repeat f_equal; Z.to_euclidean_division_equations; lia.
Qed.
Lemma parse_mmio b d f r o :
  in_width 8 b -> in_width 5 d -> in_width 3 f -> in_width 10 r -> 0 <= o < 4 ->
  0 <= ecam_address b d f r o < 2 ^ 28 /\ ecam_address b d f r o mod 4 = o /\
  parse_mmio_config_address (ecam_address b d f r o) = (b, d, f, r).
Proof.
  unfold in_width. intros Hb Hd Hf Hr Ho. split; [unfold ecam_address; lia|].
  split; [unfold ecam_address; Z.to_euclidean_division_equations; lia|].
  unfold parse_mmio_config_address, shift_and_mask.
  rewrite (field_div _ 20 8), (field_div _ 15 5), (field_div _ 12 3), (field_div _ 2 10) by lia. unfold ecam_address.
  repeat f_equal; Z.to_euclidean_division_equations; lia.
Qed.

(** ** The two mechanisms *)
Section access.
Context {VM : Type} `{VmCalls VM} {D : Type} `{PciDevice D}.
Abbreviation MC := (Machine VM D).
Implicit Types (m : MC) (data : list Z).

Lemma select_address m a :
  in_width 32 a -> set_config_address 0 (le_bytes 4 a) m = put_config_address a m.
Proof.
  intros Ha. unfold set_config_address. rewrite decide_False by (rewrite le_bytes_length; lia).
  destruct (le_bytes 4 a) as [|b0 [|b1 [|b2 [|b3 [|? ?]]]]] eqn:Hl;
    apply (f_equal length) in Hl as Hlen; rewrite le_bytes_length in Hlen; try done.
  rewrite <- Hl, le_value4 by done. change (unot 32 0xffffffff) with 0. by rewrite Z.land_0_r, Z.lor_0_l.
Qed.

(** The address in the port is not used by an access to a device. *)
Lemma read_device_port dev reg a m :
  read_device dev reg (put_config_address a m) = let '(v, m') := read_device dev reg m in (v, put_config_address a m').
Proof.
  unfold read_device. change (device_at dev (put_config_address a m)) with (device_at dev m).
  destruct (device_at dev m) as [[h d]|]; [|done]. by destruct (pd_read_config_register _ _).
Qed.
Lemma io_read_device m dev reg off len :
  mc_config_address m = io_address 0 dev 0 reg -> in_width 5 dev -> in_width 6 reg -> 0 <= off < 4 ->
  config_io_read (4 + off) len m =
    let '(v, m) := read_device dev reg m in
    (if decide (off + Z.of_nat len <= 4) then register_bytes v off len else replicate len 0xff, m).
Proof.
  intros Ha Hd Hr Hoff. destruct (parse_io 0 dev 0 reg ltac:(done) Hd ltac:(done) Hr) as (_ & Hen & Hparse).
  unfold config_io_read. rewrite decide_False, decide_True by lia. unfold io_config_space_read.
  rewrite Ha, decide_False, Hparse, decide_False, decide_False by (done || tauto).
  destruct (read_device dev reg m) as [v m']. replace ((4 + off) mod 4) with off by (Z.to_euclidean_division_equations; lia).
  by case_decide.
Qed.

Context (alive : nat -> bool) (pagesize : Z).

Lemma io_select m a :
  in_width 32 a -> config_io_write alive pagesize 0 (le_bytes 4 a) m = (Done None, put_config_address a m).
Proof. intros Ha. unfold config_io_write. cbn [Z.to_nat]. rewrite decide_True by lia. by rewrite bind_modify, select_address. Qed.
Lemma write_device_port dev reg off data a m :
  write_device alive pagesize dev reg off data (put_config_address a m) =
    let '(r, m') := write_device alive pagesize dev reg off data m in (r, put_config_address a m').
Proof.
  unfold write_device. change (device_at dev (put_config_address a m)) with (device_at dev m).
  destruct (device_at dev m) as [[h d]|]; [|done]. cbn [put_config_address mc_manager].
  by destruct (device_config_write _ _ _ _ _ _) as [r [am d']].
Qed.

Lemma io_write_device m dev reg off data :
  mc_config_address m = io_address 0 dev 0 reg -> in_width 5 dev -> in_width 6 reg -> (off < 4)%nat ->
  config_io_write alive pagesize (4 + Z.of_nat off) data m =
    if decide (4 < off + length data)%nat then (Done None, m) else write_device alive pagesize dev reg off data m.
Proof.
  intros Ha Hd Hr Hoff. destruct (parse_io 0 dev 0 reg ltac:(done) Hd ltac:(done) Hr) as (_ & Hen & Hparse).
  unfold config_io_write. rewrite decide_False, decide_True by lia. replace (4 + Z.of_nat off - 4) with (Z.of_nat off) by lia.
  rewrite Nat2Z.id. unfold io_config_space_write. case_decide; [done|]. rewrite bind_get, Ha, decide_False by done.
  by rewrite Hparse, decide_False by tauto.
Qed.
End access.

(** C38: The ports and the memory-mapped configuration space are the same
    registers, where both reach them.  For every device on bus 0, in its function
    0 and for each of its first 64 registers, once the port holds the address of
    the register, a read within the register returns through the ports what it
    returns through memory, and a write of any bytes has the same effect on the
    machine through the ports as through memory, the moves of regions included,
    and panics in the same cases. *)
Theorem config_mechanisms_agree {VM D} `{VmCalls VM} `{PciDevice D} (alive : nat -> bool) (pagesize : Z)
    (m : Machine VM D) (device register : Z) (off : nat) :
  in_width 5 device -> in_width 6 register -> (off < 4)%nat ->
  let a := io_address 0 device 0 register in
  let e := ecam_address 0 device 0 register (Z.of_nat off) in
  (forall len, (off + len <= 4)%nat ->
     config_io_read (4 + Z.of_nat off) len (put_config_address a m) =
     let '(v, m') := config_mmio_read e len m in (v, put_config_address a m')) /\
  (forall data,
     let '(r, m1) := (config_io_write alive pagesize 0 (le_bytes 4 a) ;;;
                      config_io_write alive pagesize (4 + Z.of_nat off) data) m in
     let '(r', m2) := config_mmio_write alive pagesize e data m in
     m1 = put_config_address a m2 /\ (r = Crashed <-> r' = Crashed)).
Proof.
  intros Hd Hr Hoff a e. assert (H8 : in_width 8 0) by done. assert (H3 : in_width 3 0) by done.
  destruct (parse_mmio 0 device 0 register (Z.of_nat off)) as (He & Hmod & Hparse); try done;
    [unfold in_width in *; lia|lia|]. fold e in He, Hmod, Hparse.
  destruct (parse_io 0 device 0 register H8 Hd H3 Hr) as (Ha & _). fold a in Ha. split.
  - intros len Hlen. rewrite (io_read_device _ device register) by (done || lia).
    rewrite read_device_port. unfold config_mmio_read. rewrite Hmod, decide_False by lia.
    unfold mmio_config_space_read. rewrite Hparse, decide_False by tauto.
    destruct (read_device device register m) as [v m']. by rewrite decide_True by lia.
  - intros data. rewrite (bind_done _ _ _ _ _ (io_select alive pagesize m a Ha)).
    rewrite (io_write_device alive pagesize _ device register) by (done || lia). unfold config_mmio_write.
    rewrite (decide_False (P := 2 ^ 32 - 1 < e)) by lia. unfold mmio_config_space_write. rewrite Hmod, Nat2Z.id. case_decide; [done|].
    rewrite Hparse, decide_False, write_device_port by tauto. unfold bind.
    destruct (write_device alive pagesize device register off data m) as [[] m'] eqn:Hw; cbn; done.
Qed.

(** ** An attached device *)
Section attached.
Context {VM : Type} `{VmCalls VM} {G : Type} `{GroupLaws G} (alive : nat -> bool) (pagesize : Z).
Abbreviation AM := (AddressManager nat VM).
Abbreviation PV := (PvPanicDevice G).
Implicit Types (am : AM) (d : PV) (h : nat).

Abbreviation hole am := (mmio_hole_address_space (am_allocator am)).
Abbreviation mask32 := (type_mask Memory32BitRegion).

(** The region of device [h] is at [base], in the configuration space, for the
    device, in the allocator, on the bus and in the device tree. *)
Record attached h (x : Z) am d : Prop := {
  at_ok : manager_ok am;
  at_end : end_ (hole am) + 3 <= 2 ^ 64;
  at_range : (x, PVPANIC_DEVICE_MMIO_SIZE) ∈ ranges (hole am);
  at_routed : (x, (PVPANIC_DEVICE_MMIO_SIZE, h)) ∈ am_mmio_bus am;
  at_alive : alive h = true;
  at_wf : pci_wf (pv_configuration d);
  at_bar : exists a r, bar32 (pv_configuration d) 0 Memory32BitRegion a 1 r /\ Z.land a mask32 = x;
  at_regions : pv_bar_regions d = [pvpanic_bar x];
  at_node : exists node, device_tree am !! pv_id d = Some node /\ node_resources node = [bar_resource (pvpanic_bar x)];
}.

Lemma attached_addr h x am d : attached h x am d -> config_bar_addr d = Done x.
Proof. intros Hat. destruct (at_bar _ _ _ _ Hat) as (a & r & Hb & <-). unfold config_bar_addr. by rewrite (bar32_addr _ _ _ _ _ _ Hb). Qed.

Lemma attached_request h x am d : attached h x am d -> request_ok (hole am) PVPANIC_DEVICE_MMIO_SIZE PVPANIC_DEVICE_MMIO_SIZE.
Proof.
  intros Hat. pose proof (at_end _ _ _ _ Hat). split; [done|]. split; [done|]. split; [done|].
  unfold PVPANIC_DEVICE_MMIO_SIZE. lia.
Qed.

(** An address of the register is a multiple of 16. *)
Lemma mask32_value a : in_width 32 a -> Z.land a mask32 = a / 16 * 16 /\ in_width 32 (Z.land a mask32).
Proof.
  intros Ha. split; [|apply land_in_width_r; [done|apply type_mask_width]].
  change 16 with (2 ^ 4). rewrite <- Z.shiftr_div_pow2, <- Z.shiftl_mul_pow2 by done.
  apply (bits_eq 32); [done|apply land_in_width_r; [done|apply type_mask_width]| |].
  - rewrite Z.shiftl_mul_pow2, Z.shiftr_div_pow2 by done. unfold in_width in *. Z.to_euclidean_division_equations. lia.
  - intros i Hi. rewrite Z.land_spec, type_mask_bit by done. cbn [low_bits]. case_bool_decide as Hle.
    + rewrite Z.shiftl_spec, Z.shiftr_spec by lia. rewrite andb_true_r. f_equal. lia.
    + rewrite Z.shiftl_spec_low by lia. apply andb_false_r.
Qed.

(** What is true of the whole machine after the region moved from [x] to [y]. *)
Definition routed_at h x y am am' : Prop :=
  bus_moved (am_mmio_bus am) (am_mmio_bus am') x y PVPANIC_DEVICE_MMIO_SIZE h /\ am_io_bus am' = am_io_bus am /\
  am_vm am' = am_vm am.

Lemma move_attached h x y am d d1 :
  attached h x am d -> pv_id d1 = pv_id d -> pv_bar_regions d1 = pv_bar_regions d -> pci_wf (pv_configuration d1) ->
  (exists a r, bar32 (pv_configuration d1) 0 Memory32BitRegion a 1 r /\ Z.land a mask32 = y) ->
  in_width 64 y -> (PVPANIC_DEVICE_MMIO_SIZE | y) -> free_at (free x PVPANIC_DEVICE_MMIO_SIZE (hole am)) y PVPANIC_DEVICE_MMIO_SIZE ->
  exists am' d', move_bar alive pagesize (mkParams x y PVPANIC_DEVICE_MMIO_SIZE Memory32BitRegion) (am, PvPanic d1) =
      (Done tt, (am', PvPanic d')) /\ pv_configuration d' = pv_configuration d1 /\ pv_id d' = pv_id d /\
    attached h y am' d' /\ routed_at h x y am am'.
Proof.
  intros Hat Hid Hregs Hwf Hbar Hy Hdiv Hfree. pose proof (attached_request _ _ _ _ Hat) as Hreq.
  destruct Hat as [Hok Hend Hrange Hrouted Halive _ _ Hreg (node & Hnode & Hres)].
  destruct (move_mmio32 alive pagesize am (hole am) h x _ y Hok eq_refl Hrange Hrouted Halive Hreq Hy)
    as [(_ & _ & am1 & Hrun & Hok1 & Hmv & Hio & Htree & Hvm & al & al1 & [= <-] & [= <-] & Hb & He & Hel)|[[Hno|Hlast] _]].
  2: { by destruct Hno. }
  2: { destruct Hfree as (_ & Hhi & _). destruct (free_base x PVPANIC_DEVICE_MMIO_SIZE (hole am)) as [_ He].
       rewrite He in Hhi. unfold PVPANIC_DEVICE_MMIO_SIZE in Hhi. lia. }
  unfold move_bar. cbn [old_base new_base bar_len region_type].
  erewrite bind_done by (unfold on_manager; eapply zoom_run; exact Hrun). rewrite bind_get. cbn [pd_id pci_dev_device snd].
  rewrite Hid. erewrite bind_done.
  2: { unfold on_manager. eapply zoom_run. cbn [fst]. unfold move_in_tree. rewrite bind_get, Htree, Hnode, Hres.
       cbn [move_resource bar_resource pvpanic_bar bc_region_type bc_addr type_of region_of]. rewrite decide_True by done.
       rewrite bind_modify. reflexivity. }
  erewrite bind_done by (unfold move_virtio; by rewrite bind_get).
  unfold device_call. cbn [snd pd_move_bar pci_dev_device pvpanic_move_bar fst]. eexists _, _. split; [reflexivity|].
  split; [done|]. split; [done|]. split; [|by split].
  split; try done.
  - destruct Hok1 as [? ? ?]. by split.
  - cbn. by rewrite He.
  - cbn. apply Hel. by left.
  - cbn. apply Hmv.
  - cbn. rewrite Hregs, Hreg. cbn. by rewrite decide_True.
  - cbn. rewrite Hid, lookup_insert_eq. by eexists.
Qed.
Lemma attached_configuration h x am d c :
  attached h x am d -> pci_wf c -> (exists a r, bar32 c 0 Memory32BitRegion a 1 r /\ Z.land a mask32 = x) ->
  attached h x am (set_pv_configuration c d).
Proof. intros [] Hwf Hbar. by split. Qed.

Lemma routed_same h x am d : attached h x am d -> routed_at h x x am am.
Proof.
  intros Hat. pose proof (ag_bus _ _ (mo_mmio _ (at_ok _ _ _ _ Hat) 0%nat _ eq_refl)) as Hbus.
  pose proof (at_routed _ _ _ _ Hat) as Hin. split; [|done]. split; [auto|]. split; [done|].
  assert (Hhere : forall addr, x <= addr < x + PVPANIC_DEVICE_MMIO_SIZE -> placed (am_mmio_bus am) addr x h)
    by (intros addr Ha; by eexists).
  intros addr b d'. split; [|intros [[? _]|(-> & -> & ?)]; auto].
  intros Hpl. destruct (decide (b = x)) as [->|]; [|by left]. right. pose proof Hpl as (len & Hin' & Hb).
  apply (bt_get_elem _ _ _ (bk_sorted _ Hbus)) in Hin, Hin'. rewrite Hin in Hin'. by simplify_eq.
Qed.

(** A write of an address to the register of the region: the region moves, then
    the register is written. *)
Lemma reprogram_attached h x am d a :
  attached h x am d -> in_width 32 a -> a <> U32_MAX ->
  let y := Z.land a mask32 in
  free_at (free x PVPANIC_DEVICE_MMIO_SIZE (hole am)) y PVPANIC_DEVICE_MMIO_SIZE ->
  exists am' d', reprogram alive pagesize 4 (le_bytes 4 a) (am, PvPanic d) = (Done tt, (am', PvPanic d')) /\
    attached h y am' d' /\ routed_at h x y am am'.
Proof.
  intros Hat Ha Hne y Hfree. destruct (mask32_value a Ha) as [Hy Hyw]. fold y in Hy, Hyw.
  destruct (at_bar _ _ _ _ Hat) as (a0 & r0 & Hb0 & Hx).
  destruct (bar32_detect _ 0 _ _ _ _ a (at_wf _ _ _ _ Hat) Hb0 ltac:(done) ltac:(lia) Ha Hne)
    as (c1 & a1 & Hdet & Hwf1 & Hb1 & Ha1). fold y in Hdet, Ha1. rewrite Hx in Hdet.
  unfold reprogram. erewrite bind_done.
  2: { eapply zoom_run. cbn [snd pd_detect_bar_reprogramming pci_dev_device]. unfold on_pvpanic, on_configuration.
       rewrite (zoom_run _ _ _ _ _ _ Hdet). reflexivity. }
  cbn [fst]. case_decide as Hyx.
  - exists am, (set_pv_configuration c1 d). split; [done|]. rewrite Hyx in *.
    split; [apply attached_configuration; eauto|by eapply routed_same].
  - destruct (move_attached h x y am d (set_pv_configuration c1 d)) as (am' & d' & Hrun & _ & _ & Hat' & Hrt); try done.
    + eauto.
    + unfold in_width in *. lia.
    + exists (a / 16 * 8). rewrite Hy. unfold PVPANIC_DEVICE_MMIO_SIZE. lia.
    + exists am', d'. split; [|done]. unfold attempt. change (2 ^ 1) with PVPANIC_DEVICE_MMIO_SIZE.
      unfold bind. by rewrite Hrun.
Qed.

Lemma write_attached h x am d a :
  attached h x am d -> in_width 32 a -> a <> U32_MAX ->
  let y := Z.land a mask32 in
  free_at (free x PVPANIC_DEVICE_MMIO_SIZE (hole am)) y PVPANIC_DEVICE_MMIO_SIZE ->
  exists am' d', device_config_write alive pagesize 4 0 (le_bytes 4 a) (am, PvPanic d) = (Done None, (am', PvPanic d')) /\
    attached h y am' d' /\ routed_at h x y am am' /\ Z.land (read_reg 4 (pv_configuration d')) mask32 = y.
Proof.
  intros Hat Ha Hne y Hfree. destruct (reprogram_attached h x am d a Hat Ha Hne Hfree) as (am' & d' & Hrun & Hat' & Hrt).
  fold y in Hat', Hrt. destruct (at_bar _ _ _ _ Hat') as (a1 & r1 & Hb1 & Ha1).
  destruct (bar32_store _ 0 _ _ _ _ a (at_wf _ _ _ _ Hat') Hb1 Ha Hne) as (c2 & r2 & Hst & Hwf2 & Hb2 & Hr2).
  exists am', (set_pv_configuration c2 d'). unfold device_config_write. rewrite (bind_done _ _ _ _ _ Hrun). split.
  - unfold zoom. cbn [snd fst pd_write_config_register pci_dev_device]. unfold on_pvpanic, on_configuration, zoom.
    by rewrite (bind_done _ _ _ _ _ Hst).
  - split; [apply attached_configuration; eauto|]. split; [done|]. cbn [pv_configuration set_pv_configuration].
    unfold read_reg. by rewrite (b32_register _ _ _ _ _ _ Hb2 : registers c2 !! 4%nat = Some r2).
Qed.
End attached.

(** C8: A guest moves a region through the ports, and everything follows.  For
    a pvpanic device attached to the machine, when the guest writes the address
    of its register and then a new address, and the range there is free: the
    device has the new address in its configuration space, the register reads as
    that address, the memory bus routes exactly the new range to the device and
    leaves all other devices where they were, the allocator and the device tree
    have the new range, and the device is attached there as before, so that it
    can be moved again. *)
Theorem guest_moves_region {VM G} `{VmCalls VM} `{GroupLaws G} (alive : nat -> bool) (pagesize : Z)
    (m : Machine VM (pci_dev G)) (device : Z) h d x a :
  in_width 5 device -> device_at device m = Some (h, PvPanic d) -> attached alive h x (mc_manager m) d ->
  in_width 32 a -> a <> U32_MAX ->
  let y := Z.land a (type_mask Memory32BitRegion) in
  free_at (free x 2 (mmio_hole_address_space (am_allocator (mc_manager m)))) y 2 ->
  exists m' d',
    (config_io_write alive pagesize 0 (le_bytes 4 (io_address 0 device 0 4)) ;;;
     config_io_write alive pagesize 4 (le_bytes 4 a)) m = (Done None, m') /\
    device_at device m' = Some (h, PvPanic d') /\ attached alive h y (mc_manager m') d' /\
    config_bar_addr d' = Done y /\ Z.land (read_reg 4 (pv_configuration d')) (type_mask Memory32BitRegion) = y /\
    (forall addr b off h', resolve alive addr (am_mmio_bus (mc_manager m')) = Some (b, off, h') <->
       (resolve alive addr (am_mmio_bus (mc_manager m)) = Some (b, off, h') /\ b <> x) \/
       (b = y /\ off = addr - y /\ h' = h /\ y <= addr < y + 2)).
Proof.
  intros Hdev Hat Hatt Ha Hne y Hfree.
  destruct (parse_io 0 device 0 4 ltac:(done) Hdev ltac:(done) ltac:(done)) as (Haddr & _).
  rewrite (bind_done _ _ _ _ _ (io_select alive pagesize m _ Haddr)).
  destruct (write_attached alive pagesize h x _ d a Hatt Ha Hne Hfree) as (am' & d' & Hrun & Hatt' & Hrt & Hreg).
  pose proof (io_write_device alive pagesize (put_config_address (io_address 0 device 0 4) m) device 4 0 (le_bytes 4 a)
    eq_refl Hdev ltac:(done) ltac:(lia)) as Hwrite. change (4 + Z.of_nat 0) with 4 in Hwrite.
  rewrite Hwrite, decide_False by (rewrite le_bytes_length; lia). rewrite write_device_port. unfold write_device.
  rewrite Hat. change (Z.to_nat 4) with 4%nat. rewrite Hrun. eexists _, d'. split; [reflexivity|].
  assert (Hh : pb_devices (mc_bus m) !! device = Some h).
  { unfold device_at in Hat. destruct (pb_devices (mc_bus m) !! device) as [h0|]; [|done]. cbn in Hat.
    destruct (mc_heap m !! h0); cbn in Hat; by simplify_eq. }
  split; [|split; [exact Hatt'|split; [by eapply attached_addr|split; [exact Hreg|]]]].
  - unfold device_at. cbn. rewrite Hh. cbn. by rewrite lookup_insert_eq.
  - intros addr b off h'. cbn [mc_manager put_config_address set_manager].
    pose proof (ag_bus _ _ (mo_mmio _ (at_ok _ _ _ _ _ Hatt) 0%nat _ eq_refl)) as Hbus.
    pose proof (ag_bus _ _ (mo_mmio _ (at_ok _ _ _ _ _ Hatt') 0%nat _ eq_refl)) as Hbus'.
    rewrite (resolve_spec _ _ _ _ _ _ Hbus), (resolve_spec _ _ _ _ _ _ Hbus').
    destruct Hrt as ((_ & _ & Hpl) & _). rewrite Hpl. pose proof (at_alive _ _ _ _ _ Hatt). split.
    + intros ([[? ?]|(-> & -> & ?)] & -> & ?); [by left|by right].
    + intros [[(? & -> & ?) ?]|(-> & -> & -> & ?)]; (split; [|done]); [by left|by right].
Qed.
