(* ===== verification/PciAttach.v ===== *)
(** Attaching the pvpanic device: it gets a slot of the bus and a range of
    addresses, and is then known under that range everywhere. *)
From stdpp Require Import base numbers gmap strings sets list.
From S2P Require Import Prelude Bytes BTree AddressAllocator DeviceBus VmResources IrqGroup Msix MsixProofs PciConfig PciConfigProofs PciCaps PciBars PciBdf PciDevice AddressManager PciBus PvPanic DeviceManager AddressManagerProofs PciRelocation.
#[local] Open Scope Z_scope.

(** ** Slots *)
Lemma first_unused_spec ids :
  match first_unused ids with
  | Some i => ids !! i = Some false /\ forall j, (j < i)%nat -> ids !! j = Some true
  | None => forall j b, ids !! j = Some b -> b = true
  end.
Proof.
  induction ids as [|[] ids IH]; cbn; [intros j b Hj; by rewrite lookup_nil in Hj| |split; [done|intros j Hj; lia]].
  destruct (first_unused ids) as [i|]; cbn.
  - destruct IH as [Hi Hb]. split; [done|]. intros [|j] Hj; [done|]. apply Hb. lia.
  - intros [|j] b Hj; cbn in Hj; [congruence|by eapply IH].
Qed.

Section attach.
Context {VM : Type} `{VmCalls VM} {G : Type} `{GroupLaws G} (pagesize : Z).
Abbreviation MC := (Machine VM (pci_dev G)).
Implicit Types (m : MC) (h : nat).

Lemma next_bdf_run m i :
  first_unused (pb_device_ids (mc_bus m)) = Some i -> (i < 32)%nat ->
  exists bdf, next_device_bdf m =
      (Done bdf, set_bus (mkPciBus (pb_devices (mc_bus m)) (<[i := true]> (pb_device_ids (mc_bus m)))) m) /\
    bdf_device bdf = Z.of_nat i.
Proof.
  intros Hi Hlt. exists (bdf_new 0 0 (Z.of_nat i) 0). split.
  - unfold next_device_bdf. erewrite bind_done.
    2: { unfold on_bus. eapply zoom_run, map_err_done. unfold next_device_id. rewrite Hi. reflexivity. }
    rewrite wrap_small by (unfold in_width; lia). done.
  - destruct (bdf_new_fields 0 0 (Z.of_nat i) 0) as (_ & _ & _ & Hd & _); try done. unfold in_width. lia.
Qed.

Lemma pvpanic_new_ok id state :
  exists d, pvpanic_new (G := G) id state = Done d /\ pv_id d = id /\ pci_wf (pv_configuration d) /\
    bars (pv_configuration d) !! 0%nat = Some bar_default.
Proof.
  unfold pvpanic_new. set (c := config_new _ _ _ _ _ _ _ _ _ _).
  destruct (write_config_register_ok c 1 0 [0x03; 0x01]) as (c' & Hrun & Hwf & _).
  - apply config_new_wf; done.
  - lia.
  - repeat constructor; done.
  - assert (Hbars : bars (write_config_register 1 0 [0x03; 0x01] c).2 !! 0%nat = Some bar_default) by (by vm_compute).
    rewrite Hrun in Hbars |- *. by eexists.
Qed.

Lemma pvpanic_bar_added (c : PciConfiguration G) x :
  pci_wf c -> bars c !! 0%nat = Some bar_default -> 0 <= x -> x + 2 <= 2 ^ 32 -> (16 | x) ->
  exists c1 a r, add_pci_bar (pvpanic_bar x) c = (Done tt, c1) /\ pci_wf c1 /\ bar32 c1 0 Memory32BitRegion a 1 r /\
    Z.land a (type_mask Memory32BitRegion) = x.
Proof.
  intros Hwf Hb Hx Hfit [q Hq]. assert (Hx32 : in_width 32 x) by (unfold in_width; lia).
  assert (Hreg : add_bar_region (pvpanic_bar x) (x + (2 - 1)) c =
    (Done tt, put_bar 0 (mkBar 0 (2 ^ 32 - 2) false None) c)).
  { unfold add_bar_region. cbn [pvpanic_bar bc_idx bc_size bc_addr bc_region_type].
    rewrite bind_get, (at_index_ok _ _ _ Hb), bind_ret. by rewrite decide_False by (unfold U32_MAX; lia). }
  assert (Hrun : exists c1, add_pci_bar (pvpanic_bar x) c = (Done tt, c1)).
  { unfold add_pci_bar. cbn [pvpanic_bar bc_idx]. rewrite bind_get, (at_index_ok _ _ _ Hb), bind_ret.
    cbn [bar_default bar_used bc_size bc_addr]. rewrite decide_False by (intros Hones; by apply Hones).
    rewrite decide_False by (unfold NUM_BAR_REGS; lia). unfold checked_add.
    change (bc_addr (pvpanic_bar x) + (bc_size (pvpanic_bar x) - 1)) with (x + (2 - 1)). rewrite decide_True by lia. rewrite (bind_done _ _ _ _ _ Hreg). eexists.
    apply (add_low_ok (pvpanic_bar x) c _ (mkBar 0 (2 ^ 32 - 2) false None)); [|done].
    cbn. apply list_lookup_insert_eq. by eapply lookup_lt_Some. }
  destruct Hrun as [c1 Hrun]. exists c1.
  destruct (bar32_added (pvpanic_bar x) c c1 1) as [Hwf1 Hbar]; try done; [cbn; lia|cbn; unfold in_width in *; lia|].
  eexists _, _. split; [done|]. split; [done|]. split; [exact Hbar|].
  pose proof (bar_value_masked (pvpanic_bar x)) as Hval. cbn [pvpanic_bar bc_region_type bc_addr] in Hval.
  cbn [bc_region_type pvpanic_bar]. etrans; [exact Hval|]. rewrite wrap_small by done.
  destruct (mask32_value x Hx32) as [-> _]. rewrite Hq, Z.div_mul; lia.
Qed.
Lemma allocate_bars_run s al (d : PvPanicDevice G) x hole' :
  allocate None PVPANIC_DEVICE_MMIO_SIZE (Some pagesize) (mmio_hole_address_space s) = (Some x, hole') ->
  pci_wf (pv_configuration d) -> bars (pv_configuration d) !! 0%nat = Some bar_default ->
  0 <= x -> x + 2 <= 2 ^ 32 -> (16 | x) ->
  exists c1 a r, pvpanic_allocate_bars pagesize None (s, al, d) =
      (Done [pvpanic_bar x], (set_hole hole' s, al, set_pv_bars [pvpanic_bar x] (set_pv_configuration c1 d))) /\
    pci_wf c1 /\ bar32 c1 0 Memory32BitRegion a 1 r /\ Z.land a (type_mask Memory32BitRegion) = x.
Proof.
  intros Hal Hwf Hb Hx Hfit Hdiv. destruct (pvpanic_bar_added _ x Hwf Hb Hx Hfit Hdiv) as (c1 & a & r & Hrun & ? & ? & ?).
  exists c1, a, r. split; [|done]. unfold pvpanic_allocate_bars, allocate_mmio_hole_addresses. cbn [from_option id default].
  rewrite Hal. unfold on_configuration. by rewrite (zoom_run _ _ _ _ _ _ Hrun).
Qed.

Lemma register_one (am : AddressManager nat VM) h x bus :
  bus_insert h x PVPANIC_DEVICE_MMIO_SIZE (am_mmio_bus am) = (Ok tt, bus) ->
  register_mapping h [pvpanic_bar x] am = (Done tt, set_mmio_bus bus am).
Proof.
  intros Hins. unfold register_mapping, bind. cbn [bc_region_type bc_addr bc_size pvpanic_bar]. by rewrite Hins.
Qed.

(** Adding a device whose range is free. *)
Lemma add_pci_device_run m h bdf d0 al0 x c1 a r alive :
  let am := mc_manager m in
  let hole := mmio_hole_address_space (am_allocator am) in
  let hole' := set_ranges (bt_insert x 2 (ranges hole)) hole in
  let d1 := set_pv_bars [pvpanic_bar x] (set_pv_configuration c1 d0) in
  manager_ok am -> mc_heap m !! h = Some (PvPanic d0) -> pci_mmio_allocators am !! 0%nat = Some al0 ->
  pvpanic_allocate_bars pagesize None (am_allocator am, al0, d0) =
    (Done [pvpanic_bar x], (set_hole hole' (am_allocator am), al0, d1)) ->
  pci_wf c1 -> bar32 c1 0 Memory32BitRegion a 1 r -> Z.land a (type_mask Memory32BitRegion) = x ->
  free_at hole x 2 -> end_ hole + 3 <= 2 ^ 64 -> alive h = true ->
  exists m', add_pci_device pagesize h bdf None m = (Done [bar_resource (pvpanic_bar x)], m') /\
    device_at (bdf_device bdf) m' = Some (h, PvPanic d1) /\
    device_tree (mc_manager m') = device_tree am /\
    forall node, node_resources node = [bar_resource (pvpanic_bar x)] ->
      attached alive h x (set_tree (<[pv_id d0 := node]> (device_tree am)) (mc_manager m')) d1.
Proof.
  intros am hole hole' d1 Hok Hheap Hal0 Hbars Hwf Hbar Ha Hfree Hend Halive. unfold add_pci_device.
  destruct (agree_insert hole _ h x 2 (mo_mmio _ Hok 0%nat _ eq_refl) ltac:(lia) Hfree) as (Hins & Hag & _).
  erewrite bind_done.
  2: { unfold device_allocate_bars. fold am. rewrite Hheap, Hal0. unfold map_err. cbn [pd_allocate_bars pci_dev_device on_bars].
       rewrite Hbars. reflexivity. }
  rewrite (list_insert_id _ _ _ Hal0), bind_modify. erewrite bind_done.
  2: { eapply zoom_run, map_err_done, register_one. exact Hins. }
  eexists. split; [reflexivity|]. split.
  { unfold device_at. cbn. rewrite lookup_insert_eq. cbn. by rewrite lookup_insert_eq. }
  split; [done|]. intros node Hnode. destruct (alloc_ok_insert hole x 2) as [_ Hel]; [apply (mo_mmio _ Hok 0%nat _ eq_refl)|lia|done|].
  split; try done.
  - pose proof Hfree as (? & ? & _). eapply (manager_moved am _ 0%nat hole hole' x x 2 h); try done.
    apply (insert_moved hole); [by apply (mo_mmio _ Hok 0%nat)|lia|done].
  - cbn. apply Hel. by left.
  - cbn. apply (elem_of_bt_insert _ _ _ _ (bk_sorted _ (ag_bus _ _ (mo_mmio _ Hok 0%nat _ eq_refl)))). by left.
  - by exists a, r.
  - exists node. split; [by apply lookup_insert_eq|done].
Qed.
(** Attaching the device at the range that the allocator gives out. *)
Lemma attach_run m h state al0 j x alive :
  let am := mc_manager m in
  let hole := mmio_hole_address_space (am_allocator am) in
  manager_ok am -> alive h = true -> device_tree am !! PVPANIC_DEVICE_NAME = None ->
  pci_mmio_allocators am !! 0%nat = Some al0 -> first_unused (pb_device_ids (mc_bus m)) = Some j -> (j < 32)%nat ->
  allocate None 2 (Some pagesize) hole = (Some x, set_ranges (bt_insert x 2 (ranges hole)) hole) ->
  free_at hole x 2 -> (16 | x) -> end_ hole < 2 ^ 32 ->
  exists m' d, add_pvpanic_device pagesize h state m = (Done tt, m') /\
    device_at (Z.of_nat j) m' = Some (h, PvPanic d) /\ attached alive h x (mc_manager m') d.
Proof.
  intros am hole Hok Halive Htree Hal0 Hj Hj32 Hax Hfx Hdx Hend.
  destruct (next_bdf_run m j Hj Hj32) as (bdf & Hbdf & Hdev).
  destruct (pvpanic_new_ok PVPANIC_DEVICE_NAME state) as (d0 & Hnew & Hid & Hwf0 & Hb0).
  pose proof Hfx as (Hlo & Hhi & _). pose proof (ao_base _ (ag_alloc _ _ (mo_mmio _ Hok 0%nat _ eq_refl))).
  destruct (allocate_bars_run (am_allocator am) al0 d0 x _ Hax Hwf0 Hb0) as (c1 & a & r & Hbars & Hwf1 & Hbar & Ha);
    [unfold hole, am in *; lia|unfold hole, am in *; lia|done|].
  set (m2 := set_device h (PvPanic d0) (set_bus (mkPciBus (pb_devices (mc_bus m)) (<[j:=true]> (pb_device_ids (mc_bus m)))) m)).
  destruct (add_pci_device_run m2 h bdf d0 al0 x c1 a r alive) as (m' & Hrun & Hat & Htr & Hatt); try done.
  { cbn. apply lookup_insert_eq. }
  { change (end_ hole + 3 <= 2 ^ 64). lia. }
  unfold add_pvpanic_device. erewrite bind_done.
  2: { unfold pci_resources. rewrite bind_get. fold am. rewrite Htree, (bind_done _ _ _ _ _ Hbdf). reflexivity. }
  cbn beta iota. rewrite Hnew, bind_modify. fold m2. rewrite (bind_done _ _ _ _ _ Hrun).
  eexists _, _. split; [reflexivity|]. split; [by rewrite <- Hdev|].
  cbn [mc_manager set_manager]. rewrite Htr, <- Hid. by apply Hatt.
Qed.
End attach.

(** C32: Attaching the pvpanic device.  On a machine whose allocators agree with
    its buses, with a free slot on the PCI bus and a free page below 4 GiB: the
    device gets the first free slot, and a free range aligned to a page, and is
    attached there, in its configuration space, in the allocator, on the memory
    bus and in the device tree alike. *)
Theorem attach_pvpanic {VM G} `{VmCalls VM} `{GroupLaws G} (alive : nat -> bool) (pagesize : Z)
    (m : Machine VM (pci_dev G)) h state al0 i y :
  let am := mc_manager m in
  let hole := mmio_hole_address_space (am_allocator am) in
  manager_ok am -> alive h = true -> device_tree am !! PVPANIC_DEVICE_NAME = None ->
  pci_mmio_allocators am !! 0%nat = Some al0 -> length (pb_device_ids (mc_bus m)) = NUM_DEVICE_IDS ->
  pb_device_ids (mc_bus m) !! i = Some false ->
  request_ok hole 2 pagesize -> (16 | pagesize) -> end_ hole < 2 ^ 32 -> (pagesize | y) -> free_at hole y 2 ->
  exists m' j x d, add_pvpanic_device pagesize h state m = (Done tt, m') /\
    pb_device_ids (mc_bus m) !! j = Some false /\ (forall k, (k < j)%nat -> pb_device_ids (mc_bus m) !! k = Some true) /\
    (pagesize | x) /\ free_at hole x 2 /\
    device_at (Z.of_nat j) m' = Some (h, PvPanic d) /\ attached alive h x (mc_manager m') d.
Proof.
  intros am hole Hok Halive Htree Hal0 Hlen Hslot Hreq Hpage Hend Hdiv Hfree.
  pose proof (first_unused_spec (pb_device_ids (mc_bus m))) as Hfirst.
  destruct (first_unused _) as [j|] eqn:Hj; [|by specialize (Hfirst i false Hslot)].
  destruct Hfirst as [Hjf Hbefore]. assert (Hj32 : (j < 32)%nat).
  { apply lookup_lt_Some in Hjf. by rewrite Hlen in Hjf. }
  pose proof (ag_alloc _ _ (mo_mmio _ Hok 0%nat _ eq_refl)) as Hal.
  destruct (allocate_first 2 pagesize hole y Hal Hreq Hdiv Hfree) as (x & Hax & Hdx & Hfx).
  destruct (attach_run pagesize m h state al0 j x alive) as (m' & d & ? & ? & ?); try done; [by etrans|].
  by exists m', j, x, d.
Qed.

(** ** Examples *)
#[local] Existing Instances example_host example_host_accepts.
#[local] Instance unit_vm : VmCalls unit := {|
  vm_register_ioevent _ _ v := (true, v);
  vm_unregister_ioevent _ _ v := (true, v);
  vm_create_user_memory_region _ v := (true, v);
  vm_remove_user_memory_region _ v := (true, v);
|}.

Definition example_machine : Machine unit (pci_dev MsiInterruptGroup) :=
  mkMachine {[0%nat := RootBridge (pci_root_new None)]} (pci_bus_new 0) example_manager 0.

Lemma attach_pvpanic_witness :
  exists m' j x d, add_pvpanic_device 4096 7 None example_machine = (Done tt, m') /\
    pb_device_ids (mc_bus example_machine) !! j = Some false /\
    device_at (Z.of_nat j) m' = Some (7%nat, PvPanic d) /\ attached (fun _ => true) 7 x (mc_manager m') d.
Proof.
  destruct (attach_pvpanic (fun _ => true) 4096 example_machine 7 None
    (mkAllocator 1048576 1114111 [(1048576, 4096); (1114112, 0)]) 1 20480)
    as (m' & j & x & d & ? & ? & _ & _ & _ & ? & ?); try reflexivity.
  - apply example_manager_ok.
  - split; [lia|]. split; [split; [lia|reflexivity]|]. split; [reflexivity|vm_compute; congruence].
  - exists 256. reflexivity.
  - exists 5. reflexivity.
  - split; [cbn; lia|]. split; [cbn; lia|]. intros a n Hin. cbn in Hin. rewrite !elem_of_cons in Hin.
    destruct Hin as [[= -> ->]|[[= -> ->]|Hin]]; [lia|lia|by apply elem_of_nil in Hin].
  - by exists m', j, x, d.
Defined.

Definition example_attached : Machine unit (pci_dev MsiInterruptGroup) :=
  (add_pvpanic_device 4096 7 None example_machine).2.

Lemma example_attached_ok :
  exists d, device_at 1 example_attached = Some (7%nat, PvPanic d) /\
    attached (fun _ => true) 7 61440 (mc_manager example_attached) d.
Proof.
  destruct (attach_run 4096 example_machine 7 None (mkAllocator 1048576 1114111 [(1048576, 4096); (1114112, 0)]) 1 61440
    (fun _ => true)) as (m' & d & Hrun & Hdev & Hatt); try done; [apply example_manager_ok|lia| |by exists 3840|].
  - split; [cbn; lia|]. split; [cbn; lia|]. intros a n Hin. cbn in Hin. rewrite !elem_of_cons in Hin.
    destruct Hin as [[= -> ->]|[[= -> ->]|Hin]]; [lia|lia|by apply elem_of_nil in Hin].
  - exists d. unfold example_attached. by rewrite Hrun.
Qed.

Lemma example_attached_free :
  free_at (free 61440 2 (mmio_hole_address_space (am_allocator (mc_manager example_attached)))) 32768 2.
Proof.
  assert (Hhole : free 61440 2 (mmio_hole_address_space (am_allocator (mc_manager example_attached))) =
    mkAllocator 16384 65535 [(16384, 4096); (65536, 0)]) by (by vm_compute).
  rewrite Hhole. clear Hhole. split; [cbn; lia|]. split; [cbn; lia|]. intros a n Hin. cbn in Hin. rewrite !elem_of_cons in Hin.
  destruct Hin as [[= -> ->]|[[= -> ->]|Hin]]; [lia|lia|by apply elem_of_nil in Hin].
Qed.

Lemma guest_moves_region_witness :
  exists m' d', (config_io_write (fun _ => true) 4096 0 (le_bytes 4 (io_address 0 1 0 4)) ;;;
     config_io_write (fun _ => true) 4096 4 (le_bytes 4 32768)) example_attached = (Done None, m') /\
    device_at 1 m' = Some (7%nat, PvPanic d') /\ attached (fun _ => true) 7 32768 (mc_manager m') d' /\
    resolve (fun _ => true) 32769 (am_mmio_bus (mc_manager m')) = Some (32768, 1, 7%nat).
Proof.
  destruct example_attached_ok as (d & Hdev & Hatt).
  destruct (guest_moves_region (fun _ => true) 4096 example_attached 1 7 d 61440 32768)
    as (m' & d' & Hrun & Hdev' & Hatt' & _ & _ & Hres);
    [split; [lia|reflexivity]|exact Hdev|exact Hatt|split; [lia|reflexivity]|discriminate|exact example_attached_free|].
  exists m', d'. split; [exact Hrun|]. split; [exact Hdev'|]. split; [exact Hatt'|]. apply Hres. right.
  change (Z.land 32768 (type_mask Memory32BitRegion)) with 32768. lia.
Defined.

Lemma config_mechanisms_agree_witness :
  config_io_read (4 + Z.of_nat 2) 2 (put_config_address (io_address 0 1 0 0) example_attached) =
    (let '(v, m') := config_mmio_read (ecam_address 0 1 0 0 (Z.of_nat 2)) 2 example_attached in
     (v, put_config_address (io_address 0 1 0 0) m')) /\
  (config_mmio_read (ecam_address 0 1 0 0 (Z.of_nat 2)) 2 example_attached).1 = [0x11; 0x00].
Proof.
  split; [|vm_compute; reflexivity].
  apply (config_mechanisms_agree (fun _ => true) 4096 example_attached 1 0 2);
    [split; [lia|reflexivity]|split; [lia|reflexivity]|lia|lia].
Defined.

(** A move that fails is only logged, after the configuration space took the new
    address: the guest and the device then have an address that no bus routes. *)
Lemma failed_move_diverges :
  let '(r, m) := (config_io_write (fun _ => true) 4096 0 (le_bytes 4 (io_address 0 1 0 4)) ;;;
     config_io_write (fun _ => true) 4096 4 (le_bytes 4 16384)) example_attached in
  r = Done None /\ (if device_at 1 m is Some (_, PvPanic d) then config_bar_addr d else Crashed) = Done 16384 /\
  resolve (fun _ => true) 16384 (am_mmio_bus (mc_manager m)) = Some (16384, 0, 3%nat) /\
  resolve (fun _ => true) 61440 (am_mmio_bus (mc_manager m)) = Some (61440, 0, 7%nat).
Proof. vm_compute. auto. Qed.

(** A write of two bytes to the upper half of the port changes the lower half. *)
Lemma half_word_misplaced :
  mc_config_address (set_config_address 2 [0x34; 0x12] (put_config_address 0x80000000 example_machine)) = 0x80001234.
Proof. by vm_compute. Qed.

(** Through the ports, function 1 of a device reads as absent, but a write to it
    reaches the device. *)
Lemma write_ignores_function :
  let m := put_config_address (io_address 0 1 1 15) example_attached in
  (config_io_read 4 4 m).1 = [0xff; 0xff; 0xff; 0xff] /\
  let m' := (config_io_write (fun _ => true) 4096 4 [0x2a] m).2 in
  (config_io_read 4 1 (put_config_address (io_address 0 1 0 15) m')).1 = [0x2a].
Proof. vm_compute. auto. Qed.

(** The size that the guest reads from the register is 16, not 2: the bits that
    a register of this type cannot hold count as part of the region. *)
Lemma pvpanic_size_read :
  let '(_, m) := (config_io_write (fun _ => true) 4096 0 (le_bytes 4 (io_address 0 1 0 4)) ;;;
     config_io_write (fun _ => true) 4096 4 (le_bytes 4 0xffffffff)) example_attached in
  le_value (config_io_read 4 4 m).1 = 2 ^ 32 - 16.
Proof. by vm_compute. Qed.

(** A device that is restored does not get the range it had: the one in its
    resources is not asked for. *)
Lemma restore_changes_range :
  let bdf := bdf_new 0 0 1 0 in
  let node := set_node_bdf (Some bdf) (set_node_resources [bar_resource (pvpanic_bar 32768)] (device_node PVPANIC_DEVICE_NAME)) in
  let m := set_manager (set_tree {[PVPANIC_DEVICE_NAME := node]} example_manager) example_machine in
  let '(r, m') := add_pvpanic_device 4096 7 (Some 3) m in
  r = Done tt /\ resolve (fun _ => true) 32768 (am_mmio_bus (mc_manager m')) = None /\
  resolve (fun _ => true) 61440 (am_mmio_bus (mc_manager m')) = Some (61440, 0, 7%nat).
Proof. vm_compute. auto. Qed.
