(* ===== verification/PathFs.v ===== *)
(** Paths as [std::path] has them, and a file system with symbolic links in which other
    processes are at work: what the path handling of the agent (agent/libs/safe-path,
    agent/rustjail) is written against. *)
From stdpp Require Import base gmap strings list fin_maps.
From Stdlib Require Import Ascii.
From S2P Require Import Prelude HostFs.

(** ** Paths

    A path is the list of its segments between slashes: [/a//b] is an empty segment, [a],
    an empty segment and [b]; the empty path is one empty segment. *)
Notation Path := (list string).

Fixpoint split_path (s : string) : Path :=
  match s with
  | EmptyString => [EmptyString]
  | String c s' =>
    if decide (c = "/"%char) then EmptyString :: split_path s'
    else match split_path s' with [] => [String c EmptyString] | seg :: rest => String c seg :: rest end
  end.

Definition no_path : Path := [EmptyString].
Definition root_path : Path := [EmptyString; EmptyString].
Definition is_absolute (p : Path) : bool := match p with s :: _ :: _ => bool_decide (s = EmptyString) | _ => false end.

Inductive Component := RootDir | CurDir | ParentDir | Normal (n : string).
#[export] Instance Component_eq_dec : EqDecision Component.
Proof. solve_decision. Defined.

(** Empty segments and [.] are skipped, but for a [.] at the start of a path. *)
Definition seg_component (s : string) : option Component :=
  if decide (s = EmptyString \/ s = ".") then None
  else if decide (s = "..") then Some ParentDir
  else Some (Normal s).
Definition components (p : Path) : list Component :=
  (if is_absolute p then [RootDir] else if decide (head p = Some ".") then [CurDir] else []) ++ omap seg_component p.

Definition skipped (s : string) : bool := bool_decide (seg_component s = None).
Fixpoint trim_start (segs : list string) : list string :=
  match segs with
  | [] => []
  | s :: rest => if skipped s then trim_start rest else segs
  end.
Definition trim_end (segs : list string) : list string := reverse (trim_start (reverse segs)).
Definition relative_path (segs : list string) : Path := match segs with [] => no_path | _ => segs end.
Definition absolute_path (segs : list string) : Path := EmptyString :: relative_path segs.

(** [Components::as_path], after some components were taken. *)
Definition as_path (rest : list string) : Path := relative_path (trim_end (trim_start rest)).

(** [Path::join], which is also [PathBuf::push]. *)
Definition join (p q : Path) : Path :=
  if is_absolute q then q
  else if decide (p = no_path) then q
  else if decide (last p = Some EmptyString) then removelast p ++ q
  else p ++ q.

(** [PathBuf::pop] *)
Definition pop (p : Path) : Path :=
  if is_absolute p then
    match trim_end (tail p) with [] => p | body => absolute_path (trim_end (removelast body)) end
  else if decide (head p = Some ".") then
    match trim_end (tail p) with [] => no_path | body => "." :: trim_end (removelast body) end
  else match trim_end p with [] => p | body => relative_path (trim_end (removelast body)) end.

Definition file_name (p : Path) : option string := match last (components p) with Some (Normal n) => Some n | _ => None end.
Definition component_path (c : Component) : Path :=
  match c with RootDir => root_path | CurDir => ["."] | ParentDir => [".."] | Normal n => [n] end.

(** [Path::starts_with] and [Path::strip_prefix] *)
Fixpoint strip_components (base comps : list Component) : option (list Component) :=
  match base, comps with
  | [], _ => Some comps
  | b :: base, c :: comps => if decide (b = c) then strip_components base comps else None
  | _ :: _, [] => None
  end.
Definition starts_with (p base : Path) : bool := match strip_components (components base) (components p) with Some _ => true | None => false end.
Definition strip_prefix (p base : Path) : option Path :=
  (fun comps => relative_path (mjoin (component_path <$> comps))) <$> strip_components (components base) (components p).

(** Paths are equal when their components are. *)
Definition path_eqb (p q : Path) : bool := bool_decide (components p = components q).

(** ** The file system

    The objects by their place: a list of names, from the root.  An object keeps its
    number when it is moved. *)
Inductive Kind := KFile | KDir (mode : Z) | KLink (target : Path).
Record Obj := mkObj { obj_id : Z; obj_kind : Kind }.
#[export] Instance Kind_eq_dec : EqDecision Kind.
Proof. solve_decision. Defined.
#[export] Instance Obj_eq_dec : EqDecision Obj.
Proof. solve_decision. Defined.
Notation Place := (list string).
Notation Fs := (gmap (list string) Obj).

Definition ELOOP : Z := 40.
Definition MAXSYMLINKS : nat := 40.

Section walking.
Context (fs : Fs) (base : Place).

Definition kind_at (p : Place) : option Kind := obj_kind <$> fs !! p.
Definition is_dir_at (p : Place) : bool := match kind_at p with Some (KDir _) => true | _ => false end.
Definition up (p : Place) : Place := if decide (p = base) then base else removelast p.

(** The kernel's walk along a path, for a process whose root is [base].  A link at the
    end is followed if [follow] says so. *)
Fixpoint walk (links : nat) (follow : bool) : Place -> list string -> result Z Place :=
  fix go (pos : Place) (segs : list string) :=
    match segs with
    | [] => Ok pos
    | s :: rest =>
      if negb (is_dir_at pos) then Err ENOTDIR
      else match seg_component s with
      | Some (Normal n) =>
        match kind_at (pos ++ [n]) with
        | None => Err ENOENT
        | Some (KLink target) =>
          if bool_decide (rest = []) && negb follow then Ok (pos ++ [n])
          else match links with
          | O => Err ELOOP
          | S links => walk links follow (if is_absolute target then base else pos) (target ++ rest)
          end
        | Some _ => go (pos ++ [n]) rest
        end
      | Some ParentDir => go (up pos) rest
      | _ => go pos rest
      end
    end.
End walking.

(** Where an object is now. *)
Definition locate (fs : Fs) (id : Z) : option Place :=
  fst <$> List.find (fun e => bool_decide (obj_id e.2 = id)) (map_to_list fs).

(** ** System calls

    Before each call other processes may change the file system, and a call may fail for
    reasons of its own.  Descriptors are numbered in the order in which they are opened,
    and not closed. *)
Record Event := mkEvent { ev_change : Fs -> Fs; ev_error : option Z }.
Record World := mkWorld { w_fs : Fs; w_cwd : Place; w_fds : list Obj; w_umask : Z; w_events : list Event }.

Definition set_w_fs (fs : Fs) (w : World) : World := mkWorld fs (w_cwd w) (w_fds w) (w_umask w) (w_events w).
Definition set_w_events (l : list Event) (w : World) : World := mkWorld (w_fs w) (w_cwd w) (w_fds w) (w_umask w) l.
Definition set_w_fds (l : list Obj) (w : World) : World := mkWorld (w_fs w) (w_cwd w) l (w_umask w) (w_events w).

Notation Sys := (M World Z).

Definition others : Sys unit := fun w =>
  match w_events w with
  | [] => (Done tt, w)
  | e :: rest =>
    let w := set_w_events rest (set_w_fs (ev_change e (w_fs w)) w) in
    match ev_error e with Some errno => (Fail errno, w) | None => (Done tt, w) end
  end.

(** A path is resolved in one step. *)
Definition resolve_path (follow : bool) (p : Path) (w : World) : result Z Place :=
  if decide (p = no_path) then Err ENOENT
  else walk (w_fs w) [] MAXSYMLINKS follow (if is_absolute p then [] else w_cwd w) p.

Definition sys_canonicalize (p : Path) : Sys Path :=
  others ;;; let* w := get in let* place := of_result (resolve_path true p w) in ret (absolute_path place).

Definition sys_read_link (p : Path) : Sys Path :=
  others ;;;
  let* w := get in
  let* place := of_result (resolve_path false p w) in
  match kind_at (w_fs w) place with Some (KLink target) => ret target | _ => throw EINVAL end.

(** [Path::exists]: an error is a no. *)
Definition sys_exists (p : Path) : Sys bool :=
  let* r := catch others in let* w := get in ret (is_ok r && is_ok (resolve_path true p w)).

Definition new_fd (o : Obj) : Sys nat :=
  let* w := get in modify (set_w_fds (w_fds w ++ [o])) ;;; ret (length (w_fds w)).

(** [open] with [O_PATH] *)
Definition sys_open (p : Path) : Sys nat :=
  others ;;;
  let* w := get in
  let* place := of_result (resolve_path true p w) in
  match w_fs w !! place with Some o => new_fd o | None => throw ENOENT end.

Definition sys_dup (fd : nat) : Sys nat :=
  others ;;; let* w := get in let* o := at_index (w_fds w) fd in new_fd o.

(** [fstat]: whether it is a directory. *)
Definition sys_is_dir (fd : nat) : Sys bool :=
  others ;;; let* w := get in let* o := at_index (w_fds w) fd in
  ret (match obj_kind o with KDir _ => true | _ => false end).

(** Reading the link /proc/self/fd/[fd].  That of an object that was removed is no path. *)
Definition sys_fd_path (fd : nat) : Sys Path :=
  others ;;;
  let* w := get in
  let* o := at_index (w_fds w) fd in
  match locate (w_fs w) (obj_id o) with Some place => ret (absolute_path place) | None => throw ENOENT end.

(** The place of a descriptor, for calls relative to it. *)
Definition fd_place (w : World) (fd : nat) : Sys Place :=
  let* o := at_index (w_fds w) fd in
  match locate (w_fs w) (obj_id o) with Some place => ret place | None => throw ENOENT end.

(** [openat] with [O_PATH], of one name *)
Definition sys_openat (fd : nat) (name : string) : Sys nat :=
  others ;;;
  let* w := get in
  let* dir := fd_place w fd in
  let* place := of_result (walk (w_fs w) [] MAXSYMLINKS true dir [name]) in
  match w_fs w !! place with Some o => new_fd o | None => throw ENOENT end.

Definition fresh_id (w : World) : Z :=
  (1 + foldr Z.max 0 ((obj_id <$> w_fds w) ++ ((fun e => obj_id e.2) <$> map_to_list (w_fs w))))%Z.

(** [mkdirat], of one name *)
Definition sys_mkdirat (fd : nat) (name : string) (mode : Z) : Sys unit :=
  others ;;;
  let* w := get in
  let* dir := fd_place w fd in
  if negb (is_dir_at (w_fs w) dir) then throw ENOTDIR
  else match w_fs w !! (dir ++ [name]) with
  | Some _ => throw EEXIST
  | None => modify (set_w_fs (<[dir ++ [name] := mkObj (fresh_id w) (KDir (Z.ldiff mode (w_umask w)))]> (w_fs w)))
  end.
