(* ===== verification/SafePath.v ===== *)
(** The path handling of the agent: the crate agent/libs/safe-path, which resolves paths
    of a container inside its root, pins them and makes directories there, and
    [secure_join] of agent/rustjail/src/mount.rs, with which mounts are made. *)
From stdpp Require Import base gmap strings list fin_maps.
From Stdlib Require Import Ascii.
From S2P Require Import Prelude HostFs PathFs.

Inductive SafeError :=
  OsError (errno : Z) | TooManyLinks | PathChanged | BadComponent | InvalidRoot | NotAbsolute | NotUnderRoot
| AlreadyExists | NotADirectory | ParentMissing.
Notation SP := (M World SafeError).
Notation os m := (map_err OsError m).

(** ** scoped_path_resolver.rs *)
Definition MAX_SYMLINK_DEPTH : nat := 255.

(** A root is given by its path, or by a [PinnedPathBuf], whose path is the link to its
    object in /proc/self/fd. *)
Inductive RootArg := RootPath (p : Path) | RootPinned (handle : nat).
Definition canonicalize_root (root : RootArg) : Sys Path :=
  match root with RootPath p => sys_canonicalize p | RootPinned fd => sys_fd_path fd end.

(** The loop ['restart]; [budget] counts the links that may still be followed. *)
Fixpoint resolve_loop (root : Path) (budget : nat) : Path -> list string -> SP Path :=
  fix next_comp (subpath : Path) (iter : list string) :=
    match iter with
    | [] => ret subpath
    | s :: iter =>
      match seg_component s with
      | Some (Normal n) =>
        let* link := catch (os (sys_read_link (join (join root subpath) [n]))) in
        match link with
        | Ok v =>
          match budget with
          | O => throw TooManyLinks
          | S budget =>
            let curr_path := if is_absolute v then join v (as_path iter) else join (join subpath v) (as_path iter) in
            resolve_loop root budget no_path curr_path
          end
        | Err _ => next_comp (join subpath [n]) iter
        end
      | Some ParentDir => next_comp (pop subpath) iter
      | _ => next_comp subpath iter
      end
    end.

Definition do_scoped_resolve (root : RootArg) (unsafe_path : Path) : SP (Path * Path) :=
  let* root := os (canonicalize_root root) in
  let* subpath := resolve_loop root MAX_SYMLINK_DEPTH no_path unsafe_path in
  ret (root, subpath).

Definition scoped_resolve (root : RootArg) (unsafe_path : Path) : SP Path :=
  let* rp := do_scoped_resolve root unsafe_path in ret rp.2.
Definition scoped_join (root : RootArg) (unsafe_path : Path) : SP Path :=
  let* rp := do_scoped_resolve root unsafe_path in ret (join rp.1 rp.2).

(** ** pinned_path_buf.rs *)
Record PinnedPathBuf := mkPinned { pp_handle : nat; pp_target : Path }.

Definition new_from_file (handle : nat) (orig_path : Path) : SP PinnedPathBuf :=
  let* link_path := os (sys_fd_path handle) in
  if negb (path_eqb link_path orig_path) then throw PathChanged
  else ret (mkPinned handle link_path).

Definition from_path (orig_path : Path) : SP PinnedPathBuf :=
  let* handle := os (sys_open orig_path) in new_from_file handle orig_path.

Definition pinned_new (root : RootArg) (path : Path) : SP PinnedPathBuf :=
  let* path := scoped_join root path in from_path path.

Definition try_clone (p : PinnedPathBuf) : SP PinnedPathBuf :=
  let* fd := os (sys_dup (pp_handle p)) in ret (mkPinned fd (pp_target p)).

(** A name: one normal component, with nothing around it and no NUL in it. *)
Definition prepare_path_component (path_comp : Path) : SP string :=
  match components path_comp with
  | [Normal n] =>
    if negb (bool_decide (path_comp = [n])) then throw BadComponent
    else if contains_char zero n then throw BadComponent
    else ret n
  | _ => throw BadComponent
  end.

Definition open_child (p : PinnedPathBuf) (path_comp : Path) : SP PinnedPathBuf :=
  let* name := prepare_path_component path_comp in
  let* handle := os (sys_openat (pp_handle p) name) in
  new_from_file handle (join (pp_target p) path_comp).

Definition pinned_mkdir (p : PinnedPathBuf) (path_comp : Path) (mode : Z) : SP PinnedPathBuf :=
  let* name := prepare_path_component path_comp in
  os (sys_mkdirat (pp_handle p) name mode) ;;;
  open_child p path_comp.

(** ** scoped_dir_builder.rs *)
Definition DIRECTORY_MODE_DEFAULT : Z := 511.
Definition DIRECTORY_MODE_MASK : Z := 511.
Record ScopedDirBuilder := mkBuilder { b_root : PinnedPathBuf; b_mode : Z; b_recursive : bool }.

Definition builder_new (root : Path) : SP ScopedDirBuilder :=
  let* root := os (sys_canonicalize root) in
  let* root := from_path root in
  let* is_dir := os (sys_is_dir (pp_handle root)) in
  if negb is_dir then throw InvalidRoot
  else ret (mkBuilder root DIRECTORY_MODE_DEFAULT false).
Definition builder_recursive (recursive : bool) (b : ScopedDirBuilder) : ScopedDirBuilder := mkBuilder (b_root b) (b_mode b) recursive.
Definition builder_mode (mode : Z) (b : ScopedDirBuilder) : ScopedDirBuilder :=
  mkBuilder (b_root b) (Z.land mode DIRECTORY_MODE_MASK) (b_recursive b).

(** The loop over the components; the last one is at level [levels]. *)
Fixpoint mkdir_loop (b : ScopedDirBuilder) (levels idx : nat) (comps : list Path) (dir : PinnedPathBuf) : SP PinnedPathBuf :=
  match comps with
  | [] => ret dir
  | comp :: rest =>
    let* child := catch (open_child dir comp) in
    match child with
    | Ok v =>
      let* is_dir := os (sys_is_dir (pp_handle v)) in
      if negb is_dir then throw NotADirectory
      else if negb (b_recursive b) && bool_decide (idx = levels) then throw AlreadyExists
      else mkdir_loop b levels (S idx) rest v
    | Err _ =>
      if negb (b_recursive b) && negb (bool_decide (idx = levels)) then throw ParentMissing
      else let* dir := pinned_mkdir dir comp (b_mode b) in mkdir_loop b levels (S idx) rest dir
    end
  end.

Definition do_mkdir (b : ScopedDirBuilder) (path : Path) : SP PinnedPathBuf :=
  if is_absolute path then crash
  else match file_name path with
  | None => if negb (b_recursive b) then throw AlreadyExists else try_clone (b_root b)
  | Some _ =>
    let levels := (length (components path) - 1)%nat in
    let* dir := try_clone (b_root b) in
    mkdir_loop b levels 0 (component_path <$> components path) dir
  end.

Definition create (b : ScopedDirBuilder) (path : Path) : SP PinnedPathBuf :=
  let* path := scoped_resolve (RootPinned (pp_handle (b_root b))) path in do_mkdir b path.

Definition create_with_unscoped_path (b : ScopedDirBuilder) (path : Path) : SP PinnedPathBuf :=
  if negb (is_absolute path) then throw NotAbsolute
  else
    let* scoped_path := scoped_join (RootPath root_path) path in
    match strip_prefix scoped_path (pp_target (b_root b)) with
    | None => throw NotUnderRoot
    | Some stripped_path => do_mkdir b stripped_path
    end.

(** ** secure_join of mount.rs *)

(** [to_str().unwrap()] panics on text that is not UTF-8. *)
Definition text_of (p : Path) : SP Path := if forallb utf8_valid p then ret p else crash.

(** [format!] of two texts, of which the second one begins with a slash. *)
Definition concat_text (rootfs v : Path) : Path := rootfs ++ tail v.

(** The components of a relative target. *)
Fixpoint push_target (rootfs : Path) (comps : list Path) (path : Path) : SP Path :=
  match comps with
  | [] => ret path
  | it :: rest =>
    let path := join path it in
    let* exists_ := os (sys_exists path) in
    let* path :=
      if (exists_ : bool) then
        let* r := catch (os (sys_canonicalize path)) in
        match r with
        | Err _ => crash
        | Ok path => ret (if starts_with path rootfs then path else rootfs)
        end
      else ret path in
    push_target rootfs rest path
  end.

Fixpoint secure_loop (rootfs : Path) (comps : list Component) (path : Path) : SP Path :=
  match comps with
  | [] => ret path
  | c :: rest =>
    if decide (c = RootDir) then secure_loop rootfs rest path
    else
      let path := join path (component_path c) in
      let* link := catch (os (sys_read_link path)) in
      let* path :=
        match link with
        | Ok v =>
          if is_absolute v then let* text := text_of v in ret (concat_text rootfs text)
          else push_target rootfs (component_path <$> components v) (pop path)
        | Err _ => ret path
        end in
      secure_loop rootfs rest (if decide (last (components path) = Some ParentDir) then pop path else path)
  end.

Definition secure_join (rootfs unsafe_path : Path) : SP Path :=
  let* path := secure_loop rootfs (components unsafe_path) (rootfs ++ [EmptyString]) in text_of path.
