(* ===== verification/SafePathProofs.v ===== *)
(** Resolving paths inside a root (agent/libs/safe-path): whatever the file system
    answers, the result stays below the root; in a file system that nobody changes, it
    is what the kernel finds for a process with that root. *)
From stdpp Require Import base gmap strings list fin_maps.
From Stdlib Require Import Ascii.
From S2P Require Import Prelude HostFs PathFs SafePath.

(** ** Paths of names *)
Definition name (n : string) : Prop := seg_component n = Some (Normal n).
Notation names := (Forall name).
#[export] Instance name_dec n : Decision (name n).
Proof. unfold name. apply _. Defined.

Lemma seg_component_name s n : seg_component s = Some (Normal n) -> s = n /\ name n.
Proof. intros Hs. assert (s = n) as <-; [|done]. unfold seg_component in Hs. by repeat case_decide; simplify_eq. Qed.

Lemma name_not n : name n -> n <> EmptyString /\ n <> "." /\ n <> "..".
Proof. unfold name, seg_component. repeat case_decide; try done; naive_solver. Qed.

Lemma name_skipped n : name n -> skipped n = false.
Proof. intros Hn. unfold skipped. by rewrite Hn, bool_decide_eq_false_2. Qed.

Lemma names_trim_start q : names q -> trim_start q = q.
Proof. intros Hq. destruct q as [|n q]; [done|]. apply Forall_cons in Hq as [Hn _]. cbn. by rewrite name_skipped. Qed.

Lemma names_trim_end q : names q -> trim_end q = q.
Proof. intros Hq. unfold trim_end. rewrite names_trim_start by (by apply Forall_reverse). apply reverse_involutive. Qed.

Lemma names_components q : names q -> omap seg_component q = Normal <$> q.
Proof. induction 1 as [|n q Hn _ IH]; [done|]. cbn. rewrite Hn, IH. done. Qed.

Lemma names_last q : names q -> last q <> Some EmptyString.
Proof.
  intros Hq Hl. apply last_Some in Hl as [l ->]. apply Forall_app in Hq as [_ [Hn _]%Forall_cons]. by destruct (name_not _ Hn).
Qed.

Lemma relative_is_absolute q : names q -> is_absolute (relative_path q) = false.
Proof.
  intros Hq. destruct q as [|n [|m q]]; [done..|]. cbn. apply Forall_cons in Hq as [Hn _]. apply bool_decide_eq_false. by destruct (name_not _ Hn).
Qed.

Lemma relative_head q : names q -> head (relative_path q) <> Some ".".
Proof. intros Hq. destruct q as [|n q]; [done|]. apply Forall_cons in Hq as [Hn _]. destruct (name_not _ Hn) as (_ & Hd & _). cbn. congruence. Qed.

Lemma relative_no_path q : names q -> relative_path q = no_path -> q = [].
Proof. intros Hq Heq. destruct q as [|n q]; [done|]. cbn in Heq. unfold no_path in Heq. simplify_eq. apply Forall_cons in Hq as [Hn _]. by destruct (name_not _ Hn). Qed.

Lemma relative_components q : names q -> components (relative_path q) = Normal <$> q.
Proof.
  intros Hq. unfold components. rewrite relative_is_absolute, decide_False by (done || by apply relative_head).
  destruct q as [|n q]; [done|]. by rewrite <- names_components.
Qed.

Lemma absolute_is_absolute q : is_absolute (absolute_path q) = true.
Proof. by destruct q. Qed.

Lemma absolute_components q : names q -> components (absolute_path q) = RootDir :: (Normal <$> q).
Proof. intros Hq. unfold components. rewrite absolute_is_absolute. cbn. f_equal. destruct q as [|n q]; [done|]. by rewrite <- names_components. Qed.

#[export] Instance Normal_inj : Inj eq eq Normal.
Proof. by intros ?? [= ->]. Qed.

Lemma absolute_inj p q : names p -> names q -> components (absolute_path p) = components (absolute_path q) -> p = q.
Proof. intros Hp Hq Heq. rewrite !absolute_components in Heq by done. by simplify_eq. Qed.

Lemma join_name q n : names q -> join (relative_path q) [n] = relative_path (q ++ [n]).
Proof.
  intros Hq. unfold join. cbn [is_absolute]. destruct (decide (relative_path q = no_path)) as [Hno|Hno].
  - by apply relative_no_path in Hno as ->.
  - destruct q as [|m q]; [done|]. cbn [relative_path] in *. rewrite decide_False by (by apply names_last). done.
Qed.

Lemma pop_names q : names q -> pop (relative_path q) = relative_path (removelast q).
Proof.
  intros Hq. unfold pop. rewrite relative_is_absolute, decide_False by (done || by apply relative_head).
  destruct q as [|n q _] using rev_ind; [done|]. assert (Hne : relative_path (q ++ [n]) = q ++ [n]) by (by destruct q).
  rewrite Hne, (names_trim_end _ Hq), removelast_last. apply Forall_app in Hq as [Hq _].
  destruct (q ++ [n]) as [|m l] eqn:Heq; [by apply app_nil in Heq as [_ ?]|]. rewrite <- Heq, removelast_last. by rewrite names_trim_end.
Qed.

Lemma absolute_not_no_path q : absolute_path q <> no_path.
Proof. by destruct q. Qed.

Lemma join_absolute R q n : names R -> names q -> join (join (absolute_path R) (relative_path q)) [n] = absolute_path (R ++ q ++ [n]).
Proof.
  intros HR Hq. assert (Hj : join (absolute_path R) (relative_path q) = absolute_path (R ++ q) \/
    q = [] /\ R <> [] /\ join (absolute_path R) (relative_path q) = absolute_path R ++ [EmptyString]).
  { unfold join. rewrite relative_is_absolute, decide_False by (done || apply absolute_not_no_path).
    destruct R as [|m R] using rev_ind.
    - left. by destruct q.
    - clear IHR. unfold absolute_path. assert (relative_path (R ++ [m]) = R ++ [m]) as -> by (by destruct R).
      rewrite decide_False.
      2:{ rewrite app_comm_cons, last_snoc. apply Forall_app in HR as [_ [Hm _]%Forall_cons]. intros [= ->]. by destruct (name_not _ Hm). }
      destruct q as [|k q]; [right; split_and!; by destruct R|]. left. cbn. f_equal. by destruct R. }
  unfold join at 1. cbn [is_absolute]. destruct Hj as [-> | (-> & HR0 & ->)].
  - rewrite decide_False by apply absolute_not_no_path. destruct (decide (last (absolute_path (R ++ q)) = Some EmptyString)) as [Hl|Hl].
    + assert (R ++ q = []) as Hnil.
      { destruct (R ++ q) as [|k l] eqn:Heq; [done|]. assert (Hk : names (k :: l)) by (rewrite <- Heq; by apply Forall_app).
        exfalso. apply (names_last (k :: l) Hk). done. }
      apply app_nil in Hnil as [-> ->]. done.
    + rewrite app_assoc. destruct (R ++ q) as [|k l]; [done|]. done.
  - rewrite decide_False by (by destruct R). rewrite decide_True by (by rewrite last_snoc). rewrite removelast_last. cbn [app].
    unfold absolute_path. destruct R as [|k R]; done.
Qed.

Lemma components_join p q : is_absolute p = true -> is_absolute q = false -> q <> [] -> components (join p q) = components p ++ omap seg_component q.
Proof.
  intros Hp Hq Hqn. unfold join. rewrite Hq. destruct p as [|s [|s' p]]; try done. cbn [is_absolute] in Hp. apply bool_decide_eq_true in Hp as ->.
  rewrite decide_False by done. case_decide as Hl.
  - apply last_Some in Hl as [l Hl]. assert (Hr : removelast (EmptyString :: s' :: p) = l) by (by rewrite Hl, removelast_last).
    rewrite Hr. destruct l as [|e l]; [done|]. injection Hl as <- Hl. rewrite Hl. unfold components.
    assert (Habs : forall k : Path, k <> [] -> is_absolute (EmptyString :: k) = true) by (by intros []).
    change ((EmptyString :: l) ++ q) with (EmptyString :: (l ++ q)). rewrite !Habs; [|by destruct l|by destruct l, q].
    cbn. f_equal. rewrite !omap_app. cbn. by rewrite app_nil_r.
  - unfold components. cbn [is_absolute app]. rewrite bool_decide_eq_true_2 by done. cbn [app]. f_equal. apply (omap_app seg_component (EmptyString :: s' :: p)).
Qed.

(** ** Any file system

    The loop, whatever the calls answer. *)
Lemma resolve_loop_nil root b sub : resolve_loop root b sub [] = ret sub.
Proof. by destruct b. Qed.

Lemma resolve_loop_cons root b sub s iter :
  resolve_loop root b sub (s :: iter) =
    match seg_component s with
    | Some (Normal n) =>
      let* link := catch (os (sys_read_link (join (join root sub) [n]))) in
      match link with
      | Ok v =>
        match b with
        | O => throw TooManyLinks
        | S b => resolve_loop root b no_path (if is_absolute v then join v (as_path iter) else join (join sub v) (as_path iter))
        end
      | Err _ => resolve_loop root b (join sub [n]) iter
      end
    | Some ParentDir => resolve_loop root b (pop sub) iter
    | _ => resolve_loop root b sub iter
    end.
Proof. by destruct b. Qed.

Lemma wp_others (Q : unit -> World -> Prop) (X : Z -> World -> Prop) w :
  (forall w', Q tt w') -> (forall e w', X e w') -> wp others Q X w.
Proof. intros HQ HX. unfold wp, others. destruct (w_events w) as [|[change [e|]] rest]; cbn; auto. Qed.

Lemma wp_read_link p (Q : Path -> World -> Prop) (X : Z -> World -> Prop) w :
  (forall v w', Q v w') -> (forall e w', X e w') -> wp (sys_read_link p) Q X w.
Proof.
  intros HQ HX. unfold sys_read_link. apply wp_bind, wp_others; [|done]. intros w'. apply wp_bind, wp_get, wp_bind.
  destruct (resolve_path false p w'); [apply wp_ret|by apply wp_throw]. destruct (kind_at (w_fs w') _) as [[]|]; first [apply wp_ret, HQ | apply wp_throw, HX].
Qed.

Definition names_path (p : Path) : Prop := exists q, names q /\ p = relative_path q.

Lemma resolve_loop_names root b q iter w : names q ->
  wp (resolve_loop root b (relative_path q) iter) (fun p _ => names_path p) (fun e _ => e = TooManyLinks) w.
Proof.
  revert q iter w. induction b as [|b IHb]; intros q iter; revert q; induction iter as [|s iter IH]; intros q w Hq;
    try (rewrite resolve_loop_nil; apply wp_ret; by exists q); rewrite resolve_loop_cons;
    (destruct (seg_component s) as [[| | |n]|] eqn:Hs; [by apply IH|by apply IH| | |by apply IH]).
  1, 3: rewrite pop_names by done; apply IH; destruct q as [|m q _] using rev_ind; [done|]; rewrite removelast_last; by apply Forall_app in Hq as [? _].
  all: apply wp_bind, wp_catch, wp_map_err, wp_read_link; [intros v w'|intros e w'];
    [|rewrite join_name by done; apply IH; apply Forall_app; split; [done|]; apply seg_component_name in Hs as [_ Hn]; by constructor].
  - by apply wp_throw.
  - by apply (IHb []).
Qed.

(** C24: The result is below the root, whatever the file system answers.
    Other processes may change it before every call, and calls may fail: if [scoped_join]
    returns a path, its components are those of the root followed by names, without a
    parent directory among them.  It always returns, and its only own error is that of
    too many links. *)
Theorem scoped_join_scoped root unsafe_path w :
  match root with RootPath _ => True | RootPinned fd => fd < length (w_fds w) end ->
  match scoped_join root unsafe_path w with
  | (Done p, _) => exists root' w1 q, canonicalize_root root w = (Done root', w1) /\ names q /\ components p = components root' ++ (Normal <$> q)
  | (Fail e, _) => e = TooManyLinks \/ exists errno w1, e = OsError errno /\ canonicalize_root root w = (Fail errno, w1)
  | (Crashed, _) => False
  end.
Proof.
  intros Hfd. assert (Hroot : wp (canonicalize_root root) (fun p _ => is_absolute p = true) (fun _ _ => True) w).
  { destruct root as [p|fd]; cbn [canonicalize_root].
    - unfold sys_canonicalize. apply wp_bind, wp_others; [|done]. intros w'. apply wp_bind, wp_get, wp_bind.
      destruct (resolve_path true p w'); [|done]. apply wp_ret, wp_ret, absolute_is_absolute.
    - unfold sys_fd_path, wp, bind, others, get, at_index, ret. destruct (w_events w) as [|[change [e|]] rest]; cbn;
        try done; (destruct (lookup_lt_is_Some_2 (w_fds w) fd Hfd) as [o ->]); (destruct (locate _ _); [apply absolute_is_absolute|done]). }
  unfold scoped_join, do_scoped_resolve, bind, map_err. unfold wp in Hroot.
  destruct (canonicalize_root root w) as [[root'|errno|] w1]; [|right; by eexists _, _|done].
  pose proof (resolve_loop_names root' MAX_SYMLINK_DEPTH [] unsafe_path w1 (Forall_nil_2 _)) as Hloop. unfold wp in Hloop.
  change (relative_path []) with no_path in Hloop. destruct (resolve_loop root' _ no_path unsafe_path w1) as [[sub|e|] w2]; [|by left|done].
  destruct Hloop as (q & Hq & ->). cbn. exists root', w1, q. split; [done|]. split; [done|].
  rewrite components_join by (done || by apply relative_is_absolute || by destruct q). f_equal. destruct q as [|n q]; [done|]. by rewrite <- names_components.
Qed.

(** ** A file system that nobody changes *)
Record fs_ok (fs : Fs) : Prop := {
  ok_ids p q o o' : fs !! p = Some o -> fs !! q = Some o' -> obj_id o = obj_id o' -> p = q;
  ok_names p o : fs !! p = Some o -> names p;
  ok_root : is_dir_at fs [] = true;
  ok_parent p n o : fs !! (p ++ [n]) = Some o -> is_dir_at fs p = true;
}.

Lemma is_dir_at_lookup fs p : is_dir_at fs p = true -> exists o mode, fs !! p = Some o /\ obj_kind o = KDir mode.
Proof. unfold is_dir_at, kind_at. destruct (fs !! p) as [[id [|mode|t]]|]; cbn; try done. intros _. by eexists _, _. Qed.

Lemma prefix_dir fs p q o : fs_ok fs -> fs !! (p ++ q) = Some o -> q <> [] -> is_dir_at fs p = true.
Proof.
  intros Hok. revert o. induction q as [|n q IH] using rev_ind; intros o Ho Hne; [done|]. rewrite app_assoc in Ho. apply ok_parent in Ho as Hd; [|done].
  destruct q as [|m q]; [by rewrite app_nil_r in Hd|]. apply is_dir_at_lookup in Hd as (o' & _ & Ho' & _). by eapply IH.
Qed.

Lemma dir_prefix fs p q : fs_ok fs -> is_dir_at fs (p ++ q) = true -> is_dir_at fs p = true.
Proof.
  intros Hok Hd. destruct q as [|n q]; [by rewrite app_nil_r in Hd|]. apply is_dir_at_lookup in Hd as (o & _ & Ho & _). by eapply prefix_dir.
Qed.

Lemma walk_nil fs base links follow pos : walk fs base links follow pos [] = Ok pos.
Proof. by destruct links. Qed.

Lemma walk_cons fs base links follow pos s rest :
  walk fs base links follow pos (s :: rest) =
    if negb (is_dir_at fs pos) then Err ENOTDIR
    else match seg_component s with
    | Some (Normal n) =>
      match kind_at fs (pos ++ [n]) with
      | None => Err ENOENT
      | Some (KLink target) =>
        if bool_decide (rest = []) && negb follow then Ok (pos ++ [n])
        else match links with
        | O => Err ELOOP
        | S links => walk fs base links follow (if is_absolute target then base else pos) (target ++ rest)
        end
      | Some _ => walk fs base links follow (pos ++ [n]) rest
      end
    | Some ParentDir => walk fs base links follow (up base pos) rest
    | _ => walk fs base links follow pos rest
    end.
Proof. by destruct links. Qed.

Section still.
Context (w : World) (Hok : fs_ok (w_fs w)) (Hquiet : w_events w = []).
Notation fs := (w_fs w).

(** Directories are walked through. *)
Lemma walk_dirs base links follow pos q rest : names q -> is_dir_at fs (pos ++ q) = true ->
  walk fs base links follow pos (q ++ rest) = walk fs base links follow (pos ++ q) rest.
Proof.
  intros Hq. revert pos. induction Hq as [|n q Hn Hq IH]; intros pos Hd; [by rewrite app_nil_r|]. cbn [app]. rewrite walk_cons.
  rewrite (dir_prefix fs pos (n :: q)) by done. cbn [negb]. rewrite Hn. rewrite cons_middle, app_assoc in Hd.
  assert (Hdn : is_dir_at fs (pos ++ [n]) = true) by (by eapply dir_prefix).
  apply is_dir_at_lookup in Hdn as (o & mode & Ho & Hk). unfold kind_at at 1. rewrite Ho. cbn. rewrite Hk.
  rewrite IH by done. by rewrite <- app_assoc.
Qed.

Lemma resolve_dir_child follow D n : names D -> is_dir_at fs D = true -> name n ->
  resolve_path follow (absolute_path (D ++ [n])) w = walk fs [] MAXSYMLINKS follow D [n].
Proof.
  intros HD Hd Hn. unfold resolve_path. rewrite decide_False by apply absolute_not_no_path. rewrite absolute_is_absolute.
  unfold absolute_path. rewrite walk_cons, (ok_root _ Hok). cbn [negb seg_component].
  assert (relative_path (D ++ [n]) = D ++ [n]) as -> by (by destruct D).
  change (seg_component EmptyString) with (@None Component). cbn iota. by rewrite walk_dirs.
Qed.

Lemma others_quiet : others w = (Done tt, w).
Proof. unfold others. by rewrite Hquiet. Qed.

(** In a directory, [read_link] finds exactly the links. *)
Lemma read_link_dir D n : names D -> is_dir_at fs D = true -> name n ->
  match kind_at fs (D ++ [n]) with
  | Some (KLink target) => sys_read_link (absolute_path (D ++ [n])) w = (Done target, w)
  | _ => exists e, sys_read_link (absolute_path (D ++ [n])) w = (Fail e, w)
  end.
Proof.
  intros HD Hd Hn. unfold sys_read_link, bind. rewrite others_quiet. unfold get. rewrite resolve_dir_child by done.
  rewrite walk_cons, Hd. cbn [negb]. rewrite Hn. destruct (kind_at fs (D ++ [n])) as [[|mode|t]|] eqn:Hk; rewrite ?walk_nil; cbn; rewrite ?Hk; by try eexists.
Qed.

(** If [read_link] fails, there is no link, also where there is no directory. *)
Lemma read_link_fails D n e w' : names D -> name n -> sys_read_link (absolute_path (D ++ [n])) w = (Fail e, w') ->
  forall t, kind_at fs (D ++ [n]) <> Some (KLink t).
Proof.
  intros HD Hn Hr t Hk. assert (Hd : is_dir_at fs D = true).
  { unfold kind_at in Hk. destruct (fs !! (D ++ [n])) as [o|] eqn:Ho; [|done]. by eapply ok_parent. }
  pose proof (read_link_dir D n HD Hd Hn) as H. rewrite Hk, Hr in H. done.
Qed.

Lemma read_link_quiet p : (sys_read_link p w).2 = w /\ (sys_read_link p w).1 <> Crashed.
Proof.
  unfold sys_read_link, bind. rewrite others_quiet. unfold get. destruct (resolve_path false p w) as [place|]; cbn; [|done].
  by destruct (kind_at fs place) as [[]|].
Qed.

(** ** Segments that are skipped do not matter *)
Definition keep (segs : list string) : list string := filter (fun s => skipped s = false) segs.

Lemma keep_app l k : keep (l ++ k) = keep l ++ keep k.
Proof. apply filter_app. Qed.
Lemma keep_names q : names q -> keep q = q.
Proof. induction 1 as [|n q Hn _ IH]; [done|]. unfold keep. rewrite filter_cons_True by (by apply name_skipped). by f_equal. Qed.
Lemma keep_keep l : keep (keep l) = keep l.
Proof. unfold keep. rewrite list_filter_filter. apply list_filter_iff. tauto. Qed.
Lemma keep_trim_start l : keep (trim_start l) = keep l.
Proof.
  induction l as [|s l IH]; [done|]. cbn [trim_start]. destruct (skipped s) eqn:Hs; [|done]. rewrite IH. unfold keep at 2. by rewrite filter_cons_False by congruence.
Qed.
Lemma keep_reverse l : keep (reverse l) = reverse (keep l).
Proof.
  induction l as [|s l IH]; [done|]. rewrite reverse_cons, keep_app, IH. unfold keep at 2 3. destruct (skipped s) eqn:Hs.
  - rewrite !filter_cons_False by congruence. by rewrite filter_nil, app_nil_r.
  - rewrite !filter_cons_True by done. by rewrite filter_nil, reverse_cons.
Qed.
Lemma keep_relative l : keep (relative_path l) = keep l.
Proof. by destruct l. Qed.
Lemma keep_as_path l : keep (as_path l) = keep l.
Proof. unfold as_path, trim_end. by rewrite keep_relative, keep_reverse, keep_trim_start, keep_reverse, keep_trim_start, reverse_involutive. Qed.

Lemma as_path_relative l : is_absolute (as_path l) = false.
Proof.
  unfold as_path. destruct (trim_end (trim_start l)) as [|s [|s' k]] eqn:Ht; [done..|]. cbn. apply bool_decide_eq_false. intros ->.
  assert (Hts : forall l', match trim_start l' with [] => True | x :: _ => skipped x = false end).
  { induction l' as [|x l' IH]; [done|]. cbn. destruct (skipped x) eqn:Hx; [done|]. by rewrite Hx. }
  assert (Hpre : exists k', trim_start l = (EmptyString :: s' :: k) ++ k').
  { unfold trim_end in Ht. remember (reverse (trim_start l)) as r eqn:Hr. assert (Hsuf : exists j, r = j ++ trim_start r).
    { clear. induction r as [|x r [j IH]]; [by exists []|]. cbn. destruct (skipped x); [|by exists []]. exists (x :: j). cbn. by f_equal. }
    destruct Hsuf as [j Hj]. exists (reverse j). rewrite <- Ht, <- reverse_app, <- Hj, Hr. by rewrite reverse_involutive. }
  destruct Hpre as [k' Hk']. specialize (Hts l). by rewrite Hk' in Hts.
Qed.

Lemma keep_join p q : is_absolute q = false -> keep (join p q) = keep p ++ keep q.
Proof.
  intros Hq. unfold join. rewrite Hq. case_decide as Hno; [by subst|]. case_decide as Hl; [|apply keep_app].
  apply last_Some in Hl as [l ->]. by rewrite removelast_last, !keep_app, app_nil_r.
Qed.

Lemma keep_join_as_path p l : keep (join p (as_path l)) = keep p ++ keep l.
Proof. by rewrite keep_join, keep_as_path by apply as_path_relative. Qed.

Lemma resolve_loop_keep root b sub iter v : resolve_loop root b sub iter v = resolve_loop root b sub (keep iter) v.
Proof.
  revert sub iter v. induction b as [|b IHb]; intros sub iter; revert sub; induction iter as [|s iter IH]; intros sub v; try done;
    rewrite resolve_loop_cons; unfold keep; destruct (skipped s) eqn:Hs.
  1, 3: rewrite filter_cons_False by congruence; unfold skipped in Hs; apply bool_decide_eq_true in Hs; rewrite Hs; apply IH.
  all: rewrite filter_cons_True, resolve_loop_cons by done; fold (keep iter); unfold skipped in Hs; apply bool_decide_eq_false in Hs;
    (destruct (seg_component s) as [[| | |n]|]; [apply IH..| |by destruct Hs]); unfold bind; destruct (catch _ v) as [[[t|]| |] v']; try done; try apply IH.
  rewrite IHb. symmetry. rewrite IHb. symmetry. f_equal.
  destruct (is_absolute t); by rewrite !keep_join_as_path, keep_keep.
Qed.

(** ** The walk of a process in the root *)
Context (R : Place) (HR : names R).

Lemma up_app q : up R (R ++ q) = R ++ removelast q.
Proof.
  unfold up. case_decide as Heq.
  - assert (q = []) as ->; [|by rewrite app_nil_r]. apply (app_inv_head R). by rewrite app_nil_r.
  - destruct q as [|n q]; [by rewrite app_nil_r in Heq|]. by rewrite removelast_app.
Qed.

Lemma names_removelast q : names q -> names (removelast q).
Proof. intros Hq. destruct q as [|n q _] using rev_ind; [done|]. rewrite removelast_last. by apply Forall_app in Hq as [? _]. Qed.

Lemma names_snoc q n : names q -> name n -> names (q ++ [n]).
Proof. intros Hq Hn. apply Forall_app. split; [done|]. by constructor. Qed.

Lemma loop_read_link q n : names q -> name n ->
  catch (os (sys_read_link (join (join (absolute_path R) (relative_path q)) [n]))) w =
    match sys_read_link (absolute_path ((R ++ q) ++ [n])) w with
    | (Done t, w') => (Done (Ok t), w') | (Fail e, w') => (Done (Err (OsError e)), w') | (Crashed, w') => (Crashed, w')
    end.
Proof. intros Hq Hn. rewrite join_absolute, app_assoc by done. unfold catch, map_err. by destruct (sys_read_link _ w) as [[]]. Qed.

Lemma loop_dirs b q0 q iter : names q0 -> names q -> is_dir_at fs (R ++ q0 ++ q) = true ->
  resolve_loop (absolute_path R) b (relative_path q0) (q ++ iter) w = resolve_loop (absolute_path R) b (relative_path (q0 ++ q)) iter w.
Proof.
  intros Hq0 Hq. revert q0 Hq0. induction Hq as [|n q Hn Hq IH]; intros q0 Hq0 Hd; [by rewrite app_nil_r|].
  cbn [app]. rewrite resolve_loop_cons, Hn. unfold bind. rewrite loop_read_link by done.
  assert (Hdn : is_dir_at fs ((R ++ q0) ++ [n]) = true).
  { apply (dir_prefix fs _ q Hok). rewrite <- !app_assoc. done. }
  assert (Hd0 : is_dir_at fs (R ++ q0) = true) by (by eapply dir_prefix).
  pose proof (read_link_dir (R ++ q0) n ltac:(by apply Forall_app) Hd0 Hn) as Hr.
  apply is_dir_at_lookup in Hdn as (o & mode & Ho & Hk). unfold kind_at in Hr. rewrite Ho in Hr. cbn in Hr. rewrite Hk in Hr. destruct Hr as [e ->].
  rewrite join_name by done. rewrite IH; [by rewrite <- app_assoc|by apply names_snoc|by rewrite <- app_assoc].
Qed.

Lemma restart_absolute b v iter : resolve_loop (absolute_path R) b no_path (join v (as_path iter)) w = resolve_loop (absolute_path R) b no_path (v ++ iter) w.
Proof. by rewrite resolve_loop_keep, keep_join_as_path, <- keep_app, <- resolve_loop_keep. Qed.

Lemma restart_relative b q v iter : names q -> is_absolute v = false -> is_dir_at fs (R ++ q) = true ->
  resolve_loop (absolute_path R) b no_path (join (join (relative_path q) v) (as_path iter)) w = resolve_loop (absolute_path R) b (relative_path q) (v ++ iter) w.
Proof.
  intros Hq Hv Hd. rewrite restart_absolute, resolve_loop_keep, keep_app, keep_join, keep_relative, <- !keep_app, <- resolve_loop_keep, <- app_assoc by done.
  apply (loop_dirs b []); done.
Qed.

(** What the kernel finds, the loop finds. *)
Lemma loop_is_walk links b q segs place : links <= b -> names q -> walk fs R links true (R ++ q) segs = Ok place ->
  exists q', names q' /\ place = R ++ q' /\ resolve_loop (absolute_path R) b (relative_path q) segs w = (Done (relative_path q'), w).
Proof.
  revert b q segs. induction links as [|links IHl]; intros b q segs Hb; revert q; induction segs as [|s segs IH]; intros q Hq Hw;
    try (rewrite walk_nil in Hw; rewrite resolve_loop_nil; exists q; by simplify_eq); rewrite walk_cons in Hw; rewrite resolve_loop_cons;
    (destruct (is_dir_at fs (R ++ q)) eqn:Hd; [cbn [negb] in Hw|done]);
    (destruct (seg_component s) as [[| | |n]|] eqn:Hs; [by apply IH|by apply IH| | |by apply IH]).
  1, 3: rewrite up_app in Hw; rewrite pop_names by done; by apply IH; [apply names_removelast|].
  all: apply seg_component_name in Hs as [-> Hn]; unfold bind; rewrite loop_read_link by done;
    pose proof (read_link_dir (R ++ q) n ltac:(by apply Forall_app) Hd Hn) as Hr; destruct (kind_at fs ((R ++ q) ++ [n])) as [[|mode|t]|]; try done.
  all: try (destruct Hr as [e ->]; rewrite join_name by done; apply IH; [by apply names_snoc|by rewrite app_assoc]).
  all: rewrite andb_false_r in Hw; try done. rewrite Hr. destruct b as [|b]; [lia|]. destruct (is_absolute t) eqn:Ht.
  - rewrite restart_absolute. apply (IHl b []); [lia|done|by rewrite app_nil_r].
  - rewrite restart_relative by done. apply IHl; [lia|done|done].
Qed.

(** No component of the result is a link. *)
Definition clean (q : Place) : Prop := forall p n l t, q = p ++ n :: l -> kind_at fs ((R ++ p) ++ [n]) <> Some (KLink t).

Lemma clean_removelast q : clean q -> clean (removelast q).
Proof.
  intros Hc. destruct q as [|n q _] using rev_ind; [done|]. rewrite removelast_last. intros p m l t ->. apply (Hc p m (l ++ [n])). by rewrite <- app_assoc.
Qed.

Lemma clean_snoc q n : clean q -> (forall t, kind_at fs ((R ++ q) ++ [n]) <> Some (KLink t)) -> clean (q ++ [n]).
Proof.
  intros Hc Hn p m l t Heq. destruct l as [|k l _] using rev_ind.
  - apply app_inj_tail in Heq as [<- <-]. apply Hn.
  - rewrite app_comm_cons, app_assoc in Heq. apply app_inj_tail in Heq as [-> _]. by apply (Hc p m l).
Qed.

Lemma loop_clean b q iter : names q -> clean q ->
  wp (resolve_loop (absolute_path R) b (relative_path q) iter)
    (fun p w' => w' = w /\ exists q', names q' /\ p = relative_path q' /\ clean q') (fun e w' => w' = w /\ e = TooManyLinks) w.
Proof.
  assert (Hnil : clean []) by (by intros [] ? ? ?).
  revert q iter. induction b as [|b IHb]; intros q iter; revert q; induction iter as [|s iter IH]; intros q Hq Hc;
    try (rewrite resolve_loop_nil; apply wp_ret; split; [done|]; by exists q); rewrite resolve_loop_cons;
    (destruct (seg_component s) as [[| | |n]|] eqn:Hs; [by apply IH|by apply IH| | |by apply IH]).
  1, 3: rewrite pop_names by done; apply IH; [by apply names_removelast|by apply clean_removelast].
  all: apply seg_component_name in Hs as [-> Hn]; apply wp_bind; unfold wp at 1; rewrite loop_read_link by done;
    pose proof (read_link_quiet (absolute_path ((R ++ q) ++ [n]))) as [Hw Hcr]; pose proof (read_link_fails (R ++ q) n) as Hf;
    destruct (sys_read_link _ w) as [[t|e|] w'] eqn:Hr; cbn in Hw; subst; try done;
    try (rewrite join_name by done; apply IH; [by apply names_snoc|]; apply clean_snoc; [done|]; by eapply Hf; [apply Forall_app|..]).
  - by apply (IHb []).
Qed.
End still.

(** C18: A path is resolved as by a process with that root.
    In a file system that nobody changes, if the kernel finds an object for a process
    whose root is the given directory, [scoped_resolve] returns its place; and whatever
    it returns, no component of the result is a symbolic link. *)
Theorem scoped_resolve_is_chroot w root R unsafe_path :
  fs_ok (w_fs w) -> w_events w = [] -> resolve_path true root w = Ok R -> names R ->
  (forall place, walk (w_fs w) R MAXSYMLINKS true R unsafe_path = Ok place ->
    exists q, place = R ++ q /\ scoped_resolve (RootPath root) unsafe_path w = (Done (relative_path q), w)) /\
  (forall p w', scoped_resolve (RootPath root) unsafe_path w = (Done p, w') ->
    w' = w /\ exists q, names q /\ p = relative_path q /\ clean w R q).
Proof.
  intros Hok Hquiet Hroot HR.
  assert (Hrun : scoped_resolve (RootPath root) unsafe_path w = resolve_loop (absolute_path R) MAX_SYMLINK_DEPTH no_path unsafe_path w).
  { unfold scoped_resolve, do_scoped_resolve, bind, map_err. cbn [canonicalize_root]. unfold sys_canonicalize, bind.
    rewrite others_quiet by done. cbn [get]. unfold get. rewrite Hroot. cbn [of_result ret]. unfold ret.
    by destruct (resolve_loop (absolute_path R) MAX_SYMLINK_DEPTH no_path unsafe_path w) as [[]]. }
  rewrite Hrun. split.
  - intros place Hw. destruct (loop_is_walk w Hok Hquiet R HR MAXSYMLINKS MAX_SYMLINK_DEPTH [] unsafe_path place) as (q & _ & -> & Hq);
      [unfold MAXSYMLINKS, MAX_SYMLINK_DEPTH; lia|done|by rewrite app_nil_r|]. by exists q.
  - intros p w' Hp. pose proof (loop_clean w Hok Hquiet R HR MAX_SYMLINK_DEPTH [] unsafe_path (Forall_nil_2 _)) as Hc. unfold wp in Hc.
    change (relative_path []) with no_path in Hc. rewrite Hp in Hc. apply Hc. by intros [] ? ? ?.
Qed.
