(* ===== verification/SafeDirProofs.v ===== *)
(** Making directories below a root (agent/libs/safe-path): while other processes change
    what is below the root, nothing outside of it is touched; when nobody does, the
    directories that were asked for are made. *)
From stdpp Require Import base gmap strings list fin_maps.
From Stdlib Require Import Ascii.
From S2P Require Import Prelude HostFs PathFs SafePath SafePathProofs.

(** ** Changes below a root *)
Definition below (R p : Place) : Prop := exists n q, p = R ++ n :: q.
Definition agree (R : Place) (fs fs' : Fs) : Prop := forall p, ~ below R p -> fs' !! p = fs !! p.

(** What other processes do is below the root. *)
Definition confined (R : Place) (e : Event) : Prop := forall fs, fs_ok fs -> fs_ok (ev_change e fs) /\ agree R fs (ev_change e fs).

Section confinement.
Context (R : Place).

Definition world_ok (w : World) : Prop := fs_ok (w_fs w) /\ Forall (confined R) (w_events w).
Definition evolves (w w' : World) : Prop :=
  world_ok w -> world_ok w' /\ agree R (w_fs w) (w_fs w') /\ w_fds w `prefix_of` w_fds w'.

#[export] Instance evolves_preorder : PreOrder evolves.
Proof.
  split; [intros w Hw; by split_and!|]. intros w1 w2 w3 H12 H23 Hw1. destruct (H12 Hw1) as (Hw2 & Ha12 & Hp12).
  destruct (H23 Hw2) as (Hw3 & Ha23 & Hp23). split_and!; [done| |by etrans]. intros p Hp. by rewrite Ha23, Ha12.
Qed.

Lemma respects_others : respects evolves others.
Proof.
  intros w [Hok Hev]. unfold others. destruct (w_events w) as [|e rest] eqn:He.
  - cbn. split_and!; [|done|done]. split; [done|by rewrite He].
  - apply Forall_cons in Hev as [Hc Hev]. destruct (Hc _ Hok) as [Hok' Ha]. destruct (ev_error e); cbn; by split_and!.
Qed.

Lemma respects_new_fd o : respects evolves (new_fd o).
Proof. intros w [Hok Hev]. cbn. split_and!; [by split|done|]. by apply prefix_app_r. Qed.

Ltac evolving := repeat first [apply respects_others | apply respects_new_fd | respects_basic].

Lemma respects_canonicalize p : respects evolves (sys_canonicalize p).
Proof. unfold sys_canonicalize. evolving. Qed.
Lemma respects_read_link p : respects evolves (sys_read_link p).
Proof. unfold sys_read_link. evolving. Qed.
Lemma respects_open p : respects evolves (sys_open p).
Proof. unfold sys_open. evolving. Qed.
Lemma respects_dup fd : respects evolves (sys_dup fd).
Proof. unfold sys_dup, at_index. evolving. Qed.
Lemma respects_is_dir fd : respects evolves (sys_is_dir fd).
Proof. unfold sys_is_dir, at_index. evolving. Qed.
Lemma respects_fd_path fd : respects evolves (sys_fd_path fd).
Proof. unfold sys_fd_path, at_index. evolving. Qed.
Lemma respects_openat fd n : respects evolves (sys_openat fd n).
Proof. unfold sys_openat, fd_place, at_index. evolving. Qed.

Lemma respects_resolve_loop root b sub iter : respects evolves (resolve_loop root b sub iter).
Proof.
  revert sub iter. induction b as [|b IHb]; intros sub iter; revert sub; induction iter as [|s iter IH]; intros sub;
    try (rewrite resolve_loop_nil; evolving); rewrite resolve_loop_cons;
    (destruct (seg_component s) as [[| | |n]|]; [apply IH..| |apply IH]);
    apply respects_bind; [apply _|apply respects_catch, respects_map_err, respects_read_link|intros [v|]|apply _|apply respects_catch, respects_map_err, respects_read_link|intros [v|]].
  - evolving.
  - apply IH.
  - apply IHb.
  - apply IH.
Qed.

(** A run that evolves, with what it establishes. *)
Lemma wp_evolves {E A} (m : M World E A) (Q : A -> World -> Prop) (X : E -> World -> Prop) w :
  respects evolves m -> wp m Q X w -> wp m (fun a w' => Q a w' /\ evolves w w') (fun e w' => X e w' /\ evolves w w') w.
Proof. intros Hr Hw. unfold wp in *. specialize (Hr w). by destruct (m w) as [[]]. Qed.

(** ** Pinned objects *)
Definition inside (fs : Fs) (id : Z) : Prop := forall p o, fs !! p = Some o -> obj_id o = id -> exists q, p = R ++ q.

Lemma inside_agree fs fs' id : agree R fs fs' -> inside fs id -> inside fs' id.
Proof.
  intros Ha Hin p o Ho Hid. destruct (decide (take (length R) p = R)) as [Htake|Htake].
  - exists (drop (length R) p). rewrite <- Htake at 1. by rewrite take_drop.
  - apply (Hin p o); [|done]. rewrite <- Ha; [done|]. intros (n & q & ->). by rewrite take_app_length in Htake.
Qed.

Record pinned (w : World) (pp : PinnedPathBuf) (q : Place) : Prop := {
  pin_obj : exists o, w_fds w !! pp_handle pp = Some o /\ inside (w_fs w) (obj_id o);
  pin_names : names (R ++ q);
  pin_target : pp_target pp = absolute_path (R ++ q);
}.

Lemma pinned_evolves w w' pp q : world_ok w -> evolves w w' -> pinned w pp q -> pinned w' pp q.
Proof.
  intros Hw He [(o & Ho & Hin) Hn Ht]. destruct (He Hw) as (_ & Ha & Hp). split; [|done|done].
  exists o. split; [by eapply prefix_lookup_Some|by eapply inside_agree].
Qed.

Lemma locate_Some fs id p : locate fs id = Some p -> exists o, fs !! p = Some o /\ obj_id o = id.
Proof.
  unfold locate. intros Hl. apply fmap_Some in Hl as ([p' o] & He & Hp). cbn in Hp. subst p'. apply List.find_some in He as [Hin Hid].
  apply bool_decide_eq_true in Hid. exists o. split; [|done]. by apply elem_of_map_to_list, list_elem_of_In.
Qed.

Lemma wp_others_evolves (Q : unit -> World -> Prop) (X : Z -> World -> Prop) w :
  world_ok w -> (forall e w', evolves w w' -> X e w') ->
  (forall w', evolves w w' -> world_ok w' -> w_fds w `prefix_of` w_fds w' -> Q tt w') -> wp others Q X w.
Proof.
  intros Hw HX HQ. pose proof (respects_others w) as Hr. unfold wp. destruct (others w) as [[[]|e|] w'] eqn:Heq; cbn in Hr.
  - pose proof (Hr Hw) as (? & _ & ?). by apply HQ.
  - by apply HX.
  - unfold others in Heq. by destruct (w_events w) as [|[? []] ?].
Qed.

(** A descriptor is pinned where its link says. *)
Lemma new_from_file_place h orig w : world_ok w -> is_Some (w_fds w !! h) ->
  wp (new_from_file h orig) (fun pp w' => evolves w w' /\ pp_handle pp = h /\ exists place, names place /\ pp_target pp = absolute_path place /\
    components orig = components (absolute_path place) /\ forall q, place = R ++ q -> pinned w' pp q) (fun _ w' => evolves w w') w.
Proof.
  intros Hw [o Ho]. unfold new_from_file. apply wp_bind, wp_map_err. unfold sys_fd_path. apply wp_bind.
  apply wp_others_evolves; [done|done|]. intros w1 He Hw1 Hp.
  apply wp_bind, wp_get, wp_bind. unfold at_index. rewrite (prefix_lookup_Some _ _ _ _ Ho Hp). apply wp_ret.
  destruct (locate (w_fs w1) (obj_id o)) as [place|] eqn:Hl; [|by apply wp_throw]. apply wp_ret.
  destruct (path_eqb (absolute_path place) orig) eqn:Heq; [|by apply wp_throw]. cbn [negb]. apply wp_ret. split; [done|]. split; [done|].
  unfold path_eqb in Heq. apply bool_decide_eq_true in Heq. apply locate_Some in Hl as (o' & Ho' & Hid).
  destruct Hw1 as [Hok _]. pose proof (ok_names _ Hok _ _ Ho') as Hn. exists place. split_and!; [done|done|done|]. intros q ->.
  split; [|done|done]. exists o. cbn. split; [by eapply prefix_lookup_Some|]. intros p o2 Ho2 Hid2. exists q. by eapply ok_ids; [|exact Ho2|exact Ho'|congruence].
Qed.

Lemma new_from_file_spec h orig q w : world_ok w -> is_Some (w_fds w !! h) -> names (R ++ q) -> components orig = components (absolute_path (R ++ q)) ->
  wp (new_from_file h orig) (fun pp w' => evolves w w' /\ pinned w' pp q) (fun _ w' => evolves w w') w.
Proof.
  intros Hw Hh Hn Hc. eapply wp_mono; [by apply new_from_file_place| |done]. cbn beta. intros pp w' (He & _ & place & Hpl & _ & Hco & Hpin).
  split; [done|]. apply Hpin. apply absolute_inj; [done|done|congruence].
Qed.

Lemma prepare_spec c w : wp (prepare_path_component c) (fun n w' => w' = w /\ c = [n] /\ name n) (fun _ w' => w' = w) w.
Proof.
  unfold prepare_path_component. destruct (components c) as [|[| | |n] [|]] eqn:Hc; try by apply wp_throw.
  destruct (decide (c = [n])) as [->|Hne]; [rewrite bool_decide_eq_true_2 by done|by rewrite bool_decide_eq_false_2 by done].
  cbn [negb]. destruct (contains_char zero n); [by apply wp_throw|]. apply wp_ret. split_and!; [done|done|].
  unfold components in Hc. cbn [is_absolute head] in Hc. unfold name. case_decide; cbn in Hc; [by simplify_eq|].
  destruct (seg_component n); by simplify_eq.
Qed.

Lemma new_fd_spec (Q : nat -> World -> Prop) (X : Z -> World -> Prop) o w :
  (forall w', evolves w w' -> w_fds w' = w_fds w ++ [o] -> Q (length (w_fds w)) w') -> wp (new_fd o) Q X w.
Proof. intros HQ. pose proof (respects_new_fd o w) as Hr. apply HQ; [exact Hr|done]. Qed.

Lemma pinned_fd w w' pp q : pinned w pp q -> w_fds w `prefix_of` w_fds w' -> exists o, w_fds w' !! pp_handle pp = Some o.
Proof. intros [(o & Ho & _) _ _] Hp. exists o. by eapply prefix_lookup_Some. Qed.

Lemma openat_spec pp q n w : world_ok w -> pinned w pp q ->
  wp (sys_openat (pp_handle pp) n) (fun h w' => evolves w w' /\ world_ok w' /\ is_Some (w_fds w' !! h)) (fun _ w' => evolves w w') w.
Proof.
  intros Hw Hpin. unfold sys_openat. apply wp_bind, wp_others_evolves; [done|done|]. intros w1 He Hw1 Hp1.
  apply wp_bind, wp_get, wp_bind. destruct (pinned_fd _ _ _ _ Hpin Hp1) as [o Ho]. unfold fd_place, at_index. apply wp_bind. rewrite Ho. apply wp_ret.
  destruct (locate (w_fs w1) (obj_id o)) as [dir|]; [|by apply wp_throw]. apply wp_ret, wp_bind.
  destruct (walk _ _ _ _ _ _) as [place|]; [apply wp_ret|by apply wp_throw]. destruct (w_fs w1 !! place) as [o'|]; [|by apply wp_throw].
  apply new_fd_spec. intros w2 He2 Hf. pose proof (He2 Hw1) as (Hw2 & _ & _). split_and!; [by etrans|done|].
  rewrite Hf, lookup_app_r, Nat.sub_diag by done. done.
Qed.

Lemma open_child_spec pp q c w : world_ok w -> pinned w pp q ->
  wp (open_child pp c) (fun v w' => evolves w w' /\ exists n, c = [n] /\ name n /\ pinned w' v (q ++ [n])) (fun _ w' => evolves w w') w.
Proof.
  intros Hw Hpin. unfold open_child. apply wp_bind. eapply wp_mono; [apply prepare_spec| |by intros ? ? ->].
  cbn beta. intros n ? (-> & -> & Hn). apply wp_bind, wp_map_err. eapply wp_mono; [by apply (openat_spec pp q)| |done].
  cbn beta. intros h w1 (He & Hw1 & Hh). pose proof (pin_names _ _ _ Hpin) as Hnm.
  assert (Hnm' : names (R ++ q ++ [n])) by (rewrite app_assoc; by apply names_snoc).
  eapply wp_mono; [apply (new_from_file_spec h _ (q ++ [n]) w1 Hw1 Hh Hnm')| |].
  - rewrite (pin_target _ _ _ Hpin), components_join by (done || apply absolute_is_absolute). rewrite !absolute_components by done.
    cbn. by rewrite Hn, (app_assoc R q [n]), (fmap_app _ (R ++ q)).
  - cbn beta. intros v w2 [He2 Hv]. split; [by etrans|]. by exists n.
  - cbn beta. intros e w2 He2. by etrans.
Qed.

(** ** Making a directory *)
Lemma foldr_max_bound l x : x ∈ l -> (x <= foldr Z.max 0 l)%Z.
Proof. induction l as [|y l IH]; [by intros ?%elem_of_nil|]. intros [->|Hx]%elem_of_cons; cbn; [lia|]. specialize (IH Hx). lia. Qed.

Lemma fresh_id_new w p o : w_fs w !! p = Some o -> obj_id o <> fresh_id w.
Proof.
  intros Ho. unfold fresh_id. assert (Hin : obj_id o ∈ (obj_id <$> w_fds w) ++ ((fun e => obj_id e.2) <$> map_to_list (w_fs w))).
  { apply elem_of_app. right. apply list_elem_of_fmap. exists (p, o). split; [done|]. by apply elem_of_map_to_list. }
  pose proof (foldr_max_bound _ _ Hin). lia.
Qed.

Lemma is_dir_at_insert fs p o q : is_dir_at fs q = true -> fs !! p = None -> is_dir_at (<[p := o]> fs) q = true.
Proof.
  intros Hd Hp. unfold is_dir_at, kind_at in *. rewrite lookup_insert_ne; [done|]. intros ->. by rewrite Hp in Hd.
Qed.

Lemma fs_ok_mkdir w dir n mode : fs_ok (w_fs w) -> is_dir_at (w_fs w) dir = true -> w_fs w !! (dir ++ [n]) = None -> name n ->
  fs_ok (<[dir ++ [n] := mkObj (fresh_id w) (KDir mode)]> (w_fs w)).
Proof.
  intros Hok Hd Hnone Hn. split.
  - intros p q o o' Ho Ho' Hid. apply lookup_insert_Some in Ho as [[<- <-]|[Hp Ho]], Ho' as [[<- <-]|[Hq Ho']]; cbn in Hid;
      [done|by apply fresh_id_new in Ho'|by apply fresh_id_new in Ho|by eapply ok_ids].
  - intros p o Ho. apply lookup_insert_Some in Ho as [[<- <-]|[Hp Ho]]; [|by eapply ok_names].
    apply is_dir_at_lookup in Hd as (o & _ & Ho & _). apply names_snoc; [by eapply ok_names|done].
  - apply is_dir_at_insert; [apply ok_root|]; done.
  - intros p m o Ho. apply lookup_insert_Some in Ho as [[Heq <-]|[Hp Ho]].
    + apply app_inj_tail in Heq as [-> _]. by apply is_dir_at_insert.
    + apply is_dir_at_insert; [by eapply ok_parent|done].
Qed.

Lemma mkdirat_spec pp q n mode w : world_ok w -> pinned w pp q -> name n ->
  wp (sys_mkdirat (pp_handle pp) n mode) (fun _ w' => evolves w w') (fun _ w' => evolves w w') w.
Proof.
  intros Hw Hpin Hn. unfold sys_mkdirat. apply wp_bind, wp_others_evolves; [done|done|]. intros w1 He Hw1 Hp1.
  pose proof (pinned_evolves _ _ _ _ Hw He Hpin) as [(o & Ho & Hin) _ _].
  apply wp_bind, wp_get, wp_bind. unfold fd_place, at_index. apply wp_bind. rewrite Ho. apply wp_ret.
  destruct (locate (w_fs w1) (obj_id o)) as [dir|] eqn:Hl; [|by apply wp_throw]. apply wp_ret.
  destruct (is_dir_at (w_fs w1) dir) eqn:Hd; [|by apply wp_throw]. cbn [negb].
  destruct (w_fs w1 !! (dir ++ [n])) as [|] eqn:Hnone; [by apply wp_throw|]. apply wp_modify. etrans; [exact He|]. intros [Hok Hev].
  split_and!; [split; [by apply fs_ok_mkdir|done]| |done]. intros p Hp. cbn. apply lookup_insert_ne. intros <-.
  apply locate_Some in Hl as (o' & Ho' & Hid). destruct (Hin _ _ Ho' Hid) as [q' ->]. apply Hp. unfold below. rewrite <- app_assoc.
  by destruct q' as [|m q']; eexists _, _.
Qed.

Lemma pinned_mkdir_spec pp q c mode w : world_ok w -> pinned w pp q ->
  wp (pinned_mkdir pp c mode) (fun v w' => evolves w w' /\ exists n, c = [n] /\ name n /\ pinned w' v (q ++ [n])) (fun _ w' => evolves w w') w.
Proof.
  intros Hw Hpin. unfold pinned_mkdir. apply wp_bind. eapply wp_mono; [apply prepare_spec| |by intros ? ? ->].
  cbn beta. intros n ? (-> & -> & Hn). apply wp_bind, wp_map_err. eapply wp_mono; [by apply (mkdirat_spec pp q)| |done].
  cbn beta. intros _ w1 He. pose proof (He Hw) as (Hw1 & _ & _). pose proof (pinned_evolves _ _ _ _ Hw He Hpin) as Hpin1.
  eapply wp_mono; [by apply (open_child_spec pp q)| |]; cbn beta.
  - intros v w2 [He2 Hv]. split; [by etrans|done].
  - intros e w2 He2. by etrans.
Qed.

Lemma is_dir_spec h w : world_ok w -> is_Some (w_fds w !! h) ->
  wp (sys_is_dir h) (fun _ w' => evolves w w') (fun _ w' => evolves w w') w.
Proof.
  intros Hw [o Ho]. unfold sys_is_dir. apply wp_bind, wp_others_evolves; [done|done|]. intros w1 He Hw1 Hp.
  apply wp_bind, wp_get, wp_bind. unfold at_index. rewrite (prefix_lookup_Some _ _ _ _ Ho Hp). by apply wp_ret, wp_ret.
Qed.

Lemma try_clone_spec pp q w : world_ok w -> pinned w pp q ->
  wp (try_clone pp) (fun v w' => evolves w w' /\ pinned w' v q) (fun _ w' => evolves w w') w.
Proof.
  intros Hw Hpin. unfold try_clone. apply wp_bind, wp_map_err. unfold sys_dup. apply wp_bind, wp_others_evolves; [done|done|]. intros w1 He Hw1 Hp.
  pose proof (pinned_evolves _ _ _ _ Hw He Hpin) as [(o & Ho & Hin) Hn Ht]. apply wp_bind, wp_get, wp_bind. unfold at_index. rewrite Ho. apply wp_ret.
  apply new_fd_spec. intros w2 He2 Hf. pose proof (He2 Hw1) as (_ & Ha & _). apply wp_ret. split; [by etrans|]. split; [|done|done].
  exists o. cbn. rewrite Hf, lookup_app_r, Nat.sub_diag by done. split; [done|]. by eapply inside_agree.
Qed.

Lemma pinned_some w pp q : pinned w pp q -> is_Some (w_fds w !! pp_handle pp).
Proof. intros [(o & Ho & _) _ _]. by exists o. Qed.

Lemma mkdir_loop_spec b levels idx comps dir q w : world_ok w -> pinned w dir q ->
  wp (mkdir_loop b levels idx comps dir) (fun v w' => evolves w w' /\ exists q', pinned w' v q') (fun _ w' => evolves w w') w.
Proof.
  revert idx dir q w. induction comps as [|c comps IH]; intros idx dir q w Hw Hpin; [apply wp_ret; split; [done|by exists q]|].
  cbn [mkdir_loop]. apply wp_bind, wp_catch. eapply wp_mono; [by apply (open_child_spec dir q)| |]; cbn beta.
  - intros v w1 (He & n & _ & _ & Hv). pose proof (He Hw) as (Hw1 & _ & _). apply wp_bind, wp_map_err.
    eapply wp_mono; [apply is_dir_spec; [done|by eapply pinned_some]| |intros e w2 He2; by etrans]. cbn beta. intros is_dir w2 He2.
    pose proof (He2 Hw1) as (Hw2 & _ & _). pose proof (pinned_evolves _ _ _ _ Hw1 He2 Hv) as Hv2. assert (He02 : evolves w w2) by (by etrans).
    destruct is_dir; [|by apply wp_throw]. cbn [negb]. destruct (negb _ && _); [by apply wp_throw|].
    eapply wp_mono; [by eapply IH| |]; cbn beta; [intros v' w3 [He3 Hv3]; split; [by etrans|done]|intros e w3 He3; by etrans].
  - intros e w1 He. pose proof (He Hw) as (Hw1 & _ & _). pose proof (pinned_evolves _ _ _ _ Hw He Hpin) as Hpin1.
    destruct (negb _ && _); [by apply wp_throw|]. apply wp_bind.
    eapply wp_mono; [by apply (pinned_mkdir_spec dir q)| |intros e' w2 He2; by etrans]. cbn beta. intros v w2 (He2 & n & _ & _ & Hv).
    pose proof (He2 Hw1) as (Hw2 & _ & _).
    eapply wp_mono; [by eapply IH| |]; cbn beta; [intros v' w3 [He3 Hv3]; split; [etrans; [exact He|by etrans]|done]|intros e' w3 He3; etrans; [exact He|by etrans]].
Qed.

Lemma do_mkdir_spec b path w : world_ok w -> pinned w (b_root b) [] -> is_absolute path = false ->
  wp (do_mkdir b path) (fun v w' => evolves w w' /\ exists q', pinned w' v q') (fun _ w' => evolves w w') w.
Proof.
  intros Hw Hpin Hrel. unfold do_mkdir. rewrite Hrel. destruct (file_name path).
  - apply wp_bind. eapply wp_mono; [by apply (try_clone_spec _ [])| |done]. cbn beta. intros dir w1 [He Hd]. pose proof (He Hw) as (Hw1 & _ & _).
    eapply wp_mono; [by eapply mkdir_loop_spec| |]; cbn beta; [intros v w2 [He2 Hv]; split; [by etrans|done]|intros e w2 He2; by etrans].
  - destruct (b_recursive b); cbn [negb]; [|by apply wp_throw].
    eapply wp_mono; [by apply (try_clone_spec _ [])| |done]. cbn beta. intros v w1 [He Hv]. split; [done|by exists []].
Qed.

(** The two ways to name a directory. *)
Lemma resolve_names_spec root unsafe_path w : world_ok w ->
  wp (resolve_loop root MAX_SYMLINK_DEPTH no_path unsafe_path) (fun p w' => names_path p /\ evolves w w') (fun _ w' => evolves w w') w.
Proof.
  intros Hw. eapply wp_mono; [apply wp_evolves; [apply respects_resolve_loop|apply (resolve_loop_names root MAX_SYMLINK_DEPTH [] unsafe_path w), Forall_nil_2]| |];
    cbn beta; [done|by intros ? ? [_ ?]].
Qed.

Lemma create_spec b path w : world_ok w -> pinned w (b_root b) [] ->
  wp (create b path) (fun v w' => evolves w w' /\ exists q', pinned w' v q') (fun _ w' => evolves w w') w.
Proof.
  intros Hw Hpin. unfold create, scoped_resolve, do_scoped_resolve. apply wp_bind, wp_bind, wp_bind, wp_map_err. cbn [canonicalize_root].
  unfold sys_fd_path. apply wp_bind, wp_others_evolves; [done|done|]. intros w1 He Hw1 Hp. apply wp_bind, wp_get, wp_bind.
  destruct (pinned_fd _ _ _ _ Hpin Hp) as [o Ho]. unfold at_index. rewrite Ho. apply wp_ret.
  destruct (locate _ _) as [place|]; [|by apply wp_throw]. apply wp_ret, wp_bind.
  eapply wp_mono; [by apply resolve_names_spec| |intros e w2 He2; by etrans]. cbn beta. intros sub w2 [(q & Hq & ->) He2].
  apply wp_ret, wp_ret. cbn [snd]. assert (He02 : evolves w w2) by (by etrans). pose proof (He02 Hw) as (Hw2 & _ & _).
  eapply wp_mono; [apply do_mkdir_spec; [done|exact (pinned_evolves _ _ _ _ Hw He02 Hpin)|by apply relative_is_absolute]| |]; cbn beta.
  - intros v w3 [He3 Hv]. split; [by etrans|done].
  - intros e w3 He3. by etrans.
Qed.

Lemma strip_relative p base path : is_absolute base = true -> components p = RootDir :: (Normal <$> path) -> names path ->
  match strip_prefix p base with Some q => is_absolute q = false | None => True end.
Proof.
  intros Hb Hp Hn. unfold strip_prefix. destruct (strip_components _ _) as [rest|] eqn:Hs; [|done]. cbn. rewrite Hp in Hs.
  assert (Hrest : exists q, names q /\ rest = Normal <$> q).
  { unfold components in Hs. rewrite Hb in Hs. cbn [app strip_components] in Hs. rewrite decide_True in Hs by done.
    revert Hs. generalize (omap seg_component base). revert path Hn Hp. clear.
    intros path Hn _ l. revert path Hn. induction l as [|c l IH]; intros path Hn Hs; [exists path; injection Hs as <-; done|].
    destruct path as [|n path]; [done|]. cbn in Hs. case_decide; [|done]. apply Forall_cons in Hn as [_ Hn]. by eapply IH. }
  destruct Hrest as (q & Hq & ->). assert (mjoin (component_path <$> (Normal <$> q)) = q) as ->; [|by apply relative_is_absolute].
  clear. induction q as [|n q IH]; [done|]. change (n :: mjoin (component_path <$> (Normal <$> q)) = n :: q). by rewrite IH.
Qed.

Lemma create_unscoped_spec b path w : world_ok w -> pinned w (b_root b) [] ->
  wp (create_with_unscoped_path b path) (fun v w' => evolves w w' /\ exists q', pinned w' v q') (fun _ w' => evolves w w') w.
Proof.
  intros Hw Hpin. unfold create_with_unscoped_path. destruct (is_absolute path); [|by apply wp_throw]. cbn [negb].
  unfold scoped_join, do_scoped_resolve. apply wp_bind, wp_bind, wp_bind, wp_map_err. cbn [canonicalize_root].
  unfold sys_canonicalize. apply wp_bind, wp_others_evolves; [done|done|]. intros w1 He Hw1 Hp. apply wp_bind, wp_get, wp_bind.
  assert (resolve_path true root_path w1 = Ok []) as ->.
  { unfold resolve_path, root_path. rewrite decide_False by done. cbn [is_absolute]. rewrite bool_decide_eq_true_2 by done.
    destruct Hw1 as [Hok _]. by rewrite !walk_cons, (ok_root _ Hok), walk_nil. }
  apply wp_ret, wp_ret, wp_bind. eapply wp_mono; [by apply resolve_names_spec| |intros e w2 He2; by etrans].
  cbn beta. intros sub w2 [(q & Hq & ->) He2]. apply wp_ret, wp_ret. cbn [fst snd]. assert (He02 : evolves w w2) by (by etrans).
  pose proof (He02 Hw) as (Hw2 & _ & _).
  assert (Hc : components (join (absolute_path []) (relative_path q)) = RootDir :: (Normal <$> q)).
  { rewrite components_join by (done || by apply relative_is_absolute || by destruct q). rewrite absolute_components by done.
    destruct q as [|n q]; [done|]. cbn [relative_path]. by rewrite names_components. }
  rewrite (pin_target _ _ _ Hpin). pose proof (strip_relative _ (absolute_path (R ++ [])) q (absolute_is_absolute _) Hc Hq) as Hs.
  destruct (strip_prefix _ _) as [stripped|]; [|by apply wp_throw].
  eapply wp_mono; [apply do_mkdir_spec; [done|exact (pinned_evolves _ _ _ _ Hw He02 Hpin)|done]| |]; cbn beta.
  - intros v w3 [He3 Hv]. split; [by etrans|done].
  - intros e w3 He3. by etrans.
Qed.

Lemma builder_new_spec root w : world_ok w ->
  wp (builder_new root) (fun b w' => evolves w w' /\ (components (pp_target (b_root b)) = RootDir :: (Normal <$> R) -> pinned w' (b_root b) []))
    (fun _ w' => evolves w w') w.
Proof.
  intros Hw. unfold builder_new. apply wp_bind, wp_map_err. unfold sys_canonicalize. apply wp_bind, wp_others_evolves; [done|done|]. intros w1 He1 Hw1 _.
  apply wp_bind, wp_get, wp_bind. destruct (resolve_path true root w1) as [place|]; [apply wp_ret, wp_ret|by apply wp_throw].
  apply wp_bind. unfold from_path. apply wp_bind, wp_map_err. unfold sys_open. apply wp_bind, wp_others_evolves; [done|intros e w2 He2; by etrans|].
  intros w2 He2 Hw2 _. apply wp_bind, wp_get, wp_bind. assert (He02 : evolves w w2) by (by etrans).
  destruct (resolve_path true (absolute_path place) w2) as [place'|]; [apply wp_ret|by apply wp_throw].
  destruct (w_fs w2 !! place') as [o|]; [|by apply wp_throw]. apply new_fd_spec. intros w3 He3 Hf. pose proof (He3 Hw2) as (Hw3 & _ & _).
  assert (He03 : evolves w w3) by (by etrans). eapply wp_mono; [apply new_from_file_place; [done|]| |intros e w4 He4; by etrans].
  { rewrite Hf, lookup_app_r, Nat.sub_diag by done. by eexists. }
  cbn beta. intros pp w4 (He4 & Hhd & pl & Hpl & Ht & _ & Hpin). assert (He04 : evolves w w4) by (by etrans). pose proof (He04 Hw) as (Hw4 & _ & _).
  assert (Hh : is_Some (w_fds w4 !! pp_handle pp)).
  { pose proof (He4 Hw3) as (_ & _ & Hp4). exists o. rewrite Hhd. eapply prefix_lookup_Some; [|exact Hp4]. by rewrite Hf, lookup_app_r, Nat.sub_diag by done. }
  apply wp_bind, wp_map_err. eapply wp_mono; [by apply is_dir_spec| |intros e w5 He5; by etrans]. cbn beta. intros is_dir w5 He5.
  assert (He05 : evolves w w5) by (by etrans). destruct is_dir; [|by apply wp_throw]. apply wp_ret. split; [done|]. cbn [b_root]. intros Hc.
  apply (pinned_evolves w4 w5); [done|done|]. apply Hpin. rewrite app_nil_r. rewrite Ht, absolute_components in Hc by done. by simplify_eq.
Qed.
End confinement.

(** C17: Directories are made below the root only, also under attack.
    A builder is opened on a directory, with any mode and either way of naming what to
    make, while other processes change whatever they like below that directory before
    every call: links in place of directories, renames, removals.  Outside the directory
    nothing changes, and a descriptor that is returned is of an object inside it. *)
Theorem builder_confined R root w0 b w1 mode recursive unscoped path r w2 :
  fs_ok (w_fs w0) -> Forall (confined R) (w_events w0) ->
  builder_new root w0 = (Done b, w1) -> components (pp_target (b_root b)) = RootDir :: (Normal <$> R) ->
  (let b := builder_mode mode (builder_recursive recursive b) in
   if unscoped : bool then create_with_unscoped_path b path else create b path) w1 = (r, w2) ->
  agree R (w_fs w0) (w_fs w2) /\ r <> Crashed /\ forall h, r = Done h -> exists q, pinned R w2 h q.
Proof.
  intros Hok Hev Hnew Hroot Hrun. assert (Hw0 : world_ok R w0) by done. pose proof (builder_new_spec R root w0 Hw0) as Hb.
  unfold wp in Hb. rewrite Hnew in Hb. destruct Hb as [He1 Hpin]. specialize (Hpin Hroot). pose proof (He1 Hw0) as (Hw1 & Ha1 & _).
  set (b' := builder_mode mode (builder_recursive recursive b)) in *. change (b_root b) with (b_root b') in Hpin.
  assert (Hwp : wp (if unscoped then create_with_unscoped_path b' path else create b' path)
    (fun v w' => evolves R w1 w' /\ exists q', pinned R w' v q') (fun _ w' => evolves R w1 w') w1)
    by (destruct unscoped; [by apply create_unscoped_spec|by apply create_spec]).
  unfold wp in Hwp. cbn zeta in Hrun. rewrite Hrun in Hwp.
  assert (He2 : evolves R w1 w2) by (destruct r; [by destruct Hwp|done|done]). pose proof (He2 Hw1) as (_ & Ha2 & _).
  split; [intros p Hp; by rewrite Ha2, Ha1|]. split; [by destruct r|]. intros h ->. by destruct Hwp.
Qed.

(** ** When nobody interferes *)
Definition quiet (w : World) : Prop := w_events w = [] /\ fs_ok (w_fs w).
Definition plain (n : string) : Prop := name n /\ contains_char zero n = false.

Record open_dir (w : World) (pp : PinnedPathBuf) (D : Place) : Prop := {
  od_obj : exists o mode, w_fds w !! pp_handle pp = Some o /\ w_fs w !! D = Some o /\ obj_kind o = KDir mode;
  od_target : pp_target pp = absolute_path D;
}.

Lemma locate_at fs D o : fs_ok fs -> fs !! D = Some o -> locate fs (obj_id o) = Some D.
Proof.
  intros Hok Ho. destruct (locate fs (obj_id o)) as [p|] eqn:Hl.
  - apply locate_Some in Hl as (o' & Ho' & Hid). f_equal. by eapply ok_ids.
  - unfold locate in Hl. apply fmap_None in Hl. eapply List.find_none in Hl; [|apply list_elem_of_In; by apply (elem_of_map_to_list fs D o)].
    cbn in Hl. by rewrite bool_decide_eq_true_2 in Hl.
Qed.

Lemma prepare_plain n w : plain n -> prepare_path_component [n] w = (Done n, w).
Proof.
  intros [Hn Hz]. unfold prepare_path_component.
  assert (components [n] = [Normal n]) as -> by (apply (relative_components [n]); by constructor).
  by rewrite bool_decide_eq_true_2, Hz by done.
Qed.

Lemma open_dir_is_dir w pp D : open_dir w pp D -> is_dir_at (w_fs w) D = true.
Proof. intros [(o & mode & _ & Ho & Hk) _]. unfold is_dir_at, kind_at. rewrite Ho. cbn. by rewrite Hk. Qed.

Section still.
Context (w : World) (Hquiet : quiet w).

Lemma fd_place_still pp D : open_dir w pp D -> fd_place w (pp_handle pp) w = (Done D, w).
Proof.
  intros [(o & mode & Ho & Hat & _) _]. unfold fd_place, at_index, bind. rewrite Ho. cbn. by rewrite (locate_at _ D) by (done || apply Hquiet).
Qed.

Lemma new_from_file_still h o D : names D -> w_fds w !! h = Some o -> w_fs w !! D = Some o -> forall orig, components orig = components (absolute_path D) ->
  new_from_file h orig w = (Done (mkPinned h (absolute_path D)), w).
Proof.
  intros HD Hh Ho orig Hc. unfold new_from_file, bind, map_err, sys_fd_path, bind. rewrite others_quiet by apply Hquiet. unfold get, at_index.
  rewrite Hh. cbn. rewrite (locate_at _ D) by (done || apply Hquiet). cbn. unfold path_eqb. by rewrite bool_decide_eq_true_2.
Qed.

Lemma join_child D n : names D -> name n -> components (join (absolute_path D) [n]) = components (absolute_path (D ++ [n])).
Proof.
  intros HD Hn. rewrite components_join, !absolute_components by (done || apply absolute_is_absolute || by apply names_snoc).
  cbn. by rewrite Hn, fmap_app.
Qed.
End still.

Lemma openat_still w pp D n : quiet w -> open_dir w pp D -> name n -> (forall t, kind_at (w_fs w) (D ++ [n]) <> Some (KLink t)) ->
  sys_openat (pp_handle pp) n w =
    match w_fs w !! (D ++ [n]) with
    | None => (Fail ENOENT, w)
    | Some o => (Done (length (w_fds w)), set_w_fds (w_fds w ++ [o]) w)
    end.
Proof.
  intros Hq Hd Hn Hlink. unfold sys_openat, bind at 1. rewrite others_quiet by apply Hq. unfold bind at 1, get, bind at 1.
  rewrite (fd_place_still w Hq pp D Hd), walk_cons, (open_dir_is_dir _ _ _ Hd). cbn [negb]. rewrite Hn. unfold bind, kind_at in *.
  destruct (w_fs w !! (D ++ [n])) as [[id [|mode|t]]|] eqn:Ho; cbn in *; rewrite ?walk_nil; cbn; rewrite ?Ho; [done|done|by destruct (Hlink t)|done].
Qed.

Lemma open_child_still w pp D n : quiet w -> open_dir w pp D -> plain n -> (forall t, kind_at (w_fs w) (D ++ [n]) <> Some (KLink t)) ->
  match w_fs w !! (D ++ [n]) with
  | None => exists e, open_child pp [n] w = (Fail e, w)
  | Some o => open_child pp [n] w = (Done (mkPinned (length (w_fds w)) (absolute_path (D ++ [n]))), set_w_fds (w_fds w ++ [o]) w)
  end.
Proof.
  intros Hq Hd [Hn Hz] Hlink. pose proof (open_dir_is_dir _ _ _ Hd) as Hdir.
  assert (HD : names D) by (apply is_dir_at_lookup in Hdir as (o & _ & Ho & _); by eapply ok_names; [apply Hq|]).
  unfold open_child, bind at 1 3. rewrite !prepare_plain by done. unfold bind, map_err. rewrite !(openat_still w pp D n) by done.
  destruct (w_fs w !! (D ++ [n])) as [o|] eqn:Ho; [|by eexists].
  eapply (new_from_file_still (set_w_fds (w_fds w ++ [o]) w)); [done|by apply names_snoc|cbn; by rewrite lookup_app_r, Nat.sub_diag|done|].
  rewrite (od_target _ _ _ Hd). by apply join_child.
Qed.

(** A directory that was not there. *)
Definition mkdir_world (w : World) (p : Place) (mode : Z) : World :=
  let o := mkObj (fresh_id w) (KDir (Z.ldiff mode (w_umask w))) in
  set_w_fds (w_fds w ++ [o]) (set_w_fs (<[p := o]> (w_fs w)) w).

Lemma pinned_mkdir_still w pp D n mode : quiet w -> open_dir w pp D -> plain n -> w_fs w !! (D ++ [n]) = None ->
  pinned_mkdir pp [n] mode w = (Done (mkPinned (length (w_fds w)) (absolute_path (D ++ [n]))), mkdir_world w (D ++ [n]) mode).
Proof.
  intros Hq Hd Hn Hnone. pose proof (open_dir_is_dir _ _ _ Hd) as Hdir. unfold pinned_mkdir, bind at 1. rewrite prepare_plain by done.
  set (o := mkObj (fresh_id w) (KDir (Z.ldiff mode (w_umask w)))). set (w1 := set_w_fs (<[D ++ [n] := o]> (w_fs w)) w).
  assert (Hmk : map_err OsError (sys_mkdirat (pp_handle pp) n mode) w = (Done tt, w1)).
  { unfold map_err, sys_mkdirat, bind at 1. rewrite others_quiet by apply Hq. unfold bind at 1, get, bind at 1.
    by rewrite (fd_place_still w Hq pp D Hd), Hdir, Hnone. }
  unfold bind. rewrite Hmk. destruct Hd as [(od & m & Hfd & Hat & Hk) Ht].
  assert (Hne : D ++ [n] <> D) by (intros Heq; rewrite Heq, Hat in Hnone; done).
  assert (Hq1 : quiet w1) by (split; [apply Hq|apply fs_ok_mkdir; [apply Hq|done|done|apply Hn]]).
  assert (Hd1 : open_dir w1 pp D) by (split; [exists od, m; cbn; by rewrite lookup_insert_ne|done]).
  pose proof (open_child_still w1 pp D n Hq1 Hd1 Hn) as Hopen. unfold kind_at in Hopen. cbn [w_fs w1 set_w_fs] in Hopen.
  rewrite lookup_insert_eq in Hopen. rewrite Hopen by done. done.
Qed.

(** What becomes of a request to make [q] in the directory [D]: it succeeds, or it fails
    with an error. *)
Fixpoint mkdir_fate (recursive : bool) (fs : Fs) (D q : Place) : option SafeError :=
  match q with
  | [] => None
  | n :: rest =>
    if is_dir_at fs (D ++ [n]) then
      if negb recursive && bool_decide (rest = []) then Some AlreadyExists else mkdir_fate recursive fs (D ++ [n]) rest
    else match fs !! (D ++ [n]) with
    | Some _ => Some NotADirectory
    | None => if negb recursive && negb (bool_decide (rest = [])) then Some ParentMissing else None
    end
  end.

(** Directories on the way to [D ++ q] were added, and nothing else. *)
Definition made (fs fs' : Fs) (D q : Place) (mode : Z) : Prop := forall p,
  fs' !! p = fs !! p \/
  fs !! p = None /\ (exists k l, q = k ++ l /\ p = D ++ k) /\ exists id, fs' !! p = Some (mkObj id (KDir mode)).

Definition no_links (fs : Fs) (D q : Place) : Prop := forall p n l t, q = p ++ n :: l -> kind_at fs ((D ++ p) ++ [n]) <> Some (KLink t).

Lemma no_links_tail fs D n q : no_links fs D (n :: q) -> no_links fs (D ++ [n]) q.
Proof. intros Hc p m l t ->. rewrite <- (app_assoc D [n] p). by apply (Hc (n :: p) m l). Qed.

Lemma made_refl fs D q mode : made fs fs D q mode.
Proof. intros p. by left. Qed.

Lemma made_cons fs fs' D n q mode : made fs fs' (D ++ [n]) q mode -> made fs fs' D (n :: q) mode.
Proof.
  intros Hm p. destruct (Hm p) as [?|(? & (k & l & -> & ->) & ?)]; [by left|right]. split_and!; [done| |done].
  exists (n :: k), l. by rewrite <- app_assoc.
Qed.

Lemma mkdir_world_open w D n mode : quiet w -> is_dir_at (w_fs w) D = true -> plain n -> w_fs w !! (D ++ [n]) = None ->
  let w' := mkdir_world w (D ++ [n]) mode in
  quiet w' /\ open_dir w' (mkPinned (length (w_fds w)) (absolute_path (D ++ [n]))) (D ++ [n]).
Proof.
  intros Hq Hd Hn Hnone. split; [split; [apply Hq|apply fs_ok_mkdir; [apply Hq|done|done|apply Hn]]|]. split; [|done].
  eexists _, _. cbn. rewrite lookup_app_r, Nat.sub_diag, lookup_insert_eq by done. by split_and!.
Qed.

(** Below a directory that was just made there is nothing. *)
Lemma mkdir_world_rest w D n q mode recursive : quiet w -> is_dir_at (w_fs w) D = true -> w_fs w !! (D ++ [n]) = None ->
  let fs' := w_fs (mkdir_world w (D ++ [n]) mode) in
  no_links fs' (D ++ [n]) q /\ (recursive = true \/ q = [] -> mkdir_fate recursive fs' (D ++ [n]) q = None).
Proof.
  intros [_ Hok] Hd Hnone. cbn zeta. assert (Hnew : forall m k, w_fs (mkdir_world w (D ++ [n]) mode) !! ((D ++ [n]) ++ m :: k) = None).
  { intros m k. cbn. rewrite lookup_insert_ne by (intros Heq; apply (f_equal length) in Heq; rewrite !length_app in Heq; cbn in Heq; lia).
    destruct (w_fs w !! ((D ++ [n]) ++ m :: k)) as [o|] eqn:Ho; [|done]. apply prefix_dir in Ho; [|done|done]. unfold is_dir_at, kind_at in Ho. by rewrite Hnone in Ho. }
  split.
  - intros p m l t _. unfold kind_at. rewrite <- app_assoc. destruct p as [|m' p]; cbn [app]; by rewrite Hnew.
  - intros Hr. destruct q as [|m q]; [done|]. cbn [mkdir_fate]. unfold is_dir_at, kind_at. rewrite Hnew. cbn. by destruct Hr as [->|].
Qed.

Lemma is_dir_still w h o : quiet w -> w_fds w !! h = Some o ->
  map_err OsError (sys_is_dir h) w = (Done (match obj_kind o with KDir _ => true | _ => false end), w).
Proof. intros [He _] Hh. unfold map_err, sys_is_dir, bind, get, at_index. rewrite others_quiet by done. by rewrite Hh. Qed.

Definition with_fd (o : Obj) (w : World) : World := set_w_fds (w_fds w ++ [o]) w.
Lemma with_fd_open w D o mode : quiet w -> w_fs w !! D = Some o -> obj_kind o = KDir mode ->
  open_dir (with_fd o w) (mkPinned (length (w_fds w)) (absolute_path D)) D.
Proof. intros Hq Ho Hk. split; [|done]. exists o, mode. cbn. by rewrite lookup_app_r, Nat.sub_diag. Qed.

Lemma mkdir_loop_still b levels idx q w pp D : quiet w -> open_dir w pp D -> Forall plain q -> no_links (w_fs w) D q ->
  (idx + length q = S levels)%nat ->
  match mkdir_fate (b_recursive b) (w_fs w) D q with
  | Some e => exists w', mkdir_loop b levels idx (component_path <$> (Normal <$> q)) pp w = (Fail e, w') /\ w_fs w' = w_fs w
  | None => exists pp' w', mkdir_loop b levels idx (component_path <$> (Normal <$> q)) pp w = (Done pp', w') /\
      open_dir w' pp' (D ++ q) /\ made (w_fs w) (w_fs w') D q (Z.ldiff (b_mode b) (w_umask w))
  end.
Proof.
  revert idx w pp D. induction q as [|n q IH]; intros idx w pp D Hq Hd Hp Hlinks Hlen.
  { exists pp, w. rewrite app_nil_r. split_and!; [done|done|apply made_refl]. }
  apply Forall_cons in Hp as [Hn Hp]. cbn [mkdir_fate fmap list_fmap component_path mkdir_loop].
  assert (Hlast : bool_decide (idx = levels) = bool_decide (q = [])) by (apply bool_decide_ext; destruct q; cbn in Hlen; split; (done || lia)).
  pose proof (open_dir_is_dir _ _ _ Hd) as Hdir.
  assert (Hlink : forall t, kind_at (w_fs w) (D ++ [n]) <> Some (KLink t)) by (intros t; pose proof (Hlinks [] n q t eq_refl) as H; by rewrite app_nil_r in H).
  pose proof (open_child_still w pp D n Hq Hd Hn Hlink) as Hopen. unfold bind at 1 4, catch. rewrite Hlast.
  destruct (w_fs w !! (D ++ [n])) as [o|] eqn:Ho.
  - rewrite Hopen. fold (with_fd o w). unfold bind. cbn [pp_handle]. rewrite (is_dir_still (with_fd o w) _ o) by (done || cbn; by rewrite lookup_app_r, Nat.sub_diag).
    unfold is_dir_at, kind_at. rewrite Ho. cbn [fmap option_fmap option_map]. destruct (obj_kind o) as [|mode|t] eqn:Hk; [by eexists| |by eexists].
    cbn [negb]. destruct (negb (b_recursive b) && bool_decide (q = [])); [by eexists|].
    specialize (IH (S idx) (with_fd o w) _ (D ++ [n]) Hq (with_fd_open w _ o mode Hq Ho Hk) Hp (no_links_tail _ _ _ _ Hlinks) ltac:(cbn in Hlen; lia)).
    change (w_fs (with_fd o w)) with (w_fs w) in IH. destruct (mkdir_fate _ _ (D ++ [n]) q); [done|].
    destruct IH as (pp' & w' & Hrun & Hod & Hm). exists pp', w'. rewrite <- (app_assoc D [n] q) in Hod. split_and!; [done|done|by apply made_cons].
  - destruct Hopen as [e Hopen]. rewrite Hopen. unfold is_dir_at, kind_at. rewrite Ho. cbn [fmap option_fmap option_map].
    destruct (negb (b_recursive b) && negb (bool_decide (q = []))) eqn:Hstop; [by eexists|]. unfold bind. rewrite (pinned_mkdir_still w pp D n) by done.
    destruct (mkdir_world_open w D n (b_mode b) Hq Hdir Hn Ho) as [Hq' Hd'].
    destruct (mkdir_world_rest w D n q (b_mode b) (b_recursive b) Hq Hdir Ho) as [Hl' Hf'].
    specialize (IH (S idx) _ _ (D ++ [n]) Hq' Hd' Hp Hl' ltac:(cbn in Hlen; lia)).
    rewrite Hf' in IH by (destruct (b_recursive b); [by left|]; right; destruct q; done).
    destruct IH as (pp' & w' & Hrun & Hod & Hm). exists pp', w'. rewrite <- (app_assoc D [n] q) in Hod. split_and!; [done|done|].
    intros p. destruct (Hm p) as [Hsame|(Hnone & (k & l & -> & ->) & Hid)]; cbn in *.
    + destruct (decide (p = D ++ [n])) as [->|Hne]; [|left; by rewrite Hsame, lookup_insert_ne].
      right. split_and!; [done|by exists [n], q|]. rewrite Hsame, lookup_insert_eq. by eexists.
    + apply lookup_insert_None in Hnone as [Hnone _]. right. split_and!; [done| |done]. exists (n :: k), l. by rewrite <- app_assoc.
Qed.

(** The root itself is there already. *)
Definition create_fate (recursive : bool) (fs : Fs) (R q : Place) : option SafeError :=
  match q with
  | [] => if recursive then None else Some AlreadyExists
  | _ => mkdir_fate recursive fs R q
  end.

Lemma try_clone_still w pp D : quiet w -> open_dir w pp D -> exists pp' w', try_clone pp w = (Done pp', w') /\ open_dir w' pp' D /\ quiet w' /\ w_fs w' = w_fs w /\ w_umask w' = w_umask w.
Proof.
  intros Hq [(o & mode & Hfd & Ho & Hk) Ht]. exists (mkPinned (length (w_fds w)) (pp_target pp)), (with_fd o w). rewrite Ht. split_and!; [|by eapply with_fd_open|done|done|done].
  unfold try_clone, bind, map_err, sys_dup, bind, get, at_index. rewrite others_quiet by apply Hq. rewrite Hfd. cbn. by rewrite Ht.
Qed.

Lemma relative_inj p q : names p -> names q -> relative_path p = relative_path q -> p = q.
Proof.
  intros Hp Hq Heq. apply (f_equal components) in Heq. rewrite !relative_components in Heq by done. by simplify_eq.
Qed.

Lemma scoped_resolve_still w pp R path q w1 : quiet w -> open_dir w pp R -> names q ->
  scoped_resolve (RootPinned (pp_handle pp)) path w = (Done (relative_path q), w1) -> w1 = w /\ no_links (w_fs w) R q.
Proof.
  intros [He Hok] [(o & mode & Hfd & Ho & Hk) Ht] Hq Hrun.
  assert (HR : names R) by (by eapply ok_names).
  assert (Hloop : resolve_loop (absolute_path R) MAX_SYMLINK_DEPTH no_path path w = (Done (relative_path q), w1)).
  { unfold scoped_resolve, do_scoped_resolve, bind, map_err in Hrun. cbn [canonicalize_root] in Hrun. unfold sys_fd_path, bind, get, at_index in Hrun.
    rewrite others_quiet in Hrun by done. rewrite Hfd in Hrun. cbn [ret] in Hrun. unfold ret in Hrun. rewrite (locate_at _ R) in Hrun by done.
    destruct (resolve_loop (absolute_path R) MAX_SYMLINK_DEPTH no_path path w) as [[]]; unfold ret in Hrun; cbn in Hrun; by simplify_eq. }
  pose proof (loop_clean w Hok He R HR MAX_SYMLINK_DEPTH [] path (Forall_nil_2 _)) as Hc. unfold wp in Hc. change (relative_path []) with no_path in Hc.
  rewrite Hloop in Hc. destruct Hc as (-> & q' & Hq' & Heq & Hcl); [by intros [] ? ? ?|]. apply relative_inj in Heq as <-; [|done..]. done.
Qed.

(** C25: When nobody interferes, the directory that was asked for is made.
    The path is resolved in the root to [q].  In recursive mode the missing directories
    on the way are added with the mode of the builder and nothing else changes; without
    it only the last one is.  What is there already, a file in the way or a missing
    parent give the documented errors, and then nothing has changed. *)
Theorem create_exact w b R path q w1 :
  quiet w -> open_dir w (b_root b) R -> Forall plain q ->
  scoped_resolve (RootPinned (pp_handle (b_root b))) path w = (Done (relative_path q), w1) ->
  match create_fate (b_recursive b) (w_fs w) R q with
  | Some e => exists w', create b path w = (Fail e, w') /\ w_fs w' = w_fs w
  | None => exists h w', create b path w = (Done h, w') /\ open_dir w' h (R ++ q) /\
      made (w_fs w) (w_fs w') R q (Z.ldiff (b_mode b) (w_umask w))
  end.
Proof.
  intros Hq Hroot Hp Hrun. assert (Hn : names q) by (eapply Forall_impl; [exact Hp|by intros ? []]).
  destruct (scoped_resolve_still _ _ _ _ _ _ Hq Hroot Hn Hrun) as [-> Hl].
  assert (Hcreate : create b path w = do_mkdir b (relative_path q) w) by (unfold create, bind; by rewrite Hrun).
  rewrite Hcreate. unfold do_mkdir. rewrite relative_is_absolute, relative_components by done. unfold file_name. rewrite relative_components by done.
  destruct (try_clone_still w (b_root b) R Hq Hroot) as (pp & w' & Hc & Hd & Hq' & Hfs & Hu).
  destruct q as [|n q]; [destruct (b_recursive b); cbn; [|by eexists]|].
  - exists pp, w'. rewrite app_nil_r, Hfs. split_and!; [done|done|apply made_refl].
  - assert (exists m, last (Normal <$> (n :: q)) = Some (Normal m)) as [m ->].
    { rewrite fmap_last. destruct (last (n :: q)) as [m|] eqn:Hlast; [by exists m|]. by apply last_None in Hlast. }
    unfold bind. rewrite Hc. rewrite <- Hfs, <- Hu. rewrite <- Hfs in Hl. apply (mkdir_loop_still b _ 0 (n :: q) w' pp R Hq' Hd Hp Hl).
    rewrite length_fmap. cbn. lia.
Qed.
