(* ===== verification/SafePathRun.v ===== *)
(** A small file system with links that lead astray, on which the path handling of the
    agent is run: the cases of its tests, an attack, and paths that escape. *)
From stdpp Require Import base gmap strings list fin_maps.
From Stdlib Require Import Ascii.
From S2P Require Import Prelude HostFs PathFs SafePath SafePathProofs SafeDirProofs.

Notation path s := (split_path s).
Definition dir_obj (id : Z) : Obj := mkObj id (KDir 493).
Definition link_obj (id : Z) (target : string) : Obj := mkObj id (KLink (path target)).

(** The root of a container is /run/c; /etc is the host's. *)
Definition host_files : list (Place * Obj) := [
  ([], dir_obj 0); (["run"], dir_obj 1); (["run"; "c"], dir_obj 2); (["etc"], dir_obj 3);
  (["run"; "c"; "bin"], dir_obj 4); (["run"; "c"; "file"], mkObj 5 KFile);
  (["run"; "c"; "up"], link_obj 6 "../../../"); (["run"; "c"; "abs"], link_obj 7 "/bin/../bin");
  (["run"; "c"; "loop"], link_obj 8 "loop"); (["run"; "c"; "evil"], link_obj 9 "/../../etc"); (["run"; "c"; "out"], link_obj 10 "nope/../../../etc");
  (["run"; "c"; "bin"; "sh"], link_obj 11 "../file"); (["alias"], link_obj 12 "run/./c")].
Definition host_fs : Fs := list_to_map host_files.
Definition host (events : list Event) : World := mkWorld host_fs [] [] 18 events.

Definition places_ok (l : list (Place * Obj)) : bool :=
  forallb (fun e => forallb (fun n => bool_decide (name n)) e.1 &&
    match e.1 with [] => true | _ => is_dir_at (list_to_map l : Fs) (removelast e.1) end) l &&
  bool_decide (NoDup (obj_id ∘ snd <$> l)) && bool_decide (NoDup l.*1) && is_dir_at (list_to_map l : Fs) [].

Lemma places_ok_sound l : places_ok l = true -> fs_ok (list_to_map l).
Proof.
  unfold places_ok. rewrite !andb_true_iff. intros (((Hall & Hids) & Hnd) & Hroot). apply bool_decide_eq_true in Hids, Hnd.
  assert (Hin : forall p o, (list_to_map l : Fs) !! p = Some o -> (p, o) ∈ l) by (intros p o Ho; by apply elem_of_list_to_map_2).
  assert (Hev : forall p o, (p, o) ∈ l -> names p /\ match p with [] => true | _ => is_dir_at (list_to_map l : Fs) (removelast p) end = true).
  { intros p o Hpo. apply list_elem_of_In in Hpo. apply forallb_forall with (x := (p, o)) in Hall; [|done].
    apply andb_true_iff in Hall as [Hn Hp]. split; [|done]. apply Forall_forall. intros n Hn'. apply list_elem_of_In in Hn'.
    rewrite forallb_forall in Hn. by eapply bool_decide_eq_true, Hn. }
  split; [| | done|].
  - intros p q o o' Ho Ho' Hid. apply Hin in Ho, Ho'. apply list_elem_of_lookup_1 in Ho as [i Hi], Ho' as [j Hj].
    assert (i = j) as <-.
    { eapply (NoDup_lookup (obj_id ∘ snd <$> l)); [done|by rewrite list_lookup_fmap, Hi|]. rewrite list_lookup_fmap, Hj. cbn. by rewrite Hid. }
    rewrite Hi in Hj. by simplify_eq.
  - intros p o Ho. by apply Hin, Hev in Ho as [? _].
  - intros p n o Ho. apply Hin, Hev in Ho as [_ Hp]. rewrite removelast_last in Hp. by destruct p.
Qed.

Lemma host_ok : fs_ok host_fs.
Proof. apply places_ok_sound. vm_compute. reflexivity. Qed.

Definition resolved (p : string) : outcome SafeError Path := (scoped_resolve (RootPath (path "/alias")) (path p) (host [])).1.

(** As in the tests of the crate. *)
Lemma resolve_examples :
  resolved <$> ["../../../a/../../b/../../c"; "/usr/./bin/../../bin/./ls/."; ".."; "."; "up"; "abs/x"; "bin/sh"; "evil"; "out"; "loop"] =
  [Done (path "c"); Done (path "bin/ls"); Done no_path; Done no_path; Done no_path; Done (path "bin/x"); Done (path "file"); Done (path "etc"); Done (path "etc"); Fail TooManyLinks].
Proof. vm_compute. reflexivity. Qed.

Lemma scoped_resolve_is_chroot_witness :
  scoped_resolve (RootPath (path "/alias")) (path "bin/sh") (host []) = (Done ["file"], host []).
Proof.
  destruct (scoped_resolve_is_chroot (host []) (path "/alias") ["run"; "c"] (path "bin/sh")) as [Hw _];
    [exact host_ok|reflexivity|vm_compute; reflexivity|repeat constructor|].
  destruct (Hw ["run"; "c"; "file"]) as (q & Hq & Hrun); [vm_compute; reflexivity|].
  apply (app_inv_head ["run"; "c"] ["file"]) in Hq as <-. exact Hrun.
Defined.

Lemma scoped_join_scoped_witness :
  let w := host [mkEvent id None; mkEvent id None; mkEvent (fun _ => ∅) (Some EACCES)] in
  exists p root q, (scoped_join (RootPath (path "/alias")) (path "bin/../up/../evil") w).1 = Done p /\
    root = path "/run/c" /\ names q /\ components p = components root ++ (Normal <$> q).
Proof.
  set (w := host _). pose proof (scoped_join_scoped (RootPath (path "/alias")) (path "bin/../up/../evil") w I) as Hs.
  assert (Hrun : (scoped_join (RootPath (path "/alias")) (path "bin/../up/../evil") w).1 = Done (path "/run/c/evil")) by (vm_compute; reflexivity).
  assert (Hroot : (canonicalize_root (RootPath (path "/alias")) w).1 = Done (path "/run/c")) by (vm_compute; reflexivity).
  destruct (scoped_join _ _ w) as [o w']. cbn in Hrun. subst o. destruct Hs as (root & w1 & q & Hc & Hq & Hcomp). rewrite Hc in Hroot. injection Hroot as ->.
  exists (path "/run/c/evil"), (path "/run/c"), q. done.
Defined.

(** ** An attack

    A link to the host's /etc takes the place of a directory of the container. *)
Definition evil_fs : Fs := <[["run"; "c"; "bin"] := link_obj 4 "/etc"]> (delete ["run"; "c"; "bin"; "sh"] host_fs).
Definition swap (fs : Fs) : Fs := if decide (fs = host_fs) then evil_fs else fs.

Lemma evil_ok : fs_ok evil_fs.
Proof. rewrite <- (list_to_map_to_list evil_fs). apply places_ok_sound. vm_compute. reflexivity. Qed.

Lemma swap_confined : confined ["run"; "c"] (mkEvent swap None).
Proof.
  intros fs Hok. cbn. unfold swap. case_decide as Heq; [|done]. subst. split; [exact evil_ok|]. intros p Hp. unfold evil_fs.
  rewrite lookup_insert_ne, lookup_delete_ne; [done|intros <-; apply Hp; by exists "bin", ["sh"]|intros <-; apply Hp; by exists "bin", []].
Qed.

Lemma id_confined R : confined R (mkEvent id None).
Proof. intros fs Hok. done. Qed.

(** The swap comes after the path was resolved and before it is opened: the descriptor
    is found to be of /etc, and making the directory anew fails. *)
Definition attack : list Event := replicate 8 (mkEvent id None) ++ [mkEvent swap None].
Definition host_builder : ScopedDirBuilder := mkBuilder (mkPinned 0 (path "/run/c")) 511 false.

Lemma builder_confined_witness :
  let w1 := (builder_new (path "/alias") (host attack)).2 in
  let run := create (builder_recursive true host_builder) (path "bin/new") w1 in
  run.1 = Fail (OsError EEXIST) /\ agree ["run"; "c"] host_fs (w_fs run.2).
Proof.
  cbn zeta. set (w1 := (builder_new (path "/alias") (host attack)).2).
  assert (Hnew : (builder_new (path "/alias") (host attack)).1 = Done host_builder) by (vm_compute; reflexivity).
  split; [vm_compute; reflexivity|].
  apply (builder_confined ["run"; "c"] (path "/alias") (host attack) host_builder w1 511 true false (path "bin/new")
    (create (builder_recursive true host_builder) (path "bin/new") w1).1 (create (builder_recursive true host_builder) (path "bin/new") w1).2).
  - exact host_ok.
  - apply Forall_app. split; [apply Forall_replicate, id_confined|]. constructor; [apply swap_confined|constructor].
  - rewrite <- Hnew. apply surjective_pairing.
  - reflexivity.
  - apply surjective_pairing.
Defined.

(** Nobody interferes: two directories are made, with the umask taken off. *)
Lemma create_exact_witness :
  let w := (builder_new (path "/alias") (host [])).2 in
  exists h w', create (builder_recursive true host_builder) (path "/bin/x/../new/dir") w = (Done h, w') /\
    open_dir w' h ["run"; "c"; "bin"; "new"; "dir"] /\ made host_fs (w_fs w') ["run"; "c"] ["bin"; "new"; "dir"] 493.
Proof.
  cbn zeta. set (w := (builder_new (path "/alias") (host [])).2). assert (Hw : w = with_fd (dir_obj 2) (host [])) by (vm_compute; reflexivity).
  apply (create_exact w (builder_recursive true host_builder) ["run"; "c"] (path "/bin/x/../new/dir") ["bin"; "new"; "dir"] w).
  - rewrite Hw. split; [reflexivity|exact host_ok].
  - rewrite Hw. split; [|reflexivity]. exists (dir_obj 2), 493%Z. split_and!; vm_compute; reflexivity.
  - repeat constructor.
  - rewrite Hw. vm_compute. reflexivity.
Defined.

(** ** Paths that escape

    [secure_join] keeps the parent directories of an absolute link, and those of a
    relative link whose target does not exist; [..] in the path is dropped without
    leaving the directory before it. *)
Lemma secure_join_examples :
  (fun p => (secure_join (path "/run/c") (path p) (host [])).1) <$> ["../../../a/b"; "up"; "evil"; "out"; "bin/../x"] =
  [Done (path "/run/c/a/b"); Done (path "/run/c"); Done (path "/run/c/../../etc"); Done (path "/run/c/nope/../../../etc"); Done (path "/run/c/bin/x")].
Proof. vm_compute. reflexivity. Qed.

(** The kernel takes the path for the mount to the host's directory. *)
Lemma secure_join_escapes : exists p, (secure_join (path "/run/c") (path "evil") (host [])).1 = Done p /\ resolve_path true p (host []) = Ok ["etc"].
Proof. exists (path "/run/c/../../etc"). by vm_compute. Qed.

(** A link that cannot be read is taken for a name, and stays in the result. *)
Lemma unreadable_link_kept :
  let run := scoped_join (RootPath (path "/run/c")) (path "evil") (host [mkEvent id None; mkEvent id (Some EACCES)]) in
  run.1 = Done (path "/run/c/evil") /\ resolve_path true (path "/run/c/evil") run.2 = Ok ["etc"].
Proof. by vm_compute. Qed.
