(* ===== verification/RawFile.v ===== *)
(** The file below a disk image (hypervisor/qcow/src/raw_file.rs): reads and writes that
    are rounded to blocks when the file was opened for direct I/O are, byte for byte, plain
    reads and writes. *)
From stdpp Require Import base numbers list.
From S2P Require Import Prelude Bytes.

#[local] Open Scope Z_scope.

(** ** A file of the host

    Its bytes and its length; what lies past the end reads as zero once the file grows. *)
Record File := mkFile { f_bytes : Z -> Z; f_len : Z }.

Definition fbyte (f : File) (o : Z) : Z := if decide (0 <= o < f_len f) then f_bytes f o else 0.

Definition pread (f : File) (off n : Z) : list Z := fbyte f <$> seqZ off (Z.min n (f_len f - off)).

(** Writing past the end extends the file; a write of nothing does not. *)
Definition pwrite (f : File) (off : Z) (bs : list Z) : File :=
  if decide (bs = []) then f
  else mkFile (fun o => if decide (off <= o < off + Z.of_nat (length bs)) then bs !!! Z.to_nat (o - off) else fbyte f o)
              (Z.max (f_len f) (off + Z.of_nat (length bs))).

Definition ftruncate (f : File) (n : Z) : File := mkFile (fun o => if decide (o < n) then fbyte f o else 0) n.

(** What the crate vmm_sys_util does to a range of a file, [WriteZeroesAt] and
    [PunchHole]: the range reads as zero afterwards.  A hole leaves the length alone;
    writing zeros may or may not extend the file to the end of the range. *)
Class HostFile := {
  file_write_zeroes_at : File -> Z -> Z -> File;
  file_punch_hole : File -> Z -> Z -> File;
}.

Definition zeroed (f : File) (off n : Z) (f' : File) : Prop :=
  (forall o, fbyte f' o = if decide (off <= o < off + n) then 0 else fbyte f o) /\
  f_len f <= f_len f' <= Z.max (f_len f) (off + n).

Class HostFileLaws `{HostFile} : Prop := {
  write_zeroes_law f off n : 0 <= off -> 0 <= n -> zeroed f off n (file_write_zeroes_at f off n);
  punch_hole_law f off n : 0 <= off -> 0 <= n -> zeroed f off n (file_punch_hole f off n);
}.

(** ** [RawFile]

    [position] is the offset of the descriptor, which [RawFile] tracks.  [rf_io] scripts the
    answers of the system calls to come, and [rf_ptrs] whether the buffers the callers pass
    lie at an aligned address.  A call past the end of the script succeeds. *)
Inductive io_error := OsError (errno : Z) | UnexpectedEof | WriteZero | InvalidData | Unsupported.
#[export] Instance io_error_eq_dec : EqDecision io_error.
Proof. solve_decision. Defined.

Definition raw_os_error (e : io_error) : option Z := match e with OsError n => Some n | _ => None end.
Definition EINTR : Z := 4.
Definition EINVAL : Z := 22.
Definition ENOSPC : Z := 28.
Definition ENOTSUP : Z := 95.

(** The answer of a system call; a read or a write may transfer fewer bytes than asked for. *)
Inductive io_answer := Complete | Short (n : Z) | Errno (e : Z).

Record RawFile := mkRawFile {
  file : File;
  alignment : Z;
  position : Z;
  rf_io : list io_answer;
  rf_ptrs : list bool;
}.
Definition set_raw (f : File) (pos : Z) (r : RawFile) : RawFile := mkRawFile f (alignment r) pos (rf_io r) (rf_ptrs r).

Notation RF := (M RawFile io_error).

(** A system call that transfers up to [n] bytes: how many it transfers, the end of the file
    aside. *)
Definition transfer (n : Z) : RF Z := fun r =>
  match rf_io r with
  | [] => (Done n, r)
  | a :: io =>
    let r' := mkRawFile (file r) (alignment r) (position r) io (rf_ptrs r) in
    match a with
    | Complete => (Done n, r')
    | Short k => (Done (Z.max 0 (Z.min k n)), r')
    | Errno e => (Fail (OsError e), r')
    end
  end.
(** Any other one. *)
Definition sys_call : RF unit := transfer 0 ;;; ret tt.

Definition round_up (r : RawFile) (offset : Z) : Z := (offset + alignment r - 1) / alignment r * alignment r.
Definition round_down (r : RawFile) (offset : Z) : Z := offset / alignment r * alignment r.

Definition is_aligned (len : Z) : RF bool := fun r =>
  if decide (alignment r = 0) then (Done true, r)
  else match rf_ptrs r with
       | [] => (Done (bool_decide (position r mod alignment r = 0) && bool_decide (len mod alignment r = 0)), r)
       | p :: ptrs =>
         (Done (bool_decide (position r mod alignment r = 0) && p && bool_decide (len mod alignment r = 0)),
          mkRawFile (file r) (alignment r) (position r) (rf_io r) ptrs)
       end.

(** [.unwrap()] on an [io::Result] *)
Definition unwrapped {A} (m : RF A) : RF A := fun r =>
  match m r with (Done a, r') => (Done a, r') | (_, r') => (Crashed, r') end.

Inductive SeekFrom := Start (off : Z) | End_ (off : Z) | Current (off : Z).

(** The kernel takes the offset as a signed number. *)
Definition seek (newpos : SeekFrom) : RF Z :=
  sys_call ;;;
  let* r := get in
  let pos := match newpos with Start o => o | End_ o => f_len (file r) + o | Current o => position r + o end in
  if decide (pos < 0 \/ 2 ^ 63 <= match newpos with Start o => o | _ => 0 end) then throw (OsError EINVAL)
  else modify (set_raw (file r) pos) ;;; ret pos.

(** [Read::read]: the bytes that were read; fewer than asked for at the end of the file or
    when the call is short.  A read of nothing into an unaligned buffer is rounded to no
    block at all and reads nothing; the code asks the allocator for a layout of size zero
    there, which its comment excludes. *)
Definition read (buf_len : Z) : RF (list Z) :=
  let* aligned := is_aligned buf_len in
  if aligned : bool then
    let* n := transfer buf_len in
    let* r := get in
    let bs := pread (file r) (position r) n in
    modify (set_raw (file r) (position r + Z.of_nat (length bs))) ;;;
    ret bs
  else
    let* r := get in
    let rounded_pos := round_down r (position r) in
    let file_offset := position r - rounded_pos in
    let rounded_len := round_up r (file_offset + buf_len) in
    let* n := transfer rounded_len in
    let tmp := pread (file r) rounded_pos n in
    let read := Z.of_nat (length tmp) in
    if decide (read < file_offset) then ret []
    else
      let to_copy := if decide (read - file_offset > buf_len) then buf_len else read - file_offset in
      let bs := take (Z.to_nat to_copy) (drop (Z.to_nat file_offset) tmp) in
      unwrapped (seek (Current to_copy)) ;;;
      ret bs.

(** [Write::write]: the number of bytes written.  The blocks around an unaligned range are
    read first; what that read does not deliver is zero in the buffer that is written. *)
Definition write (buf : list Z) : RF Z :=
  let buf_len := Z.of_nat (length buf) in
  let* aligned := is_aligned buf_len in
  if aligned : bool then
    let* n := transfer buf_len in
    let* r := get in
    modify (set_raw (pwrite (file r) (position r) (take (Z.to_nat n) buf)) (position r + n)) ;;;
    ret n
  else
    let* r := get in
    let rounded_pos := round_down r (position r) in
    let file_offset := position r - rounded_pos in
    let rounded_len := round_up r (file_offset + buf_len) in
    let* n := transfer rounded_len in
    let tmp := pread (file r) rounded_pos n in
    let tmp_buf := tmp ++ replicate (Z.to_nat rounded_len - length tmp)%nat 0 in
    let tmp_buf := take (Z.to_nat file_offset) tmp_buf ++ buf ++ drop (Z.to_nat (file_offset + buf_len)) tmp_buf in
    let* written := transfer (Z.of_nat (length tmp_buf)) in
    modify (fun r => set_raw (pwrite (file r) rounded_pos (take (Z.to_nat written) tmp_buf)) (position r) r) ;;;
    if decide (written < file_offset) then ret 0
    else
      let to_seek := if decide (written - file_offset > buf_len) then buf_len else written - file_offset in
      unwrapped (seek (Current to_seek)) ;;;
      ret to_seek.

(** [Read::read_exact] and [Write::write_all], the loops of the standard library.  Each
    round transfers a byte, ends the loop, or was interrupted, which the script says. *)
Definition or_retry {A B} (m : RF A) (k : A -> RF B) (again : RF B) : RF B := fun r =>
  match m r with
  | (Done a, r') => k a r'
  | (Fail e, r') => if decide (e = OsError EINTR) then again r' else (Fail e, r')
  | (Crashed, r') => (Crashed, r')
  end.

Fixpoint read_exact_loop (fuel : nat) (n : Z) : RF (list Z) :=
  match fuel with
  | O => throw UnexpectedEof
  | S fuel =>
    if decide (n <= 0) then ret []
    else
      or_retry (read n)
        (fun bs => if decide (bs = []) then throw UnexpectedEof
                   else let* rest := read_exact_loop fuel (n - Z.of_nat (length bs)) in ret (bs ++ rest))
        (read_exact_loop fuel n)
  end.
Definition read_exact (n : Z) : RF (list Z) :=
  let* r := get in read_exact_loop (S (Z.to_nat n + length (rf_io r))) n.

Fixpoint write_all_loop (fuel : nat) (bs : list Z) : RF unit :=
  match fuel with
  | O => throw WriteZero
  | S fuel =>
    if decide (bs = []) then ret tt
    else
      or_retry (write bs)
        (fun n => if decide (n = 0) then throw WriteZero else write_all_loop fuel (drop (Z.to_nat n) bs))
        (write_all_loop fuel bs)
  end.
Definition write_all (bs : list Z) : RF unit :=
  let* r := get in write_all_loop (S (length bs + length (rf_io r))) bs.

Definition set_len (size : Z) : RF unit := sys_call ;;; modify (fun r => set_raw (ftruncate (file r) size) (position r) r).
(** [metadata().len()] *)
Definition metadata_len : RF Z := sys_call ;;; let* r := get in ret (f_len (file r)).
Definition sync_all : RF unit := sys_call.
Definition sync_data : RF unit := sys_call.

Section host_calls.
Context `{HostFile}.

Definition write_zeroes_at (offset length : Z) : RF Z :=
  sys_call ;;;
  modify (fun r => set_raw (file_write_zeroes_at (file r) offset length) (position r) r) ;;;
  ret length.
Definition punch_hole (offset length : Z) : RF unit :=
  sys_call ;;;
  modify (fun r => set_raw (file_punch_hole (file r) offset length) (position r) r).
(** [WriteZeroes::write_zeroes], which the crate defines by the two calls. *)
Definition write_zeroes (length : Z) : RF Z :=
  let* offset := seek (Current 0) in
  let* n := write_zeroes_at offset length in
  seek (Current n) ;;;
  ret length.
End host_calls.

(** [ReadBytesExt] and [WriteBytesExt] at [BigEndian] *)
Definition be_bytes (n : nat) (v : Z) : list Z := reverse (le_bytes n v).
Definition be_value (bs : list Z) : Z := le_value (reverse bs).
Definition read_be (n : nat) : RF Z := let* bs := read_exact (Z.of_nat n) in ret (be_value bs).
Definition write_be (n : nat) (v : Z) : RF unit := write_all (be_bytes n v).

(** ** What the calls do

    With every call succeeding and every transfer complete. *)
Definition quiet (r : RawFile) : Prop := rf_io r = [].
Definition sane (r : RawFile) : Prop := quiet r /\ 0 <= alignment r /\ 0 <= position r /\ 0 <= f_len (file r).

(** The file was left as it was. *)
Definition kept_file (r r' : RawFile) : Prop := file r' = file r /\ alignment r' = alignment r /\ sane r'.

(** [bs] was written at [off]; rounding a write to blocks may lengthen the file up to the
    end of the block. *)
Definition wrote (off : Z) (bs : list Z) (r r' : RawFile) : Prop :=
  (forall o, fbyte (file r') o =
     if decide (off <= o < off + Z.of_nat (length bs)) then bs !!! Z.to_nat (o - off) else fbyte (file r) o) /\
  Z.max (f_len (file r)) (off + Z.of_nat (length bs)) <= f_len (file r') /\
  (f_len (file r') <= Z.max (f_len (file r)) (off + Z.of_nat (length bs)) \/
   (alignment r | f_len (file r')) /\ 0 < alignment r /\ f_len (file r') < off + Z.of_nat (length bs) + alignment r) /\
  alignment r' = alignment r /\ sane r'.

Lemma fbyte_outside f o : ~ (0 <= o < f_len f) -> fbyte f o = 0.
Proof. intros Ho. unfold fbyte. by rewrite decide_False. Qed.

Lemma fbyte_pwrite f off bs o :
  0 <= off -> bs <> [] ->
  fbyte (pwrite f off bs) o =
    if decide (off <= o < off + Z.of_nat (length bs)) then bs !!! Z.to_nat (o - off) else fbyte f o.
Proof.
  intros Hoff Hbs. unfold fbyte at 1, pwrite. rewrite (decide_False _ _ Hbs). cbn [f_bytes f_len].
  destruct (decide (off <= o < off + _)) as [Hin|Hin]; [by rewrite decide_True by lia|].
  destruct (decide (0 <= o < Z.max _ _)); [done|]. symmetry. apply fbyte_outside. lia.
Qed.

Lemma f_len_pwrite f off bs : bs <> [] -> f_len (pwrite f off bs) = Z.max (f_len f) (off + Z.of_nat (length bs)).
Proof. intros Hbs. unfold pwrite. by rewrite decide_False. Qed.

Lemma fbyte_ftruncate f n o : f_len f <= n -> fbyte (ftruncate f n) o = fbyte f o.
Proof.
  intros Hn. unfold fbyte at 1, ftruncate. cbn [f_bytes f_len].
  destruct (decide (0 <= o < n)); [by rewrite decide_True by lia|]. symmetry. apply fbyte_outside. lia.
Qed.

Lemma pread_length f off n : 0 <= n -> Z.of_nat (length (pread f off n)) = Z.max 0 (Z.min n (f_len f - off)).
Proof. intros Hn. unfold pread. rewrite length_fmap, length_seqZ. lia. Qed.

Lemma pread_lookup f off n k x :
  pread f off n !! k = Some x <-> x = fbyte f (off + Z.of_nat k) /\ Z.of_nat k < Z.min n (f_len f - off).
Proof.
  unfold pread. rewrite list_lookup_fmap, fmap_Some. setoid_rewrite lookup_seqZ. naive_solver.
Qed.

Lemma pread_full f off n : 0 <= n -> off + n <= f_len f -> pread f off n = fbyte f <$> seqZ off n.
Proof. intros. unfold pread. by rewrite Z.min_l by lia. Qed.

Section raw_wp.
Implicit Types (r : RawFile) (X : io_error -> RawFile -> Prop).

Lemma wp_transfer n (Q : Z -> RawFile -> Prop) X r : quiet r -> Q n r -> wp (transfer n) Q X r.
Proof. unfold quiet, wp, transfer. by intros ->. Qed.
Lemma wp_sys_call (Q : unit -> RawFile -> Prop) X r : quiet r -> Q tt r -> wp sys_call Q X r.
Proof. intros Hq HQ. by apply wp_bind, wp_transfer, wp_ret. Qed.

Lemma wp_or_retry {A B} (m : RF A) (k : A -> RF B) again (Q : B -> RawFile -> Prop) X r :
  wp m (fun a => wp (k a) Q X) (fun _ _ => False) r -> wp (or_retry m k again) Q X r.
Proof. unfold wp at 1 3, or_retry. by destruct (m r) as [[]]. Qed.

Lemma wp_is_aligned n (Q : bool -> RawFile -> Prop) X r :
  sane r ->
  (forall b r', kept_file r r' -> position r' = position r -> (b = false -> 0 < alignment r) -> Q b r') ->
  wp (is_aligned n) Q X r.
Proof.
  intros (Hq & Ha & Hp & Hl) HQ. unfold wp, is_aligned. destruct (decide _) as [Hz|Hz]; [by apply HQ|].
  destruct (rf_ptrs r) as [|p ps]; apply HQ; repeat split; cbn; (done || lia).
Qed.

Lemma wp_unwrapped {A} (m : RF A) (Q : A -> RawFile -> Prop) X r :
  wp m Q (fun _ _ => False) r -> wp (unwrapped m) Q X r.
Proof. unfold wp, unwrapped. by destruct (m r) as [[]]. Qed.

Lemma wp_seek pos (Q : Z -> RawFile -> Prop) X r :
  sane r ->
  let p := match pos with Start o => o | End_ o => f_len (file r) + o | Current o => position r + o end in
  0 <= p -> match pos with Start o => o < 2 ^ 63 | _ => True end ->
  (forall r', kept_file r r' -> position r' = p -> Q p r') -> wp (seek pos) Q X r.
Proof.
  intros (Hq & Ha & Hp & Hl) p Hpos Hsigned HQ. unfold seek. apply wp_bind, wp_sys_call; [done|].
  apply wp_bind, wp_get. rewrite decide_False by (destruct pos; lia).
  apply wp_bind, wp_modify, wp_ret, HQ; [|done]. repeat split; done.
Qed.

(** The block range around [n] bytes at [p]. *)
Lemma rounding p a n :
  0 < a -> 0 <= p ->
  let rp := p / a * a in let rl := (p - rp + n + a - 1) / a * a in
  p - a < rp <= p /\ p - rp + n <= rl < p - rp + n + a /\ 0 <= rp /\ (a | rp + rl).
Proof.
  intros Ha Hp rp rl.
  pose proof (Z.div_mod p a). pose proof (Z.mod_pos_bound p a). pose proof (Z.div_pos p a).
  pose proof (Z.div_mod (p - rp + n + a - 1) a). pose proof (Z.mod_pos_bound (p - rp + n + a - 1) a).
  split; [nia|split; [nia|split; [nia|]]]. apply Z.divide_add_r; apply Z.divide_factor_r.
Qed.

(** Direct I/O reads what a plain read reads. *)
Lemma wp_read n (Q : list Z -> RawFile -> Prop) X r :
  sane r -> 0 <= n ->
  (forall r', kept_file r r' -> position r' = position r + Z.of_nat (length (pread (file r) (position r) n)) ->
     Q (pread (file r) (position r) n) r') ->
  wp (read n) Q X r.
Proof.
  intros Hr Hn HQ. unfold read. apply wp_bind, wp_is_aligned; [done|]. intros b r1 (Hf1 & Ha1 & Hs1) Hp1 Hb.
  pose proof Hs1 as (Hq1 & Hal1 & Hpos1 & Hlen1). destruct b.
  - apply wp_bind, wp_transfer; [done|]. apply wp_bind, wp_get, wp_bind, wp_modify, wp_ret.
    rewrite Hf1, Hp1. apply HQ; [|done]. repeat split; cbn; (done || congruence || lia).
  - specialize (Hb eq_refl). apply wp_bind, wp_get, wp_bind, wp_transfer; [done|].
    unfold round_up, round_down. rewrite Hf1, Hp1, Ha1. set (a := alignment r) in *. set (p := position r) in *.
    destruct (rounding p a n) as (Hrp & Hrl & _); [lia..|].
    set (rp := p / a * a) in *. set (rl := (p - rp + n + a - 1) / a * a) in *.
    rewrite pread_length by lia.
    case_decide as Hshort.
    + assert (pread (file r) p n = []) as Hnil; [|rewrite Hnil in HQ; apply wp_ret, HQ; [by repeat split|cbn; lia]].
      apply length_zero_iff_nil. pose proof (pread_length (file r) p n Hn). lia.
    + set (tc := if decide _ then n else _). assert (tc = Z.of_nat (length (pread (file r) p n))) as Htc.
      { rewrite pread_length by done. unfold tc. case_decide; lia. }
      assert (take (Z.to_nat tc) (drop (Z.to_nat (p - rp)) (pread (file r) rp rl)) = pread (file r) p n) as ->.
      { apply list_eq_same_length with (length (pread (file r) p n)); [done| |].
        - rewrite length_take, length_drop. pose proof (pread_length (file r) rp rl ltac:(lia)). pose proof (pread_length (file r) p n Hn). lia.
        - intros k x y Hk. rewrite lookup_take_lt, lookup_drop by lia. rewrite !pread_lookup.
          intros [-> _] [-> _]. f_equal. lia. }
      apply wp_bind, wp_unwrapped, wp_seek; [done|rewrite Hp1; lia|done|]. intros r2 (Hf2 & Ha2 & Hs2) Hp2.
      apply wp_ret, HQ; [|by rewrite Hp2, Hp1, Htc]. split; [congruence|]. split; [by rewrite Ha2|done].
Qed.

Lemma wrote_pwrite off bs r r' :
  0 <= off -> bs <> [] -> file r' = pwrite (file r) off bs -> alignment r' = alignment r -> sane r' -> wrote off bs r r'.
Proof.
  intros Hoff Hbs Hf Ha Hs. unfold wrote. rewrite Hf, f_len_pwrite by done. split; [|split; [lia|]; split; [by left|done]].
  intros o. by apply fbyte_pwrite.
Qed.

(** A block that was read, changed between [a] and [b] and written back. *)
Lemma rewrite_block f rp rl p bs o :
  0 <= rp <= p -> p + Z.of_nat (length bs) <= rp + rl ->
  let tmp := pread f rp rl in
  let buf := tmp ++ replicate (Z.to_nat rl - length tmp)%nat 0 in
  let new := take (Z.to_nat (p - rp)) buf ++ bs ++ drop (Z.to_nat (p - rp + Z.of_nat (length bs))) buf in
  Z.of_nat (length new) = rl /\
  (rp <= o < rp + rl ->
   new !!! Z.to_nat (o - rp) =
     if decide (p <= o < p + Z.of_nat (length bs)) then bs !!! Z.to_nat (o - p) else fbyte f o).
Proof.
  intros Hrp Hp tmp buf new. pose proof (pread_length f rp rl ltac:(lia)) as Htmp. fold tmp in Htmp.
  assert (Z.of_nat (length buf) = rl) as Hbuf by (unfold buf; rewrite length_app, length_replicate; lia).
  split; [unfold new; rewrite !length_app, length_take, length_drop; lia|]. intros Ho.
  assert (buf !!! Z.to_nat (o - rp) = fbyte f o) as Hold.
  { unfold buf. destruct (decide (o - rp < Z.of_nat (length tmp))) as [Hin|Hout].
    - rewrite lookup_total_app_l by lia. apply list_lookup_total_correct, pread_lookup. split; [f_equal; lia|lia].
    - rewrite lookup_total_app_r, lookup_total_replicate_2 by lia. symmetry. apply fbyte_outside. lia. }
  unfold new. destruct (decide (o < p)) as [Hlo|Hlo].
  - rewrite lookup_total_app_l by (rewrite length_take; lia). rewrite lookup_total_take_lt by lia. by rewrite decide_False by lia.
  - rewrite lookup_total_app_r by (rewrite length_take; lia). rewrite length_take, Nat.min_l by lia.
    destruct (decide (o < p + Z.of_nat (length bs))) as [Hin|Hin].
    + rewrite lookup_total_app_l, decide_True by lia. f_equal. lia.
    + rewrite lookup_total_app_r, lookup_total_drop, decide_False by lia. rewrite <- Hold. f_equal. lia.
Qed.

(** Direct I/O writes what a plain write writes. *)
Lemma wp_write bs (Q : Z -> RawFile -> Prop) X r :
  sane r -> bs <> [] ->
  (forall r', wrote (position r) bs r r' -> position r' = position r + Z.of_nat (length bs) ->
     Q (Z.of_nat (length bs)) r') ->
  wp (write bs) Q X r.
Proof.
  intros Hr Hbs HQ. unfold write. apply wp_bind, wp_is_aligned; [done|]. intros b r1 (Hf1 & Ha1 & Hs1) Hp1 Hb.
  pose proof Hs1 as (Hq1 & Hal1 & Hpos1 & Hlen1). destruct b.
  - apply wp_bind, wp_transfer; [done|]. apply wp_bind, wp_get, wp_bind, wp_modify, wp_ret.
    rewrite take_ge by lia. rewrite Hf1, Hp1. apply HQ; [|done]. apply wrote_pwrite; [lia|done..|].
    repeat split; cbn; rewrite ?f_len_pwrite by done; (done || lia).
  - specialize (Hb eq_refl). apply wp_bind, wp_get, wp_bind, wp_transfer; [done|].
    unfold round_up, round_down. rewrite Hf1, Hp1, Ha1.
    destruct (rounding (position r) (alignment r) (Z.of_nat (length bs))) as (Hrp & Hrl & Hrp0 & Hdiv); [lia..|].
    set (a := alignment r) in *. set (p := position r) in *. set (n := Z.of_nat (length bs)) in *.
    set (rp := p / a * a) in *. set (rl := (p - rp + n + a - 1) / a * a) in *.
    pose proof (fun o => rewrite_block (file r) rp rl p bs o ltac:(lia) ltac:(lia)) as Hblock.
    cbn zeta in Hblock. fold n in Hblock. set (new := take _ _ ++ _) in *. destruct (Hblock 0) as [Hlen _].
    apply wp_bind, wp_transfer; [done|]. apply wp_bind, wp_modify. rewrite take_ge by lia.
    rewrite Hlen, decide_False by lia.
    set (ts := if decide _ then _ else _). assert (ts = n) as -> by (unfold ts; case_decide; lia).
    assert (new <> []) as Hnew by (intros ->; destruct bs; cbn in *; [done|lia]).
    rewrite Hf1, Hp1. apply wp_bind, wp_unwrapped, wp_seek; [|cbn; lia|done|].
    { repeat split; cbn; rewrite ?f_len_pwrite by done; (done || lia). }
    intros r2 (Hf2 & Ha2 & Hs2) Hp2. cbn in Hf2, Ha2, Hp2. apply wp_ret, HQ; [|done]. split; [|split; [|split; [|split; [by rewrite Ha2|done]]]].
    + intros o. rewrite Hf2, fbyte_pwrite, Hlen by done. specialize (Hblock o) as [_ Hblock].
      destruct (decide (rp <= o < rp + rl)) as [Hin|Hin]; [by apply Hblock|]. by rewrite decide_False by lia.
    + rewrite Hf2, f_len_pwrite, Hlen by done. lia.
    + rewrite Hf2, f_len_pwrite, Hlen by done.
      destruct (decide (f_len (file r) < rp + rl)); [right|left; lia]. rewrite Z.max_r by lia. split; [done|lia].
Qed.

Lemma wp_read_exact n (Q : list Z -> RawFile -> Prop) X r :
  sane r -> 0 <= n -> position r + n <= f_len (file r) ->
  (forall r', kept_file r r' -> position r' = position r + n -> Q (fbyte (file r) <$> seqZ (position r) n) r') ->
  wp (read_exact n) Q X r.
Proof.
  intros Hr Hn Hlen HQ. unfold read_exact. apply wp_bind, wp_get. cbn [read_exact_loop]. case_decide as Hz.
  { replace n with 0 in * by lia. apply wp_ret, HQ; [done|lia]. }
  rewrite <- pread_full in HQ by lia. pose proof (pread_length (file r) (position r) n Hn) as Hl.
  apply wp_or_retry, wp_read; [done..|]. intros r1 Hk1 Hp1.
  rewrite decide_False by (intros Hnil; rewrite Hnil in Hl; cbn in Hl; lia).
  replace (n - Z.of_nat _) with 0 by lia. apply wp_bind.
  replace (read_exact_loop _ 0) with (ret (S := RawFile) (E := io_error) (A := list Z) []) by (destruct (Z.to_nat n + _)%nat eqn:?; [lia|done]).
  apply wp_ret, wp_ret. rewrite app_nil_r. apply HQ; [done|lia].
Qed.

Lemma wp_write_all bs (Q : unit -> RawFile -> Prop) X r :
  sane r -> bs <> [] ->
  (forall r', wrote (position r) bs r r' -> position r' = position r + Z.of_nat (length bs) -> Q tt r') ->
  wp (write_all bs) Q X r.
Proof.
  intros Hr Hbs HQ. unfold write_all. apply wp_bind, wp_get. cbn [write_all_loop]. rewrite (decide_False _ _ Hbs).
  apply wp_or_retry, wp_write; [done..|]. intros r' Hw Hp.
  assert (length bs <> 0%nat) by by destruct bs. rewrite decide_False by lia.
  rewrite drop_ge by lia. destruct (length bs + _)%nat eqn:Hl; [lia|]. cbn. by apply wp_ret, HQ.
Qed.

Lemma wp_set_len n (Q : unit -> RawFile -> Prop) X r :
  sane r -> f_len (file r) <= n ->
  (forall r', (forall o, fbyte (file r') o = fbyte (file r) o) -> f_len (file r') = n -> alignment r' = alignment r ->
     sane r' -> Q tt r') ->
  wp (set_len n) Q X r.
Proof.
  intros (Hq & Ha & Hp & Hl) Hn HQ. unfold set_len. apply wp_bind, wp_sys_call; [done|]. apply wp_modify, HQ; [|done..|].
  - intros o. by apply fbyte_ftruncate.
  - repeat split; cbn; (done || lia).
Qed.

Lemma wp_metadata_len (Q : Z -> RawFile -> Prop) X r : sane r -> Q (f_len (file r)) r -> wp metadata_len Q X r.
Proof. intros (Hq & _) HQ. unfold metadata_len. by apply wp_bind, wp_sys_call, wp_bind, wp_get, wp_ret. Qed.

Context `{HostFile, !HostFileLaws}.

(** [n] bytes at [off] were zeroed. *)
Definition zeroed_file (off n : Z) (r r' : RawFile) : Prop :=
  zeroed (file r) off n (file r') /\ alignment r' = alignment r /\ sane r'.

Lemma wp_write_zeroes_at off n (Q : Z -> RawFile -> Prop) X r :
  sane r -> 0 <= off -> 0 <= n ->
  (forall r', zeroed_file off n r r' -> position r' = position r -> Q n r') -> wp (write_zeroes_at off n) Q X r.
Proof.
  intros (Hq & Ha & Hp & Hl) Hoff Hn HQ. unfold write_zeroes_at.
  apply wp_bind, wp_sys_call, wp_bind, wp_modify, wp_ret, HQ; [done| |done].
  pose proof (write_zeroes_law (file r) off n Hoff Hn) as [Hb Hlen].
  split; [done|split; [done|]]. repeat split; cbn; (done || lia).
Qed.

Lemma wp_punch_hole off n (Q : unit -> RawFile -> Prop) X r :
  sane r -> 0 <= off -> 0 <= n -> (forall r', zeroed_file off n r r' -> Q tt r') -> wp (punch_hole off n) Q X r.
Proof.
  intros (Hq & Ha & Hp & Hl) Hoff Hn HQ. unfold punch_hole. apply wp_bind, wp_sys_call, wp_modify, HQ; [done|].
  pose proof (punch_hole_law (file r) off n Hoff Hn) as [Hb Hlen].
  split; [done|split; [done|]]. repeat split; cbn; (done || lia).
Qed.

Lemma wp_write_zeroes n (Q : Z -> RawFile -> Prop) X r :
  sane r -> 0 <= n -> (forall r', zeroed_file (position r) n r r' -> Q n r') -> wp (write_zeroes n) Q X r.
Proof.
  intros Hr Hn HQ. pose proof Hr as (_ & _ & Hp & _). unfold write_zeroes.
  apply wp_bind, wp_seek; [done|lia|done|]. intros r1 (Hf1 & Ha1 & Hs1) Hp1.
  apply wp_bind, wp_write_zeroes_at; [done|lia|lia|]. intros r2 (Hz2 & Ha2 & Hs2) Hp2.
  apply wp_bind, wp_seek; [done|lia|done|]. intros r3 (Hf3 & Ha3 & Hs3) Hp3.
  apply wp_ret, HQ. unfold zeroed_file. rewrite Hf3, Ha3, Ha2, Ha1, <- Hf1.
  replace (position r) with (position r + 0) by lia. done.
Qed.
End raw_wp.

(** ** Big-endian integers *)
Lemma be_bytes_length n v : length (be_bytes n v) = n.
Proof. unfold be_bytes. by rewrite length_reverse, le_bytes_length. Qed.
Lemma be_value_bytes n v : 0 <= v < 2 ^ (8 * Z.of_nat n) -> be_value (be_bytes n v) = v.
Proof. intros Hv. unfold be_value, be_bytes. rewrite reverse_involutive. by apply le_value_bytes. Qed.
Lemma be_bytes_ok n v : Forall byte_ok (be_bytes n v).
Proof. apply Forall_reverse, le_bytes_ok. Qed.
Lemma be_value_width bs : Forall byte_ok bs -> in_width (8 * Z.of_nat (length bs)) (be_value bs).
Proof. intros Hbs. unfold be_value. rewrite <- (length_reverse bs). by apply le_value_width, Forall_reverse. Qed.

(** ** Direct I/O *)
(** The same file, opened without direct I/O. *)
Definition buffered_file (r : RawFile) : RawFile := mkRawFile (file r) 0 (position r) (rf_io r) (rf_ptrs r).

Lemma sane_buffered r : sane r -> sane (buffered_file r).
Proof. by intros (Hq & Ha & Hp & Hl). Qed.

Lemma wp_result {A} (m : RF A) (Q : A -> RawFile -> Prop) r : wp m Q (fun _ _ => False) r -> exists a r', m r = (Done a, r') /\ Q a r'.
Proof. unfold wp. destruct (m r) as [[a| |] r']; [eauto|done..]. Qed.

