(* ===== verification/QcowTables.v ===== *)
(** The tables of a qcow2 image: their clusters on the file
    (hypervisor/qcow/src/qcow_raw_file.rs), the cached ones
    (hypervisor/qcow/src/vec_cache.rs) and the reference counts of the clusters
    (hypervisor/qcow/src/refcount.rs). *)
From stdpp Require Import base numbers list gmap.
From S2P Require Import Prelude Bytes RawFile.

#[local] Open Scope Z_scope.

(** ** [QcowRawFile] *)
Record QcowRawFile := mkQcowRawFile {
  qf_file : RawFile;
  cluster_size : Z;
  cluster_mask : Z;
}.
Definition set_qf (f : RawFile) (q : QcowRawFile) : QcowRawFile := mkQcowRawFile f (cluster_size q) (cluster_mask q).
Notation QF := (M QcowRawFile io_error).
(** [self.file], and [raw_file.file_mut()] *)
Definition on_file {A} (m : RF A) : QF A := zoom qf_file set_qf m.

(** [cluster_size.count_ones() != 1] refuses what is not a power of two. *)
Definition raw_from (f : RawFile) (size : Z) : option QcowRawFile :=
  if decide (0 < size /\ 2 ^ Z.log2 size = size) then Some (mkQcowRawFile f size (size - 1)) else None.

(** The entries of a table of [w]-byte integers. *)
Fixpoint be_entries (w count : nat) (bs : list Z) : list Z :=
  match count with
  | O => []
  | S count => be_value (take w bs) :: be_entries w count (drop w bs)
  end.

Definition read_pointer_table (offset count : Z) (mask : option Z) : QF (list Z) :=
  on_file (seek (Start offset)) ;;;
  let* bs := on_file (read_exact (8 * count)) in
  let table := be_entries 8 (Z.to_nat count) bs in
  ret (match mask with Some m => (fun ptr => Z.land ptr m) <$> table | None => table end).

Definition read_pointer_cluster (offset : Z) (mask : option Z) : QF (list Z) :=
  let* q := get in read_pointer_table offset (cluster_size q / 8) mask.

(** A [BufWriter] whose buffer holds all that is written to it: a single piece fills the
    buffer and is passed on at once, more pieces are written when the writer is dropped,
    where an error is lost. *)
Definition buffered (pieces : list (list Z)) : RF unit :=
  match pieces with
  | [] => ret tt
  | [p] => write_all p
  | _ => ignore (write_all (concat pieces))
  end.

Definition entry_value (flags addr : Z) : Z := if decide (addr = 0) then 0 else Z.lor addr flags.
Definition write_pointer_table (offset : Z) (table : list Z) (non_zero_flags : Z) : QF unit :=
  on_file (seek (Start offset)) ;;;
  on_file (buffered (be_bytes 8 <$> (entry_value non_zero_flags <$> table))).

Definition read_refcount_block (offset : Z) : QF (list Z) :=
  let* q := get in
  let count := cluster_size q / 2 in
  on_file (seek (Start offset)) ;;;
  let* bs := on_file (read_exact (2 * count)) in
  ret (be_entries 2 (Z.to_nat count) bs).

Definition write_refcount_block (offset : Z) (table : list Z) : QF unit :=
  on_file (seek (Start offset)) ;;;
  on_file (buffered (be_bytes 2 <$> table)).

Definition add_cluster_end (max_valid_cluster_offset : Z) : QF (option Z) :=
  let* q := get in
  let* file_end := on_file (seek (End_ 0)) in
  let new_cluster_address := Z.land (wsub 64 (wadd 64 file_end (cluster_size q)) 1) (unot 64 (cluster_mask q)) in
  if decide (new_cluster_address > max_valid_cluster_offset) then ret None
  else
    on_file (set_len (wadd 64 new_cluster_address (cluster_size q))) ;;;
    ret (Some new_cluster_address).

Definition cluster_offset (q : QcowRawFile) (address : Z) : Z := Z.land address (cluster_mask q).

Definition zero_cluster `{HostFile} (address : Z) : QF unit :=
  let* q := get in
  on_file (seek (Start address)) ;;;
  on_file (write_zeroes (cluster_size q)) ;;;
  ret tt.

(** ** [VecCache] *)
Record VecCache := mkVecCache { vec : list Z; dirty : bool }.
Definition vec_new (count : Z) : VecCache := mkVecCache (replicate (Z.to_nat count) 0) true.
Definition from_vec (v : list Z) : VecCache := mkVecCache v false.
Definition mark_clean (c : VecCache) : VecCache := mkVecCache (vec c) false.
Definition vec_get (c : VecCache) (index : Z) : option Z := vec c !! Z.to_nat index.
(** [IndexMut]: the element is handed out, so the table counts as modified. *)
Definition vec_set (index v : Z) (c : VecCache) : VecCache := mkVecCache (<[Z.to_nat index := v]> (vec c)) true.

(** ** [CacheMap]

    A map of the hash tables of the standard library, whose order is not specified:
    [picks] says which element comes first when one has to go. *)
Record CacheMap := mkCacheMap { capacity : nat; cmap : gmap nat VecCache; picks : list nat }.
Definition cache_new (capacity : nat) (picks : list nat) : CacheMap := mkCacheMap capacity ∅ picks.
Definition set_cmap (m : gmap nat VecCache) (c : CacheMap) : CacheMap := mkCacheMap (capacity c) m (picks c).

(** [self.map.iter().next().unwrap().0] *)
Definition first_key (c : CacheMap) : option nat :=
  let keys := (map_to_list (cmap c)).*1 in
  keys !! (default 0 (head (picks c)) mod length keys)%nat.

Definition cache_insert (index : nat) (block : VecCache) (write_callback : nat -> VecCache -> QF unit) :
    M (CacheMap * QcowRawFile) io_error unit :=
  let* (c, _) := get in
  (if decide (size (cmap c) = capacity c) then
     match first_key c with
     | None => crash
     | Some to_evict =>
       match cmap c !! to_evict with
       | None => ret tt
       | Some evicted =>
         modify (fun s => (mkCacheMap (capacity c) (delete to_evict (cmap c)) (tail (picks c)), s.2)) ;;;
         if dirty evicted then zoom snd (fun q s => (s.1, q)) (write_callback to_evict evicted) else ret tt
       end
     end
   else ret tt) ;;;
  modify (fun s => (set_cmap (<[index := block]> (cmap s.1)) s.1, s.2)).

(** ** [RefCount] *)
Inductive RefError :=
| EvictingRefCounts (e : io_error)
| RefInvalidIndex
| NeedCluster (addr : Z)
| NeedNewCluster
| ReadingRefCounts (e : io_error).

Record RefCount := mkRefCount {
  ref_table : VecCache;
  refcount_table_offset : Z;
  refblock_cache : CacheMap;
  refcount_block_entries : Z;
  rc_cluster_size : Z;
  max_valid_cluster_offset : Z;
}.
Definition set_ref_table (t : VecCache) (r : RefCount) : RefCount :=
  mkRefCount t (refcount_table_offset r) (refblock_cache r) (refcount_block_entries r) (rc_cluster_size r) (max_valid_cluster_offset r).
Definition set_refblocks (c : CacheMap) (r : RefCount) : RefCount :=
  mkRefCount (ref_table r) (refcount_table_offset r) c (refcount_block_entries r) (rc_cluster_size r) (max_valid_cluster_offset r).

Definition REFBLOCK_CACHE : nat := 50.

Definition refcount_new (table_offset table_entries block_entries size : Z) (order : list nat) : QF RefCount :=
  let* table := read_pointer_table table_offset table_entries None in
  let max_valid_cluster_index := wsub 64 (wmul 64 (Z.of_nat (length table)) block_entries) 1 in
  ret (mkRefCount (from_vec table) table_offset (cache_new REFBLOCK_CACHE order) block_entries size
         (wmul 64 max_valid_cluster_index size)).

Notation RC E := (M (RefCount * QcowRawFile) E).
Definition on_raw {E A} (m : M QcowRawFile E A) : RC E A := zoom snd (fun q s => (s.1, q)) m.
Definition on_refblocks {A} (m : M (CacheMap * QcowRawFile) io_error A) : RC io_error A :=
  zoom (fun s => (refblock_cache s.1, s.2)) (fun t s => (set_refblocks t.1 s.1, t.2)) m.

Definition get_refcount_index (r : RefCount) (address : Z) : Z * Z :=
  let block_index := (address / rc_cluster_size r) mod refcount_block_entries r in
  let table_index := (address / rc_cluster_size r) / refcount_block_entries r in
  (table_index, block_index).

(** Writing back a block that has to leave the cache. *)
Definition evict_refblock (t : VecCache) (index : nat) (evicted : VecCache) : QF unit :=
  match vec t !! index with
  | Some addr => write_refcount_block addr (vec evicted)
  | None => crash
  end.

Definition insert_refblock (index : Z) (block : VecCache) : RC RefError unit :=
  let* (r, _) := get in
  map_err EvictingRefCounts (on_refblocks (cache_insert (Z.to_nat index) block (evict_refblock (ref_table r)))).

Definition modify_rc {E} (f : RefCount -> RefCount) : RC E unit := modify (fun s => (f s.1, s.2)).

Definition set_refblock_entry (table_index block_index refcount : Z) (r : RefCount) : RefCount :=
  set_refblocks (set_cmap (alter (vec_set block_index refcount) (Z.to_nat table_index) (cmap (refblock_cache r))) (refblock_cache r)) r.

Definition rc_set_cluster_refcount (cluster_address refcount : Z) (new_cluster : option (Z * VecCache)) : RC RefError (option Z) :=
  let* (r, _) := get in
  let (table_index, block_index) := get_refcount_index r cluster_address in
  match vec_get (ref_table r) table_index with
  | None => throw RefInvalidIndex
  | Some block_addr_disk =>
    let* new_cluster :=
      match cmap (refblock_cache r) !! Z.to_nat table_index with
      | Some _ => ret new_cluster
      | None =>
        match new_cluster with
        | Some (addr, table) =>
          modify_rc (fun r => set_ref_table (vec_set table_index addr (ref_table r)) r) ;;;
          insert_refblock table_index table ;;;
          ret None
        | None => if decide (block_addr_disk = 0) then throw NeedNewCluster else throw (NeedCluster block_addr_disk)
        end
      end in
    let* (r, _) := get in
    match cmap (refblock_cache r) !! Z.to_nat table_index with
    | None => crash
    | Some block =>
      let* dropped_cluster :=
        if dirty block then ret None
        else match new_cluster with
             | Some (addr, _) =>
               modify_rc (fun r => set_ref_table (vec_set table_index addr (ref_table r)) r) ;;;
               ret (Some block_addr_disk)
             | None => throw NeedNewCluster
             end in
      modify_rc (set_refblock_entry table_index block_index refcount) ;;;
      match vec_get block block_index with Some _ => ret dropped_cluster | None => crash end
    end
  end.

Fixpoint flush_block_list (blocks : list (nat * VecCache)) : RC io_error unit :=
  match blocks with
  | [] => ret tt
  | (table_index, block) :: rest =>
    if dirty block then
      let* (r, _) := get in
      match vec (ref_table r) !! table_index with
      | None => crash
      | Some addr =>
        if decide (addr = 0) then throw (OsError EINVAL)
        else
          on_raw (write_refcount_block addr (vec block)) ;;;
          modify_rc (fun r => set_refblocks (set_cmap (<[table_index := mark_clean block]> (cmap (refblock_cache r))) (refblock_cache r)) r) ;;;
          flush_block_list rest
      end
    else flush_block_list rest
  end.
Definition flush_blocks : RC io_error unit :=
  let* (r, _) := get in flush_block_list (map_to_list (cmap (refblock_cache r))).

Definition flush_table : RC io_error bool :=
  let* (r, _) := get in
  if dirty (ref_table r) then
    on_raw (write_pointer_table (refcount_table_offset r) (vec (ref_table r)) 0) ;;;
    modify_rc (set_ref_table (mark_clean (ref_table r))) ;;;
    ret true
  else ret false.

(** The cached block [table_index], read into the cache first if need be. *)
Definition cached_refblock (table_index : Z) (block_addr_disk : Z) : RC RefError VecCache :=
  let* (r, _) := get in
  match cmap (refblock_cache r) !! Z.to_nat table_index with
  | Some block => ret block
  | None =>
    let* table := map_err ReadingRefCounts (on_raw (read_refcount_block block_addr_disk)) in
    insert_refblock table_index (from_vec table) ;;;
    ret (from_vec table)
  end.

Definition get_cluster_refcount (address : Z) : RC RefError Z :=
  let* (r, _) := get in
  let (table_index, block_index) := get_refcount_index r address in
  match vec_get (ref_table r) table_index with
  | None => throw RefInvalidIndex
  | Some block_addr_disk =>
    if decide (block_addr_disk = 0) then ret 0
    else
      let* block := cached_refblock table_index block_addr_disk in
      match vec_get block block_index with Some count => ret count | None => crash end
  end.

Definition refcount_block (table_index : Z) : RC RefError (option (list Z)) :=
  let* (r, _) := get in
  match vec_get (ref_table r) table_index with
  | None => throw RefInvalidIndex
  | Some block_addr_disk =>
    if decide (block_addr_disk = 0) then ret None
    else let* block := cached_refblock table_index block_addr_disk in ret (Some (vec block))
  end.
