(* ===== verification/QcowHeader.v ===== *)
(** The header of a qcow2 image, the arithmetic of its layout, the check on opening it and
    the rebuilding of its reference counts (hypervisor/qcow/src/qcow.rs). *)
From stdpp Require Import base numbers list gmap.
From S2P Require Import Prelude Bytes RawFile QcowTables.

#[local] Open Scope Z_scope.

Inductive Error :=
| BackingFilesNotSupported
| CompressedBlocksNotSupported
| EvictingCache (e : io_error)
| FileTooBig (size : Z)
| GettingFileSize (e : io_error)
| GettingRefcount (e : RefError)
| InvalidClusterIndex
| InvalidClusterSize
| InvalidIndex
| InvalidL1TableOffset
| InvalidL1TableSize (size : Z)
| InvalidMagic
| InvalidOffset (offset : Z)
| InvalidRefcountTableOffset
| InvalidRefcountTableSize (size : Z)
| NoFreeClusters
| NoRefcountClusters
| NotEnoughSpaceForRefcounts
| OpeningFile (e : io_error)
| ReadingData (e : io_error)
| ReadingHeader (e : io_error)
| ReadingPointers (e : io_error)
| ReadingRefCountBlock (e : RefError)
| ReadingRefCounts_ (e : io_error)
| RebuildingRefCounts (e : io_error)
| RefcountTableOffEnd
| RefcountTableTooLarge
| SeekingFile (e : io_error)
| SettingFileSize (e : io_error)
| SettingRefcountRefcount (e : io_error)
| SizeTooSmallForNumberOfClusters
| TooManyL1Entries (count : Z)
| TooManyRefcounts (count : Z)
| UnsupportedRefcountOrder
| UnsupportedVersion (v : Z)
| WritingData (e : io_error)
| WritingHeader (e : io_error).

Definition MAX_QCOW_FILE_SIZE : Z := Z.shiftl 1 44.
Definition QCOW_MAGIC : Z := 0x514649fb.
Definition DEFAULT_CLUSTER_BITS : Z := 16.
Definition MIN_CLUSTER_BITS : Z := 9.
Definition MAX_CLUSTER_BITS : Z := 21.
Definition MAX_RAM_POINTER_TABLE_SIZE : Z := 35000000.
Definition DEFAULT_REFCOUNT_ORDER : Z := 4.
Definition V2_BARE_HEADER_SIZE : Z := 72.
Definition V3_BARE_HEADER_SIZE : Z := 104.
Definition L1_TABLE_OFFSET_MASK : Z := 0x00fffffffffffe00.
Definition L2_TABLE_OFFSET_MASK : Z := 0x00fffffffffffe00.
Definition COMPRESSED_FLAG : Z := Z.shiftl 1 62.
Definition CLUSTER_USED_FLAG : Z := Z.shiftl 1 63.
Definition COMPATIBLE_FEATURES_LAZY_REFCOUNTS : Z := 1.

Record QcowHeader := mkQcowHeader {
  magic : Z; version : Z; backing_file_offset : Z; backing_file_size : Z; cluster_bits : Z; h_size : Z; crypt_method : Z;
  l1_size : Z; l1_table_offset : Z; h_refcount_table_offset : Z; refcount_table_clusters : Z; nb_snapshots : Z;
  snapshots_offset : Z; incompatible_features : Z; compatible_features : Z; autoclear_features : Z;
  refcount_order : Z; header_size : Z;
}.
(** [size_of::<QcowHeader>()]: ten [u32] and eight [u64]. *)
Definition QCOW_HEADER_SIZE : Z := 104.

Definition set_compatible (v : Z) (h : QcowHeader) : QcowHeader :=
  mkQcowHeader (magic h) (version h) (backing_file_offset h) (backing_file_size h) (cluster_bits h) (h_size h) (crypt_method h)
    (l1_size h) (l1_table_offset h) (h_refcount_table_offset h) (refcount_table_clusters h) (nb_snapshots h)
    (snapshots_offset h) (incompatible_features h) v (autoclear_features h) (refcount_order h) (header_size h).

Definition div_round_up_u64 (dividend divisor : Z) : Z := dividend / divisor + (if decide (dividend mod divisor = 0) then 0 else 1).
Definition div_round_up_u32 (dividend divisor : Z) : Z := dividend / divisor + (if decide (dividend mod divisor = 0) then 0 else 1).

Definition offset_is_cluster_boundary (offset bits : Z) : result Error unit :=
  if decide (Z.land offset (Z.shiftl 1 bits - 1) <> 0) then Err (InvalidOffset offset) else Ok tt.

Definition max_refcount_clusters (order size num_clusters : Z) : Z :=
  let refcount_bytes := Z.shiftl 1 order / 8 in
  let for_data := div_round_up_u64 (num_clusters * refcount_bytes) size in
  let for_refcounts := div_round_up_u64 (for_data * refcount_bytes) size in
  for_data + for_refcounts.

(** [QcowHeader::new] *)
Definition read_u32_from_file : M RawFile Error Z := map_err ReadingHeader (read_be 4).
Definition read_u64_from_file : M RawFile Error Z := map_err ReadingHeader (read_be 8).
(** A field of version 3, with its value in an older image. *)
Definition v3_field (version v2_value : Z) (m : M RawFile Error Z) : M RawFile Error Z :=
  if decide (version = 2) then ret v2_value else m.

Definition header_new : M RawFile Error QcowHeader :=
  map_err ReadingHeader (seek (Start 0)) ;;;
  let* magic := read_u32_from_file in
  if decide (magic <> QCOW_MAGIC) then throw InvalidMagic
  else
    let* version := read_u32_from_file in
    let* backing_file_offset := read_u64_from_file in
    let* backing_file_size := read_u32_from_file in
    let* cluster_bits := read_u32_from_file in
    let* size := read_u64_from_file in
    let* crypt_method := read_u32_from_file in
    let* l1_size := read_u32_from_file in
    let* l1_table_offset := read_u64_from_file in
    let* refcount_table_offset := read_u64_from_file in
    let* refcount_table_clusters := read_u32_from_file in
    let* nb_snapshots := read_u32_from_file in
    let* snapshots_offset := read_u64_from_file in
    let* incompatible_features := v3_field version 0 read_u64_from_file in
    let* compatible_features := v3_field version 0 read_u64_from_file in
    let* autoclear_features := v3_field version 0 read_u64_from_file in
    let* refcount_order := v3_field version DEFAULT_REFCOUNT_ORDER read_u32_from_file in
    let* header_size := v3_field version V2_BARE_HEADER_SIZE read_u32_from_file in
    ret (mkQcowHeader magic version backing_file_offset backing_file_size cluster_bits size crypt_method l1_size
           l1_table_offset refcount_table_offset refcount_table_clusters nb_snapshots snapshots_offset
           incompatible_features compatible_features autoclear_features refcount_order header_size).

(** The [u32] arithmetic of [create_for_size] wraps, and so do its casts. *)
Definition create_for_size (version size : Z) : QcowHeader :=
  let cluster_size := Z.shiftl 1 DEFAULT_CLUSTER_BITS in
  let entries_per_cluster := cluster_size / 8 in
  let num_clusters := wrap 32 (div_round_up_u64 size cluster_size) in
  let num_l2_clusters := div_round_up_u32 num_clusters entries_per_cluster in
  let l1_clusters := div_round_up_u32 num_l2_clusters entries_per_cluster in
  let header_clusters := div_round_up_u32 QCOW_HEADER_SIZE cluster_size in
  let max_refcount_clusters :=
    wrap 32 (max_refcount_clusters DEFAULT_REFCOUNT_ORDER cluster_size
      (wadd 32 (wadd 32 (wadd 32 num_clusters l1_clusters) num_l2_clusters) header_clusters)) in
  mkQcowHeader QCOW_MAGIC version 0 0 DEFAULT_CLUSTER_BITS size 0 num_l2_clusters cluster_size
    (wmul 32 cluster_size (wadd 32 l1_clusters 1))
    (div_round_up_u32 (wmul 32 max_refcount_clusters 8) cluster_size)
    0 0 0 0 0 DEFAULT_REFCOUNT_ORDER
    (if decide (version = 2) then V2_BARE_HEADER_SIZE else V3_BARE_HEADER_SIZE).

(** [QcowHeader::write_to], at the position of the file. *)
Definition write_u32_to_file (v : Z) : M RawFile Error unit := map_err WritingHeader (write_be 4 v).
Definition write_u64_to_file (v : Z) : M RawFile Error unit := map_err WritingHeader (write_be 8 v).

Definition write_to (h : QcowHeader) : M RawFile Error unit :=
  write_u32_to_file (magic h) ;;;
  write_u32_to_file (version h) ;;;
  write_u64_to_file (backing_file_offset h) ;;;
  write_u32_to_file (backing_file_size h) ;;;
  write_u32_to_file (cluster_bits h) ;;;
  write_u64_to_file (h_size h) ;;;
  write_u32_to_file (crypt_method h) ;;;
  write_u32_to_file (l1_size h) ;;;
  write_u64_to_file (l1_table_offset h) ;;;
  write_u64_to_file (h_refcount_table_offset h) ;;;
  write_u32_to_file (refcount_table_clusters h) ;;;
  write_u32_to_file (nb_snapshots h) ;;;
  write_u64_to_file (snapshots_offset h) ;;;
  write_u64_to_file (incompatible_features h) ;;;
  write_u64_to_file (compatible_features h) ;;;
  write_u64_to_file (autoclear_features h) ;;;
  write_u32_to_file (refcount_order h) ;;;
  write_u32_to_file (header_size h) ;;;
  let cluster_size := wrap 64 (Z.shiftl 1 (cluster_bits h mod 64)) in
  let refcount_blocks_size := wmul 64 (refcount_table_clusters h) cluster_size in
  map_err WritingHeader (seek (Start (wsub 64 (wadd 64 (h_refcount_table_offset h) refcount_blocks_size) 2))) ;;;
  map_err WritingHeader (write [0]) ;;;
  ret tt.

(** * Rebuilding the reference counts of a qcow2 image (hypervisor/qcow/src/qcow.rs,
    [QcowFile::rebuild_refcounts]), and checking an image on opening it. *)
Notation QE := (M QcowRawFile Error).

(** The counts are [u16]: an increment wraps. *)
Definition add_ref (refcounts : list Z) (size cluster_address : Z) : result Error (list Z) :=
  let idx := Z.to_nat (cluster_address / size) in
  match refcounts !! idx with
  | None => Err InvalidClusterIndex
  | Some c => Ok (<[idx := wadd 16 c 1]> refcounts)
  end.

Fixpoint add_refs (refcounts : list Z) (size : Z) (addrs : list Z) : result Error (list Z) :=
  match addrs with
  | [] => Ok refcounts
  | a :: rest => match add_ref refcounts size a with Ok refcounts => add_refs refcounts size rest | Err e => Err e end
  end.

Definition set_header_refcount (refcounts : list Z) (size : Z) : result Error (list Z) := add_ref refcounts size 0.

Definition run_of_clusters (offset count size : Z) : list Z := (fun i => wadd 64 offset (wmul 64 i size)) <$> seqZ 0 count.

Definition set_l1_refcounts (refcounts : list Z) (h : QcowHeader) (size : Z) : result Error (list Z) :=
  let entries_per_cluster := size / 8 in
  let l1_clusters := div_round_up_u64 (l1_size h) entries_per_cluster in
  add_refs refcounts size (run_of_clusters (l1_table_offset h) l1_clusters size).

Fixpoint set_l2_refcounts (refcounts : list Z) (l1_table : list Z) (size : Z) : QE (list Z) :=
  match l1_table with
  | [] => ret refcounts
  | l2_addr_disk :: rest =>
    if decide (l2_addr_disk = 0) then set_l2_refcounts refcounts rest size
    else
      let* refcounts := of_result (add_ref refcounts size l2_addr_disk) in
      let* l2_table := map_err ReadingPointers (read_pointer_table l2_addr_disk (size / 8) (Some L2_TABLE_OFFSET_MASK)) in
      let* refcounts := of_result (add_refs refcounts size (filter (fun a => a <> 0) l2_table)) in
      set_l2_refcounts refcounts rest size
  end.
Definition set_data_refcounts (refcounts : list Z) (h : QcowHeader) (size : Z) : QE (list Z) :=
  let* l1_table := map_err ReadingPointers (read_pointer_table (l1_table_offset h) (l1_size h) (Some L1_TABLE_OFFSET_MASK)) in
  set_l2_refcounts refcounts l1_table size.

Definition set_refcount_table_refcounts (refcounts : list Z) (h : QcowHeader) (size : Z) : result Error (list Z) :=
  add_refs refcounts size (run_of_clusters (h_refcount_table_offset h) (refcount_table_clusters h) size).

(** The first cluster from [first_free_cluster] on with a count of zero. *)
Fixpoint scan_free (refcounts : list Z) (first_free_cluster : Z) : option Z :=
  match refcounts with
  | [] => None
  | c :: rest => if decide (c = 0) then Some first_free_cluster else scan_free rest (first_free_cluster + 1)
  end.

Fixpoint alloc_entries (entries : nat) (refcounts : list Z) (size first_free_cluster : Z) : result Error (list Z * list Z) :=
  match entries with
  | O => Ok ([], refcounts)
  | S entries =>
    match scan_free (drop (Z.to_nat first_free_cluster) refcounts) first_free_cluster with
    | None => Err NotEnoughSpaceForRefcounts
    | Some free =>
      match add_ref refcounts size (free * size) with
      | Err e => Err e
      | Ok refcounts =>
        match alloc_entries entries refcounts size (free + 1) with
        | Err e => Err e
        | Ok (ref_table, refcounts) => Ok (free * size :: ref_table, refcounts)
        end
      end
    end
  end.
Definition alloc_refblocks (refcounts : list Z) (size refblock_clusters pointers_per_cluster : Z) : result Error (list Z * list Z) :=
  let refcount_table_entries := div_round_up_u64 refblock_clusters pointers_per_cluster in
  alloc_entries (Z.to_nat refcount_table_entries) refcounts size 0.

(** [&refcounts[refblock_start..refblock_end]] panics when the block starts past the end. *)
Fixpoint write_blocks (i : nat) (ref_table refcounts : list Z) (block_entries : Z) : QE unit :=
  match ref_table with
  | [] => ret tt
  | refblock_addr :: rest =>
    let refblock_start := Z.of_nat i * block_entries in
    if decide (Z.of_nat (length refcounts) < refblock_start) then crash
    else
      let refblock := take (Z.to_nat block_entries) (drop (Z.to_nat refblock_start) refcounts) in
      map_err WritingHeader (write_refcount_block refblock_addr refblock) ;;;
      (if decide (Z.of_nat (length refblock) < block_entries) then
         let refblock_padding := replicate (Z.to_nat block_entries - length refblock)%nat 0 in
         map_err WritingHeader (write_refcount_block (wadd 64 refblock_addr (Z.of_nat (length refblock) * 2)) refblock_padding)
       else ret tt) ;;;
      write_blocks (S i) rest refcounts block_entries
  end.

Definition rewrite_header (h : QcowHeader) : QE unit :=
  map_err SeekingFile (on_file (seek (Start 0))) ;;;
  zoom qf_file set_qf (write_to h).

Definition write_refblocks (refcounts : list Z) (h : QcowHeader) (ref_table : list Z) (block_entries : Z) : QE unit :=
  let lazy_header := set_compatible (Z.lor (compatible_features h) COMPATIBLE_FEATURES_LAZY_REFCOUNTS) h in
  rewrite_header lazy_header ;;;
  write_blocks 0 ref_table refcounts block_entries ;;;
  map_err WritingHeader (write_pointer_table (h_refcount_table_offset h) ref_table 0) ;;;
  rewrite_header (set_compatible (Z.land (compatible_features lazy_header) (unot 64 COMPATIBLE_FEATURES_LAZY_REFCOUNTS)) h).

Definition rebuild_refcounts (h : QcowHeader) : QE unit :=
  let* q := get in
  let cluster_size := cluster_size q in
  let* file_size := map_err GettingFileSize (on_file metadata_len) in
  let refcount_bits := Z.shiftl 1 (refcount_order h) in
  let refcount_bytes := div_round_up_u64 refcount_bits 8 in
  let refcount_block_entries := cluster_size / refcount_bytes in
  let pointers_per_cluster := cluster_size / 8 in
  let data_clusters := div_round_up_u64 (h_size h) cluster_size in
  let l2_clusters := div_round_up_u64 data_clusters pointers_per_cluster in
  let l1_clusters := div_round_up_u64 l2_clusters pointers_per_cluster in
  let header_clusters := div_round_up_u64 QCOW_HEADER_SIZE cluster_size in
  let max_clusters := data_clusters + l2_clusters + l1_clusters + header_clusters in
  let refblock_clusters := div_round_up_u64 max_clusters refcount_block_entries in
  let reftable_clusters := div_round_up_u64 refblock_clusters pointers_per_cluster in
  let refblocks_for_refs := div_round_up_u64 (refblock_clusters + reftable_clusters) refcount_block_entries in
  let reftable_clusters_for_refs := div_round_up_u64 refblocks_for_refs refcount_block_entries in
  let max_valid_cluster_index :=
    max_clusters + (refblock_clusters + reftable_clusters) + (refblocks_for_refs + reftable_clusters_for_refs) in
  if decide (max_valid_cluster_index > MAX_RAM_POINTER_TABLE_SIZE) then throw (InvalidRefcountTableSize max_valid_cluster_index)
  else
    let max_valid_cluster_offset := max_valid_cluster_index * cluster_size in
    if decide (max_valid_cluster_offset < wsub 64 file_size cluster_size) then
      throw (InvalidRefcountTableSize max_valid_cluster_offset)
    else
      let refcounts := replicate (Z.to_nat max_valid_cluster_index) 0 in
      let* refcounts := of_result (set_header_refcount refcounts cluster_size) in
      let* refcounts := of_result (set_l1_refcounts refcounts h cluster_size) in
      let* refcounts := set_data_refcounts refcounts h cluster_size in
      let* refcounts := of_result (set_refcount_table_refcounts refcounts h cluster_size) in
      let* (ref_table, refcounts) := of_result (alloc_refblocks refcounts cluster_size refblock_clusters pointers_per_cluster) in
      write_refblocks refcounts h ref_table refcount_block_entries.
