(* ===== verification/QcowImage.v ===== *)
(** An open qcow2 image (hypervisor/qcow/src/qcow.rs): a disk of [virtual_size] bytes whose
    clusters are allocated in a file as they are written. *)
From stdpp Require Import base numbers list gmap.
From S2P Require Import Prelude Bytes RawFile QcowTables QcowHeader.

#[local] Open Scope Z_scope.

Record QcowFile := mkQcowFile {
  raw_file : QcowRawFile;
  header : QcowHeader;
  l1_table : VecCache;
  l2_entries : Z;
  l2_cache : CacheMap;
  refcounts : RefCount;
  current_offset : Z;
  unref_clusters : list Z;
  avail_clusters : list Z;
}.

Definition set_raw_file (f : QcowRawFile) (q : QcowFile) : QcowFile :=
  mkQcowFile f (header q) (l1_table q) (l2_entries q) (l2_cache q) (refcounts q) (current_offset q) (unref_clusters q) (avail_clusters q).
Definition set_l1_table (t : VecCache) (q : QcowFile) : QcowFile :=
  mkQcowFile (raw_file q) (header q) t (l2_entries q) (l2_cache q) (refcounts q) (current_offset q) (unref_clusters q) (avail_clusters q).
Definition set_l2_cache (c : CacheMap) (q : QcowFile) : QcowFile :=
  mkQcowFile (raw_file q) (header q) (l1_table q) (l2_entries q) c (refcounts q) (current_offset q) (unref_clusters q) (avail_clusters q).
Definition set_refcounts (r : RefCount) (q : QcowFile) : QcowFile :=
  mkQcowFile (raw_file q) (header q) (l1_table q) (l2_entries q) (l2_cache q) r (current_offset q) (unref_clusters q) (avail_clusters q).
Definition set_offset (o : Z) (q : QcowFile) : QcowFile :=
  mkQcowFile (raw_file q) (header q) (l1_table q) (l2_entries q) (l2_cache q) (refcounts q) o (unref_clusters q) (avail_clusters q).
Definition set_clusters (unref avail : list Z) (q : QcowFile) : QcowFile :=
  mkQcowFile (raw_file q) (header q) (l1_table q) (l2_entries q) (l2_cache q) (refcounts q) (current_offset q) unref avail.

Notation Q E := (M QcowFile E).
Notation QIO := (M QcowFile io_error).

(** The parts of the state the calls work on. *)
Definition in_raw {E A} (m : M QcowRawFile E A) : Q E A := zoom raw_file set_raw_file m.
Definition in_refcounts {E A} (m : M (RefCount * QcowRawFile) E A) : Q E A :=
  zoom (fun q => (refcounts q, raw_file q)) (fun t q => set_refcounts t.1 (set_raw_file t.2 q)) m.
Definition in_l2_cache {E A} (m : M (CacheMap * QcowRawFile) E A) : Q E A :=
  zoom (fun q => (l2_cache q, raw_file q)) (fun t q => set_l2_cache t.1 (set_raw_file t.2 q)) m.

Definition virtual_size (q : QcowFile) : Z := h_size (header q).
Definition size_of_cluster (q : QcowFile) : Z := cluster_size (raw_file q).

(** Limits a range to the disk, and to its first cluster. *)
Definition limit_range_file (q : QcowFile) (address count : Z) : Z :=
  if decide (checked_add 64 address count = None \/ address > virtual_size q) then 0
  else Z.min count (virtual_size q - address).
Definition limit_range_cluster (q : QcowFile) (address count : Z) : Z :=
  let offset := cluster_offset (raw_file q) address in
  Z.min count (size_of_cluster q - offset).

Definition l1_table_index (q : QcowFile) (address : Z) : Z := (address / size_of_cluster q) / l2_entries q.
Definition l2_table_index (q : QcowFile) (address : Z) : Z := (address / size_of_cluster q) mod l2_entries q.
Definition l1_address_offset (q : QcowFile) (address : Z) : Z := l1_table_index q address * 8.

Definition read_l2_cluster (cluster_addr : Z) : QF (list Z) :=
  let* file_values := read_pointer_cluster cluster_addr None in
  if decide (Exists (fun entry => Z.land entry COMPRESSED_FLAG <> 0) file_values) then throw (OsError ENOTSUP)
  else ret ((fun entry => Z.land entry L2_TABLE_OFFSET_MASK) <$> file_values).

(** Writing back an L2 table that has to leave the cache. *)
Definition evict_l2 (l1 : VecCache) (index : nat) (evicted : VecCache) : QF unit :=
  match vec l1 !! index with
  | Some addr => write_pointer_table addr (vec evicted) CLUSTER_USED_FLAG
  | None => crash
  end.
Definition insert_l2 (l1_index : Z) (table : VecCache) : QIO unit :=
  let* q := get in in_l2_cache (cache_insert (Z.to_nat l1_index) table (evict_l2 (l1_table q))).

(** The cached L2 table [l1_index], which is at [l2_addr_disk], read into the cache first if
    need be. *)
Definition cached_l2 (l1_index l2_addr_disk : Z) : QIO VecCache :=
  let* q := get in
  match cmap (l2_cache q) !! Z.to_nat l1_index with
  | Some table => ret table
  | None =>
    let* table := in_raw (read_l2_cluster l2_addr_disk) in
    insert_l2 l1_index (from_vec table) ;;;
    ret (from_vec table)
  end.

(** [table[l2_index]] panics out of range. *)
Definition l2_entry (table : VecCache) (l2_index : Z) : QIO Z :=
  match vec_get table l2_index with Some a => ret a | None => crash end.

(** ** Opening an image *)
Definition L2_CACHE : nat := 100.

Definition find_avail_step (i : Z) : Q Error unit :=
  let* refcount := map_err GettingRefcount (in_refcounts (get_cluster_refcount i)) in
  if decide (refcount = 0) then modify (fun q => set_clusters (unref_clusters q) (avail_clusters q ++ [i]) q) else ret tt.
Fixpoint find_avail_loop (clusters : list Z) : Q Error unit :=
  match clusters with
  | [] => ret tt
  | i :: rest => find_avail_step i ;;; find_avail_loop rest
  end.
(** [(0..file_size).step_by(cluster_size)] *)
Definition clusters_below (file_size size : Z) : list Z := (fun k => k * size) <$> seqZ 0 (div_round_up_u64 file_size size).
Definition find_avail_clusters : Q Error unit :=
  let* q := get in
  let* file_size := map_err GettingFileSize (in_raw (on_file metadata_len)) in
  find_avail_loop (clusters_below file_size (size_of_cluster q)).

Fixpoint first_zero_loop (clusters : list Z) : Q Error (option Z) :=
  match clusters with
  | [] => ret None
  | i :: rest =>
    let* refcount := map_err GettingRefcount (in_refcounts (get_cluster_refcount i)) in
    if decide (refcount = 0) then ret (Some i) else first_zero_loop rest
  end.
Definition first_zero_refcount : Q Error (option Z) :=
  let* q := get in
  let* file_size := map_err GettingFileSize (in_raw (on_file metadata_len)) in
  first_zero_loop (clusters_below file_size (Z.shiftl 1 (cluster_bits (header q)))).

(** [QcowRawFile::from], and what is done to the clusters of the file. *)
Definition with_clusters {A} (size : Z) (m : M QcowRawFile Error A) : M RawFile Error A := fun f =>
  match raw_from f size with
  | None => (Fail InvalidClusterSize, f)
  | Some q => let '(r, q) := m q in (r, qf_file q)
  end.

(** Whether the first cluster has no reference, or the image says its counts are stale. *)
Definition rebuild_required (h : QcowHeader) : M RawFile Error bool :=
  map_err SeekingFile (seek (Start (h_refcount_table_offset h))) ;;;
  let* first_refblock_addr := map_err ReadingHeader (read_be 8) in
  let* required :=
    if decide (first_refblock_addr <> 0) then
      map_err SeekingFile (seek (Start first_refblock_addr)) ;;;
      let* first_cluster_refcount := map_err ReadingHeader (read_be 2) in
      ret (bool_decide (first_cluster_refcount = 0))
    else ret true in
  if decide (Z.land (compatible_features h) COMPATIBLE_FEATURES_LAZY_REFCOUNTS <> 0) then ret true else ret required.

(** A compressed cluster is refused; other errors are left for later. *)
Fixpoint check_compressed (l1 : list Z) : QE unit :=
  match l1 with
  | [] => ret tt
  | l2_addr_disk :: rest =>
    (if decide (l2_addr_disk = 0) then ret tt
     else
       let* r := attempt (read_l2_cluster l2_addr_disk) in
       match r with
       | Err e => if decide (raw_os_error e = Some ENOTSUP) then throw CompressedBlocksNotSupported else ret tt
       | Ok _ => ret tt
       end) ;;;
    check_compressed rest
  end.

Definition check_header (h : QcowHeader) : result Error unit :=
  if decide (version h <> 2 /\ version h <> 3) then Err (UnsupportedVersion (version h))
  else if decide (l1_size h > MAX_RAM_POINTER_TABLE_SIZE) then Err (InvalidL1TableSize (l1_size h))
  else if decide (~ (MIN_CLUSTER_BITS <= cluster_bits h <= MAX_CLUSTER_BITS)) then Err InvalidClusterSize
  else if decide (h_size h > MAX_QCOW_FILE_SIZE) then Err (FileTooBig (h_size h))
  else if decide (backing_file_offset h <> 0) then Err BackingFilesNotSupported
  else if decide (~ (0 <= refcount_order h < 64)) then Err UnsupportedRefcountOrder
  else if decide (Z.shiftl 1 (refcount_order h) <> 16) then Err UnsupportedRefcountOrder
  else if decide (refcount_table_clusters h = 0) then Err NoRefcountClusters
  else match offset_is_cluster_boundary (backing_file_offset h) (cluster_bits h) with Err e => Err e | Ok _ =>
       match offset_is_cluster_boundary (l1_table_offset h) (cluster_bits h) with Err e => Err e | Ok _ =>
       match offset_is_cluster_boundary (snapshots_offset h) (cluster_bits h) with Err e => Err e | Ok _ =>
       offset_is_cluster_boundary (h_refcount_table_offset h) (cluster_bits h)
       end end end.

(** The tables of the image: after the counts were rebuilt, if that was necessary, the L1
    table and the reference counts are read and the clusters that can be used are found.
    [l2_order] and [ref_order] are the orders of the hash tables. *)
Definition open_tables (h : QcowHeader) (rebuild : bool) (l2_order ref_order : list nat) : QE QcowFile :=
  (if rebuild then rebuild_refcounts h else ret tt) ;;;
  let* raw := get in
  let cluster_size := cluster_size raw in
  let entries_per_cluster := cluster_size / 8 in
  let num_clusters := div_round_up_u64 (h_size h) cluster_size in
  let num_l2_clusters := div_round_up_u64 num_clusters entries_per_cluster in
  let l1_clusters := div_round_up_u64 num_l2_clusters entries_per_cluster in
  let header_clusters := div_round_up_u64 QCOW_HEADER_SIZE cluster_size in
  if decide (num_l2_clusters > MAX_RAM_POINTER_TABLE_SIZE) then throw (TooManyL1Entries num_l2_clusters)
  else
    let* l1_table :=
      map_err ReadingHeader (read_pointer_table (l1_table_offset h) num_l2_clusters (Some L1_TABLE_OFFSET_MASK)) in
    let refcount_clusters :=
      max_refcount_clusters (refcount_order h) cluster_size
        (wrap 32 (num_clusters + l1_clusters + num_l2_clusters + header_clusters)) in
    if decide (refcount_table_clusters h > 2 * refcount_clusters) then throw RefcountTableTooLarge
    else if decide (l1_clusters + refcount_clusters > MAX_RAM_POINTER_TABLE_SIZE) then throw (TooManyRefcounts refcount_clusters)
    else
      let* refcounts :=
        map_err ReadingRefCounts_
          (refcount_new (h_refcount_table_offset h) refcount_clusters (cluster_size / 2) cluster_size ref_order) in
      check_compressed l1_table ;;;
      let* raw := get in
      let qcow := mkQcowFile raw h (from_vec l1_table) entries_per_cluster (cache_new L2_CACHE l2_order) refcounts 0 [] [] in
      if decide (checked_add 64 (l1_table_offset h) (l1_address_offset qcow (virtual_size qcow)) = None) then
        throw InvalidL1TableOffset
      else if decide (checked_add 64 (h_refcount_table_offset h) (wmul 64 (refcount_table_clusters h) cluster_size) = None) then
        throw InvalidRefcountTableOffset
      else fun raw =>
        let '(r, qcow) := find_avail_clusters (set_raw_file raw qcow) in
        (match r with Done _ => Done qcow | Fail e => Fail e | Crashed => Crashed end, raw_file qcow).

(** [QcowFile::from] *)
Definition from (l2_order ref_order : list nat) : M RawFile Error QcowFile :=
  let* header := header_new in
  of_result (check_header header) ;;;
  let* file_size := map_err GettingFileSize metadata_len in
  if decide (h_refcount_table_offset header > Z.max file_size (h_size header)) then throw RefcountTableOffEnd
  else
    let* rebuild := rebuild_required header in
    with_clusters (Z.shiftl 1 (cluster_bits header)) (open_tables header rebuild l2_order ref_order).

(** ** Allocating clusters *)
Section image.
Context `{HostFile}.

Definition get_new_cluster : QIO Z :=
  let* q := get in
  match last (avail_clusters q) with
  | Some free_cluster =>
    modify (set_clusters (unref_clusters q) (removelast (avail_clusters q))) ;;;
    in_raw (zero_cluster free_cluster) ;;;
    ret free_cluster
  | None =>
    let* new := in_raw (add_cluster_end (max_valid_cluster_offset (refcounts q))) in
    match new with Some new_cluster => ret new_cluster | None => throw (OsError ENOSPC) end
  end.

(** The loop of [set_cluster_refcount]: at the first call the block may have to be read, at
    the second one it may need a cluster of its own, the third one succeeds.  Returns the
    blocks that can be reused and the clusters that were added. *)
Fixpoint set_refcount_loop (calls : nat) (address refcount : Z) (new_cluster : option (Z * VecCache)) (added : list Z) :
    QIO (list Z * list Z) :=
  match calls with
  | O => crash
  | S calls =>
    let* r := attempt (in_refcounts (rc_set_cluster_refcount address refcount new_cluster)) in
    match r with
    | Ok None => ret ([], added)
    | Ok (Some freed_cluster) => ret ([freed_cluster], added)
    | Err (EvictingRefCounts e) => throw e
    | Err RefInvalidIndex => throw (OsError EINVAL)
    | Err (NeedCluster addr) =>
      let* block := in_raw (read_refcount_block addr) in
      set_refcount_loop calls address refcount (Some (addr, from_vec block)) added
    | Err NeedNewCluster =>
      let* addr := get_new_cluster in
      let* q := get in
      set_refcount_loop calls address refcount (Some (addr, vec_new (refcount_block_entries (refcounts q)))) (added ++ [addr])
    | Err (ReadingRefCounts e) => throw e
    end
  end.

(** A block that got a cluster of its own is counted in turn; what that call frees is
    dropped.  Every level of the recursion uses up a cluster, of those in [avail_clusters] and
    of those the file can still grow by. *)
Fixpoint set_refcount_rec (fuel : nat) (address refcount : Z) : QIO (list Z) :=
  match fuel with
  | O => crash
  | S fuel =>
    let* (unref, added) := set_refcount_loop 4 address refcount None [] in
    (fix count_added (added : list Z) : QIO unit :=
       match added with
       | [] => ret tt
       | addr :: rest => set_refcount_rec fuel addr 1 ;;; count_added rest
       end) added ;;;
    ret unref
  end.
Definition clusters_left (q : QcowFile) : nat :=
  length (avail_clusters q) +
  Z.to_nat ((max_valid_cluster_offset (refcounts q) - f_len (file (qf_file (raw_file q)))) / size_of_cluster q + 1).
Definition set_cluster_refcount (address refcount : Z) : QIO (list Z) :=
  let* q := get in set_refcount_rec (S (clusters_left q)) address refcount.

Definition append_unref (newly_unref : list Z) : QIO unit :=
  modify (fun q => set_clusters (unref_clusters q ++ newly_unref) (avail_clusters q) q).

Definition append_data_cluster : QIO Z :=
  let* new_addr := get_new_cluster in
  let* newly_unref := set_cluster_refcount new_addr 1 in
  append_unref newly_unref ;;;
  ret new_addr.

(** [QcowFile::new] *)
Fixpoint count_clusters (clusters : list Z) : Q Error unit :=
  match clusters with
  | [] => ret tt
  | cluster_addr :: rest =>
    let* newly_unref := map_err SettingRefcountRefcount (set_cluster_refcount cluster_addr 1) in
    map_err SettingRefcountRefcount (append_unref newly_unref) ;;;
    count_clusters rest
  end.
Definition new (l2_order ref_order : list nat) (version virtual_size : Z) : M RawFile Error QcowFile :=
  let header := create_for_size version virtual_size in
  map_err SeekingFile (seek (Start 0)) ;;;
  write_to header ;;;
  let* qcow := from l2_order ref_order in
  let cluster_size := Z.shiftl 1 (cluster_bits (QcowImage.header qcow)) in
  let end_cluster_addr :=
    h_refcount_table_offset (QcowImage.header qcow) + refcount_table_clusters (QcowImage.header qcow) * cluster_size in
  fun _ =>
    let '(r, qcow) := count_clusters (clusters_below end_cluster_addr cluster_size) qcow in
    (match r with Done _ => Done qcow | Fail e => Fail e | Crashed => Crashed end, qf_file (raw_file qcow)).
End image.
