(* ===== verification/QcowDisk.v ===== *)
(** Reading, writing and deallocating the bytes of a qcow2 image
    (hypervisor/qcow/src/qcow.rs). *)
From stdpp Require Import base numbers list gmap.
From S2P Require Import Prelude Bytes RawFile QcowTables QcowHeader QcowImage.

#[local] Open Scope Z_scope.

Section disk.
Context `{HostFile}.

(** [QcowFile::l2_table], for debugging *)
Definition l2_table (l1_index : Z) : Q Error (option (list Z)) :=
  let* q := get in
  match vec_get (l1_table q) l1_index with
  | None => throw InvalidIndex
  | Some l2_addr_disk =>
    if decide (l2_addr_disk = 0) then ret None
    else
      match cmap (l2_cache q) !! Z.to_nat l1_index with
      | Some table => ret (Some (vec table))
      | None =>
        let* table := map_err ReadingPointers (in_raw (read_l2_cluster l2_addr_disk)) in
        map_err EvictingCache (insert_l2 l1_index (from_vec table)) ;;;
        ret (Some table)
      end
  end.

Definition get_refcount_block (index : Z) : Q Error (option (list Z)) :=
  map_err ReadingRefCountBlock (in_refcounts (refcount_block index)).

Definition file_offset_read (address : Z) : QIO (option Z) :=
  let* q := get in
  if decide (address >= virtual_size q) then throw (OsError EINVAL)
  else
    let l1_index := l1_table_index q address in
    match vec_get (l1_table q) l1_index with
    | None => throw (OsError EINVAL)
    | Some l2_addr_disk =>
      if decide (l2_addr_disk = 0) then ret None
      else
        let l2_index := l2_table_index q address in
        let* table := cached_l2 l1_index l2_addr_disk in
        let* cluster_addr := l2_entry table l2_index in
        if decide (cluster_addr = 0) then ret None
        else ret (Some (wadd 64 cluster_addr (cluster_offset (raw_file q) address)))
    end.

(** The L2 table of [address] in the cache; a table that was never there gets a cluster,
    whose count is set later on. *)
Definition l2_for_write (l1_index l2_addr_disk : Z) : QIO (list (Z * Z)) :=
  let* q := get in
  match cmap (l2_cache q) !! Z.to_nat l1_index with
  | Some _ => ret []
  | None =>
    if decide (l2_addr_disk = 0) then
      let* new_addr := get_new_cluster in
      modify (fun q => set_l1_table (vec_set l1_index new_addr (l1_table q)) q) ;;;
      insert_l2 l1_index (vec_new (l2_entries q)) ;;;
      ret [(new_addr, 1)]
    else
      let* table := in_raw (read_l2_cluster l2_addr_disk) in
      insert_l2 l1_index (from_vec table) ;;;
      ret []
  end.

Definition set_l2_entry (l1_index l2_index v : Z) (q : QcowFile) : QcowFile :=
  set_l2_cache (set_cmap (alter (vec_set l2_index v) (Z.to_nat l1_index) (cmap (l2_cache q))) (l2_cache q)) q.

(** Returns [set_refcounts] with what the update adds to it. *)
Definition update_cluster_addr (l1_index l2_index cluster_addr : Z) (set_refcounts : list (Z * Z)) : QIO (list (Z * Z)) :=
  let* q := get in
  match cmap (l2_cache q) !! Z.to_nat l1_index with
  | None => crash
  | Some table =>
    let* set_refcounts :=
      if dirty table then ret set_refcounts
      else
        match vec_get (l1_table q) l1_index with
        | None => crash
        | Some addr =>
          let* set_refcounts :=
            if decide (addr <> 0) then append_unref [addr] ;;; ret (set_refcounts ++ [(addr, 0)]) else ret set_refcounts in
          let* new_addr := get_new_cluster in
          modify (fun q => set_l1_table (vec_set l1_index new_addr (l1_table q)) q) ;;;
          ret (set_refcounts ++ [(new_addr, 1)])
        end in
    modify (set_l2_entry l1_index l2_index cluster_addr) ;;;
    ret set_refcounts
  end.

Fixpoint apply_refcounts (set_refcounts : list (Z * Z)) : QIO unit :=
  match set_refcounts with
  | [] => ret tt
  | (addr, count) :: rest =>
    let* newly_unref := set_cluster_refcount addr count in
    append_unref newly_unref ;;;
    apply_refcounts rest
  end.

Definition file_offset_write (address : Z) : QIO Z :=
  let* q := get in
  if decide (address >= virtual_size q) then throw (OsError EINVAL)
  else
    let l1_index := l1_table_index q address in
    match vec_get (l1_table q) l1_index with
    | None => throw (OsError EINVAL)
    | Some l2_addr_disk =>
      let l2_index := l2_table_index q address in
      let* set_refcounts := l2_for_write l1_index l2_addr_disk in
      let* q1 := get in
      match cmap (l2_cache q1) !! Z.to_nat l1_index with
      | None => crash
      | Some table =>
        let* entry := l2_entry table l2_index in
        let* (cluster_addr, set_refcounts) :=
          if decide (entry = 0) then
            let* cluster_addr := append_data_cluster in
            let* set_refcounts := update_cluster_addr l1_index l2_index cluster_addr set_refcounts in
            ret (cluster_addr, set_refcounts)
          else ret (entry, set_refcounts) in
        apply_refcounts set_refcounts ;;;
        ret (wadd 64 cluster_addr (cluster_offset (raw_file q) address))
      end
    end.

Definition cluster_allocated (address : Z) : QIO bool :=
  let* q := get in
  if decide (address >= virtual_size q) then throw (OsError EINVAL)
  else
    let l1_index := l1_table_index q address in
    match vec_get (l1_table q) l1_index with
    | None => throw (OsError EINVAL)
    | Some l2_addr_disk =>
      let l2_index := l2_table_index q address in
      if decide (l2_addr_disk = 0) then ret false
      else
        let* table := cached_l2 l1_index l2_addr_disk in
        let* cluster_addr := l2_entry table l2_index in
        ret (bool_decide (cluster_addr <> 0))
    end.

(** The clusters from [cluster_addr] on, as long as they start inside the disk. *)
Fixpoint search_allocated (clusters : nat) (cluster_addr : Z) (allocated : bool) : QIO (option Z) :=
  match clusters with
  | O => crash
  | S clusters =>
    let* q := get in
    if decide (cluster_addr < virtual_size q) then
      let* a := cluster_allocated cluster_addr in
      if decide (a = allocated) then ret (Some cluster_addr)
      else search_allocated clusters (wadd 64 cluster_addr (size_of_cluster q)) allocated
    else ret None
  end.
Definition find_allocated_cluster (address : Z) (allocated : bool) : QIO (option Z) :=
  let* q := get in
  let size := virtual_size q in
  if decide (address >= size) then ret None
  else
    let* a := cluster_allocated address in
    if decide (a = allocated) then ret (Some address)
    else
      let cluster_size := size_of_cluster q in
      search_allocated (Z.to_nat (size / cluster_size + 2)) ((address / cluster_size + 1) * cluster_size) allocated.

Definition deallocate_cluster (address : Z) : QIO unit :=
  let* q := get in
  if decide (address >= virtual_size q) then throw (OsError EINVAL)
  else
    let l1_index := l1_table_index q address in
    match vec_get (l1_table q) l1_index with
    | None => throw (OsError EINVAL)
    | Some l2_addr_disk =>
      let l2_index := l2_table_index q address in
      if decide (l2_addr_disk = 0) then ret tt
      else
        let* table := cached_l2 l1_index l2_addr_disk in
        let* cluster_addr := l2_entry table l2_index in
        if decide (cluster_addr = 0) then ret tt
        else
          let* refcount := map_err (fun _ => InvalidData) (in_refcounts (get_cluster_refcount cluster_addr)) in
          if decide (refcount = 0) then throw (OsError EINVAL)
          else
            let new_refcount := refcount - 1 in
            let* newly_unref := set_cluster_refcount cluster_addr new_refcount in
            append_unref newly_unref ;;;
            modify (set_l2_entry l1_index l2_index 0) ;;;
            if decide (new_refcount = 0) then
              ignore (in_raw (on_file (punch_hole cluster_addr (size_of_cluster q)))) ;;;
              append_unref [cluster_addr]
            else ret tt
    end.

(** A loop over a range of bytes, at most a cluster at a time; a round that does less than its
    part of a cluster was cut short by an answer of the script. *)
Definition range_fuel (q : QcowFile) (count : Z) : nat :=
  S (S (S (Z.to_nat (count / size_of_cluster q) + length (rf_io (qf_file (raw_file q)))))).

Fixpoint deallocate_loop (fuel : nat) (address write_count nwritten : Z) : QIO unit :=
  match fuel with
  | O => crash
  | S fuel =>
    if decide (nwritten < write_count) then
      let* q := get in
      let curr_addr := wadd 64 address nwritten in
      let count := limit_range_cluster q curr_addr (write_count - nwritten) in
      (if decide (count = size_of_cluster q) then deallocate_cluster curr_addr
       else
         let* offset := file_offset_read curr_addr in
         match offset with
         | Some offset => in_raw (on_file (write_zeroes_at offset count)) ;;; ret tt
         | None => ret tt
         end) ;;;
      deallocate_loop fuel address write_count (nwritten + count)
    else ret tt
  end.
Definition deallocate_bytes (address length : Z) : QIO unit :=
  let* q := get in
  let write_count := limit_range_file q address length in
  deallocate_loop (range_fuel q write_count) address write_count 0.

(** ** [Read], [Write], [Seek] *)
Fixpoint read_loop (fuel : nat) (address read_count nread : Z) : QIO (list Z) :=
  match fuel with
  | O => crash
  | S fuel =>
    if decide (nread < read_count) then
      let* q := get in
      let curr_addr := wadd 64 address nread in
      let* file_offset := file_offset_read curr_addr in
      let count := limit_range_cluster q curr_addr (read_count - nread) in
      let* bs :=
        match file_offset with
        | Some offset =>
          in_raw (on_file (seek (Start offset))) ;;;
          in_raw (on_file (read_exact count))
        | None => ret (replicate (Z.to_nat count) 0)
        end in
      let* rest := read_loop fuel address read_count (nread + count) in
      ret (bs ++ rest)
    else ret []
  end.
Definition qcow_read (buf_len : Z) : QIO (list Z) :=
  let* q := get in
  let address := current_offset q in
  let read_count := limit_range_file q address buf_len in
  let* bs := read_loop (range_fuel q read_count) address read_count 0 in
  modify (fun q => set_offset (wadd 64 (current_offset q) read_count) q) ;;;
  ret bs.

Fixpoint write_loop (fuel : nat) (address : Z) (buf : list Z) (write_count nwritten : Z) : QIO unit :=
  match fuel with
  | O => crash
  | S fuel =>
    if decide (nwritten < write_count) then
      let* q := get in
      let curr_addr := wadd 64 address nwritten in
      let* offset := file_offset_write curr_addr in
      let count := limit_range_cluster q curr_addr (write_count - nwritten) in
      in_raw (on_file (seek (Start offset))) ;;;
      let* count := in_raw (on_file (write (take (Z.to_nat count) (drop (Z.to_nat nwritten) buf)))) in
      write_loop fuel address buf write_count (nwritten + count)
    else ret tt
  end.
Definition qcow_write (buf : list Z) : QIO Z :=
  let* q := get in
  let address := current_offset q in
  let write_count := limit_range_file q address (Z.of_nat (length buf)) in
  write_loop (range_fuel q write_count) address buf write_count 0 ;;;
  modify (fun q => set_offset (wadd 64 (current_offset q) write_count) q) ;;;
  ret write_count.

(** An offset from a position; [checked_sub] of [i64::MIN] from zero overflows. *)
Definition offset_from (base off : Z) : option Z :=
  if decide (off < 0) then if decide (off = - 2 ^ 63) then None else checked_sub base (- off)
  else checked_add 64 base off.
Definition qcow_seek (pos : SeekFrom) : QIO Z :=
  let* q := get in
  let new_offset :=
    match pos with
    | Start off => Some off
    | End_ off => offset_from (virtual_size q) off
    | Current off => offset_from (current_offset q) off
    end in
  match new_offset with
  | Some o => if decide (o <= virtual_size q) then modify (set_offset o) ;;; ret o else throw (OsError EINVAL)
  | None => throw (OsError EINVAL)
  end.

(** ** Writing back *)
Fixpoint sync_l2_list (tables : list (nat * VecCache)) : QIO unit :=
  match tables with
  | [] => ret tt
  | (l1_index, l2_table) :: rest =>
    if dirty l2_table then
      let* q := get in
      match vec (l1_table q) !! l1_index with
      | None => crash
      | Some addr =>
        if decide (addr <> 0) then
          in_raw (write_pointer_table addr (vec l2_table) CLUSTER_USED_FLAG) ;;;
          modify (fun q => set_l2_cache (set_cmap (<[l1_index := mark_clean l2_table]> (cmap (l2_cache q))) (l2_cache q)) q) ;;;
          sync_l2_list rest
        else throw (OsError EINVAL)
      end
    else sync_l2_list rest
  end.

Definition sync_caches : QIO unit :=
  let* q := get in
  sync_l2_list (map_to_list (cmap (l2_cache q))) ;;;
  in_refcounts flush_blocks ;;;
  in_raw (on_file sync_all) ;;;
  let* q := get in
  let* sync_required :=
    if dirty (l1_table q) then
      in_raw (write_pointer_table (l1_table_offset (header q)) (vec (l1_table q)) 0) ;;;
      modify (set_l1_table (mark_clean (l1_table q))) ;;;
      ret true
    else ret false in
  let* flushed := in_refcounts flush_table in
  if (sync_required || flushed)%bool then in_raw (on_file sync_data) else ret tt.

(** [Write::flush], and [fsync] *)
Definition flush : QIO unit :=
  sync_caches ;;;
  modify (fun q => set_clusters [] (avail_clusters q ++ unref_clusters q) q).

(** [Drop::drop] *)
Definition drop_image : QIO unit := ignore sync_caches.

(** ** [PunchHole], [WriteZeroesAt], [SeekHole] *)
Fixpoint punch_loop (fuel : nat) (offset remaining : Z) : QIO unit :=
  match fuel with
  | O => crash
  | S fuel =>
    if decide (remaining > 0) then
      let chunk_length := Z.min remaining USIZE_MAX in
      deallocate_bytes offset chunk_length ;;;
      punch_loop fuel (wadd 64 offset chunk_length) (remaining - chunk_length)
    else ret tt
  end.
Definition qcow_punch_hole (offset length : Z) : QIO unit := punch_loop 2 offset length.
Definition qcow_write_zeroes_at (offset length : Z) : QIO Z := qcow_punch_hole offset length ;;; ret length.

Definition seek_hole (offset : Z) : QIO (option Z) :=
  let* q := get in
  let* found := find_allocated_cluster offset false in
  match found with
  | None => if decide (offset < virtual_size q) then let* o := qcow_seek (End_ 0) in ret (Some o) else ret None
  | Some o => qcow_seek (Start o) ;;; ret (Some o)
  end.
Definition seek_data (offset : Z) : QIO (option Z) :=
  let* found := find_allocated_cluster offset true in
  match found with
  | None => ret None
  | Some o => qcow_seek (Start o) ;;; ret (Some o)
  end.
End disk.
