(* ===== verification/QcowInv.v ===== *)
(** The tables of a qcow2 image on its file, and what makes an image consistent. *)
From stdpp Require Import base numbers list gmap.
From S2P Require Import Prelude Bytes RawFile QcowTables QcowHeader QcowImage QcowDisk.

#[local] Open Scope Z_scope.

(** ** Tables of big-endian integers on a file *)
Definition disk_table (w n : nat) (f : File) (off : Z) : list Z :=
  be_entries w n (fbyte f <$> seqZ off (Z.of_nat (w * n))).

Lemma be_entries_length w n bs : length (be_entries w n bs) = n.
Proof. revert bs. induction n as [|n IH]; intros bs; cbn; [done|]. by rewrite IH. Qed.

Lemma disk_table_length w n f off : length (disk_table w n f off) = n.
Proof. apply be_entries_length. Qed.

Lemma disk_table_ext w n f f' off :
  (forall o, off <= o < off + Z.of_nat (w * n) -> fbyte f' o = fbyte f o) -> disk_table w n f' off = disk_table w n f off.
Proof.
  intros Heq. unfold disk_table. f_equal. apply list_fmap_ext. intros k o Hk. apply lookup_seqZ in Hk as [-> ?].
  apply Heq. lia.
Qed.

Lemma be_entries_concat w es :
  Forall (in_width (8 * Z.of_nat w)) es -> be_entries w (length es) (concat (be_bytes w <$> es)) = es.
Proof.
  induction 1 as [|e es He _ IH]; [done|]. cbn. rewrite take_app_length', drop_app_length' by (by rewrite be_bytes_length).
  by rewrite be_value_bytes, IH.
Qed.

Lemma be_concat_length w es : length (concat (be_bytes w <$> es)) = (w * length es)%nat.
Proof. induction es as [|e es IH]; cbn; [lia|]. rewrite length_app, be_bytes_length, IH. lia. Qed.

Lemma be_concat_ok w es : Forall byte_ok (concat (be_bytes w <$> es)).
Proof. apply Forall_concat, Forall_fmap, Forall_true. intros e. apply be_bytes_ok. Qed.

Lemma disk_table_written w es f off :
  Forall (in_width (8 * Z.of_nat w)) es ->
  (forall k, (k < w * length es)%nat -> fbyte f (off + Z.of_nat k) = concat (be_bytes w <$> es) !!! k) ->
  disk_table w (length es) f off = es.
Proof.
  intros Hes Hf. unfold disk_table. rewrite <- (be_entries_concat w es) at 3 by done. f_equal.
  apply list_eq_same_length with (w * length es)%nat.
  - apply be_concat_length.
  - rewrite length_fmap, length_seqZ. lia.
  - intros k x y Hk. rewrite list_lookup_fmap, fmap_Some. intros (o & [-> _]%lookup_seqZ & ->) Hy.
    rewrite Hf by done. by apply list_lookup_total_correct.
Qed.

Lemma be_entries_zero w n m : be_entries w n (replicate m 0) = replicate n 0.
Proof.
  revert m. induction n as [|n IH]; intros m; cbn; [done|]. rewrite take_replicate, drop_replicate, IH. f_equal.
  unfold be_value. rewrite reverse_replicate. generalize (w `min` m)%nat as k. induction k as [|k IHk]; cbn; [done|]. by rewrite IHk.
Qed.

Lemma disk_table_zero w n f off :
  (forall o, off <= o < off + Z.of_nat (w * n) -> fbyte f o = 0) -> disk_table w n f off = replicate n 0.
Proof.
  intros Hz. unfold disk_table. rewrite <- (be_entries_zero w n (w * n)). f_equal. apply list_eq_same_length with (w * n)%nat.
  - apply length_replicate.
  - rewrite length_fmap, length_seqZ. lia.
  - intros k x y Hk. rewrite list_lookup_fmap, fmap_Some, lookup_replicate. intros (o & [-> _]%lookup_seqZ & ->) [-> _]. apply Hz. lia.
Qed.

Definition bytes_ok (f : File) : Prop := forall o, byte_ok (fbyte f o).

Lemma be_entries_width w n bs :
  Forall byte_ok bs -> Forall (in_width (8 * Z.of_nat w)) (be_entries w n bs).
Proof.
  revert bs. induction n as [|n IH]; intros bs Hbs; cbn; constructor.
  - pose proof (be_value_width (take w bs) ltac:(by apply Forall_take)) as [H0 H1]. split; [done|].
    eapply Z.lt_le_trans; [done|]. apply Z.pow_le_mono_r; [lia|]. rewrite length_take. lia.
  - by apply IH, Forall_drop.
Qed.

Lemma disk_table_width w n f off : bytes_ok f -> Forall (in_width (8 * Z.of_nat w)) (disk_table w n f off).
Proof. intros Hf. apply be_entries_width, Forall_fmap, Forall_true. intros o. apply Hf. Qed.

Lemma bytes_ok_wrote off bs r r' : bytes_ok (file r) -> Forall byte_ok bs -> wrote off bs r r' -> bytes_ok (file r').
Proof.
  intros Hf Hbs (Hb & _) o. rewrite Hb. case_decide; [|apply Hf].
  rewrite Forall_forall in Hbs. apply Hbs, list_elem_of_lookup_total_2. lia.
Qed.

Lemma bytes_ok_zeroed f off n f' : bytes_ok f -> zeroed f off n f' -> bytes_ok f'.
Proof. intros Hf [Hz _] o. rewrite Hz. case_decide; [unfold byte_ok; lia|apply Hf]. Qed.

(** ** The calls *)
Section calls.
Implicit Types (q : QcowRawFile).

Lemma wp_on_file {A} (m : RF A) (Q : A -> QcowRawFile -> Prop) X q :
  wp m (fun a r => Q a (set_qf r q)) (fun e r => X e (set_qf r q)) (qf_file q) -> wp (on_file m) Q X q.
Proof. apply wp_zoom. Qed.

Lemma wp_read_at {A} off n (f : list Z -> QF A) (Q : A -> QcowRawFile -> Prop) X q :
  sane (qf_file q) -> 0 <= off < 2 ^ 63 -> 0 <= n -> off + n <= f_len (file (qf_file q)) ->
  (forall r, kept_file (qf_file q) r -> wp (f (fbyte (file (qf_file q)) <$> seqZ off n)) Q X (set_qf r q)) ->
  wp (on_file (seek (Start off)) ;;; let* bs := on_file (read_exact n) in f bs) Q X q.
Proof.
  intros Hs Hoff Hn Hlen HQ. apply wp_bind, wp_on_file, wp_seek; [done|lia|lia|]. intros r1 (Hf1 & Ha1 & Hs1) Hp1.
  apply wp_bind, wp_on_file. cbn [qf_file set_qf]. apply wp_read_exact; [done|lia|rewrite Hp1, Hf1; lia|].
  intros r2 (Hf2 & Ha2 & Hs2) Hp2. rewrite Hp1, Hf1. apply HQ.
  split; [congruence|split; [congruence|done]].
Qed.

Lemma wp_read_pointer_table off n mask (Q : list Z -> QcowRawFile -> Prop) X q :
  sane (qf_file q) -> 0 <= off < 2 ^ 63 -> off + Z.of_nat (8 * n) <= f_len (file (qf_file q)) ->
  (forall r, kept_file (qf_file q) r ->
     Q (let t := disk_table 8 n (file (qf_file q)) off in
        match mask with Some m => (fun ptr => Z.land ptr m) <$> t | None => t end) (set_qf r q)) ->
  wp (read_pointer_table off (Z.of_nat n) mask) Q X q.
Proof.
  intros Hs Hoff Hlen HQ. unfold read_pointer_table.
  replace (8 * Z.of_nat n) with (Z.of_nat (8 * n)) by lia. rewrite Nat2Z.id.
  apply wp_read_at; [done|lia|lia|lia|]. intros r Hr. apply wp_ret, HQ, Hr.
Qed.

Lemma wp_read_refcount_block off n (Q : list Z -> QcowRawFile -> Prop) X q :
  sane (qf_file q) -> 0 <= off < 2 ^ 63 -> cluster_size q = 2 * Z.of_nat n ->
  off + Z.of_nat (2 * n) <= f_len (file (qf_file q)) ->
  (forall r, kept_file (qf_file q) r -> Q (disk_table 2 n (file (qf_file q)) off) (set_qf r q)) ->
  wp (read_refcount_block off) Q X q.
Proof.
  intros Hs Hoff Hn Hlen HQ. unfold read_refcount_block. apply wp_bind, wp_get.
  replace (cluster_size q / 2) with (Z.of_nat n) by (rewrite Hn, Z.mul_comm, Z.div_mul; lia). rewrite Nat2Z.id.
  replace (2 * Z.of_nat n) with (Z.of_nat (2 * n)) by lia.
  apply wp_read_at; [done|lia|lia|lia|]. intros r Hr. apply wp_ret, HQ, Hr.
Qed.

Lemma wp_buffered pieces (Q : unit -> RawFile -> Prop) X r :
  sane r -> concat pieces <> [] ->
  (forall r', wrote (position r) (concat pieces) r r' -> Q tt r') -> wp (buffered pieces) Q X r.
Proof.
  intros Hs Hne HQ. unfold buffered. destruct pieces as [|p [|p' ps]]; [done| |].
  - cbn in *. rewrite app_nil_r in *. apply wp_write_all; auto.
  - apply wp_ignore, wp_write_all; auto.
Qed.

(** A table of [w]-byte entries is written. *)
Lemma wp_write_table (w : nat) off es (Q : unit -> QcowRawFile -> Prop) X q :
  sane (qf_file q) -> 0 <= off < 2 ^ 63 -> (0 < w * length es)%nat ->
  (forall r, wrote off (concat (be_bytes w <$> es)) (qf_file q) r -> Q tt (set_qf r q)) ->
  wp (on_file (seek (Start off)) ;;; on_file (buffered (be_bytes w <$> es))) Q X q.
Proof.
  intros Hs Hoff Hes HQ. apply wp_bind, wp_on_file, wp_seek; [done|lia|lia|]. intros r1 (Hf1 & Ha1 & Hs1) Hp1.
  apply wp_on_file. cbn. apply wp_buffered; [done| |].
  - intros Hnil. pose proof (be_concat_length w es) as Hl. rewrite Hnil in Hl. cbn in Hl. lia.
  - intros r2 Hw. apply HQ. unfold wrote in *. rewrite Hp1, Hf1, Ha1 in Hw. done.
Qed.

Lemma wp_write_pointer_table off es flags (Q : unit -> QcowRawFile -> Prop) X q :
  sane (qf_file q) -> 0 <= off < 2 ^ 63 -> (0 < length es)%nat ->
  (forall r, wrote off (concat (be_bytes 8 <$> (entry_value flags <$> es))) (qf_file q) r -> Q tt (set_qf r q)) ->
  wp (write_pointer_table off es flags) Q X q.
Proof. intros Hs Hoff Hes. apply wp_write_table; [done..|]. rewrite length_fmap. lia. Qed.

Lemma wp_write_refcount_block off es (Q : unit -> QcowRawFile -> Prop) X q :
  sane (qf_file q) -> 0 <= off < 2 ^ 63 -> (0 < length es)%nat ->
  (forall r, wrote off (concat (be_bytes 2 <$> es)) (qf_file q) r -> Q tt (set_qf r q)) ->
  wp (write_refcount_block off es) Q X q.
Proof. intros Hs Hoff Hes. apply wp_write_table; [done..|]. lia. Qed.

Lemma wp_zero_cluster `{HostFile, !HostFileLaws} addr (Q : unit -> QcowRawFile -> Prop) X q :
  sane (qf_file q) -> 0 <= addr < 2 ^ 63 -> 0 <= cluster_size q ->
  (forall r, zeroed_file addr (cluster_size q) (qf_file q) r -> Q tt (set_qf r q)) -> wp (zero_cluster addr) Q X q.
Proof.
  intros Hs Ha Hc HQ. unfold zero_cluster. apply wp_bind, wp_get.
  apply wp_bind, wp_on_file, wp_seek; [done|lia|lia|]. intros r1 (Hf1 & Ha1 & Hs1) Hp1.
  apply wp_bind, wp_on_file. cbn [qf_file set_qf]. apply wp_write_zeroes; [done..|]. intros r2 Hz.
  apply wp_ret, HQ. unfold zeroed_file in *. rewrite Hp1, Hf1, Ha1 in Hz. done.
Qed.

(** ** Clusters *)
Lemma mask_offset k address : 0 <= k -> Z.land address (2 ^ k - 1) = address mod 2 ^ k.
Proof. intros Hk. rewrite <- Z.land_ones by done. f_equal. rewrite Z.ones_equiv. lia. Qed.

Lemma mask_cluster k x : 0 <= k <= 64 -> in_width 64 x -> Z.land x (unot 64 (2 ^ k - 1)) = x / 2 ^ k * 2 ^ k.
Proof.
  intros Hk Hx. apply Z.bits_inj'. intros i Hi. rewrite Z.land_spec, <- Z.shiftl_mul_pow2, Z.shiftl_spec by lia.
  destruct (decide (i < 64)).
  - rewrite unot_testbit by lia.
    replace (2 ^ k - 1) with (Z.ones k) by (rewrite Z.ones_equiv; lia).
    rewrite Z.testbit_ones by lia. destruct (decide (i < k)).
    + rewrite (Z.testbit_neg_r _ (i - k)) by lia. rewrite (proj2 (Z.ltb_lt i k)), (proj2 (Z.leb_le 0 i)) by lia. apply andb_false_r.
    + rewrite <- Z.shiftr_div_pow2, Z.shiftr_spec by lia. replace (i - k + k) with i by lia.
      rewrite (proj2 (Z.ltb_ge i k)) by lia. rewrite !andb_false_r. apply andb_true_r.
  - rewrite (testbit_high 64 x) by (done || lia). cbn. symmetry. rewrite <- Z.shiftr_div_pow2 by lia.
    destruct (decide (i < k)); [by apply Z.testbit_neg_r; lia|].
    rewrite Z.shiftr_spec by lia. replace (i - k + k) with i by lia. by apply (testbit_high 64); [|lia].
Qed.

Lemma wp_add_cluster_end max k (Q : option Z -> QcowRawFile -> Prop) X q :
  sane (qf_file q) -> cluster_size q = 2 ^ k -> cluster_mask q = 2 ^ k - 1 -> 0 <= k <= 62 ->
  (2 ^ k | f_len (file (qf_file q))) -> f_len (file (qf_file q)) < 2 ^ 62 ->
  (f_len (file (qf_file q)) > max -> forall r, kept_file (qf_file q) r -> Q None (set_qf r q)) ->
  (f_len (file (qf_file q)) <= max ->
   forall r, (forall o, fbyte (file r) o = fbyte (file (qf_file q)) o) ->
     f_len (file r) = f_len (file (qf_file q)) + 2 ^ k -> alignment r = alignment (qf_file q) -> sane r ->
     Q (Some (f_len (file (qf_file q)))) (set_qf r q)) ->
  wp (add_cluster_end max) Q X q.
Proof.
  intros Hs Hcs Hmask Hk [n Hn] Hlen HN HS. pose proof Hs as (_ & _ & _ & Hpos). pose proof (Z.pow_pos_nonneg 2 k ltac:(lia) ltac:(lia)).
  assert (2 ^ k <= 2 ^ 62) by (apply Z.pow_le_mono_r; lia).
  unfold add_cluster_end. apply wp_bind, wp_get, wp_bind, wp_on_file, wp_seek; [done|lia|done|].
  intros r1 (Hf1 & Ha1 & Hs1) Hp1. rewrite Z.add_0_r, Hcs, Hmask.
  set (len := f_len (file (qf_file q))) in *.
  rewrite (wadd_small 64 len), wsub_small, mask_cluster by (unfold in_width; lia).
  replace ((len + 2 ^ k - 1) / 2 ^ k * 2 ^ k) with len; cycle 1.
  { replace (len + 2 ^ k - 1) with (2 ^ k - 1 + n * 2 ^ k) by lia. rewrite Z.div_add, Z.div_small by lia. lia. }
  case_decide; [apply wp_ret, HN; [lia|by split]|].
  rewrite wadd_small by (unfold in_width; lia).
  apply wp_bind, wp_on_file. cbn [qf_file set_qf]. apply wp_set_len; [done|rewrite Hf1; unfold len; lia|].
  intros r2 Hb2 Hl2 Ha2 Hs2. apply wp_ret, HS; [lia| |done|congruence|done]. intros o. by rewrite Hb2, Hf1.
Qed.
End calls.

(** ** The cache *)
Lemma first_key_some c : cmap c <> ∅ -> exists k e, first_key c = Some k /\ cmap c !! k = Some e.
Proof.
  intros Hne. unfold first_key. set (keys := (map_to_list (cmap c)).*1).
  destruct (keys !! (default 0 (head (picks c)) mod length keys)%nat) as [k|] eqn:Hk.
  - apply list_elem_of_lookup_2, list_elem_of_fmap in Hk as ([k' e] & -> & He). exists k', e. split; [done|].
    by apply elem_of_map_to_list.
  - apply lookup_ge_None in Hk. assert (length keys <> 0)%nat.
    { unfold keys. rewrite length_fmap, length_map_to_list. intros Hz. by apply map_size_empty_inv in Hz. }
    pose proof (Nat.mod_upper_bound (default 0 (head (picks c)))%nat (length keys)). lia.
Qed.

(** An insertion may push out an element [k], which is written back if it was modified. *)
Lemma wp_cache_insert i b cb (Q : unit -> CacheMap * QcowRawFile -> Prop) X c raw :
  capacity c <> 0%nat ->
  Q tt (set_cmap (<[i := b]> (cmap c)) c, raw) ->
  (forall k e p, cmap c !! k = Some e -> dirty e = false ->
     Q tt (mkCacheMap (capacity c) (<[i := b]> (delete k (cmap c))) p, raw)) ->
  (forall k e p, cmap c !! k = Some e -> dirty e = true ->
     wp (cb k e) (fun _ raw' => Q tt (mkCacheMap (capacity c) (<[i := b]> (delete k (cmap c))) p, raw'))
       (fun er raw' => X er (mkCacheMap (capacity c) (delete k (cmap c)) p, raw')) raw) ->
  wp (cache_insert i b cb) Q X (c, raw).
Proof.
  intros Hcap HQ Hclean Hdirty. unfold cache_insert. apply wp_bind, wp_get, wp_bind.
  case_decide as Hfull; [|by apply wp_ret, wp_modify].
  destruct (first_key_some c) as (k & e & Hk & He).
  { intros Hemp. rewrite Hemp, map_size_empty in Hfull. lia. }
  rewrite Hk, He. apply wp_bind, wp_modify. cbn [fst snd]. destruct (dirty e) eqn:Hd.
  - apply wp_zoom. cbn [fst snd]. eapply wp_mono; [by apply (Hdirty k e (tail (picks c)))| |done]. intros [] raw' HQ'. by apply wp_modify.
  - apply wp_ret, wp_modify. by apply (Hclean k e (tail (picks c))).
Qed.

(** * What makes a qcow2 image consistent: every cluster has one owner, the caches and the
    file together hold the tables, and every cluster in use is counted. *)
(** ** Views of an image *)
Definition img (q : QcowFile) : File := file (qf_file (raw_file q)).
Definition flen (q : QcowFile) : Z := f_len (img q).
(** The entries of a table of addresses and of a block of counts. *)
Definition l2_size (q : QcowFile) : nat := Z.to_nat (size_of_cluster q / 8).
Definition block_size (q : QcowFile) : nat := Z.to_nat (size_of_cluster q / 2).

Definition masked (t : list Z) : list Z := (fun e => Z.land e L2_TABLE_OFFSET_MASK) <$> t.
Definition l2_disk (q : QcowFile) (a : Z) : list Z := masked (disk_table 8 (l2_size q) (img q) a).
Definition block_disk (q : QcowFile) (a : Z) : list Z := disk_table 2 (block_size q) (img q) a.

(** A table that is cached, or else on the file; no entries when there is none. *)
Definition table_view (index : VecCache) (cache : CacheMap) (disk : Z -> list Z) (i : nat) : list Z :=
  match vec index !! i with
  | Some a =>
    if decide (a = 0) then []
    else match cmap cache !! i with Some t => vec t | None => disk a end
  | None => []
  end.
Definition l2_view (q : QcowFile) : nat -> list Z := table_view (l1_table q) (l2_cache q) (l2_disk q).
Definition block_view (q : QcowFile) : nat -> list Z := table_view (ref_table (refcounts q)) (refblock_cache (refcounts q)) (block_disk q).

Definition refcount_of (q : QcowFile) (a : Z) : Z :=
  let c := a / size_of_cluster q in
  default 0 (block_view q (Z.to_nat (c / (size_of_cluster q / 2))) !! Z.to_nat (c mod (size_of_cluster q / 2))).

(** The byte of the disk at [address]. *)
Definition content (q : QcowFile) (address : Z) : Z :=
  match l2_view q (Z.to_nat (l1_table_index q address)) !! Z.to_nat (l2_table_index q address) with
  | Some a => if decide (a = 0) then 0 else fbyte (img q) (a + address mod size_of_cluster q)
  | None => 0
  end.

(** ** Who owns a cluster

    [OHeld] are clusters that only the running operation knows of; a zero there is none. *)
Inductive owner :=
| OHeader | OL1 (k : nat) | ORefTable (k : nat) | OL2 (i : nat) | OData (i j : nat) | OBlock (t : nat)
| OAvail (k : nat) | OUnref (k : nat) | OHeld (k : nat).
#[export] Instance owner_eq_dec : EqDecision owner.
Proof. solve_decision. Defined.

Definition owns (held : list Z) (q : QcowFile) (o : owner) (a : Z) : Prop :=
  match o with
  | OHeader => a = 0
  | OL1 k => a = l1_table_offset (header q) + Z.of_nat k * size_of_cluster q /\
             Z.of_nat k * size_of_cluster q < 8 * Z.of_nat (length (vec (l1_table q)))
  | ORefTable k => a = h_refcount_table_offset (header q) + Z.of_nat k * size_of_cluster q /\
             Z.of_nat k * size_of_cluster q < 8 * Z.of_nat (length (vec (ref_table (refcounts q))))
  | OL2 i => vec (l1_table q) !! i = Some a /\ a <> 0
  | OData i j => l2_view q i !! j = Some a /\ a <> 0
  | OBlock t => vec (ref_table (refcounts q)) !! t = Some a /\ a <> 0
  | OAvail k => avail_clusters q !! k = Some a
  | OUnref k => unref_clusters q !! k = Some a
  | OHeld k => held !! k = Some a /\ a <> 0
  end.

(** Owners whose clusters are in use. *)
Definition counted (o : owner) : Prop :=
  match o with OAvail _ | OUnref _ | OHeld _ => False | _ => True end.

(** The sizes of the tables an image of this size has. *)
Section layout.
Context (h : QcowHeader) (cs : Z).
Definition layout_clusters : Z := div_round_up_u64 (h_size h) cs.
Definition layout_l2 : Z := div_round_up_u64 layout_clusters (cs / 8).
Definition layout_l1_clusters : Z := div_round_up_u64 layout_l2 (cs / 8).
Definition layout_refcounts : Z :=
  max_refcount_clusters (refcount_order h) cs
    (wrap 32 (layout_clusters + layout_l1_clusters + layout_l2 + div_round_up_u64 QCOW_HEADER_SIZE cs)).
End layout.

Record geometry (q : QcowFile) : Prop := {
  geo_bits : 9 <= cluster_bits (header q) <= 21;
  geo_cs : size_of_cluster q = 2 ^ cluster_bits (header q);
  geo_mask : cluster_mask (raw_file q) = size_of_cluster q - 1;
  geo_l2 : l2_entries q = size_of_cluster q / 8;
  geo_rc_cs : rc_cluster_size (refcounts q) = size_of_cluster q;
  geo_block : refcount_block_entries (refcounts q) = size_of_cluster q / 2;
  geo_size : 0 <= virtual_size q <= 2 ^ 44;
  geo_l1 : Z.of_nat (length (vec (l1_table q))) = layout_l2 (header q) (size_of_cluster q);
  geo_rtn : Z.of_nat (length (vec (ref_table (refcounts q)))) = layout_refcounts (header q) (size_of_cluster q);
  geo_l1_pos : (0 < length (vec (l1_table q)))%nat;
  geo_max : max_valid_cluster_offset (refcounts q) =
    (Z.of_nat (length (vec (ref_table (refcounts q)))) * (size_of_cluster q / 2) - 1) * size_of_cluster q;
  geo_bound : 0 <= max_valid_cluster_offset (refcounts q) < 2 ^ 55;
  geo_rt : refcount_table_offset (refcounts q) = h_refcount_table_offset (header q);
  geo_l2_cache : capacity (l2_cache q) <> 0%nat;
  geo_block_cache : capacity (refblock_cache (refcounts q)) <> 0%nat;
  geo_align : alignment (qf_file (raw_file q)) = 0 \/
    0 < alignment (qf_file (raw_file q)) /\ (alignment (qf_file (raw_file q)) | size_of_cluster q);
}.

Record raw_ok (q : QcowFile) : Prop := {
  raw_sane : sane (qf_file (raw_file q));
  raw_bytes : bytes_ok (img q);
  raw_whole : (size_of_cluster q | flen q);
  raw_bound : flen q <= max_valid_cluster_offset (refcounts q) + size_of_cluster q;
}.

Record allocation (held : list Z) (q : QcowFile) : Prop := {
  al_distinct o o' a : owns held q o a -> owns held q o' a -> o = o';
  al_placed o a : owns held q o a -> (size_of_cluster q | a) /\ 0 <= a /\ a + size_of_cluster q <= flen q;
}.

Definition plain (t : list Z) : Prop := Forall (fun e => Z.land e COMPRESSED_FLAG = 0) t.

(** What a cached table is to its place on the file. *)
Definition cached_ok (n : nat) (disk : Z -> list Z) (index : VecCache) (i : nat) (t : VecCache) : Prop :=
  exists a, vec index !! i = Some a /\ a <> 0 /\ length (vec t) = n /\ (dirty t = false -> vec t = disk a).
Definition modified (cache : CacheMap) (i : nat) : Prop := exists t, cmap cache !! i = Some t /\ dirty t = true.

(** The first fields of the header on the file, as a list of their values. *)
Definition header_field (f : File) (p : Z) (n : nat) : Z := be_value (fbyte f <$> seqZ p (Z.of_nat n)).
#[global] Arguments header_field : simpl never.
Fixpoint field_values (f : File) (off : Z) (widths : list nat) : list Z :=
  match widths with
  | [] => []
  | w :: rest => header_field f off w :: field_values f (off + Z.of_nat w) rest
  end.
Definition header_widths : list nat := [4; 4; 8; 4; 4; 8; 4; 4; 8; 8; 4; 4; 8; 8; 8; 8; 4; 4]%nat.
Definition header_list (h : QcowHeader) : list Z :=
  [magic h; version h; backing_file_offset h; backing_file_size h; cluster_bits h; h_size h; crypt_method h; l1_size h;
   l1_table_offset h; h_refcount_table_offset h; refcount_table_clusters h; nb_snapshots h; snapshots_offset h].
Definition header_list_v3 (h : QcowHeader) : list Z :=
  [incompatible_features h; compatible_features h; autoclear_features h; refcount_order h; header_size h].
(** A version 2 header ends after the first thirteen fields, and the others have fixed values. *)
Definition header_on (f : File) (h : QcowHeader) : Prop :=
  field_values f 0 (take 13 header_widths) = header_list h /\
  if decide (version h = 2) then header_list_v3 h = [0; 0; 0; DEFAULT_REFCOUNT_ORDER; V2_BARE_HEADER_SIZE]
  else field_values f 72 (drop 13 header_widths) = header_list_v3 h.

Record represented (q : QcowFile) : Prop := {
  rep_l2 i t : cmap (l2_cache q) !! i = Some t -> cached_ok (l2_size q) (l2_disk q) (l1_table q) i t;
  rep_plain i a : vec (l1_table q) !! i = Some a -> a <> 0 -> ~ modified (l2_cache q) i -> plain (disk_table 8 (l2_size q) (img q) a);
  rep_block t b : cmap (refblock_cache (refcounts q)) !! t = Some b ->
    cached_ok (block_size q) (block_disk q) (ref_table (refcounts q)) t b /\ Forall (in_width 16) (vec b);
  rep_l1 : dirty (l1_table q) = false ->
    masked (disk_table 8 (length (vec (l1_table q))) (img q) (l1_table_offset (header q))) = vec (l1_table q);
  rep_rt : dirty (ref_table (refcounts q)) = false ->
    disk_table 8 (length (vec (ref_table (refcounts q)))) (img q) (h_refcount_table_offset (header q)) = vec (ref_table (refcounts q));
  rep_header : header_on (img q) (header q);
}.

(** Every cluster in use has a count, but for those in [pend], which the running operation
    is about to count. *)
Definition all_counted (pend : list Z) (q : QcowFile) : Prop :=
  forall o a, counted o -> owns [] q o a -> a ∉ pend -> 1 <= refcount_of q a.

Record Inv (pend held : list Z) (q : QcowFile) : Prop := {
  inv_geo : geometry q;
  inv_raw : raw_ok q;
  inv_alloc : allocation held q;
  inv_rep : represented q;
  inv_counted : all_counted pend q;
}.
