(* ===== verification/QcowSteps.v ===== *)
(** The steps an operation on a qcow2 image is made of, those of the blocks of reference
    counts included, and that the image stays consistent in each. *)
From stdpp Require Import base numbers list gmap.
From S2P Require Import Prelude Bytes RawFile QcowTables QcowHeader QcowImage QcowDisk QcowInv.

#[local] Open Scope Z_scope.

(** ** Clusters *)
Section clusters.
Context (q : QcowFile) (Hgeo : geometry q).
Let cs := size_of_cluster q.

Lemma cs_bounds : 512 <= cs <= 2 ^ 21.
Proof using Hgeo.
  unfold cs. destruct Hgeo as [Hb -> _ _ _ _ _ _ _ _ _ _ _ _ _ _]. change 512 with (2 ^ 9).
  split; apply Z.pow_le_mono_r; lia.
Qed.

Lemma cs_512 : (512 | cs).
Proof using Hgeo.
  unfold cs. destruct Hgeo as [Hb -> _ _ _ _ _ _ _ _ _ _ _ _ _ _]. change 512 with (2 ^ 9).
  exists (2 ^ (cluster_bits (header q) - 9)). rewrite <- Z.pow_add_r by lia. f_equal. lia.
Qed.

Lemma l2_bytes : Z.of_nat (8 * l2_size q) = cs.
Proof using Hgeo.
  unfold l2_size. fold cs. pose proof cs_bounds. destruct cs_512 as [n Hn].
  replace (cs / 8) with (n * 64); [lia|]. apply Z.div_unique_exact; lia.
Qed.
Lemma block_bytes : Z.of_nat (2 * block_size q) = cs.
Proof using Hgeo.
  unfold block_size. fold cs. pose proof cs_bounds. destruct cs_512 as [n Hn].
  replace (cs / 2) with (n * 256); [lia|]. apply Z.div_unique_exact; lia.
Qed.

Lemma l2_size_pos : (0 < l2_size q)%nat.
Proof using Hgeo. pose proof l2_bytes. pose proof cs_bounds. lia. Qed.
Lemma block_size_pos : (0 < block_size q)%nat.
Proof using Hgeo. pose proof block_bytes. pose proof cs_bounds. lia. Qed.

(** Two clusters do not overlap. *)
Lemma clusters_apart a b : (cs | a) -> (cs | b) -> a <> b -> a + cs <= b \/ b + cs <= a.
Proof using Hgeo. pose proof cs_bounds. intros [m ->] [n ->] Hne. assert (m < n \/ n < m) by nia. nia. Qed.
End clusters.

(** ** Changing the file below an image *)
Definition put_file (r : RawFile) (q : QcowFile) : QcowFile := set_raw_file (set_qf r (raw_file q)) q.

(** Nothing changed but the cluster at [c]. *)
Definition only_at (c n : Z) (f f' : File) : Prop := forall o, ~ (c <= o < c + n) -> fbyte f' o = fbyte f o.

(** A cluster whose bytes are not those of a table that has to be read back. *)
Definition writable (q : QcowFile) (o : owner) : Prop :=
  match o with
  | OData _ _ | OAvail _ | OUnref _ | OHeld _ => True
  | OL2 i => modified (l2_cache q) i
  | OBlock t => modified (refblock_cache (refcounts q)) t
  | OL1 _ => dirty (l1_table q) = true
  | ORefTable _ => dirty (ref_table (refcounts q)) = true
  | OHeader => False
  end.

(** What the owners of the clusters depend on. *)
Record same_alloc (q q' : QcowFile) : Prop := {
  sa_header : header q' = header q;
  sa_cs : size_of_cluster q' = size_of_cluster q;
  sa_l1 : vec (l1_table q') = vec (l1_table q);
  sa_rt : vec (ref_table (refcounts q')) = vec (ref_table (refcounts q));
  sa_l2 i : l2_view q' i = l2_view q i;
  sa_avail : avail_clusters q' = avail_clusters q;
  sa_unref : unref_clusters q' = unref_clusters q;
}.

Lemma owns_same held q q' o a : same_alloc q q' -> owns held q' o a <-> owns held q o a.
Proof.
  intros [Hh Hc H1 Hr H2 Ha Hu]. destruct o; cbn; by rewrite ?Hh, ?Hc, ?H1, ?Hr, ?H2, ?Ha, ?Hu.
Qed.

Lemma allocation_same held q q' : same_alloc q q' -> flen q <= flen q' -> allocation held q -> allocation held q'.
Proof.
  intros Hs Hl [Hd Hp]. split.
  - intros o o' a. rewrite !(owns_same held q q') by done. apply Hd.
  - intros o a. rewrite (owns_same held q q'), (sa_cs _ _ Hs) by done. intros Ho. destruct (Hp _ _ Ho) as (? & ? & ?). split_and!; [done|lia|lia].
Qed.

Lemma refcount_same q q' a :
  size_of_cluster q' = size_of_cluster q -> (forall t, block_view q' t = block_view q t) -> refcount_of q' a = refcount_of q a.
Proof. intros Hc Hb. unfold refcount_of. by rewrite Hc, Hb. Qed.

Lemma counted_same pend q q' :
  same_alloc q q' -> (forall t, block_view q' t = block_view q t) -> all_counted pend q -> all_counted pend q'.
Proof.
  intros Hs Hb Hc o a Ho Howns Ha. rewrite (refcount_same q q') by (done || apply Hs).
  apply (Hc o); [done| |done]. by apply (owns_same [] q q').
Qed.

(** Reading a table from an index and a cache that did not change. *)
Lemma table_view_disk index cache disk disk' i :
  (forall a, vec index !! i = Some a -> a <> 0 -> cmap cache !! i = None -> disk' a = disk a) ->
  table_view index cache disk' i = table_view index cache disk i.
Proof.
  intros Hd. unfold table_view. destruct (vec index !! i) as [a|] eqn:Ha; [|done]. case_decide; [done|].
  destruct (cmap cache !! i) eqn:Hc; [done|]. by apply Hd.
Qed.

(** Writing to the clusters of the owners in [P] only. *)
Section others.
Context (pend held : list Z) (q : QcowFile) (r : RawFile) (P : owner -> Prop).
Context (HI : Inv pend held q) (Hw : forall o, P o -> writable q o).
Context (Hs : sane r) (Hal : alignment r = alignment (qf_file (raw_file q))) (Hlen : f_len (file r) = flen q).
Context (Hbytes : bytes_ok (file r)).
Context (Hother : forall o a x, owns held q o a -> ~ P o -> a <= x < a + size_of_cluster q -> fbyte (file r) x = fbyte (img q) x).
Let q' := put_file r q.

Lemma others_l2_disk i a : vec (l1_table q) !! i = Some a -> a <> 0 -> ~ modified (l2_cache q) i -> 
  disk_table 8 (l2_size q) (file r) a = disk_table 8 (l2_size q) (img q) a.
Proof using HI Hw Hother.
  intros Ha Hne Hm. apply disk_table_ext. intros x. rewrite (l2_bytes q) by apply HI.
  apply (Hother (OL2 i)); [done|]. intros HP. by apply Hm, (Hw _ HP).
Qed.

Lemma others_block_disk t a : vec (ref_table (refcounts q)) !! t = Some a -> a <> 0 -> ~ modified (refblock_cache (refcounts q)) t ->
  disk_table 2 (block_size q) (file r) a = disk_table 2 (block_size q) (img q) a.
Proof using HI Hw Hother.
  intros Ha Hne Hm. apply disk_table_ext. intros x. rewrite (block_bytes q) by apply HI.
  apply (Hother (OBlock t)); [done|]. intros HP. by apply Hm, (Hw _ HP).
Qed.

Lemma others_l2_view i : l2_view q' i = l2_view q i.
Proof using HI Hw Hother.
  apply table_view_disk. intros a Ha Hne Hc. unfold l2_disk. f_equal. apply (others_l2_disk i); [done..|].
  intros (t & Ht & _). congruence.
Qed.
Lemma others_block_view t : block_view q' t = block_view q t.
Proof using HI Hw Hother.
  apply table_view_disk. intros a Ha Hne Hc. apply (others_block_disk t); [done..|].
  intros (b & Hb & _). change (cmap (refblock_cache (refcounts q)) !! t = None) in Hc. congruence.
Qed.

Lemma others_same : same_alloc q q'.
Proof using HI Hw Hother. split; try done. apply others_l2_view. Qed.

(** The tables at fixed places are runs of clusters. *)
Lemma others_run (mk : nat -> owner) base n x :
  (forall k, Z.of_nat k * size_of_cluster q < 8 * Z.of_nat n -> owns held q (mk k) (base + Z.of_nat k * size_of_cluster q)) ->
  (forall k, ~ P (mk k)) -> base <= x < base + 8 * Z.of_nat n -> fbyte (file r) x = fbyte (img q) x.
Proof using HI Hother.
  intros Hmk Hne Hx. pose proof (cs_bounds q (inv_geo _ _ _ HI)) as Hcs. set (cs := size_of_cluster q) in *.
  set (k := Z.to_nat ((x - base) / cs)).
  assert (Z.of_nat k * cs <= x - base < Z.of_nat k * cs + cs) as Hk.
  { unfold k. rewrite Z2Nat.id by (apply Z.div_pos; lia).
    pose proof (Z.div_mod (x - base) cs). pose proof (Z.mod_pos_bound (x - base) cs). lia. }
  apply (Hother (mk k) (base + Z.of_nat k * cs)); [apply Hmk; lia|apply Hne|fold cs; lia].
Qed.

Lemma others_table (mk : nat -> owner) base n :
  (forall k, Z.of_nat k * size_of_cluster q < 8 * Z.of_nat n -> owns held q (mk k) (base + Z.of_nat k * size_of_cluster q)) ->
  (forall k, ~ P (mk k)) -> disk_table 8 n (file r) base = disk_table 8 n (img q) base.
Proof using HI Hother. intros Hmk Hne. apply disk_table_ext. intros x Hx. apply (others_run mk base n); [done..|lia]. Qed.

Lemma field_values_ext f f' off ws :
  (forall x, off <= x < off + Z.of_nat (sum_list ws) -> fbyte f' x = fbyte f x) -> field_values f' off ws = field_values f off ws.
Proof using.
  revert off. induction ws as [|w ws IH]; intros off Hx; [done|]. cbn in *. f_equal.
  - unfold header_field. f_equal. apply list_fmap_ext. intros k y Hy. apply lookup_seqZ in Hy as [-> ?]. apply Hx. lia.
  - apply IH. intros x ?. apply Hx. lia.
Qed.

Lemma others_header : header_on (img q) (header q) -> header_on (file r) (header q).
Proof using HI Hw Hother.
  assert (forall x, 0 <= x < 104 -> fbyte (file r) x = fbyte (img q) x) as Hx.
  { intros x Hx. pose proof (cs_bounds q (inv_geo _ _ _ HI)). apply (Hother OHeader 0); [done| |lia]. intros HP. exact (Hw _ HP). }
  intros [H1 H2]. split; [|destruct (decide _); [done|]].
  - rewrite <- H1. apply field_values_ext. cbn. intros x ?. apply Hx. lia.
  - rewrite <- H2. apply field_values_ext. cbn. intros x ?. apply Hx. lia.
Qed.

Lemma others_represented : represented q'.
Proof using HI Hw Hother.
  destruct (inv_rep _ _ _ HI) as [Hl2 Hpl Hbl Hl1 Hrt Hh]. split.
  - intros i t Ht. change (cmap (l2_cache q) !! i = Some t) in Ht. destruct (Hl2 i t Ht) as (a & Ha & Hne & Hn & Hd). exists a. split_and!; [done..|].
    intros Hdt. rewrite (Hd Hdt). unfold l2_disk. f_equal. symmetry. apply (others_l2_disk i); [done..|].
    intros (t' & Ht' & Hd'). congruence.
  - intros i a Ha Hne Hm. change (plain (disk_table 8 (l2_size q) (file r) a)). rewrite (others_l2_disk i) by done. by apply (Hpl i).
  - intros t b Hb. change (cmap (refblock_cache (refcounts q)) !! t = Some b) in Hb. destruct (Hbl t b Hb) as ((a & Ha & Hne & Hn & Hd) & Hwd). split; [|done].
    exists a. split_and!; [done..|]. intros Hdb. rewrite (Hd Hdb). symmetry. apply (others_block_disk t); [done..|].
    intros (b' & Hb' & Hd'). congruence.
  - intros Hd. etrans; [|exact (Hl1 Hd)]. unfold masked. f_equal. apply (others_table OL1); [by intros k|]. intros k HP. pose proof (Hw _ HP) as Hdk. cbn in Hd, Hdk. congruence.
  - intros Hd. etrans; [|exact (Hrt Hd)]. apply (others_table ORefTable); [by intros k|]. intros k HP. pose proof (Hw _ HP) as Hdk. cbn in Hd, Hdk. congruence.
  - by apply others_header.
Qed.

Lemma others_inv : Inv pend held q'.
Proof using All.
  destruct HI as [Hgeo [_ _ Hwhole Hbound] Hal' Hrep Hcnt]. split.
  - destruct Hgeo. split; try done. unfold q'. cbn. by rewrite Hal.
  - split; [done..| |]; unfold flen, img, q'; cbn; rewrite Hlen; done.
  - apply (allocation_same held q); [apply others_same|unfold flen at 2, img, q'; cbn; lia|done].
  - apply others_represented.
  - apply (counted_same pend q); [apply others_same|apply others_block_view|done].
Qed.
End others.

Section touch.
Context (pend held : list Z) (q : QcowFile) (r : RawFile) (c : Z) (o : owner).
Context (HI : Inv pend held q) (Ho : owns held q o c) (Hw : writable q o).
Context (Hs : sane r) (Hal : alignment r = alignment (qf_file (raw_file q))) (Hlen : f_len (file r) = flen q).
Context (Hbytes : bytes_ok (file r)) (Hat : only_at c (size_of_cluster q) (img q) (file r)).
Let q' := put_file r q.

Lemma touch_other o' a x :
  owns held q o' a -> o' <> o -> a <= x < a + size_of_cluster q -> fbyte (file r) x = fbyte (img q) x.
Proof using HI Ho Hat.
  intros Ho' Hne Hx. apply Hat. destruct HI as [Hgeo _ [Hd Hp] _ _]. destruct (Hp _ _ Ho) as (Hc & _), (Hp _ _ Ho') as (Ha & _).
  assert (a <> c) by (intros ->; eauto). destruct (clusters_apart q Hgeo a c Ha Hc); [done|lia..].
Qed.

Lemma only_o o' : o' = o -> writable q o'.
Proof using Hw. by intros ->. Qed.

Lemma touch_l2_disk i a : vec (l1_table q) !! i = Some a -> a <> 0 -> ~ modified (l2_cache q) i ->
  disk_table 8 (l2_size q) (file r) a = disk_table 8 (l2_size q) (img q) a.
Proof using HI Ho Hw Hat. exact (others_l2_disk pend held q r (fun o' => o' = o) HI only_o touch_other i a). Qed.
Lemma touch_block_disk t a : vec (ref_table (refcounts q)) !! t = Some a -> a <> 0 -> ~ modified (refblock_cache (refcounts q)) t ->
  disk_table 2 (block_size q) (file r) a = disk_table 2 (block_size q) (img q) a.
Proof using HI Ho Hw Hat. exact (others_block_disk pend held q r (fun o' => o' = o) HI only_o touch_other t a). Qed.
Lemma touch_l2_view i : l2_view q' i = l2_view q i.
Proof using HI Ho Hw Hat. exact (others_l2_view pend held q r (fun o' => o' = o) HI only_o touch_other i). Qed.
Lemma touch_block_view t : block_view q' t = block_view q t.
Proof using HI Ho Hw Hat. exact (others_block_view pend held q r (fun o' => o' = o) HI only_o touch_other t). Qed.
Lemma touch_inv : Inv pend held q'.
Proof using All. exact (others_inv pend held q r (fun o' => o' = o) HI only_o Hs Hal Hlen Hbytes touch_other). Qed.
End touch.

(** ** Moving clusters between owners *)
Definition swap (x y o : owner) : owner := if decide (o = x) then y else if decide (o = y) then x else o.
Lemma swap_inj x y o o' : swap x y o = swap x y o' -> o = o'.
Proof. unfold swap. intros. repeat case_decide; congruence. Qed.

Lemma allocation_transfer f held held' q q' :
  allocation held q -> size_of_cluster q' = size_of_cluster q -> flen q <= flen q' ->
  (forall o a, owns held' q' o a -> owns held q (f o) a) ->
  (forall o o' a, owns held' q' o a -> owns held' q' o' a -> f o = f o' -> o = o') ->
  allocation held' q'.
Proof.
  intros [Hd Hp] Hc Hl Hf Hinj. split.
  - intros o o' a Ho Ho'. eapply Hinj; eauto.
  - intros o a Ho. rewrite Hc. destruct (Hp _ _ (Hf _ _ Ho)) as (? & ? & ?). split_and!; [done|lia|lia].
Qed.

Lemma inv_pend pend pend' held q : Inv pend held q -> pend ⊆ pend' -> Inv pend' held q.
Proof. intros [? ? ? ? Hc] Hp. split; [done..|]. intros o a ? ? Ha. apply (Hc o); [done..|]. set_solver. Qed.

(** A cluster that is counted is not pending. *)
Lemma inv_settled pend a held q : Inv (a :: pend) held q -> 1 <= refcount_of q a -> Inv pend held q.
Proof.
  intros [? ? ? ? Hc] Ha. split; [done..|]. intros o b Ho Hb Hn. destruct (decide (b = a)) as [->|Hne]; [done|].
  apply (Hc o); [done..|]. set_solver.
Qed.

(** Clusters that are held can be forgotten, and in another order. *)
Lemma inv_held (f : nat -> nat) pend held held' q :
  Inv pend held q -> (forall k a, held' !! k = Some a -> a <> 0 -> held !! f k = Some a) ->
  (forall x y a, held' !! x = Some a -> held' !! y = Some a -> a <> 0 -> f x = f y -> x = y) -> Inv pend held' q.
Proof.
  intros [Hg Hr Ha Hrep Hc] Hf Hinj. split; [done..| |done|done].
  apply (allocation_transfer (fun o => match o with OHeld k => OHeld (f k) | _ => o end) held held' q q); [done..| |].
  - intros [] a; cbn; try done. intros [Hk Hne]. eauto.
  - intros [] [] a; cbn; intros; simplify_eq; try done. f_equal. naive_solver.
Qed.

Lemma inv_held_drop pend a held q : Inv pend (a :: held) q -> Inv pend held q.
Proof. intros HI. by apply (inv_held S _ _ _ _ HI); [|naive_solver lia]. Qed.
Lemma inv_held_zero pend held q : Inv pend held q -> Inv pend (0 :: held) q.
Proof.
  intros HI. apply (inv_held pred _ _ _ _ HI); [by intros [|k]; cbn; intros; simplify_eq|].
  intros [|x] [|y]; cbn; intros; simplify_eq; (done || lia).
Qed.
Lemma inv_held_swap pend a b held q : Inv pend (a :: b :: held) q -> Inv pend (b :: a :: held) q.
Proof.
  intros HI. apply (inv_held (fun k => match k with 0 => 1 | 1 => 0 | _ => k end)%nat _ _ _ _ HI); [by intros [|[|k]]|].
  intros [|[|x]] [|[|y]]; cbn; intros; simplify_eq; (done || lia).
Qed.

(** The cached table of an index entry. *)
Lemma view_cached n disk index cache i t : cmap cache !! i = Some t -> cached_ok n disk index i t -> table_view index cache disk i = vec t.
Proof. intros Hc (a & Ha & Hne & _). unfold table_view. by rewrite Ha, decide_False, Hc. Qed.

(** ** The L2 tables *)

(** The file has the table, whatever the cache does with it. *)
Definition l2_synced (q : QcowFile) (i : nat) : Prop :=
  exists a, vec (l1_table q) !! i = Some a /\ a <> 0 /\ l2_view q i = l2_disk q a /\ plain (disk_table 8 (l2_size q) (img q) a).

Lemma l2_disk_length q a : length (l2_disk q a) = l2_size q.
Proof. unfold l2_disk, masked. by rewrite length_fmap, disk_table_length. Qed.

Lemma inv_l2_cache pend held q c :
  Inv pend held q -> capacity c <> 0%nat ->
  (forall i, cmap c !! i = cmap (l2_cache q) !! i \/ l2_synced q i /\ forall t, cmap c !! i = Some t -> vec t = l2_view q i) ->
  Inv pend held (set_l2_cache c q) /\ same_alloc q (set_l2_cache c q).
Proof.
  intros [Hgeo Hraw Hal Hrep Hcnt] Hcap Hc.
  assert (same_alloc q (set_l2_cache c q)) as Hs.
  { split; try done. intros i. unfold l2_view at 1, table_view. cbn.
    destruct (Hc i) as [->|((a & Ha & Hne & Hv & _) & Ht)]; [done|]. rewrite Ha, decide_False by done.
    destruct (cmap c !! i) eqn:?; [by apply Ht|done]. }
  split; [|done]. split.
  - by destruct Hgeo; split.
  - by destruct Hraw; split.
  - by apply (allocation_same held q).
  - destruct Hrep as [Hl2 Hpl Hbl Hl1 Hrt Hh]. split; try done; cbn.
    + intros i t Ht. destruct (Hc i) as [Heq|((a & Ha & Hne & Hv & _) & Hvt)]; [apply Hl2; by rewrite <- Heq|].
      specialize (Hvt t Ht). exists a. rewrite Hvt, Hv. split_and!; [done..|exact (l2_disk_length q a)|done].
    + intros i a Ha Hne Hm. destruct (Hc i) as [Heq|((a' & Ha' & _ & _ & Hp) & _)]; [|by simplify_eq].
      apply (Hpl i); [done..|]. intros (t & Ht & Hd). apply Hm. exists t. by rewrite Heq.
  - by apply (counted_same pend q).
Qed.

(** A table of the cache is modified. *)
Definition dirtied (t : VecCache) : VecCache := mkVecCache (vec t) true.
Definition dirty_l2 (i : nat) (q : QcowFile) : QcowFile := set_l2_cache (set_cmap (alter dirtied i (cmap (l2_cache q))) (l2_cache q)) q.

Lemma inv_dirty_l2 pend held q i : Inv pend held q -> Inv pend held (dirty_l2 i q) /\ same_alloc q (dirty_l2 i q).
Proof.
  intros [Hgeo Hraw Hal Hrep Hcnt].
  assert (same_alloc q (dirty_l2 i q)) as Hs.
  { split; try done. intros k. unfold l2_view, table_view. cbn. destruct (vec _ !! k); [|done]. case_decide; [done|].
    destruct (decide (i = k)) as [->|Hne]; [rewrite lookup_alter_eq|by rewrite lookup_alter_ne].
    by destruct (cmap (l2_cache q) !! k). }
  split; [|done]. split; [by destruct Hgeo; split|by destruct Hraw; split|by apply (allocation_same held q)| |by apply (counted_same pend q)].
  destruct Hrep as [Hl2 Hpl Hbl Hl1 Hrt Hh]. split; try done; cbn.
  - intros k t Ht. apply lookup_alter_Some in Ht as [(-> & t0 & Ht0 & ->)|[_ Ht]]; [|by apply Hl2].
    destruct (Hl2 _ _ Ht0) as (a & ? & ? & ? & ?). by exists a.
  - intros k a Ha Hne Hm. apply (Hpl k); [done..|]. intros (t & Ht & Hd). apply Hm. unfold modified. cbn.
    destruct (decide (i = k)) as [->|Hik]; [rewrite lookup_alter_eq, Ht|rewrite lookup_alter_ne by done]; eauto.
Qed.

(** The L1 entry [i] gets a cluster that was held, whose place the old one takes: either the
    table is cached and modified, or there was none and the cluster reads as one without
    entries. *)
Section set_l1.
Context (pend held : list Z) (q : QcowFile) (li a0 a1 : Z).
Let i := Z.to_nat li.
Context (HI : Inv pend (a1 :: held) q) (Ha0 : vec (l1_table q) !! i = Some a0) (Ha1 : a1 <> 0) (Hpend : a1 ∈ pend).
Context (Hcase : modified (l2_cache q) i \/ (a0 = 0 /\ (forall x, a1 <= x < a1 + size_of_cluster q -> fbyte (img q) x = 0))).
Let q' := set_l1_table (vec_set li a1 (l1_table q)) q.

Lemma sl_lookup k a : vec (l1_table q') !! k = Some a -> k = i /\ a = a1 \/ k <> i /\ vec (l1_table q) !! k = Some a.
Proof using All.
  unfold q'. cbn. fold i. intros Hk. apply list_lookup_insert_Some in Hk as [(-> & -> & _)|[]]; [by left|right; done].
Qed.
Lemma sl_new : vec (l1_table q') !! i = Some a1.
Proof using All. unfold q'. cbn. fold i. apply list_lookup_insert_eq. by eapply lookup_lt_Some. Qed.
Lemma sl_old k : k <> i -> vec (l1_table q') !! k = vec (l1_table q) !! k.
Proof using All. intros Hk. unfold q'. cbn. by apply list_lookup_insert_ne. Qed.

Lemma sl_cached t : cmap (l2_cache q) !! i = Some t -> a0 <> 0 /\ dirty t = true.
Proof using All.
  intros Ht. destruct (rep_l2 q (inv_rep _ _ _ HI) _ _ Ht) as (a & Ha & Hne & _). rewrite Ha0 in Ha. injection Ha as <-.
  split; [done|]. destruct Hcase as [(t' & Ht' & Hd)|[-> _]]; [congruence|done].
Qed.

Lemma sl_zero : a0 = 0 -> disk_table 8 (l2_size q) (img q) a1 = replicate (l2_size q) 0.
Proof using All.
  intros Hz. destruct Hcase as [(t' & Ht' & _)|[_ Hx]]; [by destruct (sl_cached t' Ht')|].
  apply disk_table_zero. rewrite (l2_bytes q) by apply HI. done.
Qed.

Lemma sl_view k : l2_view q' k = if decide (k = i /\ a0 = 0) then replicate (l2_size q) 0 else l2_view q k.
Proof using All.
  unfold l2_view at 1, table_view. destruct (decide (k = i)) as [->|Hne]; cycle 1.
  { rewrite sl_old, (decide_False (P := _ /\ _)) by naive_solver. done. }
  rewrite sl_new, decide_False by done. change (l2_cache q') with (l2_cache q). destruct (cmap (l2_cache q) !! i) as [t|] eqn:Ht.
  - destruct (sl_cached t Ht) as [Hn _]. rewrite decide_False by naive_solver. unfold l2_view, table_view. by rewrite Ha0, decide_False, Ht.
  - destruct Hcase as [(t' & Ht' & _)|[Hz0 _]]; [congruence|]. rewrite decide_True by done.
    change (l2_disk q a1 = replicate (l2_size q) 0). unfold l2_disk. rewrite (sl_zero Hz0). unfold masked. by rewrite fmap_replicate.
Qed.

Lemma sl_data k j a : l2_view q' k !! j = Some a -> a <> 0 -> l2_view q k !! j = Some a.
Proof using All.
  rewrite sl_view. case_decide; [|done]. intros [-> _]%lookup_replicate. done.
Qed.

Lemma sl_length : length (vec (l1_table q')) = length (vec (l1_table q)).
Proof using All. unfold q'. cbn. apply length_insert. Qed.

Lemma sl_alloc : allocation (a0 :: held) q'.
Proof using All.
  apply (allocation_transfer (swap (OL2 i) (OHeld 0)) (a1 :: held) (a0 :: held) q q'); [apply HI|done..| |intros ? ? ? _ _; apply swap_inj].
  intros o a Ho. destruct o as [|k|k|k|k j|k|k|k|k]; try (by apply Ho).
  - unfold owns in Ho |- *. rewrite sl_length in Ho. done.
  - destruct Ho as [[[-> ->]|[Hk Ho]]%sl_lookup Hne]; unfold swap; [by rewrite decide_True|].
    by rewrite !decide_False by congruence.
  - destruct Ho as [Ho Hne]. split; [by apply sl_data|done].
  - destruct k as [|k]; [|by apply Ho]. destruct Ho as [[= <-] Hne]. by unfold swap.
Qed.

Lemma sl_represented : represented q'.
Proof using All.
  destruct (inv_rep _ _ _ HI) as [Hl2 Hpl Hbl Hl1 Hrt Hh]. split; try done.
  - intros k t Ht. change (cmap (l2_cache q) !! k = Some t) in Ht. destruct (Hl2 k t Ht) as (a & Ha & Hne & Hn & Hd).
    destruct (decide (k = i)) as [->|Hk]; [|exists a; by rewrite sl_old].
    exists a1. destruct (sl_cached t Ht) as [_ Hdt]. split_and!; [apply sl_new|done..|congruence].
  - intros k a Ha Hne Hm. change (~ modified (l2_cache q) k) in Hm. change (plain (disk_table 8 (l2_size q) (img q) a)).
    apply sl_lookup in Ha as [[-> ->]|[Hk Ha]]; [|by apply (Hpl k)].
    destruct Hcase as [|[Hz0 _]]; [done|]. rewrite (sl_zero Hz0). by apply Forall_replicate.
Qed.

Lemma inv_set_l1 : Inv pend (a0 :: held) q'.
Proof using All.
  destruct HI as [Hgeo Hraw _ _ Hcnt]. split.
  - destruct Hgeo. split; try done; rewrite sl_length; done.
  - by destruct Hraw; split.
  - apply sl_alloc.
  - apply sl_represented.
  - intros o a Ho Howns Hna. change (1 <= refcount_of q a). destruct o as [|k|k|k|k j|k|k|k|k]; try (by apply (Hcnt _ a Ho); [apply Howns|done]).
    + apply (Hcnt (OL1 k)); [done| |done]. unfold owns in Howns |- *. by rewrite sl_length in Howns.
    + destruct Howns as [[[-> ->]|[Hk Hl]]%sl_lookup Hne]; [done|by apply (Hcnt (OL2 k))].
    + destruct Howns as [Hv Hne]. apply (Hcnt (OData k j)); [done| |done]. split; [by apply sl_data|done].
Qed.
End set_l1.

(** The entry [lj] of a cached table changes places with what is held. *)
Section set_entry.
Context (pend held : list Z) (q : QcowFile) (li lj e0 e1 : Z) (t : VecCache).
Let i := Z.to_nat li.
Let j := Z.to_nat lj.
Context (HI : Inv pend (e1 :: held) q) (Ht : cmap (l2_cache q) !! i = Some t) (He0 : vec t !! j = Some e0).
Context (Hpend : e1 <> 0 -> e1 ∈ pend \/ 1 <= refcount_of q e1).
Let q' := set_l2_entry li lj e1 q.

Lemma se_cache k : cmap (l2_cache q') !! k = if decide (k = i) then Some (vec_set lj e1 t) else cmap (l2_cache q) !! k.
Proof using All.
  unfold q', set_l2_entry. cbn. fold i. case_decide as Hk; [subst; rewrite lookup_alter_eq; by rewrite Ht|].
  by apply lookup_alter_ne.
Qed.

Lemma se_view k : l2_view q' k = if decide (k = i) then <[j := e1]> (l2_view q k) else l2_view q k.
Proof using All.
  destruct (rep_l2 q (inv_rep _ _ _ HI) _ _ Ht) as (a & Ha & Hne & _).
  unfold l2_view, table_view. rewrite se_cache. change (l1_table q') with (l1_table q). case_decide as Hk; [|done].
  subst k. rewrite Ha, !decide_False, Ht by done. done.
Qed.

Lemma se_data k l a : l2_view q' k !! l = Some a -> k = i /\ l = j /\ a = e1 \/ (k, l) <> (i, j) /\ l2_view q k !! l = Some a.
Proof using All.
  rewrite se_view. case_decide as Hk; [|right; split; [naive_solver|done]].
  intros [(-> & -> & _)|[Hl Ho]]%list_lookup_insert_Some; [left; done|right; split; [naive_solver|done]].
Qed.

Lemma se_old : l2_view q i !! j = Some e0.
Proof using All.
  unfold l2_view. rewrite (view_cached _ _ _ _ _ _ Ht (rep_l2 q (inv_rep _ _ _ HI) _ _ Ht)). done.
Qed.

Lemma se_alloc : allocation (e0 :: held) q'.
Proof using All.
  apply (allocation_transfer (swap (OData i j) (OHeld 0)) (e1 :: held) (e0 :: held) q q'); [apply HI|done..| |intros ? ? ? _ _; apply swap_inj].
  intros o a Ho. destruct o as [|k|k|k|k l|k|k|k|k]; try (by apply Ho).
  - destruct Ho as [[(-> & -> & ->)|[Hk Ho]]%se_data Hne]; unfold swap; [by rewrite decide_True|].
    by rewrite !decide_False by congruence.
  - destruct k as [|k]; [|by apply Ho]. destruct Ho as [[= <-] Hne]. unfold swap. rewrite decide_False, decide_True by done.
    split; [apply se_old|done].
Qed.

Lemma se_represented : represented q'.
Proof using All.
  destruct (inv_rep _ _ _ HI) as [Hl2 Hpl Hbl Hl1 Hrt Hh]. split; try done.
  - intros k t' Ht'. rewrite se_cache in Ht'. case_decide as Hk; [|by apply Hl2]. injection Ht' as <-. subst k.
    destruct (Hl2 _ _ Ht) as (a & Ha & Hne & Hn & Hd). exists a. split_and!; [done..|by cbn; rewrite length_insert|done].
  - intros k a Ha Hne Hm. apply (Hpl k); [done..|]. intros (t' & Ht' & Hd). apply Hm. unfold modified. rewrite se_cache.
    case_decide; eauto.
Qed.

Lemma inv_set_entry : Inv pend (e0 :: held) q'.
Proof using All.
  destruct HI as [Hgeo Hraw _ _ Hcnt]. split.
  - by destruct Hgeo; split.
  - by destruct Hraw; split.
  - apply se_alloc.
  - apply se_represented.
  - intros o a Ho Howns Hna. change (1 <= refcount_of q a). destruct o as [|k|k|k|k l|k|k|k|k]; try (by apply (Hcnt _ a Ho); [apply Howns|done]).
    destruct Howns as [[(-> & -> & ->)|[Hk Hl]]%se_data Hne]; [naive_solver|]. apply (Hcnt (OData k l)); done.
Qed.
End set_entry.

(** * The steps of the reference counts of a qcow2 image, and the steps that hand out clusters
    and take them back. *)
(** ** Blocks of counts *)
Notation blocks q := (refblock_cache (refcounts q)).
Notation rtable q := (ref_table (refcounts q)).
Definition set_blocks (c : CacheMap) (q : QcowFile) : QcowFile := set_refcounts (set_refblocks c (refcounts q)) q.
Definition set_rtable (t : VecCache) (q : QcowFile) : QcowFile := set_refcounts (set_ref_table t (refcounts q)) q.

Definition block_synced (q : QcowFile) (t : nat) : Prop :=
  exists a, vec (rtable q) !! t = Some a /\ a <> 0 /\ block_view q t = block_disk q a.

Lemma block_disk_ok q a : bytes_ok (img q) -> Forall (in_width 16) (block_disk q a).
Proof. intros Hb. exact (disk_table_width 2 (block_size q) (img q) a Hb). Qed.

Lemma block_view_ok q t : represented q -> bytes_ok (img q) -> Forall (in_width 16) (block_view q t).
Proof.
  intros Hrep Hb. unfold block_view, table_view. destruct (vec _ !! t); [|constructor]. case_decide; [constructor|].
  destruct (cmap _ !! t) as [b|] eqn:Ht; [by apply (rep_block q Hrep t b)|by apply block_disk_ok].
Qed.

Lemma inv_block_cache pend held q c :
  Inv pend held q -> capacity c <> 0%nat ->
  (forall t, cmap c !! t = cmap (blocks q) !! t \/ block_synced q t /\ forall b, cmap c !! t = Some b -> vec b = block_view q t) ->
  Inv pend held (set_blocks c q) /\ (forall t, block_view (set_blocks c q) t = block_view q t).
Proof.
  intros [Hgeo Hraw Hal Hrep Hcnt] Hcap Hc.
  assert (forall t, block_view (set_blocks c q) t = block_view q t) as Hs.
  { intros t. unfold block_view at 1, table_view. cbn.
    destruct (Hc t) as [->|((a & Ha & Hne & Hv) & Ht)]; [done|]. rewrite Ha, decide_False by done.
    destruct (cmap c !! t) eqn:?; [by apply Ht|done]. }
  assert (same_alloc q (set_blocks c q)) by done.
  split; [|done]. split; [by destruct Hgeo; split|by destruct Hraw; split|by apply (allocation_same held q)| |by apply (counted_same pend q)].
  pose proof (fun t => block_view_ok q t Hrep (raw_bytes q Hraw)) as Hwd.
  destruct Hrep as [Hl2 Hpl Hbl Hl1 Hrt Hh]. split; try done. cbn.
  intros t b Ht. destruct (Hc t) as [Heq|((a & Ha & Hne & Hv) & Hvt)]; [apply Hbl; by rewrite <- Heq|].
  specialize (Hvt b Ht). split; [|rewrite Hvt; apply Hwd]. exists a. rewrite Hvt, Hv. split_and!; [done..|apply disk_table_length|done].
Qed.

Definition dirty_block (t : nat) (q : QcowFile) : QcowFile := set_blocks (set_cmap (alter dirtied t (cmap (blocks q))) (blocks q)) q.

Lemma inv_dirty_block pend held q t : Inv pend held q -> Inv pend held (dirty_block t q) /\ (forall k, block_view (dirty_block t q) k = block_view q k).
Proof.
  intros [Hgeo Hraw Hal Hrep Hcnt].
  assert (forall k, block_view (dirty_block t q) k = block_view q k) as Hs.
  { intros k. unfold block_view, table_view. cbn. destruct (vec _ !! k); [|done]. case_decide; [done|].
    destruct (decide (t = k)) as [->|Hne]; [rewrite lookup_alter_eq|by rewrite lookup_alter_ne].
    by destruct (cmap (blocks q) !! k). }
  assert (same_alloc q (dirty_block t q)) by done.
  split; [|done]. split; [by destruct Hgeo; split|by destruct Hraw; split|by apply (allocation_same held q)| |by apply (counted_same pend q)].
  destruct Hrep as [Hl2 Hpl Hbl Hl1 Hrt Hh]. split; try done; cbn.
  intros k b Hb. apply lookup_alter_Some in Hb as [(-> & b0 & Hb0 & ->)|[_ Hb]]; [|by apply Hbl].
  destruct (Hbl _ _ Hb0) as ((a & ? & ? & ? & ?) & ?). split; [by exists a|done].
Qed.

(** The entry [ti] of the table of blocks gets a cluster that was held. *)
Section set_rt.
Context (pend held : list Z) (q : QcowFile) (ti a0 a1 : Z).
Let t := Z.to_nat ti.
Context (HI : Inv pend (a1 :: held) q) (Ha0 : vec (rtable q) !! t = Some a0) (Ha1 : a1 <> 0) (Hpend : a1 ∈ pend).
Context (Hcase : modified (blocks q) t \/ (a0 = 0 /\ (forall x, a1 <= x < a1 + size_of_cluster q -> fbyte (img q) x = 0))).
Let q' := set_rtable (vec_set ti a1 (rtable q)) q.

Lemma sr_lookup k a : vec (rtable q') !! k = Some a -> k = t /\ a = a1 \/ k <> t /\ vec (rtable q) !! k = Some a.
Proof using All.
  unfold q'. cbn. fold t. intros Hk. apply list_lookup_insert_Some in Hk as [(-> & -> & _)|[]]; [by left|right; done].
Qed.
Lemma sr_new : vec (rtable q') !! t = Some a1.
Proof using All. unfold q'. cbn. fold t. apply list_lookup_insert_eq. by eapply lookup_lt_Some. Qed.
Lemma sr_old k : k <> t -> vec (rtable q') !! k = vec (rtable q) !! k.
Proof using All. intros Hk. unfold q'. cbn. by apply list_lookup_insert_ne. Qed.
Lemma sr_length : length (vec (rtable q')) = length (vec (rtable q)).
Proof using All. unfold q'. cbn. apply length_insert. Qed.

Lemma sr_cached b : cmap (blocks q) !! t = Some b -> a0 <> 0 /\ dirty b = true.
Proof using All.
  intros Hb. destruct (rep_block q (inv_rep _ _ _ HI) _ _ Hb) as ((a & Ha & Hne & _) & _). rewrite Ha0 in Ha. injection Ha as <-.
  split; [done|]. destruct Hcase as [(b' & Hb' & Hd)|[-> _]]; [congruence|done].
Qed.

Lemma sr_view k : block_view q' k = if decide (k = t /\ a0 = 0) then replicate (block_size q) 0 else block_view q k.
Proof using All.
  unfold block_view at 1, table_view. destruct (decide (k = t)) as [->|Hne]; cycle 1.
  { rewrite sr_old, (decide_False (P := _ /\ _)) by naive_solver. done. }
  rewrite sr_new, decide_False by done. change (blocks q') with (blocks q). destruct (cmap (blocks q) !! t) as [b|] eqn:Hb.
  - destruct (sr_cached b Hb) as [Hn _]. rewrite decide_False by naive_solver. unfold block_view, table_view. by rewrite Ha0, decide_False, Hb.
  - destruct Hcase as [(b' & Hb' & _)|[Hz0 Hx]]; [congruence|]. rewrite decide_True by done.
    change (block_disk q a1 = replicate (block_size q) 0). apply disk_table_zero. rewrite (block_bytes q) by apply HI. done.
Qed.

(** No count changes. *)
Lemma sr_refcount a : refcount_of q' a = refcount_of q a.
Proof using All.
  unfold refcount_of. change (size_of_cluster q') with (size_of_cluster q). rewrite sr_view. case_decide as Hd; [|done].
  destruct Hd as [-> Hz]. unfold block_view, table_view. rewrite Ha0, decide_True by done. cbn.
  destruct (replicate _ 0 !! _) as [x|] eqn:Hx; [|done]. by apply lookup_replicate in Hx as [-> _].
Qed.

Lemma sr_alloc : allocation (a0 :: held) q'.
Proof using All.
  apply (allocation_transfer (swap (OBlock t) (OHeld 0)) (a1 :: held) (a0 :: held) q q'); [apply HI|done..| |intros ? ? ? _ _; apply swap_inj].
  intros o a Ho. destruct o as [|k|k|k|k j|k|k|k|k]; try (by apply Ho).
  - unfold owns in Ho |- *. rewrite sr_length in Ho. done.
  - destruct Ho as [[[-> ->]|[Hk Ho]]%sr_lookup Hne]; unfold swap; [by rewrite decide_True|].
    by rewrite !decide_False by congruence.
  - destruct k as [|k]; [|by apply Ho]. destruct Ho as [[= <-] Hne]. by unfold swap.
Qed.

Lemma sr_represented : represented q'.
Proof using All.
  destruct (inv_rep _ _ _ HI) as [Hl2 Hpl Hbl Hl1 Hrt Hh]. split; try done.
  intros k b Hb. change (cmap (blocks q) !! k = Some b) in Hb. destruct (Hbl k b Hb) as ((a & Ha & Hne & Hn & Hd) & Hw). split; [|done].
  destruct (decide (k = t)) as [->|Hk]; [|exists a; by rewrite sr_old].
  exists a1. destruct (sr_cached b Hb) as [_ Hdb]. split_and!; [apply sr_new|done..|congruence].
Qed.

Lemma inv_set_rt : Inv pend (a0 :: held) q'.
Proof using All.
  pose proof sr_refcount as Hrc. pose proof sr_alloc as Hal'. pose proof sr_represented as Hrep'.
  destruct HI as [Hgeo Hraw _ _ Hcnt]. split; [|by destruct Hraw; split|done..|].
  - destruct Hgeo. split; try done; rewrite sr_length; done.
  - intros o a Ho Howns Hna. rewrite Hrc. destruct o as [|k|k|k|k j|k|k|k|k]; try (by apply (Hcnt _ a Ho); [apply Howns|done]).
    + apply (Hcnt (ORefTable k)); [done| |done]. unfold owns in Howns |- *. by rewrite sr_length in Howns.
    + destruct Howns as [[[-> ->]|[Hk Hl]]%sr_lookup Hne]; [done|by apply (Hcnt (OBlock k))].
Qed.
End set_rt.

(** The count of the cluster [a] is set. *)
Definition rt_index (q : QcowFile) (a : Z) : Z := (a / size_of_cluster q) / (size_of_cluster q / 2).
Definition block_index (q : QcowFile) (a : Z) : Z := (a / size_of_cluster q) mod (size_of_cluster q / 2).

Lemma half_cluster q : geometry q -> 0 < size_of_cluster q / 2.
Proof. intros Hg. pose proof (cs_bounds q Hg). apply Z.div_str_pos. lia. Qed.

Lemma index_inj q a b :
  geometry q -> (size_of_cluster q | a) -> (size_of_cluster q | b) -> 0 <= a -> 0 <= b ->
  Z.to_nat (rt_index q a) = Z.to_nat (rt_index q b) -> Z.to_nat (block_index q a) = Z.to_nat (block_index q b) -> a = b.
Proof.
  intros Hg Ha Hb Ha0 Hb0 Hr Hi. pose proof (cs_bounds q Hg). pose proof (half_cluster q Hg).
  unfold rt_index, block_index in *. set (cs := size_of_cluster q) in *. set (n := cs / 2) in *.
  assert (0 <= a / cs) by (apply Z.div_pos; lia). assert (0 <= b / cs) by (apply Z.div_pos; lia).
  pose proof (Z.mod_pos_bound (a / cs) n). pose proof (Z.mod_pos_bound (b / cs) n).
  assert (0 <= a / cs / n) by (apply Z.div_pos; lia). assert (0 <= b / cs / n) by (apply Z.div_pos; lia).
  apply Z2Nat.inj in Hr; [|lia..]. apply Z2Nat.inj in Hi; [|lia..].
  pose proof (Z.div_mod (a / cs) n). pose proof (Z.div_mod (b / cs) n).
  assert (a / cs = b / cs) as Hab by congruence || nia.
  destruct Ha as [x ->], Hb as [y ->]. rewrite !Z.div_mul in Hab by lia. congruence.
Qed.

Section set_count.
Context (pend held : list Z) (q : QcowFile) (a n : Z) (b : VecCache).
Let t := Z.to_nat (rt_index q a).
Let i := Z.to_nat (block_index q a).
Context (HI : Inv pend held q) (Hb : cmap (blocks q) !! t = Some b) (Hn : in_width 16 n).
Context (Ha : (size_of_cluster q | a)) (Ha0 : 0 <= a) (Hpend : a ∈ pend \/ 1 <= n).
Let q' := set_refcounts (set_refblock_entry (rt_index q a) (block_index q a) n (refcounts q)) q.

Lemma sc_cache k : cmap (blocks q') !! k = if decide (k = t) then Some (vec_set (block_index q a) n b) else cmap (blocks q) !! k.
Proof using All.
  unfold q', set_refblock_entry. cbn. fold t. case_decide as Hk; [subst k; rewrite lookup_alter_eq; by rewrite Hb|].
  by apply lookup_alter_ne.
Qed.

Lemma sc_view k : block_view q' k = if decide (k = t) then <[i := n]> (block_view q k) else block_view q k.
Proof using All.
  destruct (rep_block q (inv_rep _ _ _ HI) _ _ Hb) as ((x & Hx & Hne & _) & _).
  unfold block_view, table_view. rewrite sc_cache. change (rtable q') with (rtable q). case_decide as Hk; [|done].
  subst k. rewrite Hx, !decide_False, Hb by done. done.
Qed.

Lemma sc_in_block : (i < length (vec b))%nat.
Proof using All.
  destruct (rep_block q (inv_rep _ _ _ HI) _ _ Hb) as ((x & _ & _ & -> & _) & _). unfold i, block_size, block_index.
  pose proof (half_cluster q (inv_geo _ _ _ HI)). pose proof (Z.mod_pos_bound (a / size_of_cluster q) (size_of_cluster q / 2)). lia.
Qed.

Lemma sc_refcount x : (size_of_cluster q | x) -> 0 <= x -> refcount_of q' x = if decide (x = a) then n else refcount_of q x.
Proof using All.
  intros Hx Hx0. unfold refcount_of. change (size_of_cluster q') with (size_of_cluster q). rewrite sc_view.
  fold (rt_index q x) (block_index q x). case_decide as Hk; case_decide as Hxa; [|..|done].
  - subst x. fold i. rewrite list_lookup_insert_eq; [done|]. unfold block_view. fold t.
    destruct (rep_block q (inv_rep _ _ _ HI) _ _ Hb) as [Hc _]. rewrite (view_cached _ _ _ _ _ _ Hb Hc). apply sc_in_block.
  - rewrite list_lookup_insert_ne; [done|]. intros Hi. apply Hxa. apply (index_inj q); [apply HI|done..].
  - subst x. done.
Qed.

Lemma inv_set_count : Inv pend held q'.
Proof using All.
  pose proof sc_refcount as Hrc. destruct HI as [Hgeo Hraw Hal Hrep Hcnt].
  assert (same_alloc q q') as Hs by done.
  split; [by destruct Hgeo; split|by destruct Hraw; split|by apply (allocation_same held q)| |].
  - destruct Hrep as [Hl2 Hpl Hbl Hl1 Hrt Hh]. split; try done. intros k b' Hb'. rewrite sc_cache in Hb'.
    case_decide as Hk; [|by apply Hbl]. injection Hb' as <-. subst k.
    destruct (Hbl _ _ Hb) as ((x & Hx & Hne & Hl & Hd) & Hw). split; [|by cbn; apply Forall_insert].
    exists x. split_and!; [done..|by cbn; rewrite length_insert|done].
  - intros o x Ho Howns Hna. assert (owns held q o x) as Hown by (by destruct o).
    destruct (al_placed _ _ Hal _ _ Hown) as (Hdiv & Hpos & _). rewrite Hrc by done.
    case_decide as Hxa; [subst x; destruct Hpend; [done|lia]|]. by apply (Hcnt o).
Qed.
End set_count.

(** ** Handing out clusters *)
Lemma held_nonzero pend held q o a : Inv pend held q -> owns held q o a -> o <> OHeader -> a <> 0.
Proof. intros HI Ho Hne ->. apply Hne. by apply (al_distinct _ _ (inv_alloc _ _ _ HI) o OHeader 0). Qed.

Lemma inv_set_clusters pend held held' q u v f :
  Inv pend held q -> let q' := set_clusters u v q in
  (forall o a, owns held' q' o a -> owns held q (f o) a) ->
  (forall o o' a, owns held' q' o a -> owns held' q' o' a -> f o = f o' -> o = o') ->
  Inv pend held' q'.
Proof.
  intros [Hgeo Hraw Hal Hrep Hcnt] q' Hf Hinj. split.
  - by destruct Hgeo; split.
  - by destruct Hraw; split.
  - by apply (allocation_transfer f held held' q q').
  - by destruct Hrep; split.
  - intros o a Ho Howns. apply (Hcnt o); [done|]. by destruct o.
Qed.

Lemma inv_take_avail pend held q a :
  Inv pend held q -> last (avail_clusters q) = Some a ->
  Inv pend (a :: held) (set_clusters (unref_clusters q) (removelast (avail_clusters q)) q).
Proof.
  intros HI Hl. apply last_Some in Hl as [l Hl].
  apply (inv_set_clusters _ held _ _ _ _ (fun o => match o with OHeld 0 => OAvail (length l) | OHeld (S k) => OHeld k | _ => o end)); [done|..];
    rewrite Hl, removelast_last.
  - intros [|k|k|k|k j|k|k|k|[|k]] x Ho; try done; cbn in *.
    + rewrite Hl. by apply lookup_app_l_Some.
    + destruct Ho as [[= <-] Hne]. rewrite Hl. by apply list_lookup_middle.
  - intros [] [] x; cbn; intros Ho Ho' Heq; repeat case_match; simplify_eq; try done.
    + apply lookup_lt_Some in Ho. lia.
    + apply lookup_lt_Some in Ho'. lia.
Qed.

Lemma inv_append_unref pend u held q :
  Inv pend (u ++ held) q -> Forall (fun a => a <> 0) u ->
  Inv pend held (set_clusters (unref_clusters q ++ u) (avail_clusters q) q).
Proof.
  intros HI Hu. set (n := length (unref_clusters q)).
  apply (inv_set_clusters _ (u ++ held) _ _ _ _ (fun o =>
    match o with
    | OUnref k => if decide (k < n)%nat then OUnref k else OHeld (k - n)
    | OHeld k => OHeld (length u + k)
    | _ => o
    end)); [done|..].
  - intros [|k|k|k|k j|k|k|k|k] x Ho; try done; cbn in *.
    + case_decide as Hk; [by rewrite lookup_app_l in Ho|]. rewrite lookup_app_r in Ho by (fold n; lia). fold n in Ho.
      split; [by apply lookup_app_l_Some|]. rewrite Forall_forall in Hu. by eapply Hu, list_elem_of_lookup_2.
    + destruct Ho as [Ho Hne]. split; [|done]. rewrite lookup_app_r by lia. by replace (length u + k - length u)%nat with k by lia.
  - intros [] [] x; cbn; intros Ho Ho' Heq; repeat case_decide; simplify_eq; try done; try (f_equal; lia).
    + apply lookup_lt_Some in Ho. rewrite length_app in Ho. fold n in Ho. destruct Ho'. lia.
    + apply lookup_lt_Some in Ho'. rewrite length_app in Ho'. fold n in Ho'. destruct Ho. lia.
Qed.

Lemma inv_recycle pend held q :
  Inv pend held q -> Inv pend held (set_clusters [] (avail_clusters q ++ unref_clusters q) q).
Proof.
  intros HI. set (n := length (avail_clusters q)).
  apply (inv_set_clusters _ held _ _ _ _ (fun o => match o with OAvail k => if decide (k < n)%nat then OAvail k else OUnref (k - n) | _ => o end)); [done|..].
  - intros [|k|k|k|k j|k|k|k|k] x Ho; try done; cbn in *.
    case_decide as Hk; [by rewrite lookup_app_l in Ho|]. by rewrite lookup_app_r in Ho by (fold n; lia).
  - intros [] [] x; cbn; intros Ho Ho' Heq; repeat case_decide; simplify_eq; try done; try (f_equal; lia).
Qed.

(** The file grows by a cluster. *)
Section grow.
Context (pend held : list Z) (q : QcowFile) (r : RawFile).
Context (HI : Inv pend held q) (Hmax : flen q <= max_valid_cluster_offset (refcounts q)).
Context (Hbytes : forall o, fbyte (file r) o = fbyte (img q) o) (Hlen : f_len (file r) = flen q + size_of_cluster q).
Context (Hal : alignment r = alignment (qf_file (raw_file q))) (Hs : sane r).
Let q' := put_file r q.

Lemma grow_table w n a : disk_table w n (file r) a = disk_table w n (img q) a.
Proof using Hbytes. apply disk_table_ext. auto. Qed.
Lemma grow_l2_view i : l2_view q' i = l2_view q i.
Proof using Hbytes. apply table_view_disk. intros a _ _ _. unfold l2_disk. f_equal. apply grow_table. Qed.
Lemma grow_block_view t : block_view q' t = block_view q t.
Proof using Hbytes. apply table_view_disk. intros a _ _ _. apply grow_table. Qed.

Lemma grow_alloc : allocation (flen q :: held) q'.
Proof using All.
  pose proof (cs_bounds q (inv_geo _ _ _ HI)) as Hcs. pose proof (raw_whole _ (inv_raw _ _ _ HI)) as Hwhole.
  pose proof (raw_sane _ (inv_raw _ _ _ HI)) as (_ & _ & _ & Hl0). fold (img q) in Hl0. fold (flen q) in Hl0.
  assert (same_alloc q q') as Hsame by (split; try done; apply grow_l2_view).
  destruct (inv_alloc _ _ _ HI) as [Hd Hp].
  assert (forall o a, owns (flen q :: held) q' o a -> o = OHeld 0 /\ a = flen q \/
            exists o0, owns held q o0 a /\ o = match o0 with OHeld k => OHeld (S k) | _ => o0 end) as Hcase.
  { intros o a Ho. destruct o as [|k|k|k|k j|k|k|k|[|k]];
      [right; match goal with H : owns _ _ ?o _ |- _ => exists o; split; [by apply (owns_same held q q' o a Hsame)|done] end..|left|].
    - by destruct Ho as [[= <-] _].
    - right. exists (OHeld k). by split. }
  split.
  - intros o o' a Ho Ho'. destruct (Hcase o a Ho) as [[-> ->]|(o1 & Ho1 & ->)], (Hcase o' _ Ho') as [[-> Ha]|(o2 & Ho2 & ->)]; [done|..].
    + destruct (Hp _ _ Ho2) as (_ & _ & ?). lia.
    + destruct (Hp _ _ Ho1) as (_ & _ & ?). lia.
    + by rewrite (Hd _ _ _ Ho1 Ho2).
  - intros o a Ho. change (size_of_cluster q') with (size_of_cluster q). change (flen q') with (f_len (file r)). rewrite Hlen.
    destruct (Hcase o a Ho) as [[-> ->]|(o1 & Ho1 & ->)]; [split_and!; [done|lia|lia]|].
    destruct (Hp _ _ Ho1) as (? & ? & ?). split_and!; [done|lia|lia].
Qed.

Lemma grow_represented : represented q'.
Proof using All.
  destruct (inv_rep _ _ _ HI) as [Hl2 Hpl Hbl Hl1 Hrt Hh]. split.
  - intros i t Ht. destruct (Hl2 i t Ht) as (a & ? & ? & ? & Hd). exists a. split_and!; [done..|].
    intros Hdt. rewrite (Hd Hdt). unfold l2_disk. f_equal. symmetry. apply grow_table.
  - intros i a ? ? ?. change (plain (disk_table 8 (l2_size q) (file r) a)). rewrite grow_table. by apply (Hpl i).
  - intros t b Hb. destruct (Hbl t b Hb) as ((a & ? & ? & ? & Hd) & Hw). split; [|done]. exists a. split_and!; [done..|].
    intros Hdb. rewrite (Hd Hdb). symmetry. apply grow_table.
  - intros Hd. etrans; [|exact (Hl1 Hd)]. unfold masked. f_equal. apply grow_table.
  - intros Hd. etrans; [|exact (Hrt Hd)]. apply grow_table.
  - destruct Hh as [H1 H2]. split; [|destruct (decide _); [done|]].
    + etrans; [|exact H1]. apply field_values_ext. auto.
    + etrans; [|exact H2]. apply field_values_ext. auto.
Qed.

Lemma inv_grow : Inv pend (flen q :: held) q'.
Proof using All.
  pose proof grow_alloc as Ha. pose proof grow_represented as Hr. destruct HI as [Hgeo Hraw _ _ Hcnt]. split; [| |done..|].
  - destruct Hgeo. split; try done. unfold q'. cbn. by rewrite Hal.
  - destruct Hraw as [_ Hb Hw Hbd]. split; [done|..].
    + intros o. change (byte_ok (fbyte (file r) o)). rewrite Hbytes. apply Hb.
    + change (size_of_cluster q | f_len (file r)). rewrite Hlen. apply Z.divide_add_r; [done|apply Z.divide_refl].
    + change (f_len (file r) <= max_valid_cluster_offset (refcounts q) + size_of_cluster q). lia.
  - apply (counted_same pend q); [split; try done; apply grow_l2_view|apply grow_block_view|done].
Qed.
End grow.
