(* ===== verification/QcowCount.v ===== *)
(** Allocating clusters of a qcow2 image and counting references: no cluster in use is handed
    out, the disk does not change, and counting, which may need clusters for itself, ends. *)
From stdpp Require Import base numbers list gmap.
From S2P Require Import Prelude Bytes RawFile QcowTables QcowHeader QcowImage QcowDisk QcowInv QcowSteps.

#[local] Open Scope Z_scope.

(** ** What is left alone

    The tables and data of the disk, and the clusters in [held]. *)
Definition same_cluster (q q' : QcowFile) (a : Z) : Prop :=
  forall x, a <= x < a + size_of_cluster q -> fbyte (img q') x = fbyte (img q) x.

Record keeps (held : list Z) (q q' : QcowFile) : Prop := {
  ks_header : header q' = header q;
  ks_cs : size_of_cluster q' = size_of_cluster q;
  ks_offset : current_offset q' = current_offset q;
  ks_entries : l2_entries q' = l2_entries q;
  ks_max : max_valid_cluster_offset (refcounts q') = max_valid_cluster_offset (refcounts q);
  ks_l2 i : l2_view q' i = l2_view q i;
  ks_data i j a : l2_view q i !! j = Some a -> a <> 0 -> same_cluster q q' a;
  ks_held a : a ∈ held -> a <> 0 -> same_cluster q q' a;
}.

Lemma keeps_self held q : keeps held q q.
Proof. by split. Qed.
Lemma keeps_trans held q q1 q2 : keeps held q q1 -> keeps held q1 q2 -> keeps held q q2.
Proof.
  intros [Hh Hc Ho He Hm H2 Hd Hl] [Hh' Hc' Ho' He' Hm' H2' Hd' Hl']. split; [congruence|congruence|congruence|congruence|congruence|by intros i; rewrite H2', H2|..].
  - intros i j a Ha Hne x Hx. rewrite (Hd' i j a), (Hd i j a) by (rewrite ?H2; congruence || done). done.
  - intros a Ha Hne x Hx. rewrite (Hl' a), (Hl a) by (done || congruence). done.
Qed.
Lemma keeps_sub held held' q q' : keeps held q q' -> held' ⊆ held -> keeps held' q q'.
Proof. intros [] Hs. split; try done. intros a Ha. apply ks_held0. by apply Hs. Qed.

Lemma content_keeps held q q' address : geometry q -> keeps held q q' -> content q' address = content q address.
Proof.
  intros Hgeo [Hh Hc Ho He _ H2 Hd _]. unfold content, l1_table_index, l2_table_index. rewrite Hc, He, H2.
  destruct (l2_view q _ !! _) as [a|] eqn:Ha; [|done]. case_decide as Hz; [done|].
  apply (Hd _ _ _ Ha Hz). pose proof (cs_bounds q Hgeo). pose proof (Z.mod_pos_bound address (size_of_cluster q)). lia.
Qed.

(** The tables of the disk were not touched at all. *)
Definition same_tables (q q' : QcowFile) : Prop :=
  l1_table q' = l1_table q /\ l2_cache q' = l2_cache q /\ unref_clusters q' = unref_clusters q.

Lemma same_tables_trans q q1 q2 : same_tables q q1 -> same_tables q1 q2 -> same_tables q q2.
Proof. unfold same_tables. intros (-> & -> & ->) (-> & -> & ->). done. Qed.

(** ** Computations on the counts *)
Section lens.
Context {E : Type}.
Implicit Types (q : QcowFile).

Lemma wp_refcounts_bind {A B} (m : M (RefCount * QcowRawFile) E A) (f : A -> M (RefCount * QcowRawFile) E B) (Q : B -> QcowFile -> Prop) X q :
  wp (in_refcounts m) (fun a => wp (in_refcounts (f a)) Q X) X q -> wp (in_refcounts (bind m f)) Q X q.
Proof. apply wp_zoom_bind; [by intros [] []|done]. Qed.
Lemma wp_refcounts_get (Q : RefCount * QcowRawFile -> QcowFile -> Prop) (X : E -> QcowFile -> Prop) q :
  Q (refcounts q, raw_file q) q -> wp (in_refcounts get) Q X q.
Proof. intros HQ. apply wp_zoom, wp_get. by destruct q. Qed.
Lemma wp_refcounts_modify f (Q : unit -> QcowFile -> Prop) (X : E -> QcowFile -> Prop) q :
  Q tt (set_refcounts (f (refcounts q)) q) -> wp (in_refcounts (modify_rc f)) Q X q.
Proof. intros HQ. apply wp_zoom, wp_modify. done. Qed.
Lemma wp_refcounts_ret {A} (a : A) (Q : A -> QcowFile -> Prop) (X : E -> QcowFile -> Prop) q :
  Q a q -> wp (in_refcounts (ret a)) Q X q.
Proof. intros HQ. apply wp_zoom, wp_ret. by destruct q. Qed.
Lemma wp_refcounts_throw {A} (e : E) (Q : A -> QcowFile -> Prop) (X : E -> QcowFile -> Prop) q :
  X e q -> wp (in_refcounts (throw e)) Q X q.
Proof. intros HQ. apply wp_zoom, wp_throw. by destruct q. Qed.
Lemma wp_refcounts_raw {A} (m : M QcowRawFile E A) (Q : A -> QcowFile -> Prop) X q :
  wp (in_raw m) Q X q -> wp (in_refcounts (on_raw m)) Q X q.
Proof.
  unfold wp, in_raw, in_refcounts, on_raw, zoom. cbn. destruct (m (raw_file q)) as [[] raw]; done.
Qed.
Lemma wp_refcounts_map_err {E' A} (f : E -> E') (m : M (RefCount * QcowRawFile) E A) (Q : A -> QcowFile -> Prop) X q :
  wp (in_refcounts m) Q (fun e => X (f e)) q -> wp (in_refcounts (map_err f m)) Q X q.
Proof. unfold wp, in_refcounts, zoom, map_err. destruct (m _) as [[] t]; done. Qed.

Lemma wp_in_raw {A} (m : M QcowRawFile E A) (Q : A -> QcowFile -> Prop) X q :
  wp m (fun a t => Q a (set_raw_file t q)) (fun e t => X e (set_raw_file t q)) (raw_file q) -> wp (in_raw m) Q X q.
Proof. apply wp_zoom. Qed.
End lens.

Lemma put_kept pend held q r :
  Inv pend held q -> kept_file (qf_file (raw_file q)) r ->
  Inv pend held (put_file r q) /\ keeps held q (put_file r q) /\ (forall t, block_view (put_file r q) t = block_view q t).
Proof.
  intros [Hgeo Hraw Hal Hrep Hcnt] (Hf & Ha & Hs).
  assert (img (put_file r q) = img q) as Himg by apply Hf.
  assert (same_alloc q (put_file r q)) as Hsame.
  { split; try done. intros i. apply table_view_disk. intros a _ _ _. unfold l2_disk. by rewrite Himg. }
  assert (forall t, block_view (put_file r q) t = block_view q t) as Hb.
  { intros t. apply table_view_disk. intros a _ _ _. unfold block_disk. by rewrite Himg. }
  split_and!; [|split; try done; [apply Hsame|..]; intros; intros x ?; by rewrite Himg|done].
  assert (flen (put_file r q) = flen q) as Hlen by (unfold flen; by rewrite Himg).
  split.
  - destruct Hgeo. split; try done. cbn. by rewrite Ha.
  - destruct Hraw. split; [done|by rewrite Himg|by rewrite Hlen|by rewrite Hlen].
  - apply (allocation_same held q); [done|lia|done].
  - destruct Hrep as [Hl2 Hpl Hbl Hl1 Hrt Hh].
    split; rewrite ?Himg; try done; unfold cached_ok, l2_disk, block_disk; rewrite Himg; done.
  - by apply (counted_same pend q).
Qed.

(** ** Writing inside a cluster *)
Lemma touch_keeps pend held q r c o held' :
  Inv pend held q -> owns held q o c -> writable q o -> only_at c (size_of_cluster q) (img q) (file r) ->
  (forall i j, o <> OData i j) -> (forall a, a ∈ held' -> a <> 0 -> exists k, held !! k = Some a /\ OHeld k <> o) ->
  keeps held' q (put_file r q).
Proof.
  intros HI Ho Hw Hat Hnd Hheld. split; try done.
  - intros i. by apply (touch_l2_view pend held q r c o HI Ho Hw Hat).
  - intros i j a Ha Hne x Hx. apply (touch_other pend held q r c o HI Ho Hat (OData i j) a); [done| |done]. intros <-. by eapply Hnd.
  - intros a Ha Hne x Hx. destruct (Hheld a Ha Hne) as (k & Hk & Hko).
    apply (touch_other pend held q r c o HI Ho Hat (OHeld k) a); done.
Qed.

Lemma wrote_bounded pend held q off bs r stop :
  Inv pend held q -> wrote off bs (qf_file (raw_file q)) r -> Forall byte_ok bs ->
  off + Z.of_nat (length bs) <= stop -> stop <= flen q -> (size_of_cluster q | stop) ->
  sane r /\ alignment r = alignment (qf_file (raw_file q)) /\ f_len (file r) = flen q /\ bytes_ok (file r).
Proof.
  intros HI Hwr Hbs Hhi Hl Hdiv. pose proof (bytes_ok_wrote _ _ _ _ (raw_bytes _ (inv_raw _ _ _ HI)) Hbs Hwr) as Hok.
  destruct Hwr as (Hb & Hmin & Hmax & Hal & Hs). fold (img q) in Hb, Hmin, Hmax. fold (flen q) in Hmin, Hmax.
  split_and!; try done. destruct Hmax as [|(Hdal & Hpos & Hlt)]; [lia|].
  destruct (geo_align _ (inv_geo _ _ _ HI)) as [|[_ Hcs]]; [lia|].
  set (al := alignment (qf_file (raw_file q))) in *. assert (al | stop) as Hend by (by apply (Z.divide_trans _ (size_of_cluster q))).
  destruct Hdal as [x Hx], Hend as [y Hy]. assert (x <= y) by nia. nia.
Qed.

Section inside.
Context (pend held : list Z) (q : QcowFile) (c : Z) (o : owner) (HI : Inv pend held q) (Ho : owns held q o c).
Let cs := size_of_cluster q.

Lemma placed_bounds : (cs | c) /\ 0 <= c /\ c + cs <= flen q /\ flen q < 2 ^ 62 /\ c < 2 ^ 55 + 2 ^ 21.
Proof using HI Ho.
  destruct (al_placed _ _ (inv_alloc _ _ _ HI) _ _ Ho) as (Hd & H0 & Hl). pose proof (cs_bounds q (inv_geo _ _ _ HI)).
  pose proof (raw_bound _ (inv_raw _ _ _ HI)). pose proof (geo_bound _ (inv_geo _ _ _ HI)). split_and!; [done|lia..].
Qed.

Lemma wrote_inside off bs r :
  wrote off bs (qf_file (raw_file q)) r -> Forall byte_ok bs -> c <= off -> off + Z.of_nat (length bs) <= c + cs ->
  sane r /\ alignment r = alignment (qf_file (raw_file q)) /\ f_len (file r) = flen q /\ bytes_ok (file r) /\ only_at c cs (img q) (file r).
Proof using HI Ho.
  intros Hwr Hbs Hlo Hhi. pose proof placed_bounds as (Hd & H0 & Hl & _). pose proof (cs_bounds q (inv_geo _ _ _ HI)).
  destruct (wrote_bounded pend held q off bs r (c + cs)) as (? & ? & ? & ?); [done..|by apply Z.divide_add_r|].
  split_and!; [done..|]. destruct Hwr as (Hb & _). intros x Hx. rewrite Hb, decide_False by lia. done.
Qed.

Lemma zeroed_inside off n r :
  zeroed_file off n (qf_file (raw_file q)) r -> c <= off -> off + n <= c + cs ->
  sane r /\ alignment r = alignment (qf_file (raw_file q)) /\ f_len (file r) = flen q /\ bytes_ok (file r) /\ only_at c cs (img q) (file r).
Proof using HI Ho.
  intros (Hz & Hal & Hs) Hlo Hhi. pose proof placed_bounds as (_ & _ & Hl & _).
  pose proof (bytes_ok_zeroed _ _ _ _ (raw_bytes _ (inv_raw _ _ _ HI)) Hz) as Hok.
  destruct Hz as [Hb Hlen]. fold (img q) in Hb, Hlen. fold (flen q) in Hlen.
  split_and!; try done; [lia|]. intros x Hx. rewrite Hb, decide_False by lia. done.
Qed.
End inside.

(** ** Allocating a cluster *)
Section alloc.
Context `{Hhost : HostFile, Hlaws : !HostFileLaws}.

(** What was done to an image while its counts and its file changed. *)
Definition allocated (held : list Z) (q q' : QcowFile) : Prop :=
  keeps held q q' /\ same_tables q q' /\ refcounts q' = refcounts q /\ (forall t, block_view q' t = block_view q t).

(** A cluster was used up; the file grew by a cluster at most. *)
Definition one_less (q q' : QcowFile) : Prop := (clusters_left q' < clusters_left q)%nat /\ flen q' <= flen q + size_of_cluster q.

Lemma wp_get_new_cluster pend held q (Q : Z -> QcowFile -> Prop) X :
  Inv pend held q ->
  (forall a q', Inv pend (a :: held) q' -> a <> 0 -> (forall x, a <= x < a + size_of_cluster q -> fbyte (img q') x = 0) ->
     allocated held q q' -> one_less q q' -> Q a q') ->
  (forall q', Inv pend held q' -> allocated held q q' -> clusters_left q = 0%nat -> X (OsError ENOSPC) q') ->
  wp get_new_cluster Q X q.
Proof.
  intros HI HQ HX. pose proof (cs_bounds q (inv_geo _ _ _ HI)) as Hcs. unfold get_new_cluster. apply wp_bind, wp_get.
  destruct (last (avail_clusters q)) as [a|] eqn:Hlast.
  - pose proof (inv_take_avail _ _ _ _ HI Hlast) as HI1. apply wp_bind, wp_modify. set (q1 := set_clusters _ _ q) in *.
    assert (avail_clusters q !! (length (avail_clusters q) - 1)%nat = Some a) as Hav by (rewrite last_lookup in Hlast; by rewrite Nat.sub_1_r).
    pose proof (held_nonzero _ _ _ (OAvail _) a HI Hav ltac:(done)) as Hne.
    assert (owns (a :: held) q1 (OHeld 0) a) as Ho by done.
    pose proof (placed_bounds _ _ _ _ _ HI1 Ho) as (Hd & Hpos & Hl & _ & Hb).
    apply wp_bind, wp_in_raw, wp_zero_cluster; [apply HI1|lia|apply (Z.le_trans _ 512); [lia|apply Hcs]|].
    intros r Hz. apply wp_ret.
    destruct (zeroed_inside _ _ _ _ _ HI1 Ho _ _ _ Hz) as (Hs & Hal & Hlen & Hok & Hat); [lia|apply Z.le_refl|].
    pose proof (touch_inv _ _ _ _ _ _ HI1 Ho I Hs Hal Hlen Hok Hat) as HI2.
    apply (HQ a (put_file r q1)); [done|done|..].
    + intros x Hx. destruct Hz as ((Hz & _) & _). change (fbyte (file r) x = 0). by rewrite Hz, decide_True.
    + split; [|split; [done|split; [done|]]].
      * apply (keeps_trans held q q1); [by split|].
        apply (touch_keeps _ _ _ _ _ _ held HI1 Ho I Hat); [done|]. intros b [k Hk]%list_elem_of_lookup _. by exists (S k).
      * apply (touch_block_view _ _ _ _ _ _ HI1 Ho I Hat).
    + split; [|unfold flen at 1; change (img (put_file r q1)) with (file r); change (flen q1) with (flen q) in Hlen; lia].
      apply last_Some in Hlast as [l Hl']. assert (length (removelast (avail_clusters q)) < length (avail_clusters q))%nat as Hshort.
      { rewrite Hl', removelast_last, length_app. cbn. lia. }
      change ((length (removelast (avail_clusters q)) + Z.to_nat ((max_valid_cluster_offset (refcounts q) - f_len (file r)) / size_of_cluster q + 1)
        < length (avail_clusters q) + Z.to_nat ((max_valid_cluster_offset (refcounts q) - flen q1) / size_of_cluster q + 1))%nat).
      rewrite Hlen. lia.
  - apply wp_bind, wp_in_raw. pose proof (inv_geo _ _ _ HI) as Hgeo. pose proof (inv_raw _ _ _ HI) as Hraw.
    apply (wp_add_cluster_end _ (cluster_bits (header q)));
      [apply Hraw|apply Hgeo|rewrite <- (geo_cs _ Hgeo); apply Hgeo|pose proof (geo_bits _ Hgeo); lia
      |rewrite <- (geo_cs _ Hgeo); apply Hraw|pose proof (raw_bound _ Hraw); pose proof (geo_bound _ Hgeo); unfold flen, img in *; lia|..].
    + intros Hgt r Hr. apply wp_throw. destruct (put_kept _ _ _ _ HI Hr) as (HI' & Hk & Hb). apply HX; [done|done|].
      apply last_None in Hlast. unfold clusters_left. rewrite Hlast. fold (img q) (flen q) in Hgt |- *.
      assert ((max_valid_cluster_offset (refcounts q) - flen q) / size_of_cluster q < 0) by (apply Z.div_lt_upper_bound; lia). cbn. lia.
    + intros Hle r Hbytes Hlen Hal Hs. rewrite <- (geo_cs _ Hgeo) in Hlen. apply wp_ret.
      pose proof (inv_grow _ _ _ _ HI Hle Hbytes Hlen Hal Hs) as HI'.
      apply (HQ (flen q) (put_file r q)); [done|..].
      * pose proof (al_placed _ _ (inv_alloc _ _ _ HI) OHeader 0 eq_refl). lia.
      * intros x Hx. change (fbyte (file r) x = 0). rewrite Hbytes. apply fbyte_outside. unfold flen, img in Hx. lia.
      * split; [|split; [done|split; [done|by apply grow_block_view]]]. split; try done.
        -- by apply grow_l2_view.
        -- intros i j a _ _ x _. apply Hbytes.
        -- intros a _ _ x _. apply Hbytes.
      * split; [|unfold flen at 1; change (img (put_file r q)) with (file r); unfold flen, img; lia].
        change ((length (avail_clusters q) + Z.to_nat ((max_valid_cluster_offset (refcounts q) - f_len (file r)) / size_of_cluster q + 1)
          < length (avail_clusters q) + Z.to_nat ((max_valid_cluster_offset (refcounts q) - flen q) / size_of_cluster q + 1))%nat).
        rewrite Hlen. fold (img q). fold (flen q).
        set (cs := size_of_cluster q) in *. set (d := max_valid_cluster_offset (refcounts q) - flen q) in *.
        replace (max_valid_cluster_offset (refcounts q) - (flen q + cs)) with (d + (-1) * cs) by lia.
        rewrite Z.div_add by lia. assert (0 <= d / cs) by (apply Z.div_pos; unfold d, flen, img in *; lia). lia.
Qed.
End alloc.

(** * Counting the references to the clusters of a qcow2 image. *)
(** ** The cache of blocks *)

(** What the counts are made of did not change, but for what is cached. *)
Definition same_counts (q q' : QcowFile) : Prop :=
  (forall t, block_view q' t = block_view q t) /\ rtable q' = rtable q /\ avail_clusters q' = avail_clusters q /\ flen q' = flen q.

Lemma wp_evict_block pend held q k e (Q : unit -> QcowRawFile -> Prop) X :
  Inv pend held q -> cmap (blocks q) !! k = Some e -> dirty e = true ->
  (forall r, Inv pend held (put_file r q) -> keeps held q (put_file r q) -> same_counts q (put_file r q) ->
     block_synced (put_file r q) k ->
     (forall t, t <> k -> ~ modified (blocks q) t -> block_synced q t -> block_synced (put_file r q) t) ->
     Q tt (set_qf r (raw_file q))) ->
  wp (evict_refblock (rtable q) k e) Q X (raw_file q).
Proof.
  intros HI He Hd HQ. destruct (rep_block q (inv_rep _ _ _ HI) _ _ He) as ((a & Ha & Hne & Hn & _) & Hw).
  assert (owns held q (OBlock k) a) as Ho by done. assert (writable q (OBlock k)) as Hwr by (by exists e).
  pose proof (placed_bounds _ _ _ _ _ HI Ho) as (Hdiv & Hpos & Hl & _ & Hb).
  pose proof (block_bytes q (inv_geo _ _ _ HI)) as Hbytes. pose proof (block_size_pos q (inv_geo _ _ _ HI)) as Hbs.
  unfold evict_refblock. rewrite Ha. apply wp_write_refcount_block; [apply HI|lia|lia|].
  intros r Hwrote.
  destruct (wrote_inside _ _ _ _ _ HI Ho _ _ _ Hwrote) as (Hs & Hal & Hlen & Hok & Hat); [apply be_concat_ok|lia|rewrite be_concat_length; lia|].
  pose proof (touch_inv _ _ _ _ _ _ HI Ho Hwr Hs Hal Hlen Hok Hat) as HI'.
  pose proof (touch_block_view _ _ _ _ _ _ HI Ho Hwr Hat) as Hview.
  apply HQ; [done| | |..].
  - apply (touch_keeps _ _ _ _ _ _ held HI Ho Hwr Hat); [done|]. intros b [j Hj]%list_elem_of_lookup _. by exists j.
  - split_and!; [done..|apply Hlen].
  - exists a. split_and!; [done..|]. rewrite Hview. unfold block_view. rewrite (view_cached _ _ _ _ _ _ He (proj1 (rep_block q (inv_rep _ _ _ HI) _ _ He))).
    unfold block_disk. change (block_size (put_file r q)) with (block_size q). rewrite <- Hn. symmetry. apply disk_table_written; [done|].
    intros j Hj. destruct Hwrote as (Hx & _). change (img (put_file r q)) with (file r). rewrite Hx, be_concat_length, decide_True by lia. f_equal. lia.
  - intros t Htk Hm (b & Hb1 & Hb2 & Hb3). exists b. split_and!; [done..|]. rewrite Hview, Hb3. symmetry.
    apply (touch_block_disk _ _ _ _ _ _ HI Ho Hwr Hat t); done.
Qed.

Lemma wp_insert_refblock pend held q ti b (Q : unit -> QcowFile -> Prop) X :
  let t := Z.to_nat ti in
  Inv pend held q -> block_synced q t -> vec b = block_view q t -> cmap (blocks q) !! t = None ->
  (forall q', Inv pend held q' -> keeps held q q' -> same_tables q q' -> same_counts q q' ->
     cmap (blocks q') !! t = Some b -> Q tt q') ->
  wp (in_refcounts (insert_refblock ti b)) Q X q.
Proof.
  intros t HI Hsync Hb Hnone HQ. unfold insert_refblock. apply wp_refcounts_bind, wp_refcounts_get, wp_refcounts_map_err.
  pose proof (geo_block_cache _ (inv_geo _ _ _ HI)) as Hcap.
  unfold in_refcounts, on_refblocks. apply wp_zoom, wp_zoom. cbn [fst snd]. fold t.
  assert (forall q1 c, Inv pend held q1 -> keeps held q q1 -> same_tables q q1 -> same_counts q q1 -> capacity c <> 0%nat ->
            (forall k, cmap c !! k = cmap (blocks q1) !! k \/ block_synced q1 k /\ forall b', cmap c !! k = Some b' -> vec b' = block_view q1 k) ->
            cmap c !! t = Some b -> Q tt (set_blocks c q1)) as Hdone.
  { intros q1 c HI1 Hk1 Ht1 (Hv1 & Hr1 & Ha1 & Hl1) Hc Hcases Hct. destruct (inv_block_cache _ _ _ _ HI1 Hc Hcases) as [HI2 Hv2].
    apply HQ; [done|by apply (keeps_trans held q q1); [|split]|done| |done].
    split_and!; [intros k; by rewrite Hv2|done..]. }
  apply wp_cache_insert; [done|..].
  - apply (Hdone q); [done|apply keeps_self|done|done|done| |apply lookup_insert_eq].
    intros k. cbn. destruct (decide (k = t)) as [->|Hk]; [right|left; by apply lookup_insert_ne].
    split; [done|]. rewrite lookup_insert_eq. by intros b' [= <-].
  - intros k e p He Hd. apply (Hdone q); [done|apply keeps_self|done|done|done| |apply lookup_insert_eq].
    intros k'. cbn. destruct (decide (k' = t)) as [->|Hk].
    { right. split; [done|]. rewrite lookup_insert_eq. by intros b' [= <-]. }
    rewrite lookup_insert_ne by done. destruct (decide (k' = k)) as [->|Hk']; [|left; by apply lookup_delete_ne].
    right. rewrite lookup_delete_eq. split; [|done]. destruct (rep_block q (inv_rep _ _ _ HI) _ _ He) as (Hc & _).
    pose proof Hc as (a & Ha & Hne & _ & Hv). exists a. split_and!; [done..|]. unfold block_view. rewrite (view_cached _ _ _ _ _ _ He Hc). by apply Hv.
  - intros k e p He Hd. apply (wp_evict_block pend held); [done..|]. intros r HI' Hk' (Hv' & Hr' & Ha' & Hl') Hs' Hs''.
    assert (k <> t) as Hkt by (intros ->; congruence).
    apply (Hdone (put_file r q)); [done..|by split_and!|done| |apply lookup_insert_eq].
    intros k'. cbn. destruct (decide (k' = t)) as [->|Hne].
    { right. split; [|rewrite lookup_insert_eq; intros b' [= <-]; by rewrite Hv']. apply Hs''; [done| |done].
      intros (b' & Hb' & _). congruence. }
    rewrite lookup_insert_ne by done. destruct (decide (k' = k)) as [->|Hne']; [|left; by apply lookup_delete_ne].
    right. by rewrite lookup_delete_eq.
Qed.

(** ** Setting a count *)
Lemma refcount_index q a : geometry q -> get_refcount_index (refcounts q) a = (rt_index q a, block_index q a).
Proof. intros Hg. unfold get_refcount_index. by rewrite (geo_rc_cs _ Hg), (geo_block _ Hg). Qed.

(** A cluster that can be counted. *)
Definition countable (q : QcowFile) (a : Z) : Prop :=
  (size_of_cluster q | a) /\ 0 <= a <= max_valid_cluster_offset (refcounts q).

Lemma owned_countable pend held q o a : Inv pend held q -> owns held q o a -> countable q a.
Proof.
  intros HI Ho. destruct (al_placed _ _ (inv_alloc _ _ _ HI) _ _ Ho) as (Hd & H0 & Hl). pose proof (raw_bound _ (inv_raw _ _ _ HI)).
  split; [done|lia].
Qed.

Lemma countable_entry q a : geometry q -> countable q a -> exists a0, vec (rtable q) !! Z.to_nat (rt_index q a) = Some a0.
Proof.
  intros Hg [_ Ha]. apply lookup_lt_is_Some_2. pose proof (cs_bounds q Hg) as Hcs. pose proof (half_cluster q Hg) as Hhalf.
  rewrite (geo_max q Hg) in Ha. unfold rt_index. set (cs := size_of_cluster q) in *. set (n := Z.of_nat (length _)) in *.
  assert (a / cs <= n * (cs / 2) - 1).
  { transitivity ((n * (cs / 2) - 1) * cs / cs); [apply Z.div_le_mono; lia|rewrite Z.div_mul; lia]. }
  assert (0 <= a / cs) by (apply Z.div_pos; lia).
  assert (a / cs / (cs / 2) < n) by (apply Z.div_lt_upper_bound; lia).
  assert (0 <= a / cs / (cs / 2)) by (apply Z.div_pos; lia). lia.
Qed.

Section counts.
Context (pend held : list Z) (q : QcowFile) (a n : Z).
Let ti := rt_index q a.
Let t := Z.to_nat ti.
Context (HI : Inv pend held q) (Ha : countable q a) (Hn : in_width 16 n).

Lemma rcset_start a0 new (Q : option Z -> QcowFile -> Prop) X :
  vec (rtable q) !! t = Some a0 ->
  wp (in_refcounts (
    let* new_cluster :=
      match cmap (blocks q) !! t with
      | Some _ => ret new
      | None =>
        match new with
        | Some (addr, table) =>
          modify_rc (fun r => set_ref_table (vec_set ti addr (ref_table r)) r) ;;;
          insert_refblock ti table ;;;
          ret None
        | None => if decide (a0 = 0) then throw NeedNewCluster else throw (NeedCluster a0)
        end
      end in
    let* (r, _) := get in
    match cmap (refblock_cache r) !! t with
    | None => crash
    | Some block =>
      let* dropped_cluster :=
        if dirty block then ret None
        else match new_cluster with
             | Some (addr, _) =>
               modify_rc (fun r => set_ref_table (vec_set ti addr (ref_table r)) r) ;;;
               ret (Some a0)
             | None => throw NeedNewCluster
             end in
      modify_rc (set_refblock_entry ti (block_index q a) n) ;;;
      match vec_get block (block_index q a) with Some _ => ret dropped_cluster | None => crash end
    end)) Q X q ->
  wp (in_refcounts (rc_set_cluster_refcount a n new)) Q X q.
Proof using HI.
  intros Ha0 Hwp. unfold rc_set_cluster_refcount. apply wp_refcounts_bind, wp_refcounts_get. cbn beta iota.
  rewrite (refcount_index q a) by apply HI. unfold vec_get at 1. fold ti. fold t. rewrite Ha0. exact Hwp.
Qed.

(** The last step: the entry of a block in the cache. *)
Definition counted_in (q q' : QcowFile) : Prop :=
  forall x, (size_of_cluster q | x) -> 0 <= x -> refcount_of q' x = if decide (x = a) then n else refcount_of q x.
End counts.

Section finish.
Context (pend held : list Z) (q : QcowFile) (a n : Z) (b : VecCache).
Let ti := rt_index q a.
Let t := Z.to_nat ti.
Context (HI : Inv pend held q) (Ha : countable q a) (Hn : in_width 16 n) (Hpend : a ∈ pend \/ 1 <= n).
Context (Hb : cmap (blocks q) !! t = Some b).

Lemma rcset_finish dropped (Q : option Z -> QcowFile -> Prop) (X : RefError -> QcowFile -> Prop) :
  (forall q', Inv pend held q' -> keeps held q q' -> same_tables q q' -> counted_in a n q q' -> rtable q' = rtable q ->
     avail_clusters q' = avail_clusters q -> flen q' = flen q -> max_valid_cluster_offset (refcounts q') = max_valid_cluster_offset (refcounts q) ->
     modified (blocks q') t -> Q dropped q') ->
  wp (in_refcounts (modify_rc (set_refblock_entry ti (block_index q a) n) ;;;
      match vec_get b (block_index q a) with Some _ => ret dropped | None => crash end)) Q X q.
Proof using All.
  intros HQ. destruct Ha as [Hdiv Hpos]. apply wp_refcounts_bind, wp_refcounts_modify.
  pose proof (sc_in_block _ _ _ _ _ _ HI Hb Hn Hdiv (proj1 Hpos) Hpend) as Hlt.
  unfold vec_get. destruct (lookup_lt_is_Some_2 _ _ Hlt) as [v ->]. apply wp_refcounts_ret. apply HQ; [|by split|done| |done..|].
  - apply (inv_set_count _ _ _ _ _ b); [done..|lia|done].
  - intros x Hx Hx0. apply (sc_refcount pend held q a n b); [done..|lia|done|done|done].
  - exists (vec_set (block_index q a) n b). split; [|done]. cbn. fold ti t. by rewrite lookup_alter_eq, Hb.
Qed.
End finish.

(** As many clusters can be allocated as before. *)
Definition same_room (q q' : QcowFile) : Prop :=
  avail_clusters q' = avail_clusters q /\ flen q' = flen q /\ size_of_cluster q' = size_of_cluster q /\
  max_valid_cluster_offset (refcounts q') = max_valid_cluster_offset (refcounts q).

Lemma same_room_left q q' : same_room q q' -> clusters_left q' = clusters_left q.
Proof. intros (Ha & Hl & Hc & Hm). unfold clusters_left. fold (img q) (img q'). fold (flen q) (flen q'). by rewrite Ha, Hl, Hc, Hm. Qed.

(** The count of [a] was set, [u] are the clusters the operation holds now. *)
Record count_set (pend held : list Z) (a n : Z) (q q' : QcowFile) (u : list Z) : Prop := {
  cst_inv : Inv pend (u ++ held) q';
  cst_keeps : keeps held q q';
  cst_tables : same_tables q q';
  cst_counts : counted_in a n q q';
  cst_room : same_room q q';
  cst_modified : modified (blocks q') (Z.to_nat (rt_index q a));
}.

Lemma rcset_dirty pend held q a n b new (Q : option Z -> QcowFile -> Prop) X :
  Inv pend held q -> countable q a -> in_width 16 n -> a ∈ pend \/ 1 <= n ->
  cmap (blocks q) !! Z.to_nat (rt_index q a) = Some b -> dirty b = true ->
  (forall q', count_set pend held a n q q' [] -> Q None q') ->
  wp (in_refcounts (rc_set_cluster_refcount a n new)) Q X q.
Proof.
  intros HI Ha Hn Hpend Hb Hd HQ. destruct (countable_entry q a (inv_geo _ _ _ HI) Ha) as [a0 Ha0].
  apply (rcset_start pend held q a n HI a0); [done|]. rewrite Hb. apply wp_refcounts_bind, wp_refcounts_ret.
  apply wp_refcounts_bind, wp_refcounts_get. cbn beta iota. rewrite Hb, Hd. apply wp_refcounts_bind, wp_refcounts_ret.
  apply (rcset_finish pend held q a n b); [done..|]. intros q' HI' Hk Ht Hc Hrt Hav Hl Hm Hmod. apply HQ. split; [done..| |done].
  split_and!; [done|done|apply Hk|done].
Qed.

Lemma rcset_clean pend held q a n b (Q : option Z -> QcowFile -> Prop) (X : RefError -> QcowFile -> Prop) :
  Inv pend held q -> countable q a -> cmap (blocks q) !! Z.to_nat (rt_index q a) = Some b -> dirty b = false ->
  X NeedNewCluster q -> wp (in_refcounts (rc_set_cluster_refcount a n None)) Q X q.
Proof.
  intros HI Ha Hb Hd HX. destruct (countable_entry q a (inv_geo _ _ _ HI) Ha) as [a0 Ha0].
  apply (rcset_start pend held q a n HI a0); [done|]. rewrite Hb. apply wp_refcounts_bind, wp_refcounts_ret.
  apply wp_refcounts_bind, wp_refcounts_get. cbn beta iota. rewrite Hb, Hd. by apply wp_refcounts_bind, wp_refcounts_throw.
Qed.

Lemma rcset_absent pend held q a n a0 (Q : option Z -> QcowFile -> Prop) (X : RefError -> QcowFile -> Prop) :
  Inv pend held q -> vec (rtable q) !! Z.to_nat (rt_index q a) = Some a0 -> cmap (blocks q) !! Z.to_nat (rt_index q a) = None ->
  X (if decide (a0 = 0) then NeedNewCluster else NeedCluster a0) q ->
  wp (in_refcounts (rc_set_cluster_refcount a n None)) Q X q.
Proof.
  intros HI Ha0 Hb HX. apply (rcset_start pend held q a n HI a0); [done|]. rewrite Hb. apply wp_refcounts_bind.
  destruct (decide (a0 = 0)); by apply wp_refcounts_throw.
Qed.

(** Setting an entry leaves a block modified, whether it was or not. *)
Lemma entry_dirtied ti bi n a1 q :
  set_refcounts (set_refblock_entry ti bi n (refcounts (set_rtable (vec_set ti a1 (rtable q)) q))) (set_rtable (vec_set ti a1 (rtable q)) q) =
  (let q1 := set_rtable (vec_set ti a1 (rtable (dirty_block (Z.to_nat ti) q))) (dirty_block (Z.to_nat ti) q) in
   set_refcounts (set_refblock_entry ti bi n (refcounts q1)) q1).
Proof.
  cbn. unfold set_rtable, dirty_block, set_blocks, set_refblock_entry, set_ref_table, set_refblocks, set_refcounts, set_cmap. cbn.
  do 3 f_equal. apply map_eq. intros k. destruct (decide (Z.to_nat ti = k)) as [->|Hk].
  - rewrite !lookup_alter_eq. by destruct (cmap (blocks q) !! k).
  - by rewrite !lookup_alter_ne.
Qed.

Lemma rcset_move pend held q a n a0 x blk b (Q : option Z -> QcowFile -> Prop) X :
  Inv pend (x :: held) q -> countable q a -> in_width 16 n -> a ∈ pend \/ 1 <= n ->
  vec (rtable q) !! Z.to_nat (rt_index q a) = Some a0 -> x <> 0 -> x ∈ pend ->
  cmap (blocks q) !! Z.to_nat (rt_index q a) = Some b -> dirty b = false ->
  (forall q', count_set pend held a n q q' [a0] -> vec (rtable q') !! Z.to_nat (rt_index q a) = Some x -> Q (Some a0) q') ->
  wp (in_refcounts (rc_set_cluster_refcount a n (Some (x, blk)))) Q X q.
Proof.
  intros HI Ha Hn Hpend Ha0 Hx Hxp Hb Hd HQ. set (ti := rt_index q a) in *. set (t := Z.to_nat ti) in *.
  apply (rcset_start pend (x :: held) q a n HI a0); [done|]. fold ti. fold t. rewrite Hb. apply wp_refcounts_bind, wp_refcounts_ret.
  apply wp_refcounts_bind, wp_refcounts_get. cbn beta iota. rewrite Hb, Hd.
  apply wp_refcounts_bind, wp_refcounts_bind, wp_refcounts_modify, wp_refcounts_ret, wp_refcounts_bind, wp_refcounts_modify.
  destruct (inv_dirty_block _ _ _ t HI) as [HI1 Hv1]. set (q1 := dirty_block t q) in *.
  assert (cmap (blocks q1) !! t = Some (dirtied b)) as Hb1 by (unfold q1; cbn; rewrite lookup_alter_eq; by rewrite Hb).
  assert (modified (blocks q1) t) as Hm1 by (by exists (dirtied b)).
  pose proof (inv_set_rt pend held q1 ti a0 x HI1 Ha0 Hx Hxp (or_introl Hm1)) as HI2.
  pose proof (sr_refcount pend held q1 ti a0 x HI1 Ha0 Hx Hxp (or_introl Hm1)) as Hrc2.
  set (q2 := set_rtable (vec_set ti x (rtable q1)) q1) in *.
  assert (countable q2 a) as [Hdiv Hpos] by done.
  pose proof (inv_set_count pend (a0 :: held) q2 a n (dirtied b) HI2 Hb1 Hn Hdiv (proj1 Hpos) Hpend) as HI3.
  pose proof (sc_refcount pend (a0 :: held) q2 a n (dirtied b) HI2 Hb1 Hn Hdiv (proj1 Hpos) Hpend) as Hrc3.
  pose proof (sc_in_block pend (a0 :: held) q2 a n (dirtied b) HI2 Hb1 Hn Hdiv (proj1 Hpos) Hpend) as Hlt.
  unfold vec_get. destruct (lookup_lt_is_Some_2 _ _ Hlt) as [v Hv]. change (vec (dirtied b)) with (vec b) in Hv.
  change (block_index q2 a) with (block_index q a) in Hv. rewrite Hv. apply wp_refcounts_ret.
  pose proof (entry_dirtied ti (block_index q a) n x q) as Heq. cbn zeta in Heq. fold t q1 q2 in Heq.
  change (set_refcounts (set_ref_table (vec_set ti x (rtable q)) (refcounts q)) q) with (set_rtable (vec_set ti x (rtable q)) q).
  rewrite Heq. apply HQ; [|unfold q2; cbn; apply list_lookup_insert_eq; by eapply lookup_lt_Some]. split; [exact HI3|by split|done| |done|].
  2:{ exists (vec_set (block_index q a) n (dirtied b)). split; [|done]. cbn in Hb1 |- *. fold t. by rewrite lookup_alter_eq, Hb1. }
  intros y Hy Hy0. specialize (Hrc3 y Hy Hy0). etrans; [exact Hrc3|]. case_decide; [done|]. rewrite Hrc2.
  by apply refcount_same.
Qed.

Lemma inv_dirty_rt pend held q v :
  Inv pend held q -> vec v = vec (rtable q) -> dirty v = true ->
  Inv pend held (set_rtable v q) /\ (forall t, block_view (set_rtable v q) t = block_view q t).
Proof.
  intros [Hgeo Hraw Hal Hrep Hcnt] Hv Hd.
  assert (same_alloc q (set_rtable v q)) as Hs by (by split).
  assert (forall t, block_view (set_rtable v q) t = block_view q t) as Hb.
  { intros t. unfold block_view, table_view. cbn. by rewrite Hv. }
  split; [|done]. split; [|by destruct Hraw; split|by apply (allocation_same held q)| |by apply (counted_same pend q)].
  - destruct Hgeo. split; try done; cbn; by rewrite Hv.
  - destruct Hrep as [Hl2 Hpl Hbl Hl1 Hrt Hh]. split; try done; cbn; [|congruence].
    intros t b Ht. destruct (Hbl t b Ht) as ((a & ? & ? & ? & ?) & ?). split; [|done]. exists a. by rewrite Hv.
Qed.

Lemma uncached_synced q t a0 : vec (rtable q) !! t = Some a0 -> a0 <> 0 -> cmap (blocks q) !! t = None -> block_synced q t.
Proof. intros Ha Hne Hc. exists a0. split_and!; [done..|]. unfold block_view, table_view. by rewrite Ha, decide_False, Hc. Qed.

Lemma rcset_fill pend held q a n a0 (Q : option Z -> QcowFile -> Prop) (X : RefError -> QcowFile -> Prop) :
  let t := Z.to_nat (rt_index q a) in
  Inv pend held q -> vec (rtable q) !! t = Some a0 -> a0 <> 0 -> cmap (blocks q) !! t = None ->
  (forall q', Inv pend held q' -> keeps held q q' -> same_tables q q' -> (forall k, block_view q' k = block_view q k) -> same_room q q' ->
     vec (rtable q') = vec (rtable q) -> cmap (blocks q') !! t = Some (from_vec (block_disk q a0)) -> X NeedNewCluster q') ->
  wp (in_refcounts (rc_set_cluster_refcount a n (Some (a0, from_vec (block_disk q a0))))) Q X q.
Proof.
  intros t HI Ha0 Hne Hb HX. set (ti := rt_index q a) in *.
  apply (rcset_start pend held q a n HI a0); [done|]. fold ti. fold t. rewrite Hb.
  apply wp_refcounts_bind, wp_refcounts_bind, wp_refcounts_modify.
  assert (vec (vec_set ti a0 (rtable q)) = vec (rtable q)) as Hv by (by apply list_insert_id).
  destruct (inv_dirty_rt _ _ _ _ HI Hv eq_refl) as [HI1 Hv1]. fold (set_rtable (vec_set ti a0 (rtable q)) q).
  set (q1 := set_rtable (vec_set ti a0 (rtable q)) q) in *.
  assert (vec (rtable q1) !! t = Some a0) as Ha1 by (change (vec (vec_set ti a0 (rtable q)) !! t = Some a0); by rewrite Hv).
  apply wp_refcounts_bind, (wp_insert_refblock pend held); [done|by apply (uncached_synced q1 t a0)|..|done|].
  { change (block_disk q a0 = block_view q1 t). rewrite Hv1. unfold block_view, table_view. by rewrite Ha0, decide_False, Hb. }
  intros q' HI' Hk' Ht' (Hv' & Hr' & Hav' & Hl') Hb'. apply wp_refcounts_ret, wp_refcounts_bind, wp_refcounts_get. cbn beta iota.
  fold t in Hb'. rewrite Hb'. cbn [dirty from_vec]. apply wp_refcounts_bind, wp_refcounts_throw. apply HX; try done.
  - apply (keeps_trans held q q1); [by split|done].
  - intros k. by rewrite Hv', Hv1.
  - split_and!; [done|done|apply Hk'|]. rewrite (geo_max _ (inv_geo _ _ _ HI')), (geo_max _ (inv_geo _ _ _ HI)), Hr'.
    unfold q1 at 1. cbn [refcounts set_rtable set_refcounts ref_table set_ref_table]. rewrite Hv, (ks_cs _ _ _ Hk'). done.
  - rewrite Hr'. done.
Qed.

Lemma rcset_fresh pend held q a n x (Q : option Z -> QcowFile -> Prop) X :
  let t := Z.to_nat (rt_index q a) in
  Inv pend (x :: held) q -> countable q a -> in_width 16 n -> a ∈ pend \/ 1 <= n ->
  vec (rtable q) !! t = Some 0 -> x <> 0 -> x ∈ pend -> cmap (blocks q) !! t = None ->
  (forall y, x <= y < x + size_of_cluster q -> fbyte (img q) y = 0) ->
  (forall q', count_set pend held a n q q' [] -> vec (rtable q') !! t = Some x -> Q None q') ->
  wp (in_refcounts (rc_set_cluster_refcount a n (Some (x, vec_new (refcount_block_entries (refcounts q)))))) Q X q.
Proof.
  intros t HI Ha Hn Hpend Ha0 Hx Hxp Hb Hz HQ. set (ti := rt_index q a) in *.
  apply (rcset_start pend (x :: held) q a n HI 0); [done|]. fold ti. fold t. rewrite Hb.
  apply wp_refcounts_bind, wp_refcounts_bind, wp_refcounts_modify. fold (set_rtable (vec_set ti x (rtable q)) q).
  assert (modified (blocks q) t \/ (0 = 0 /\ forall y, x <= y < x + size_of_cluster q -> fbyte (img q) y = 0)) as Hcase by (by right).
  pose proof (inv_set_rt pend held q ti 0 x HI Ha0 Hx Hxp Hcase) as HI1.
  pose proof (sr_refcount pend held q ti 0 x HI Ha0 Hx Hxp Hcase) as Hrc1.
  pose proof (sr_view pend held q ti 0 x HI Ha0 Hx Hxp Hcase t) as Hv1. rewrite decide_True in Hv1 by done.
  pose proof (sr_new pend held q ti 0 x HI Ha0 Hx Hxp Hcase) as Hx1. fold t in Hx1.
  set (q1 := set_rtable (vec_set ti x (rtable q)) q) in *.
  apply inv_held_drop in HI1.
  apply wp_refcounts_bind, (wp_insert_refblock pend held); [done|by apply (uncached_synced q1 t x)|..|done|].
  { fold t. rewrite Hv1. cbn. by rewrite (geo_block _ (inv_geo _ _ _ HI)). }
  intros q' HI' Hk' Ht' (Hv' & Hr' & Hav' & Hl') Hb'. fold t in Hb'. apply wp_refcounts_ret, wp_refcounts_bind, wp_refcounts_get. cbn beta iota.
  rewrite Hb'. cbn [dirty vec_new]. apply wp_refcounts_bind, wp_refcounts_ret.
  assert (size_of_cluster q' = size_of_cluster q) as Hcs by apply Hk'.
  assert (max_valid_cluster_offset (refcounts q') = max_valid_cluster_offset (refcounts q)) as Hmax.
  { rewrite (geo_max _ (inv_geo _ _ _ HI')), (geo_max _ (inv_geo _ _ _ HI)), Hr', Hcs. unfold q1. cbn. by rewrite length_insert. }
  assert (rt_index q' a = ti /\ block_index q' a = block_index q a) as [Hti Hbi] by (unfold ti, rt_index, block_index; by rewrite Hcs).
  rewrite <- Hbi, <- Hti.
  apply (rcset_finish pend held q' a n); [done|by split; rewrite ?Hcs, ?Hmax; apply Ha|done|done|by rewrite Hti|].
  intros q2 HI2 Hk2 Ht2 Hc2 Hr2 Hav2 Hl2 Hm2 Hmod2. apply HQ; [|by rewrite Hr2, Hr']. split.
  - done.
  - apply (keeps_trans held q q1); [|by apply (keeps_trans held q1 q')]. by split.
  - by apply (same_tables_trans q q').
  - intros y Hy Hy0. rewrite Hc2 by (by rewrite ?Hcs). case_decide; [done|]. rewrite (refcount_same q1 q'), Hrc1 by done. done.
  - split_and!; [by rewrite Hav2|by rewrite Hl2|by rewrite (ks_cs _ _ _ Hk2)|by rewrite Hm2].
  - by rewrite Hti in Hmod2.
Qed.

(** ** The loop and the recursion *)
Section count.
Context `{Hhost : HostFile, Hlaws : !HostFileLaws}.

(** One call. *)
Definition loop_body (calls : nat) (a n : Z) (added : list Z) (r : result RefError (option Z)) : QIO (list Z * list Z) :=
  match r with
  | Ok None => ret ([], added)
  | Ok (Some freed_cluster) => ret ([freed_cluster], added)
  | Err (EvictingRefCounts e) => throw e
  | Err RefInvalidIndex => throw (OsError EINVAL)
  | Err (NeedCluster addr) =>
    let* block := in_raw (read_refcount_block addr) in
    set_refcount_loop calls a n (Some (addr, from_vec block)) added
  | Err NeedNewCluster =>
    let* addr := get_new_cluster in
    let* q := get in
    set_refcount_loop calls a n (Some (addr, vec_new (refcount_block_entries (refcounts q)))) (added ++ [addr])
  | Err (ReadingRefCounts e) => throw e
  end.
Lemma loop_step calls a n new added :
  set_refcount_loop (S calls) a n new added = bind (attempt (in_refcounts (rc_set_cluster_refcount a n new))) (loop_body calls a n added).
Proof. done. Qed.

Record counted_loop (pend held : list Z) (a n : Z) (q q' : QcowFile) (u added : list Z) : Prop := {
  cl_inv : Inv (added ++ pend) (u ++ held) q';
  cl_keeps : keeps held q q';
  cl_tables : same_tables q q';
  cl_counts : counted_in a n q q';
  cl_u : Forall (fun x => x <> 0) u;
  cl_added : added = [] /\ clusters_left q' = clusters_left q \/
    exists x t, added = [x] /\ vec (rtable q') !! t = Some x /\ x <> 0 /\ (clusters_left q' < clusters_left q)%nat;
  cl_len : flen q' <= flen q + size_of_cluster q;
  cl_modified : modified (blocks q') (Z.to_nat (rt_index q a));
}.

Section steps.
Context (pend held : list Z) (q : QcowFile) (a n : Z).
Context (HI : Inv pend held q) (Ha : countable q a) (Hn : in_width 16 n) (Hpend : a ∈ pend \/ 1 <= n).
Context (Q : list Z * list Z -> QcowFile -> Prop) (X : io_error -> QcowFile -> Prop).
Context (HQ : forall u added q', counted_loop pend held a n q q' u added -> Q (u, added) q').
Context (HX : forall q', Inv pend held q' -> keeps held q q' -> same_tables q q' -> clusters_left q = 0%nat -> X (OsError ENOSPC) q').
Let t := Z.to_nat (rt_index q a).

(** The count was set after [x] became the cluster of its block. *)
Lemma loop_added q1 q2 x u t' :
  Inv (x :: pend) (x :: held) q1 -> allocated held q q1 -> one_less q q1 ->
  count_set (x :: pend) held a n q1 q2 u -> Forall (fun y => y <> 0) u -> vec (rtable q2) !! t' = Some x -> x <> 0 ->
  counted_loop pend held a n q q2 u [x].
Proof using HI.
  intros HI1 (Hk1 & Ht1 & Hr1 & Hb1) [Hlt Hlen] [HI2 Hk2 Ht2 Hc2 Hroom Hmod] Hu Hx Hne. split; [done| | | |done|..].
  - by apply (keeps_trans held q q1).
  - by apply (same_tables_trans q q1).
  - intros y Hy Hy0. rewrite Hc2 by (rewrite ?(ks_cs _ _ _ Hk1); done). case_decide; [done|]. apply refcount_same; [apply Hk1|done].
  - right. exists x, t'. split_and!; [done..|]. by rewrite (same_room_left _ _ Hroom).
  - destruct Hroom as (_ & -> & _). done.
  - unfold rt_index in *. by rewrite (ks_cs _ _ _ Hk1) in Hmod.
Qed.

Lemma loop_new calls :
  (exists b, cmap (blocks q) !! t = Some b /\ dirty b = false) \/ (vec (rtable q) !! t = Some 0 /\ cmap (blocks q) !! t = None) ->
  wp (let* addr := get_new_cluster in
      let* q := get in
      set_refcount_loop (S calls) a n (Some (addr, vec_new (refcount_block_entries (refcounts q)))) ([] ++ [addr])) Q X q.
Proof using All.
  intros Hcase. apply wp_bind, (wp_get_new_cluster pend held); [done| |].
  2:{ intros q' HI' (Hk & Ht & _) Hz. by apply HX. }
  intros x q1 HI1 Hx Hz Hall Hlt. pose proof Hall as (Hk1 & Ht1 & Hr1 & Hb1).
  apply (inv_pend _ (x :: pend)) in HI1; [|set_solver].
  assert (rt_index q1 a = rt_index q a) as Hti by (unfold rt_index; by rewrite (ks_cs _ _ _ Hk1)).
  assert (countable q1 a) as Ha1 by (destruct Ha; split; [by rewrite (ks_cs _ _ _ Hk1)|by rewrite Hr1]).
  assert (a ∈ x :: pend \/ 1 <= n) as Hp1 by (destruct Hpend; [left; set_solver|by right]).
  apply wp_bind, wp_get. rewrite loop_step. apply wp_bind, wp_attempt.
  destruct Hcase as [(b & Hb & Hd)|(Hr & Hb)].
  - destruct (rep_block q (inv_rep _ _ _ HI) _ _ Hb) as ((a0 & Ha0 & Hne0 & _) & _).
    apply (rcset_move (x :: pend) held q1 a n a0 x _ b); rewrite ?Hr1, ?Hti; [done..|set_solver|done|done|].
    intros q2 Hset Hrx. apply wp_ret, HQ. apply (loop_added q1 q2 x [a0] t); [done..|by constructor|done|done].
  - apply (rcset_fresh (x :: pend) held q1 a n x); rewrite ?Hr1, ?Hti; [done..|set_solver|done| |].
    { intros y Hy. apply Hz. by rewrite (ks_cs _ _ _ Hk1) in Hy. }
    intros q2 Hset Hrx. apply wp_ret, HQ. apply (loop_added q1 q2 x [] t); [done..|by constructor|done|done].
Qed.
End steps.

Lemma wp_set_refcount_loop pend held q a n (Q : list Z * list Z -> QcowFile -> Prop) X :
  Inv pend held q -> countable q a -> in_width 16 n -> a ∈ pend \/ 1 <= n ->
  (forall u added q', counted_loop pend held a n q q' u added -> Q (u, added) q') ->
  (forall q', Inv pend held q' -> keeps held q q' -> same_tables q q' -> clusters_left q = 0%nat -> X (OsError ENOSPC) q') ->
  wp (set_refcount_loop 4 a n None []) Q X q.
Proof.
  intros HI Ha Hn Hpend HQ HX. set (t := Z.to_nat (rt_index q a)).
  destruct (countable_entry q a (inv_geo _ _ _ HI) Ha) as [a0 Ha0]. fold t in Ha0.
  rewrite loop_step. apply wp_bind, wp_attempt.
  destruct (cmap (blocks q) !! t) as [b|] eqn:Hb; [destruct (dirty b) eqn:Hd|].
  - apply (rcset_dirty pend held q a n b); [done..|]. intros q' [HI' Hk Ht Hc Hroom Hmod]. apply wp_ret, HQ.
    split; [done..|by constructor| | |done]; [left; split; [done|by apply same_room_left]|].
    destruct Hroom as (_ & -> & _). pose proof (cs_bounds q (inv_geo _ _ _ HI)). lia.
  - apply (rcset_clean pend held q a n b); [done..|].
    apply (loop_new pend held q a n HI Ha Hn Hpend Q X HQ HX 2). left. by exists b.
  - apply (rcset_absent pend held q a n a0); [done..|]. case_decide as Hz.
    { subst a0. apply (loop_new pend held q a n HI Ha Hn Hpend Q X HQ HX 2). by right. }
    assert (owns held q (OBlock t) a0) as Ho by done.
    pose proof (placed_bounds _ _ _ _ _ HI Ho) as (Hdiv & Hpos & Hl & _ & Hbd).
    pose proof (block_bytes q (inv_geo _ _ _ HI)) as Hbytes.
    apply wp_bind, wp_in_raw, (wp_read_refcount_block _ (block_size q)); [apply HI|lia|unfold size_of_cluster in Hbytes; lia|unfold flen, img in Hl; lia|].
    intros r Hr. destruct (put_kept _ _ _ _ HI Hr) as (HI1 & Hk1 & Hv1). fold (put_file r q). set (q1 := put_file r q) in *.
    assert (img q1 = img q) as Himg by apply Hr.
    assert (disk_table 2 (block_size q) (file (qf_file (raw_file q))) a0 = block_disk q1 a0) as -> by (unfold block_disk; by rewrite Himg).
    rewrite loop_step. apply wp_bind, wp_attempt. apply (rcset_fill pend held q1 a n a0); [done..|].
    intros q2 HI2 Hk2 Ht2 Hv2 Hroom2 Hrt2 Hb2.
    assert (keeps held q q2) as Hk by (by apply (keeps_trans held q q1)).
    assert (rt_index q2 a = rt_index q a) as Hti by (unfold rt_index; by rewrite (ks_cs _ _ _ Hk)).
    assert (flen q2 = flen q) as Hl2 by (destruct Hroom2 as (_ & -> & _); unfold flen; by rewrite Himg).
    assert (clusters_left q2 = clusters_left q) as Hleft.
    { rewrite (same_room_left _ _ Hroom2). apply same_room_left. split_and!; try done. unfold flen. by rewrite Himg. }
    apply (loop_new pend held q2 a n); [done| |done..| | |].
    + destruct Ha, Hroom2 as (_ & _ & Hc & Hm). split; [by rewrite (ks_cs _ _ _ Hk)|by rewrite Hm].
    + intros u added q' [? Hk' Ht' Hc' ? Hadd Hlen Hmod]. apply HQ. split; [done|by apply (keeps_trans held q q2)|by apply (same_tables_trans q q2)| |done|..].
      * intros y Hy Hy0. rewrite Hc' by (by rewrite ?(ks_cs _ _ _ Hk)). case_decide; [done|].
        apply refcount_same; [apply Hk|]. intros k. by rewrite Hv2, Hv1.
      * by rewrite <- Hleft.
      * by rewrite Hl2, (ks_cs _ _ _ Hk) in Hlen.
      * by rewrite Hti in Hmod.
    + intros q' HI' Hk' Ht' Hzero. apply HX; [done|by apply (keeps_trans held q q2)|by apply (same_tables_trans q q2)|by rewrite <- Hleft].
    + left. rewrite Hti. exists (from_vec (block_disk q1 a0)). done.
Qed.

(** A reference is never lost. *)
Definition counts_kept (a : Z) (q q' : QcowFile) : Prop :=
  forall x, (size_of_cluster q | x) -> 0 <= x -> x <> a -> 1 <= refcount_of q x -> 1 <= refcount_of q' x.

Record count_done (pend held : list Z) (a n : Z) (q q' : QcowFile) (u : list Z) : Prop := {
  cd_inv : Inv pend (u ++ held) q';
  cd_keeps : keeps held q q';
  cd_tables : same_tables q q';
  cd_count : 1 <= n -> 1 <= refcount_of q' a;
  cd_others : counts_kept a q q';
  cd_u : Forall (fun x => x <> 0) u;
}.

Definition nospace (held : list Z) (q : QcowFile) (X : io_error -> QcowFile -> Prop) : Prop :=
  forall pend' q', Inv pend' held q' -> keeps held q q' -> same_tables q q' -> X (OsError ENOSPC) q'.

Lemma inv_held_app pend u held q : Inv pend (u ++ held) q -> Inv pend held q.
Proof. induction u as [|a u IH]; [done|]. intros HI. by apply IH, (inv_held_drop pend a). Qed.

(** The fuel is enough: each call that needs a cluster uses one up. *)
Lemma wp_set_refcount_rec fuel pend held q a n (Q : list Z -> QcowFile -> Prop) X :
  (clusters_left q < fuel)%nat -> Inv pend held q -> countable q a -> in_width 16 n -> a ∈ pend \/ 1 <= n ->
  (forall u q', count_done pend held a n q q' u -> Q u q') -> nospace held q X ->
  wp (set_refcount_rec fuel a n) Q X q.
Proof.
  revert pend held q a n Q X. induction fuel as [|fuel IH]; intros pend held q a n Q X Hfuel HI Ha Hn Hpend HQ HX; [lia|].
  cbn [set_refcount_rec]. apply wp_bind, (wp_set_refcount_loop pend held); [done..| |].
  2:{ intros q' HI' Hk Ht _. by apply (HX pend). }
  intros u added q1 [HI1 Hk1 Ht1 Hc1 Hu Hadd _ _]. pose proof Ha as [Hdiv Hpos].
  assert (refcount_of q1 a = n) as Hca by (rewrite Hc1, decide_True by (done || lia); done).
  assert (counts_kept a q q1) as Ho1 by (intros x ? ? ? ?; by rewrite Hc1, decide_False).
  destruct Hadd as [[-> _]|(x & t & -> & Hx & Hne & Hlt)].
  { apply wp_bind, wp_ret, wp_ret, HQ. split; [done..|lia|done|done]. }
  apply wp_bind, wp_bind. assert (owns (u ++ held) q1 (OBlock t) x) as Ho by done.
  pose proof (owned_countable _ _ _ _ _ HI1 Ho) as Hcx.
  apply (IH (x :: pend) (u ++ held) q1 x 1); [lia|done..|right; lia| |].
  - intros v q2 [HI2 Hk2 Ht2 Hcn2 Ho2 _]. apply wp_ret, wp_ret, HQ. apply inv_held_app in HI2.
    assert (keeps held q1 q2) as Hk2' by (apply (keeps_sub _ _ _ _ Hk2); set_solver).
    assert (size_of_cluster q1 = size_of_cluster q) as Hcs by apply Hk1.
    split; [|by apply (keeps_trans held q q1)|by apply (same_tables_trans q q1)|..|done].
    + apply (inv_settled pend x); [done|]. by apply Hcn2.
    + intros Hn1. destruct (decide (a = x)) as [->|Hax]; [by apply Hcn2|]. apply Ho2; [by rewrite Hcs|lia|done|lia].
    + intros y Hy Hy0 Hya Hy1. destruct (decide (y = x)) as [->|Hyx]; [by apply Hcn2|].
      apply Ho2; [by rewrite Hcs|done|done|]. by apply Ho1.
  - intros pend' q' HI' Hk' Ht'. apply (HX pend'); [by apply inv_held_app in HI'| |by apply (same_tables_trans q q1)].
    apply (keeps_trans held q q1); [done|]. apply (keeps_sub _ _ _ _ Hk'). set_solver.
Qed.

Lemma wp_set_cluster_refcount pend held q a n (Q : list Z -> QcowFile -> Prop) X :
  Inv pend held q -> countable q a -> in_width 16 n -> a ∈ pend \/ 1 <= n ->
  (forall u q', count_done pend held a n q q' u -> Q u q') -> nospace held q X ->
  wp (set_cluster_refcount a n) Q X q.
Proof. intros. unfold set_cluster_refcount. apply wp_bind, wp_get. apply (wp_set_refcount_rec _ pend held); [lia|done..]. Qed.
End count.

(** * Counting the clusters that counting itself needs comes to an end, and finding the next
    allocated cluster does. *)
Section fuel.
Context `{Hhost : HostFile}.

(** [m] runs as [m'] does, unless it runs out of fuel. *)
Definition refines_fuel {E A} (m m' : Q E A) : Prop := forall q, (m q).1 <> Crashed -> m' q = m q.

Lemma refines_bind {E A B} (m m' : Q E A) (f f' : A -> Q E B) :
  refines_fuel m m' -> (forall a, refines_fuel (f a) (f' a)) -> refines_fuel (bind m f) (bind m' f').
Proof.
  intros Hm Hf q Hq. unfold bind in *. specialize (Hm q). destruct (m q) as [[a|e|] q1] eqn:Hmq; cbn in *.
  - rewrite (Hm ltac:(done)). by apply Hf.
  - by rewrite (Hm ltac:(done)).
  - done.
Qed.
Lemma refines_refl {E A} (m : Q E A) : refines_fuel m m.
Proof. done. Qed.

(** The calls for the clusters that were added. *)
Definition count_added (fuel : nat) : list Z -> QIO unit :=
  fix count_added (added : list Z) : QIO unit :=
    match added with
    | [] => ret tt
    | addr :: rest => set_refcount_rec fuel addr 1 ;;; count_added rest
    end.

Lemma more_fuel fuel fuel' a n : (fuel <= fuel')%nat -> refines_fuel (set_refcount_rec fuel a n) (set_refcount_rec fuel' a n).
Proof.
  revert fuel' a n. induction fuel as [|fuel IH]; intros fuel' a n Hle; [by intros q Hq|].
  destruct fuel' as [|fuel']; [lia|]. cbn [set_refcount_rec]. fold (count_added fuel) (count_added fuel').
  apply refines_bind; [apply refines_refl|]. intros [unref added]. apply refines_bind; [|intros []; apply refines_refl].
  induction added as [|addr rest IHl]; [apply refines_refl|]. cbn [count_added].
  apply refines_bind; [apply IH; lia|]. intros _. apply IHl.
Qed.
End fuel.

Section terminates.
Context `{Hhost : HostFile, Hlaws : !HostFileLaws}.

(** C19: Setting a count ends: a block of counts that has to be moved needs a cluster, whose count
    is set in turn, and so on.  The depth is bounded by the clusters there are to hand out,
    and any more fuel gives the same result. *)
Theorem counting_terminates pend held q a n fuel :
  Inv pend held q -> countable q a -> in_width 16 n -> a ∈ pend \/ 1 <= n -> (clusters_left q < fuel)%nat ->
  (set_refcount_rec fuel a n q).1 <> Crashed /\ set_refcount_rec fuel a n q = set_cluster_refcount a n q.
Proof.
  intros HI Ha Hn Hp Hfuel.
  assert (wp (set_refcount_rec (S (clusters_left q)) a n) (fun _ _ => True) (fun _ _ => True) q) as Hwp
    by (apply (wp_set_refcount_rec _ pend held); [lia|done..]).
  assert ((set_refcount_rec (S (clusters_left q)) a n q).1 <> Crashed) as Hend.
  { unfold wp in Hwp. by destruct (set_refcount_rec _ a n q) as [[]]. }
  assert (set_refcount_rec fuel a n q = set_cluster_refcount a n q) as Heq.
  { etrans; [exact (more_fuel (S (clusters_left q)) fuel a n ltac:(lia) q Hend)|done]. }
  split; [|done]. by rewrite Heq.
Qed.
End terminates.
