(* ===== verification/QcowLookup.v ===== *)
(** The L2 tables of a qcow2 image: finding the cluster of an address, for reading and for
    writing. *)
From stdpp Require Import base numbers list gmap.
From S2P Require Import Prelude Bytes RawFile QcowTables QcowHeader QcowImage QcowDisk QcowInv QcowSteps QcowCount.

#[local] Open Scope Z_scope.

(** ** Entries on the file *)
Lemma testbit_low n x i : (2 ^ n | x) -> 0 <= i < n -> Z.testbit x i = false.
Proof. intros [y ->] Hi. apply Z.mul_pow2_bits_low. lia. Qed.

Lemma mask_testbit i : 0 <= i -> Z.testbit L2_TABLE_OFFSET_MASK i = bool_decide (9 <= i < 56).
Proof.
  intros Hi. change L2_TABLE_OFFSET_MASK with (Z.shiftl (Z.ones 47) 9). rewrite Z.shiftl_spec by done.
  destruct (decide (i < 9)); [rewrite Z.testbit_neg_r by lia; symmetry; apply bool_decide_eq_false; lia|].
  rewrite Z.testbit_ones_nonneg by lia. destruct (decide (i < 56)).
  - rewrite bool_decide_eq_true_2 by lia. apply Z.ltb_lt. lia.
  - rewrite bool_decide_eq_false_2 by lia. apply Z.ltb_ge. lia.
Qed.

(** An address of a cluster. *)
Definition addr_ok (x : Z) : Prop := 0 <= x < 2 ^ 56 /\ (2 ^ 9 | x).

Lemma shifted_testbit k i : 0 <= k -> Z.testbit (Z.shiftl 1 k) i = bool_decide (i = k).
Proof.
  intros Hk. rewrite Z.shiftl_1_l. destruct (decide (i = k)) as [->|Hne].
  - rewrite bool_decide_eq_true_2 by done. by apply Z.pow2_bits_true.
  - rewrite bool_decide_eq_false_2 by done. apply Z.pow2_bits_false. lia.
Qed.

Lemma masked_entry flags x : flags = 0 \/ flags = CLUSTER_USED_FLAG -> addr_ok x -> Z.land (entry_value flags x) L2_TABLE_OFFSET_MASK = x.
Proof.
  intros Hf [Hx Hd]. unfold entry_value. case_decide as Hz; [by subst|]. apply Z.bits_inj'. intros i Hi.
  rewrite Z.land_spec, Z.lor_spec, mask_testbit by done.
  destruct (decide (9 <= i < 56)) as [Hin|Hout].
  - rewrite bool_decide_eq_true_2, andb_true_r by done. destruct Hf as [->| ->]; [by rewrite Z.bits_0, orb_false_r|].
    unfold CLUSTER_USED_FLAG. rewrite shifted_testbit, bool_decide_eq_false_2 by lia. apply orb_false_r.
  - rewrite bool_decide_eq_false_2, andb_false_r by done. symmetry.
    destruct (decide (i < 9)); [apply (testbit_low 9); [done|lia]|]. apply (testbit_high 56); [done|lia].
Qed.

Lemma plain_entry x : addr_ok x -> Z.land (entry_value CLUSTER_USED_FLAG x) COMPRESSED_FLAG = 0.
Proof.
  intros [Hx _]. unfold entry_value. case_decide as Hz; [done|]. apply Z.bits_inj'. intros i Hi.
  rewrite Z.land_spec, Z.lor_spec, Z.bits_0. unfold COMPRESSED_FLAG, CLUSTER_USED_FLAG. rewrite !shifted_testbit by done.
  destruct (decide (i = 62)) as [->|]; [|by rewrite (bool_decide_eq_false_2 (i = 62)), andb_false_r].
  rewrite (testbit_high 56) by (done || lia). done.
Qed.

Lemma entry_in_width flags x : flags = 0 \/ flags = CLUSTER_USED_FLAG -> addr_ok x -> in_width 64 (entry_value flags x).
Proof.
  intros Hf [Hx _]. unfold entry_value. case_decide; [unfold in_width; lia|]. apply lor_in_width; [lia|unfold in_width; lia|].
  destruct Hf as [->| ->]; by split.
Qed.

Lemma addr_ok_zero : addr_ok 0.
Proof. split; [lia|]. apply Z.divide_0_r. Qed.

Lemma owned_addr_ok pend held q o a : Inv pend held q -> owns held q o a -> addr_ok a.
Proof.
  intros HI Ho. pose proof (placed_bounds _ _ _ _ _ HI Ho) as (Hd & Hp & _ & _ & Hb). split; [lia|].
  apply (Z.divide_trans _ (size_of_cluster q)); [|done]. exact (cs_512 q (inv_geo _ _ _ HI)).
Qed.

(** A table of entries with their flags, written and read back. *)
Lemma entries_roundtrip flags n f off es :
  flags = 0 \/ flags = CLUSTER_USED_FLAG -> Forall addr_ok es -> length es = n ->
  (forall k, (k < 8 * n)%nat -> fbyte f (off + Z.of_nat k) = concat (be_bytes 8 <$> (entry_value flags <$> es)) !!! k) ->
  disk_table 8 n f off = entry_value flags <$> es /\ masked (disk_table 8 n f off) = es.
Proof.
  intros Hf Hes Hn Hb.
  assert (disk_table 8 n f off = entry_value flags <$> es) as Heq.
  { rewrite <- Hn, <- (length_fmap (entry_value flags) es). apply disk_table_written; [|rewrite length_fmap, Hn; done].
    apply Forall_fmap. eapply Forall_impl; [done|]. intros x Hx. by apply entry_in_width. }
  split; [done|]. rewrite Heq. unfold masked. rewrite <- list_fmap_compose. transitivity (id <$> es); [|apply list_fmap_id].
  apply list_fmap_ext. intros k x Hk. cbn. apply masked_entry; [done|]. by apply (Forall_lookup_1 _ _ _ _ Hes Hk).
Qed.

(** ** The cache of L2 tables *)

(** All but the cached L2 tables and their clusters. *)
Definition same_books (q q' : QcowFile) : Prop :=
  l1_table q' = l1_table q /\ refcounts q' = refcounts q /\ avail_clusters q' = avail_clusters q /\
  unref_clusters q' = unref_clusters q /\ flen q' = flen q /\ (forall t, block_view q' t = block_view q t).

Lemma same_books_trans q q1 q2 : same_books q q1 -> same_books q1 q2 -> same_books q q2.
Proof.
  intros (H1 & H2 & H3 & H4 & H5 & H6) (G1 & G2 & G3 & G4 & G5 & G6). split_and!; [congruence..|]. intros t. by rewrite G6.
Qed.

Lemma view_addr_ok pend held q i : Inv pend held q -> Forall addr_ok (l2_view q i).
Proof.
  intros HI. apply Forall_lookup. intros j a Ha. destruct (decide (a = 0)) as [->|Hne]; [apply addr_ok_zero|].
  by apply (owned_addr_ok pend held q (OData i j)).
Qed.

(** The table at its place, when the file has it. *)
Lemma wrote_synced pend held q r i a es :
  Inv pend held q -> vec (l1_table q) !! i = Some a -> a <> 0 -> l2_view q i = es -> length es = l2_size q ->
  wrote a (concat (be_bytes 8 <$> (entry_value CLUSTER_USED_FLAG <$> es))) (qf_file (raw_file q)) r ->
  (forall k, l2_view (put_file r q) k = l2_view q k) -> l2_synced (put_file r q) i.
Proof.
  intros HI Ha Hne Hes Hlen Hw Hv. exists a. split; [done|]. split; [done|].
  assert (forall k, (k < 8 * l2_size q)%nat -> fbyte (file r) (a + Z.of_nat k) = concat (be_bytes 8 <$> (entry_value CLUSTER_USED_FLAG <$> es)) !!! k) as Hb.
  { intros k Hk. destruct Hw as (Hx & _). rewrite Hx, be_concat_length, length_fmap, decide_True by lia. f_equal. lia. }
  pose proof (view_addr_ok pend held q i HI) as Hok. rewrite Hes in Hok.
  destruct (entries_roundtrip CLUSTER_USED_FLAG (l2_size q) (file r) a es) as [Ht Hm]; [by right|done..|].
  split; [rewrite Hv, Hes; symmetry; exact Hm|]. change (plain (disk_table 8 (l2_size q) (file r) a)). rewrite Ht.
  apply Forall_fmap. eapply Forall_impl; [done|]. intros x Hx. by apply plain_entry.
Qed.

Lemma wp_evict_l2 pend held q k e (Q : unit -> QcowRawFile -> Prop) X :
  Inv pend held q -> cmap (l2_cache q) !! k = Some e -> dirty e = true ->
  (forall r, Inv pend held (put_file r q) -> keeps held q (put_file r q) -> same_books q (put_file r q) ->
     l2_synced (put_file r q) k ->
     (forall t, t <> k -> ~ modified (l2_cache q) t -> l2_synced q t -> l2_synced (put_file r q) t) ->
     Q tt (set_qf r (raw_file q))) ->
  wp (evict_l2 (l1_table q) k e) Q X (raw_file q).
Proof.
  intros HI He Hd HQ. pose proof (rep_l2 q (inv_rep _ _ _ HI) _ _ He) as Hok. pose proof Hok as (a & Ha & Hne & Hn & _).
  assert (owns held q (OL2 k) a) as Ho by done. assert (writable q (OL2 k)) as Hwr by (by exists e).
  pose proof (placed_bounds _ _ _ _ _ HI Ho) as (Hdiv & Hpos & Hl & _ & Hb).
  pose proof (l2_bytes q (inv_geo _ _ _ HI)) as Hbytes. pose proof (l2_size_pos q (inv_geo _ _ _ HI)) as Hbs.
  unfold evict_l2. rewrite Ha. apply wp_write_pointer_table; [apply HI|lia|lia|].
  intros r Hwrote.
  destruct (wrote_inside _ _ _ _ _ HI Ho _ _ _ Hwrote) as (Hs & Hal & Hlen & Hbok & Hat); [apply be_concat_ok|lia|rewrite be_concat_length, length_fmap; lia|].
  pose proof (touch_inv _ _ _ _ _ _ HI Ho Hwr Hs Hal Hlen Hbok Hat) as HI'.
  pose proof (touch_l2_view _ _ _ _ _ _ HI Ho Hwr Hat) as Hview.
  apply HQ; [done| | |..].
  - apply (touch_keeps _ _ _ _ _ _ held HI Ho Hwr Hat); [done|]. intros b [j Hj]%list_elem_of_lookup _. by exists j.
  - split_and!; [done..|apply Hlen|]. apply (touch_block_view _ _ _ _ _ _ HI Ho Hwr Hat).
  - apply (wrote_synced pend held q r k a (vec e)); try done. unfold l2_view. by rewrite (view_cached _ _ _ _ _ _ He Hok).
  - intros t Htk Hm (b & Hb1 & Hb2 & Hb3 & Hb4). exists b.
    assert (disk_table 8 (l2_size q) (file r) b = disk_table 8 (l2_size q) (img q) b) as Hdisk by (by apply (touch_l2_disk _ _ _ _ _ _ HI Ho Hwr Hat t)).
    split; [done|]. split; [done|]. split; [rewrite Hview, Hb3; unfold l2_disk; f_equal; by rewrite <- Hdisk|].
    change (plain (disk_table 8 (l2_size q) (file r) b)). by rewrite Hdisk.
Qed.

Lemma wp_insert_l2 pend held q li b (Q : unit -> QcowFile -> Prop) X :
  let i := Z.to_nat li in
  Inv pend held q -> l2_synced q i -> vec b = l2_view q i -> cmap (l2_cache q) !! i = None ->
  (forall q', Inv pend held q' -> keeps held q q' -> same_books q q' -> cmap (l2_cache q') !! i = Some b -> Q tt q') ->
  wp (insert_l2 li b) Q X q.
Proof.
  intros t HI Hsync Hb Hnone HQ. unfold insert_l2. apply wp_bind, wp_get.
  pose proof (geo_l2_cache _ (inv_geo _ _ _ HI)) as Hcap.
  unfold in_l2_cache. apply wp_zoom. fold t.
  assert (forall q1 c, Inv pend held q1 -> keeps held q q1 -> same_books q q1 -> capacity c <> 0%nat ->
            (forall k, cmap c !! k = cmap (l2_cache q1) !! k \/ l2_synced q1 k /\ forall b', cmap c !! k = Some b' -> vec b' = l2_view q1 k) ->
            cmap c !! t = Some b -> Q tt (set_l2_cache c q1)) as Hdone.
  { intros q1 c HI1 Hk1 Hb1 Hc Hcases Hct. destruct (inv_l2_cache _ _ _ _ HI1 Hc Hcases) as [HI2 Hs2].
    apply HQ; [done| |done|done]. apply (keeps_trans held q q1); [done|]. split; try done. apply Hs2. }
  apply wp_cache_insert; [done|..].
  - apply (Hdone q); [done|apply keeps_self|done|done| |apply lookup_insert_eq].
    intros k. cbn. destruct (decide (k = t)) as [->|Hk]; [right|left; by apply lookup_insert_ne].
    split; [done|]. rewrite lookup_insert_eq. by intros b' [= <-].
  - intros k e p He Hd. apply (Hdone q); [done|apply keeps_self|done|done| |apply lookup_insert_eq].
    intros k'. cbn. destruct (decide (k' = t)) as [->|Hk].
    { right. split; [done|]. rewrite lookup_insert_eq. by intros b' [= <-]. }
    rewrite lookup_insert_ne by done. destruct (decide (k' = k)) as [->|Hk']; [|left; by apply lookup_delete_ne].
    right. rewrite lookup_delete_eq. split; [|done]. pose proof (rep_l2 q (inv_rep _ _ _ HI) _ _ He) as Hc.
    pose proof Hc as (a & Ha & Hne & _ & Hv). exists a. split; [done|]. split; [done|]. split.
    + unfold l2_view. rewrite (view_cached _ _ _ _ _ _ He Hc). by apply Hv.
    + apply (rep_plain q (inv_rep _ _ _ HI) k); [done..|]. intros (e' & He' & Hd'). congruence.
  - intros k e p He Hd. apply (wp_evict_l2 pend held); [done..|]. intros r HI' Hk' Hbk' Hs' Hs''.
    assert (k <> t) as Hkt by (intros ->; congruence).
    apply (Hdone (put_file r q)); [done..| |apply lookup_insert_eq].
    intros k'. cbn. destruct (decide (k' = t)) as [->|Hne].
    { right. split; [|rewrite lookup_insert_eq; intros b' [= <-]; by rewrite (ks_l2 _ _ _ Hk')]. apply Hs''; [done| |done].
      intros (b' & Hb' & _). congruence. }
    rewrite lookup_insert_ne by done. destruct (decide (k' = k)) as [->|Hne']; [|left; by apply lookup_delete_ne].
    right. by rewrite lookup_delete_eq.
Qed.

(** ** Reading an L2 table *)
Lemma wp_read_l2_raw pend held q a (Q : list Z -> QcowRawFile -> Prop) X i :
  Inv pend held q -> vec (l1_table q) !! i = Some a -> a <> 0 -> ~ modified (l2_cache q) i ->
  (forall r, kept_file (qf_file (raw_file q)) r -> Q (l2_disk q a) (set_qf r (raw_file q))) ->
  wp (read_l2_cluster a) Q X (raw_file q).
Proof.
  intros HI Ha Hne Hm HQ. assert (owns held q (OL2 i) a) as Ho by done.
  pose proof (placed_bounds _ _ _ _ _ HI Ho) as (Hdiv & Hpos & Hl & _ & Hb).
  pose proof (l2_bytes q (inv_geo _ _ _ HI)) as Hbytes. pose proof (l2_size_pos q (inv_geo _ _ _ HI)).
  unfold read_l2_cluster, read_pointer_cluster. apply wp_bind, wp_bind, wp_get.
  replace (cluster_size (raw_file q) / 8) with (Z.of_nat (l2_size q)) by (unfold l2_size, size_of_cluster in *; lia).
  apply wp_read_pointer_table; [apply HI|lia|unfold flen, img in Hl; lia|].
  intros r Hr. rewrite decide_False; [apply wp_ret, HQ, Hr|].
  intros Hex. apply Exists_exists in Hex as (x & Hx & Hc). apply Hc.
  pose proof (rep_plain q (inv_rep _ _ _ HI) i a Ha Hne Hm) as Hp. unfold plain in Hp. rewrite Forall_forall in Hp. by apply Hp.
Qed.
Lemma wp_read_l2 pend held q a (Q : list Z -> QcowFile -> Prop) X i :
  Inv pend held q -> vec (l1_table q) !! i = Some a -> a <> 0 -> ~ modified (l2_cache q) i ->
  (forall r, kept_file (qf_file (raw_file q)) r -> Q (l2_disk q a) (put_file r q)) ->
  wp (in_raw (read_l2_cluster a)) Q X q.
Proof. intros HI Ha Hne Hm HQ. by apply wp_in_raw, (wp_read_l2_raw pend held q a _ _ i). Qed.

Lemma wp_cached_l2 pend held q li a (Q : VecCache -> QcowFile -> Prop) X :
  let i := Z.to_nat li in
  Inv pend held q -> vec (l1_table q) !! i = Some a -> a <> 0 ->
  (forall t q', Inv pend held q' -> keeps held q q' -> same_books q q' -> cmap (l2_cache q') !! i = Some t -> vec t = l2_view q i -> Q t q') ->
  wp (cached_l2 li a) Q X q.
Proof.
  intros i HI Ha Hne HQ. unfold cached_l2. apply wp_bind, wp_get. fold i. destruct (cmap (l2_cache q) !! i) as [t|] eqn:Ht.
  - apply wp_ret, HQ; [done|apply keeps_self|done|done|].
    unfold l2_view. by rewrite (view_cached _ _ _ _ _ _ Ht (rep_l2 q (inv_rep _ _ _ HI) _ _ Ht)).
  - assert (~ modified (l2_cache q) i) as Hm by (intros (t & Ht' & _); congruence).
    apply wp_bind, (wp_read_l2 pend held q a _ _ i); [done..|]. intros r Hr.
    destruct (put_kept _ _ _ _ HI Hr) as (HI1 & Hk1 & Hv1). set (q1 := put_file r q) in *.
    assert (img q1 = img q) as Himg by apply Hr.
    assert (l2_view q i = l2_disk q a) as Hview by (unfold l2_view, table_view; by rewrite Ha, decide_False, Ht).
    apply wp_bind, (wp_insert_l2 pend held q1); [done| |by cbn; rewrite (ks_l2 _ _ _ Hk1)|done|].
    + exists a. fold i. split; [done|]. split; [done|]. split; [rewrite (ks_l2 _ _ _ Hk1), Hview; unfold l2_disk; by rewrite Himg|].
      rewrite Himg. by apply (rep_plain q (inv_rep _ _ _ HI) i).
    + intros q2 HI2 Hk2 Hb2 Ht2. apply wp_ret, HQ; [done|by apply (keeps_trans held q q1)| |done|done].
      apply (same_books_trans q q1); [|done]. split_and!; try done. unfold flen. by rewrite Himg.
Qed.

(** * Finding the cluster of an address of a qcow2 image, for reading and for writing. *)
(** ** The cluster of an address *)
Definition entry_of (q : QcowFile) (i j : nat) : Z := default 0 (l2_view q i !! j).
Definition cluster_of (q : QcowFile) (address : Z) : Z :=
  entry_of q (Z.to_nat (l1_table_index q address)) (Z.to_nat (l2_table_index q address)).

Lemma content_cluster q address :
  content q address = if decide (cluster_of q address = 0) then 0 else fbyte (img q) (cluster_of q address + address mod size_of_cluster q).
Proof. unfold content, cluster_of, entry_of. by destruct (l2_view q _ !! _). Qed.

(** The disk reads the same. *)
Record sees (held : list Z) (q q' : QcowFile) : Prop := {
  ss_header : header q' = header q;
  ss_cs : size_of_cluster q' = size_of_cluster q;
  ss_offset : current_offset q' = current_offset q;
  ss_entries : l2_entries q' = l2_entries q;
  ss_l2 i j : entry_of q' i j = entry_of q i j;
  ss_data i j : entry_of q i j <> 0 -> same_cluster q q' (entry_of q i j);
  ss_held a : a ∈ held -> a <> 0 -> same_cluster q q' a;
}.

Lemma keeps_sees held q q' : keeps held q q' -> sees held q q'.
Proof.
  intros [Hh Hc Ho He _ H2 Hd Hl]. split; try done.
  - intros i j. unfold entry_of. by rewrite H2.
  - intros i j. unfold entry_of. destruct (l2_view q i !! j) as [a|] eqn:Ha; [|done]. apply (Hd i j a Ha).
Qed.
Lemma sees_trans held q q1 q2 : sees held q q1 -> sees held q1 q2 -> sees held q q2.
Proof.
  intros [Hh Hc Ho He H2 Hd Hl] [Hh' Hc' Ho' He' H2' Hd' Hl'].
  split; [congruence|congruence|congruence|congruence|by intros i j; rewrite H2', H2|..].
  - intros i j Hne x Hx. rewrite <- (Hd i j Hne x Hx). rewrite <- (H2 i j) in *. apply (Hd' i j); [done|by rewrite Hc].
  - intros a Ha Hne x Hx. rewrite (Hl' a), (Hl a) by (done || congruence). done.
Qed.
Lemma sees_sub held held' q q' : sees held q q' -> held' ⊆ held -> sees held' q q'.
Proof. intros [] Hs. split; try done. intros a Ha. apply ss_held0. by apply Hs. Qed.

Lemma sees_cluster held q q' address : sees held q q' -> cluster_of q' address = cluster_of q address.
Proof. intros Hs. unfold cluster_of, l1_table_index, l2_table_index. rewrite (ss_l2 _ _ _ Hs), (ss_cs _ _ _ Hs), (ss_entries _ _ _ Hs). done. Qed.

Lemma content_sees held q q' address : geometry q -> sees held q q' -> content q' address = content q address.
Proof.
  intros Hgeo Hs. rewrite !content_cluster, (sees_cluster _ _ _ _ Hs), (ss_cs _ _ _ Hs). case_decide as Hz; [done|].
  pose proof (cs_bounds q Hgeo). pose proof (Z.mod_pos_bound address (size_of_cluster q)).
  apply (ss_data _ _ _ Hs _ _ Hz). unfold cluster_of. lia.
Qed.

Lemma round_up_bound n d : 0 < d -> n <= div_round_up_u64 n d * d.
Proof.
  intros Hd. unfold div_round_up_u64. pose proof (Z.div_mod n d). pose proof (Z.mod_pos_bound n d). case_decide; lia.
Qed.

Section address.
Context (q : QcowFile) (Hgeo : geometry q) (address : Z) (Haddr : 0 <= address < virtual_size q).

Lemma l1_index_ok : exists a, vec (l1_table q) !! Z.to_nat (l1_table_index q address) = Some a.
Proof using Hgeo Haddr.
  apply lookup_lt_is_Some_2. pose proof (cs_bounds q Hgeo). pose proof (geo_l1 q Hgeo) as Hn. pose proof (l2_bytes q Hgeo) as Hb.
  unfold l1_table_index. rewrite (geo_l2 q Hgeo). unfold l2_size in Hb. unfold layout_l2, layout_clusters in Hn. fold (virtual_size q) in Hn.
  set (cs := size_of_cluster q) in *. set (e := cs / 8) in *. assert (0 < e) by lia. set (n := length _) in *.
  assert (address / cs / e < Z.of_nat n); [|assert (0 <= address / cs / e) by (apply Z.div_pos; [apply Z.div_pos|]; lia); lia].
  apply Z.div_lt_upper_bound; [done|]. apply Z.div_lt_upper_bound; [lia|].
  pose proof (round_up_bound (virtual_size q) cs ltac:(lia)). pose proof (round_up_bound (div_round_up_u64 (virtual_size q) cs) e ltac:(lia)). nia.
Qed.

Lemma l2_index_ok : (Z.to_nat (l2_table_index q address) < l2_size q)%nat.
Proof using Hgeo Haddr.
  unfold l2_table_index, l2_size. rewrite (geo_l2 q Hgeo). pose proof (l2_bytes q Hgeo) as Hb. pose proof (cs_bounds q Hgeo).
  unfold l2_size in Hb. pose proof (Z.mod_pos_bound (address / size_of_cluster q) (size_of_cluster q / 8)). lia.
Qed.

Lemma cluster_offset_mod : cluster_offset (raw_file q) address = address mod size_of_cluster q.
Proof using Hgeo.
  unfold cluster_offset. rewrite (geo_mask q Hgeo), (geo_cs q Hgeo). apply mask_offset. pose proof (geo_bits q Hgeo). lia.
Qed.
End address.

Lemma view_length pend held q i a : Inv pend held q -> vec (l1_table q) !! i = Some a -> a <> 0 -> length (l2_view q i) = l2_size q.
Proof.
  intros HI Ha Hne. unfold l2_view, table_view. rewrite Ha, decide_False by done.
  destruct (cmap (l2_cache q) !! i) as [t|] eqn:Ht; [|apply l2_disk_length].
  by destruct (rep_l2 q (inv_rep _ _ _ HI) _ _ Ht) as (_ & _ & _ & ? & _).
Qed.

(** An offset inside a cluster does not wrap. *)
Lemma offset_small pend held q o c address :
  Inv pend held q -> owns held q o c -> wadd 64 c (address mod size_of_cluster q) = c + address mod size_of_cluster q.
Proof.
  intros HI Ho. pose proof (placed_bounds _ _ _ _ _ HI Ho) as (_ & Hp & _ & _ & Hb). pose proof (cs_bounds q (inv_geo _ _ _ HI)).
  pose proof (Z.mod_pos_bound address (size_of_cluster q)). apply wadd_small. unfold in_width. lia.
Qed.

(** ** Looking up an address *)
Definition offset_of (q : QcowFile) (address : Z) : option Z :=
  if decide (cluster_of q address = 0) then None else Some (cluster_of q address + address mod size_of_cluster q).

(** The entry of an address, through the cache. *)
Lemma wp_lookup {A} pend held q address (f : Z -> QIO A) (Q : A -> QcowFile -> Prop) X a :
  Inv pend held q -> 0 <= address < virtual_size q ->
  vec (l1_table q) !! Z.to_nat (l1_table_index q address) = Some a -> a <> 0 ->
  (forall t q', Inv pend held q' -> keeps held q q' -> same_books q q' ->
     cmap (l2_cache q') !! Z.to_nat (l1_table_index q address) = Some t ->
     vec t !! Z.to_nat (l2_table_index q address) = Some (cluster_of q address) ->
     wp (f (cluster_of q address)) Q X q') ->
  wp (let* table := cached_l2 (l1_table_index q address) a in
      let* cluster_addr := l2_entry table (l2_table_index q address) in f cluster_addr) Q X q.
Proof.
  intros HI Haddr Ha Hne HQ. apply wp_bind, (wp_cached_l2 pend held); [done..|]. intros t q' HI' Hk Hb Ht Hv.
  pose proof (l2_index_ok q (inv_geo _ _ _ HI) address Haddr) as Hlt. rewrite <- (view_length _ _ _ _ _ HI Ha Hne) in Hlt.
  destruct (lookup_lt_is_Some_2 _ _ Hlt) as [c Hc]. assert (cluster_of q address = c) as Hcl by (unfold cluster_of, entry_of; by rewrite Hc).
  apply wp_bind. unfold l2_entry, vec_get. rewrite Hv, Hc. apply wp_ret. rewrite <- Hcl. apply (HQ t); [done..|]. by rewrite Hv, Hc, Hcl.
Qed.

Lemma cluster_of_none q address : vec (l1_table q) !! Z.to_nat (l1_table_index q address) = Some 0 -> cluster_of q address = 0.
Proof. intros Ha. unfold cluster_of, entry_of, l2_view, table_view. by rewrite Ha, decide_True. Qed.

Lemma cluster_owned held q address : cluster_of q address <> 0 ->
  owns held q (OData (Z.to_nat (l1_table_index q address)) (Z.to_nat (l2_table_index q address))) (cluster_of q address).
Proof. unfold cluster_of, entry_of. cbn. by destruct (l2_view q _ !! _). Qed.

Lemma wp_file_offset_read pend held q address (Q : option Z -> QcowFile -> Prop) X :
  Inv pend held q -> 0 <= address < virtual_size q ->
  (forall q', Inv pend held q' -> keeps held q q' -> same_books q q' -> Q (offset_of q address) q') ->
  wp (file_offset_read address) Q X q.
Proof.
  intros HI Haddr HQ. unfold file_offset_read. apply wp_bind, wp_get. rewrite decide_False by lia.
  destruct (l1_index_ok q (inv_geo _ _ _ HI) address Haddr) as [a Ha]. unfold vec_get. rewrite Ha. case_decide as Hz.
  { subst a. apply wp_ret. pose proof (HQ q HI (keeps_self _ _)) as HQ'. unfold offset_of in HQ'.
    rewrite (cluster_of_none q address Ha), decide_True in HQ' by done. by apply HQ'. }
  apply (wp_lookup pend held q address _ _ _ a); [done..|]. intros t q' HI' Hk Hb Ht Hv.
  specialize (HQ q' HI' Hk Hb). unfold offset_of in HQ. case_decide as Hc; [by apply wp_ret|]. apply wp_ret.
  rewrite (cluster_offset_mod q (inv_geo _ _ _ HI)), (offset_small pend held q _ _ _ HI (cluster_owned held q address Hc)). done.
Qed.

Lemma wp_cluster_allocated pend held q address (Q : bool -> QcowFile -> Prop) X :
  Inv pend held q -> 0 <= address < virtual_size q ->
  (forall q', Inv pend held q' -> keeps held q q' -> same_books q q' -> Q (bool_decide (cluster_of q address <> 0)) q') ->
  wp (cluster_allocated address) Q X q.
Proof.
  intros HI Haddr HQ. unfold cluster_allocated. apply wp_bind, wp_get. rewrite decide_False by lia.
  destruct (l1_index_ok q (inv_geo _ _ _ HI) address Haddr) as [a Ha]. unfold vec_get. rewrite Ha. destruct (decide (a = 0)) as [Hz|Hz].
  { subst a. apply wp_ret. specialize (HQ q HI (keeps_self _ _)). rewrite (cluster_of_none q address Ha) in HQ. by apply HQ. }
  apply (wp_lookup pend held q address _ _ _ a); [done..|]. intros t q' HI' Hk Hb Ht Hv. by apply wp_ret, HQ.
Qed.
