(* ===== verification/QcowWrite.v ===== *)
(** Allocating the cluster of an address of a qcow2 image: the disk reads as before, and the
    image stays consistent. *)
From stdpp Require Import base numbers list gmap.
From S2P Require Import Prelude Bytes RawFile QcowTables QcowHeader QcowImage QcowDisk QcowInv QcowSteps QcowCount QcowLookup.

#[local] Open Scope Z_scope.

Section write.
Context `{Hhost : HostFile, Hlaws : !HostFileLaws}.

(** ** The table of an address *)
Lemma sees_l1 pend held q li x :
  let i := Z.to_nat li in
  Inv (x :: pend) (x :: held) q -> vec (l1_table q) !! i = Some 0 -> x <> 0 ->
  (forall y, x <= y < x + size_of_cluster q -> fbyte (img q) y = 0) ->
  let q' := set_l1_table (vec_set li x (l1_table q)) q in
  Inv (x :: pend) held q' /\ sees held q q' /\ vec (l1_table q') !! i = Some x.
Proof.
  intros i HI Ha Hx Hz q'. assert (x ∈ x :: pend) as Hp by set_solver.
  pose proof (inv_set_l1 (x :: pend) held q li 0 x HI Ha Hx Hp (or_intror (conj eq_refl Hz))) as HI'.
  pose proof (sl_view (x :: pend) held q li 0 x HI Ha Hx Hp (or_intror (conj eq_refl Hz))) as Hv.
  pose proof (sl_new (x :: pend) held q li 0 x HI Ha Hx Hp (or_intror (conj eq_refl Hz))) as Hn.
  split; [by apply inv_held_drop in HI'|]. split; [|exact Hn]. split; try done. intros k j. unfold entry_of. rewrite Hv.
  destruct (decide (k = i)) as [->|Hk]; [rewrite decide_True by done|by rewrite decide_False by naive_solver].
  assert (l2_view q i = []) as -> by (unfold l2_view, table_view; by rewrite Ha, decide_True).
  destruct (replicate _ 0 !! j) as [v|] eqn:Hr; [|done]. by apply lookup_replicate in Hr as [-> _].
Qed.

Lemma wp_l2_for_write pend held q li a0 (Q : list (Z * Z) -> QcowFile -> Prop) (X : io_error -> QcowFile -> Prop) :
  let i := Z.to_nat li in
  Inv pend held q -> vec (l1_table q) !! i = Some a0 ->
  (forall sr q' t a1, Inv (sr.*1 ++ pend) held q' -> sees held q q' -> cmap (l2_cache q') !! i = Some t ->
     vec (l1_table q') !! i = Some a1 -> sr = [] \/ sr = [(a1, 1)] -> Q sr q') ->
  (forall q', sees held q q' -> X (OsError ENOSPC) q') ->
  wp (l2_for_write li a0) Q X q.
Proof.
  intros i HI Ha HQ HX. unfold l2_for_write. apply wp_bind, wp_get. fold i. destruct (cmap (l2_cache q) !! i) as [t|] eqn:Ht.
  { apply wp_ret. apply (HQ [] q t a0); [done|apply keeps_sees, keeps_self|done|done|by left]. }
  destruct (decide (a0 = 0)) as [->|Hne].
  - apply wp_bind, (wp_get_new_cluster pend held); [done| |].
    2:{ intros q' HI' (Hk & _) _. by apply HX, keeps_sees. }
    intros x q1 HI1 Hx Hz (Hk1 & (Hl1 & Hc1 & _) & Hr1 & Hb1) _.
    apply (inv_pend _ (x :: pend)) in HI1; [|set_solver]. rewrite <- (ks_cs _ _ _ Hk1) in Hz. rewrite <- Hl1 in Ha.
    apply wp_bind, wp_modify. destruct (sees_l1 pend held q1 li x HI1 Ha Hx Hz) as (HI2 & Hs2 & Hn2). set (q2 := set_l1_table _ q1) in *.
    assert (cmap (l2_cache q2) !! i = None) as Hnone by (unfold q2; cbn; by rewrite Hc1).
    apply wp_bind, (wp_insert_l2 (x :: pend) held q2); [done| |..|done|].
    + exists x. fold i. fold i in Hn2. split; [done|]. split; [done|]. split; [unfold l2_view, table_view; by rewrite Hn2, decide_False, Hnone|].
      apply (rep_plain q2 (inv_rep _ _ _ HI2) i); [done..|]. intros (t & Ht' & _). congruence.
    + fold i. pose proof (sl_view (x :: pend) held q1 li 0 x HI1 Ha Hx ltac:(set_solver) (or_intror (conj eq_refl Hz)) i) as Hv.
      rewrite decide_True in Hv by done. etrans; [|symmetry; exact Hv]. cbn.
      rewrite (geo_l2 q (inv_geo _ _ _ HI)). unfold l2_size. by rewrite (ks_cs _ _ _ Hk1).
    + intros q3 HI3 Hk3 Hb3 Ht3. apply wp_ret. apply (HQ [(x, 1)] q3 (vec_new (l2_entries q)) x); [done| |done| |by right].
      * apply (sees_trans held q q1); [by apply keeps_sees|]. apply (sees_trans held q1 q2); [done|by apply keeps_sees].
      * destruct Hb3 as (Hb3 & _). by rewrite Hb3.
  - assert (~ modified (l2_cache q) i) as Hm by (intros (t & Ht' & _); congruence).
    apply wp_bind, (wp_read_l2 pend held q a0 _ _ i); [done..|]. intros r Hr.
    destruct (put_kept _ _ _ _ HI Hr) as (HI1 & Hk1 & Hv1). set (q1 := put_file r q) in *.
    assert (img q1 = img q) as Himg by apply Hr.
    assert (l2_view q i = l2_disk q a0) as Hview by (unfold l2_view, table_view; by rewrite Ha, decide_False, Ht).
    apply wp_bind, (wp_insert_l2 pend held q1); [done| |by cbn; fold i; rewrite (ks_l2 _ _ _ Hk1)|done|].
    + exists a0. fold i. split; [done|]. split; [done|]. split; [rewrite (ks_l2 _ _ _ Hk1), Hview; unfold l2_disk; by rewrite Himg|].
      rewrite Himg. by apply (rep_plain q (inv_rep _ _ _ HI) i).
    + intros q2 HI2 Hk2 (Hb2 & _) Ht2. apply wp_ret. apply (HQ [] q2 (from_vec (l2_disk q a0)) a0); [done| |done| |by left].
      * apply keeps_sees. by apply (keeps_trans held q q1).
      * by rewrite Hb2.
Qed.

(** ** A data cluster *)
Lemma wp_append_unref u (Q : unit -> QcowFile -> Prop) (X : io_error -> QcowFile -> Prop) q :
  Q tt (set_clusters (unref_clusters q ++ u) (avail_clusters q) q) -> wp (append_unref u) Q X q.
Proof. done. Qed.

Lemma keeps_clusters held q u v : keeps held q (set_clusters u v q).
Proof. by split. Qed.

Lemma wp_append_data_cluster pend held q (Q : Z -> QcowFile -> Prop) (X : io_error -> QcowFile -> Prop) :
  Inv pend held q ->
  (forall x q', Inv pend (x :: held) q' -> x <> 0 -> keeps held q q' -> l1_table q' = l1_table q -> l2_cache q' = l2_cache q ->
     (forall y, x <= y < x + size_of_cluster q -> fbyte (img q') y = 0) -> 1 <= refcount_of q' x -> Q x q') ->
  (forall q', keeps held q q' -> X (OsError ENOSPC) q') ->
  wp append_data_cluster Q X q.
Proof.
  intros HI HQ HX. unfold append_data_cluster. apply wp_bind, (wp_get_new_cluster pend held); [done| |].
  2:{ intros q' HI' (Hk & _) _. by apply HX. }
  intros x q1 HI1 Hx Hz (Hk1 & (Hl1 & Hc1 & _) & Hr1 & Hb1) _.
  pose proof (owned_countable _ _ _ (OHeld 0) x HI1 (conj eq_refl Hx)) as Hcx.
  apply wp_bind, (wp_set_cluster_refcount pend (x :: held) q1 x 1); [done|done|by split|right; lia|..].
  - intros u q2 [HI2 Hk2 (Hl2 & Hc2 & _) Hcnt2 Ho2 Hu2]. apply wp_bind, wp_append_unref, wp_ret.
    pose proof (keeps_sub _ held _ _ Hk2 ltac:(set_solver)) as Hk2'.
    apply HQ; [by apply inv_append_unref|done| |by rewrite <- Hl1, <- Hl2|by rewrite <- Hc1, <- Hc2|..|by apply Hcnt2].
    + apply (keeps_trans held q q1); [done|]. apply (keeps_trans held q1 q2); [done|apply keeps_clusters].
    + intros y Hy. rewrite <- (ks_cs _ _ _ Hk1) in Hy. change (fbyte (img q2) y = 0).
      rewrite (ks_held _ _ _ Hk2 x) by (done || set_solver). apply Hz. by rewrite <- (ks_cs _ _ _ Hk1).
  - intros pend' q' HI' Hk' _. apply HX. apply (keeps_trans held q q1); [done|]. apply (keeps_sub _ _ _ _ Hk'). set_solver.
Qed.

(** ** Entering it in the table *)
Definition set_unref (u : list Z) (q : QcowFile) : QcowFile := set_clusters u (avail_clusters q) q.

(** Allocating does not look at the clusters that are no longer referenced. *)
Lemma wp_get_new_cluster_unref u (Q : Z -> QcowFile -> Prop) X q :
  wp get_new_cluster (fun x q' => Q x (set_unref u q')) (fun e q' => X e (set_unref u q')) q -> wp get_new_cluster Q X (set_unref u q).
Proof.
  unfold wp, get_new_cluster, bind, get, modify, in_raw, zoom, set_unref, set_clusters, set_raw_file, ret, throw. cbn -[zero_cluster add_cluster_end].
  destruct (last (avail_clusters q)) as [a|]; cbn -[zero_cluster add_cluster_end].
  - destruct (zero_cluster a (raw_file q)) as [[] raw']; done.
  - destruct (add_cluster_end _ (raw_file q)) as [[[x|]| |] raw']; done.
Qed.

(** The entry [(i, j)] is the only one that changed. *)
Record entered (held : list Z) (i j : nat) (c : Z) (q q' : QcowFile) : Prop := {
  en_header : header q' = header q;
  en_cs : size_of_cluster q' = size_of_cluster q;
  en_offset : current_offset q' = current_offset q;
  en_entries : l2_entries q' = l2_entries q;
  en_max : max_valid_cluster_offset (refcounts q') = max_valid_cluster_offset (refcounts q);
  en_l2 k l : entry_of q' k l = if decide ((k, l) = (i, j)) then c else entry_of q k l;
  en_data k l : entry_of q k l <> 0 -> same_cluster q q' (entry_of q k l);
  en_held a : a ∈ held -> a <> 0 -> same_cluster q q' a;
}.

Lemma se_entry pend held q li lj e0 e1 t k l :
  let i := Z.to_nat li in let j := Z.to_nat lj in
  Inv pend (e1 :: held) q -> cmap (l2_cache q) !! i = Some t -> vec t !! j = Some e0 ->
  (e1 <> 0 -> e1 ∈ pend \/ 1 <= refcount_of q e1) ->
  entry_of (set_l2_entry li lj e1 q) k l = if decide ((k, l) = (i, j)) then e1 else entry_of q k l.
Proof.
  intros i j HI Ht He Hp. pose proof (se_view pend held q li lj e0 e1 t HI Ht He Hp k) as Hv.
  pose proof (se_old pend held q li lj e0 e1 t HI Ht He Hp) as Ho. unfold entry_of. rewrite Hv. fold i j.
  destruct (decide (k = i)) as [->|Hk]; [|by rewrite decide_False by naive_solver].
  destruct (decide (l = j)) as [->|Hl].
  - rewrite decide_True, list_lookup_insert_eq by (done || by eapply lookup_lt_Some). done.
  - by rewrite decide_False, list_lookup_insert_ne by naive_solver.
Qed.

Lemma entry_moved li lj x c a u q1 :
  unref_clusters q1 ++ [a] = u ->
  set_l2_entry li lj c (set_l1_table (vec_set li x (l1_table (set_unref u q1))) (set_unref u q1)) =
  (let q2 := dirty_l2 (Z.to_nat li) q1 in let q4 := set_l2_entry li lj c (set_l1_table (vec_set li x (l1_table q2)) q2) in
   set_clusters (unref_clusters q4 ++ [a]) (avail_clusters q4) q4).
Proof.
  intros <-. unfold set_unref, dirty_l2, set_l2_entry, set_l1_table, set_l2_cache, set_clusters, set_cmap. cbn. do 2 f_equal.
  apply map_eq. intros k. destruct (decide (Z.to_nat li = k)) as [->|Hk].
  - rewrite !lookup_alter_eq. by destruct (cmap (l2_cache q1) !! k).
  - by rewrite !lookup_alter_ne.
Qed.

Lemma wp_update_cluster_addr pend held q li lj c sr a t (Q : list (Z * Z) -> QcowFile -> Prop) (X : io_error -> QcowFile -> Prop) :
  let i := Z.to_nat li in let j := Z.to_nat lj in
  Inv pend (c :: held) q -> cmap (l2_cache q) !! i = Some t -> vec t !! j = Some 0 -> c <> 0 -> 1 <= refcount_of q c ->
  vec (l1_table q) !! i = Some a ->
  (forall q', Inv pend held q' -> entered (c :: held) i j c q q' -> Q sr q') ->
  (forall x q', Inv (x :: pend) held q' -> entered (c :: held) i j c q q' -> a ∈ unref_clusters q' -> countable q' a -> countable q' x ->
     Q (sr ++ [(a, 0)] ++ [(x, 1)]) q') ->
  (forall q', keeps (c :: held) q q' -> X (OsError ENOSPC) q') ->
  wp (update_cluster_addr li lj c sr) Q X q.
Proof.
  intros i j HI Ht He Hc Hrc Ha HQd HQc HX. unfold update_cluster_addr. apply wp_bind, wp_get. fold i. rewrite Ht.
  destruct (rep_l2 q (inv_rep _ _ _ HI) _ _ Ht) as (a' & Ha' & Hne & _). rewrite Ha in Ha'. injection Ha' as <-.
  destruct (dirty t) eqn:Hd.
  - apply wp_bind, wp_ret, wp_bind, wp_modify, wp_ret, HQd.
    + apply (inv_held_drop _ 0). apply (inv_set_entry pend held q li lj 0 c t); [done..|by right].
    + split; try done. intros k l. apply (se_entry pend held q li lj 0 c t); [done..|by right].
  - apply wp_bind. unfold vec_get. fold i. rewrite Ha, decide_True by done.
    apply wp_bind, wp_bind, wp_append_unref, wp_ret, wp_bind.
    fold (set_unref (unref_clusters q ++ [a]) q). apply wp_get_new_cluster_unref.
    apply (wp_get_new_cluster pend (c :: held)); [done| |].
    2:{ intros q' HI' (Hk & _) _. apply HX. apply (keeps_trans _ q q'); [done|apply keeps_clusters]. }
    intros x q1 HI1 Hx Hz (Hk1 & (Hl1 & Hc1 & Hu1) & Hr1 & Hb1) _.
    apply wp_bind, wp_modify, wp_ret, wp_bind, wp_modify, wp_ret. rewrite (entry_moved li lj x c a) by (by rewrite Hu1). cbn zeta.
    fold i. apply (inv_pend _ (x :: pend)) in HI1; [|set_solver].
    destruct (inv_dirty_l2 _ _ _ i HI1) as [HI2 Hs2]. set (q2 := dirty_l2 i q1) in *.
    assert (cmap (l2_cache q2) !! i = Some (dirtied t)) as Ht2 by (unfold q2; cbn; rewrite lookup_alter_eq, Hc1; by rewrite Ht).
    assert (vec (l1_table q2) !! i = Some a) as Ha2 by (unfold q2; cbn; by rewrite Hl1).
    assert (modified (l2_cache q2) i) as Hm2 by (by exists (dirtied t)). assert (x ∈ x :: pend) as Hxp by set_solver.
    pose proof (inv_set_l1 (x :: pend) (c :: held) q2 li a x HI2 Ha2 Hx Hxp (or_introl Hm2)) as HI3.
    pose proof (sl_view (x :: pend) (c :: held) q2 li a x HI2 Ha2 Hx Hxp (or_introl Hm2)) as Hv3.
    pose proof (sl_new (x :: pend) (c :: held) q2 li a x HI2 Ha2 Hx Hxp (or_introl Hm2)) as Hn3.
    set (q3 := set_l1_table (vec_set li x (l1_table q2)) q2) in *. apply inv_held_swap in HI3.
    assert (1 <= refcount_of q3 c) as Hrc3.
    { assert (refcount_of q3 c = refcount_of q c) as ->; [|done]. apply refcount_same; [apply Hk1|apply Hb1]. }
    pose proof (inv_set_entry (x :: pend) (a :: held) q3 li lj 0 c (dirtied t) HI3 Ht2 He (fun _ => or_intror Hrc3)) as HI4.
    pose proof (fun k l => se_entry (x :: pend) (a :: held) q3 li lj 0 c (dirtied t) k l HI3 Ht2 He (fun _ => or_intror Hrc3)) as He4.
    set (q4 := set_l2_entry li lj c q3) in *. apply inv_held_drop in HI4.
    rewrite <- app_assoc. apply HQc.
    + apply (inv_append_unref _ [a]); [done|by constructor].
    + split; [apply Hk1|apply Hk1|apply Hk1|apply Hk1|apply Hk1|..].
      * intros k l. etrans; [apply He4|]. case_decide; [done|]. unfold entry_of. rewrite Hv3, (decide_False (P := _ /\ _)) by (by intros [_ ?]).
        rewrite (sa_l2 _ _ Hs2), (ks_l2 _ _ _ Hk1). done.
      * intros k l. exact (ss_data _ _ _ (keeps_sees _ _ _ Hk1) k l).
      * apply (ks_held _ _ _ Hk1).
    + cbn. set_solver.
    + apply (owned_countable _ _ _ (OHeld 0) a HI4). done.
    + apply (owned_countable _ _ _ (OL2 i) x HI4). done.
Qed.

(** ** Counting what was allocated *)
Lemma inv_unpend pend a held q o : Inv (a :: pend) held q -> owns held q o a -> ~ counted o -> Inv pend held q.
Proof.
  intros [? ? Hal ? Hc] Ho Hn. split; [done..|]. intros o' b Ho' Hb Hnot. apply (Hc o'); [done..|].
  intros Hin. apply elem_of_cons in Hin as [->|]; [|done]. apply Hn.
  assert (owns held q o' a) as Hown by (by destruct o'). by rewrite (al_distinct _ _ Hal _ _ _ Ho Hown).
Qed.

Lemma wp_apply_refcounts sr pend held q (Q : unit -> QcowFile -> Prop) (X : io_error -> QcowFile -> Prop) :
  Inv (sr.*1 ++ pend) held q ->
  Forall (fun '(a, n) => countable q a /\ in_width 16 n /\ (1 <= n \/ a ∈ unref_clusters q)) sr ->
  (forall q', Inv pend held q' -> keeps held q q' -> Q tt q') ->
  (forall q', keeps held q q' -> X (OsError ENOSPC) q') ->
  wp (apply_refcounts sr) Q X q.
Proof.
  revert q. induction sr as [|[a n] sr IH]; intros q HI Hsr HQ HX; [apply wp_ret, HQ; [done|apply keeps_self]|].
  apply Forall_cons in Hsr as [(Ha & Hn & Hcase) Hsr]. cbn [apply_refcounts fmap list_fmap fst app] in *.
  apply wp_bind, (wp_set_cluster_refcount (a :: sr.*1 ++ pend) held); [done..|left; set_solver| |].
  2:{ intros pend' q' _ Hk _. by apply HX. }
  intros u q1 [HI1 Hk1 (_ & _ & Hu1) Hc1 _ Hu]. apply wp_bind, wp_append_unref.
  apply inv_append_unref in HI1; [|done]. set (q2 := set_clusters _ _ q1) in *.
  assert (keeps held q q2) as Hk2 by (apply (keeps_trans _ q q1); [done|apply keeps_clusters]).
  assert (Inv (sr.*1 ++ pend) held q2) as HI2.
  { destruct Hcase as [H1|Hin].
    - apply (inv_settled _ a); [done|]. change (1 <= refcount_of q1 a). by apply Hc1.
    - apply list_elem_of_lookup in Hin as [k Hk]. apply (inv_unpend _ a _ _ (OUnref k)); [done| |by intros []].
      cbn. rewrite Hu1. by apply lookup_app_l_Some. }
  apply IH; [done|..].
  - eapply Forall_impl; [done|]. intros [b m] ([Hb1 Hb2] & Hm & Hor). split_and!; [split|done|].
    + by rewrite (ks_cs _ _ _ Hk2).
    + by rewrite (ks_max _ _ _ Hk2).
    + destruct Hor; [by left|right]. cbn. rewrite Hu1. set_solver.
  - intros q' HI' Hk'. apply HQ; [done|]. by apply (keeps_trans _ q q2).
  - intros q' Hk'. apply HX. by apply (keeps_trans _ q q2).
Qed.

(** ** The offset of an address, allocated if need be *)
Record same_disk (q q' : QcowFile) : Prop := {
  sd_header : header q' = header q;
  sd_cs : size_of_cluster q' = size_of_cluster q;
  sd_offset : current_offset q' = current_offset q;
  sd_entries : l2_entries q' = l2_entries q;
  sd_content address : content q' address = content q address;
}.
Lemma same_disk_trans q q1 q2 : same_disk q q1 -> same_disk q1 q2 -> same_disk q q2.
Proof. intros [? ? ? ? H1] [? ? ? ? H2]. split; [congruence..|]. intros address. by rewrite H2. Qed.
Lemma sees_disk held q q' : geometry q -> sees held q q' -> same_disk q q'.
Proof. intros Hg Hs. split; [apply Hs..|]. intros address. by apply (content_sees held). Qed.
Lemma keeps_disk held q q' : geometry q -> keeps held q q' -> same_disk q q'.
Proof. intros Hg Hk. by apply (sees_disk held), keeps_sees. Qed.

Lemma entered_disk held i j c q q' :
  geometry q -> entered (c :: held) i j c q q' -> c <> 0 -> entry_of q i j = 0 ->
  (forall y, c <= y < c + size_of_cluster q -> fbyte (img q) y = 0) -> same_disk q q'.
Proof.
  intros Hg [Hh Hc Ho He _ H2 Hd Hl] Hne H0 Hz. split; [done..|]. intros address.
  pose proof (cs_bounds q Hg). pose proof (Z.mod_pos_bound address (size_of_cluster q)).
  set (ij := (Z.to_nat (l1_table_index q address), Z.to_nat (l2_table_index q address))).
  assert (cluster_of q' address = if decide (ij = (i, j)) then c else cluster_of q address) as Hcl.
  { unfold cluster_of. rewrite H2. unfold l1_table_index, l2_table_index. by rewrite Hc, He. }
  rewrite !content_cluster, Hcl, Hc. destruct (decide (ij = (i, j))) as [Heq|Hneq].
  - assert (cluster_of q address = 0) as -> by (unfold ij in Heq; injection Heq as Hi Hj; unfold cluster_of; by rewrite Hi, Hj).
    rewrite decide_False, (decide_True (P := 0 = 0)) by done. rewrite (Hl c); [apply Hz; lia|set_solver|done|lia].
  - case_decide as Hcl0; [done|]. apply (Hd _ _ Hcl0). fold (cluster_of q address). lia.
Qed.

(** What is left to do once the table is cached. *)
Definition finish_write (li lj offset e : Z) (sr : list (Z * Z)) : QIO Z :=
  let* (cluster_addr, set_refcounts) :=
    if decide (e = 0) then
      let* cluster_addr := append_data_cluster in
      let* set_refcounts := update_cluster_addr li lj cluster_addr sr in
      ret (cluster_addr, set_refcounts)
    else ret (e, sr) in
  apply_refcounts set_refcounts ;;;
  ret (wadd 64 cluster_addr offset).

Definition to_count (q : QcowFile) (sr : list (Z * Z)) : Prop :=
  Forall (fun '(a, n) => countable q a /\ in_width 16 n /\ (1 <= n \/ a ∈ unref_clusters q)) sr.

Lemma wp_finish_allocated pend held q li lj offset e sr (Q : Z -> QcowFile -> Prop) (X : io_error -> QcowFile -> Prop) :
  Inv (sr.*1 ++ pend) held q -> to_count q sr -> e <> 0 ->
  (forall q', Inv pend held q' -> keeps held q q' -> Q (wadd 64 e offset) q') ->
  (forall q', same_disk q q' -> X (OsError ENOSPC) q') -> wp (finish_write li lj offset e sr) Q X q.
Proof.
  intros HI Hsr He HQ HX. unfold finish_write. rewrite decide_False by done. apply wp_bind, wp_ret, wp_bind.
  apply (wp_apply_refcounts sr pend held); [done..| |].
  - intros q' HI' Hk. by apply wp_ret, HQ.
  - intros q' Hk. apply HX. by apply (keeps_disk held); [apply HI|].
Qed.

Lemma wp_finish_new pend held q li lj offset sr a t (Q : Z -> QcowFile -> Prop) (X : io_error -> QcowFile -> Prop) :
  let i := Z.to_nat li in let j := Z.to_nat lj in
  Inv (sr.*1 ++ pend) held q -> sr = [] \/ sr = [(a, 1)] ->
  cmap (l2_cache q) !! i = Some t -> vec t !! j = Some 0 -> vec (l1_table q) !! i = Some a ->
  (forall c q', Inv pend held q' -> same_disk q q' -> c <> 0 -> entry_of q' i j = c -> Q (wadd 64 c offset) q') ->
  (forall q', same_disk q q' -> X (OsError ENOSPC) q') -> wp (finish_write li lj offset 0 sr) Q X q.
Proof.
  intros i j HI Hcase Ht He Ha HQ HX. pose proof (inv_geo _ _ _ HI) as Hgeo.
  assert (entry_of q i j = 0) as He0.
  { unfold entry_of, l2_view. by rewrite (view_cached _ _ _ _ _ _ Ht (rep_l2 q (inv_rep _ _ _ HI) _ _ Ht)), He. }
  unfold finish_write. rewrite decide_True by done. apply wp_bind, wp_bind, (wp_append_data_cluster (sr.*1 ++ pend) held); [done| |].
  2:{ intros q' Hk. by apply HX, (keeps_disk held). }
  intros c q1 HI1 Hc Hk1 Hl1 Hc1 Hz Hrc. pose proof (keeps_disk held q q1 Hgeo Hk1) as Hd1.
  assert (entry_of q1 i j = 0) as He1 by (rewrite <- He0; apply (ss_l2 _ _ _ (keeps_sees _ _ _ Hk1))).
  rewrite <- (ks_cs _ _ _ Hk1) in Hz.
  assert (forall sr' q2, Inv (sr'.*1 ++ pend) held q2 -> entered (c :: held) i j c q1 q2 -> to_count q2 sr' ->
    wp (apply_refcounts sr' ;;; ret (wadd 64 c offset)) Q X q2) as Hfinish.
  { intros sr' q2 HI2 Hen Hsr2. assert (same_disk q q2) as Hd2.
    { apply (same_disk_trans q q1); [done|]. by apply (entered_disk held i j c); [apply HI1|..]. }
    apply wp_bind, (wp_apply_refcounts sr' pend held); [done..| |].
    - intros q3 HI3 Hk3. apply wp_ret, HQ; [done| |done|].
      + apply (same_disk_trans q q2); [done|]. by apply (keeps_disk held); [apply HI2|].
      + rewrite (ss_l2 _ _ _ (keeps_sees _ _ _ Hk3)), (en_l2 _ _ _ _ _ _ Hen), decide_True by done. done.
    - intros q3 Hk3. apply HX. apply (same_disk_trans q q2); [done|]. by apply (keeps_disk held); [apply HI2|]. }
  rewrite <- Hl1 in Ha. rewrite <- Hc1 in Ht.
  assert (forall q2, entered (c :: held) i j c q1 q2 -> to_count q2 sr) as Hsr2.
  { intros q2 Hen. destruct Hcase as [->| ->]; [by apply Forall_nil|]. apply Forall_singleton. split_and!; [|done|by left].
    destruct (rep_l2 q1 (inv_rep _ _ _ HI1) _ _ Ht) as (a' & Ha' & Hne & _). rewrite Ha in Ha'. injection Ha' as <-.
    destruct (owned_countable _ _ _ (OL2 i) a HI1 (conj Ha Hne)). split; [by rewrite (en_cs _ _ _ _ _ _ Hen)|by rewrite (en_max _ _ _ _ _ _ Hen)]. }
  apply wp_bind, (wp_update_cluster_addr (sr.*1 ++ pend) held q1 li lj c sr a t); [done..| | |].
  - intros q2 HI2 Hen. apply wp_ret, Hfinish; [done..|by apply Hsr2].
  - intros x q2 HI2 Hen Hin Hca Hcx. apply wp_ret. apply Hfinish; [|done|].
    + eapply inv_pend; [exact HI2|]. rewrite !fmap_app. cbn. set_solver.
    + apply Forall_app. split; [by apply Hsr2|]. constructor; [|constructor; [|done]]; split_and!; try done; [by right|by left].
  - intros q2 Hk2. apply HX. apply (same_disk_trans q q1); [done|]. by apply (keeps_disk (c :: held)); [apply HI1|].
Qed.

Lemma wp_file_offset_write pend held q address (Q : Z -> QcowFile -> Prop) (X : io_error -> QcowFile -> Prop) :
  Inv pend held q -> 0 <= address < virtual_size q ->
  (forall q', Inv pend held q' -> same_disk q q' -> cluster_of q' address <> 0 ->
     Q (cluster_of q' address + address mod size_of_cluster q) q') ->
  (forall q', same_disk q q' -> X (OsError ENOSPC) q') ->
  wp (file_offset_write address) Q X q.
Proof.
  intros HI Haddr HQ HX. pose proof (inv_geo _ _ _ HI) as Hgeo. unfold file_offset_write. apply wp_bind, wp_get. rewrite decide_False by lia.
  destruct (l1_index_ok q Hgeo address Haddr) as [a0 Ha0]. unfold vec_get. rewrite Ha0.
  apply wp_bind, (wp_l2_for_write pend held); [done..| |].
  2:{ intros q' Hs. by apply HX, (sees_disk held). }
  intros sr q1 t a1 HI1 Hs1 Ht1 Ha1 Hsr. pose proof (sees_disk _ _ _ Hgeo Hs1) as Hd1. apply wp_bind, wp_get. rewrite Ht1.
  destruct (rep_l2 q1 (inv_rep _ _ _ HI1) _ _ Ht1) as (a' & Ha' & Hne & Hlen & _). rewrite Ha1 in Ha'. injection Ha' as <-.
  pose proof (l2_index_ok q Hgeo address Haddr) as Hlt. unfold l2_size in Hlen, Hlt. rewrite <- (sd_cs _ _ Hd1), <- Hlen in Hlt.
  destruct (lookup_lt_is_Some_2 _ _ Hlt) as [e He]. apply wp_bind. unfold l2_entry, vec_get. rewrite He. apply wp_ret.
  assert (entry_of q1 (Z.to_nat (l1_table_index q address)) (Z.to_nat (l2_table_index q address)) = e) as Hentry.
  { unfold entry_of, l2_view. by rewrite (view_cached _ _ _ _ _ _ Ht1 (rep_l2 q1 (inv_rep _ _ _ HI1) _ _ Ht1)), He. }
  rewrite (cluster_offset_mod q Hgeo).
  assert (forall q' c, Inv pend held q' -> same_disk q1 q' ->
    entry_of q' (Z.to_nat (l1_table_index q address)) (Z.to_nat (l2_table_index q address)) = c -> c <> 0 ->
    Q (wadd 64 c (address mod size_of_cluster q)) q') as Hend.
  { intros q' c HI' Hd' Hc Hc0. assert (same_disk q q') as Hdq by by apply (same_disk_trans q q1).
    assert (cluster_of q' address = c) as Hcl.
    { unfold cluster_of, l1_table_index, l2_table_index. rewrite (sd_cs _ _ Hdq), (sd_entries _ _ Hdq). done. }
    rewrite <- (sd_cs _ _ Hdq), <- Hcl. rewrite <- Hcl in Hc0.
    rewrite (offset_small pend held q' _ _ _ HI' (cluster_owned held q' address Hc0)), (sd_cs _ _ Hdq). by apply HQ. }
  fold (finish_write (l1_table_index q address) (l2_table_index q address) (address mod size_of_cluster q) e sr).
  destruct (decide (e = 0)) as [->|He0].
  - apply (wp_finish_new pend held q1 _ _ _ _ a1 t); [done..| |].
    + intros c q' HI' Hd' Hc Hent. by apply Hend.
    + intros q' Hd'. apply HX. by apply (same_disk_trans q q1).
  - apply (wp_finish_allocated pend held); [done| |done|..].
    + destruct Hsr as [->| ->]; [by apply Forall_nil|]. apply Forall_singleton. split_and!; [|done|by left].
      by apply (owned_countable _ _ _ (OL2 (Z.to_nat (l1_table_index q address))) a1 HI1).
    + intros q' HI' Hk'. apply Hend; [done|by apply (keeps_disk held); [apply HI1|]| |done].
      by rewrite (ss_l2 _ _ _ (keeps_sees _ _ _ Hk')).
    + intros q' Hd'. apply HX. by apply (same_disk_trans q q1).
Qed.
End write.
