(* ===== verification/QcowIo.v ===== *)
(** Reading, writing and deallocating: the bytes of a qcow2 image are read and written as
    those of a flat file are, and a range that is deallocated reads as zeroes. *)
From stdpp Require Import base numbers list gmap.
From S2P Require Import Prelude Bytes RawFile QcowTables QcowHeader QcowImage QcowDisk QcowInv QcowSteps QcowCount QcowLookup QcowWrite.

#[local] Open Scope Z_scope.

(** ** The disk as a flat array of bytes *)
Definition put_bytes (a : Z) (bs : list Z) (g : Z -> Z) (x : Z) : Z :=
  if decide (a <= x < a + Z.of_nat (length bs)) then bs !!! Z.to_nat (x - a) else g x.
Definition put_zeroes (a n : Z) (g : Z -> Z) (x : Z) : Z := if decide (a <= x < a + n) then 0 else g x.
Definition get_bytes (g : Z -> Z) (a n : Z) : list Z := g <$> seqZ a n.

Lemma put_bytes_nil a g x : put_bytes a [] g x = g x.
Proof. unfold put_bytes. cbn. by rewrite decide_False by lia. Qed.
Lemma put_bytes_app a bs bs' g x :
  put_bytes a (bs ++ bs') g x = put_bytes (a + Z.of_nat (length bs)) bs' (put_bytes a bs g) x.
Proof.
  unfold put_bytes. rewrite length_app. destruct (decide (x < a + Z.of_nat (length bs))) as [Hx|Hx].
  - rewrite (decide_False (P := a + Z.of_nat (length bs) <= x < _)) by lia.
    destruct (decide (a <= x)); [|by rewrite !decide_False by lia]. by rewrite !decide_True, lookup_total_app_l by lia.
  - destruct (decide (x < a + Z.of_nat (length bs) + Z.of_nat (length bs'))); [|by rewrite !decide_False by lia].
    rewrite !decide_True, lookup_total_app_r by lia. f_equal. lia.
Qed.
Lemma put_zeroes_app a n m g x : 0 <= n -> 0 <= m -> put_zeroes a (n + m) g x = put_zeroes (a + n) m (put_zeroes a n g) x.
Proof. intros Hn Hm. unfold put_zeroes. repeat case_decide; lia. Qed.
Lemma get_bytes_app g a n m : 0 <= n -> 0 <= m -> get_bytes g a (n + m) = get_bytes g a n ++ get_bytes g (a + n) m.
Proof. intros Hn Hm. unfold get_bytes. by rewrite seqZ_app, fmap_app. Qed.

Lemma get_bytes_ext g h a b n : (forall k, 0 <= k < n -> g (a + k) = h (b + k)) -> get_bytes g a n = get_bytes h b n.
Proof.
  intros Hgh. unfold get_bytes, seqZ. rewrite <- !list_fmap_compose. apply list_fmap_ext. intros i k Hk.
  apply lookup_seq in Hk as [-> ?]. cbn. rewrite (Z.add_comm _ a), (Z.add_comm _ b). apply Hgh. lia.
Qed.
Lemma get_bytes_zero a n : get_bytes (fun _ => 0) a n = replicate (Z.to_nat n) 0.
Proof. unfold get_bytes. rewrite <- (length_seqZ a n). induction (seqZ a n) as [|y l IH]; [done|]. cbn. by f_equal. Qed.
Lemma get_bytes_length g a n : length (get_bytes g a n) = Z.to_nat n.
Proof. unfold get_bytes, seqZ. by rewrite !length_fmap, length_seq. Qed.

(** The image [q'] is [q], with the bytes [g] on its disk. *)
Record disk_is (g : Z -> Z) (q q' : QcowFile) : Prop := {
  di_header : header q' = header q;
  di_cs : size_of_cluster q' = size_of_cluster q;
  di_offset : current_offset q' = current_offset q;
  di_entries : l2_entries q' = l2_entries q;
  di_content x : 0 <= x -> content q' x = g x;
}.

Lemma disk_is_same q q1 q' g : same_disk q q1 -> disk_is g q1 q' -> disk_is g q q'.
Proof. intros [? ? ? ? ?] [? ? ? ? ?]. split; congruence || done. Qed.
Lemma disk_is_trans q q1 q' g (f : Z -> Z) :
  disk_is g q q1 -> disk_is f q1 q' -> disk_is f q q'.
Proof. intros [? ? ? ? ?] [? ? ? ? ?]. split; congruence || done. Qed.
Lemma same_is_disk q q' : same_disk q q' -> disk_is (content q) q q'.
Proof. intros [? ? ? ? ?]. by split. Qed.

(** ** Writing inside a cluster of data *)
Lemma cluster_index q a x :
  geometry q -> 0 <= a -> 0 <= x ->
  Z.to_nat (l1_table_index q a) = Z.to_nat (l1_table_index q x) -> Z.to_nat (l2_table_index q a) = Z.to_nat (l2_table_index q x) ->
  a / size_of_cluster q = x / size_of_cluster q.
Proof.
  intros Hg Ha Hx. unfold l1_table_index, l2_table_index. pose proof (l2_bytes q Hg). pose proof (cs_bounds q Hg).
  assert (0 < l2_entries q) by (rewrite (geo_l2 q Hg); unfold l2_size in *; lia).
  assert (0 <= a / size_of_cluster q) by (apply Z.div_pos; lia). assert (0 <= x / size_of_cluster q) by (apply Z.div_pos; lia).
  intros Hl1%Z2Nat.inj Hl2%Z2Nat.inj; try (by apply Z.div_pos) || (by apply Z.mod_pos_bound).
  rewrite (Z.div_mod (a / _) (l2_entries q)), (Z.div_mod (x / _) (l2_entries q)) by lia. by rewrite Hl1, Hl2.
Qed.

Section data.
Context (pend held : list Z) (q : QcowFile) (r : RawFile) (a : Z).
Context (HI : Inv pend held q) (Ha : 0 <= a) (Hc : cluster_of q a <> 0).
Context (Hat : only_at (cluster_of q a) (size_of_cluster q) (img q) (file r)).
Let q' := put_file r q.
Let cs := size_of_cluster q.

Lemma data_cluster x : cluster_of q' x = cluster_of q x.
Proof using HI Hc Hat.
  unfold cluster_of, entry_of. change (l1_table_index q' x) with (l1_table_index q x). change (l2_table_index q' x) with (l2_table_index q x).
  by rewrite (touch_l2_view pend held q r _ _ HI (cluster_owned held q a Hc) I Hat).
Qed.

Lemma data_content x : 0 <= x ->
  content q' x = if decide (x / cs = a / cs) then fbyte (file r) (cluster_of q a + x mod cs) else content q x.
Proof using HI Ha Hc Hat.
  intros Hx. rewrite !content_cluster, data_cluster. change (size_of_cluster q') with cs. change (img q') with (file r). fold cs.
  pose proof (inv_geo _ _ _ HI) as Hg. destruct (decide (x / cs = a / cs)) as [Heq|Hne].
  - assert (cluster_of q x = cluster_of q a) as ->; [|by rewrite decide_False].
    unfold cluster_of, l1_table_index, l2_table_index. fold cs. by rewrite Heq.
  - case_decide as Hz; [done|]. pose proof (cs_bounds q Hg). pose proof (Z.mod_pos_bound x cs).
    apply (touch_other pend held q r _ _ HI (cluster_owned held q a Hc) Hat _ (cluster_of q x) _ (cluster_owned held q x Hz)); [|fold cs; lia].
    intros [=]. by apply Hne, (cluster_index q).
Qed.

(** Bytes from [a] on that changed, none beyond the end of its cluster. *)
Lemma data_changed n (h : Z -> Z) :
  0 <= n -> a mod cs + n <= cs ->
  (forall o, fbyte (file r) o =
     if decide (cluster_of q a + a mod cs <= o < cluster_of q a + a mod cs + n) then h (o - (cluster_of q a + a mod cs))
     else fbyte (img q) o) ->
  disk_is (fun x => if decide (a <= x < a + n) then h (x - a) else content q x) q q'.
Proof using HI Ha Hc Hat.
  intros Hn Hfit Hb. split; try done. intros x Hx. rewrite data_content by done. pose proof (cs_bounds q (inv_geo _ _ _ HI)) as Hcs.
  pose proof (Z.div_mod x cs). pose proof (Z.div_mod a cs). pose proof (Z.mod_pos_bound x cs). pose proof (Z.mod_pos_bound a cs).
  destruct (decide (x / cs = a / cs)) as [Heq|Hne].
  - rewrite Hb. rewrite Heq in *. assert (x - a = x mod cs - a mod cs) by lia. case_decide.
    + rewrite decide_True by lia. f_equal. lia.
    + rewrite decide_False by lia. rewrite content_cluster.
      assert (cluster_of q x = cluster_of q a) as -> by (unfold cluster_of, l1_table_index, l2_table_index; fold cs; by rewrite Heq).
      by rewrite decide_False.
  - rewrite decide_False; [done|]. fold cs in Hcs. assert (x / cs < a / cs \/ a / cs < x / cs) as [|] by lia; nia.
Qed.
End data.

(** ** Ranges of bytes

    A range is handled a cluster at a time. *)
Definition chunk (cs a stop : Z) : Z := Z.min (stop - a) (cs - a mod cs).
Definition chunks (cs a stop : Z) : Z := if decide (a < stop) then stop / cs - a / cs + 2 else 1.

Lemma chunk_step cs a stop :
  0 < cs -> 0 <= a < stop ->
  0 < chunk cs a stop /\ a + chunk cs a stop <= stop /\ a mod cs + chunk cs a stop <= cs /\ chunks cs (a + chunk cs a stop) stop + 1 <= chunks cs a stop.
Proof.
  intros Hcs Ha. pose proof (Z.div_mod a cs). pose proof (Z.mod_pos_bound a cs). unfold chunk. split_and!; [lia..|].
  unfold chunks. rewrite (decide_True (P := a < stop)) by lia. assert (a / cs <= stop / cs) by (apply Z.div_le_mono; lia).
  case_decide as Hlt; [|lia]. rewrite Z.min_r in * by lia.
  replace (a + (cs - a mod cs)) with (0 + (a / cs + 1) * cs) by lia. rewrite Z.div_add by lia. change (0 / cs) with 0. lia.
Qed.

Lemma chunks_fuel q a n : geometry q -> 0 <= a -> 0 <= n -> chunks (size_of_cluster q) a (a + n) <= Z.of_nat (range_fuel q n).
Proof.
  intros Hg Ha Hn. pose proof (cs_bounds q Hg). set (cs := size_of_cluster q) in *. unfold chunks, range_fuel. fold cs.
  assert (0 <= n / cs) by (apply Z.div_pos; lia). case_decide; [|lia].
  enough ((a + n) / cs <= a / cs + n / cs + 1) by lia.
  pose proof (Z.div_mod a cs). pose proof (Z.div_mod n cs). pose proof (Z.mod_pos_bound a cs). pose proof (Z.mod_pos_bound n cs).
  assert ((a + n) / cs < a / cs + n / cs + 2); [|lia]. apply Z.div_lt_upper_bound; nia.
Qed.

Lemma limit_chunk q a n : geometry q -> limit_range_cluster q a n = chunk (size_of_cluster q) a (a + n).
Proof. intros Hg. unfold limit_range_cluster, chunk. rewrite (cluster_offset_mod q Hg). f_equal. lia. Qed.

Section io.
Context `{Hhost : HostFile, Hlaws : !HostFileLaws}.

(** ** Reading *)
Lemma wp_read_chunk {A} pend held q a n (f : list Z -> QIO A) (Q : A -> QcowFile -> Prop) X :
  Inv pend held q -> 0 <= a -> 0 <= n -> a mod size_of_cluster q + n <= size_of_cluster q ->
  (forall q', Inv pend held q' -> same_disk q q' -> wp (f (get_bytes (content q) a n)) Q X q') ->
  wp (let* bs :=
        match offset_of q a with
        | Some offset => in_raw (on_file (seek (Start offset))) ;;; in_raw (on_file (read_exact n))
        | None => ret (replicate (Z.to_nat n) 0)
        end in f bs) Q X q.
Proof.
  intros HI Ha Hn Hfit HQ. pose proof (inv_geo _ _ _ HI) as Hg. pose proof (cs_bounds q Hg). unfold offset_of.
  pose proof (Z.mod_pos_bound a (size_of_cluster q)). pose proof (Z.div_mod a (size_of_cluster q)).
  assert (forall k, 0 <= k < n -> (a + k) / size_of_cluster q = a / size_of_cluster q /\ (a + k) mod size_of_cluster q = a mod size_of_cluster q + k) as Hk.
  { intros k Hk. split; symmetry; [apply (Z.div_unique _ _ _ (a mod size_of_cluster q + k))|apply (Z.mod_unique _ _ (a / size_of_cluster q))]; lia. }
  assert (forall k, 0 <= k < n -> cluster_of q (a + k) = cluster_of q a) as Hck.
  { intros k Hlt. unfold cluster_of, l1_table_index, l2_table_index. by destruct (Hk k Hlt) as [-> _]. }
  apply wp_bind. case_decide as Hc.
  - apply wp_ret. rewrite <- (get_bytes_zero a n). rewrite (get_bytes_ext _ (content q) a a n); [by apply HQ|].
    intros k Hlt. by rewrite content_cluster, Hck, decide_True.
  - pose proof (placed_bounds _ _ _ _ _ HI (cluster_owned held q a Hc)) as (_ & Hc0 & Hl & Hmax & Hb).
    apply wp_bind, wp_in_raw, wp_on_file, wp_seek; [apply HI|lia|lia|]. intros r1 (Hf1 & Ha1 & Hs1) Hp1.
    apply wp_in_raw, wp_on_file. cbn [raw_file qf_file set_raw_file set_qf]. apply wp_read_exact; [done|done|rewrite Hp1, Hf1; unfold flen, img in Hl; lia|].
    intros r2 (Hf2 & Ha2 & Hs2) Hp2. rewrite Hp1, Hf1.
    assert (kept_file (qf_file (raw_file q)) r2) as Hkept by (split; [congruence|split; [congruence|done]]).
    destruct (put_kept _ _ _ _ HI Hkept) as (HI' & Hks & _).
    fold (img q). fold (get_bytes (fbyte (img q)) (cluster_of q a + a mod size_of_cluster q) n).
    rewrite (get_bytes_ext _ (content q) _ a n); [by apply (HQ (put_file r2 q)), (keeps_disk held)|].
    intros k Hlt. rewrite content_cluster, Hck, decide_False by done. destruct (Hk k Hlt) as [_ ->]. f_equal. lia.
Qed.

Lemma wp_read_loop pend held fuel address read_count : forall nread q (Q : list Z -> QcowFile -> Prop) X,
  Inv pend held q -> 0 <= address -> address + read_count <= virtual_size q -> 0 <= nread <= read_count ->
  chunks (size_of_cluster q) (address + nread) (address + read_count) <= Z.of_nat fuel ->
  (forall q', Inv pend held q' -> same_disk q q' -> Q (get_bytes (content q) (address + nread) (read_count - nread)) q') ->
  wp (read_loop fuel address read_count nread) Q X q.
Proof.
  induction fuel as [|fuel IH]; intros nread q Q X HI Ha Hsize Hn Hfuel HQ; pose proof (inv_geo _ _ _ HI) as Hg; pose proof (cs_bounds q Hg).
  { unfold chunks in Hfuel. case_decide; [|lia].
    assert ((address + nread) / size_of_cluster q <= (address + read_count) / size_of_cluster q) by (apply Z.div_le_mono; lia). lia. }
  cbn [read_loop]. case_decide as Hlt.
  2:{ apply wp_ret. replace (read_count - nread) with 0 in HQ by lia. by apply HQ. }
  apply wp_bind, wp_get. pose proof (geo_size q Hg). rewrite wadd_small by (unfold in_width; lia).
  apply wp_bind, (wp_file_offset_read pend held); [done|lia|]. intros q1 HI1 Hk1 _. pose proof (keeps_disk held q q1 Hg Hk1) as Hd1.
  set (cs := size_of_cluster q) in *. destruct (chunk_step cs (address + nread) (address + read_count)) as (Hpos & Hend & Hfit & Hless); [lia..|].
  rewrite (limit_chunk q _ _ Hg). replace (address + nread + (read_count - nread)) with (address + read_count) by lia. fold cs.
  set (n := chunk cs _ _) in *.
  assert (offset_of q (address + nread) = offset_of q1 (address + nread)) as ->.
  { unfold offset_of. by rewrite (sees_cluster _ _ _ _ (keeps_sees _ _ _ Hk1)), (sd_cs _ _ Hd1). }
  apply (wp_read_chunk pend held q1); [done|lia|lia|by rewrite (sd_cs _ _ Hd1)|]. intros q2 HI2 Hd2.
  pose proof (same_disk_trans _ _ _ Hd1 Hd2) as Hd. apply wp_bind, IH; [done|done|unfold virtual_size; by rewrite (sd_header _ _ Hd)|lia| |].
  - rewrite (sd_cs _ _ Hd). fold cs. rewrite Z.add_assoc. lia.
  - intros q3 HI3 Hd3. apply wp_ret.
    assert (get_bytes (content q1) (address + nread) n ++ get_bytes (content q2) (address + (nread + n)) (read_count - (nread + n)) =
      get_bytes (content q) (address + nread) (read_count - nread)) as ->.
    { replace (read_count - nread) with (n + (read_count - (nread + n))) by lia. rewrite get_bytes_app, Z.add_assoc by lia.
      f_equal; apply get_bytes_ext; intros k _; [apply Hd1|apply Hd]. }
    apply HQ; [done|]. by apply (same_disk_trans q q2).
Qed.

(** ** Writing *)
Lemma wp_write_chunk {A} pend held q a bs (f : Z -> QIO A) (Q : A -> QcowFile -> Prop) X :
  Inv pend held q -> 0 <= a -> bs <> [] -> Forall byte_ok bs -> cluster_of q a <> 0 ->
  a mod size_of_cluster q + Z.of_nat (length bs) <= size_of_cluster q ->
  (forall q', Inv pend held q' -> disk_is (put_bytes a bs (content q)) q q' -> wp (f (Z.of_nat (length bs))) Q X q') ->
  wp (in_raw (on_file (seek (Start (cluster_of q a + a mod size_of_cluster q)))) ;;;
      let* count := in_raw (on_file (write bs)) in f count) Q X q.
Proof.
  intros HI Ha Hbs Hok Hc Hfit HQ. pose proof (inv_geo _ _ _ HI) as Hg. pose proof (cs_bounds q Hg).
  pose proof (Z.mod_pos_bound a (size_of_cluster q)).
  pose proof (cluster_owned held q a Hc) as Ho. pose proof (placed_bounds _ _ _ _ _ HI Ho) as (_ & Hc0 & Hl & Hmax & Hb).
  apply wp_bind, wp_in_raw, wp_on_file, wp_seek; [apply HI|lia|lia|]. intros r1 (Hf1 & Ha1 & Hs1) Hp1.
  apply wp_bind, wp_in_raw, wp_on_file. cbn [raw_file qf_file set_raw_file set_qf]. apply wp_write; [done..|]. intros r2 Hw Hp2.
  assert (wrote (cluster_of q a + a mod size_of_cluster q) bs (qf_file (raw_file q)) r2) as Hwr by (unfold wrote in *; by rewrite Hp1, Hf1, Ha1 in Hw).
  destruct (wrote_inside _ _ _ _ _ HI Ho _ _ _ Hwr Hok) as (Hs & Hal & Hlen & Hbytes & Hat); [lia..|].
  apply (HQ (put_file r2 q)); [exact (touch_inv _ _ _ _ _ _ HI Ho I Hs Hal Hlen Hbytes Hat)|].
  apply (data_changed pend held q r2 a HI Ha Hc Hat _ (fun k => bs !!! Z.to_nat k)); [lia|done|apply Hwr].
Qed.

(** The bytes [from] to [upto] of [buf], which starts at [address], were written. *)
Definition part_of (buf : list Z) (from upto : Z) : list Z := take (Z.to_nat (upto - from)) (drop (Z.to_nat from) buf).
Definition written_part (address : Z) (buf : list Z) (from upto : Z) (q q' : QcowFile) : Prop :=
  disk_is (put_bytes (address + from) (part_of buf from upto) (content q)) q q'.

Lemma written_none address buf n q q' : same_disk q q' -> written_part address buf n n q q'.
Proof.
  intros [? ? ? ? Hc]. split; [done..|]. intros x Hx. unfold part_of. rewrite Z.sub_diag. cbn. rewrite put_bytes_nil. apply Hc.
Qed.
Lemma written_more address buf n m k q q1 q' :
  0 <= n <= m -> m <= k -> m <= Z.of_nat (length buf) ->
  written_part address buf n m q q1 -> written_part address buf m k q1 q' -> written_part address buf n k q q'.
Proof.
  intros Hn Hm Hl H1 H2. destruct (disk_is_trans _ _ _ _ _ H1 H2) as [? ? ? ? Hc]. split; [done..|].
  intros x Hx. rewrite (Hc x Hx).
  assert (part_of buf n k = part_of buf n m ++ part_of buf m k) as ->.
  { unfold part_of. replace (Z.to_nat (k - n)) with (Z.to_nat (m - n) + Z.to_nat (k - m))%nat by lia.
    rewrite <- take_take_drop, drop_drop. do 3 f_equal. lia. }
  rewrite put_bytes_app. assert (Z.of_nat (length (part_of buf n m)) = m - n) as -> by (unfold part_of; rewrite length_take, length_drop; lia).
  replace (address + n + (m - n)) with (address + m) by lia. unfold put_bytes at 1 2. case_decide; [done|]. apply (di_content _ _ _ H1 x Hx).
Qed.
Lemma written_same address buf n k q q1 q' : same_disk q q1 -> written_part address buf n k q1 q' -> written_part address buf n k q q'.
Proof.
  intros Hs [? ? ? ? Hc]. apply (disk_is_same q q1); [done|]. split; [done..|]. intros x Hx. rewrite Hc by done.
  unfold put_bytes. by rewrite (sd_content _ _ Hs).
Qed.

Lemma wp_write_loop pend held fuel address buf write_count : forall nwritten q (Q : unit -> QcowFile -> Prop) (X : io_error -> QcowFile -> Prop),
  Inv pend held q -> 0 <= address -> address + write_count <= virtual_size q -> write_count <= Z.of_nat (length buf) -> Forall byte_ok buf ->
  0 <= nwritten <= write_count -> chunks (size_of_cluster q) (address + nwritten) (address + write_count) <= Z.of_nat fuel ->
  (forall q', Inv pend held q' -> written_part address buf nwritten write_count q q' -> Q tt q') ->
  (forall n q', nwritten <= n <= write_count -> written_part address buf nwritten n q q' -> X (OsError ENOSPC) q') ->
  wp (write_loop fuel address buf write_count nwritten) Q X q.
Proof.
  induction fuel as [|fuel IH]; intros nwritten q Q X HI Ha Hsize Hlen Hok Hn Hfuel HQ HX; pose proof (inv_geo _ _ _ HI) as Hg; pose proof (cs_bounds q Hg).
  { unfold chunks in Hfuel. case_decide; [|lia].
    assert ((address + nwritten) / size_of_cluster q <= (address + write_count) / size_of_cluster q) by (apply Z.div_le_mono; lia). lia. }
  cbn [write_loop]. case_decide as Hlt.
  2:{ apply wp_ret, HQ; [done|]. replace write_count with nwritten by lia. by apply written_none. }
  apply wp_bind, wp_get. pose proof (geo_size q Hg). rewrite wadd_small by (unfold in_width; lia).
  apply wp_bind, (wp_file_offset_write pend held); [done|lia| |].
  2:{ intros q1 Hd1. apply (HX nwritten); [lia|]. by apply written_none. }
  intros q1 HI1 Hd1 Hc1.
  set (cs := size_of_cluster q) in *. destruct (chunk_step cs (address + nwritten) (address + write_count)) as (Hpos & Hend & Hfit & Hless); [lia..|].
  rewrite (limit_chunk q _ _ Hg). replace (address + nwritten + (write_count - nwritten)) with (address + write_count) by lia. fold cs.
  set (n := chunk cs _ _) in *. set (bs := take _ _).
  assert (Z.of_nat (length bs) = n) as Hbs by (unfold bs; rewrite length_take, length_drop; lia).
  unfold cs. rewrite <- (sd_cs _ _ Hd1).
  apply (wp_write_chunk pend held q1); [done|lia|by intros Hnil; rewrite Hnil in Hbs; cbn in Hbs; lia|by apply Forall_take, Forall_drop|done|by rewrite (sd_cs _ _ Hd1), Hbs|].
  intros q2 HI2 Hw2. rewrite Hbs.
  assert (written_part address buf nwritten (nwritten + n) q q2) as Hw.
  { apply (written_same _ _ _ _ q q1); [done|]. unfold written_part, part_of. by replace (nwritten + n - nwritten) with n by lia. }
  apply IH; [done|done|unfold virtual_size; by rewrite (di_header _ _ _ Hw)|done|done|lia| |..].
  - rewrite (di_cs _ _ _ Hw). fold cs. rewrite Z.add_assoc. lia.
  - intros q3 HI3 Hw3. apply HQ; [done|]. apply (written_more _ _ _ (nwritten + n) _ q q2); [lia..|done|done].
  - intros m q3 Hm Hw3. apply (HX m); [lia|]. apply (written_more _ _ _ (nwritten + n) _ q q2); [lia..|done|done].
Qed.
End io.

(** * Reading the reference counts of a qcow2 image, and deallocating its clusters: a range of
    the disk that is deallocated reads as zeroes, and nothing else changes. *)
(** ** Reading a count *)
Lemma wp_cached_refblock pend held q ti a0 (Q : VecCache -> QcowFile -> Prop) X :
  let t := Z.to_nat ti in
  Inv pend held q -> vec (rtable q) !! t = Some a0 -> a0 <> 0 ->
  (forall b q', Inv pend held q' -> keeps held q q' -> same_tables q q' -> same_counts q q' ->
     vec b = block_view q t -> length (vec b) = block_size q -> Forall (in_width 16) (vec b) -> Q b q') ->
  wp (in_refcounts (cached_refblock ti a0)) Q X q.
Proof.
  intros t HI Ha0 Hne HQ. unfold cached_refblock. apply wp_refcounts_bind, wp_refcounts_get. cbn beta iota. fold t.
  destruct (cmap (blocks q) !! t) as [b|] eqn:Hb.
  - destruct (rep_block q (inv_rep _ _ _ HI) _ _ Hb) as [Hok Hw]. apply wp_refcounts_ret, HQ; [done|apply keeps_self|done|done| |by destruct Hok as (? & ? & ? & ? & _)|done].
    unfold block_view. by rewrite (view_cached _ _ _ _ _ _ Hb Hok).
  - assert (owns held q (OBlock t) a0) as Ho by done.
    pose proof (placed_bounds _ _ _ _ _ HI Ho) as (Hdiv & Hpos & Hl & _ & Hbd). pose proof (block_bytes q (inv_geo _ _ _ HI)) as Hbytes.
    apply wp_refcounts_bind, wp_refcounts_map_err, wp_refcounts_raw, wp_in_raw, (wp_read_refcount_block _ (block_size q));
      [apply HI|lia|unfold size_of_cluster in Hbytes; lia|unfold flen, img in Hl; lia|].
    intros r Hr. destruct (put_kept _ _ _ _ HI Hr) as (HI1 & Hk1 & Hv1). fold (put_file r q). set (q1 := put_file r q) in *.
    assert (img q1 = img q) as Himg by apply Hr. fold (img q). fold (block_disk q a0).
    assert (block_view q t = block_disk q a0) as Hview by (unfold block_view, table_view; by rewrite Ha0, decide_False, Hb).
    apply wp_refcounts_bind, (wp_insert_refblock pend held q1); [done|by apply (uncached_synced q1 t a0)|by cbn; fold t; rewrite Hv1|done|].
    intros q2 HI2 Hk2 Ht2 Hc2 Hb2. apply wp_refcounts_ret, HQ; [done|by apply (keeps_trans held q q1)| | |done|apply disk_table_length|].
    + by apply (same_tables_trans q q1).
    + destruct Hc2 as (Hv2 & Hr2 & Hav2 & Hl2). split_and!; [by intros k; rewrite Hv2|done|done|rewrite Hl2; unfold flen; by rewrite Himg].
    + apply (disk_table_width 2), (inv_raw _ _ _ HI).
Qed.

Lemma block_index_ok q a : geometry q -> (Z.to_nat (block_index q a) < block_size q)%nat.
Proof.
  intros Hg. pose proof (half_cluster q Hg). pose proof (Z.mod_pos_bound (a / size_of_cluster q) (size_of_cluster q / 2)).
  unfold block_index, block_size. lia.
Qed.

Lemma wp_get_cluster_refcount pend held q a (Q : Z -> QcowFile -> Prop) X :
  Inv pend held q -> countable q a ->
  (forall q', Inv pend held q' -> keeps held q q' -> same_tables q q' -> same_counts q q' -> in_width 16 (refcount_of q a) -> Q (refcount_of q a) q') ->
  wp (in_refcounts (get_cluster_refcount a)) Q X q.
Proof.
  intros HI Ha HQ. pose proof (inv_geo _ _ _ HI) as Hg. destruct (countable_entry q a Hg Ha) as [a0 Ha0].
  unfold get_cluster_refcount. apply wp_refcounts_bind, wp_refcounts_get. cbn beta iota. rewrite (refcount_index q a Hg).
  unfold vec_get. rewrite Ha0. case_decide as Hz.
  - subst a0. apply wp_refcounts_ret. assert (refcount_of q a = 0) as Hrc.
    { unfold refcount_of. fold (rt_index q a). unfold block_view, table_view. by rewrite Ha0, decide_True. }
    rewrite Hrc in HQ. apply HQ; [done|apply keeps_self|done|done|done].
  - apply wp_refcounts_bind, (wp_cached_refblock pend held _ _ a0); [done..|]. intros b q' HI' Hk Ht Hc Hb Hlen Hw.
    pose proof (block_index_ok q a Hg) as Hlt. rewrite <- Hlen in Hlt. destruct (lookup_lt_is_Some_2 _ _ Hlt) as [v Hv]. rewrite Hv.
    assert (refcount_of q a = v) as Hrc by (unfold refcount_of; fold (rt_index q a) (block_index q a); by rewrite <- Hb, Hv).
    apply wp_refcounts_ret. rewrite Hrc in HQ. apply HQ; [done..|]. by apply (Forall_lookup_1 _ _ _ _ Hw Hv).
Qed.

Section dealloc.
Context `{Hhost : HostFile, Hlaws : !HostFileLaws}.

(** ** Deallocating a cluster *)
(** The addresses of the cluster of [a] read as zeroes, the others as before. *)
Definition cluster_cleared (a : Z) (g : Z -> Z) (cs : Z) : Z -> Z := put_zeroes (a - a mod cs) cs g.

Lemma cleared_iff a x cs : 0 < cs -> (a - a mod cs <= x < a - a mod cs + cs) <-> x / cs = a / cs.
Proof.
  intros Hcs. pose proof (Z.div_mod a cs). pose proof (Z.div_mod x cs). pose proof (Z.mod_pos_bound x cs). pose proof (Z.mod_pos_bound a cs).
  split; [|intros Heq; rewrite Heq in *; lia]. intros Hx. assert (x / cs < a / cs + 1) by (apply Z.div_lt_upper_bound; lia).
  assert (a / cs <= x / cs); [|lia]. apply Z.div_le_lower_bound; lia.
Qed.

Lemma cleared_none q a : geometry q -> cluster_of q a = 0 -> disk_is (cluster_cleared a (content q) (size_of_cluster q)) q q.
Proof.
  intros Hg Hz. split; try done. intros x Hx. unfold cluster_cleared, put_zeroes. pose proof (cs_bounds q Hg).
  case_decide as Hin; [|done]. apply cleared_iff in Hin; [|lia]. rewrite content_cluster.
  assert (cluster_of q x = cluster_of q a) as -> by (unfold cluster_of, l1_table_index, l2_table_index; by rewrite Hin). by rewrite decide_True.
Qed.

(** Clearing the entry of [a], with the clusters of the others kept. *)
Lemma cleared_entry q q' a :
  geometry q -> 0 <= a -> header q' = header q -> size_of_cluster q' = size_of_cluster q -> current_offset q' = current_offset q ->
  l2_entries q' = l2_entries q ->
  let i := Z.to_nat (l1_table_index q a) in let j := Z.to_nat (l2_table_index q a) in
  (forall k l, entry_of q' k l = if decide ((k, l) = (i, j)) then 0 else entry_of q k l) ->
  (forall k l, (k, l) <> (i, j) -> entry_of q k l <> 0 -> same_cluster q q' (entry_of q k l)) ->
  disk_is (cluster_cleared a (content q) (size_of_cluster q)) q q'.
Proof.
  intros Hg Ha Hh Hc Ho He i j H2 Hd. split; [done..|]. intros x Hx. pose proof (cs_bounds q Hg).
  unfold cluster_cleared, put_zeroes. set (ij := (Z.to_nat (l1_table_index q x), Z.to_nat (l2_table_index q x))).
  assert (cluster_of q' x = if decide (ij = (i, j)) then 0 else cluster_of q x) as Hcl.
  { unfold cluster_of. rewrite H2. unfold l1_table_index, l2_table_index. by rewrite Hc, He. }
  assert (a - a mod size_of_cluster q <= x < a - a mod size_of_cluster q + size_of_cluster q <-> ij = (i, j)) as Hiff.
  { rewrite cleared_iff by lia. split.
    - intros Heq. unfold ij, i, j, l1_table_index, l2_table_index. by rewrite Heq.
    - intros [= Hi Hj]. by apply (cluster_index q). }
  rewrite !content_cluster, Hcl, Hc. destruct (decide (ij = (i, j))) as [Heq|Hne].
  - rewrite (decide_True (P := 0 = 0)), decide_True by (done || by apply Hiff). done.
  - rewrite (decide_False (P := _ <= x < _)) by (by rewrite Hiff). case_decide as Hz; [done|].
    pose proof (Z.mod_pos_bound x (size_of_cluster q)). apply (Hd _ _ Hne Hz). unfold cluster_of. lia.
Qed.

(** What is done with the cluster [c] once it is no longer in the table. *)
Lemma wp_release pend held q c n (Q : unit -> QcowFile -> Prop) (X : io_error -> QcowFile -> Prop) :
  Inv (c :: pend) (c :: held) q -> c <> 0 -> (n <> 0 -> 1 <= refcount_of q c) ->
  (forall q', Inv pend held q' -> keeps held q q' -> Q tt q') ->
  wp (if decide (n = 0) then
        ignore (in_raw (on_file (punch_hole c (size_of_cluster q)))) ;;;
        append_unref [c]
      else ret tt) Q X q.
Proof.
  intros HI Hc Hn HQ. case_decide as Hz.
  2:{ apply wp_ret, HQ; [|apply keeps_self]. apply (inv_settled _ c); [by apply (inv_held_drop _ c)|by apply Hn]. }
  assert (owns (c :: held) q (OHeld 0) c) as Ho by done. pose proof (placed_bounds _ _ _ _ _ HI Ho) as (_ & Hpos & Hl & _ & Hb).
  pose proof (cs_bounds q (inv_geo _ _ _ HI)) as Hcs.
  apply wp_bind, wp_ignore, wp_in_raw, wp_on_file, wp_punch_hole; [apply HI|lia|lia|]. intros r Hzr.
  destruct (zeroed_inside _ _ _ _ _ HI Ho _ _ _ Hzr) as (Hs & Hal & Hlen & Hok & Hat); [lia..|].
  pose proof (touch_inv _ _ _ _ _ _ HI Ho I Hs Hal Hlen Hok Hat) as HI1. fold (put_file r q). set (q1 := put_file r q) in *.
  apply wp_append_unref. pose proof (inv_append_unref _ [c] _ _ HI1 ltac:(by constructor)) as HI2. set (q2 := set_clusters _ _ q1) in *.
  apply HQ.
  - apply (inv_unpend _ c _ _ (OUnref (length (unref_clusters q1)))); [done| |by intros []].
    cbn. by rewrite list_lookup_middle.
  - apply (keeps_trans held q q1); [|apply keeps_clusters].
    apply (touch_keeps _ _ _ _ _ _ held HI Ho I Hat); [done|]. intros b [k Hk]%list_elem_of_lookup _. by exists (S k).
Qed.

(** Taking the cluster [c] of the entry [(li, lj)] out of its table and releasing it. *)
Lemma wp_clear_entry pend held q li lj c n t (Q : unit -> QcowFile -> Prop) (X : io_error -> QcowFile -> Prop) :
  let i := Z.to_nat li in let j := Z.to_nat lj in
  Inv (c :: pend) held q -> cmap (l2_cache q) !! i = Some t -> vec t !! j = Some c -> c <> 0 -> (n <> 0 -> 1 <= refcount_of q c) ->
  (forall q', Inv pend held q' -> header q' = header q -> size_of_cluster q' = size_of_cluster q -> current_offset q' = current_offset q ->
     l2_entries q' = l2_entries q -> (forall k l, entry_of q' k l = if decide ((k, l) = (i, j)) then 0 else entry_of q k l) ->
     (forall k l, (k, l) <> (i, j) -> entry_of q k l <> 0 -> same_cluster q q' (entry_of q k l)) -> Q tt q') ->
  wp (modify (set_l2_entry li lj 0) ;;;
      if decide (n = 0) then
        ignore (in_raw (on_file (punch_hole c (size_of_cluster q)))) ;;;
        append_unref [c]
      else ret tt) Q X q.
Proof.
  intros i j HI Ht Hc Hne Hn HQ. apply wp_bind, wp_modify. apply inv_held_zero in HI.
  assert (0 <> 0 -> 0 ∈ c :: pend \/ 1 <= refcount_of q 0) as H0 by done.
  pose proof (inv_set_entry (c :: pend) held q li lj c 0 t HI Ht Hc H0) as HI1.
  pose proof (fun k l => se_entry (c :: pend) held q li lj c 0 t k l HI Ht Hc H0) as He1.
  set (q1 := set_l2_entry li lj 0 q) in *. change (size_of_cluster q) with (size_of_cluster q1).
  apply (wp_release pend held); [done|done|exact Hn|]. intros q2 HI2 Hk2.
  apply HQ; [done|by rewrite (ks_header _ _ _ Hk2)|by rewrite (ks_cs _ _ _ Hk2)|by rewrite (ks_offset _ _ _ Hk2)|by rewrite (ks_entries _ _ _ Hk2)|..].
  - intros k l. rewrite (ss_l2 _ _ _ (keeps_sees _ _ _ Hk2)). apply He1.
  - intros k l Hkl Hnz. pose proof (ss_data _ _ _ (keeps_sees _ _ _ Hk2) k l) as Hd. rewrite He1, decide_False in Hd by done. by apply Hd.
Qed.

Lemma wp_deallocate_cluster q a (Q : unit -> QcowFile -> Prop) (X : io_error -> QcowFile -> Prop) :
  Inv [] [] q -> 0 <= a < virtual_size q ->
  (forall q', Inv [] [] q' -> disk_is (cluster_cleared a (content q) (size_of_cluster q)) q q' -> Q tt q') ->
  (forall q', same_disk q q' -> X (OsError ENOSPC) q') ->
  wp (deallocate_cluster a) Q X q.
Proof.
  intros HI Ha HQ HX. pose proof (inv_geo _ _ _ HI) as Hg. unfold deallocate_cluster. apply wp_bind, wp_get. rewrite decide_False by lia.
  destruct (l1_index_ok q Hg a Ha) as [a0 Ha0]. unfold vec_get. rewrite Ha0. case_decide as Hz.
  { subst a0. apply wp_ret, HQ; [done|]. by apply cleared_none; [|apply cluster_of_none]. }
  apply (wp_lookup [] [] q a _ _ _ a0); [done..|]. intros t q1 HI1 Hk1 Hb1 Ht Hv. case_decide as Hc.
  { apply wp_ret, HQ; [done|]. apply (disk_is_trans q q _ _ _ (cleared_none q a Hg Hc)).
    destruct (same_is_disk _ _ (keeps_disk _ _ _ Hg Hk1)) as [? ? ? ? Hcont]. split; [done..|].
    intros x Hx. rewrite Hcont by done. apply (di_content _ _ _ (cleared_none q a Hg Hc) x Hx). }
  set (c := cluster_of q a) in *.
  set (i := Z.to_nat (l1_table_index q a)) in *. set (j := Z.to_nat (l2_table_index q a)) in *.
  assert (owns [] q1 (OData i j) c) as Ho.
  { split; [|done]. unfold l2_view. by rewrite (view_cached _ _ _ _ _ _ Ht (rep_l2 q1 (inv_rep _ _ _ HI1) _ _ Ht)). }
  pose proof (owned_countable _ _ _ _ _ HI1 Ho) as Hcount.
  apply wp_bind, wp_map_err, (wp_get_cluster_refcount [] []); [done..|]. intros q2 HI2 Hk2 (_ & Hc2 & _) (Hv2 & _) Hw.
  pose proof (inv_counted _ _ _ HI1 (OData i j) c I Ho ltac:(set_solver)) as Hrc.
  rewrite decide_False by lia. apply (inv_pend _ [c]) in HI2; [|set_solver].
  assert (countable q2 c) as Hcount2 by (split; [rewrite (ks_cs _ _ _ Hk2)|rewrite (ks_max _ _ _ Hk2)]; apply Hcount).
  set (n := refcount_of q1 c - 1).
  apply wp_bind, (wp_set_cluster_refcount [c] [] q2 c n); [done|done|unfold n, in_width in *; lia|left; set_solver|..].
  2:{ intros pend' q3 _ Hk3 _. apply HX, (keeps_disk []); [done|]. apply (keeps_trans [] q q1); [done|]. by apply (keeps_trans [] q1 q2). }
  intros u q3 [HI3 Hk3 (_ & Hc3 & _) Hcnt3 _ Hu]. apply wp_bind, wp_append_unref.
  apply inv_append_unref in HI3; [|done]. set (q4 := set_clusters _ _ q3) in *.
  assert (keeps [] q q4) as Hk4.
  { apply (keeps_trans [] q q1); [done|]. apply (keeps_trans [] q1 q2); [done|]. apply (keeps_trans [] q2 q3); [done|apply keeps_clusters]. }
  rewrite <- (ks_cs _ _ _ Hk4). apply (wp_clear_entry [] [] q4 _ _ c n t); [done|unfold q4; cbn; by rewrite Hc3, Hc2|done|done|intros; apply Hcnt3; unfold n in *; lia|].
  intros q5 HI5 Hh5 Hcs5 Ho5 Hen5 He5 Hd5. apply HQ; [done|]. apply cleared_entry; [done|lia|..].
  - by rewrite Hh5, (ks_header _ _ _ Hk4).
  - by rewrite Hcs5, (ks_cs _ _ _ Hk4).
  - by rewrite Ho5, (ks_offset _ _ _ Hk4).
  - by rewrite Hen5, (ks_entries _ _ _ Hk4).
  - intros k l. rewrite He5. by rewrite (ss_l2 _ _ _ (keeps_sees _ _ _ Hk4)).
  - intros k l Hkl Hnz x Hx. pose proof (keeps_sees _ _ _ Hk4) as Hs4. rewrite <- (ss_data _ _ _ Hs4 k l Hnz x Hx).
    rewrite <- (ss_l2 _ _ _ Hs4) in Hnz, Hx. apply (Hd5 k l Hkl Hnz). by rewrite (ks_cs _ _ _ Hk4).
Qed.

(** ** Deallocating a range *)
(** The bytes [from] to [upto] after [address] read as zeroes. *)
Definition zeroed_part (address from upto : Z) (q q' : QcowFile) : Prop :=
  disk_is (put_zeroes (address + from) (upto - from) (content q)) q q'.

Lemma zeroed_none address n q q' : same_disk q q' -> zeroed_part address n n q q'.
Proof. intros [? ? ? ? Hc]. split; [done..|]. intros x Hx. unfold put_zeroes. rewrite Z.sub_diag, decide_False by lia. apply Hc. Qed.
Lemma zeroed_more address n m k q q1 q' :
  n <= m <= k -> zeroed_part address n m q q1 -> zeroed_part address m k q1 q' -> zeroed_part address n k q q'.
Proof.
  intros Hn H1 H2. destruct (disk_is_trans _ _ _ _ _ H1 H2) as [? ? ? ? Hc]. split; [done..|]. intros x Hx. rewrite (Hc x Hx).
  pose proof (di_content _ _ _ H1 x Hx) as H1c. unfold put_zeroes in *. rewrite H1c. repeat case_decide; lia.
Qed.
Lemma zeroed_same address n k q q1 q' : same_disk q q1 -> zeroed_part address n k q1 q' -> zeroed_part address n k q q'.
Proof.
  intros Hs [? ? ? ? Hc]. apply (disk_is_same q q1); [done|]. split; [done..|]. intros x Hx. rewrite Hc by done.
  unfold put_zeroes. by rewrite (sd_content _ _ Hs).
Qed.

Lemma wp_zero_chunk pend held q a n (Q : unit -> QcowFile -> Prop) X :
  Inv pend held q -> 0 <= a -> 0 <= n -> a mod size_of_cluster q + n <= size_of_cluster q ->
  (forall q', Inv pend held q' -> disk_is (put_zeroes a n (content q)) q q' -> Q tt q') ->
  wp (match offset_of q a with
      | Some offset => in_raw (on_file (write_zeroes_at offset n)) ;;; ret tt
      | None => ret tt
      end) Q X q.
Proof.
  intros HI Ha Hn Hfit HQ. pose proof (inv_geo _ _ _ HI) as Hg. pose proof (cs_bounds q Hg). unfold offset_of.
  pose proof (Z.mod_pos_bound a (size_of_cluster q)). case_decide as Hc.
  - apply wp_ret, HQ; [done|]. destruct (cleared_none q a Hg Hc) as [? ? ? ? Hcont]. split; try done. intros x Hx.
    unfold put_zeroes. case_decide; [|done]. rewrite Hcont by done. unfold cluster_cleared, put_zeroes. by rewrite decide_True by lia.
  - pose proof (cluster_owned held q a Hc) as Ho. pose proof (placed_bounds _ _ _ _ _ HI Ho) as (_ & Hc0 & Hl & Hmax & Hb).
    apply wp_bind, wp_in_raw, wp_on_file, wp_write_zeroes_at; [apply HI|lia|lia|]. intros r Hz _. apply wp_ret.
    destruct (zeroed_inside _ _ _ _ _ HI Ho _ _ _ Hz) as (Hs & Hal & Hlen & Hok & Hat); [lia..|].
    apply (HQ (put_file r q)); [exact (touch_inv _ _ _ _ _ _ HI Ho I Hs Hal Hlen Hok Hat)|].
    apply (data_changed pend held q r a HI Ha Hc Hat _ (fun _ => 0)); [lia|done|]. destruct Hz as ((Hz & _) & _). apply Hz.
Qed.

Lemma wp_deallocate_loop fuel address write_count : forall nwritten q (Q : unit -> QcowFile -> Prop) (X : io_error -> QcowFile -> Prop),
  Inv [] [] q -> 0 <= address -> address + write_count <= virtual_size q -> 0 <= nwritten <= write_count ->
  chunks (size_of_cluster q) (address + nwritten) (address + write_count) <= Z.of_nat fuel ->
  (forall q', Inv [] [] q' -> zeroed_part address nwritten write_count q q' -> Q tt q') ->
  (forall n q', nwritten <= n <= write_count -> zeroed_part address nwritten n q q' -> X (OsError ENOSPC) q') ->
  wp (deallocate_loop fuel address write_count nwritten) Q X q.
Proof.
  induction fuel as [|fuel IH]; intros nwritten q Q X HI Ha Hsize Hn Hfuel HQ HX; pose proof (inv_geo _ _ _ HI) as Hg; pose proof (cs_bounds q Hg).
  { unfold chunks in Hfuel. case_decide; [|lia].
    assert ((address + nwritten) / size_of_cluster q <= (address + write_count) / size_of_cluster q) by (apply Z.div_le_mono; lia). lia. }
  cbn [deallocate_loop]. case_decide as Hlt.
  2:{ apply wp_ret, HQ; [done|]. replace write_count with nwritten by lia. by apply zeroed_none. }
  apply wp_bind, wp_get. pose proof (geo_size q Hg). rewrite wadd_small by (unfold in_width; lia).
  set (cs := size_of_cluster q) in *. destruct (chunk_step cs (address + nwritten) (address + write_count)) as (Hpos & Hend & Hfit & Hless); [lia..|].
  rewrite (limit_chunk q _ _ Hg). replace (address + nwritten + (write_count - nwritten)) with (address + write_count) by lia. fold cs.
  set (n := chunk cs _ _) in *.
  assert (forall q', Inv [] [] q' -> zeroed_part address nwritten (nwritten + n) q q' ->
    wp (deallocate_loop fuel address write_count (nwritten + n)) Q X q') as Hnext.
  { intros q1 HI1 Hz. apply IH; [done|done|unfold virtual_size; by rewrite (di_header _ _ _ Hz)|lia| |..].
    - rewrite (di_cs _ _ _ Hz). fold cs. rewrite Z.add_assoc. lia.
    - intros q' HI' Hz'. apply HQ; [done|]. by apply (zeroed_more _ _ (nwritten + n) _ q q1); [lia|..].
    - intros m q' Hm Hz'. apply (HX m); [lia|]. by apply (zeroed_more _ _ (nwritten + n) _ q q1); [lia|..]. }
  pose proof (Z.mod_pos_bound (address + nwritten) cs). apply wp_bind. case_decide as Hfull.
  - apply wp_deallocate_cluster; [done|lia| |].
    + intros q1 HI1 Hd1. apply Hnext; [done|]. unfold zeroed_part. unfold cluster_cleared in Hd1. fold cs in Hd1.
      replace (nwritten + n - nwritten) with cs by lia. by replace ((address + nwritten) mod cs) with 0 in Hd1 by lia; rewrite Z.sub_0_r in Hd1.
    + intros q1 Hd1. apply (HX nwritten); [lia|]. by apply zeroed_none.
  - apply wp_bind, (wp_file_offset_read [] []); [done|lia|]. intros q1 HI1 Hk1 _. pose proof (keeps_disk [] q q1 Hg Hk1) as Hd1.
    assert (offset_of q (address + nwritten) = offset_of q1 (address + nwritten)) as ->.
    { unfold offset_of. by rewrite (sees_cluster _ _ _ _ (keeps_sees _ _ _ Hk1)), (sd_cs _ _ Hd1). }
    apply (wp_zero_chunk [] [] q1); [done|lia|lia|by rewrite (sd_cs _ _ Hd1)|]. intros q2 HI2 Hz2. apply Hnext; [done|].
    apply (zeroed_same _ _ _ q q1); [done|]. unfold zeroed_part. by replace (nwritten + n - nwritten) with n by lia.
Qed.
End dealloc.
