(* ===== verification/QcowOpen.v ===== *)
(** Writing back the tables of a qcow2 image and opening it again: after a flush the file
    holds all of the image, and opening it reads back what was written. *)
From stdpp Require Import base numbers list gmap.
From S2P Require Import Prelude Bytes RawFile QcowTables QcowHeader QcowImage QcowDisk QcowInv QcowSteps QcowCount QcowLookup QcowWrite QcowIo.

#[local] Open Scope Z_scope.

(** Nothing in a cache has to be written back. *)
Definition all_clean (cache : CacheMap) : Prop := forall i, ~ modified cache i.

(** ** The L2 tables *)
Lemma wp_sync_l2_list pend held tables : forall q (Q : unit -> QcowFile -> Prop) X,
  Inv pend held q -> NoDup tables.*1 -> (forall i t, (i, t) ∈ tables -> cmap (l2_cache q) !! i = Some t) ->
  (forall i, modified (l2_cache q) i -> i ∈ tables.*1) ->
  (forall q', Inv pend held q' -> keeps held q q' -> same_books q q' -> all_clean (l2_cache q') -> Q tt q') ->
  wp (sync_l2_list tables) Q X q.
Proof.
  induction tables as [|[i t] tables IH]; intros q Q X HI Hnd Hin Hmod HQ.
  { apply wp_ret, HQ; [done|apply keeps_self|done|]. intros i Hi. apply Hmod in Hi. cbn in Hi. set_solver. }
  apply NoDup_cons in Hnd as [Hi Hnd]. fold (fmap (M := list) (@fst nat VecCache)) in Hi, Hnd.
  assert (cmap (l2_cache q) !! i = Some t) as Ht by (apply Hin; set_solver). cbn [sync_l2_list].
  destruct (dirty t) eqn:Hd.
  2:{ apply IH; [done|done|intros k t' Hk; apply Hin; set_solver| |done]. intros k Hk. pose proof (Hmod k Hk) as Hk'.
      cbn in Hk'. apply elem_of_cons in Hk' as [->|]; [|done]. destruct Hk as (t' & Ht' & Hd'). congruence. }
  destruct (rep_l2 q (inv_rep _ _ _ HI) _ _ Ht) as (a & Ha & Hne & _).
  apply wp_bind, wp_get. rewrite Ha, decide_True by done. apply wp_bind, wp_in_raw.
  assert (write_pointer_table a (vec t) CLUSTER_USED_FLAG = evict_l2 (l1_table q) i t) as -> by (unfold evict_l2; by rewrite Ha).
  apply (wp_evict_l2 pend held); [done..|]. intros r HI1 Hk1 Hb1 Hs1 _. fold (put_file r q). set (q1 := put_file r q) in *.
  set (c := set_cmap (<[i := mark_clean t]> (cmap (l2_cache q1))) (l2_cache q1)).
  apply wp_bind, wp_modify. fold c. destruct (inv_l2_cache _ _ _ c HI1) as [HI2 Hsa2]; [apply HI1| |].
  { intros k. unfold c. cbn. destruct (decide (k = i)) as [->|Hki]; [right|left; by apply lookup_insert_ne].
    split; [done|]. rewrite lookup_insert_eq. intros t' [= <-]. rewrite (ks_l2 _ _ _ Hk1). unfold l2_view.
    by rewrite (view_cached _ _ _ _ _ _ Ht (rep_l2 q (inv_rep _ _ _ HI) _ _ Ht)). }
  assert (keeps held q (set_l2_cache c q1)) as Hk2 by (apply (keeps_trans held q q1); [done|]; split; try done; apply Hsa2).
  apply IH; [done|done|..].
  - intros k t' Hk. unfold c. cbn. rewrite lookup_insert_ne by (intros <-; apply Hi, list_elem_of_fmap; by exists (i, t')).
    apply Hin. set_solver.
  - intros k (t' & Ht' & Hd'). unfold c in Ht'. cbn in Ht'. apply lookup_insert_Some in Ht' as [[_ <-]|[Hki Ht']]; [done|].
    pose proof (Hmod k ltac:(by exists t')) as Hk'. cbn in Hk'. apply elem_of_cons in Hk' as [->|]; done.
  - intros q' HI' Hk' Hb' Hc'. apply HQ; [done|by apply (keeps_trans held q (set_l2_cache c q1))| |done].
    by apply (same_books_trans q (set_l2_cache c q1)).
Qed.

Lemma wp_sync_l2 pend held q (Q : unit -> QcowFile -> Prop) X :
  Inv pend held q ->
  (forall q', Inv pend held q' -> keeps held q q' -> same_books q q' -> all_clean (l2_cache q') -> Q tt q') ->
  wp (sync_l2_list (map_to_list (cmap (l2_cache q)))) Q X q.
Proof.
  intros HI HQ. apply (wp_sync_l2_list pend held); [done|apply NoDup_fst_map_to_list|by intros i t ?%elem_of_map_to_list| |done].
  intros i (t & Ht & _). apply list_elem_of_fmap. exists (i, t). split; [done|]. by apply elem_of_map_to_list.
Qed.

(** ** The blocks of counts *)
Lemma wp_flush_block_list pend held bs : forall q (Q : unit -> QcowFile -> Prop) X,
  Inv pend held q -> NoDup bs.*1 -> (forall t b, (t, b) ∈ bs -> cmap (blocks q) !! t = Some b) ->
  (forall t, modified (blocks q) t -> t ∈ bs.*1) ->
  (forall q', Inv pend held q' -> keeps held q q' -> same_tables q q' -> same_counts q q' -> all_clean (blocks q') -> Q tt q') ->
  wp (in_refcounts (flush_block_list bs)) Q X q.
Proof.
  induction bs as [|[t b] bs IH]; intros q Q X HI Hnd Hin Hmod HQ.
  { apply wp_refcounts_ret, HQ; [done|apply keeps_self|done|done|]. intros i Hi. apply Hmod in Hi. cbn in Hi. set_solver. }
  apply NoDup_cons in Hnd as [Hi Hnd]. fold (fmap (M := list) (@fst nat VecCache)) in Hi, Hnd.
  assert (cmap (blocks q) !! t = Some b) as Hb by (apply Hin; set_solver). cbn [flush_block_list].
  destruct (dirty b) eqn:Hd.
  2:{ apply IH; [done|done|intros k b' Hk; apply Hin; set_solver| |done]. intros k Hk. pose proof (Hmod k Hk) as Hk'.
      cbn in Hk'. apply elem_of_cons in Hk' as [->|]; [|done]. destruct Hk as (t' & Ht' & Hd'). congruence. }
  destruct (rep_block q (inv_rep _ _ _ HI) _ _ Hb) as [Hok Hw]. pose proof Hok as (a & Ha & Hne & _).
  apply wp_refcounts_bind, wp_refcounts_get. cbn beta iota. rewrite Ha, decide_False by done.
  apply wp_refcounts_bind, wp_refcounts_raw, wp_in_raw.
  assert (write_refcount_block a (vec b) = evict_refblock (rtable q) t b) as -> by (unfold evict_refblock; by rewrite Ha).
  apply (wp_evict_block pend held); [done..|]. intros r HI1 Hk1 Hc1 Hs1 _. fold (put_file r q). set (q1 := put_file r q) in *.
  set (c := set_cmap (<[t := mark_clean b]> (cmap (blocks q1))) (blocks q1)).
  apply wp_refcounts_bind, wp_refcounts_modify. fold c. fold (set_blocks c q1).
  destruct Hc1 as (Hv1 & Hr1 & Hav1 & Hl1).
  destruct (inv_block_cache _ _ _ c HI1) as [HI2 Hv2]; [apply HI1| |].
  { intros k. unfold c. cbn. destruct (decide (k = t)) as [->|Hki]; [right|left; by apply lookup_insert_ne].
    split; [done|]. rewrite lookup_insert_eq. intros b' [= <-]. rewrite Hv1. unfold block_view.
    by rewrite (view_cached _ _ _ _ _ _ Hb Hok). }
  assert (keeps held q (set_blocks c q1)) as Hk2 by (apply (keeps_trans held q q1); [done|by split]).
  apply IH; [done|done|..].
  - intros k b' Hk. unfold c. cbn. rewrite lookup_insert_ne by (intros <-; apply Hi, list_elem_of_fmap; by exists (t, b')).
    apply Hin. set_solver.
  - intros k (b' & Hb' & Hd'). unfold c in Hb'. cbn in Hb'. apply lookup_insert_Some in Hb' as [[_ <-]|[Hki Hb']]; [done|].
    pose proof (Hmod k ltac:(by exists b')) as Hk'. cbn in Hk'. apply elem_of_cons in Hk' as [->|]; done.
  - intros q' HI' Hk' Ht' (Hv' & Hr' & Hav' & Hl') Hc'. apply HQ; [done|by apply (keeps_trans held q (set_blocks c q1))|done| |done].
    split_and!; [intros k; by rewrite Hv', Hv2, Hv1|done|done|by rewrite Hl'].
Qed.

Lemma wp_flush_blocks pend held q (Q : unit -> QcowFile -> Prop) X :
  Inv pend held q ->
  (forall q', Inv pend held q' -> keeps held q q' -> same_tables q q' -> same_counts q q' -> all_clean (blocks q') -> Q tt q') ->
  wp (in_refcounts flush_blocks) Q X q.
Proof.
  intros HI HQ. unfold flush_blocks. apply wp_refcounts_bind, wp_refcounts_get. cbn beta iota.
  apply (wp_flush_block_list pend held); [done|apply NoDup_fst_map_to_list|by intros i t ?%elem_of_map_to_list| |done].
  intros i (t & Ht & _). apply list_elem_of_fmap. exists (i, t). split; [done|]. by apply elem_of_map_to_list.
Qed.

(** ** The tables at fixed places *)
Section fixed.
Context (pend held : list Z) (q : QcowFile) (HI : Inv pend held q) (mk : nat -> owner) (base : Z) (n : nat) (Hn : (0 < n)%nat).
Context (Hmk : forall k, Z.of_nat k * size_of_cluster q < 8 * Z.of_nat n -> owns held q (mk k) (base + Z.of_nat k * size_of_cluster q)).
Context (Hw : forall k, writable q (mk k)) (Hdata : forall k i j, mk k <> OData i j) (Hheld : forall k l, mk k <> OHeld l).
Let cs := size_of_cluster q.

(** The last cluster of the table. *)
Lemma fixed_end : 0 <= base < 2 ^ 63 /\ exists stop, base + 8 * Z.of_nat n <= stop <= flen q /\ (cs | stop).
Proof using HI Hn Hmk.
  pose proof (cs_bounds q (inv_geo _ _ _ HI)) as Hcs. fold cs in Hcs, Hmk.
  pose proof (placed_bounds _ _ _ _ _ HI (Hmk 0%nat ltac:(lia))) as (Hd0 & H0 & _ & _ & Hb). split; [lia|].
  set (k := Z.to_nat ((8 * Z.of_nat n - 1) / cs)). pose proof (Z.div_mod (8 * Z.of_nat n - 1) cs). pose proof (Z.mod_pos_bound (8 * Z.of_nat n - 1) cs).
  assert (0 <= (8 * Z.of_nat n - 1) / cs) by (apply Z.div_pos; lia). assert (Z.of_nat k = (8 * Z.of_nat n - 1) / cs) as Hk by (unfold k; lia).
  pose proof (placed_bounds _ _ _ _ _ HI (Hmk k ltac:(rewrite Hk; lia))) as (Hd & _ & Hl & _). fold cs in Hd, Hl.
  exists (base + Z.of_nat k * cs + cs). rewrite Hk in *. split; [lia|]. by apply Z.divide_add_r.
Qed.

Context (bs : list Z) (Hbs : length bs = (8 * n)%nat) (Hok : Forall byte_ok bs) (r : RawFile) (Hwr : wrote base bs (qf_file (raw_file q)) r).

Lemma fixed_other o a x :
  owns held q o a -> ~ (exists k, o = mk k) -> a <= x < a + size_of_cluster q -> fbyte (file r) x = fbyte (img q) x.
Proof using All.
  intros Ho HP Hx. destruct Hwr as (Hb & _). rewrite Hb. rewrite decide_False; [done|]. rewrite Hbs. intros Hin.
  pose proof (cs_bounds q (inv_geo _ _ _ HI)) as Hcs. fold cs in Hcs, Hx, Hmk.
  set (k := Z.to_nat ((x - base) / cs)). pose proof (Z.div_mod (x - base) cs). pose proof (Z.mod_pos_bound (x - base) cs).
  assert (0 <= (x - base) / cs) by (apply Z.div_pos; lia). assert (Z.of_nat k = (x - base) / cs) as Hk by (unfold k; lia).
  assert (owns held q (mk k) (base + Z.of_nat k * cs)) as Hok' by (apply Hmk; rewrite Hk; lia).
  destruct (inv_alloc _ _ _ HI) as [Hdist Hplaced]. destruct (Hplaced _ _ Ho) as (Hda & _), (Hplaced _ _ Hok') as (Hdk & _).
  destruct (decide (a = base + Z.of_nat k * cs)) as [->|Hne]; [apply HP; exists k; by eapply Hdist|].
  pose proof (clusters_apart q (inv_geo _ _ _ HI) _ _ Hda Hdk Hne) as Hap. fold cs in Hap. rewrite Hk in Hap. lia.
Qed.

Lemma fixed_inv : Inv pend held (put_file r q) /\ keeps held q (put_file r q) /\
  (forall t, block_view (put_file r q) t = block_view q t) /\ flen (put_file r q) = flen q.
Proof using All.
  destruct fixed_end as (Hbase & stop & Hstop & Hdiv).
  destruct (wrote_bounded _ _ _ _ _ _ stop HI Hwr Hok) as (Hs & Hal & Hlen & Hbytes); [rewrite Hbs; lia|lia|done|].
  assert (forall o, (exists k, o = mk k) -> writable q o) as HwP by (intros o (k & ->); apply Hw).
  split; [exact (others_inv pend held q r _ HI HwP Hs Hal Hlen Hbytes fixed_other)|]. split; [|split; [|done]].
  - split; try done.
    + exact (others_l2_view pend held q r _ HI HwP fixed_other).
    + intros i j a Ha Hne x Hx. apply (fixed_other (OData i j) a); [done| |done]. intros (k & Hk). by eapply Hdata.
    + intros a [k Hk]%list_elem_of_lookup Hne x Hx. apply (fixed_other (OHeld k) a); [done| |done]. intros (l & Hl). by eapply Hheld.
  - exact (others_block_view pend held q r _ HI HwP fixed_other).
Qed.
End fixed.

(** A table that the file has. *)
Lemma inv_clean_l1 pend held q :
  Inv pend held q ->
  masked (disk_table 8 (length (vec (l1_table q))) (img q) (l1_table_offset (header q))) = vec (l1_table q) ->
  Inv pend held (set_l1_table (mark_clean (l1_table q)) q) /\ keeps held q (set_l1_table (mark_clean (l1_table q)) q).
Proof.
  intros [Hgeo Hraw Hal Hrep Hcnt] Hd. split; [|by split].
  split; [by destruct Hgeo; split|by destruct Hraw; split|by apply (allocation_same held q)| |by apply (counted_same pend q)].
  destruct Hrep as [Hl2 Hpl Hbl Hl1 Hrt Hh]. by split.
Qed.
Lemma inv_clean_rt pend held q :
  Inv pend held q ->
  disk_table 8 (length (vec (rtable q))) (img q) (h_refcount_table_offset (header q)) = vec (rtable q) ->
  Inv pend held (set_rtable (mark_clean (rtable q)) q) /\ keeps held q (set_rtable (mark_clean (rtable q)) q) /\
  (forall t, block_view (set_rtable (mark_clean (rtable q)) q) t = block_view q t).
Proof.
  intros [Hgeo Hraw Hal Hrep Hcnt] Hd. split; [|by split].
  split; [by destruct Hgeo; split|by destruct Hraw; split|by apply (allocation_same held q)| |by apply (counted_same pend q)].
  destruct Hrep as [Hl2 Hpl Hbl Hl1 Hrt Hh]. by split.
Qed.

Lemma l1_addr_ok pend held q : Inv pend held q -> Forall addr_ok (vec (l1_table q)).
Proof.
  intros HI. apply Forall_lookup. intros i a Ha. destruct (decide (a = 0)) as [->|Hne]; [apply addr_ok_zero|].
  by apply (owned_addr_ok pend held q (OL2 i)).
Qed.
Lemma rt_addr_ok pend held q : Inv pend held q -> Forall addr_ok (vec (rtable q)).
Proof.
  intros HI. apply Forall_lookup. intros i a Ha. destruct (decide (a = 0)) as [->|Hne]; [apply addr_ok_zero|].
  by apply (owned_addr_ok pend held q (OBlock i)).
Qed.

Lemma wrote_table off es flags r r' k :
  wrote off (concat (be_bytes 8 <$> (entry_value flags <$> es))) r r' -> (k < 8 * length es)%nat ->
  fbyte (file r') (off + Z.of_nat k) = concat (be_bytes 8 <$> (entry_value flags <$> es)) !!! k.
Proof.
  intros (Hx & _) Hk. rewrite Hx, be_concat_length, length_fmap, decide_True by lia. f_equal. lia.
Qed.

Lemma entries_bytes_length flags es : length (concat (be_bytes 8 <$> (entry_value flags <$> es))) = (8 * length es)%nat.
Proof. by rewrite be_concat_length, length_fmap. Qed.

Lemma wp_flush_l1 pend held q (Q : bool -> QcowFile -> Prop) X :
  Inv pend held q ->
  (forall b q', Inv pend held q' -> keeps held q q' -> l1_table q' = mark_clean (l1_table q) -> refcounts q' = refcounts q ->
     l2_cache q' = l2_cache q -> unref_clusters q' = unref_clusters q -> avail_clusters q' = avail_clusters q -> flen q' = flen q -> Q b q') ->
  wp (if dirty (l1_table q) then
        in_raw (write_pointer_table (l1_table_offset (header q)) (vec (l1_table q)) 0) ;;;
        modify (set_l1_table (mark_clean (l1_table q))) ;;;
        ret true
      else ret false) Q X q.
Proof.
  intros HI HQ. destruct (dirty (l1_table q)) eqn:Hd.
  2:{ apply wp_ret, HQ; try done. destruct (l1_table q). cbn in Hd. by subst. }
  set (n := length (vec (l1_table q))). pose proof (geo_l1_pos _ (inv_geo _ _ _ HI)) as Hn. fold n in Hn.
  assert (forall k, Z.of_nat k * size_of_cluster q < 8 * Z.of_nat n ->
    owns held q (OL1 k) (l1_table_offset (header q) + Z.of_nat k * size_of_cluster q)) as Hmk by done.
  destruct (fixed_end pend held q HI OL1 _ n Hn Hmk) as (Hoff & _).
  apply wp_bind, wp_in_raw, wp_write_pointer_table; [apply HI|done|done|]. intros r Hwr. fold (put_file r q).
  destruct (fixed_inv pend held q HI OL1 (l1_table_offset (header q)) n Hn Hmk (fun _ => Hd) (fun _ _ _ => ltac:(done)) (fun _ _ => ltac:(done))
    (concat (be_bytes 8 <$> (entry_value 0 <$> vec (l1_table q)))) (entries_bytes_length 0 (vec (l1_table q))) (be_concat_ok 8 _) r Hwr) as (HI1 & Hk1 & Hb1 & Hl1).
  apply wp_bind, wp_modify. destruct (inv_clean_l1 _ _ _ HI1) as [HI2 Hk2].
  { destruct (entries_roundtrip 0 n (file r) (l1_table_offset (header q)) (vec (l1_table q))) as [_ Hm];
      [by left|by apply (l1_addr_ok pend held)|done| |exact Hm]. intros k Hk. by apply (wrote_table _ _ _ _ _ _ Hwr). }
  apply wp_ret, HQ; try done. by apply (keeps_trans held q (put_file r q)).
Qed.

Lemma entry_value_none (es : list Z) : entry_value 0 <$> es = es.
Proof. rewrite <- (list_fmap_id es) at 2. apply list_fmap_ext. intros k x _. unfold entry_value. rewrite Z.lor_0_r. by case_decide. Qed.

Lemma rt_pos q : geometry q -> (0 < length (vec (rtable q)))%nat.
Proof.
  intros Hg. pose proof (geo_bound q Hg) as [Hb _]. rewrite (geo_max q Hg) in Hb. pose proof (cs_bounds q Hg).
  destruct (length (vec (rtable q))); [|lia]. nia.
Qed.

Lemma wp_flush_table pend held q (Q : bool -> QcowFile -> Prop) X :
  Inv pend held q ->
  (forall b q', Inv pend held q' -> keeps held q q' -> same_tables q q' -> same_counts (set_rtable (mark_clean (rtable q)) q) q' ->
     blocks q' = blocks q -> Q b q') ->
  wp (in_refcounts flush_table) Q X q.
Proof.
  intros HI HQ. pose proof (rt_pos q (inv_geo _ _ _ HI)) as Hn. unfold flush_table. apply wp_refcounts_bind, wp_refcounts_get. cbn beta iota. destruct (dirty (rtable q)) eqn:Hd.
  2:{ apply wp_refcounts_ret, HQ; [done|apply keeps_self|done| |done]. split_and!; [done| |done|done]. cbn. destruct (rtable q). cbn in Hd. by subst. }
  set (n := length (vec (rtable q))) in *. pose proof (geo_rt _ (inv_geo _ _ _ HI)) as Hrt.
  assert (forall k, Z.of_nat k * size_of_cluster q < 8 * Z.of_nat n ->
    owns held q (ORefTable k) (h_refcount_table_offset (header q) + Z.of_nat k * size_of_cluster q)) as Hmk by done.
  destruct (fixed_end pend held q HI ORefTable _ n Hn Hmk) as (Hoff & _).
  apply wp_refcounts_bind, wp_refcounts_raw, wp_in_raw. rewrite Hrt.
  apply wp_write_pointer_table; [apply HI|done|done|]. intros r Hwr. fold (put_file r q).
  destruct (fixed_inv pend held q HI ORefTable (h_refcount_table_offset (header q)) n Hn Hmk (fun _ => Hd) (fun _ _ _ => ltac:(done)) (fun _ _ => ltac:(done))
    (concat (be_bytes 8 <$> (entry_value 0 <$> vec (rtable q)))) (entries_bytes_length 0 (vec (rtable q))) (be_concat_ok 8 _) r Hwr) as (HI1 & Hk1 & Hb1 & Hl1).
  apply wp_refcounts_bind, wp_refcounts_modify. fold (set_rtable (mark_clean (rtable q)) (put_file r q)).
  destruct (inv_clean_rt _ _ _ HI1) as (HI2 & Hk2 & Hb2).
  { destruct (entries_roundtrip 0 n (file r) (h_refcount_table_offset (header q)) (vec (rtable q))) as [Ht _];
      [by left|by apply (rt_addr_ok pend held)|done| |rewrite entry_value_none in Ht; exact Ht]. intros k Hk. by apply (wrote_table _ _ _ _ _ _ Hwr). }
  apply wp_refcounts_ret, HQ; [done|by apply (keeps_trans held q (put_file r q))|done| |done].
  split_and!; [|done|done|done]. intros t. etrans; [apply Hb2|]. apply Hb1.
Qed.

(** ** Flushing *)
(** The file has all of the image. *)
Record flushed (q : QcowFile) : Prop := {
  fl_l1 : dirty (l1_table q) = false;
  fl_rt : dirty (rtable q) = false;
  fl_l2 : all_clean (l2_cache q);
  fl_blocks : all_clean (blocks q);
}.

Lemma wp_sync_all pend held q (Q : unit -> QcowFile -> Prop) (X : io_error -> QcowFile -> Prop) :
  Inv pend held q -> Q tt q -> wp (in_raw (on_file sync_all)) Q X q.
Proof. intros HI HQ. apply wp_in_raw, wp_on_file, wp_sys_call; [apply HI|]. by destruct q as [[]]. Qed.
Lemma wp_sync_data pend held q (Q : unit -> QcowFile -> Prop) (X : io_error -> QcowFile -> Prop) :
  Inv pend held q -> Q tt q -> wp (in_raw (on_file sync_data)) Q X q.
Proof. exact (wp_sync_all pend held q Q X). Qed.

Lemma wp_sync_caches pend held q (Q : unit -> QcowFile -> Prop) X :
  Inv pend held q ->
  (forall q', Inv pend held q' -> keeps held q q' -> flushed q' -> unref_clusters q' = unref_clusters q -> avail_clusters q' = avail_clusters q ->
     flen q' = flen q -> vec (l1_table q') = vec (l1_table q) -> vec (rtable q') = vec (rtable q) -> Q tt q') ->
  wp sync_caches Q X q.
Proof.
  intros HI HQ. unfold sync_caches. apply wp_bind, wp_get, wp_bind, (wp_sync_l2 pend held); [done|].
  intros q1 HI1 Hk1 (Hl1 & Hr1 & Ha1 & Hu1 & Hf1 & _) Hc1. apply wp_bind, (wp_flush_blocks pend held); [done|].
  intros q2 HI2 Hk2 (Hl2 & Hc2 & Hu2) (Hv2 & Hr2 & Ha2 & Hf2) Hb2.
  apply wp_bind, (wp_sync_all pend held); [done|]. apply wp_bind, wp_get, wp_bind, (wp_flush_l1 pend held); [done|].
  intros b1 q3 HI3 Hk3 Hl3 Hr3 Hc3 Hu3 Ha3 Hf3. apply wp_bind, (wp_flush_table pend held); [done|].
  intros b2 q4 HI4 Hk4 (Hl4 & Hc4 & Hu4) (Hv4 & Hr4 & Ha4 & Hf4) Hb4.
  assert (keeps held q q4) as Hk by (eauto using keeps_trans).
  assert (flushed q4) as Hfl.
  { split; [by rewrite Hl4, Hl3|by rewrite Hr4|by rewrite Hc4, Hc3, Hc2|by rewrite Hb4, Hr3]. }
  assert (Q tt q4) as Hdone.
  { apply HQ; [done|done|done|congruence| | | |].
    - rewrite Ha4. cbn. congruence.
    - rewrite Hf4. change (flen q3 = flen q). congruence.
    - rewrite Hl4, Hl3. cbn. congruence.
    - rewrite Hr4. cbn. rewrite Hr3, Hr2, Hr1. done. }
  destruct (b1 || b2)%bool; [by apply (wp_sync_data pend held)|by apply wp_ret].
Qed.

Lemma wp_flush pend held q (Q : unit -> QcowFile -> Prop) X :
  Inv pend held q ->
  (forall q', Inv pend held q' -> keeps held q q' -> flushed q' -> unref_clusters q' = [] -> avail_clusters q' = avail_clusters q ++ unref_clusters q ->
     flen q' = flen q -> vec (l1_table q') = vec (l1_table q) -> vec (rtable q') = vec (rtable q) -> Q tt q') ->
  wp flush Q X q.
Proof.
  intros HI HQ. unfold flush. apply wp_bind, (wp_sync_caches pend held); [done|].
  intros q1 HI1 Hk1 [] Hu1 Ha1 Hf1 Hl1 Hr1. apply wp_modify, HQ; try done.
  - by apply inv_recycle.
  - apply (keeps_trans held q q1); [done|apply keeps_clusters].
  - cbn. by rewrite Ha1, Hu1.
Qed.

(** * Opening a qcow2 image that was flushed: what was written is read back. *)
(** ** The header *)
Lemma kept_trans r r1 r2 : kept_file r r1 -> kept_file r1 r2 -> kept_file r r2.
Proof. intros (Hf & Ha & _) (Hf' & Ha' & Hs). split; [congruence|split; [congruence|done]]. Qed.

Lemma wp_read_field r0 p n (Q : Z -> RawFile -> Prop) X r :
  kept_file r0 r -> position r = p -> p + Z.of_nat n <= f_len (file r0) ->
  (forall r', kept_file r0 r' -> position r' = p + Z.of_nat n -> Q (header_field (file r0) p n) r') ->
  wp (read_be n) Q X r.
Proof.
  intros (Hf & Ha & Hs) Hp Hlen HQ. unfold read_be. apply wp_bind, wp_read_exact; [done|lia|rewrite Hf; lia|].
  intros r' Hk Hp'. apply wp_ret. rewrite Hp, Hf. apply HQ; [by apply (kept_trans r0 r)|lia].
Qed.

(** The next field of the header. *)
Ltac next_field := let r := fresh "r" in apply wp_bind, wp_map_err; eapply wp_read_field; [eassumption|eassumption|cbn; lia|cbn [Z.add Pos.add Z.of_nat Pos.of_succ_nat Pos.succ]; intros r ? ?].

Lemma wp_header_new h r (Q : QcowHeader -> RawFile -> Prop) X :
  sane r -> 104 <= f_len (file r) -> header_on (file r) h -> magic h = QCOW_MAGIC ->
  (forall r', kept_file r r' -> Q h r') -> wp header_new Q X r.
Proof.
  intros Hs Hlen [H1 H2] Hmagic HQ. unfold header_new. apply wp_bind, wp_map_err, wp_seek; [done|lia|lia|]. intros r0 Hk0 Hp0.
  injection H1 as Hm Hv Hbo Hbs Hcb Hsz Hcr Hl1s Hl1o Hro Hrc Hnb Hso.
  unfold read_u32_from_file, read_u64_from_file.
  next_field. assert (header_field (file r) 0 4 = magic h) as -> by done. rewrite Hmagic, decide_False by tauto.
  do 12 next_field. rewrite Hv, Hbo, Hbs, Hcb, Hsz, Hcr, Hl1s, Hl1o, Hro, Hrc, Hnb, Hso.
  unfold v3_field. destruct (decide (version h = 2)) as [Hv2|Hv3]; injection H2 as Hif Hcf Haf Hor Hhs.
  - do 5 apply wp_bind, wp_ret. apply wp_ret. rewrite <- Hmagic, <- Hor, <- Hhs, <- Hif at 1. rewrite <- Hcf at 1.
    destruct h. cbn in *. subst. by apply HQ.
  - do 5 next_field. apply wp_ret. rewrite <- Hmagic. destruct h. cbn in *. subst. by apply HQ.
Qed.

(** ** What can be opened *)
(** The header is one that is accepted. *)
Record accepted (h : QcowHeader) (cs : Z) : Prop := {
  acc_magic : magic h = QCOW_MAGIC;
  acc_header : check_header h = Ok tt;
  acc_eager : Z.land (compatible_features h) COMPATIBLE_FEATURES_LAZY_REFCOUNTS = 0;
  acc_l1_max : layout_l2 h cs <= MAX_RAM_POINTER_TABLE_SIZE;
  acc_rt_clusters : 0 <= refcount_table_clusters h <= 2 * layout_refcounts h cs;
  acc_rt_max : layout_l1_clusters h cs + layout_refcounts h cs <= MAX_RAM_POINTER_TABLE_SIZE;
}.

(** ** The image that is read back *)
Section reopened.
Context (q : QcowFile) (HI : Inv [] [] q) (Hf : flushed q).
Context (r : RawFile) (Hr : kept_file (qf_file (raw_file q)) r) (l2_order ref_order : list nat).
Let cs := size_of_cluster q.

Definition reopened : QcowFile :=
  mkQcowFile (set_qf r (raw_file q)) (header q) (from_vec (vec (l1_table q))) (l2_entries q) (cache_new L2_CACHE l2_order)
    (mkRefCount (from_vec (vec (rtable q))) (h_refcount_table_offset (header q)) (cache_new REFBLOCK_CACHE ref_order) (size_of_cluster q / 2)
       (size_of_cluster q) (max_valid_cluster_offset (refcounts q))) 0 [] [].

Lemma reopened_img : img reopened = img q.
Proof using Hr. apply Hr. Qed.

(** A table that is not cached is on the file. *)
Lemma clean_view (index : VecCache) cache disk i n k order :
  all_clean cache -> (forall t, cmap cache !! i = Some t -> cached_ok n disk index i t) ->
  table_view index cache disk i = table_view (from_vec (vec index)) (cache_new k order) disk i.
Proof using.
  intros Hc Hok. unfold table_view. cbn. destruct (vec index !! i) as [a|] eqn:Ha; [|done]. case_decide; [done|]. rewrite lookup_empty.
  destruct (cmap cache !! i) as [t|] eqn:Ht; [|done]. destruct (Hok t eq_refl) as (a' & Ha' & _ & _ & Hv). rewrite Ha in Ha'. injection Ha' as <-.
  apply Hv. destruct (dirty t) eqn:Hd; [|done]. destruct (Hc i). by exists t.
Qed.

Lemma reopened_l2 i : l2_view reopened i = l2_view q i.
Proof using HI Hf Hr.
  unfold l2_view at 2. rewrite (clean_view _ _ _ i (l2_size q) L2_CACHE l2_order) by (apply Hf || apply (rep_l2 q (inv_rep _ _ _ HI))).
  apply table_view_disk. intros a _ _ _. unfold l2_disk. by rewrite reopened_img.
Qed.
Lemma reopened_blocks t : block_view reopened t = block_view q t.
Proof using HI Hf Hr.
  unfold block_view at 2. rewrite (clean_view _ _ _ t (block_size q) REFBLOCK_CACHE ref_order) by (apply Hf || intros b Hb; by apply (rep_block q (inv_rep _ _ _ HI))).
  apply table_view_disk. intros a _ _ _. unfold block_disk. by rewrite reopened_img.
Qed.

Lemma reopened_content x : content reopened x = content q x.
Proof using HI Hf Hr. unfold content. rewrite reopened_l2, reopened_img. done. Qed.

Lemma reopened_inv : Inv [] [] reopened.
Proof using HI Hf Hr.
  destruct HI as [Hgeo Hraw Hal Hrep Hcnt]. split.
  - destruct Hr as (_ & Ha & _). destruct Hgeo. split; try done. cbn. by rewrite Ha.
  - destruct Hraw. assert (flen reopened = flen q) as Hl by (unfold flen; by rewrite reopened_img).
    split; [apply Hr|by rewrite reopened_img|by rewrite Hl|by rewrite Hl].
  - apply (allocation_transfer id [] [] q); [done|done|unfold flen; by rewrite reopened_img|..|done].
    intros [|k|k|k|k j|k|k|k|k] a Ho; try done. destruct Ho as [Hv Hne]. rewrite reopened_l2 in Hv. done.
  - destruct Hrep as [Hl2 Hpl Hbl Hl1 Hrt Hh]. split; rewrite ?reopened_img; try done.
    + intros i a Ha Hne _. apply (Hpl i); [done|done|]. apply Hf.
    + intros _. apply Hl1, Hf.
    + intros _. apply Hrt, Hf.
  - intros o a Ho Howns Hn. rewrite (refcount_same q) by (done || apply reopened_blocks). apply (Hcnt o); [done| |done].
    destruct o; try done. destruct Howns as [Hv Hne]. by rewrite reopened_l2 in Hv.
Qed.
End reopened.

(** ** The clusters that can be used *)
(** A cluster nobody counts is not in use. *)
Lemma inv_free q a :
  Inv [] [] q -> refcount_of q a = 0 -> unref_clusters q = [] -> a ∉ avail_clusters q ->
  (size_of_cluster q | a) -> 0 <= a -> a + size_of_cluster q <= flen q ->
  Inv [] [] (set_clusters (unref_clusters q) (avail_clusters q ++ [a]) q).
Proof.
  intros [Hgeo Hraw [Hd Hp] Hrep Hcnt] Hz Hu Ha Hdiv H0 Hl. set (q' := set_clusters _ _ q).
  assert (forall o b, owns [] q' o b -> owns [] q o b \/ o = OAvail (length (avail_clusters q)) /\ b = a) as Hown.
  { intros [|k|k|k|k j|k|k|k|k] b Ho; try (by left). cbn in Ho. apply lookup_app_Some in Ho as [Ho|[Hk Ho]]; [by left|].
    apply list_lookup_singleton_Some in Ho as [Hk0 <-]. right. split; [f_equal; lia|done]. }
  assert (forall o, owns [] q o a -> False) as Hnone.
  { intros o Ho. assert (counted o -> False) as Hc by (intros Hc; specialize (Hcnt o a Hc Ho ltac:(set_solver)); lia).
    destruct o; try (by apply Hc); cbn in Ho; [|by rewrite Hu in Ho|by destruct Ho].
    apply Ha. by eapply list_elem_of_lookup_2. }
  split; [by destruct Hgeo; split|by destruct Hraw; split| |by destruct Hrep; split|].
  - split.
    + intros o o' b [Ho|[-> ->]]%Hown [Ho'|[-> Hb]]%Hown; [by eapply Hd|subst; by destruct (Hnone _ Ho)|by destruct (Hnone _ Ho')|done].
    + intros o b [Ho|[-> ->]]%Hown; [by apply (Hp o)|done].
  - intros o b Ho [Hb|[-> _]]%Hown Hn; [by apply (Hcnt o)|done].
Qed.

Lemma wp_find_avail_loop clusters : forall q (Q : unit -> QcowFile -> Prop) X,
  Inv [] [] q -> unref_clusters q = [] -> NoDup clusters -> (forall a, a ∈ clusters -> a ∉ avail_clusters q) ->
  (forall a, a ∈ clusters -> (size_of_cluster q | a) /\ 0 <= a /\ a + size_of_cluster q <= flen q) ->
  (forall q', Inv [] [] q' -> keeps [] q q' -> unref_clusters q' = [] -> flen q' = flen q -> Q tt q') ->
  wp (find_avail_loop clusters) Q X q.
Proof.
  induction clusters as [|a clusters IH]; intros q Q X HI Hu Hnd Hav Hin HQ; [by apply wp_ret, HQ|].
  apply NoDup_cons in Hnd as [Ha Hnd]. destruct (Hin a ltac:(set_solver)) as (Hd & H0 & Hl).
  cbn [find_avail_loop]. unfold find_avail_step. apply wp_bind, wp_bind, wp_map_err, (wp_get_cluster_refcount [] []); [done| |].
  { split; [done|]. pose proof (raw_bound _ (inv_raw _ _ _ HI)). lia. }
  intros q1 HI1 Hk1 (_ & _ & Hu1) (Hv1 & _ & Hav1 & Hl1) _. rewrite Hu in Hu1.
  assert (forall q2, Inv [] [] q2 -> keeps [] q q2 -> unref_clusters q2 = [] -> flen q2 = flen q -> (forall b, b ∈ clusters -> b ∉ avail_clusters q2) ->
    wp (find_avail_loop clusters) Q X q2) as Hnext.
  { intros q2 HI2 Hk2 Hu2 Hl2 Hav2. apply IH; [done..| |].
    - intros b Hb. rewrite (ks_cs _ _ _ Hk2), Hl2. apply Hin. set_solver.
    - intros q3 HI3 Hk3 Hu3 Hl3. apply HQ; [done|by apply (keeps_trans [] q q2)|done|by rewrite Hl3]. }
  case_decide as Hz.
  - apply wp_modify. set (q2 := set_clusters _ _ q1). apply (Hnext q2); [|by apply (keeps_trans [] q q1); [|apply keeps_clusters]|done|done|].
    + apply inv_free; [done| |done|rewrite Hav1; apply Hav; set_solver|by rewrite (ks_cs _ _ _ Hk1)|done|by rewrite (ks_cs _ _ _ Hk1), Hl1].
      rewrite <- Hz. apply refcount_same; [apply Hk1|done].
    + intros b Hb. unfold q2. cbn. rewrite Hav1. intros [Hb'|Hb']%elem_of_app; [|set_solver]. by apply (Hav b); [set_solver|].
  - apply wp_ret, Hnext; [done..|]. intros b Hb. rewrite Hav1. apply Hav. set_solver.
Qed.

Lemma clusters_below_spec q a : geometry q -> raw_ok q -> a ∈ clusters_below (flen q) (size_of_cluster q) ->
  (size_of_cluster q | a) /\ 0 <= a /\ a + size_of_cluster q <= flen q.
Proof.
  intros Hg Hraw (k & -> & Hk)%list_elem_of_fmap. apply elem_of_seqZ in Hk. pose proof (cs_bounds q Hg).
  destruct (raw_whole _ Hraw) as [m Hm]. unfold div_round_up_u64 in Hk. rewrite Hm, Z.div_mul, Z.mod_mul, decide_True in Hk by (done || lia).
  split; [apply Z.divide_factor_r|]. rewrite Hm. nia.
Qed.
Lemma clusters_below_nodup len cs : 0 < cs -> NoDup (clusters_below len cs).
Proof. intros Hcs. apply NoDup_fmap_2; [|apply NoDup_seqZ]. intros x y Hxy. nia. Qed.

Lemma wp_find_avail q (Q : unit -> QcowFile -> Prop) X :
  Inv [] [] q -> unref_clusters q = [] -> avail_clusters q = [] ->
  (forall q', Inv [] [] q' -> keeps [] q q' -> flen q' = flen q -> Q tt q') -> wp find_avail_clusters Q X q.
Proof.
  intros HI Hu Ha HQ. unfold find_avail_clusters. apply wp_bind, wp_get, wp_bind, wp_map_err, wp_in_raw, wp_on_file, wp_metadata_len; [apply HI|].
  assert (set_raw_file (set_qf (qf_file (raw_file q)) (raw_file q)) q = q) as -> by (by destruct q as [[]]).
  pose proof (cs_bounds q (inv_geo _ _ _ HI)). fold (img q). fold (flen q).
  apply wp_find_avail_loop; [done|done|apply clusters_below_nodup; lia| | |by intros q' ? ? _ ?; apply HQ].
  - intros a _. rewrite Ha. set_solver.
  - intros a. apply clusters_below_spec; apply HI.
Qed.

(** ** Opening the image *)
Lemma wp_check_compressed l1 : forall q (Q : unit -> QcowRawFile -> Prop) X,
  Inv [] [] q -> all_clean (l2_cache q) -> (forall a, a ∈ l1 -> exists i, vec (l1_table q) !! i = Some a) ->
  (forall r, kept_file (qf_file (raw_file q)) r -> Q tt (set_qf r (raw_file q))) -> wp (check_compressed l1) Q X (raw_file q).
Proof.
  induction l1 as [|a l1 IH]; intros q Q X HI Hc Hin HQ.
  { apply wp_ret. specialize (HQ (qf_file (raw_file q))). destruct q as [[]]. apply HQ. split_and!; [done|done|]. apply (inv_raw _ _ _ HI). }
  destruct (Hin a ltac:(set_solver)) as [i Hi]. cbn [check_compressed]. apply wp_bind. case_decide as Hz.
  { apply wp_ret, IH; [done|done|intros b Hb; apply Hin; set_solver|done]. }
  apply wp_bind, wp_attempt, (wp_read_l2_raw [] [] q a _ _ i); [done|done|done|apply Hc|]. intros r Hr. apply wp_ret.
  destruct (put_kept _ _ _ _ HI Hr) as (HI1 & _). apply (IH (put_file r q)); [done|done|intros b Hb; apply Hin; set_solver|].
  intros r' Hr'. apply (HQ r'). by apply (kept_trans _ r).
Qed.

Lemma disk_table_head w n f off : (0 < n)%nat -> disk_table w n f off !! 0%nat = Some (header_field f off w).
Proof.
  intros Hn. destruct n as [|n]; [lia|]. unfold disk_table. cbn. unfold header_field. do 2 f_equal.
  rewrite <- fmap_take. f_equal. replace (Z.of_nat (w * S n)) with (Z.of_nat w + Z.of_nat (w * n)) by lia. rewrite seqZ_app by lia.
  apply take_app_length'. rewrite length_seqZ. lia.
Qed.

Lemma wp_rebuild_required q r (Q : bool -> RawFile -> Prop) X :
  Inv [] [] q -> flushed q -> accepted (header q) (size_of_cluster q) -> kept_file (qf_file (raw_file q)) r ->
  (forall r', kept_file (qf_file (raw_file q)) r' -> Q false r') -> wp (rebuild_required (header q)) Q X r.
Proof.
  intros HI Hf Hacc Hr HQ. pose proof (inv_geo _ _ _ HI) as Hg. pose proof (rt_pos q Hg) as Hn. pose proof (cs_bounds q Hg) as Hcs.
  assert (owns [] q (ORefTable 0) (h_refcount_table_offset (header q))) as Ho by (cbn; split; lia).
  pose proof (placed_bounds _ _ _ _ _ HI Ho) as (_ & Hp & Hl & _ & Hb).
  pose proof (inv_counted _ _ _ HI OHeader 0 I eq_refl ltac:(set_solver)) as Hrc.
  destruct (vec (rtable q) !! 0%nat) as [a|] eqn:Ha; [|apply lookup_ge_None in Ha; lia].
  assert (a <> 0 /\ exists c rest, block_view q 0 = c :: rest /\ 1 <= c) as (Hne & c & rest & Hbv & Hc).
  { unfold refcount_of in Hrc. rewrite !Zdiv_0_l, Zmod_0_l in Hrc. change (Z.to_nat 0) with 0%nat in Hrc.
    destruct (block_view q 0) as [|c rest] eqn:Hbv; [by rewrite lookup_nil in Hrc|].
    split; [|by exists c, rest]. intros ->. unfold block_view, table_view in Hbv. by rewrite Ha, decide_True in Hbv. }
  assert (header_field (img q) (h_refcount_table_offset (header q)) 8 = a) as Hfield.
  { pose proof (disk_table_head 8 _ (img q) (h_refcount_table_offset (header q)) Hn) as Hh.
    rewrite (rep_rt q (inv_rep _ _ _ HI)), Ha in Hh by apply Hf. by injection Hh. }
  assert (header_field (img q) a 2 = c) as Hcount.
  { pose proof (disk_table_head 2 _ (img q) a (block_size_pos q Hg)) as Hh. fold (block_disk q a) in Hh.
    unfold block_view in Hbv. rewrite (clean_view _ _ _ 0 (block_size q) 0 []) in Hbv by (apply Hf || intros b Hb'; by apply (rep_block q (inv_rep _ _ _ HI))).
    unfold table_view in Hbv. cbn in Hbv. rewrite Ha, decide_False, lookup_empty in Hbv by done. rewrite Hbv in Hh. by injection Hh. }
  pose proof (placed_bounds _ _ _ _ _ HI (conj Ha Hne : owns [] q (OBlock 0) a)) as (_ & Hpa & Hla & _ & Hba).
  unfold flen, img in *. unfold rebuild_required.
  apply wp_bind, wp_map_err, wp_seek; [apply Hr|lia|lia|]. intros r1 Hr1 Hp1. pose proof (kept_trans _ _ _ Hr Hr1) as Hk1.
  apply wp_bind, wp_map_err, (wp_read_field (qf_file (raw_file q)) (h_refcount_table_offset (header q))); [done|done|lia|]. intros r2 Hk2 Hp2.
  rewrite Hfield. rewrite decide_True by done. apply wp_bind, wp_bind, wp_map_err, wp_seek; [apply Hk2|lia|lia|]. intros r3 Hr3 Hp3.
  apply wp_bind, wp_map_err, (wp_read_field (qf_file (raw_file q)) a); [by apply (kept_trans _ r2)|done|lia|]. intros r4 Hk4 Hp4.
  apply wp_ret. rewrite Hcount, (acc_eager _ _ Hacc), decide_False by tauto. rewrite bool_decide_eq_false_2 by lia. by apply wp_ret, HQ.
Qed.

Lemma wp_refcount_new q r order (Q : RefCount -> QcowRawFile -> Prop) X :
  Inv [] [] q -> flushed q -> accepted (header q) (size_of_cluster q) -> kept_file (qf_file (raw_file q)) r ->
  (forall r', kept_file (qf_file (raw_file q)) r' -> Q (refcounts (reopened q r' [] order)) (set_qf r' (raw_file q))) ->
  wp (refcount_new (h_refcount_table_offset (header q)) (layout_refcounts (header q) (size_of_cluster q)) (size_of_cluster q / 2) (size_of_cluster q) order)
    Q X (set_qf r (raw_file q)).
Proof.
  intros HI Hf Hacc (Hf1 & Ha1 & Hs1) HQ. pose proof (inv_geo _ _ _ HI) as Hg. pose proof (rt_pos q Hg) as Hn. pose proof (cs_bounds q Hg) as Hcs.
  destruct (fixed_end [] [] q HI ORefTable (h_refcount_table_offset (header q)) (length (vec (rtable q))) Hn) as (Hoff & stop & Hstop & _); [done|].
  unfold refcount_new. rewrite <- (geo_rtn q Hg). apply wp_bind, wp_read_pointer_table; [done|done|unfold flen, img in Hstop; cbn; rewrite Hf1; lia|].
  intros r' Hr'. apply wp_ret. cbn [qf_file set_qf]. rewrite Hf1. fold (img q). cbn zeta.
  rewrite (rep_rt q (inv_rep _ _ _ HI)) by apply Hf.
  assert (wmul 64 (wsub 64 (wmul 64 (Z.of_nat (length (vec (rtable q)))) (size_of_cluster q / 2)) 1) (size_of_cluster q) =
    max_valid_cluster_offset (refcounts q)) as ->; [|by apply (HQ r'), (kept_trans _ r)].
  pose proof (geo_bound q Hg) as Hb. rewrite (geo_max q Hg) in *.
  pose proof (half_cluster q Hg). set (m := Z.of_nat _ * _) in *. assert (0 <= m - 1 < 2 ^ 55) by nia.
  rewrite (wmul_small 64 (Z.of_nat _)) by (unfold in_width; fold m; lia). fold m.
  rewrite wsub_small by (unfold in_width; lia). by rewrite wmul_small by (unfold in_width; lia).
Qed.

(** The end of the tables does not overflow. *)
Lemma table_ends q : Inv [] [] q -> accepted (header q) (size_of_cluster q) ->
  checked_add 64 (l1_table_offset (header q)) (l1_address_offset q (virtual_size q)) <> None /\
  checked_add 64 (h_refcount_table_offset (header q)) (wmul 64 (refcount_table_clusters (header q)) (size_of_cluster q)) <> None.
Proof.
  intros HI Hacc. pose proof (inv_geo _ _ _ HI) as Hg. pose proof (cs_bounds q Hg) as Hcs. pose proof (l2_bytes q Hg) as Hl2.
  pose proof (geo_l1_pos q Hg). pose proof (rt_pos q Hg). pose proof (geo_size q Hg).
  assert (owns [] q (OL1 0) (l1_table_offset (header q))) as Ho1 by (cbn; split; lia).
  assert (owns [] q (ORefTable 0) (h_refcount_table_offset (header q))) as Ho2 by (cbn; split; lia).
  pose proof (placed_bounds _ _ _ _ _ HI Ho1) as (_ & Hp1 & _ & _ & Hb1). pose proof (placed_bounds _ _ _ _ _ HI Ho2) as (_ & Hp2 & _ & _ & Hb2).
  unfold checked_add. split.
  - unfold l1_address_offset, l1_table_index. rewrite (geo_l2 q Hg). unfold l2_size in Hl2.
    assert (0 <= virtual_size q / size_of_cluster q / (size_of_cluster q / 8) <= 2 ^ 44).
    { split; [apply Z.div_pos; [apply Z.div_pos|]; lia|]. transitivity (virtual_size q / size_of_cluster q); [apply Z.div_le_upper_bound|]; [lia| |].
      - assert (0 <= virtual_size q / size_of_cluster q) by (apply Z.div_pos; lia). nia.
      - apply Z.div_le_upper_bound; nia. }
    rewrite decide_True by (unfold in_width; lia). done.
  - pose proof (acc_rt_clusters _ _ Hacc). pose proof (acc_rt_max _ _ Hacc) as Hmax. unfold MAX_RAM_POINTER_TABLE_SIZE in Hmax.
    assert (0 <= layout_l1_clusters (header q) (size_of_cluster q)).
    { unfold layout_l1_clusters, div_round_up_u64 at 1. rewrite <- (geo_l1 q Hg). unfold l2_size in Hl2.
      assert (0 <= Z.of_nat (length (vec (l1_table q))) / (size_of_cluster q / 8)) by (apply Z.div_pos; lia). case_decide; lia. }
    rewrite wmul_small by (unfold in_width; nia). rewrite decide_True by (unfold in_width; nia). done.
Qed.

Lemma wp_open_tables q r l2_order ref_order (Q : QcowFile -> QcowRawFile -> Prop) X :
  Inv [] [] q -> flushed q -> accepted (header q) (size_of_cluster q) -> kept_file (qf_file (raw_file q)) r ->
  (forall r' q' raw, kept_file (qf_file (raw_file q)) r' -> Inv [] [] q' -> keeps [] (reopened q r' l2_order ref_order) q' -> flen q' = flen q -> Q q' raw) ->
  wp (open_tables (header q) false l2_order ref_order) Q X (set_qf r (raw_file q)).
Proof.
  intros HI Hf Hacc Hr HQ. pose proof (inv_geo _ _ _ HI) as Hg. pose proof Hr as (Hf1 & Ha1 & Hs1).
  unfold open_tables. apply wp_bind, wp_ret, wp_bind, wp_get. cbn [cluster_size set_qf]. fold (size_of_cluster q).
  fold (layout_clusters (header q) (size_of_cluster q)). fold (layout_l2 (header q) (size_of_cluster q)).
  fold (layout_l1_clusters (header q) (size_of_cluster q)). fold (layout_refcounts (header q) (size_of_cluster q)).
  rewrite decide_False by (pose proof (acc_l1_max _ _ Hacc); lia).
  destruct (fixed_end [] [] q HI OL1 (l1_table_offset (header q)) (length (vec (l1_table q))) (geo_l1_pos q Hg)) as (Hoff & stop & Hstop & _); [done|].
  rewrite <- (geo_l1 q Hg) at 1. apply wp_bind, wp_map_err, wp_read_pointer_table; [done|done|unfold flen, img in Hstop; cbn; rewrite Hf1; lia|].
  intros r1 Hr1. cbn [qf_file set_qf] in *. rewrite Hf1. fold (img q). cbn zeta.
  change ((fun ptr => Z.land ptr L1_TABLE_OFFSET_MASK) <$> disk_table 8 (length (vec (l1_table q))) (img q) (l1_table_offset (header q)))
    with (masked (disk_table 8 (length (vec (l1_table q))) (img q) (l1_table_offset (header q)))).
  rewrite (rep_l1 q (inv_rep _ _ _ HI)) by apply Hf. pose proof (kept_trans _ _ _ Hr Hr1) as Hk1.
  rewrite decide_False by (pose proof (acc_rt_clusters _ _ Hacc); lia). rewrite decide_False by (pose proof (acc_rt_max _ _ Hacc); lia).
  apply wp_bind, wp_map_err. apply (wp_refcount_new q r1); [done..|]. intros r2 Hk2.
  destruct (put_kept _ _ _ _ HI Hk2) as (HI2 & _).
  apply wp_bind, (wp_check_compressed _ (put_file r2 q)); [done|apply Hf|by intros a Ha; apply list_elem_of_lookup in Ha|].
  intros r3 Hr3. pose proof (kept_trans _ _ _ Hk2 Hr3) as Hk3. apply wp_bind, wp_get.
  set (q3 := reopened q r3 l2_order ref_order).
  assert (mkQcowFile (set_qf r3 (raw_file (put_file r2 q))) (header q) (from_vec (vec (l1_table q))) (size_of_cluster q / 8) (cache_new L2_CACHE l2_order)
    (refcounts (reopened q r2 [] ref_order)) 0 [] [] = q3) as -> by (unfold q3, reopened; rewrite (geo_l2 q Hg); done).
  destruct (table_ends q HI Hacc) as [He1 He2].
  rewrite !decide_False by done. pose proof (reopened_inv q HI Hf r3 Hk3 l2_order ref_order) as HI3. fold q3 in HI3.
  assert (flen q3 = flen q) as Hl3 by (unfold flen, q3; by rewrite reopened_img).
  pose proof (wp_find_avail q3 (fun _ q' => Q q' (raw_file q')) (fun _ _ => False) HI3 eq_refl eq_refl (fun q' HI' Hk' Hl' => HQ r3 q' _ Hk3 HI' Hk' (eq_trans Hl' Hl3))) as Hfind.
  unfold wp in *. change (set_raw_file _ q3) with q3. destruct (find_avail_clusters q3) as [[[]| |] q']; done.
Qed.

(** ** [QcowFile::from] *)
Lemma power_size q : geometry q -> Z.shiftl 1 (cluster_bits (header q)) = size_of_cluster q /\
  0 < size_of_cluster q /\ 2 ^ Z.log2 (size_of_cluster q) = size_of_cluster q.
Proof.
  intros Hg. pose proof (geo_bits q Hg). rewrite (geo_cs q Hg). rewrite Z.shiftl_1_l. split; [done|].
  rewrite Z.log2_pow2 by lia. split; [apply Z.pow_pos_nonneg; lia|done].
Qed.

Lemma wp_from q r l2_order ref_order (Q : QcowFile -> RawFile -> Prop) X :
  Inv [] [] q -> flushed q -> accepted (header q) (size_of_cluster q) -> kept_file (qf_file (raw_file q)) r ->
  (forall r' q' f, kept_file (qf_file (raw_file q)) r' -> Inv [] [] q' -> keeps [] (reopened q r' l2_order ref_order) q' -> flen q' = flen q -> Q q' f) ->
  wp (from l2_order ref_order) Q X r.
Proof.
  intros HI Hf Hacc Hr HQ. pose proof (inv_geo _ _ _ HI) as Hg. pose proof (cs_bounds q Hg) as Hcs. pose proof Hr as (Hf1 & Ha1 & Hs1).
  pose proof (placed_bounds _ _ _ _ _ HI (eq_refl : owns [] q OHeader 0)) as (_ & _ & Hlen & _). rewrite Z.add_0_l in Hlen.
  assert (owns [] q (ORefTable 0) (h_refcount_table_offset (header q))) as Ho by (pose proof (rt_pos q Hg); cbn; split; lia).
  pose proof (placed_bounds _ _ _ _ _ HI Ho) as (_ & _ & Hrt & _). unfold flen, img in *.
  unfold from. apply wp_bind, (wp_header_new (header q)); [done|rewrite Hf1; lia|rewrite Hf1; apply HI|apply Hacc|]. intros r1 Hr1.
  pose proof (kept_trans _ _ _ Hr Hr1) as Hk1. rewrite (acc_header _ _ Hacc). apply wp_bind, wp_ret.
  apply wp_bind, wp_map_err, wp_metadata_len; [apply Hk1|]. destruct Hk1 as (Hf2 & Hk1'). rewrite Hf2, decide_False by lia.
  apply wp_bind, (wp_rebuild_required q); [done..| |]; [by split|]. intros r2 Hk2.
  destruct (power_size q Hg) as (-> & Hpos & Hpow).
  pose proof (wp_open_tables q r2 l2_order ref_order (fun q' raw => Q q' (qf_file raw)) (fun e raw => X e (qf_file raw)) HI Hf Hacc Hk2
    (fun r' q' raw => HQ r' q' (qf_file raw))) as Hopen.
  assert (raw_from r2 (size_of_cluster q) = Some (set_qf r2 (raw_file q))) as Hraw.
  { unfold raw_from. rewrite decide_True by done. unfold set_qf. rewrite (geo_mask q Hg). done. }
  unfold wp, with_clusters in *. rewrite Hraw. by destruct (open_tables _ _ _ _ _) as [[]].
Qed.
