(* ===== verification/QcowSpec.v ===== *)
(** A qcow2 image is a disk: what its operations promise, as operations on a flat array of
    bytes, and what seeking data and holes finds. *)
From stdpp Require Import base numbers list gmap.
From S2P Require Import Prelude Bytes RawFile QcowTables QcowHeader QcowImage QcowDisk QcowInv QcowSteps QcowCount QcowLookup QcowWrite QcowIo QcowOpen.

#[local] Open Scope Z_scope.

(** ** A flat disk *)
Record flat := mkFlat { fl_bytes : Z -> Z; fl_size : Z; fl_pos : Z }.

Inductive request :=
| Read (n : Z)
| Write (bs : list Z)
| Seek (pos : SeekFrom)
| PunchHole (offset length : Z)
| WriteZeroesAt (offset length : Z)
| Flush
| Reopen (l2_order ref_order : list nat).
Inductive reply := Bytes (bs : list Z) | Count (n : Z) | Position (n : Z) | Nothing | Invalid.

Definition flat_serve (req : request) (d : flat) : reply * flat :=
  match req with
  | Read n => let count := Z.min n (fl_size d - fl_pos d) in
    (Bytes (get_bytes (fl_bytes d) (fl_pos d) count), mkFlat (fl_bytes d) (fl_size d) (fl_pos d + count))
  | Write bs => let count := Z.min (Z.of_nat (length bs)) (fl_size d - fl_pos d) in
    (Count count, mkFlat (put_bytes (fl_pos d) (take (Z.to_nat count) bs) (fl_bytes d)) (fl_size d) (fl_pos d + count))
  | Seek pos =>
    let p := match pos with Start o => o | End_ o => fl_size d + o | Current o => fl_pos d + o end in
    if decide (0 <= p <= fl_size d) then (Position p, mkFlat (fl_bytes d) (fl_size d) p) else (Invalid, d)
  | PunchHole offset length => (Nothing, mkFlat (put_zeroes offset length (fl_bytes d)) (fl_size d) (fl_pos d))
  | WriteZeroesAt offset length => (Count length, mkFlat (put_zeroes offset length (fl_bytes d)) (fl_size d) (fl_pos d))
  | Flush => (Nothing, d)
  | Reopen _ _ => (Nothing, mkFlat (fl_bytes d) (fl_size d) 0)
  end.
Fixpoint flat_session (reqs : list request) (d : flat) : list reply * flat :=
  match reqs with
  | [] => ([], d)
  | req :: reqs =>
    let (rep, d) := flat_serve req d in
    let (reps, d) := flat_session reqs d in (rep :: reps, d)
  end.

(** What the types of the arguments allow; a range does not wrap. *)
Definition disk_request_ok (req : request) : Prop :=
  match req with
  | Read n => 0 <= n < 2 ^ 63
  | Write bs => Forall byte_ok bs /\ Z.of_nat (length bs) < 2 ^ 63
  | Seek (Start o) => in_width 64 o
  | Seek (End_ o) | Seek (Current o) => - 2 ^ 63 <= o < 2 ^ 63
  | PunchHole offset length | WriteZeroesAt offset length => in_width 64 offset /\ in_width 64 length /\ offset + length < 2 ^ 64
  | Flush | Reopen _ _ => True
  end.

(** ** The image as a disk *)
Section session.
Context `{Hhost : HostFile, Hlaws : !HostFileLaws}.

Inductive failure := IoFailed (e : io_error) | OpenFailed (e : Error).

(** The image is dropped and opened again. *)
Definition reopen (l2_order ref_order : list nat) : M QcowFile failure unit := fun q =>
  let '(_, q) := drop_image q in
  match from l2_order ref_order (qf_file (raw_file q)) with
  | (Done q', _) => (Done tt, q')
  | (Fail e, _) => (Fail (OpenFailed e), q)
  | (Crashed, _) => (Crashed, q)
  end.

Definition serve_request (req : request) : M QcowFile failure reply :=
  match req with
  | Read n => let* bs := map_err IoFailed (qcow_read n) in ret (Bytes bs)
  | Write bs => let* n := map_err IoFailed (qcow_write bs) in ret (Count n)
  | Seek pos =>
    let* r := attempt (qcow_seek pos) in
    match r with Ok o => ret (Position o) | Err _ => ret Invalid end
  | PunchHole offset length => map_err IoFailed (qcow_punch_hole offset length) ;;; ret Nothing
  | WriteZeroesAt offset length => let* n := map_err IoFailed (qcow_write_zeroes_at offset length) in ret (Count n)
  | Flush => map_err IoFailed flush ;;; ret Nothing
  | Reopen l2_order ref_order => reopen l2_order ref_order ;;; ret Nothing
  end.
Fixpoint session (reqs : list request) : M QcowFile failure (list reply) :=
  match reqs with
  | [] => ret []
  | req :: reqs => let* rep := serve_request req in let* reps := session reqs in ret (rep :: reps)
  end.

(** The image holds the disk. *)
Record holds (d : flat) (q : QcowFile) : Prop := {
  ho_inv : Inv [] [] q;
  ho_accepted : accepted (header q) (size_of_cluster q);
  ho_size : virtual_size q = fl_size d;
  ho_pos : current_offset q = fl_pos d;
  ho_range : 0 <= fl_pos d <= fl_size d;
  ho_bytes x : 0 <= x < fl_size d -> content q x = fl_bytes d x;
}.

Lemma holds_disk d d' q q' :
  holds d q -> Inv [] [] q' -> header q' = header q -> size_of_cluster q' = size_of_cluster q -> current_offset q' = fl_pos d' ->
  fl_size d' = fl_size d -> 0 <= fl_pos d' <= fl_size d -> (forall x, 0 <= x < fl_size d -> content q' x = fl_bytes d' x) -> holds d' q'.
Proof.
  intros [] HI Hh Hc Ho Hs Hp Hb. split; [done|by rewrite Hh, Hc|unfold virtual_size; by rewrite Hh, Hs|done|by rewrite Hs|by rewrite Hs].
Qed.

Lemma inv_offset pend held q o : Inv pend held q -> Inv pend held (set_offset o q).
Proof.
  intros [Hg Hraw Hal Hrep Hcnt]. split; [by destruct Hg; split|by destruct Hraw; split|by apply (allocation_same held q)|by destruct Hrep; split|].
  by apply (counted_same pend q).
Qed.

(** ** Reading and writing *)
Lemma limit_file q d n : holds d q -> 0 <= n < 2 ^ 63 -> limit_range_file q (current_offset q) n = Z.min n (fl_size d - fl_pos d) /\
  0 <= Z.min n (fl_size d - fl_pos d) /\ in_width 64 (fl_pos d + Z.min n (fl_size d - fl_pos d)).
Proof.
  intros [HI _ Hs Hp Hr _] Hn. pose proof (geo_size q (inv_geo _ _ _ HI)). split; [|unfold in_width; lia]. unfold limit_range_file, checked_add. rewrite Hs, Hp.
  rewrite decide_False; [done|]. rewrite decide_True by (unfold in_width; lia). intros [|]; [done|lia].
Qed.

(** The bytes a request may change. *)
Definition changed_range (req : request) (d : flat) (x : Z) : Prop :=
  match req with
  | Write bs => fl_pos d <= x < fl_pos d + Z.of_nat (length bs)
  | PunchHole offset length | WriteZeroesAt offset length => offset <= x < offset + length
  | _ => False
  end.
(** A request that fails for lack of space leaves the rest of the disk as it was. *)
Definition spared (req : request) (d : flat) (q : QcowFile) : Prop :=
  forall x, 0 <= x < fl_size d -> ~ changed_range req d x -> content q x = fl_bytes d x.
Definition served (req : request) (d : flat) (m : M QcowFile failure reply) (q : QcowFile) : Prop :=
  wp m (fun rep q' => rep = (flat_serve req d).1 /\ holds (flat_serve req d).2 q')
    (fun e q' => e = IoFailed (OsError ENOSPC) /\ spared req d q') q.

(** Reading does not fail. *)
Lemma wp_qcow_read d q n (Q : list Z -> QcowFile -> Prop) X :
  let count := Z.min n (fl_size d - fl_pos d) in
  holds d q -> 0 <= n < 2 ^ 63 ->
  (forall q', holds (mkFlat (fl_bytes d) (fl_size d) (fl_pos d + count)) q' -> Q (get_bytes (fl_bytes d) (fl_pos d) count) q') -> wp (qcow_read n) Q X q.
Proof.
  intros count Hd Hn HQ. destruct (limit_file q d n Hd Hn) as (Hlim & Hpos & Hw). pose proof Hd as [HI _ Hs Hp Hr Hb]. pose proof (inv_geo _ _ _ HI) as Hg.
  fold count in Hlim, Hpos, Hw. unfold qcow_read. apply wp_bind, wp_get. rewrite Hlim, Hp.
  apply wp_bind, (wp_read_loop [] []); [done|lia|lia|lia|rewrite Z.add_0_r; apply chunks_fuel; [done|lia|lia]|]. intros q1 HI1 Hd1.
  rewrite Z.add_0_r, Z.sub_0_r. apply wp_bind, wp_modify, wp_ret. rewrite (sd_offset _ _ Hd1), Hp, wadd_small by done.
  assert (get_bytes (content q) (fl_pos d) count = get_bytes (fl_bytes d) (fl_pos d) count) as -> by (apply get_bytes_ext; intros k Hk; apply Hb; lia).
  apply HQ, (holds_disk d _ q); cbn; [done|by apply inv_offset|apply Hd1|apply Hd1|done|done|lia|].
  intros x Hx. rewrite <- Hb by done. change (content q1 x = content q x). apply Hd1.
Qed.

Lemma serve_read d q n : holds d q -> disk_request_ok (Read n) -> served (Read n) d (serve_request (Read n)) q.
Proof. intros Hd Hn. apply wp_bind, wp_map_err, (wp_qcow_read d); [done|done|]. intros q' Hq'. by apply wp_ret. Qed.

Lemma part_length buf n : 0 <= n -> part_of buf 0 n = take (Z.to_nat n) buf.
Proof. intros Hn. unfold part_of. by rewrite Z.sub_0_r. Qed.

Lemma serve_write d q bs : holds d q -> disk_request_ok (Write bs) -> served (Write bs) d (serve_request (Write bs)) q.
Proof.
  intros Hd [Hok Hn]. destruct (limit_file q d (Z.of_nat (length bs)) Hd) as (Hlim & Hpos & Hw); [lia|].
  pose proof Hd as [HI _ Hs Hp Hr Hb]. pose proof (inv_geo _ _ _ HI) as Hg. unfold served. cbn [serve_request flat_serve fst snd] in *.
  set (count := Z.min _ (fl_size d - fl_pos d)) in *.
  apply wp_bind, wp_map_err. unfold qcow_write. apply wp_bind, wp_get. rewrite Hlim, Hp.
  apply wp_bind, (wp_write_loop [] []); [done|lia|lia|lia|done|lia|rewrite Z.add_0_r; apply chunks_fuel; [done|lia|lia]|..].
  - intros q1 HI1 Hw1. apply wp_bind, wp_modify, wp_ret, wp_ret. rewrite (di_offset _ _ _ Hw1), Hp, wadd_small by done. split; [done|].
    apply (holds_disk d _ q); cbn; [done|by apply inv_offset|apply Hw1|apply Hw1|done|done|lia|].
    intros x Hx. change (content q1 x = put_bytes (fl_pos d) (take (Z.to_nat count) bs) (fl_bytes d) x). rewrite (di_content _ _ _ Hw1) by lia.
    rewrite Z.add_0_r, part_length by lia. unfold put_bytes. case_decide; [done|by apply Hb].
  - intros n q1 Hn1 Hw1. split; [done|]. intros x Hx Ht. cbn in Ht. rewrite (di_content _ _ _ Hw1) by lia. rewrite Z.add_0_r, part_length by lia.
    unfold put_bytes. rewrite length_take, decide_False by lia. by apply Hb.
Qed.

(** ** Zeroing a range *)
Lemma wp_deallocate_bytes d q a n (Q : unit -> QcowFile -> Prop) (X : io_error -> QcowFile -> Prop) :
  holds d q -> 0 <= a -> 0 <= n -> a + n < 2 ^ 64 ->
  (forall q', holds (mkFlat (put_zeroes a n (fl_bytes d)) (fl_size d) (fl_pos d)) q' -> Q tt q') ->
  (forall q', (forall x, 0 <= x < fl_size d -> ~ (a <= x < a + n) -> content q' x = fl_bytes d x) -> X (OsError ENOSPC) q') ->
  wp (deallocate_bytes a n) Q X q.
Proof.
  intros Hd Ha Hn Hfit HQ HX. pose proof Hd as [HI _ Hs Hp Hr Hb]. pose proof (inv_geo _ _ _ HI) as Hg.
  unfold deallocate_bytes. apply wp_bind, wp_get. unfold limit_range_file, checked_add. rewrite (decide_True (P := _ < 2 ^ 64)), Hs by done.
  set (count := if decide _ then 0 else _). pose proof (geo_size q Hg).
  assert (count = 0 /\ fl_size d < a \/ a <= fl_size d /\ count = Z.min n (fl_size d - a)) as Hcount.
  { unfold count. case_decide as Hc; [left; destruct Hc as [|]; [done|lia]|right; split; [|done]]. apply Z.nlt_ge. intros ?. apply Hc. right. lia. }
  assert (a + count <= virtual_size q \/ count = 0) as Hin by lia. clearbody count.
  assert (wp (deallocate_loop (range_fuel q count) a count 0)
    (fun _ q' => Inv [] [] q' /\ zeroed_part a 0 count q q')
    (fun e q' => e = OsError ENOSPC /\ exists n, 0 <= n <= count /\ zeroed_part a 0 n q q') q) as Hloop.
  { destruct (decide (count = 0)) as [->|Hnz].
    - cbn. apply wp_ret. split; [done|]. by apply zeroed_none.
    - apply wp_deallocate_loop; [done|lia|lia|lia|rewrite Z.add_0_r; apply chunks_fuel; [done|lia|lia]|done|].
      intros m q' Hm Hz. split; [done|]. by exists m. }
  eapply wp_mono; [exact Hloop|..].
  - intros [] q' [HI' Hz]. apply HQ, (holds_disk d _ q); cbn; [done|done|apply Hz|apply Hz|by rewrite (di_offset _ _ _ Hz)|done|done|].
    intros x Hx. rewrite (di_content _ _ _ Hz) by lia. rewrite Z.add_0_r, Z.sub_0_r. unfold put_zeroes. rewrite (Hb x Hx). repeat case_decide; lia.
  - intros e q' (-> & m & Hm & Hz). apply HX. intros x Hx Hout. rewrite (di_content _ _ _ Hz) by lia.
    rewrite Z.add_0_r, Z.sub_0_r. unfold put_zeroes. rewrite decide_False by lia. by apply Hb.
Qed.

Lemma wp_qcow_punch_hole d q a n (Q : unit -> QcowFile -> Prop) (X : io_error -> QcowFile -> Prop) :
  holds d q -> disk_request_ok (PunchHole a n) ->
  (forall q', holds (mkFlat (put_zeroes a n (fl_bytes d)) (fl_size d) (fl_pos d)) q' -> Q tt q') ->
  (forall q', spared (PunchHole a n) d q' -> X (OsError ENOSPC) q') -> wp (qcow_punch_hole a n) Q X q.
Proof.
  intros Hd (Ha & Hn & Hfit) HQ HX. unfold in_width in *. unfold qcow_punch_hole. cbn [punch_loop]. case_decide as Hz.
  - rewrite Z.min_l by (unfold USIZE_MAX, U64_MAX; lia). apply wp_bind, (wp_deallocate_bytes d); [done|lia|lia|lia| |done].
    intros q' Hq'. rewrite Z.sub_diag, decide_False by lia. by apply wp_ret, HQ.
  - apply wp_ret, HQ. apply (holds_disk d _ q); cbn; try apply Hd; try done. intros x Hx. unfold put_zeroes.
    rewrite decide_False by lia. by apply Hd.
Qed.

Lemma serve_punch_hole d q a n : holds d q -> disk_request_ok (PunchHole a n) -> served (PunchHole a n) d (serve_request (PunchHole a n)) q.
Proof.
  intros Hd Hok. apply wp_bind, wp_map_err, (wp_qcow_punch_hole d); [done|done| |done]. intros q' Hq'. by apply wp_ret.
Qed.
Lemma serve_write_zeroes d q a n : holds d q -> disk_request_ok (WriteZeroesAt a n) -> served (WriteZeroesAt a n) d (serve_request (WriteZeroesAt a n)) q.
Proof.
  intros Hd Hok. apply wp_bind, wp_map_err. unfold qcow_write_zeroes_at.
  apply wp_bind, (wp_qcow_punch_hole d); [done|done| |done]. intros q' Hq'. by apply wp_ret, wp_ret.
Qed.

(** ** Seeking, flushing and opening again *)
Lemma offset_from_spec base off : 0 <= base <= 2 ^ 44 -> - 2 ^ 63 <= off < 2 ^ 63 ->
  offset_from base off = if decide (0 <= base + off) then Some (base + off) else None.
Proof.
  intros Hb Ho. unfold offset_from, checked_sub, checked_add. repeat case_decide; try lia; try done; f_equal; lia.
Qed.

Lemma serve_seek d q pos : holds d q -> disk_request_ok (Seek pos) -> served (Seek pos) d (serve_request (Seek pos)) q.
Proof.
  intros Hd Hok. pose proof Hd as [HI Hacc Hs Hp Hr Hb]. pose proof (geo_size q (inv_geo _ _ _ HI)) as Hsize.
  set (p := match pos with Start o => o | End_ o => fl_size d + o | Current o => fl_pos d + o end).
  assert (match pos with Start off => Some off | End_ off => offset_from (virtual_size q) off | Current off => offset_from (current_offset q) off end
    = if decide (0 <= p) then Some p else None) as Hnew.
  { unfold p. destruct pos; cbn in Hok; [by rewrite decide_True by apply Hok|..]; rewrite offset_from_spec by lia; by rewrite ?Hs, ?Hp. }
  unfold served. cbn [serve_request flat_serve]. fold p. apply wp_bind, wp_attempt. unfold qcow_seek. apply wp_bind, wp_get.
  rewrite Hnew, Hs. destruct (decide (0 <= p)) as [H0|H0].
  - destruct (decide (p <= fl_size d)) as [H1|H1].
    + rewrite decide_True by done. apply wp_bind, wp_modify, wp_ret, wp_ret. split; [done|].
      apply (holds_disk d _ q); cbn; [done|by apply inv_offset|done..|lia|exact Hb].
    + rewrite decide_False by lia. apply wp_throw, wp_ret. done.
  - rewrite decide_False by lia. apply wp_throw, wp_ret. done.
Qed.

Lemma serve_flush d q : holds d q -> served Flush d (serve_request Flush) q.
Proof.
  intros Hd. pose proof Hd as [HI Hacc Hs Hp Hr Hb]. apply wp_bind, wp_map_err, (wp_flush [] []); [done|].
  intros q1 HI1 Hk1 _ _ _ _ _ _. apply wp_ret. split; [done|].
  apply (holds_disk d _ q); cbn; [done|done|apply Hk1|apply Hk1|by rewrite (ks_offset _ _ _ Hk1)|done|done|].
  intros x Hx. rewrite (sd_content _ _ (keeps_disk _ _ _ (inv_geo _ _ _ HI) Hk1)). by apply Hb.
Qed.

(** Dropping an image writes everything back, and the file can be opened again. *)
Lemma wp_drop_image d q (Q : unit -> QcowFile -> Prop) X :
  holds d q -> (forall q', holds d q' -> flushed q' -> Q tt q') -> wp drop_image Q X q.
Proof.
  intros Hd HQ. pose proof Hd as [HI Hacc Hs Hp Hr Hb]. apply wp_ignore, (wp_sync_caches [] []); [done|]. intros q1 HI1 Hk1 Hf1 _ _ _ _ _. apply HQ; [|done].
  apply (holds_disk d _ q); cbn; [done|done|apply Hk1|apply Hk1|by rewrite (ks_offset _ _ _ Hk1)|done|done|].
  intros x Hx. rewrite (sd_content _ _ (keeps_disk _ _ _ (inv_geo _ _ _ HI) Hk1)). by apply Hb.
Qed.
Lemma wp_open_saved d q r l2_order ref_order (Q : QcowFile -> RawFile -> Prop) X :
  holds d q -> flushed q -> kept_file (qf_file (raw_file q)) r ->
  (forall q' f, holds (mkFlat (fl_bytes d) (fl_size d) 0) q' -> Q q' f) -> wp (from l2_order ref_order) Q X r.
Proof.
  intros Hd Hf Hr HQ. pose proof Hd as [HI Hacc Hs Hp Hrange Hb]. apply (wp_from q); [done|done|done|done|]. intros r' q' f Hr' HI' Hk' _. apply HQ.
  apply (holds_disk d _ q); cbn; [done|done|by rewrite (ks_header _ _ _ Hk')|by rewrite (ks_cs _ _ _ Hk')|by rewrite (ks_offset _ _ _ Hk')|done|lia|].
  intros x Hx. rewrite <- Hb by done. rewrite (sd_content _ _ (keeps_disk [] _ _ (inv_geo _ _ _ (reopened_inv q HI Hf r' Hr' l2_order ref_order)) Hk')).
  apply (reopened_content q HI Hf r' Hr').
Qed.

Lemma serve_reopen d q l2_order ref_order : holds d q -> served (Reopen l2_order ref_order) d (serve_request (Reopen l2_order ref_order)) q.
Proof.
  intros Hd. apply wp_bind. pose proof (wp_drop_image d q (fun _ q1 => holds d q1 /\ flushed q1) (fun _ _ => False) Hd ltac:(done)) as Hdrop.
  unfold reopen. unfold wp at 1. unfold wp in Hdrop. destruct (drop_image q) as [[[]| |] q1]; try done. destruct Hdrop as [Hd1 Hf1].
  assert (wp (from l2_order ref_order) (fun q' _ => holds (mkFlat (fl_bytes d) (fl_size d) 0) q') (fun _ _ => False) (qf_file (raw_file q1))) as Hfrom.
  { apply (wp_open_saved d q1); [done|done| |done]. split_and!; [done|done|]. apply (ho_inv _ _ Hd1). }
  unfold wp in Hfrom. by destruct (from _ _ _) as [[q'| |] f].
Qed.

Lemma serve_one d q req : holds d q -> disk_request_ok req -> served req d (serve_request req) q.
Proof.
  intros Hd Hok. destruct req; [by apply serve_read|by apply serve_write|by apply serve_seek|by apply serve_punch_hole
    |by apply serve_write_zeroes|by apply serve_flush|by apply serve_reopen].
Qed.

(** C3: The image does what a flat disk of its size does, until a request fails because there is
    no cluster left, and that request changed nothing but its own range. *)
Theorem qcow_is_flat_disk reqs d q :
  holds d q -> Forall disk_request_ok reqs ->
  wp (session reqs) (fun reps q' => reps = (flat_session reqs d).1 /\ holds (flat_session reqs d).2 q')
    (fun e q' => e = IoFailed (OsError ENOSPC) /\
       exists done req rest, reqs = done ++ req :: rest /\ spared req (flat_session done d).2 q') q.
Proof.
  revert d q. induction reqs as [|req reqs IH]; intros d q Hd Hok; [by apply wp_ret|].
  apply Forall_cons in Hok as [Hreq Hok]. cbn [session]. apply wp_bind.
  eapply wp_mono; [exact (serve_one d q req Hd Hreq)|..].
  - intros rep q1 [-> Hd1]. apply wp_bind. eapply wp_mono; [exact (IH _ _ Hd1 Hok)|..].
    + intros reps q2 [-> Hd2]. apply wp_ret. cbn. destruct (flat_serve req d) as [rep d1]. cbn in *. by destruct (flat_session reqs d1).
    + intros e q2 (-> & pre & req' & rest & -> & Hsp). split; [done|]. exists (req :: pre), req', rest. split; [done|].
      cbn. destruct (flat_serve req d) as [rep d1]. cbn in *. by destruct (flat_session pre d1).
  - intros e q1 [-> Hsp]. split; [done|]. by exists [], req, reqs.
Qed.
End session.

(** * Finding the holes and the data of a qcow2 image. *)
(** Whether the disk has a cluster for an address. *)
Definition has_cluster (q : QcowFile) (x : Z) : bool := bool_decide (cluster_of q x <> 0).

Lemma no_cluster_zero q x : has_cluster q x = false -> content q x = 0.
Proof. intros Hx%bool_decide_eq_false. rewrite content_cluster, decide_True; [done|]. by apply dec_stable. Qed.

Lemma has_cluster_same q x y : x / size_of_cluster q = y / size_of_cluster q -> has_cluster q x = has_cluster q y.
Proof. intros Hxy. unfold has_cluster, cluster_of, l1_table_index, l2_table_index. by rewrite Hxy. Qed.

(** The first address from [a] on that is [b], in or out of a cluster. *)
Definition first_from (q : QcowFile) (a : Z) (b : bool) (found : option Z) : Prop :=
  match found with
  | Some o => a <= o < virtual_size q /\ has_cluster q o = b /\ forall x, a <= x < o -> has_cluster q x = negb b
  | None => forall x, a <= x < virtual_size q -> has_cluster q x = negb b
  end.

Lemma keeps_has_cluster held q q' x : keeps held q q' -> has_cluster q' x = has_cluster q x.
Proof. intros Hk. unfold has_cluster. by rewrite (sees_cluster _ _ _ _ (keeps_sees _ _ _ Hk)). Qed.
Lemma keeps_first_from held q q' a b found : keeps held q q' -> first_from q' a b found -> first_from q a b found.
Proof.
  intros Hk. unfold first_from, virtual_size. rewrite (ks_header _ _ _ Hk). destruct found as [o|].
  - rewrite (keeps_has_cluster _ _ _ _ Hk). intros (? & ? & Hx). split_and!; [lia|lia|done|]. intros x Hlt. rewrite <- (keeps_has_cluster _ _ _ _ Hk). by apply Hx.
  - intros Hx x Hlt. rewrite <- (keeps_has_cluster _ _ _ _ Hk). by apply Hx.
Qed.

(** The rest of the cluster of [a] is like [a]. *)
Lemma first_from_skip q a b found :
  geometry q -> 0 <= a -> has_cluster q a = negb b ->
  first_from q ((a / size_of_cluster q + 1) * size_of_cluster q) b found -> first_from q a b found.
Proof.
  intros Hg Ha Hna. pose proof (cs_bounds q Hg). set (cs := size_of_cluster q) in *. set (n := (a / cs + 1) * cs).
  pose proof (Z.div_mod a cs). pose proof (Z.mod_pos_bound a cs).
  assert (forall x, a <= x < n -> has_cluster q x = negb b) as Hsame.
  { intros x Hx. rewrite <- Hna. apply has_cluster_same. fold cs. symmetry. apply (Z.div_unique _ _ _ (x - a / cs * cs)); unfold n in *; lia. }
  unfold first_from. destruct found as [o|].
  - intros (? & ? & Hx). split_and!; [lia|lia|done|]. intros x Hlt. destruct (decide (x < n)); [apply Hsame; lia|apply Hx; lia].
  - intros Hx x Hlt. destruct (decide (x < n)); [apply Hsame; lia|apply Hx; lia].
Qed.

Section seek.
Context `{Hhost : HostFile, Hlaws : !HostFileLaws}.

Lemma wp_search_allocated pend held fuel b : forall a q (Q : option Z -> QcowFile -> Prop) X,
  Inv pend held q -> (size_of_cluster q | a) -> 0 <= a <= virtual_size q + size_of_cluster q ->
  virtual_size q <= a + (Z.of_nat fuel - 1) * size_of_cluster q -> (0 < fuel)%nat ->
  (forall found q', Inv pend held q' -> keeps held q q' -> first_from q a b found -> Q found q') ->
  wp (search_allocated fuel a b) Q X q.
Proof.
  induction fuel as [|fuel IH]; intros a q Q X HI Hdiv Ha Hfuel Hpos HQ; [lia|].
  pose proof (inv_geo _ _ _ HI) as Hg. pose proof (cs_bounds q Hg) as Hcs. pose proof (geo_size q Hg).
  cbn [search_allocated]. apply wp_bind, wp_get. case_decide as Hlt.
  2:{ apply wp_ret, HQ; [done|apply keeps_self|]. intros x Hx. lia. }
  apply wp_bind, (wp_cluster_allocated pend held); [done|lia|]. intros q1 HI1 Hk1 _. fold (has_cluster q a). case_decide as Hb.
  { apply wp_ret, HQ; [done|done|]. cbn. split_and!; [lia|lia|done|]. intros x Hx. lia. }
  rewrite wadd_small by (unfold in_width; lia). destruct Hdiv as [k Hk].
  assert ((a / size_of_cluster q + 1) * size_of_cluster q = a + size_of_cluster q) as Hnext by (rewrite Hk, Z.div_mul; lia).
  apply IH; [done|..].
  - rewrite (ks_cs _ _ _ Hk1). apply Z.divide_add_r; [by exists k|done].
  - unfold virtual_size. rewrite (ks_cs _ _ _ Hk1), (ks_header _ _ _ Hk1). fold (virtual_size q). lia.
  - unfold virtual_size. rewrite (ks_cs _ _ _ Hk1), (ks_header _ _ _ Hk1). fold (virtual_size q). lia.
  - destruct fuel; [lia|lia].
  - intros found q2 HI2 Hk2 Hf. apply HQ; [done|by apply (keeps_trans held q q1)|]. apply first_from_skip; [done|lia|by destruct b, (has_cluster q a)|].
    rewrite Hnext. by apply (keeps_first_from held q q1).
Qed.

Lemma wp_find_allocated pend held q a b (Q : option Z -> QcowFile -> Prop) X :
  Inv pend held q -> 0 <= a ->
  (forall found q', Inv pend held q' -> keeps held q q' -> first_from q a b found -> Q found q') ->
  wp (find_allocated_cluster a b) Q X q.
Proof.
  intros HI Ha HQ. pose proof (inv_geo _ _ _ HI) as Hg. pose proof (cs_bounds q Hg) as Hcs. pose proof (geo_size q Hg).
  unfold find_allocated_cluster. apply wp_bind, wp_get. case_decide as Hge.
  { apply wp_ret, HQ; [done|apply keeps_self|]. intros x Hx. lia. }
  apply wp_bind, (wp_cluster_allocated pend held); [done|lia|]. intros q1 HI1 Hk1 _. fold (has_cluster q a). case_decide as Hb.
  { apply wp_ret, HQ; [done|done|]. cbn. split_and!; [lia|lia|done|]. intros x Hx. lia. }
  set (cs := size_of_cluster q) in *. pose proof (Z.div_mod a cs). pose proof (Z.mod_pos_bound a cs).
  pose proof (Z.div_mod (virtual_size q) cs). pose proof (Z.mod_pos_bound (virtual_size q) cs). assert (0 <= a / cs) by (apply Z.div_pos; lia).
  assert (0 <= virtual_size q / cs) by (apply Z.div_pos; lia).
  apply (wp_search_allocated pend held); [done|..]; unfold virtual_size; rewrite ?(ks_cs _ _ _ Hk1), ?(ks_header _ _ _ Hk1); fold (virtual_size q) cs.
  - apply Z.divide_factor_r.
  - nia.
  - nia.
  - lia.
  - intros found q2 HI2 Hk2 Hf. apply HQ; [done|by apply (keeps_trans held q q1)|]. apply first_from_skip; [done|lia|by destruct b, (has_cluster q a)|].
    fold cs. by apply (keeps_first_from held q q1).
Qed.

Lemma holds_keeps d q q' : holds d q -> Inv [] [] q' -> keeps [] q q' -> holds d q'.
Proof.
  intros Hd HI' Hk. pose proof Hd as [HI Hacc Hs Hp Hr Hb].
  apply (holds_disk d d q); [done|done|apply Hk|apply Hk|by rewrite (ks_offset _ _ _ Hk)|done|done|].
  intros x Hx. rewrite (sd_content _ _ (keeps_disk _ _ _ (inv_geo _ _ _ HI) Hk)). by apply Hb.
Qed.

Lemma wp_seek_to d q pos o (Q : Z -> QcowFile -> Prop) (X : io_error -> QcowFile -> Prop) :
  holds d q -> (pos = Start o \/ pos = End_ 0 /\ o = fl_size d) -> 0 <= o <= fl_size d ->
  (holds (mkFlat (fl_bytes d) (fl_size d) o) (set_offset o q) -> Q o (set_offset o q)) -> wp (qcow_seek pos) Q X q.
Proof.
  intros Hd Hpos Ho HQ. pose proof Hd as [HI Hacc Hs Hp Hr Hb]. pose proof (geo_size q (inv_geo _ _ _ HI)). unfold qcow_seek. apply wp_bind, wp_get.
  assert (match pos with Start off => Some off | End_ off => offset_from (virtual_size q) off | Current off => offset_from (current_offset q) off end = Some o) as ->.
  { destruct Hpos as [->|[-> ->]]; [done|]. rewrite offset_from_spec, Hs, decide_True, Z.add_0_r by lia. done. }
  rewrite Hs, decide_True by lia. apply wp_bind, wp_modify, wp_ret, HQ.
  apply (holds_disk d _ q); cbn; [done|by apply inv_offset|done..].
Qed.

(** The data from [offset] on: all that is skipped reads as zeroes. *)
Definition data_found (d : flat) (q : QcowFile) (offset : Z) (found : option Z) (q' : QcowFile) : Prop :=
  match found with
  | Some o => offset <= o < fl_size d /\ has_cluster q o = true /\ (forall x, offset <= x < o -> fl_bytes d x = 0) /\
              holds (mkFlat (fl_bytes d) (fl_size d) o) q'
  | None => (forall x, offset <= x < fl_size d -> fl_bytes d x = 0) /\ holds d q'
  end.
(** The hole from [offset] on, the end of the disk if there is no other: it has no cluster,
    and all that is skipped has. *)
Definition hole_found (d : flat) (q : QcowFile) (offset : Z) (found : option Z) (q' : QcowFile) : Prop :=
  match found with
  | Some o => offset <= o <= fl_size d /\ (forall x, offset <= x < o -> has_cluster q x = true) /\
              (forall x, o <= x < fl_size d -> x / size_of_cluster q = o / size_of_cluster q -> fl_bytes d x = 0) /\
              holds (mkFlat (fl_bytes d) (fl_size d) o) q'
  | None => fl_size d <= offset /\ holds d q'
  end.

(** C21: Seeking skips nothing but zeroes on the way to the data, and nothing but clusters in use
    on the way to a hole; it ends, does not fail, and leaves the disk as it was. *)
Theorem seek_data_and_hole d q offset :
  holds d q -> 0 <= offset ->
  wp (seek_data offset) (data_found d q offset) (fun _ _ => False) q /\
  wp (seek_hole offset) (hole_found d q offset) (fun _ _ => False) q.
Proof.
  intros Hd Hoff. pose proof Hd as [HI Hacc Hs Hp Hr Hb]. split.
  - unfold seek_data. apply wp_bind, (wp_find_allocated [] []); [done|done|]. intros found q1 HI1 Hk1 Hf.
    pose proof (holds_keeps d q q1 Hd HI1 Hk1) as Hd1. unfold first_from in Hf. rewrite Hs in Hf. destruct found as [o|].
    + destruct Hf as (Ho & Ho' & Hskip). apply wp_bind, (wp_seek_to d _ _ o); [done|by left|lia|]. intros Hd2. apply wp_ret. cbn.
      split_and!; [lia|lia|done| |done]. intros x Hx. rewrite <- Hb by lia. apply no_cluster_zero. by apply Hskip.
    + apply wp_ret. split; [|done]. intros x Hx. rewrite <- Hb by lia. apply no_cluster_zero. by apply Hf.
  - unfold seek_hole. apply wp_bind, wp_get, wp_bind, (wp_find_allocated [] []); [done|done|]. intros found q1 HI1 Hk1 Hf.
    pose proof (holds_keeps d q q1 Hd HI1 Hk1) as Hd1. unfold first_from in Hf. rewrite Hs in *. destruct found as [o|].
    + destruct Hf as (Ho & Ho' & Hskip). apply wp_bind, (wp_seek_to d _ _ o); [done|by left|lia|]. intros Hd2. apply wp_ret. cbn.
      split_and!; [lia|lia|done| |done]. intros x Hx Hsame. rewrite <- Hb by lia. apply no_cluster_zero.
      rewrite <- Ho'. by apply has_cluster_same.
    + case_decide as Hlt; [|apply wp_ret; cbn; split; [lia|done]].
      apply wp_bind, (wp_seek_to d _ _ (fl_size d)); [done|by right|lia|]. intros Hd2. apply wp_ret. cbn.
      split_and!; [lia|lia|done| |done]. intros x Hx. lia.
Qed.
End seek.
