(* ===== verification/QcowNew.v ===== *)
(** Creating a qcow2 image: on an empty file, [QcowFile::new] leaves an image of a disk of
    zeroes. *)
From stdpp Require Import base numbers list gmap.
From S2P Require Import Prelude Bytes RawFile QcowTables QcowHeader QcowImage QcowDisk QcowInv QcowSteps QcowCount QcowLookup QcowWrite QcowIo QcowOpen QcowSpec.

#[local] Open Scope Z_scope.

(** ** The bytes of a file while it is written *)
Section bytes.
Context (al hi : Z) (Hal : al = 0 \/ (al | hi)).

(** The file holds [g]; writes to the bytes below [hi] keep its length between [lo] and
    [hi], rounded to blocks or not. *)
Record file_is (g : Z -> Z) (lo : Z) (r : RawFile) : Prop := {
  fi_sane : sane r;
  fi_align : alignment r = al;
  fi_bytes o : fbyte (file r) o = g o;
  fi_len : lo <= f_len (file r) <= hi;
}.

Lemma file_ext g g' lo lo' r : file_is g lo r -> (forall o, g o = g' o) -> lo' <= lo -> file_is g' lo' r.
Proof using. intros [Hs Ha Hb Hl] Hg Hlo. split; [done|done|intros o; by rewrite Hb|lia]. Qed.

Lemma file_kept g lo r r' : file_is g lo r -> kept_file r r' -> file_is g lo r'.
Proof using. intros [Hs Ha Hb Hl] (Hf & Ha' & Hs'). split; [done|congruence|intros o; by rewrite Hf|by rewrite Hf]. Qed.

Lemma file_wrote g lo r r' off bs :
  file_is g lo r -> wrote off bs r r' -> off + Z.of_nat (length bs) <= hi ->
  file_is (put_bytes off bs g) (Z.max lo (off + Z.of_nat (length bs))) r'.
Proof using Hal.
  intros [Hs Ha Hb Hl] (Hb' & Hmin & Hmax & Ha' & Hs') Hhi. split; [done|congruence|intros o; rewrite Hb'; unfold put_bytes; by rewrite Hb|].
  split; [lia|]. destruct Hmax as [|(Hd & Hpos & Hlt)]; [lia|]. rewrite Ha in *. destruct Hal as [|Hdh]; [lia|].
  destruct Hd as [x Hx], Hdh as [y Hy]. assert (x <= y) by nia. nia.
Qed.

(** ** The header *)
Definition fields_bytes (fs : list (nat * Z)) : list Z := concat ((fun f => be_bytes f.1 f.2) <$> fs).
Lemma fields_bytes_cons w v fs : fields_bytes ((w, v) :: fs) = be_bytes w v ++ fields_bytes fs.
Proof using. done. Qed.
Fixpoint put_fields (fs : list (nat * Z)) (k : M RawFile Error unit) : M RawFile Error unit :=
  match fs with
  | [] => k
  | (w, v) :: fs => map_err WritingHeader (write_be w v) ;;; put_fields fs k
  end.

Lemma wp_put_fields fs k : forall off g lo r (Q : unit -> RawFile -> Prop) X,
  file_is g lo r -> position r = off -> off <= lo -> Forall (fun f => f.1 <> 0%nat) fs -> off + Z.of_nat (length (fields_bytes fs)) <= hi ->
  (forall r', file_is (put_bytes off (fields_bytes fs) g) (Z.max lo (off + Z.of_nat (length (fields_bytes fs)))) r' -> wp k Q X r') ->
  wp (put_fields fs k) Q X r.
Proof using Hal.
  induction fs as [|[w v] fs IH]; intros off g lo r Q X Hr Hp Hlo Hw Hhi HQ.
  { apply HQ, (file_ext g _ lo); [done|intros o; by rewrite put_bytes_nil|cbn; lia]. }
  apply Forall_cons in Hw as [Hw0 Hw]. cbn in Hw0. rewrite fields_bytes_cons, length_app, be_bytes_length in Hhi.
  pose proof (be_bytes_length w v) as Hlen. cbn [put_fields]. apply wp_bind, wp_map_err, wp_write_all; [apply Hr|intros Hn; rewrite Hn in Hlen; done|].
  intros r1 Hr1 Hp1. rewrite Hp in *. apply (file_wrote g lo) in Hr1; [|done|lia]. rewrite Hlen in *.
  eapply IH; [exact Hr1|done|lia|done|lia|]. intros r' Hr'. apply HQ. rewrite fields_bytes_cons, length_app, Hlen.
  eapply file_ext; [exact Hr'|intros o; by rewrite put_bytes_app, Hlen|lia].
Qed.

Definition fields_of_header (h : QcowHeader) : list (nat * Z) := zip header_widths (header_list h ++ header_list_v3 h).
Definition header_bytes (h : QcowHeader) : list Z := fields_bytes (fields_of_header h).

Lemma header_bytes_length h : length (header_bytes h) = 104%nat.
Proof using. unfold header_bytes, fields_of_header. cbn [zip_with header_widths header_list header_list_v3 app]. rewrite !fields_bytes_cons, !length_app, !be_bytes_length. done. Qed.

Lemma wp_write_to h g lo r (Q : unit -> RawFile -> Prop) X :
  let p := h_refcount_table_offset h + refcount_table_clusters h * 65536 - 2 in
  file_is g lo r -> position r = 0 -> 0 <= lo -> cluster_bits h = 16 -> 0 <= h_refcount_table_offset h -> 0 < refcount_table_clusters h ->
  104 <= hi -> p + 1 <= hi < 2 ^ 40 ->
  (forall r', file_is (put_bytes p [0] (put_bytes 0 (header_bytes h) g)) (Z.max lo (Z.max 104 (p + 1))) r' -> Q tt r') ->
  wp (write_to h) Q X r.
Proof using Hal.
  intros p Hr Hp Hlo Hbits Hoff Hrtc H104 Hhi HQ. change (write_to h) with (put_fields (fields_of_header h)
    (let size := wrap 64 (Z.shiftl 1 (cluster_bits h mod 64)) in
     map_err WritingHeader (seek (Start (wsub 64 (wadd 64 (h_refcount_table_offset h) (wmul 64 (refcount_table_clusters h) size)) 2))) ;;;
     map_err WritingHeader (write [0]) ;;; ret tt)).
  rewrite Hbits. change (wrap 64 (Z.shiftl 1 (16 mod 64))) with 65536. cbn zeta. rewrite wmul_small by (unfold in_width; lia).
  rewrite wadd_small, wsub_small by (unfold in_width; lia). fold p.
  pose proof (header_bytes_length h) as Hlen. unfold header_bytes in Hlen.
  eapply (wp_put_fields _ _ 0); [exact Hr|done|lia|by repeat (apply Forall_cons; split; [done|])|rewrite Hlen; lia|]. intros r1 Hr1. rewrite Hlen in Hr1.
  apply wp_bind, wp_map_err, wp_seek; [apply Hr1|lia|lia|]. intros r2 Hr2 Hp2. apply (file_kept _ _ _ _ Hr1) in Hr2.
  apply wp_bind, wp_map_err, wp_write; [apply Hr2|done|]. intros r3 Hr3 _. apply wp_ret, HQ. rewrite Hp2 in Hr3.
  apply (file_wrote _ _ _ _ _ _ Hr2) in Hr3; [|cbn; lia]. eapply file_ext; [exact Hr3|done|cbn; lia].
Qed.

(** What was written is a header. *)
Lemma field_values_written f fs : forall off,
  (forall k, (k < length (fields_bytes fs))%nat -> fbyte f (off + Z.of_nat k) = fields_bytes fs !!! k) ->
  Forall (fun p => in_width (8 * Z.of_nat p.1) p.2) fs -> field_values f off fs.*1 = fs.*2.
Proof using.
  induction fs as [|[w v] fs IH]; intros off Hf Hw; [done|]. apply Forall_cons in Hw as [Hv Hw]. cbn in Hv.
  rewrite fields_bytes_cons, length_app, be_bytes_length in Hf.
  cbn. f_equal.
  - unfold header_field. rewrite <- (be_value_bytes w v) by done. f_equal. apply list_eq_same_length with w.
    + by rewrite be_bytes_length.
    + rewrite length_fmap, length_seqZ. lia.
    + intros k x y Hk. rewrite list_lookup_fmap, fmap_Some. intros (o & [-> _]%lookup_seqZ & ->) Hy.
      rewrite Hf, lookup_total_app_l by (rewrite ?be_bytes_length; lia). by apply list_lookup_total_correct.
  - apply IH; [|done]. intros k Hk. rewrite <- Z.add_assoc, <- Nat2Z.inj_add, Hf by lia. rewrite lookup_total_app_r by (rewrite be_bytes_length; lia).
    f_equal. rewrite be_bytes_length. lia.
Qed.
End bytes.

(** ** The header of a new image *)
Lemma round_up_bounds a b : 0 < b -> 0 <= a -> a <= b * div_round_up_u64 a b < a + b.
Proof.
  intros Hb Ha. unfold div_round_up_u64. pose proof (Z.div_mod a b). pose proof (Z.mod_pos_bound a b). case_decide; nia.
Qed.

Section fresh.
Context (ver size : Z) (Hver : ver = 2 \/ ver = 3) (Hsize : 0 < size <= 2 ^ 41).
Definition new_header : QcowHeader := create_for_size ver size.
Local Notation h := new_header.
Local Notation cs := 65536.

Lemma new_sizes : 1 <= layout_clusters h cs <= 2 ^ 25 /\ 1 <= layout_l2 h cs <= 4096 /\ layout_l1_clusters h cs = 1 /\
  2 <= layout_refcounts h cs <= 1026.
Proof using Hsize.
  pose proof (round_up_bounds size cs ltac:(lia) ltac:(lia)) as HN. change (div_round_up_u64 size cs) with (layout_clusters h cs) in HN.
  pose proof (round_up_bounds (layout_clusters h cs) 8192 ltac:(lia) ltac:(lia)) as HL2.
  change (div_round_up_u64 (layout_clusters h cs) 8192) with (layout_l2 h cs) in HL2.
  pose proof (round_up_bounds (layout_l2 h cs) 8192 ltac:(lia) ltac:(lia)) as HL1.
  change (div_round_up_u64 (layout_l2 h cs) 8192) with (layout_l1_clusters h cs) in HL1.
  assert (layout_refcounts h cs = max_refcount_clusters 4 cs (layout_clusters h cs + layout_l1_clusters h cs + layout_l2 h cs + 1)) as ->.
  { unfold layout_refcounts. change (div_round_up_u64 QCOW_HEADER_SIZE cs) with 1. rewrite wrap_small by (unfold in_width; lia). done. }
  set (x := layout_clusters h cs + _ + _ + _). unfold max_refcount_clusters. change (Z.shiftl 1 4 / 8) with 2.
  pose proof (round_up_bounds (x * 2) cs ltac:(lia) ltac:(lia)) as Hd. set (d := div_round_up_u64 (x * 2) cs) in *.
  pose proof (round_up_bounds (d * 2) cs ltac:(lia) ltac:(lia)) as Hr. set (e := div_round_up_u64 (d * 2) cs) in *.
  change (2 ^ 41) with 2199023255552 in *. change (2 ^ 25) with 33554432. lia.
Qed.

Lemma new_fields : h_size h = size /\ cluster_bits h = 16 /\ l1_size h = layout_l2 h cs /\ l1_table_offset h = cs /\
  h_refcount_table_offset h = 2 * cs /\ refcount_table_clusters h = 1 /\ compatible_features h = 0 /\ refcount_order h = 4.
Proof using Hsize.
  pose proof new_sizes as (HN & HL2 & HL1 & HR).
  assert (wrap 32 (div_round_up_u64 size (Z.shiftl 1 DEFAULT_CLUSTER_BITS)) = layout_clusters h cs) as HwN
    by (apply wrap_small; change (div_round_up_u64 size _) with (layout_clusters h cs); unfold in_width; lia).
  assert (div_round_up_u32 (layout_clusters h cs) (Z.shiftl 1 DEFAULT_CLUSTER_BITS / 8) = layout_l2 h cs) as HwL2 by done.
  assert (div_round_up_u32 (layout_l2 h cs) (Z.shiftl 1 DEFAULT_CLUSTER_BITS / 8) = layout_l1_clusters h cs) as HwL1 by done.
  split_and!; try done; unfold new_header, create_for_size; rewrite HwN, HwL2, ?HwL1; cbn [l1_size h_refcount_table_offset refcount_table_clusters]; [done| |].
  - rewrite HL1. done.
  - change (Z.shiftl 1 DEFAULT_CLUSTER_BITS) with cs. change (div_round_up_u32 QCOW_HEADER_SIZE cs) with 1.
    rewrite HL1 in *. rewrite (wadd_small 32 (layout_clusters h cs)), (wadd_small 32 (_ + 1)), wadd_small by (unfold in_width; lia).
    assert (max_refcount_clusters DEFAULT_REFCOUNT_ORDER cs (layout_clusters h cs + 1 + layout_l2 h cs + 1) = layout_refcounts h cs) as ->.
    { unfold layout_refcounts. rewrite HL1. change (div_round_up_u64 QCOW_HEADER_SIZE cs) with 1. rewrite wrap_small by (unfold in_width; lia). done. }
    rewrite wrap_small, wmul_small by (unfold in_width; lia). change div_round_up_u32 with div_round_up_u64.
    pose proof (round_up_bounds (layout_refcounts h cs * 8) cs ltac:(lia) ltac:(lia)). lia.
Qed.

(** ** Rebuilding the counts *)
Context (al : Z) (Hal : al = 0 \/ (al | cs)).
Local Notation holds_bytes := (file_is al (4 * cs)).

Lemma al_whole : al = 0 \/ (al | 4 * cs).
Proof using Hal. destruct Hal; [by left|right; by apply Z.divide_mul_r]. Qed.

Lemma put_zero p g o : g p = 0 -> put_bytes p [0] g o = g o.
Proof using. intros Hg. unfold put_bytes. cbn. case_decide; [|done]. replace o with p by lia. by rewrite Z.sub_diag, Hg. Qed.

Lemma wp_write_new h' g lo r (Q : unit -> RawFile -> Prop) X :
  cluster_bits h' = 16 -> h_refcount_table_offset h' = 2 * cs -> refcount_table_clusters h' = 1 -> 0 <= lo -> g (3 * cs - 2) = 0 ->
  holds_bytes g lo r -> position r = 0 ->
  (forall r', holds_bytes (put_bytes 0 (header_bytes h') g) (Z.max lo (3 * cs - 1)) r' -> Q tt r') -> wp (write_to h') Q X r.
Proof using Hal.
  intros Hb Ho Hc Hlo Hg Hr Hp HQ. apply (wp_write_to al (4 * cs) al_whole h' g lo); rewrite ?Ho, ?Hc; [done..|lia|lia|lia|lia|].
  intros r' Hr'. apply HQ. eapply file_ext; [exact Hr'| |lia]. intros o. rewrite put_zero; [done|].
  unfold put_bytes. rewrite header_bytes_length, decide_False by lia. done.
Qed.

Lemma wp_rewrite_header h' g lo raw (Q : unit -> QcowRawFile -> Prop) X :
  cluster_bits h' = 16 -> h_refcount_table_offset h' = 2 * cs -> refcount_table_clusters h' = 1 -> 0 <= lo -> g (3 * cs - 2) = 0 ->
  holds_bytes g lo (qf_file raw) ->
  (forall r', holds_bytes (put_bytes 0 (header_bytes h') g) (Z.max lo (3 * cs - 1)) r' -> Q tt (set_qf r' raw)) ->
  wp (rewrite_header h') Q X raw.
Proof using Hal.
  intros Hb Ho Hc Hlo Hg Hr HQ. unfold rewrite_header. apply wp_bind, wp_map_err, wp_on_file, wp_seek; [apply Hr|lia|lia|]. intros r1 Hr1 Hp1.
  apply (file_kept _ _ _ _ _ _ Hr) in Hr1. apply wp_zoom. cbn [qf_file set_qf]. by eapply wp_write_new.
Qed.

(** The first [k] clusters of [n] are counted. *)
Definition ones (n k : nat) : list Z := replicate k 1 ++ replicate (n - k) 0.

Lemma ones_lookup n k i : (i < n)%nat -> (k <= n)%nat -> ones n k !! i = Some (if decide (i < k)%nat then 1 else 0).
Proof using.
  intros Hi Hk. unfold ones. case_decide.
  - rewrite lookup_app_l by (rewrite length_replicate; lia). by apply lookup_replicate_2.
  - rewrite lookup_app_r by (rewrite length_replicate; lia). apply lookup_replicate_2. rewrite length_replicate. lia.
Qed.
Lemma ones_length n k : (k <= n)%nat -> length (ones n k) = n.
Proof using. intros Hk. unfold ones. rewrite length_app, !length_replicate. lia. Qed.

Lemma add_ref_ones n k : (k < n)%nat -> add_ref (ones n k) cs (Z.of_nat k * cs) = Ok (ones n (S k)).
Proof using.
  intros Hk. unfold add_ref. rewrite Z.div_mul, Nat2Z.id by lia. rewrite ones_lookup, decide_False by lia. f_equal.
  unfold ones. rewrite insert_app_r_alt, length_replicate, Nat.sub_diag by (rewrite length_replicate; lia).
  rewrite (replicate_S_end k), <- app_assoc. by replace (n - k)%nat with (S (n - S k)) by lia.
Qed.

Lemma ones_block n m : (4 <= n)%nat -> (4 <= m)%nat -> let part := take m (ones n 4) in
  part ++ replicate (m - length part) 0 = ones m 4 /\ (4 <= length part <= m)%nat.
Proof using.
  intros Hn Hm part. assert (length part = n `min` m)%nat as Hl by (unfold part; rewrite length_take, ones_length by lia; lia).
  split; [|lia]. apply list_eq_same_length with m; [by apply ones_length|rewrite length_app, length_replicate; lia|].
  intros i x y Hi. rewrite ones_lookup by lia. destruct (decide (i < length part)%nat).
  - rewrite lookup_app_l by done. unfold part. rewrite lookup_take_lt, ones_lookup by lia. congruence.
  - rewrite lookup_app_r, decide_False by lia. rewrite lookup_replicate. intros [-> _]. congruence.
Qed.

Definition block_bytes_of (l : list Z) : list Z := concat (be_bytes 2 <$> l).
Lemma block_bytes_of_length l : Z.of_nat (length (block_bytes_of l)) = 2 * Z.of_nat (length l).
Proof using. unfold block_bytes_of. rewrite be_concat_length. lia. Qed.
Definition first_block : list Z := ones (Z.to_nat 32768) 4.

Lemma wp_write_blocks n g lo raw (Q : unit -> QcowRawFile -> Prop) X :
  (4 <= n)%nat -> 0 <= lo -> holds_bytes g lo (qf_file raw) ->
  (forall r', holds_bytes (put_bytes (3 * cs) (block_bytes_of first_block) g) (4 * cs) r' -> Q tt (set_qf r' raw)) ->
  wp (write_blocks 0 [3 * cs] (ones n 4) 32768) Q X raw.
Proof using Hal.
  intros Hn Hlo Hr HQ. destruct (ones_block n (Z.to_nat 32768) Hn ltac:(lia)) as [Hpad Hlen]. cbn [write_blocks].
  rewrite decide_False by lia. change (Z.to_nat (Z.of_nat 0 * 32768)) with 0%nat. rewrite drop_0. set (part := take _ (ones n 4)) in *. clearbody part.
  pose proof (block_bytes_of_length part) as Hb. apply wp_bind, wp_map_err, wp_write_refcount_block; [apply Hr|lia|lia|]. intros r1 Hr1.
  fold (block_bytes_of part) in Hr1. apply (file_wrote _ _ al_whole _ _ _ _ _ _ Hr) in Hr1; [|lia]. rewrite Hb in Hr1.
  apply wp_bind. case_decide as Hshort.
  - rewrite wadd_small by (unfold in_width; lia). apply wp_map_err. set (pad := replicate _ 0) in *.
    assert (length pad = Z.to_nat 32768 - length part)%nat as Hl by apply length_replicate. clearbody pad.
    pose proof (block_bytes_of_length pad) as Hbp.
    apply wp_write_refcount_block; [apply Hr1|lia|lia|]. intros r2 Hr2.
    fold (block_bytes_of pad) in Hr2. apply (file_wrote _ _ al_whole _ _ _ _ _ _ Hr1) in Hr2; [|lia]. rewrite Hbp in Hr2.
    apply wp_ret, (HQ r2). eapply file_ext; [exact Hr2| |lia]. intros o. unfold first_block. rewrite <- Hpad.
    assert (block_bytes_of (part ++ pad) = block_bytes_of part ++ block_bytes_of pad) as -> by (unfold block_bytes_of; by rewrite fmap_app, concat_app).
    rewrite put_bytes_app, Hb. by rewrite (Z.mul_comm 2).
  - apply wp_ret, wp_ret, (HQ r1). eapply file_ext; [exact Hr1| |lia]. intros o. unfold first_block.
    rewrite <- Hpad. replace (Z.to_nat 32768 - length part)%nat with 0%nat by lia. by rewrite app_nil_r.
Qed.

Definition header_only : Z -> Z := put_bytes 0 (header_bytes h) (fun _ => 0).
(** What the file of a new image holds. *)
Definition new_bytes : Z -> Z :=
  put_bytes (2 * cs) (be_bytes 8 (3 * cs)) (put_bytes (3 * cs) (block_bytes_of first_block) header_only).

Lemma wp_write_refblocks n lo raw (Q : unit -> QcowRawFile -> Prop) X :
  (4 <= n)%nat -> 0 <= lo -> holds_bytes header_only lo (qf_file raw) ->
  (forall r', holds_bytes new_bytes (4 * cs) r' -> Q tt (set_qf r' raw)) ->
  wp (write_refblocks (ones n 4) h [3 * cs] 32768) Q X raw.
Proof using Hal Hsize.
  intros Hn Hlo Hr HQ. pose proof new_fields as (Hs & Hb & _ & _ & Ho & Hc & Hcf & _).
  set (z := fun _ : Z => 0) in *. set (h1 := set_compatible 1 h). pose proof (header_bytes_length h) as Hl. pose proof (header_bytes_length h1) as Hl1.
  assert (header_only (3 * cs - 2) = 0) as Hg by (unfold header_only, put_bytes; rewrite Hl, decide_False by lia; done).
  unfold write_refblocks. rewrite Hcf, Ho. change (Z.lor 0 COMPATIBLE_FEATURES_LAZY_REFCOUNTS) with 1. fold h1.
  change (compatible_features h1) with 1. change (Z.land 1 (unot 64 COMPATIBLE_FEATURES_LAZY_REFCOUNTS)) with 0. change (set_compatible 0 h) with h.
  apply wp_bind, (wp_rewrite_header h1 header_only lo); [done|done|done|done|exact Hg|exact Hr|].
  intros r1 Hr1. apply wp_bind. eapply (wp_write_blocks n); [exact Hn| |exact Hr1|]; [lia|]. intros r2 Hr2.
  apply wp_bind, wp_map_err, wp_write_pointer_table; [apply Hr2|lia|cbn; lia|]. intros r3 Hr3.
  change (concat _) with (be_bytes 8 (3 * cs) ++ []) in Hr3. rewrite app_nil_r in Hr3. pose proof (be_bytes_length 8 (3 * cs)) as Hl8.
  apply (file_wrote _ _ al_whole _ _ _ _ _ _ Hr2) in Hr3; [|rewrite Hl8; lia]. rewrite Hl8 in Hr3.
  eapply (wp_rewrite_header h _ (4 * cs)); [done|done|done|lia| |exact Hr3|].
  - unfold put_bytes at 1 2 3. rewrite Hl8, Hl1, !decide_False by (rewrite ?block_bytes_of_length; lia). exact Hg.
  - intros r4 Hr4. apply (HQ r4). eapply file_ext; [exact Hr4| |lia]. intros o. unfold new_bytes, header_only.
    unfold put_bytes. rewrite Hl8, Hl1, Hl, block_bytes_of_length. repeat case_decide; lia || done.
Qed.

(** How many clusters the counts are rebuilt for. *)
Lemma rebuilt_clusters (D : Z -> Z -> Z) : (forall a b, D a b = div_round_up_u64 a b) ->
  let m := layout_clusters h cs + layout_l2 h cs + layout_l1_clusters h cs + 1 in
  let b := D m 32768 in let t := D b 8192 in let b' := D (b + t) 32768 in let n := m + (b + t) + (b' + D b' 32768) in
  8 <= n <= 33560000 /\ t = 1.
Proof using Hsize.
  intros HD m b t b' n. pose proof new_sizes as (HN & HL2 & HL1 & HR). change (2 ^ 25) with 33554432 in HN.
  pose proof (round_up_bounds m 32768 ltac:(lia) ltac:(lia)) as Hb. rewrite <- HD in Hb. fold b in Hb.
  pose proof (round_up_bounds b 8192 ltac:(lia) ltac:(lia)) as Ht. rewrite <- HD in Ht. fold t in Ht.
  pose proof (round_up_bounds (b + t) 32768 ltac:(lia) ltac:(lia)) as Hb'. rewrite <- HD in Hb'. fold b' in Hb'.
  pose proof (round_up_bounds b' 32768 ltac:(lia) ltac:(lia)) as Ht'. rewrite <- HD in Ht'. lia.
Qed.

Lemma zero_l1 raw lo (Q : list Z -> QcowRawFile -> Prop) X counts :
  holds_bytes header_only lo (qf_file raw) -> 3 * cs - 1 <= lo ->
  (forall r', kept_file (qf_file raw) r' -> Q counts (set_qf r' raw)) -> wp (set_data_refcounts counts h cs) Q X raw.
Proof using Hsize.
  intros Hr Hlo HQ. pose proof new_fields as (_ & _ & Hl1 & Ho & _). pose proof new_sizes as (_ & HL2 & _ & _).
  unfold set_data_refcounts. rewrite Hl1, Ho. pose proof (fi_len _ _ _ _ _ Hr) as Hlen.
  rewrite <- (Z2Nat.id (layout_l2 h cs)) by lia. apply wp_bind, wp_map_err, wp_read_pointer_table; [apply Hr|lia|lia|]. intros r1 Hr1.
  rewrite disk_table_zero; cycle 1.
  { intros o Hoff. rewrite (fi_bytes _ _ _ _ _ Hr). unfold header_only, put_bytes. rewrite header_bytes_length, decide_False by lia. done. }
  assert (forall k, set_l2_refcounts counts ((fun ptr => Z.land ptr L1_TABLE_OFFSET_MASK) <$> replicate k 0) cs = ret counts) as ->
    by (induction k as [|k IH]; [done|exact IH]). apply wp_ret. by apply (HQ r1).
Qed.

(** The header, the table of addresses and the table of blocks are counted, and the first
    cluster after them becomes the block. *)
Lemma counting_new (n : nat) b : (8 <= n)%nat -> div_round_up_u64 b 8192 = 1 ->
  set_header_refcount (replicate n 0) cs = Ok (ones n 1) /\ set_l1_refcounts (ones n 1) h cs = Ok (ones n 2) /\
  set_refcount_table_refcounts (ones n 2) h cs = Ok (ones n 3) /\ alloc_refblocks (ones n 3) cs b 8192 = Ok ([3 * cs], ones n 4).
Proof using Hsize.
  intros Hn Hb. pose proof new_fields as (_ & _ & Hl1 & Ho1 & Ho & Hc & _). pose proof new_sizes as (_ & _ & HL1 & _).
  assert (forall k c, (k < 4)%nat -> c = Z.of_nat k * cs -> add_ref (ones n k) cs c = Ok (ones n (S k))) as Hadd
    by (intros k c Hk ->; apply add_ref_ones; lia). split_and!.
  - unfold set_header_refcount. rewrite <- (Hadd 0%nat 0) by (done || lia). unfold ones. by rewrite Nat.sub_0_r.
  - unfold set_l1_refcounts. rewrite Hl1, Ho1. change (div_round_up_u64 (layout_l2 h cs) (cs / 8)) with (layout_l1_clusters h cs). rewrite HL1.
    change (run_of_clusters cs 1 cs) with [cs]. cbn [add_refs]. by rewrite (Hadd 1%nat) by (done || lia).
  - unfold set_refcount_table_refcounts. rewrite Ho, Hc. change (run_of_clusters (2 * cs) 1 cs) with [2 * cs].
    cbn [add_refs]. by rewrite (Hadd 2%nat) by (done || lia).
  - unfold alloc_refblocks. rewrite Hb. change (Z.to_nat 1) with 1%nat. cbn [alloc_entries].
    assert (scan_free (drop (Z.to_nat 0) (ones n 3)) 0 = Some 3) as ->.
    { unfold ones. cbn [Z.to_nat drop replicate app]. by replace (n - 3)%nat with (S (n - 4)) by lia. }
    by rewrite (Hadd 3%nat) by (done || lia).
Qed.

Lemma wp_rebuild raw lo (Q : unit -> QcowRawFile -> Prop) X :
  cluster_size raw = cs -> 3 * cs - 1 <= lo -> holds_bytes header_only lo (qf_file raw) ->
  (forall r', holds_bytes new_bytes (4 * cs) r' -> Q tt (set_qf r' raw)) -> wp (rebuild_refcounts h) Q X raw.
Proof using Hal Hsize.
  intros Hcs Hlo Hr HQ. pose proof new_fields as (_ & _ & Hl1 & Ho1 & Ho & Hc & _). pose proof new_sizes as (HN & HL2 & HL1 & _).
  pose proof (fi_len _ _ _ _ _ Hr) as Hlen. unfold rebuild_refcounts. apply wp_bind, wp_get. rewrite Hcs.
  apply wp_bind, wp_map_err, wp_on_file, wp_metadata_len; [apply Hr|].
  assert (set_qf (qf_file raw) raw = raw) as -> by (by destruct raw).
  change (cs / div_round_up_u64 (Z.shiftl 1 (refcount_order h)) 8) with 32768. change (cs / 8) with 8192.
  change (div_round_up_u64 (div_round_up_u64 (div_round_up_u64 (h_size h) cs) 8192) 8192) with (layout_l1_clusters h cs).
  change (div_round_up_u64 (div_round_up_u64 (h_size h) cs) 8192) with (layout_l2 h cs).
  change (div_round_up_u64 (h_size h) cs) with (layout_clusters h cs). change (div_round_up_u64 QCOW_HEADER_SIZE cs) with 1. cbn zeta.
  destruct (rebuilt_clusters div_round_up_u64 ltac:(done)) as [Hn Ht]. set (n := _ + (div_round_up_u64 _ _ + _) + _) in *.
  set (t := div_round_up_u64 (div_round_up_u64 _ 32768) 8192) in *. clearbody n.
  rewrite decide_False by (unfold MAX_RAM_POINTER_TABLE_SIZE; lia). rewrite wsub_small by (unfold in_width; lia). rewrite decide_False by lia.
  destruct (counting_new (Z.to_nat n) _ ltac:(lia) Ht) as (-> & E1 & E2 & E3). apply wp_bind, wp_ret. rewrite E1. apply wp_bind, wp_ret.
  apply wp_bind, (zero_l1 raw lo); [done|done|]. intros r1 Hr1. rewrite E2. apply wp_bind, wp_ret. rewrite E3. apply wp_bind, wp_ret.
  apply (file_kept _ _ _ _ _ _ Hr) in Hr1. apply (wp_write_refblocks _ lo); [lia|lia|done|]. intros r2 Hr2. by apply (HQ r2).
Qed.

(** ** The new image *)
Definition new_l1 : list Z := replicate (Z.to_nat (layout_l2 h cs)) 0.
Definition new_rt : list Z := 3 * cs :: replicate (Z.to_nat (layout_refcounts h cs - 1)) 0.
Definition new_image (r : RawFile) : QcowFile :=
  mkQcowFile (mkQcowRawFile r cs (cs - 1)) h (from_vec new_l1) (cs / 8) (cache_new L2_CACHE [])
    (mkRefCount (from_vec new_rt) (2 * cs) (cache_new REFBLOCK_CACHE []) (cs / 2) cs ((layout_refcounts h cs * 32768 - 1) * cs)) 0 [] [].

Lemma put_bytes_ok a bs g o : Forall byte_ok bs -> byte_ok (g o) -> byte_ok (put_bytes a bs g o).
Proof using.
  intros Hbs Hg. unfold put_bytes. case_decide; [|done]. rewrite Forall_forall in Hbs. apply Hbs, list_elem_of_lookup_total_2. lia.
Qed.
Lemma fields_bytes_ok fs : Forall byte_ok (fields_bytes fs).
Proof using. apply Forall_concat, Forall_fmap, Forall_true. intros f. apply be_bytes_ok. Qed.
Lemma new_bytes_ok o : byte_ok (new_bytes o).
Proof using.
  unfold new_bytes, header_only. apply put_bytes_ok; [apply be_bytes_ok|]. apply put_bytes_ok; [apply be_concat_ok|].
  apply put_bytes_ok; [apply fields_bytes_ok|]. unfold byte_ok. lia.
Qed.

(** A file that starts with the bytes of the header has the header. *)
Lemma header_on_bytes f : (forall k, (k < 104)%nat -> fbyte f (Z.of_nat k) = header_bytes h !!! k) -> header_on f h.
Proof using Hver Hsize.
  intros Hbytes. pose proof new_fields as (Hs & Hb & Hl1 & Ho1 & Ho & Hc & Hcf & Hor). pose proof new_sizes as (_ & HL2 & _ & _).
  assert (Forall (fun p => in_width (8 * Z.of_nat p.1) p.2) (fields_of_header h)) as Hw.
  { unfold fields_of_header. cbn [zip_with header_widths header_list header_list_v3 app]. rewrite Hs, Hb, Hl1, Ho1, Ho, Hc, Hcf, Hor.
    change (version h) with ver. change (header_size h) with (if decide (ver = 2) then 72 else 104).
    change (magic h) with 0x514649fb. change (backing_file_offset h) with 0. change (backing_file_size h) with 0. change (crypt_method h) with 0.
    change (nb_snapshots h) with 0. change (snapshots_offset h) with 0. change (incompatible_features h) with 0. change (autoclear_features h) with 0.
    repeat (apply Forall_cons; split; [unfold in_width; cbn [fst snd]; repeat case_decide; lia|]). constructor. }
  assert (header_bytes h = fields_bytes (take 13 (fields_of_header h)) ++ fields_bytes (drop 13 (fields_of_header h))) as Happ
    by (unfold header_bytes, fields_bytes; by rewrite <- concat_app, <- fmap_app, take_drop).
  assert (length (fields_bytes (take 13 (fields_of_header h))) = 72%nat /\ length (fields_bytes (drop 13 (fields_of_header h))) = 32%nat) as [Hl72 Hl32].
  { unfold fields_of_header. cbn [zip_with header_widths header_list header_list_v3 app take drop]. rewrite !fields_bytes_cons, !length_app, !be_bytes_length. done. }
  split.
  - apply (field_values_written _ (take 13 (fields_of_header h)) 0); [|by apply Forall_take]. rewrite Hl72. intros k Hk.
    rewrite Z.add_0_l, Hbytes, Happ by lia. apply lookup_total_app_l. lia.
  - case_decide as Hv; [|].
    { unfold header_list_v3. change (header_size h) with (if decide (ver = 2) then 72 else 104). by rewrite decide_True. }
    apply (field_values_written _ (drop 13 (fields_of_header h)) 72); [|by apply Forall_drop]. rewrite Hl32. intros k Hk.
    replace (72 + Z.of_nat k) with (Z.of_nat (72 + k)) by lia. rewrite Hbytes, Happ, lookup_total_app_r by lia. f_equal. lia.
Qed.

Section image.
Context (r : RawFile) (Hr : holds_bytes new_bytes (4 * cs) r).
Local Notation q := (new_image r).

Lemma new_length : flen q = 4 * cs.
Proof using Hr. pose proof (fi_len _ _ _ _ _ Hr). unfold flen. change (img q) with (file r). lia. Qed.

Lemma new_geometry : geometry q.
Proof using Hr Hal Hsize.
  pose proof new_fields as (Hs & Hb & _ & Ho1 & Ho & Hc & _). pose proof new_sizes as (HN & HL2 & HL1 & HR).
  split; change (header q) with h; change (size_of_cluster q) with cs; rewrite ?Hb; try done.
  - unfold virtual_size. change (header q) with h. rewrite Hs. lia.
  - cbn. unfold new_l1. rewrite length_replicate. lia.
  - cbn. unfold new_rt. cbn. rewrite length_replicate. lia.
  - cbn. unfold new_l1. rewrite length_replicate. lia.
  - cbn. rewrite length_replicate. change (cs / 2) with 32768. lia.
  - cbn. lia.
  - cbn. pose proof (fi_sane _ _ _ _ _ Hr) as (_ & Hpos & _). rewrite (fi_align _ _ _ _ _ Hr) in *. destruct Hal as [|]; [by left|].
    destruct (decide (al = 0)); [by left|right]. split; [lia|done].
Qed.

Lemma new_owners held o a : held = [] -> owns held q o a ->
  o = OHeader /\ a = 0 \/ o = OL1 0 /\ a = cs \/ o = ORefTable 0 /\ a = 2 * cs \/ o = OBlock 0 /\ a = 3 * cs.
Proof using Hsize.
  intros -> Hown. pose proof new_fields as (_ & _ & _ & Ho1 & Ho & _). pose proof new_sizes as (_ & HL2 & _ & HR).
  assert (forall i x, new_l1 !! i = Some x -> x = 0) as Hl1 by (intros i x; unfold new_l1; by rewrite lookup_replicate; intros [-> _]).
  destruct o as [|k|k|i|i j|t|k|k|k]; cbn [owns] in Hown; change (header q) with h in Hown; change (size_of_cluster q) with cs in Hown.
  - by left.
  - destruct Hown as [-> Hk]. change (vec (l1_table q)) with new_l1 in Hk. unfold new_l1 in Hk. rewrite length_replicate in Hk.
    rewrite Ho1. right; left. replace k with 0%nat by lia. done.
  - destruct Hown as [-> Hk]. change (vec (ref_table (refcounts q))) with new_rt in Hk. unfold new_rt in Hk. cbn [length] in Hk.
    rewrite length_replicate in Hk. rewrite Ho. right; right; left. replace k with 0%nat by lia. done.
  - destruct Hown as [Hi Hne]. by apply Hl1 in Hi.
  - destruct Hown as [Hv Hne]. unfold l2_view, table_view in Hv. cbn [l1_table new_image vec from_vec] in Hv.
    destruct (new_l1 !! i) as [x|] eqn:Hx; [|done]. apply Hl1 in Hx as ->. by rewrite decide_True in Hv.
  - destruct Hown as [Ht Hne]. destruct t as [|t]; [injection Ht as <-; by do 3 right|]. cbn in Ht. apply lookup_replicate in Ht as [-> _]. done.
  - done.
  - done.
  - by destruct Hown.
Qed.

Lemma new_byte o : fbyte (img q) o = new_bytes o.
Proof using Hr. apply (fi_bytes _ _ _ _ _ Hr). Qed.
Lemma new_byte_zero o : 104 <= o < 2 * cs \/ 2 * cs + 8 <= o < 3 * cs -> fbyte (img q) o = 0.
Proof using Hr.
  intros Hx. rewrite new_byte. unfold new_bytes, header_only, put_bytes. rewrite header_bytes_length, be_bytes_length, block_bytes_of_length.
  by rewrite !decide_False by lia.
Qed.

Lemma new_header_on : header_on (img q) h.
Proof using Hr Hver Hsize.
  apply header_on_bytes. intros k Hk. rewrite new_byte. unfold new_bytes, header_only, put_bytes.
  rewrite header_bytes_length, be_bytes_length, block_bytes_of_length.
  rewrite (decide_False (P := 2 * cs <= _ < _)), (decide_False (P := 3 * cs <= _ < _)), decide_True by lia. f_equal. lia.
Qed.

Lemma zero_entries m : concat (be_bytes 8 <$> replicate m 0) = replicate (8 * m) 0.
Proof using.
  induction m as [|m IH]; [done|]. replace (8 * S m)%nat with (8 + 8 * m)%nat by lia. rewrite replicate_add, <- IH. done.
Qed.

Lemma new_rt_on : disk_table 8 (length new_rt) (img q) (2 * cs) = new_rt.
Proof using Hr Hsize.
  pose proof new_sizes as (_ & _ & _ & HR). set (m := Z.to_nat (layout_refcounts h cs - 1)).
  assert (length new_rt = S m) as Hlen by (unfold new_rt; cbn [length]; by rewrite length_replicate).
  assert (concat (be_bytes 8 <$> new_rt) = be_bytes 8 (3 * cs) ++ replicate (8 * m) 0) as Hb by (unfold new_rt; rewrite <- zero_entries; done).
  apply (disk_table_written 8).
  - unfold new_rt. apply Forall_cons. split; [unfold in_width; cbn; lia|]. apply Forall_replicate. unfold in_width. lia.
  - intros k Hk. rewrite Hlen in Hk. rewrite Hb. destruct (decide (k < 8)%nat).
    + rewrite lookup_total_app_l by (rewrite be_bytes_length; lia). rewrite new_byte. unfold new_bytes, put_bytes at 1.
      rewrite be_bytes_length, decide_True by lia. f_equal. lia.
    + rewrite lookup_total_app_r, be_bytes_length, lookup_total_replicate_2 by (rewrite ?be_bytes_length; lia). apply new_byte_zero. lia.
Qed.

Lemma new_block_on : disk_table 2 (Z.to_nat 32768) (img q) (3 * cs) = first_block.
Proof using Hr.
  assert (length first_block = Z.to_nat 32768) as Hlen by (apply ones_length; lia). rewrite <- Hlen at 1. apply (disk_table_written 2).
  - apply Forall_app. split; apply Forall_replicate; unfold in_width; cbn; lia.
  - intros k Hk. rewrite new_byte. unfold new_bytes. fold (block_bytes_of first_block). pose proof (block_bytes_of_length first_block) as Hb.
    unfold put_bytes at 1. rewrite be_bytes_length, decide_False by lia. unfold put_bytes at 1. rewrite decide_True by lia. f_equal. lia.
Qed.

Lemma new_represented : represented q.
Proof using Hr Hver Hsize.
  pose proof new_fields as (_ & _ & _ & Ho1 & Ho & _). pose proof new_sizes as (_ & HL2 & _ & _). split.
  - intros i t Ht. cbn in Ht. by rewrite lookup_empty in Ht.
  - intros i a Ha Hne. change (vec (l1_table q)) with new_l1 in Ha. unfold new_l1 in Ha. apply lookup_replicate in Ha as [-> _]. done.
  - intros t b Hb. cbn in Hb. by rewrite lookup_empty in Hb.
  - intros _. change (vec (l1_table q)) with new_l1. change (header q) with h. rewrite Ho1. unfold new_l1. rewrite length_replicate, disk_table_zero.
    + unfold masked. by rewrite fmap_replicate.
    + intros o Hx. apply new_byte_zero. lia.
  - intros _. change (vec (ref_table (refcounts q))) with new_rt. change (header q) with h. rewrite Ho. apply new_rt_on.
  - apply new_header_on.
Qed.

Lemma new_count k : (k < 4)%nat -> refcount_of q (Z.of_nat k * cs) = 1.
Proof using Hr.
  intros Hk. unfold refcount_of. change (size_of_cluster q) with cs. change (cs / 2) with 32768. rewrite Z.div_mul by lia.
  rewrite Z.div_small, Z.mod_small, Nat2Z.id by lia. unfold block_view, table_view. change (vec (ref_table (refcounts q))) with new_rt.
  change (new_rt !! Z.to_nat 0) with (Some (3 * cs)). cbn beta iota. rewrite decide_False by lia. cbn [cmap refblock_cache refcounts new_image cache_new].
  rewrite lookup_empty. unfold block_disk, block_size. change (size_of_cluster q) with cs. change (cs / 2) with 32768.
  rewrite new_block_on. unfold first_block. rewrite ones_lookup, decide_True by lia. done.
Qed.

Lemma new_inv : Inv [] [] q.
Proof using Hr Hver Hsize Hal.
  pose proof new_length as Hlen. split; [apply new_geometry| | |apply new_represented|].
  - split; [apply Hr|intros o; rewrite new_byte; apply new_bytes_ok|rewrite Hlen; by exists 4|].
    rewrite Hlen. pose proof new_sizes as (_ & _ & _ & HR). cbn. lia.
  - split.
    + intros o o' a Ho Ho'. apply new_owners in Ho, Ho'; [|done..]. destruct_or!; destruct Ho as [-> ->], Ho' as [-> Ha]; done || lia.
    + intros o a Ho. rewrite Hlen. apply new_owners in Ho; [|done]. destruct_or!; destruct Ho as [-> ->]; change (size_of_cluster q) with cs;
        (split; [|lia]); [by exists 0|by exists 1|by exists 2|by exists 3].
  - intros o a _ Ho _. apply new_owners in Ho; [|done].
    assert (refcount_of q a = 1) as ->; [|done].
    destruct_or!; destruct Ho as [-> ->]; [apply (new_count 0)|apply (new_count 1)|apply (new_count 2)|apply (new_count 3)]; lia.
Qed.

Lemma new_flushed : flushed q.
Proof using. split; [done|done|intros i (t & Ht & _)..]; cbn in Ht; by rewrite lookup_empty in Ht. Qed.

Lemma new_content x : content q x = 0.
Proof using.
  unfold content, l2_view, table_view. change (vec (l1_table q)) with new_l1. destruct (new_l1 !! _) as [a|] eqn:Ha; [|done].
  unfold new_l1 in Ha. apply lookup_replicate in Ha as [-> _]. by rewrite decide_True.
Qed.
End image.

Lemma new_accepted : accepted h cs.
Proof using Hver Hsize.
  pose proof new_fields as (Hs & Hb & Hl1 & Ho1 & Ho & Hc & Hcf & Hor). pose proof new_sizes as (_ & HL2 & HL1 & HR). split; [done| |done|..].
  - unfold check_header. rewrite Hs, Hb, Hl1, Ho1, Ho, Hc, Hor. change (version h) with ver. change (backing_file_offset h) with 0. change (snapshots_offset h) with 0.
    rewrite decide_False by lia. rewrite decide_False by (unfold MAX_RAM_POINTER_TABLE_SIZE; lia). rewrite decide_False by (intros Hn; by apply Hn).
    rewrite decide_False by (unfold MAX_QCOW_FILE_SIZE; change (Z.shiftl 1 44) with (2 ^ 44); lia). done.
  - unfold MAX_RAM_POINTER_TABLE_SIZE. lia.
  - rewrite Hc. lia.
  - unfold MAX_RAM_POINTER_TABLE_SIZE. lia.
Qed.
End fresh.

(** ** Counting clusters that the first block counts *)
Section counting.
Context `{Hhost : HostFile, Hlaws : !HostFileLaws}.

Lemma wp_count_modified fuel pend held q a n (Q : list Z -> QcowFile -> Prop) X :
  Inv pend held q -> countable q a -> in_width 16 n -> a ∈ pend \/ 1 <= n -> modified (blocks q) (Z.to_nat (rt_index q a)) ->
  (forall q', count_set pend held a n q q' [] -> Q [] q') -> wp (set_refcount_rec (S fuel) a n) Q X q.
Proof.
  intros HI Ha Hn Hp (b & Hb & Hd) HQ. cbn [set_refcount_rec]. apply wp_bind. rewrite loop_step. apply wp_bind, wp_attempt.
  apply (rcset_dirty pend held q a n b); [done..|]. intros q' Hq'. apply wp_ret, wp_bind, wp_ret, wp_ret. by apply HQ.
Qed.

Lemma first_index q a : geometry q -> 0 <= a < size_of_cluster q * (size_of_cluster q / 2) -> rt_index q a = 0.
Proof.
  intros Hg Ha. pose proof (cs_bounds q Hg). unfold rt_index. apply Z.div_small. split; [apply Z.div_pos; lia|apply Z.div_lt_upper_bound; lia].
Qed.

Lemma wp_count_first q a (Q : list Z -> QcowFile -> Prop) X :
  Inv [] [] q -> countable q a -> a < size_of_cluster q * (size_of_cluster q / 2) ->
  flen q + size_of_cluster q <= size_of_cluster q * (size_of_cluster q / 2) -> modified (blocks q) 0 \/ clusters_left q <> 0%nat ->
  (forall u q', Inv [] u q' -> keeps [] q q' -> Forall (fun x => x <> 0) u -> flen q' <= flen q + size_of_cluster q -> modified (blocks q') 0 -> Q u q') ->
  wp (set_cluster_refcount a 1) Q X q.
Proof.
  intros HI Ha Hsmall Hroom Hcase HQ. pose proof (inv_geo _ _ _ HI) as Hg. pose proof (cs_bounds q Hg) as Hcs.
  assert (rt_index q a = 0) as Hidx by (apply first_index; [done|destruct Ha; lia]).
  unfold set_cluster_refcount. apply wp_bind, wp_get. destruct Hcase as [Hm|Hleft].
  { apply (wp_count_modified _ [] []); [done|done|done|right; lia|by rewrite Hidx|]. intros q' [HI' Hk' _ _ (_ & Hl & _) Hm'].
    rewrite Hidx in Hm'. apply HQ; [done|done|by constructor|lia|done]. }
  cbn [set_refcount_rec]. apply wp_bind, (wp_set_refcount_loop [] []); [done|done|done|right; lia| |by intros].
  intros u added q1 [HI1 Hk1 Ht1 Hc1 Hu Hadd Hl1 Hm1]. rewrite Hidx in Hm1. rewrite !app_nil_r in HI1.
  destruct Hadd as [[-> _]|(x & t & -> & Hx & Hne & Hlt)]; [by apply wp_bind, wp_ret, wp_ret, HQ|].
  assert (owns u q1 (OBlock t) x) as Ho by done. pose proof (owned_countable _ _ _ _ _ HI1 Ho) as Hcx.
  pose proof (placed_bounds _ _ _ _ _ HI1 Ho) as (_ & Hx0 & Hxl & _). rewrite (ks_cs _ _ _ Hk1) in Hxl.
  assert (rt_index q1 x = 0) as Hix by (apply first_index; [apply HI1|rewrite (ks_cs _ _ _ Hk1); lia]).
  destruct (clusters_left q) as [|fuel]; [done|]. apply wp_bind, wp_bind, (wp_count_modified _ [x] u); [done|done|done|right; lia|by rewrite Hix|].
  intros q2 [HI2 Hk2 _ Hc2 (_ & Hl2 & _) Hm2]. rewrite Hix in Hm2. apply wp_ret, wp_ret, HQ; [|..|done|lia|done].
  - apply (inv_settled [] x); [done|]. destruct Hcx as [Hd Hpos]. rewrite Hc2, decide_True by (done || lia). lia.
  - apply (keeps_trans [] q q1); [done|]. apply (keeps_sub _ _ _ _ Hk2). set_solver.
Qed.

(** The clusters of the header and of the tables, each of which has one. *)
Definition fixed_cluster (q : QcowFile) (a : Z) : Prop := a = 0 \/ a = l1_table_offset (header q) \/ a = h_refcount_table_offset (header q).
Lemma fixed_countable pend held q a : Inv pend held q -> fixed_cluster q a -> countable q a /\ a + size_of_cluster q <= flen q.
Proof.
  intros HI Ha. pose proof (inv_geo _ _ _ HI) as Hg. pose proof (geo_l1_pos q Hg). pose proof (rt_pos q Hg).
  assert (exists o, owns held q o a) as [o Ho].
  { destruct Ha as [->|[->| ->]]; [by exists OHeader|exists (OL1 0)|exists (ORefTable 0)]; cbn; split; lia. }
  split; [by apply (owned_countable pend held q o)|]. apply (placed_bounds _ _ _ _ _ HI Ho).
Qed.

Lemma wp_count_clusters clusters : forall q (Q : unit -> QcowFile -> Prop) X,
  Inv [] [] q -> (forall a, a ∈ clusters -> fixed_cluster q a) ->
  flen q + Z.of_nat (length clusters) * size_of_cluster q <= size_of_cluster q * (size_of_cluster q / 2) ->
  modified (blocks q) 0 \/ clusters_left q <> 0%nat -> (forall q', Inv [] [] q' -> keeps [] q q' -> Q tt q') ->
  wp (count_clusters clusters) Q X q.
Proof.
  induction clusters as [|a clusters IH]; intros q Q X HI Hfix Hroom Hcase HQ; [apply wp_ret, HQ; [done|apply keeps_self]|].
  pose proof (cs_bounds q (inv_geo _ _ _ HI)) as Hcs. cbn [length] in Hroom. destruct (fixed_countable _ _ _ a HI) as [Ha Hl]; [apply Hfix; set_solver|].
  cbn [count_clusters]. apply wp_bind, wp_map_err, wp_count_first; [done|done|lia|lia|done|]. intros u q1 HI1 Hk1 Hu Hl1 Hm1.
  apply wp_bind, wp_map_err, wp_append_unref. rewrite <- (app_nil_r u) in HI1. apply inv_append_unref in HI1; [|done]. set (q2 := set_clusters _ _ q1) in *.
  assert (keeps [] q q2) as Hk2 by (apply (keeps_trans [] q q1); [done|apply keeps_clusters]). assert (flen q2 = flen q1) as Hl2 by done.
  apply IH; [done|..].
  - intros b Hb. unfold fixed_cluster. rewrite (ks_header _ _ _ Hk2). apply Hfix. set_solver.
  - rewrite (ks_cs _ _ _ Hk2), Hl2. lia.
  - by left.
  - intros q' HI' Hk'. apply HQ; [done|]. by apply (keeps_trans [] q q2).
Qed.

(** ** [QcowFile::new] *)
Section create.
Context (ver size : Z) (Hver : ver = 2 \/ ver = 3) (Hsize : 0 < size <= 2 ^ 41) (al : Z) (Hal : al = 0 \/ (al | 65536)).
Local Notation h := (new_header ver size).
Local Notation cs := 65536.

Lemma wp_from_new r l2_order ref_order (Q : QcowFile -> RawFile -> Prop) X :
  file_is al (4 * cs) (header_only ver size) (3 * cs - 1) r ->
  (forall q f, Inv [] [] q -> header q = h -> size_of_cluster q = cs -> flen q = 4 * cs -> current_offset q = 0 -> (forall x, content q x = 0) -> Q q f) ->
  wp (from l2_order ref_order) Q X r.
Proof using All.
  intros Hr HQ. pose proof (new_fields ver size Hsize) as (_ & Hb & _ & _ & Ho & _). pose proof (fi_len _ _ _ _ _ Hr) as Hlen.
  unfold from. apply wp_bind, (wp_header_new h); [apply Hr|lia| |done|].
  { apply header_on_bytes; [done|done|]. intros k Hk. rewrite (fi_bytes _ _ _ _ _ Hr). unfold header_only, put_bytes.
    rewrite header_bytes_length, decide_True by lia. f_equal. lia. }
  intros r1 Hr1. apply (file_kept _ _ _ _ _ _ Hr) in Hr1. rewrite (acc_header _ _ (new_accepted ver size Hver Hsize)). apply wp_bind, wp_ret.
  apply wp_bind, wp_map_err, wp_metadata_len; [apply Hr1|]. pose proof (fi_len _ _ _ _ _ Hr1) as Hlen1. rewrite Ho, decide_False by lia.
  apply wp_bind. unfold rebuild_required. rewrite Ho. apply wp_bind, wp_map_err, wp_seek; [apply Hr1|lia|lia|]. intros r2 Hr2 Hp2.
  apply (file_kept _ _ _ _ _ _ Hr1) in Hr2. pose proof (fi_len _ _ _ _ _ Hr2) as Hlen2.
  apply wp_bind, wp_map_err, (wp_read_field r2 (2 * cs)); [split_and!; [done|done|apply Hr2]|done|lia|]. intros r3 Hr3 _.
  apply (file_kept _ _ _ _ _ _ Hr2) in Hr3.
  assert (header_field (file r2) (2 * cs) 8 = 0) as ->.
  { assert (header_field (file r2) (2 * cs) 8 = be_value (replicate (Z.to_nat (Z.of_nat 8)) 0)) as ->; [|done]. unfold header_field. f_equal.
    rewrite <- (get_bytes_zero (2 * cs)). unfold get_bytes. apply list_fmap_ext. intros k o [-> Hk]%lookup_seqZ.
    rewrite (fi_bytes _ _ _ _ _ Hr2). unfold header_only, put_bytes. rewrite header_bytes_length, decide_False by lia. done. }
  rewrite decide_False by tauto. apply wp_bind, wp_ret. rewrite decide_False by (intros Hn; by apply Hn). apply wp_ret.
  change (Z.shiftl 1 (cluster_bits h)) with cs.
  assert (wp (open_tables h true l2_order ref_order)
    (fun q' raw => Q q' (qf_file raw)) (fun e raw => X e (qf_file raw)) (mkQcowRawFile r3 cs (cs - 1))) as Hopen.
  { unfold open_tables. apply wp_bind, (wp_rebuild ver size Hsize al Hal _ (3 * cs - 1)); [done|lia|done|]. intros r4 Hr4.
    pose proof (new_inv ver size Hver Hsize al Hal r4 Hr4) as HI. pose proof (new_flushed ver size r4) as Hf.
    assert (kept_file r4 r4) as Hk by (split_and!; [done|done|apply Hr4]).
    refine (wp_open_tables (new_image ver size r4) r4 l2_order ref_order _ _ HI Hf (new_accepted ver size Hver Hsize) Hk _).
    intros r5 q' raw Hr5 HI' Hk' Hl'. apply HQ; [done|by rewrite (ks_header _ _ _ Hk')|by rewrite (ks_cs _ _ _ Hk')| |by rewrite (ks_offset _ _ _ Hk')|].
    - rewrite Hl'. by apply (new_length ver size al).
    - intros x. rewrite (content_keeps [] _ _ x (inv_geo _ _ _ (reopened_inv _ HI Hf r5 Hr5 l2_order ref_order)) Hk').
      rewrite (reopened_content _ HI Hf r5 Hr5). apply new_content. }
  unfold wp, with_clusters in *. unfold raw_from. rewrite decide_True by done. by destruct (open_tables _ _ _ _ _) as [[]].
Qed.

Lemma wp_count_new q : Inv [] [] q -> header q = h -> size_of_cluster q = cs -> flen q = 4 * cs -> current_offset q = 0 -> (forall x, content q x = 0) ->
  wp (count_clusters [0; cs; 2 * cs]) (fun _ q' => holds (mkFlat (fun _ => 0) size 0) q') (fun _ _ => False) q.
Proof using All.
  intros HI Hh Hq Hlen Hpos Hz. pose proof (new_fields ver size Hsize) as (Hsz & Hb & _ & Ho1 & Ho & Hc & _). apply wp_count_clusters; [done|..].
  - intros a Hin. unfold fixed_cluster. rewrite Hh, Ho1, Ho. rewrite !elem_of_cons, elem_of_nil in Hin. tauto.
  - rewrite Hlen, Hq. done.
  - right. unfold clusters_left. pose proof (inv_geo _ _ _ HI) as Hg. fold (img q) (flen q). rewrite (geo_max q Hg), (geo_rtn q Hg), Hh, Hq, Hlen.
    pose proof (new_sizes ver size Hsize) as (_ & _ & _ & HR). change (cs / 2) with 32768.
    assert (0 <= ((layout_refcounts h cs * 32768 - 1) * cs - 4 * cs) / cs) by (apply Z.div_pos; lia). lia.
  - intros q' HI' Hk'. assert (virtual_size q' = size) as Hv by (unfold virtual_size; by rewrite (ks_header _ _ _ Hk'), Hh).
    split; cbn; [done| |done|by rewrite (ks_offset _ _ _ Hk')|lia|].
    + rewrite (ks_header _ _ _ Hk'), (ks_cs _ _ _ Hk'), Hh, Hq. by apply new_accepted.
    + intros x _. by rewrite (content_keeps [] q q' x (inv_geo _ _ _ HI) Hk').
Qed.

Lemma table_clusters : clusters_below (2 * cs + 1 * Z.shiftl 1 16) (Z.shiftl 1 16) = [0; cs; 2 * cs].
Proof using. vm_compute. reflexivity. Qed.

Lemma wp_new r l2_order ref_order (Q : QcowFile -> RawFile -> Prop) X :
  sane r -> f_len (file r) = 0 -> alignment r = al -> (forall q f, holds (mkFlat (fun _ => 0) size 0) q -> Q q f) ->
  wp (new l2_order ref_order ver size) Q X r.
Proof using All.
  intros Hs Hl Ha HQ. pose proof (new_fields ver size Hsize) as (Hsz & Hb & _ & Ho1 & Ho & Hc & _).
  assert (file_is al (4 * cs) (fun _ => 0) 0 r) as Hr by (split; [done|done|intros o; apply fbyte_outside; lia|lia]).
  unfold new. fold h. apply wp_bind, wp_map_err, wp_seek; [done|lia|lia|]. intros r1 Hr1 Hp1. apply (file_kept _ _ _ _ _ _ Hr) in Hr1.
  apply wp_bind, (wp_write_new al Hal h (fun _ => 0) 0); [done..|]. intros r2 Hr2.
  apply wp_bind, wp_from_new; [apply (file_ext _ _ _ _ _ _ _ Hr2); [done|lia]|]. intros q f HI Hh Hq Hlen Hpos Hz. rewrite Hh, Hb, Ho, Hc, table_clusters.
  pose proof (wp_count_new q HI Hh Hq Hlen Hpos Hz) as Hcount. unfold wp in *. destruct (count_clusters _ q) as [[] q']; [by apply HQ|done..].
Qed.

(** C22: An image that is created on an empty file is a disk of zeroes of the size asked for, and
    creating it does not fail. *)
Theorem new_image_is_zero_disk r l2_order ref_order :
  sane r -> f_len (file r) = 0 -> alignment r = al ->
  wp (new l2_order ref_order ver size) (fun q _ => holds (mkFlat (fun _ => 0) size 0) q) (fun _ _ => False) r.
Proof using All. intros Hs Hl Ha. by apply wp_new. Qed.
End create.
End counting.
