(* ===== verification/QcowConvert.v ===== *)
(** Converting between raw and qcow2 images (hypervisor/qcow/src/qcow.rs): the converted image
    holds the same disk. *)
From stdpp Require Import base numbers list gmap.
From S2P Require Import Prelude Bytes RawFile QcowTables QcowHeader QcowImage QcowDisk QcowInv QcowSteps QcowCount QcowLookup QcowWrite QcowIo QcowOpen QcowSpec QcowNew.

#[local] Open Scope Z_scope.

(** ** The traits of the standard library and of the crate vmm_sys_util *)
(** [Read + Seek + SeekHole] *)
Class Reader (R : Type) := {
  r_read : Z -> M R io_error (list Z);
  r_seek : SeekFrom -> M R io_error Z;
  r_seek_data : Z -> M R io_error (option Z);
  r_seek_hole : Z -> M R io_error (option Z);
}.
(** [Write + Seek] *)
Class Writer (W : Type) := {
  w_write : list Z -> M W io_error Z;
  w_seek : SeekFrom -> M W io_error Z;
}.

(** [SeekHole] of a file of the host, the calls [SEEK_DATA] and [SEEK_HOLE]: what is skipped on
    the way to data reads as zeroes, and data is followed by a hole, at the end of the file at
    the latest. *)
Class HostSeek := {
  file_seek_data : File -> Z -> option Z;
  file_seek_hole : File -> Z -> option Z;
}.
Class HostSeekLaws `{HostSeek} : Prop := {
  seek_data_law f off : 0 <= off ->
    match file_seek_data f off with
    | Some o => off <= o < f_len f /\ forall x, off <= x < o -> fbyte f x = 0
    | None => forall x, off <= x -> fbyte f x = 0
    end;
  seek_hole_law f off o : 0 <= off -> file_seek_data f off = Some o -> exists e, file_seek_hole f o = Some e /\ o < e <= f_len f;
}.

Section raw_seek.
Context `{HostSeek}.
(** [SeekHole] of [RawFile]. *)
Definition raw_seek_to (find : File -> Z -> option Z) (offset : Z) : RF (option Z) :=
  sys_call ;;;
  let* r := get in
  match find (file r) offset with
  | Some p => modify (set_raw (file r) p) ;;; ret (Some p)
  | None => ret None
  end.
Definition raw_seek_hole (offset : Z) : RF (option Z) := raw_seek_to file_seek_hole offset.
Definition raw_seek_data (offset : Z) : RF (option Z) := raw_seek_to file_seek_data offset.
End raw_seek.

#[export] Instance qcow_reader `{HostFile} : Reader QcowFile :=
  {| r_read := qcow_read; r_seek := qcow_seek; r_seek_data := seek_data; r_seek_hole := seek_hole |}.
#[export] Instance raw_reader `{HostSeek} : Reader RawFile :=
  {| r_read := read; r_seek := seek; r_seek_data := raw_seek_data; r_seek_hole := raw_seek_hole |}.
#[export] Instance qcow_writer `{HostFile} : Writer QcowFile := {| w_write := qcow_write; w_seek := qcow_seek |}.
#[export] Instance raw_writer : Writer RawFile := {| w_write := write; w_seek := seek |}.

(** ** Copying *)
Definition CHUNK_SIZE : Z := 65536.

Section copy.
Context {R W : Type} `{Reader R} `{Writer W}.
Notation RW := (M (R * W) Error).
Definition on_reader {A} (m : M R io_error A) : M (R * W) io_error A := zoom fst (fun r s => (r, s.2)) m.
Definition on_writer {A} (m : M W io_error A) : M (R * W) io_error A := zoom snd (fun w s => (s.1, w)) m.

(** Each round reads a byte at least, or ends the loop. *)
Fixpoint copy_loop (fuel : nat) (size read_count : Z) : RW unit :=
  match fuel with
  | O => crash
  | S fuel =>
    let this_count := Z.min CHUNK_SIZE (size - read_count) in
    let* buf := map_err ReadingData (on_reader (r_read this_count)) in
    let nread := Z.of_nat (length buf) in
    map_err WritingData (on_writer (w_write buf)) ;;;
    if decide (nread = 0 \/ read_count + nread = size) then ret tt
    else copy_loop fuel size (read_count + nread)
  end.
Definition convert_copy (offset size : Z) : RW unit :=
  map_err SeekingFile (on_reader (r_seek (Start offset))) ;;;
  map_err SeekingFile (on_writer (w_seek (Start offset))) ;;;
  copy_loop (S (Z.to_nat size)) size 0.

(** Each round copies a byte at least. *)
Fixpoint ranges_loop (fuel : nat) (size offset : Z) : RW unit :=
  match fuel with
  | O => crash
  | S fuel =>
    if decide (offset < size) then
      let* next_data := map_err SeekingFile (on_reader (r_seek_data offset)) in
      match next_data with
      | None => ret tt
      | Some next_data =>
        let* next_hole := map_err SeekingFile (on_reader (r_seek_hole next_data)) in
        match next_hole with
        | None => throw (SeekingFile (OsError EINVAL))
        | Some next_hole =>
          convert_copy next_data (wsub 64 next_hole next_data) ;;;
          ranges_loop fuel size next_hole
        end
      end
    else ret tt
  end.
Definition convert_reader_writer (size : Z) : RW unit := ranges_loop (S (Z.to_nat size)) size 0.
End copy.

(** ** Converting *)
Inductive ImageType := Raw | Qcow2.

Definition detect_image_type : M RawFile Error ImageType :=
  let* orig_seek := map_err SeekingFile (seek (Current 0)) in
  map_err SeekingFile (seek (Start 0)) ;;;
  let* magic := map_err ReadingHeader (read_be 4) in
  let image_type := if decide (magic = QCOW_MAGIC) then Qcow2 else Raw in
  map_err SeekingFile (seek (Start orig_seek)) ;;;
  ret image_type.

Section convert.
Context `{HostFile, HostSeek}.

(** An image is opened or created on the second file, used, and dropped on the way out. *)
Definition with_image {A} {R} (open : M RawFile Error QcowFile) (m : M (R * QcowFile) Error A) : M (R * RawFile) Error A := fun '(r, f) =>
  match open f with
  | (Done q, _) =>
    let '(res, (r, q)) := m (r, q) in
    let '(_, q) := drop_image q in
    (res, (r, qf_file (raw_file q)))
  | (Fail e, f) => (Fail e, (r, f))
  | (Crashed, f) => (Crashed, (r, f))
  end.

(** [orders] are those of the hash tables of the images. *)
Definition convert_reader {R} `{Reader R} (orders : list nat * list nat) (dst_type : ImageType) : M (R * RawFile) Error unit :=
  let* src_size := map_err SeekingFile (on_reader (r_seek (End_ 0))) in
  map_err SeekingFile (on_reader (r_seek (Start 0))) ;;;
  map_err SettingFileSize (on_writer (set_len 0)) ;;;
  match dst_type with
  | Qcow2 => with_image (new orders.1 orders.2 3 src_size) (convert_reader_writer src_size)
  | Raw =>
    map_err SettingFileSize (on_writer (set_len src_size)) ;;;
    convert_reader_writer src_size
  end.

Definition swapped {S T E A} (m : M (S * T) E A) : M (T * S) E A := zoom (fun s => (s.2, s.1)) (fun t _ => (t.2, t.1)) m.

Definition convert (src_orders dst_orders : list nat * list nat) (dst_type : ImageType) : M (RawFile * RawFile) Error unit :=
  let* src_type := zoom fst (fun r s => (r, s.2)) detect_image_type in
  match src_type with
  | Qcow2 => swapped (with_image (from src_orders.1 src_orders.2) (swapped (convert_reader dst_orders dst_type)))
  | Raw => convert_reader dst_orders dst_type
  end.
End convert.

(** ** What a reader and a writer promise *)
Definition at_pos (d : flat) (p : Z) : flat := mkFlat (fl_bytes d) (fl_size d) p.

Class ReaderLaws (R : Type) `{Reader R} := {
  r_holds : flat -> R -> Prop;
  r_sound d r : r_holds d r -> 0 <= fl_size d < 2 ^ 63 /\ forall x, 0 <= x < fl_size d -> byte_ok (fl_bytes d x);
  r_read_law d r n : r_holds d r -> 0 <= n < 2 ^ 63 -> fl_pos d + n <= fl_size d ->
    wp (r_read n) (fun bs r' => bs = get_bytes (fl_bytes d) (fl_pos d) n /\ r_holds (at_pos d (fl_pos d + n)) r') (fun _ _ => False) r;
  r_seek_law d r o : r_holds d r -> 0 <= o <= fl_size d ->
    wp (r_seek (Start o)) (fun p r' => p = o /\ r_holds (at_pos d o) r') (fun _ _ => False) r;
  r_end_law d r : r_holds d r ->
    wp (r_seek (End_ 0)) (fun p r' => p = fl_size d /\ r_holds (at_pos d (fl_size d)) r') (fun _ _ => False) r;
  (** The next range of data: what is skipped is zero. *)
  r_next_law d r off : r_holds d r -> 0 <= off ->
    wp (r_seek_data off) (fun found r1 =>
      match found with
      | None => (forall x, off <= x < fl_size d -> fl_bytes d x = 0) /\ r_holds d r1
      | Some o => off <= o /\ (forall x, off <= x < o -> fl_bytes d x = 0) /\
          wp (r_seek_hole o) (fun e r2 => exists h, e = Some h /\ o < h <= fl_size d /\ r_holds (at_pos d h) r2) (fun _ _ => False) r1
      end) (fun _ _ => False) r;
}.
Class WriterLaws (W : Type) `{Writer W} := {
  w_holds : flat -> W -> Prop;
  (** Whether there may be no space for what is written. *)
  w_limited : Prop;
  w_same d g w : w_holds d w -> (forall x, 0 <= x < fl_size d -> g x = fl_bytes d x) -> w_holds (mkFlat g (fl_size d) (fl_pos d)) w;
  w_write_law d w bs : w_holds d w -> bs <> [] -> Forall byte_ok bs -> Z.of_nat (length bs) < 2 ^ 63 -> fl_pos d + Z.of_nat (length bs) <= fl_size d ->
    wp (w_write bs) (fun n w' => w_holds (mkFlat (put_bytes (fl_pos d) bs (fl_bytes d)) (fl_size d) (fl_pos d + Z.of_nat (length bs))) w')
      (fun e _ => e = OsError ENOSPC /\ w_limited) w;
  w_seek_law d w o : w_holds d w -> 0 <= o <= fl_size d -> wp (w_seek (Start o)) (fun _ w' => w_holds (at_pos d o) w') (fun _ _ => False) w;
}.

(** ** The copy is exact *)
Section exact.
Context {R W : Type} `{Hrl : ReaderLaws R} `{Hwl : WriterLaws W} (g : Z -> Z) (size : Z).

(** The bytes below [n] were copied. *)
Definition copied (n x : Z) : Z := if decide (x < n) then g x else 0.
Definition copying (n p p' : Z) (s : R * W) : Prop := r_holds (mkFlat g size p) s.1 /\ w_holds (mkFlat (copied n) size p') s.2.
Definition no_space (e : Error) (_ : R * W) : Prop := e = WritingData (OsError ENOSPC) /\ w_limited.

Lemma wp_on_reader {A} (m : M R io_error A) (f : io_error -> Error) (P : A -> R -> Prop) (Q : A -> R * W -> Prop) X s :
  wp m P (fun _ _ => False) s.1 -> (forall a r, P a r -> Q a (r, s.2)) -> wp (map_err f (on_reader m)) Q X s.
Proof. intros Hm HQ. apply wp_map_err, wp_zoom. eapply wp_mono; [exact Hm|exact HQ|done]. Qed.
Lemma wp_on_writer {A} (m : M W io_error A) (f : io_error -> Error) (P : A -> W -> Prop) E (Q : A -> R * W -> Prop) X s :
  wp m P E s.2 -> (forall a w, P a w -> Q a (s.1, w)) -> (forall e w, E e w -> X (f e) (s.1, w)) -> wp (map_err f (on_writer m)) Q X s.
Proof. intros Hm HQ HX. apply wp_map_err, wp_zoom. eapply wp_mono; [exact Hm|exact HQ|exact HX]. Qed.

Lemma copied_more n m x : 0 <= m -> copied (n + m) x = put_bytes n (get_bytes g n m) (copied n) x.
Proof.
  intros Hm. unfold put_bytes, copied. rewrite get_bytes_length. destruct (decide (n <= x < n + Z.of_nat (Z.to_nat m))) as [Hx|Hx].
  - rewrite decide_True by lia. symmetry. apply list_lookup_total_correct. unfold get_bytes. rewrite list_lookup_fmap, lookup_seqZ_lt by lia. cbn. f_equal. f_equal. lia.
  - repeat case_decide; done || lia.
Qed.

Lemma wp_copy_loop a n fuel : forall rc s,
  copying (a + rc) (a + rc) (a + rc) s -> 0 <= a -> 0 <= rc < n -> a + n <= size -> (Z.to_nat (n - rc) < fuel)%nat ->
  wp (copy_loop fuel n rc) (fun _ => copying (a + n) (a + n) (a + n)) no_space s.
Proof.
  induction fuel as [|fuel IH]; intros rc s [Hr Hw] Ha Hrc Hn Hfuel; [lia|]. destruct (r_sound _ _ Hr) as [Hsize Hok]. cbn [fl_size fl_bytes] in *.
  cbn [copy_loop]. set (c := Z.min CHUNK_SIZE (n - rc)). assert (0 < c <= n - rc) as Hc by (unfold c, CHUNK_SIZE; lia).
  apply wp_bind. eapply wp_on_reader; [apply (r_read_law _ _ c Hr); cbn; lia|]. cbn [fl_size fl_bytes fl_pos at_pos]. intros bs r1 [-> Hr1].
  pose proof (get_bytes_length g (a + rc) c) as Hlen. apply wp_bind. eapply wp_on_writer.
  - apply (w_write_law _ _ (get_bytes g (a + rc) c) Hw); [intros Hnil; rewrite Hnil in Hlen; cbn in Hlen; lia| |lia|cbn; lia].
    apply Forall_forall. intros b (x & -> & Hx%elem_of_seqZ)%list_elem_of_fmap. apply Hok. lia.
  - cbn [fl_size fl_bytes fl_pos]. rewrite Hlen, Z2Nat.id by lia. intros _ w1 Hw1.
    assert (copying (a + (rc + c)) (a + (rc + c)) (a + (rc + c)) (r1, w1)) as Hnext.
    { replace (a + (rc + c)) with (a + rc + c) by lia. split; [exact Hr1|]. apply (w_same _ (copied (a + rc + c)) _ Hw1). cbn. intros x _. apply copied_more. lia. }
    case_decide as Hend; [apply wp_ret; by replace n with (rc + c) by lia|]. apply IH; [done|lia|lia|lia|lia].
  - by intros e w [-> Hl].
Qed.

Lemma wp_convert_copy a n p p' s :
  copying a p p' s -> 0 <= a -> 0 < n -> a + n <= size -> wp (convert_copy a n) (fun _ => copying (a + n) (a + n) (a + n)) no_space s.
Proof.
  intros [Hr Hw] Ha Hn Hfit. unfold convert_copy.
  apply wp_bind. eapply wp_on_reader; [apply (r_seek_law _ _ a Hr); cbn; lia|]. intros o r1 [_ Hr1].
  apply wp_bind. eapply wp_on_writer; [apply (w_seek_law _ _ a Hw); cbn; lia| |done]. intros o' w1 Hw1.
  apply wp_copy_loop; [rewrite Z.add_0_r; by split|lia..].
Qed.

Lemma wp_ranges_loop fuel : forall off p p' s,
  copying off p p' s -> 0 <= off <= size -> (Z.to_nat (size - off) < fuel)%nat ->
  wp (ranges_loop fuel size off) (fun _ s' => exists p p', copying size p p' s') no_space s.
Proof.
  induction fuel as [|fuel IH]; intros off p p' s [Hr Hw] Hoff Hfuel; [lia|]. destruct (r_sound _ _ Hr) as [Hsize Hok]. cbn [fl_size fl_bytes] in *.
  cbn [ranges_loop]. case_decide as Hlt; [|apply wp_ret; replace size with off by lia; by exists p, p'].
  assert (forall n, (forall x, off <= x < n -> x < size -> g x = 0) -> off <= n -> w_holds (mkFlat (copied n) size p') s.2) as Hskip.
  { intros n Hz Hn. apply (w_same _ (copied n) _ Hw). cbn. intros x Hx. unfold copied. repeat case_decide; try done; [apply Hz; lia|lia]. }
  apply wp_bind. eapply wp_on_reader; [apply (r_next_law _ _ off Hr); lia|]. cbn [fl_size fl_bytes]. intros [o|] r1.
  - intros (Ho & Hz & Hhole). apply wp_bind. eapply wp_on_reader; [exact Hhole|]. cbn [fl_size]. intros e r2 (e' & -> & He & Hr2).
    rewrite wsub_small by (unfold in_width; lia). apply wp_bind. eapply wp_mono; [apply (wp_convert_copy o (e' - o) e' p')|..]; [split; [exact Hr2|]|lia|lia|lia| |done].
    { apply (Hskip o); [intros x Hx _; by apply Hz|lia]. }
    intros u s' Hs'. replace (o + (e' - o)) with e' in Hs' by lia. by apply (IH e' e' e'); [|lia|lia].
  - intros [Hz Hr1]. apply wp_ret. exists p, p'. split; [done|]. apply (Hskip size); [intros x Hx _; by apply Hz|lia].
Qed.

(** The writer holds what the reader does, if it had a disk of zeroes of that size. *)
Lemma wp_convert_reader_writer p p' s :
  r_holds (mkFlat g size p) s.1 -> w_holds (mkFlat (fun _ => 0) size p') s.2 ->
  wp (convert_reader_writer size) (fun _ s' => exists p p', r_holds (mkFlat g size p) s'.1 /\ w_holds (mkFlat g size p') s'.2) no_space s.
Proof.
  intros Hr Hw. destruct (r_sound _ _ Hr) as [Hsize Hok]. cbn [fl_size] in Hsize. eapply wp_mono; [apply (wp_ranges_loop _ 0 p p')|..].
  - split; [done|]. apply (w_same _ (copied 0) _ Hw). cbn. intros x Hx. unfold copied. by rewrite decide_False by lia.
  - lia.
  - lia.
  - intros _ s' (q & q' & Hr' & Hw'). exists q, q'. split; [done|]. apply (w_same _ g _ Hw'). cbn. intros x Hx. unfold copied. by rewrite decide_True by lia.
  - done.
Qed.
End exact.

(** ** Raw files *)
Record raw_holds (d : flat) (r : RawFile) : Prop := {
  rh_sane : sane r;
  rh_ok : bytes_ok (file r);
  rh_pos : position r = fl_pos d;
  rh_size : 0 <= fl_size d < 2 ^ 63;
  rh_len : fl_size d <= f_len (file r);
  rh_bytes x : 0 <= x < fl_size d -> fbyte (file r) x = fl_bytes d x;
}.
(** Direct I/O may have rounded up the length. *)
Definition raw_length (size : Z) (r : RawFile) : Prop :=
  f_len (file r) = size \/ 0 < alignment r /\ (alignment r | f_len (file r)) /\ f_len (file r) < size + alignment r.

Lemma raw_kept d r r' p : raw_holds d r -> kept_file r r' -> position r' = p -> raw_holds (at_pos d p) r'.
Proof. intros [Hs Ho Hp Hz Hl Hb] (Hf & Ha & Hs') Hp'. split; cbn; rewrite ?Hf; done. Qed.

Lemma wp_raw_seek d r pos o (Q : Z -> RawFile -> Prop) X :
  raw_holds d r -> pos = Start o \/ pos = End_ 0 /\ o = f_len (file r) -> 0 <= o < 2 ^ 63 ->
  (forall r', kept_file r r' -> raw_holds (at_pos d o) r' -> Q o r') -> wp (seek pos) Q X r.
Proof.
  intros Hr Hpos Ho HQ. pose proof (rh_sane _ _ Hr) as Hs. destruct Hpos as [->|[-> ->]]; (apply wp_seek; [done|lia|done || lia|]); intros r' Hk Hp.
  - apply HQ; [done|]. by apply (raw_kept d r).
  - rewrite Z.add_0_r in *. apply HQ; [done|]. by apply (raw_kept d r).
Qed.

Section raw_laws.
Context `{HostSeek, !HostSeekLaws}.

Lemma wp_raw_seek_to d r find off (Q : option Z -> RawFile -> Prop) X :
  raw_holds d r ->
  match find (file r) off with
  | Some o => 0 <= o /\ forall r', file r' = file r -> raw_holds (at_pos d o) r' -> Q (Some o) r'
  | None => Q None r
  end -> wp (raw_seek_to find off) Q X r.
Proof.
  intros Hr HQ. unfold raw_seek_to. apply wp_bind, wp_sys_call; [apply Hr|]. apply wp_bind, wp_get. destruct (find (file r) off) as [o|].
  - destruct HQ as [Ho HQ]. apply wp_bind, wp_modify, wp_ret, HQ; [done|]. destruct Hr as [(Hq & Ha & Hp & Hl) Hok Hpos Hz Hlen Hb]. by split.
  - by apply wp_ret.
Qed.

#[export] Program Instance raw_reader_laws : ReaderLaws RawFile := {| r_holds d r := raw_holds d r /\ f_len (file r) = fl_size d |}.
Next Obligation.
  intros d r [[Hs Hok Hp Hz Hl Hb] Hlen]. split; [done|]. intros x Hx. rewrite <- Hb by done. apply Hok.
Qed.
Next Obligation.
  intros d r n [Hr Hlen] Hn Hfit. pose proof Hr as [Hs Hok Hp Hz Hl Hb]. pose proof Hs as (_ & _ & Hpos & _).
  apply wp_read; [done|lia|]. intros r' Hk Hp'. rewrite Hp in *. rewrite pread_full in * by lia. rewrite length_fmap, length_seqZ, Z2Nat.id in Hp' by lia. split.
  - apply get_bytes_ext. intros k Hk'. apply Hb. lia.
  - split; [by apply (raw_kept d r)|]. destruct Hk as (-> & _). done.
Qed.
Next Obligation.
  intros d r o [Hr Hlen] Ho. pose proof (rh_size _ _ Hr). apply (wp_raw_seek d r _ o); [done|by left|lia|]. intros r' (Hf & _) Hr'. rewrite Hf. done.
Qed.
Next Obligation.
  intros d r [Hr Hlen]. pose proof (rh_size _ _ Hr). apply (wp_raw_seek d r _ (fl_size d)); [done|right; done|lia|].
  intros r' (Hf & _) Hr'. rewrite Hf. done.
Qed.
Next Obligation.
  intros d r off [Hr Hlen] Hoff. apply (wp_raw_seek_to d); [done|]. pose proof (seek_data_law (file r) off Hoff) as Hdata.
  destruct (file_seek_data (file r) off) as [o|] eqn:Hfind.
  - destruct Hdata as [Ho Hz]. split; [lia|]. intros r1 Hf1 Hr1. split_and!; [lia|intros x Hx; rewrite <- (rh_bytes _ _ Hr) by lia; by apply Hz|].
    destruct (seek_hole_law (file r) off o Hoff Hfind) as (e & He & Hlt). apply (wp_raw_seek_to _ _ _ _ _ _ Hr1). rewrite Hf1, He. split; [lia|].
    intros r2 Hf2 Hr2. exists e. split_and!; [done|lia|lia|exact Hr2|by rewrite Hf2].
  - split; [|done]. intros x Hx. rewrite <- (rh_bytes _ _ Hr) by lia. apply Hdata. lia.
Qed.
End raw_laws.

#[export] Program Instance raw_writer_laws : WriterLaws RawFile := {| w_holds d r := raw_holds d r /\ raw_length (fl_size d) r; w_limited := False |}.
Next Obligation.
  intros d g r [[Hs Hok Hp Hz Hl Hb] Hlen] Hg. split; [|done]. split; cbn; [done..|]. intros x Hx. by rewrite Hg, Hb.
Qed.
Next Obligation.
  intros d r bs [Hr Hlen] Hne Hbs _ Hfit. pose proof Hr as [Hs Hok Hp Hz Hl Hb]. apply wp_write; [done|done|]. intros r' Hw Hp'. rewrite Hp in *.
  pose proof (bytes_ok_wrote _ _ _ _ Hok Hbs Hw) as Hok'. destruct Hw as (Hb' & Hmin & Hmax & Ha & Hs'). split.
  - split; cbn; [done|done|done|done|lia|]. intros x Hx. rewrite Hb'. unfold put_bytes. case_decide; [done|by apply Hb].
  - unfold raw_length in *. cbn. rewrite Ha. destruct Hmax as [Hmax|(Hd & Hpos & Hlt)]; [|right; split_and!; [done|done|lia]].
    destruct Hlen as [Hlen|(Hpos & Hd & Hlt)]; [left; lia|right]. replace (f_len (file r')) with (f_len (file r)) by lia. done.
Qed.
Next Obligation.
  intros d r o [Hr Hlen] Ho. pose proof (rh_size _ _ Hr). apply (wp_raw_seek d r _ o); [done|by left|lia|]. intros r' (Hf & Ha & _) Hr'.
  split; [done|]. unfold raw_length. by rewrite Hf, Ha.
Qed.

(** ** Images *)
Section qcow_laws.
Context `{Hhost : HostFile, Hlaws : !HostFileLaws}.

#[export] Program Instance qcow_reader_laws : ReaderLaws QcowFile := {| r_holds := holds |}.
Next Obligation.
  intros d q [HI Hacc Hs Hp Hr Hb]. pose proof (geo_size q (inv_geo _ _ _ HI)). split; [lia|]. intros x Hx. rewrite <- Hb by done.
  rewrite content_cluster. case_decide; [unfold byte_ok; lia|apply HI].
Qed.
Next Obligation.
  intros d q n Hd Hn Hfit. apply (wp_qcow_read d); [done|done|]. by rewrite Z.min_l by lia.
Qed.
Next Obligation. intros d q o Hd Ho. apply (wp_seek_to d _ _ o); [done|by left|lia|]. done. Qed.
Next Obligation.
  intros d q Hd. pose proof (ho_range _ _ Hd). apply (wp_seek_to d _ _ (fl_size d)); [done|by right|lia|]. done.
Qed.
Next Obligation.
  intros d q off Hd Hoff. pose proof Hd as [HI Hacc Hs Hp Hr Hb]. cbn. unfold seek_data. apply wp_bind, (wp_find_allocated [] []); [done|done|].
  intros found q1 HI1 Hk1 Hf. pose proof (holds_keeps d q q1 Hd HI1 Hk1) as Hd1. unfold first_from in Hf. rewrite Hs in Hf. destruct found as [o|].
  - destruct Hf as (Ho & Ho' & Hskip). apply wp_bind, (wp_seek_to d _ _ o); [done|by left|lia|]. intros Hd2. apply wp_ret.
    split_and!; [lia|intros x Hx; rewrite <- Hb by lia; apply no_cluster_zero; by apply Hskip|].
    assert (has_cluster (set_offset o q1) o = true) as Ho2 by (rewrite <- Ho'; exact (keeps_has_cluster [] q q1 o Hk1)).
    set (q2 := set_offset o q1) in *. pose proof (ho_inv _ _ Hd2) as HI2. pose proof (ho_size _ _ Hd2) as Hs2. cbn in Hs2.
    unfold seek_hole. apply wp_bind, wp_get, wp_bind, (wp_find_allocated [] []); [done|lia|]. intros found q3 HI3 Hk3 Hf3.
    pose proof (holds_keeps _ q2 q3 Hd2 HI3 Hk3) as Hd3. unfold first_from in Hf3. rewrite Hs2 in *. destruct found as [e|].
    + destruct Hf3 as (He & He' & _). apply wp_bind, (wp_seek_to _ _ _ e _ _ Hd3); [by left|cbn; lia|]. intros Hd4. apply wp_ret. exists e.
      split_and!; [done| |lia|exact Hd4]. destruct (decide (o = e)) as [->|]; [congruence|lia].
    + rewrite decide_True by lia. apply wp_bind, (wp_seek_to _ _ _ (fl_size d) _ _ Hd3); [by right|cbn; lia|]. intros Hd4. apply wp_ret.
      exists (fl_size d). split_and!; [done|lia|lia|exact Hd4].
  - apply wp_ret. split; [|done]. intros x Hx. rewrite <- Hb by lia. apply no_cluster_zero. by apply Hf.
Qed.

#[export] Program Instance qcow_writer_laws : WriterLaws QcowFile := {| w_holds := holds; w_limited := True |}.
Next Obligation.
  intros d g q Hd Hg. apply (holds_disk d _ q); cbn; [done|apply Hd|done|done|apply Hd|done|apply Hd|]. intros x Hx. rewrite Hg by done. by apply Hd.
Qed.
Next Obligation.
  intros d q bs Hd Hne Hbs Hlen Hfit. pose proof (serve_write d q bs Hd (conj Hbs Hlen)) as Hw. unfold served in Hw. cbn [serve_request flat_serve fst snd] in Hw.
  rewrite Z.min_l, Nat2Z.id, firstn_all in Hw by lia. cbn [w_write qcow_writer]. unfold wp, bind, map_err, ret in *.
  destruct (qcow_write bs q) as [[n|e|] q']; [apply Hw|split; [|done]|done]. destruct Hw as [Hw _]. by injection Hw.
Qed.
Next Obligation. intros d q o Hd Ho. apply (wp_seek_to d _ _ o); [done|by left|lia|]. done. Qed.
End qcow_laws.

(** ** Stored disks *)
(** A file that stores a disk, in either format; an image was dropped, so that all of it is on
    the file. *)
Definition saved (g : Z -> Z) (size : Z) (r : RawFile) : Prop :=
  exists p q, holds (mkFlat g size p) q /\ flushed q /\ kept_file (qf_file (raw_file q)) r.
Definition stored (t : ImageType) (g : Z -> Z) (size : Z) (r : RawFile) : Prop :=
  match t with
  | Raw => (exists p, raw_holds (mkFlat g size p) r) /\ raw_length size r
  | Qcow2 => saved g size r
  end.
(** A raw file whose first bytes are those of an image is taken for one. *)
Definition source (t : ImageType) (g : Z -> Z) (size : Z) (r : RawFile) : Prop :=
  stored t g size r /\ position r < 2 ^ 63 /\ (t = Raw -> 4 <= size /\ f_len (file r) = size /\ header_field (file r) 0 4 <> QCOW_MAGIC).
(** A file that an image can be written to. *)
Definition target (t : ImageType) (size : Z) (r : RawFile) : Prop :=
  sane r /\ (t = Qcow2 -> 0 < size <= 2 ^ 41 /\ (alignment r = 0 \/ (alignment r | 65536))).

Lemma wp_truncate r (Q : unit -> RawFile -> Prop) X :
  sane r -> (forall r', sane r' -> f_len (file r') = 0 -> alignment r' = alignment r -> Q tt r') -> wp (set_len 0) Q X r.
Proof. intros (Hq & Ha & Hp & Hl) HQ. unfold set_len. apply wp_bind, wp_sys_call; [done|]. by apply wp_modify, HQ. Qed.

Lemma stored_kept t g size r r' : stored t g size r -> kept_file r r' -> stored t g size r'.
Proof.
  destruct t; cbn.
  - intros [[p Hp] Hl] Hk. split; [exists (position r'); by apply (raw_kept (mkFlat g size p) r)|]. destruct Hk as (Hf & Ha & _). unfold raw_length. by rewrite Hf, Ha.
  - intros (p & q & Hd & Hf & Hr) Hk. exists p, q. split_and!; [done|done|]. by apply (kept_trans _ r).
Qed.

(** The two formats can be told apart. *)
Lemma source_magic t g size r : source t g size r -> sane r /\ 4 <= f_len (file r) /\ (header_field (file r) 0 4 = QCOW_MAGIC <-> t = Qcow2).
Proof.
  intros (Hst & _ & Hraw). destruct t; cbn in Hst.
  - destruct Hst as [[p Hp] _]. destruct (Hraw eq_refl) as (Hsize & Hl & Hm). split_and!; [apply Hp|lia|done].
  - destruct Hst as (p & q & Hd & _ & Hf & _ & Hs). pose proof (ho_inv _ _ Hd) as HI. pose proof (cs_bounds q (inv_geo _ _ _ HI)).
    pose proof (placed_bounds _ _ _ _ _ HI (eq_refl : owns [] q OHeader 0)) as (_ & _ & Hlen & _). unfold flen, img in Hlen.
    split_and!; [done|rewrite Hf; lia|]. split; [done|intros _]. rewrite Hf, <- (acc_magic _ _ (ho_accepted _ _ Hd)).
    destruct (rep_header q (inv_rep _ _ _ HI)) as [Hh _]. by injection Hh.
Qed.

Lemma wp_detect t g size r (Q : ImageType -> RawFile -> Prop) X :
  source t g size r -> (forall r', source t g size r' -> Q t r') -> wp detect_image_type Q X r.
Proof.
  intros Hsrc HQ. destruct (source_magic _ _ _ _ Hsrc) as (Hs & Hl & Hm). destruct Hsrc as (Hst & Hp & Hraw).
  unfold detect_image_type. pose proof Hs as (_ & _ & Hp0 & _).
  apply wp_bind, wp_map_err, wp_seek; [done|lia|done|]. intros r1 Hr1 Hp1.
  apply wp_bind, wp_map_err, wp_seek; [apply Hr1|lia|lia|]. intros r2 Hr2 Hp2. pose proof (kept_trans _ _ _ Hr1 Hr2) as Hk2.
  apply wp_bind, wp_map_err, (wp_read_field r 0); [done|done|cbn; lia|]. intros r3 Hr3 Hp3.
  apply wp_bind, wp_map_err, wp_seek; [apply Hr3|lia|lia|]. intros r4 Hr4 Hp4. apply wp_ret. pose proof (kept_trans _ _ _ Hr3 Hr4) as Hk4.
  assert ((if decide (header_field (file r) 0 4 = QCOW_MAGIC) then Qcow2 else Raw) = t) as ->
    by (case_decide as Hd; [symmetry; by apply Hm|destruct t; [done|by destruct Hd; apply Hm]]).
  apply HQ. split; [by apply (stored_kept t g size r)|]. split; [lia|]. destruct Hk4 as (-> & _). done.
Qed.

(** ** The conversion *)
Section conversion.
Context `{Hhost : HostFile, Hlaws : !HostFileLaws, Hseek : HostSeek, Hseeks : !HostSeekLaws}.

Lemma wp_swapped {S T E A} (m : M (S * T) E A) (Q : A -> T * S -> Prop) X s :
  wp m (fun a t => Q a (t.2, t.1)) (fun e t => X e (t.2, t.1)) (s.2, s.1) -> wp (swapped m) Q X s.
Proof. intros Hm. by apply wp_zoom. Qed.

Lemma wp_with_image {A R} open (m : M (R * QcowFile) Error A) P E (Q : A -> R * RawFile -> Prop) X r f :
  wp open (fun q _ => wp m P E (r, q)) (fun e f' => X e (r, f')) f ->
  (forall a s, P a s -> exists d, holds d s.2 /\ forall q, holds d q -> flushed q -> Q a (s.1, qf_file (raw_file q))) ->
  (forall e s f', E e s -> X e (s.1, f')) -> wp (with_image open m) Q X (r, f).
Proof.
  intros Hopen HP HE. unfold with_image, wp in *. destruct (open f) as [[q|e|] f']; [|done..].
  destruct (m (r, q)) as [res [r' q']]. destruct res as [a|e|]; [|destruct (drop_image q') as [u q'']; by apply (HE e (r', q'))|done].
  destruct (HP a (r', q') Hopen) as (d & Hd & HQ). pose proof (wp_drop_image d q' (fun _ q => holds d q /\ flushed q) (fun _ _ => False) Hd ltac:(done)) as Hdrop.
  unfold wp in Hdrop. destruct (drop_image q') as [[u| |] q'']; [|done..]. by destruct Hdrop; apply HQ.
Qed.

Lemma saved_dropped g size p q : holds (mkFlat g size p) q -> flushed q -> saved g size (qf_file (raw_file q)).
Proof. intros Hd Hf. exists p, q. split_and!; [done|done|]. split_and!; [done|done|]. apply (ho_inv _ _ Hd). Qed.

Lemma wp_convert_reader {R} `{Hrl : ReaderLaws R} orders t g size p r f (Q : unit -> R * RawFile -> Prop) (X : Error -> R * RawFile -> Prop) :
  r_holds (mkFlat g size p) r -> target t size f ->
  (forall p' r' f', r_holds (mkFlat g size p') r' -> stored t g size f' -> Q tt (r', f')) ->
  (forall s, t = Qcow2 -> X (WritingData (OsError ENOSPC)) s) -> wp (convert_reader orders t) Q X (r, f).
Proof.
  intros Hr [Hs Ht] HQ HX. destruct (r_sound _ _ Hr) as [Hsize Hok]. cbn [fl_size fl_bytes] in *. unfold convert_reader.
  apply wp_bind. eapply wp_on_reader; [apply (r_end_law _ _ Hr)|]. intros o r1 [-> Hr1]. cbn [fl_size] in *.
  apply wp_bind. eapply wp_on_reader; [apply (r_seek_law _ _ 0 Hr1); cbn; lia|]. intros o r2 [_ Hr2]. cbn [snd].
  apply wp_bind. eapply (wp_on_writer _ _ (fun _ f' => sane f' /\ f_len (file f') = 0 /\ alignment f' = alignment f) (fun _ _ => False));
    [by apply wp_truncate| |done]. intros u f1 (Hs1 & Hl1 & Ha1). cbn [fst]. destruct t.
  - apply wp_bind. eapply (wp_on_writer _ _ (fun _ f' => raw_holds (mkFlat (fun _ => 0) size (position f')) f' /\ f_len (file f') = size) (fun _ _ => False)).
    + cbn [snd]. apply wp_set_len; [done|lia|]. intros f2 Hb2 Hl2 Ha2 Hs2. assert (forall x, fbyte (file f2) x = 0) as Hz.
      { intros x. rewrite Hb2. apply fbyte_outside. lia. }
      split; [|done]. split; cbn; [done| |done|done|lia|done]. intros x. rewrite Hz. unfold byte_ok. lia.
    + intros v f2 [Hf2 Hl2]. eapply wp_mono; [eapply (wp_convert_reader_writer g size); [exact Hr2|]|..].
      * split; [exact Hf2|by left].
      * intros [] [r' f'] (q & q' & Hr' & Hw' & Hlen'). apply (HQ q); [done|]. split; [by exists q'|done].
      * by intros e s [_ []].
    + done.
  - destruct (Ht eq_refl) as [Hfit Hal]. rewrite <- Ha1 in Hal.
    eapply wp_with_image; [eapply (wp_new 3 size); [by right|done|exact Hal|done|done|done|]|..].
    + intros q f2 Hq. eapply (wp_convert_reader_writer g size); [exact Hr2|exact Hq].
    + intros [] s (q & q' & Hr' & Hw'). exists (mkFlat g size q'). split; [done|]. intros q2 Hd2 Hf2. apply (HQ q); [done|]. by apply (saved_dropped g size q').
    + intros e s f' [-> _]. by apply HX.
Qed.

(** C23: Converting an image between the formats keeps the disk: what is written stores the
    bytes of the source, and the source still does.  The calls of the host succeed and transfer
    all they are asked to; a raw source has four bytes at least, which are not the magic number
    of images; an image is made of up to 2 TiB, on a file whose alignment divides its clusters.
    A conversion to a raw file does not fail, one to an image only if there is no cluster left.
    A short write goes unnoticed: [short_write_lost]. *)
Theorem convert_keeps_disk src_orders dst_orders src dst t t' g size :
  source t g size src -> target t' size dst ->
  wp (convert src_orders dst_orders t') (fun _ s => stored t g size s.1 /\ stored t' g size s.2)
    (fun e _ => e = WritingData (OsError ENOSPC) /\ t' = Qcow2) (src, dst).
Proof.
  intros Hsrc Hdst. unfold convert. apply wp_bind, wp_zoom, (wp_detect t g size); [done|]. intros r1 Hr1. cbn [snd].
  destruct t.
  - destruct Hr1 as ([[p Hp] Hl] & _ & Hraw). destruct (Hraw eq_refl) as (_ & Hlen & _).
    apply (wp_convert_reader _ _ g size p); [split; [exact Hp|exact Hlen]|done| |done].
    intros p' r' f' [Hr' Hl'] Hst. split; [|done]. split; [by exists p'|by left].
  - destruct Hr1 as ((p & q & Hd & Hf & Hk) & _). apply wp_swapped. cbn [fst snd].
    eapply (wp_with_image _ _ (fun _ s => stored t' g size s.1 /\ exists p', holds (mkFlat g size p') s.2)
      (fun e _ => e = WritingData (OsError ENOSPC) /\ t' = Qcow2)).
    + eapply (wp_open_saved (mkFlat g size p) q); [done|done|done|]. intros q1 f1 Hq1. apply wp_swapped.
      apply (wp_convert_reader _ _ g size 0); [exact Hq1|done| |done]. intros p' r' f' Hr' Hst. split; [done|]. by exists p'.
    + intros u s [Hst [p' Hp']]. exists (mkFlat g size p'). split; [done|]. intros q2 Hd2 Hf2. split; [by apply (saved_dropped g size p')|done].
    + done.
Qed.
End conversion.
