(* ===== verification/QcowRun.v ===== *)
(** A checker of the consistency of qcow2 images, a small image, and runs of it. *)
From stdpp Require Import base numbers list gmap.
From S2P Require Import Prelude Bytes RawFile QcowTables QcowHeader QcowImage QcowDisk QcowInv QcowSteps QcowCount QcowLookup QcowWrite QcowIo QcowOpen QcowSpec QcowNew QcowConvert.

#[local] Open Scope Z_scope.

(** ** The owners *)
Definition run_owners (mk : nat -> owner) (base cs : Z) (n : nat) : list (owner * Z) :=
  (fun k => (mk k, base + Z.of_nat k * cs)) <$> seq 0 (Z.to_nat (div_round_up_u64 (8 * Z.of_nat n) cs)).
Definition table_owners (mk : nat -> owner) (table : list Z) : list (owner * Z) :=
  filter (fun p => p.2 <> 0) (imap (fun i a => (mk i, a)) table).
Definition data_owners (q : QcowFile) : list (owner * Z) :=
  i ← seq 0 (length (vec (l1_table q))); table_owners (OData i) (l2_view q i).
Definition owners (q : QcowFile) : list (owner * Z) :=
  [(OHeader, 0)] ++
  run_owners OL1 (l1_table_offset (header q)) (size_of_cluster q) (length (vec (l1_table q))) ++
  run_owners ORefTable (h_refcount_table_offset (header q)) (size_of_cluster q) (length (vec (rtable q))) ++
  table_owners OL2 (vec (l1_table q)) ++ data_owners q ++ table_owners OBlock (vec (rtable q)) ++
  imap (fun k a => (OAvail k, a)) (avail_clusters q) ++ imap (fun k a => (OUnref k, a)) (unref_clusters q).

Lemma run_owners_in mk base cs n k :
  0 < cs -> Z.of_nat k * cs < 8 * Z.of_nat n -> (mk k, base + Z.of_nat k * cs) ∈ run_owners mk base cs n.
Proof.
  intros Hcs Hk. apply list_elem_of_fmap. exists k. split; [done|]. apply elem_of_seq. split; [lia|].
  unfold div_round_up_u64. pose proof (Z.div_mod (8 * Z.of_nat n) cs). pose proof (Z.mod_pos_bound (8 * Z.of_nat n) cs). case_decide; nia.
Qed.
Lemma imap_in {A} (f : nat -> Z -> A) l k a : l !! k = Some a -> f k a ∈ imap f l.
Proof. intros Hk. apply list_elem_of_lookup. exists k. rewrite list_lookup_imap, Hk. done. Qed.
Lemma table_owners_in mk table k a : table !! k = Some a -> a <> 0 -> (mk k, a) ∈ table_owners mk table.
Proof. intros Hk Hne. apply list_elem_of_filter. split; [done|]. exact (imap_in (fun i a => (mk i, a)) _ _ _ Hk). Qed.

Lemma owners_complete q o a : 0 < size_of_cluster q -> owns [] q o a -> (o, a) ∈ owners q.
Proof.
  intros Hcs Ho. unfold owners. destruct o as [|k|k|k|k j|k|k|k|k]; cbn in Ho.
  - subst. set_solver.
  - destruct Ho as [-> Hk]. do 1 (apply elem_of_app; right). apply elem_of_app. left. by apply run_owners_in.
  - destruct Ho as [-> Hk]. do 2 (apply elem_of_app; right). apply elem_of_app. left. by apply run_owners_in.
  - destruct Ho as [Hk Hne]. do 3 (apply elem_of_app; right). apply elem_of_app. left. by apply table_owners_in.
  - destruct Ho as [Hk Hne]. do 4 (apply elem_of_app; right). apply elem_of_app. left. apply list_elem_of_bind. exists k.
    split; [by apply table_owners_in|]. apply elem_of_seq. split; [lia|]. cbn. apply Nat.nle_gt. intros Hge.
    unfold l2_view, table_view in Hk. cbn in Hk. by rewrite (lookup_ge_None_2 (vec (l1_table q))) in Hk by lia.
  - destruct Ho as [Hk Hne]. do 5 (apply elem_of_app; right). apply elem_of_app. left. by apply table_owners_in.
  - do 6 (apply elem_of_app; right). apply elem_of_app. left. exact (imap_in (fun k a => (OAvail k, a)) _ _ _ Ho).
  - do 7 (apply elem_of_app; right). exact (imap_in (fun k a => (OUnref k, a)) _ _ _ Ho).
  - by destruct Ho.
Qed.

(** ** The checks *)
Definition counts (o : owner) : bool := match o with OAvail _ | OUnref _ | OHeld _ => false | _ => true end.
Definition placed_at (q : QcowFile) (a : Z) : Prop := a mod size_of_cluster q = 0 /\ 0 <= a /\ a + size_of_cluster q <= flen q.

Definition geometry_checked (q : QcowFile) : bool := bool_decide (
  (9 <= cluster_bits (header q) <= 21 /\ size_of_cluster q = 2 ^ cluster_bits (header q) /\
   cluster_mask (raw_file q) = size_of_cluster q - 1 /\ l2_entries q = size_of_cluster q / 8 /\
   rc_cluster_size (refcounts q) = size_of_cluster q /\ refcount_block_entries (refcounts q) = size_of_cluster q / 2 /\
   0 <= virtual_size q <= 2 ^ 44) /\
  (Z.of_nat (length (vec (l1_table q))) = layout_l2 (header q) (size_of_cluster q) /\
   Z.of_nat (length (vec (rtable q))) = layout_refcounts (header q) (size_of_cluster q) /\
   (0 < length (vec (l1_table q)))%nat /\
   max_valid_cluster_offset (refcounts q) = (Z.of_nat (length (vec (rtable q))) * (size_of_cluster q / 2) - 1) * size_of_cluster q /\
   0 <= max_valid_cluster_offset (refcounts q) < 2 ^ 55 /\ refcount_table_offset (refcounts q) = h_refcount_table_offset (header q)) /\
  (capacity (l2_cache q) <> 0%nat /\ capacity (blocks q) <> 0%nat /\ alignment (qf_file (raw_file q)) = 0)).

Definition raw_checked (q : QcowFile) : bool := bool_decide (
  rf_io (qf_file (raw_file q)) = [] /\ 0 <= position (qf_file (raw_file q)) /\ 0 <= flen q /\
  Forall byte_ok (fbyte (img q) <$> seqZ 0 (flen q)) /\ flen q mod size_of_cluster q = 0 /\
  flen q <= max_valid_cluster_offset (refcounts q) + size_of_cluster q).

Definition clusters_ok (q : QcowFile) : bool := bool_decide (
  NoDup (owners q).*2 /\ Forall (placed_at q) (owners q).*2 /\
  Forall (fun p => counts p.1 = true -> 1 <= refcount_of q p.2) (owners q)).

(** Nothing is cached, and the tables are those of the file. *)
Definition tables_ok (q : QcowFile) : bool := bool_decide (
  cmap (l2_cache q) = ∅ /\ cmap (blocks q) = ∅ /\ dirty (l1_table q) = false /\ dirty (rtable q) = false /\
  Forall (fun a => a <> 0 -> Forall (fun e => Z.land e COMPRESSED_FLAG = 0) (disk_table 8 (l2_size q) (img q) a)) (vec (l1_table q)) /\
  masked (disk_table 8 (length (vec (l1_table q))) (img q) (l1_table_offset (header q))) = vec (l1_table q) /\
  disk_table 8 (length (vec (rtable q))) (img q) (h_refcount_table_offset (header q)) = vec (rtable q) /\
  field_values (img q) 0 (take 13 header_widths) = header_list (header q) /\
  (version (header q) = 2 -> header_list_v3 (header q) = [0; 0; 0; DEFAULT_REFCOUNT_ORDER; V2_BARE_HEADER_SIZE]) /\
  (version (header q) <> 2 -> field_values (img q) 72 (drop 13 header_widths) = header_list_v3 (header q))).

Definition image_ok (q : QcowFile) : bool := geometry_checked q && raw_checked q && clusters_ok q && tables_ok q.

Lemma nodup_snd {A} (l : list (A * Z)) x y a : NoDup l.*2 -> (x, a) ∈ l -> (y, a) ∈ l -> x = y.
Proof.
  intros Hnd [i Hi]%list_elem_of_lookup [j Hj]%list_elem_of_lookup.
  assert (i = j) as ->; [|congruence]. apply (NoDup_lookup _ _ _ a Hnd); by rewrite list_lookup_fmap, ?Hi, ?Hj.
Qed.

Lemma geometry_ok_sound q : geometry_checked q = true -> geometry q.
Proof.
  intros H. apply bool_decide_eq_true_1 in H as ((? & ? & ? & ? & ? & ? & ?) & (? & ? & ? & ? & ? & ?) & ? & ? & ?). split; try done. by left.
Qed.

Lemma divide_mod a b : 0 < b -> a mod b = 0 -> (b | a).
Proof. intros Hb. apply Z.mod_divide. lia. Qed.

Lemma image_ok_sound q : image_ok q = true -> Inv [] [] q /\ flushed q.
Proof.
  unfold image_ok. rewrite !andb_true_iff. intros [[[Hg%geometry_ok_sound Hr] Hc] Ht]. pose proof (cs_bounds q Hg) as Hcs.
  apply bool_decide_eq_true_1 in Hr as (Hq & Hp & Hl & Hb & Hm & Hmax).
  apply bool_decide_eq_true_1 in Hc as (Hnd & Hpl & Hcnt). rewrite Forall_forall in Hpl. rewrite Forall_forall in Hcnt.
  apply bool_decide_eq_true_1 in Ht as (He2 & Heb & Hd1 & Hdr & Hcomp & Hl1 & Hrt & Hh1 & Hh2 & Hh3). rewrite Forall_forall in Hcomp.
  assert (forall o a, owns [] q o a -> (o, a) ∈ owners q) as Hown by (intros o a; apply owners_complete; lia).
  split; [|split; [done|done| |]; intros i (t & Hi & _); rewrite ?He2, ?Heb in Hi; by rewrite lookup_empty in Hi].
  assert (forall i t, cmap (l2_cache q) !! i = Some t -> False) as Hn2 by (intros i t; by rewrite He2, lookup_empty).
  assert (forall i t, cmap (blocks q) !! i = Some t -> False) as Hnb by (intros i t; by rewrite Heb, lookup_empty).
  split; [done|split|split|split|].
  - split; [done|]. pose proof (geo_align q Hg). split; [lia|done].
  - intros o. destruct (decide (0 <= o < flen q)) as [Hin|Hout].
    + rewrite Forall_fmap, Forall_forall in Hb. apply (Hb o). apply elem_of_seqZ. lia.
    + rewrite fbyte_outside by done. unfold byte_ok. lia.
  - apply divide_mod; [lia|done].
  - done.
  - intros o o' a Ho Ho'. apply (nodup_snd (owners q) o o' a); auto.
  - intros o a Ho. destruct (Hpl a) as (? & ? & ?); [apply list_elem_of_fmap; exists (o, a); auto|]. split; [apply divide_mod; [lia|done]|done].
  - intros i t Hi. by destruct (Hn2 i t).
  - intros i a Ha Hne _. apply (Hcomp a); [by eapply list_elem_of_lookup_2|done].
  - intros i t Hi. by destruct (Hnb i t).
  - done.
  - done.
  - split; [done|]. case_decide; auto.
  - intros o a Ho Ha _. apply (Hcnt (o, a)); [auto|]. by destruct o.
Qed.

(** * A small qcow2 image: 512-byte clusters, a disk of 64 KiB, nothing allocated but the
    header, the L1 table, the table of reference counts and one block of them. *)
(** ** A host *)
Definition zero_range (f : File) (off n : Z) : File := mkFile (fun o => if decide (off <= o < off + n) then 0 else fbyte f o) (f_len f).
#[export] Instance plain_host : HostFile := {
  file_write_zeroes_at := zero_range;
  file_punch_hole := zero_range;
}.
Lemma zero_range_law f off n : 0 <= off -> 0 <= n -> zeroed f off n (zero_range f off n).
Proof.
  intros Hoff Hn. split; [|cbn; lia]. intros o. unfold fbyte at 1, zero_range. cbn. case_decide as Hin; [done|].
  case_decide; [done|]. symmetry. by apply fbyte_outside.
Qed.
#[export] Instance plain_host_laws : HostFileLaws.
Proof. split; apply zero_range_law. Qed.

(** ** The image *)
Definition toy_header : QcowHeader := mkQcowHeader QCOW_MAGIC 3 0 0 9 65536 0 2 512 1024 1 0 0 0 0 0 4 104.
Definition toy_image_file : File :=
  pwrite (pwrite (pwrite (mkFile (fun _ => 0) 2048) 0 (header_bytes toy_header)) 1024 (be_bytes 8 1536)) 1536 [0; 1; 0; 1; 0; 1; 0; 1].
Definition toy_raw : RawFile := mkRawFile toy_image_file 0 0 [] [].
Definition toy : QcowFile :=
  mkQcowFile (mkQcowRawFile toy_raw 512 511) toy_header (from_vec [0; 0]) 64 (cache_new L2_CACHE [])
    (mkRefCount (from_vec [1536; 0]) 1024 (cache_new REFBLOCK_CACHE []) 256 512 261632) 0 [] [].

Lemma toy_ok : image_ok toy = true.
Proof. vm_compute. reflexivity. Qed.

(** The disk it holds. *)
Definition toy_disk : flat := mkFlat (fun _ => 0) 65536 0.

Lemma toy_holds : holds toy_disk toy.
Proof.
  destruct (image_ok_sound toy toy_ok) as [HI _]. split; [done| |done|done|cbn; lia|].
  - split; [done|done|done|vm_compute; intros ?; discriminate|vm_compute; split; intros ?; discriminate|vm_compute; intros ?; discriminate].
  - intros x Hx. rewrite content_cluster, decide_True; [done|]. unfold cluster_of, entry_of, l2_view, table_view. cbn.
    destruct (Z.to_nat (l1_table_index toy x)) as [|[|[|]]]; done.
Qed.

(** ** A session *)
Definition toy_requests : list request :=
  [Seek (Start 510); Write [1; 2; 3; 4]; Flush; PunchHole 513 1; Reopen [] []; Seek (Start 508); Read 8; Seek (End_ 1)].

(** The disk is written across a cluster boundary, partly cleared, closed and opened again. *)
Lemma qcow_is_flat_disk_witness :
  wp (session toy_requests) (fun reps q' => reps = (flat_session toy_requests toy_disk).1 /\ holds (flat_session toy_requests toy_disk).2 q')
    (fun e q' => e = IoFailed (OsError ENOSPC) /\
       exists done req rest, toy_requests = done ++ req :: rest /\ spared req (flat_session done toy_disk).2 q') toy.
Proof.
  apply (qcow_is_flat_disk toy_requests toy_disk toy toy_holds).
  unfold toy_requests. repeat constructor; cbn; unfold byte_ok, in_width; lia.
Defined.

(** A disk of 10 GiB on a file that was opened for direct I/O. *)
Lemma new_image_is_zero_disk_witness :
  wp (new [] [] 3 (10 * 2 ^ 30)) (fun q _ => holds (mkFlat (fun _ => 0) (10 * 2 ^ 30) 0) q) (fun _ _ => False)
    (mkRawFile (mkFile (fun _ => 0) 0) 4096 0 [] []).
Proof.
  apply (new_image_is_zero_disk 3 (10 * 2 ^ 30)) with (al := 4096); [by right|lia|right; by exists 16| |done|done].
  split_and!; [done|cbn; lia..].
Defined.

Lemma toy_session : (session toy_requests toy).1 =
  Done [Position 510; Count 4; Nothing; Nothing; Nothing; Position 508; Bytes [0; 0; 1; 2; 3; 0; 0; 0]; Invalid].
Proof. vm_compute. reflexivity. Qed.

(** ** A conversion *)
(** A file system without holes: all of a file is data. *)
Definition plain_find (at_end : bool) (f : File) (off : Z) : option Z :=
  if decide (off < f_len f) then Some (if at_end then f_len f else off) else None.
#[local] Instance plain_seek : HostSeek := {| file_seek_data := plain_find false; file_seek_hole := plain_find true |}.
#[local] Instance plain_seek_laws : HostSeekLaws.
Proof.
  split; cbn; unfold plain_find.
  - intros f off Hoff. case_decide; [split; [lia|intros x Hx; lia]|]. intros x Hx. apply fbyte_outside. lia.
  - intros f off o Hoff. case_decide; [|done]. intros [= <-]. rewrite decide_True by done. exists (f_len f). split; [done|lia].
Qed.

Definition note : RawFile := mkRawFile (pwrite (mkFile (fun _ => 0) 0) 0 [72; 101; 108; 108; 111]) 0 0 [] [].
Definition blank : RawFile := mkRawFile (mkFile (fun _ => 0) 0) 4096 0 [] [].

(** A disk of 4 TiB is within the limit on the size of images, but creating one fails: the
    counts are rebuilt for 35 million clusters at most. *)
Lemma large_disk_refused :
  match (new [] [] 3 (2 ^ 42) (buffered_file blank)).1 with
  | Fail (InvalidRefcountTableSize clusters) => bool_decide (2 ^ 42 < MAX_QCOW_FILE_SIZE /\ clusters > MAX_RAM_POINTER_TABLE_SIZE)
  | _ => false
  end = true.
Proof. vm_compute. reflexivity. Qed.

(** A raw file of five bytes becomes an image. *)
Lemma convert_keeps_disk_witness :
  wp (convert ([], []) ([], []) Qcow2) (fun _ s => stored Raw (fbyte (file note)) 5 s.1 /\ stored Qcow2 (fbyte (file note)) 5 s.2)
    (fun e _ => e = WritingData (OsError ENOSPC) /\ Qcow2 = Qcow2) (note, blank).
Proof.
  apply (convert_keeps_disk ([], []) ([], []) note blank Raw Qcow2 (fbyte (file note)) 5).
  - split; [|split; [change (position note) with 0; lia|intros _; split; [lia|split; [done|vm_compute; discriminate]]]]. split; [exists 0|by left].
    split; [by split_and!| |done|cbn; lia|done|done].
    intros o. change (byte_ok (fbyte (pwrite (mkFile (fun _ => 0) 0) 0 [72; 101; 108; 108; 111]) o)). rewrite fbyte_pwrite by done.
    case_decide as Ho; [|rewrite fbyte_outside by (cbn; lia); unfold byte_ok; lia]. cbn in Ho. unfold byte_ok.
    assert (o = 0 \/ o = 1 \/ o = 2 \/ o = 3 \/ o = 4) as Hcase by lia. destruct_or!; subst o; vm_compute; split; (done || (intros ?; discriminate)).
  - split; [by split_and!|]. intros _. split; [lia|right; by exists 16].
Defined.

(** An image that was written to becomes a raw file. *)
Lemma toy_converted :
  let '(_, q) := (session [Seek (Start 510); Write [1; 2; 3; 4]; Flush]) toy in
  let '(r, (_, dst)) := convert ([], []) ([], []) Raw (qf_file (raw_file q), blank) in
  r = Done tt /\ f_len (file dst) = 65536 /\ pread (file dst) 508 8 = [0; 0; 1; 2; 3; 4; 0; 0].
Proof. vm_compute. auto. Qed.

(** A block that is clean has to move before its first count can change. *)
Lemma counting_terminates_witness :
  (set_refcount_rec 600 1024 1 toy).1 <> Crashed /\ set_refcount_rec 600 1024 1 toy = set_cluster_refcount 1024 1 toy.
Proof.
  apply (counting_terminates [] [] toy 1024 1 600).
  - apply (image_ok_sound toy toy_ok).
  - split; [by exists 2|cbn; lia].
  - unfold in_width. lia.
  - right. lia.
  - vm_compute. lia.
Defined.

Lemma seek_data_and_hole_witness :
  wp (seek_data 100) (data_found toy_disk toy 100) (fun _ _ => False) toy /\
  wp (seek_hole 100) (hole_found toy_disk toy 100) (fun _ _ => False) toy.
Proof. apply (seek_data_and_hole toy_disk toy 100 toy_holds). lia. Defined.


(** ** What goes wrong *)
(** A disk of 256 KiB whose counts have to be rebuilt, with the data of its first cluster at
    the 300th cluster of the file. *)
Definition big_header : QcowHeader := mkQcowHeader QCOW_MAGIC 3 0 0 9 262144 0 8 512 1024 1 0 0 0 0 0 4 104.
Definition big_file : File :=
  pwrite (pwrite (pwrite (mkFile (fun _ => 0) 154112) 0 (header_bytes big_header)) 512 (be_bytes 8 1536)) 1536 (be_bytes 8 153600).

(** Rebuilding allocates one block of counts where three are needed, so the counts past the
    first block are lost: the cluster of the data is handed out to the next writer. *)
Lemma rebuild_frees_clusters_in_use :
  match (from [] [] (mkRawFile big_file 0 0 [] [])).1 with
  | Done q => bool_decide (cluster_of q 0 = 153600 /\ 153600 ∈ avail_clusters q)
  | _ => false
  end = true.
Proof. vm_compute. reflexivity. Qed.

(** An image with two clusters left, and a clean L2 table at 2048. *)
Definition full_file : File :=
  pwrite (pwrite (pwrite (pwrite (mkFile (fun _ => 0) 262144) 0 (header_bytes toy_header)) 512 (be_bytes 8 2048)) 1024 (be_bytes 8 1536))
    1536 [0; 1; 0; 1; 0; 1; 0; 1; 0; 1].
Definition full_image : QcowFile :=
  mkQcowFile (mkQcowRawFile (mkRawFile full_file 0 0 [] []) 512 511) toy_header (from_vec [2048; 0]) 64 (cache_new L2_CACHE [])
    (mkRefCount (from_vec [1536; 0]) 1024 (cache_new REFBLOCK_CACHE []) 256 512 261632) 0 [] [2560; 3072].

(** The write fails for lack of space, but the table it was about to move was given up
    already: after the next flush its cluster is handed out, and the L1 table still has it. *)
Lemma failed_write_frees_table :
  let '(r, q) := (ignore (qcow_write [7]) ;;; flush) full_image in
  (qcow_write [7] full_image).1 = Fail (OsError ENOSPC) /\ vec (l1_table q) = [2048; 0] /\ avail_clusters q = [1536; 2048].
Proof. vm_compute. auto. Qed.

(** The errors of writing a table are those of dropping the writer: they are lost. *)
Lemma table_write_errors_lost p1 p2 ps r e : (buffered (p1 :: p2 :: ps) r).1 <> Fail e.
Proof. unfold buffered, ignore. by destruct (write_all _ r) as [[]]. Qed.

(** A flush whose writes all fail reports success, and the table is taken for clean. *)
Lemma failed_flush_succeeds :
  let io := [Complete; Errno 5; Complete; Errno 5; Complete; Complete; Errno 5; Complete; Errno 5; Complete] in
  let '(r, q) := (qcow_write [7] ;;; modify (fun q => put_file (mkRawFile (img q) 0 0 io []) q) ;;; flush) toy in
  r = Done tt /\ dirty (l1_table q) = false /\ header_field (img q) 512 8 = 0 /\ default 0 (vec (l1_table q) !! 0%nat) <> 0.
Proof. vm_compute. split_and!; [reflexivity|reflexivity|reflexivity|discriminate]. Qed.

(** Rewriting the header clears a byte of the last entry of the table of reference counts. *)
Lemma header_clears_last_entry :
  let f := pwrite toy_image_file 1528 (be_bytes 8 0x123456) in
  header_field f 1528 8 = 0x123456 /\ header_field (file (write_to toy_header (mkRawFile f 0 0 [] [])).2) 1528 8 = 0x120056.
Proof. vm_compute. auto. Qed.

(** A copy whose write is short reports success, and the rest of the bytes is missing. *)
Lemma short_write_lost :
  let dst := mkRawFile (file blank) 0 0 [Complete; Complete; Complete; Short 2] [] in
  let '(r, (_, dst)) := convert ([], []) ([], []) Raw (note, dst) in
  r = Done tt /\ pread (file dst) 0 5 = [72; 101; 0; 0; 0].
Proof. vm_compute. auto. Qed.

(** A write within a block zeroes what the read of the block did not deliver. *)
Lemma short_read_zeroes_block :
  let '(r, f) := write [7] (mkRawFile toy_image_file 512 100 [Short 0] []) in
  r = Done 1 /\ header_field toy_image_file 0 4 = QCOW_MAGIC /\ header_field (file f) 0 4 = 0.
Proof. vm_compute. auto. Qed.

(** A table that cannot be written back when it has to leave the cache is dropped. *)
Lemma evicted_table_lost :
  let c := mkCacheMap 1 {[0%nat := mkVecCache [1536] true]} [] in
  let '(r, (c', _)) := cache_insert 1 (from_vec [0]) (fun _ _ => throw (OsError ENOSPC)) (c, raw_file toy) in
  r = Fail (OsError ENOSPC) /\ cmap c' = ∅.
Proof. vm_compute. auto. Qed.

(** A block of counts that moved is free again, but keeps its count. *)
Lemma moved_block_stays_counted :
  let '(r, q) := set_cluster_refcount 1024 1 toy in r = Done [1536] /\ refcount_of q 1536 = 1 /\ vec (rtable q) = [2048; 0].
Proof. vm_compute. auto. Qed.
